(* ===== verification/_CoqProject ===== *)
-Q . S2P
Prelude.v
Text.v
Reference.v
Models.v
Effects.v
Ownership.v
Database.v
Ledger.v
Health.v
Events.v
Verifier.v
Engine.v
EngineSafety.v
EngineTheorems.v
EngineDemo.v
PollStates.v
Codec.v
WebhookProtocol.v
RateLimit.v
Ingress.v
Idempotency.v
Scheduler.v
Poller.v
Names.v
Drafts.v
DraftSpec.v
DraftResources.v
DraftCanonical.v
DraftOrder.v
DraftStored.v
DraftTheorems.v
Compose.v
ComposeTheorems.v
FileSystem.v
StoreBase.v
AtomicTree.v
ConfigRevision.v
TreeBuilder.v
RevisionFormat.v
RevisionSafety.v
RevisionLoad.v
RevisionTheorems.v
ReleaseStore.v
AppDirectories.v
WebhookStore.v
Recovery.v
CleanupStore.v
Maintenance.v
Lifecycle.v
Catalog.v
CleanupPlanner.v
CleanupRun.v
Inspection.v
MixedInspection.v
CatalogTheorems.v
ScanTermination.v
PlanTheorems.v
StoreSafety.v
StoreTheorems.v
StoreDemo.v
CatalogDemo.v
RunTheorems.v
LifecycleTheorems.v
CleanupDemo.v
LifecycleDemo.v
Auth.v
AuthTheorems.v
Requests.v
Resources.v
Actions.v
ActionSafety.v
ActionTheorems.v
ActionDemo.v
Deletion.v
DeletionSafety.v
DeletionTheorems.v
DraftHandlers.v
DraftHandlerTheorems.v
RegistryClient.v
RegistryTheorems.v
