(* ===== verification/Prelude.v ===== *)
(** * SoloDock: a verification library of the deployment control plane

    SoloDock runs containerised applications on one host. It keeps each
    application's configuration and releases in a directory store, its
    operational state in SQLite, and drives Docker and Docker Compose. This
    library models the parts that decide what happens to a running
    application, and proves what makes them correct. Source paths below are
    relative to the repository's [src/] directory.

    ** The program and its parts

    - A deployment is requested through the API or by the registry poller.
      [deploy/scheduler.rs] takes the application's guard and the one Compose
      permit ([mutation/coordinator.rs]), observes the facts again and claims
      the request ([mutation/idempotency.rs]), which inserts the deployment.
    - [deploy/worker.rs], the engine, runs the deployment as a task: resolve the
      release, pull, stop the predecessor, start the candidate, verify its
      health ([deploy/health.rs]), commit or compensate. Every step is recorded
      in the ledger ([deploy/ledger.rs]); containers are only acted upon when
      their labels prove ownership ([docker/ownership.rs]).
    - [registry/poller.rs] looks at the configured reference
      ([registry/reference.rs]) when it is due, and records what it saw in the
      poll state ([registry/poll_state.rs]); [registry/client.rs] asks the
      registry, with the tokens of [registry/auth.rs].
    - [webhook/ingress.rs] accepts signed requests ([webhook/protocol.rs])
      within a rate limit ([webhook/rate.rs]) and wakes the poller.
    - [domain/validation.rs] and [domain/networks.rs] normalise a requested
      draft; [compose/generate.rs] turns it into a Compose document;
      [app_store/] keeps drafts as configuration revisions, releases with
      their documents, and the links that say which release is active;
      [webhook/store.rs] keeps the webhook secrets beside them.
    - At start-up and for every request the store is scanned
      ([app_store/recovery.rs]). [storage_cleanup.rs] plans which revisions,
      releases and leftovers may go, [cleanup_execution.rs] and
      [app_store/cleanup.rs] set them aside and remove them, [retention.rs] does
      so on its own, and [app_unregistration.rs] keeps receipts of deletions.
    - [auth/] keeps the administrator's password, the sessions and the
      throttle of guesses.
    - [api/mutations.rs] creates, configures, starts, stops, restarts and
      deletes applications on request, with the checks of [docker/platform_network.rs] and answers
      through [error.rs].

    ** Files

    - [Prelude] (this file): results, record update, machine integers, tactics.
      [Text]: byte strings and identifiers as text. [Codec]: decimal and
      hexadecimal text, and the class [Crypto] of hashes, MACs and base64.
    - [Reference]: image references, platforms, image identities, manifests.
      [Models]: the records of the domain, of releases and of Docker's answers.
      [Ownership]: the label tests.
    - [Effects]: programs over an event family ([prog], with an error layer
      [eprog]), their traces, and the logic [safe] in which a program is proved
      to respect a protocol given a journal of what happened so far.
    - [Database], [Ledger]: the tables and the ledger's transactions; the
      relation [ledger_step] is one committed transaction of any caller.
      [Health], [Verifier]: deadline, policy and the verification loop.
    - [Events], [Engine]: the engine's events and its stages, in the order of
      the source. [EngineSafety]: the protocol [allowed] and the proof that
      every stage respects it. [EngineTheorems]: the theorems about tasks and
      their composition with the ledger. [EngineDemo]: a concrete host on which
      deployments run, with the witnesses and counterexamples.
    - [PollStates]: the poll state table and the webhook nonces.
      [WebhookProtocol], [RateLimit], [Ingress]: the webhook endpoint.
    - [Idempotency]: keys, claims, effect markers, replayed responses and their
      collection. [Scheduler]: guards, facts and claims, and the system in which
      requests, the engine's tasks and other transactions interleave.
      [Poller]: due times and the decision of one poll.
    - [Names]: the grammars of slugs, names and images. [Drafts]: normalisation
      of a draft, one definition per function of the source. [DraftSpec] states
      what an accepted draft is; [DraftResources], [DraftCanonical],
      [DraftOrder] and [DraftStored] prove parts of it; [DraftTheorems] has the
      theorems and a sample draft. [Compose]: the document and its plan;
      [ComposeTheorems]: what the document means.
    - [FileSystem]: directories with all versions a crash may return to, calls
      that may fail, and crashes. [StoreBase]: atomic writes and permission
      checks. [ConfigRevision]: writing and reading a revision. [ReleaseStore]:
      release links, metadata, loading and finalising a release.
      [AppDirectories]: creation, draft updates, publication of releases and
      tombstones.
    - [AtomicTree], [TreeBuilder]: a tree built under a temporary name and
      published by one rename, for any such tree. [RevisionFormat], [RevisionSafety], [RevisionLoad],
      [RevisionTheorems]: revisions as such trees. [StoreSafety],
      [StoreTheorems]: finalising a release. [StoreDemo]: a concrete store from
      creation to deletion, witnesses and a counterexample.
    - [WebhookStore]: webhook secrets. [Recovery], [Catalog]: the scan of the
      store. [CleanupStore]: artifacts set aside. [Maintenance]: the tables of
      cleanup, retention and unregistration, and programs over files and tables.
      [Lifecycle]: completed deletions and their receipts. [CleanupPlanner]:
      the inventory and the plan. [CleanupRun]: cleanup operations, automatic
      retention and the finalizers.
    - [Inspection], [MixedInspection]: what programs that only read may return.
      [CatalogTheorems], [ScanTermination], [PlanTheorems], [RunTheorems],
      [LifecycleTheorems]: the theorems; [CatalogDemo], [CleanupDemo], [LifecycleDemo]: concrete stores.
    - [Auth], [AuthTheorems]: sessions, passwords, throttle.
    - [Requests]: the error answers and the calls of the handlers.
      [Resources]: what a handler checks before it acts. [Actions]: start, stop
      and restart; [ActionSafety], [ActionTheorems], [ActionDemo] their journal,
      theorems and a concrete host. [Deletion], [DeletionSafety],
      [DeletionTheorems]: preview and deletion, likewise. [DraftHandlers],
      [DraftHandlerTheorems]: creation and drafts.
    - [RegistryClient], [RegistryTheorems]: look-ups in a
      registry and the configurations of images.

    ** How the code is modelled

    Pure functions are Rocq functions under the source's names. Fallible code
    returns [result] with the source's error type. Transactions are functions
    from the tables to a result and new tables; a refused transaction changes
    nothing. The engine, the handlers of [api/mutations.rs] and the registry
    client, whose steps interleave with the rest of the world, are
    programs: each read or write of another component is an event answered by
    an unconstrained environment, so theorems hold whatever Docker, the stores,
    registries and other tasks do; where a theorem needs an answer to be
    sensible, its hypothesis says which. A timeout may lose the answer of any
    call it covers. Handlers that make one decision ([receive], [schedule],
    [poll_one], [plan_app]) are functions of a view that holds every answer
    they get, with separate answers for reads at different points. The store's
    operations are programs over file-system calls. A directory keeps the
    versions since it was last synchronised, and a crash returns it to any of
    them, each directory on its own; the content of a file is unspecified
    after a crash unless it was synchronised; any call may fail, and a failed
    removal of a tree leaves any part of it. Cleanup and deletion receipts are
    programs over file-system calls and table statements. The requests of
    authentication are functions of its tables, in any sequence: the credential
    guard and single statements make each of them one step. Where the source
    iterates over a hash map the model takes one fixed order.
    Integers
    are in Z with their widths written out where they matter; instants are
    nanoseconds, identifiers are numbers, strings are bytes.

    Code outside the repository is a parameter with its documented laws as a
    class: [UuidText] (printing and parsing identifiers), [Crypto], [SqlTime]
    (SQLite compares the text of timestamps, which agrees with the clock to the
    second), [StoreText], [ComposeText], [TombstoneText], [WebhookText],
    [RecoveryText] and [CleanupText] (the TOML and YAML texts of the store and
    how they are read), [MaintenanceJson], [ErrorJson], [ActionJson],
    [DeletionJson], [DraftJson] and [RegistryJson] (JSON bodies), [PasswordHashing], [UrlText]
    (the [url] crate), [Interpolation] (Compose's
    treatment of dollar signs), other JSON printers as plain functions. Each class
    has a concrete instance, on which the witnesses are evaluated. Printers of
    documents are total: no value of these types fails to print.

    ** What the theorems show

    - Engine: no Compose command before its durable marker; a stop or removal
      only hits the one recorded container; a start only after the binds of
      the loaded configuration were checked again and with nothing else
      running; a release becomes active only on complete evidence; what each
      terminal status tells, with the one exception of a credential lost during
      compensation; a task that returned has settled its ledger row, unless the
      database failed that very write.
    - Ledger: every reachable database is well formed, histories only advance,
      each operation succeeds exactly where it should, startup closes what was
      left open.
    - Verifier: passing means the exact container, ready in one uninterrupted
      run over the whole window; the loop ends within its rounds.
    - Scheduler and idempotency: one deployment at a time over every
      interleaving of requests, engine tasks and failures, and no deployment
      left open without its task but where the database failed; deployments only
      on current facts; a key is claimed once and its
      response replayed; the deployment claim is one atomic ledger step;
      collection spares what is live.
    - Poller: a deployment is only requested for a target that needs it, once
      per target through the composed components while no deployment is
      interrupted; due times are bounded.
    - Webhooks: only authentic requests are accepted, each once but for a
      stated edge; headers have
      one spelling; signing is unambiguous; the rate limit holds over every
      interval; no wake-up is lost.
    - Validation: an accepted draft is well formed, does not depend on the
      order of the request, applies secret operations exactly, and confines
      bind sources to the allowed roots.
    - Compose: the document refers only to what it defines, means the draft
      after interpolation (image, mounts, ports, restart, health, confinement),
      attaches the networks Docker is expected to show,
      and its container passes the ownership test for its application.
    - Store: wherever an attempt or the machine stops, a restart finds a
      revision complete or not at all, and a release's finalisation in one of
      its four phases, from which a retry completes; what was published is
      loaded back, integrity check included, and normalises to the same draft,
      less the acknowledgement of the request;
      a release is only loaded with the revision and the document it was
      signed with.
    - Scan: an application reported valid has everything it needs in the
      store, intact and signed, with Compose documents that are generated from
      the signed image and revision; the scan changes nothing and always returns.
    - Cleanup and retention: a plan spares whatever is referenced, in use or
      recent; execution takes only what a plan of the same pass lists, by
      renaming it, and removes it once that is recorded. A deletion leaves its
      receipt before its last file goes.
    - Authentication: an accepted session was opened with the password, is
      young, and was neither logged out nor revoked; guesses are bounded over
      every interval by the attempts with the right password in it.
    - Actions: a command runs only under both guards, after its durable
      marker, for the verified release and the one container the latest listing
      shows, and a restart starts only what it stopped; success is recorded
      only when a later listing shows it; every handler answers and settles its
      operation, unless the database fails both of its attempts.
    - Deletion: a directory is moved into the trash only on the confirmed facts
      of a preview of the same session that is spent, read again since the last
      command; a
      container is removed only if that was asked for and it is the one shown.
    - Creation and drafts: an application or a draft is stored only under the
      locks, for the revision expected, after every check, and the answer
      recorded tells what was stored.
    - Registry client: credentials go only to trusted token endpoints, tokens
      only to the registry they were issued for, nothing in the clear; a
      resolved image is what was served, byte for byte; requests and bodies are
      bounded.
    - Behaviours that contradict the documentation are stated as theorems on
      concrete runs and marked as findings.

    ** Bounds and fuel

    Loops of the source run over lists, and their models recurse over the list,
    except the verifier's. It is given one round per second of its deadline and
    one more ([Verifier.verify_fuel]); [Verifier.verify_terminates] proves that
    they are never used up when the clock does not run backwards and a sleep
    takes its second. Splitting and trimming of text are given the length of the
    text, which each round shortens. The walks over directory trees ([Recovery],
    [CleanupStore]) take the number of entries a tree may have as a parameter;
    the safety theorems hold for every value, and [ScanTermination.scan_returns]
    proves that for every tree there is a number large enough for the scan.

    ** What is not modelled

    Handlers of the HTTP API other than those named, routing and request
    extraction; the image cleanup; the store of registry credentials and the
    finalizers of its operations; the normalisation of file modes at start-up;
    logs, statistics and events of containers; configuration, telemetry and
    process start-up. Docker, Compose and registry I/O are answered by the
    environment. *)

From stdpp Require Export pretty.
From stdpp Require Export base tactics option list gmap strings fin_maps.
From stdpp Require Export numbers.

Set Default Proof Using "Type".

(** ** Scope of the development's own notations *)

Declare Scope solodock_scope.
Delimit Scope solodock_scope with solodock.
Global Open Scope solodock_scope.

(** ** Results: Rust's [Result<A, E>] with the error type first *)

Inductive result (E A : Type) : Type :=
| Ok (a : A)
| Err (e : E).
Arguments Ok {E A} _.
Arguments Err {E A} _.

#[export] Instance result_eq_dec {E A} `{EqDecision E, EqDecision A} : EqDecision (result E A).
Proof. solve_decision. Defined.

#[export] Instance result_ret {E} : MRet (result E) := fun A a => Ok a.
#[export] Instance result_bind {E} : MBind (result E) := fun A B f r =>
  match r with Ok a => f a | Err e => Err e end.

(** Rust's [map_err], [Option::ok_or], [Result::ok], [Result::is_ok]. *)
Definition map_err {E F A} (f : E -> F) (r : result E A) : result F A :=
  match r with Ok a => Ok a | Err e => Err (f e) end.

Definition ok_or {E A} (o : option A) (e : E) : result E A :=
  match o with Some a => Ok a | None => Err e end.

Definition result_ok {E A} (r : result E A) : option A :=
  match r with Ok a => Some a | Err _ => None end.

Definition is_ok {E A} (r : result E A) : bool :=
  match r with Ok _ => true | Err _ => false end.

(** The guard idiom of the source: [if c { return Err(e) }]. *)
Definition refuse_if {E} (c : bool) (e : E) : result E unit :=
  if c then Err e else Ok tt.

Lemma bind_ok_inv {E A B} (r : result E A) (f : A -> result E B) b :
  (r ≫= f) = Ok b -> exists a, r = Ok a /\ f a = Ok b.
Proof. destruct r as [a|e]; simpl; [eauto|done]. Qed.

Lemma bind_err_inv {E A B} (r : result E A) (f : A -> result E B) e :
  (r ≫= f) = Err e -> r = Err e \/ exists a, r = Ok a /\ f a = Err e.
Proof. destruct r as [a|e']; simpl; [eauto|]. intros [= ->]. by left. Qed.

Lemma ok_bind {E A B} (a : A) (f : A -> result E B) : (Ok a ≫= f) = f a.
Proof. reflexivity. Qed.

Lemma refuse_if_false {E} (e : E) c : c = false -> refuse_if c e = Ok tt.
Proof. by intros ->. Qed.

Lemma refuse_if_ok {E} (c : bool) (e : E) u : refuse_if c e = Ok u -> c = false.
Proof. by destruct c. Qed.

Lemma map_err_ok_inv {E F A} (f : E -> F) (r : result E A) a :
  map_err f r = Ok a -> r = Ok a.
Proof. destruct r; simpl; congruence. Qed.

Lemma ok_or_ok_inv {E A} (o : option A) (e : E) a : ok_or o e = Ok a -> o = Some a.
Proof. destruct o; simpl; congruence. Qed.

(** ** Record update

    [r <| f := v |>] is Rust's field assignment on a copied struct. A record
    takes part by declaring its eta expansion as an [Eta] instance; the setter
    of a field is computed from it. *)

Class Eta (R : Type) := eta_expand : R -> R.
Class Setter {R T : Type} (proj : R -> T) := field_set : (T -> T) -> R -> R.
Arguments field_set {R T} proj {_} _ _.

Ltac build_setter :=
  match goal with
  | |- @Setter ?R ?T ?proj =>
      let i := constr:(_ : Eta R) in
      let e := eval red in i in
      let p := eval pattern proj in e in
      match p with
      | ?body _ =>
          let s := eval cbv beta in
            (fun (f : T -> T) => body (fun r : R => f (proj r))) in
          exact s
      end
  end.
#[export] Hint Extern 0 (Setter _) => build_setter : typeclass_instances.

Notation "x <| proj := v |>" := (field_set proj (fun _ => v) x)
  (at level 1, left associativity, proj at level 99, v at level 200,
   format "x  <| proj  :=  v |>") : solodock_scope.

(** ** Machine integers *)

(** Identifiers are 128-bit numbers: [uuid::Uuid]. *)
Abbreviation Uuid := N (only parsing).
(** Instants: nanoseconds since the epoch ([time::OffsetDateTime] in UTC). *)
Abbreviation Time := Z (only parsing).

Definition u8_max : Z := 255.
Definition u16_max : Z := 65535.
Definition u32_max : Z := 4294967295.
Definition u64_max : Z := 18446744073709551615.
Definition i64_min : Z := -9223372036854775808.
Definition i64_max : Z := 9223372036854775807.

(** [saturating_add] at an unsigned width. *)
Definition saturating_add (max a b : Z) : Z := Z.min max (a + b).
(** [saturating_sub] at an unsigned width. *)
Definition saturating_sub (a b : Z) : Z := Z.max 0 (a - b).

(** ** Options as booleans *)

(** [Option::is_some_and] and [Option::is_none_or]. *)
Definition is_some_and {A} (o : option A) (f : A -> bool) : bool :=
  match o with Some a => f a | None => false end.
Definition is_none_or {A} (o : option A) (f : A -> bool) : bool :=
  match o with Some a => f a | None => true end.
Definition is_some {A} (o : option A) : bool :=
  match o with Some _ => true | None => false end.
Definition is_none {A} (o : option A) : bool := negb (is_some o).

(** SQL's [COALESCE] of two columns. *)
Definition coalesce {A} (a b : option A) : option A :=
  match a with Some _ => a | None => b end.

(** Decidable equality as a boolean, the source's [==]. *)
Notation "a =? b" := (bool_decide (a = b)) (at level 70) : solodock_scope.
Notation "a ≠? b" := (negb (bool_decide (a = b))) (at level 70) : solodock_scope.

Lemma is_some_Some {A} (o : option A) : is_some o = true <-> exists a, o = Some a.
Proof. destruct o as [a|]; simpl; split; try done; [by eexists|by intros [? [=]]]. Qed.

Lemma is_none_true {A} (o : option A) : is_none o = true -> o = None.
Proof. by destruct o. Qed.

(** ** Lists *)

Definition is_nil {A} (l : list A) : bool := match l with [] => true | _ => false end.

(** SQL's [SELECT COALESCE(MAX(x),0)] over a list of integers. *)
Definition max_or_zero (l : list Z) : Z := foldr Z.max 0%Z l.

Lemma max_or_zero_upper (l : list Z) z : z ∈ l -> (z <= max_or_zero l)%Z.
Proof.
  induction l as [|x l IH]; [by intros Hz%not_elem_of_nil|].
  rewrite elem_of_cons. intros [->|Hz]; simpl; [|specialize (IH Hz)]; lia.
Qed.

(** ** Automation *)

Create HintDb solodock.

(** Breaks a hypothesis that a chain of results succeeded. *)
Ltac ok_inv :=
  repeat match goal with
  | H : (_ ≫= _) = Ok _ |- _ =>
      let a := fresh "a" in let E := fresh "E" in
      apply bind_ok_inv in H as (a & E & H)
  | H : Ok _ = Ok _ |- _ => injection H as H
  | H : Err _ = Ok _ |- _ => discriminate H
  | H : Ok _ = Err _ |- _ => discriminate H
  | H : refuse_if _ _ = Ok _ |- _ => apply refuse_if_ok in H
  | H : map_err _ _ = Ok _ |- _ => apply map_err_ok_inv in H
  | H : ok_or _ _ = Ok _ |- _ => apply ok_or_ok_inv in H
  end; simplify_eq.

(** Turns the boolean guards of the source into propositions. *)
Ltac bools :=
  repeat match goal with
  | H : _ && _ = true |- _ => apply andb_true_iff in H as [? ?]
  | H : _ || _ = false |- _ => apply orb_false_iff in H as [? ?]
  | H : negb _ = true |- _ => apply negb_true_iff in H
  | H : negb _ = false |- _ => apply negb_false_iff in H
  | H : bool_decide _ = true |- _ => apply bool_decide_eq_true in H
  | H : bool_decide _ = false |- _ => apply bool_decide_eq_false in H
  end.
