(* ===== verification/Text.v ===== *)
(** * Text: the byte-string operations the source uses

    Rust's [&str] and [String] are byte sequences; they are modelled as Rocq
    strings, whose characters are bytes. The operations are those of [str]
    that SoloDock calls: ASCII classes, [contains], [rfind] with slicing,
    [split], [join], [strip_prefix], [to_ascii_lowercase]. *)

From S2P Require Import Prelude.
From Stdlib Require Import Ascii.

#[global] Arguments String.append !_ _ / : simpl nomatch.

Definition code (c : ascii) : N := N_of_ascii c.

Definition is_ascii_digit (c : ascii) : bool := (48 <=? code c)%N && (code c <=? 57)%N.
Definition is_ascii_lowercase (c : ascii) : bool := (97 <=? code c)%N && (code c <=? 122)%N.
Definition is_ascii_uppercase (c : ascii) : bool := (65 <=? code c)%N && (code c <=? 90)%N.
Definition is_ascii_alphabetic (c : ascii) : bool := is_ascii_lowercase c || is_ascii_uppercase c.
Definition is_ascii_alphanumeric (c : ascii) : bool := is_ascii_alphabetic c || is_ascii_digit c.
Definition is_ascii_control (c : ascii) : bool := (code c <=? 31)%N || (code c =? 127)%N.
(** Rust's ASCII whitespace: space, tab, line feed, form feed, carriage return. *)
Definition is_ascii_whitespace (c : ascii) : bool :=
  (code c =? 32)%N || (code c =? 9)%N || (code c =? 10)%N || (code c =? 12)%N || (code c =? 13)%N.
(** [b'a'..=b'f'] together with the digits: a lower-case hexadecimal digit. *)
Definition is_lower_hex (c : ascii) : bool :=
  is_ascii_digit c || ((97 <=? code c)%N && (code c <=? 102)%N).

Definition lower_byte (c : ascii) : ascii :=
  if is_ascii_uppercase c then ascii_of_N (code c + 32) else c.

(** [value.bytes().all(f)] and [value.bytes().any(f)]. *)
Fixpoint str_all (f : ascii -> bool) (s : string) : bool :=
  match s with
  | EmptyString => true
  | String c s' => f c && str_all f s'
  end.

Fixpoint str_any (f : ascii -> bool) (s : string) : bool :=
  match s with
  | EmptyString => false
  | String c s' => f c || str_any f s'
  end.

(** [value.bytes().enumerate().all(f)] from index [i]. *)
Fixpoint str_all_indexed (f : nat -> ascii -> bool) (i : nat) (s : string) : bool :=
  match s with
  | EmptyString => true
  | String c s' => f i c && str_all_indexed f (S i) s'
  end.

Definition char_eqb (a b : ascii) : bool := Ascii.eqb a b.

(** [value.contains(c)] for a character and for a set of characters. *)
Definition contains_char (c : ascii) (s : string) : bool := str_any (char_eqb c) s.
Definition contains_any (cs : list ascii) (s : string) : bool :=
  str_any (fun c => existsb (char_eqb c) cs) s.

(** [value.starts_with(p)] and [value.contains(p)] for a substring. *)
Definition starts_with (p s : string) : bool := String.prefix p s.
Fixpoint contains_str (p s : string) : bool :=
  String.prefix p s ||
  match s with
  | EmptyString => false
  | String _ s' => contains_str p s'
  end.

(** [value[..n]] and [value[n..]]. *)
Fixpoint str_take (n : nat) (s : string) : string :=
  match n, s with
  | S n', String c s' => String c (str_take n' s')
  | _, _ => EmptyString
  end.

Fixpoint str_drop (n : nat) (s : string) : string :=
  match n, s with
  | S n', String _ s' => str_drop n' s'
  | _, _ => s
  end.

(** [value.rfind(c)]: the index of the last occurrence. *)
Fixpoint rfind (c : ascii) (s : string) : option nat :=
  match s with
  | EmptyString => None
  | String a s' =>
      match rfind c s' with
      | Some i => Some (S i)
      | None => if char_eqb c a then Some 0 else None
      end
  end.

(** [value.rsplit_once(c)] and [value.split_once(c)]. *)
Definition rsplit_once (c : ascii) (s : string) : option (string * string) :=
  match rfind c s with
  | Some i => Some (str_take i s, str_drop (S i) s)
  | None => None
  end.

Fixpoint split_once (c : ascii) (s : string) : option (string * string) :=
  match s with
  | EmptyString => None
  | String a s' =>
      if char_eqb c a then Some (EmptyString, s')
      else match split_once c s' with
           | Some (l, r) => Some (String a l, r)
           | None => None
           end
  end.

(** [value.split(c)]: never empty, adjacent separators give empty parts. *)
Fixpoint split (c : ascii) (s : string) : list string :=
  match s with
  | EmptyString => [EmptyString]
  | String a s' =>
      if char_eqb c a then EmptyString :: split c s'
      else match split c s' with
           | [] => [String a EmptyString]
           | p :: ps => String a p :: ps
           end
  end.

(** [parts.join(sep)]. *)
Fixpoint join (sep : string) (parts : list string) : string :=
  match parts with
  | [] => EmptyString
  | [p] => p
  | p :: ps => p +:+ sep +:+ join sep ps
  end.

(** [value.strip_prefix(p)]. *)
Fixpoint strip_prefix (p s : string) : option string :=
  match p, s with
  | EmptyString, _ => Some s
  | String a p', String b s' => if char_eqb a b then strip_prefix p' s' else None
  | String _ _, EmptyString => None
  end.

Fixpoint to_ascii_lowercase (s : string) : string :=
  match s with
  | EmptyString => EmptyString
  | String c s' => String (lower_byte c) (to_ascii_lowercase s')
  end.

Definition first_byte (s : string) : option ascii :=
  match s with EmptyString => None | String c _ => Some c end.

Fixpoint last_byte (s : string) : option ascii :=
  match s with
  | EmptyString => None
  | String c EmptyString => Some c
  | String _ s' => last_byte s'
  end.

Definition str_is_empty (s : string) : bool :=
  match s with EmptyString => true | String _ _ => false end.

(** The order SQLite uses on TEXT columns: bytewise. *)
Fixpoint text_ltb (a b : string) : bool :=
  match a, b with
  | _, EmptyString => false
  | EmptyString, String _ _ => true
  | String x a', String y b' =>
      (code x <? code y)%N || ((code x =? code y)%N && text_ltb a' b')
  end.

(** ** Identifiers as text

    [uuid::Uuid] is a third-party type: its printer and parser are parameters.
    The one law the source relies on is that a printed identifier parses back. *)

Class UuidText := {
  uuid_to_string : Uuid -> string;
  uuid_parse : string -> option Uuid;
  uuid_parse_to_string : forall u, uuid_parse (uuid_to_string u) = Some u;
}.

(** ** Lemmas *)

Lemma uuid_to_string_inj `{UuidText} u v : uuid_to_string u = uuid_to_string v -> u = v.
Proof. intros E. apply (f_equal uuid_parse) in E. rewrite !uuid_parse_to_string in E. by injection E. Qed.

Lemma char_eqb_eq a b : char_eqb a b = true <-> a = b.
Proof. apply Ascii.eqb_eq. Qed.

Lemma char_eqb_refl a : char_eqb a a = true.
Proof. apply Ascii.eqb_refl. Qed.

Lemma append_nil_r s : s +:+ EmptyString = s.
Proof. induction s as [|c s IH]; simpl; congruence. Qed.

Lemma append_assoc s1 s2 s3 : (s1 +:+ s2) +:+ s3 = s1 +:+ (s2 +:+ s3).
Proof. induction s1 as [|c s IH]; simpl; congruence. Qed.

Lemma length_append s1 s2 : String.length (s1 +:+ s2) = String.length s1 + String.length s2.
Proof. induction s1 as [|c s IH]; simpl; lia. Qed.

Lemma append_inj_l s t1 t2 : s +:+ t1 = s +:+ t2 -> t1 = t2.
Proof. induction s as [|c s IH]; simpl; [done|]. intros [= ?]. auto. Qed.

Lemma str_all_append f s1 s2 : str_all f (s1 +:+ s2) = str_all f s1 && str_all f s2.
Proof. induction s1 as [|c s IH]; simpl; [done|]. by rewrite IH, andb_assoc. Qed.

Lemma str_any_append f s1 s2 : str_any f (s1 +:+ s2) = str_any f s1 || str_any f s2.
Proof. induction s1 as [|c s IH]; simpl; [done|]. by rewrite IH, orb_assoc. Qed.

Lemma str_any_all f s : str_any f s = negb (str_all (fun c => negb (f c)) s).
Proof.
  induction s as [|c s IH]; simpl; [done|].
  rewrite IH. by destruct (f c), (str_all _ s).
Qed.

Lemma str_all_impl (f g : ascii -> bool) s :
  (forall c, f c = true -> g c = true) -> str_all f s = true -> str_all g s = true.
Proof.
  intros Hfg. induction s as [|c s IH]; simpl; [done|].
  intros [Hc Hs]%andb_true_iff. rewrite (Hfg _ Hc). auto.
Qed.

Lemma str_all_not_any (f g : ascii -> bool) s :
  (forall c, f c = true -> g c = false) -> str_all f s = true -> str_any g s = false.
Proof.
  intros Hfg Hs. rewrite str_any_all. apply negb_false_iff.
  eapply str_all_impl; [|exact Hs]. intros c Hc. by rewrite Hfg.
Qed.

Lemma contains_char_append c s1 s2 :
  contains_char c (s1 +:+ s2) = contains_char c s1 || contains_char c s2.
Proof. apply str_any_append. Qed.

(** The last occurrence splits the text, and nothing after it contains it. *)
Lemma rfind_Some c s i :
  rfind c s = Some i ->
  s = str_take i s +:+ String c (str_drop (S i) s) /\ contains_char c (str_drop (S i) s) = false.
Proof.
  revert i. induction s as [|a s IH]; intros i; [done|]. cbn [rfind].
  destruct (rfind c s) as [j|] eqn:Hr.
  - intros [= <-]. destruct (IH j eq_refl) as [Hs Hc].
    split; [cbn [str_take str_drop String.append]; by f_equal|done].
  - destruct (char_eqb c a) eqn:Ha; [|done]. intros [= <-].
    apply char_eqb_eq in Ha as ->. split; [done|]. cbn [str_drop]. clear IH.
    induction s as [|b s IH]; [done|]. cbn [rfind] in Hr.
    destruct (rfind a s); [done|]. destruct (char_eqb a b) eqn:Hb; [done|].
    unfold contains_char in *. cbn [str_any]. rewrite Hb. by apply IH.
Qed.

Lemma rfind_None c s : rfind c s = None <-> contains_char c s = false.
Proof.
  unfold contains_char. induction s as [|a s IH]; [done|]. cbn [rfind str_any].
  destruct (rfind c s) as [j|] eqn:Hr; destruct (char_eqb c a); simpl; try done.
  split; [done|]. intros H. by apply IH in H.
Qed.

Lemma rfind_lt c s i : rfind c s = Some i -> i < String.length s.
Proof.
  revert i. induction s as [|a s IH]; intros i; [done|]. cbn [rfind String.length].
  destruct (rfind c s) as [j|]; [intros [= <-]; specialize (IH j eq_refl); lia|].
  destruct (char_eqb c a); [intros [= <-]; lia|done].
Qed.

Lemma rfind_append_l c l r :
  contains_char c r = false -> rfind c (l +:+ r) = rfind c l.
Proof.
  intros Hr. induction l as [|a l IH]; cbn [String.append rfind].
  - by apply rfind_None.
  - by rewrite IH.
Qed.

(** A text whose tail has no separator is split exactly before that tail. *)
Lemma rfind_append c l r :
  contains_char c r = false -> rfind c (l +:+ String c r) = Some (String.length l).
Proof.
  intros Hr. induction l as [|a l IH]; cbn [String.append rfind String.length].
  - apply rfind_None in Hr. by rewrite Hr, char_eqb_refl.
  - by rewrite IH.
Qed.

Lemma str_take_append l r : str_take (String.length l) (l +:+ r) = l.
Proof. induction l as [|a l IH]; simpl; [by destruct r|congruence]. Qed.

Lemma str_drop_append l r : str_drop (String.length l) (l +:+ r) = r.
Proof. induction l as [|a l IH]; simpl; [by destruct r|done]. Qed.

Lemma str_drop_S_append l c r : str_drop (S (String.length l)) (l +:+ String c r) = r.
Proof. induction l as [|a l IH]; [by destruct r|exact IH]. Qed.

Lemma rsplit_once_append c l r :
  contains_char c r = false -> rsplit_once c (l +:+ String c r) = Some (l, r).
Proof.
  intros Hr. unfold rsplit_once.
  by rewrite rfind_append, str_take_append, str_drop_S_append.
Qed.

Lemma split_ne c s : split c s <> [].
Proof. destruct s as [|a s]; simpl; [done|]. destruct (char_eqb c a); [done|]. by destruct (split c s). Qed.

(** Splitting and joining are inverse. *)
Lemma join_split c s : join (String c EmptyString) (split c s) = s.
Proof.
  induction s as [|a s IH]; [done|]. cbn [split].
  pose proof (split_ne c s) as Hne. destruct (char_eqb c a) eqn:Hc.
  - apply char_eqb_eq in Hc as ->. destruct (split a s) as [|p ps]; [done|].
    change (EmptyString +:+ String a (join (String a EmptyString) (p :: ps)) = String a s).
    by rewrite IH.
  - destruct (split c s) as [|p ps]; [done|]. rewrite <- IH. by destruct ps.
Qed.

Lemma split_no_sep c s : contains_char c s = false -> split c s = [s].
Proof.
  unfold contains_char. induction s as [|a s IH]; [done|].
  cbn [str_any split]. intros [-> Hs]%orb_false_iff. by rewrite IH.
Qed.

Lemma split_append c l r :
  contains_char c l = false -> split c (l +:+ String c r) = l :: split c r.
Proof.
  unfold contains_char. induction l as [|a l IH]; cbn [String.append split str_any].
  - by rewrite char_eqb_refl.
  - intros [-> Hl]%orb_false_iff. by rewrite IH.
Qed.

(** No part of a split contains the separator. *)
Lemma split_parts c s : Forall (fun p => contains_char c p = false) (split c s).
Proof.
  induction s as [|a s IH]; [by repeat constructor|]. cbn [split].
  destruct (char_eqb c a) eqn:Hc; [by constructor|].
  destruct (split c s) as [|p ps]; [repeat constructor; unfold contains_char; simpl; by rewrite Hc|].
  inversion IH; subst. constructor; [|done]. unfold contains_char. simpl. by rewrite Hc.
Qed.

(** ** Adjacent characters *)

Fixpoint adjacent (x y : ascii) (s : string) : bool :=
  match s with
  | String a ((String b _) as s') => (char_eqb x a && char_eqb y b) || adjacent x y s'
  | _ => false
  end.

Definition ends_with_char (x : ascii) (s : string) : bool :=
  match last_byte s with Some a => char_eqb x a | None => false end.
Definition starts_with_char (x : ascii) (s : string) : bool :=
  match first_byte s with Some a => char_eqb x a | None => false end.

Lemma adjacent_append x y s t :
  adjacent x y (s +:+ t) =
  adjacent x y s || adjacent x y t || (ends_with_char x s && starts_with_char y t).
Proof.
  induction s as [|a s IH].
  - cbn. by rewrite orb_false_r.
  - destruct s as [|b s].
    + change (String a EmptyString +:+ t) with (String a t).
      unfold ends_with_char, starts_with_char. destruct t as [|b t];
        cbn [last_byte first_byte]; [by destruct (char_eqb x a)|].
      change (adjacent x y (String a (String b t)))
        with ((char_eqb x a && char_eqb y b) || adjacent x y (String b t)).
      by destruct (char_eqb x a), (char_eqb y b), (adjacent x y (String b t)).
    + change (String a (String b s) +:+ t) with (String a (String b s +:+ t)).
      change (adjacent x y (String a (String b s +:+ t)))
        with ((char_eqb x a && char_eqb y b) || adjacent x y (String b s +:+ t)).
      rewrite IH.
      change (ends_with_char x (String a (String b s))) with (ends_with_char x (String b s)).
      change (adjacent x y (String a (String b s)))
        with ((char_eqb x a && char_eqb y b) || adjacent x y (String b s)).
      by rewrite !orb_assoc.
Qed.

Lemma adjacent_no_first x y s : contains_char x s = false -> adjacent x y s = false.
Proof.
  unfold contains_char. induction s as [|a s IH]; [done|]. cbn [str_any].
  intros [Ha Hs]%orb_false_iff. destruct s as [|b s]; [done|].
  cbn [adjacent]. rewrite Ha. by apply IH.
Qed.

Lemma adjacent_no_second x y s : contains_char y s = false -> adjacent x y s = false.
Proof.
  unfold contains_char. induction s as [|a s IH]; [done|]. cbn [str_any].
  intros [Ha Hs]%orb_false_iff. destruct s as [|b s]; [done|].
  cbn [adjacent]. pose proof Hs as Hs'. cbn [str_any] in Hs'. apply orb_false_iff in Hs' as [-> _].
  rewrite andb_false_r. by apply IH.
Qed.

Lemma ends_with_no_char x s : contains_char x s = false -> ends_with_char x s = false.
Proof.
  unfold contains_char, ends_with_char. induction s as [|a s IH]; [done|]. cbn [str_any].
  intros [Ha Hs]%orb_false_iff. destruct s as [|b s]; [done|]. by apply IH.
Qed.

Lemma ends_with_append x s t : str_is_empty t = false -> ends_with_char x (s +:+ t) = ends_with_char x t.
Proof.
  intros Ht. unfold ends_with_char. induction s as [|a s IH]; [done|].
  cbn [String.append]. destruct (s +:+ t) eqn:E; [|exact IH].
  by destruct s, t.
Qed.

(** A text with no adjacent [:] and [/] has no scheme separator. *)
Lemma no_scheme s : adjacent ":" "/" s = false -> contains_str "://" s = false.
Proof.
  induction s as [|a s IH]; [done|]. cbn [contains_str]. intros Hs.
  assert (Ht : adjacent ":" "/" s = false).
  { destruct s as [|b s]; [done|]. cbn [adjacent] in Hs. by apply orb_false_iff in Hs as [_ ?]. }
  rewrite (IH Ht), orb_false_r. destruct s as [|b s].
  { cbn [String.prefix]. by destruct (ascii_dec ":" a). }
  cbn [adjacent] in Hs. apply orb_false_iff in Hs as [Hs _]. cbn [String.prefix].
  destruct (ascii_dec ":" a) as [<-|]; [|done].
  destruct (ascii_dec "/" b) as [<-|]; [done|done].
Qed.

Lemma strip_prefix_append p s : strip_prefix p (p +:+ s) = Some s.
Proof. induction p as [|a p IH]; simpl; [done|]. by rewrite char_eqb_refl. Qed.

Lemma strip_prefix_Some p s r : strip_prefix p s = Some r -> s = p +:+ r.
Proof.
  revert s. induction p as [|a p IH]; intros s; simpl; [by intros [= ->]|].
  destruct s as [|b s]; [done|]. destruct (char_eqb a b) eqn:Hab; [|done].
  apply char_eqb_eq in Hab as ->. intros ?. f_equal. auto.
Qed.

Lemma text_ltb_irrefl a : text_ltb a a = false.
Proof.
  induction a as [|c a IH]; [done|]. cbn [text_ltb].
  rewrite IH, N.ltb_irrefl, andb_false_r. done.
Qed.

Lemma text_ltb_asym a b : text_ltb a b = true -> text_ltb b a = false.
Proof.
  revert b. induction a as [|x a IH]; intros [|y b]; try done. cbn [text_ltb].
  intros [H|[H1 H2]%andb_true_iff]%orb_true_iff.
  - apply N.ltb_lt in H. apply orb_false_iff. split; [apply N.ltb_ge; lia|].
    apply andb_false_iff. left. apply N.eqb_neq. lia.
  - apply N.eqb_eq in H1. rewrite H1, N.ltb_irrefl, N.eqb_refl. by apply IH.
Qed.

#[export] Hint Resolve append_assoc char_eqb_refl : solodock.
(** ** Facts about all bytes by computation *)

Definition all_bytes : list ascii := map ascii_of_nat (seq 0 256).

Lemma all_bytes_spec (f : ascii -> bool) : forallb f all_bytes = true -> forall c, f c = true.
Proof.
  rewrite forallb_forall. intros H c. apply H, in_map_iff.
  exists (nat_of_ascii c). split; [apply ascii_nat_embedding|].
  apply in_seq. pose proof (nat_ascii_bounded c). lia.
Qed.

Lemma byte_implies (f g : ascii -> bool) :
  forallb (fun c => implb (f c) (g c)) all_bytes = true -> forall c, f c = true -> g c = true.
Proof. intros H c Hc. pose proof (all_bytes_spec _ H c) as H'. simpl in H'. by rewrite Hc in H'. Qed.

Lemma byte_excludes (f g : ascii -> bool) :
  forallb (fun c => implb (f c) (negb (g c))) all_bytes = true -> forall c, f c = true -> g c = false.
Proof.
  intros H c Hc. apply negb_true_iff. exact (byte_implies f (fun c => negb (g c)) H c Hc).
Qed.

(** Closes an implication between byte classes by checking the 256 bytes. *)
Ltac by_bytes :=
  first [apply byte_implies | apply byte_excludes]; vm_compute; reflexivity.

Create Rewrite HintDb text.
#[export] Hint Rewrite append_assoc length_append str_all_append str_any_append
  contains_char_append : text.

(** A concrete printer and parser, for evaluating definitions on examples: the
    binary digits, least significant first. *)
Fixpoint positive_digits (p : positive) : string :=
  match p with
  | xH => ""
  | xO p => String "0" (positive_digits p)
  | xI p => String "1" (positive_digits p)
  end.

Fixpoint digits_positive (s : string) : option positive :=
  match s with
  | "" => Some xH
  | String "0" s => xO <$> digits_positive s
  | String "1" s => xI <$> digits_positive s
  | _ => None
  end.

Lemma digits_positive_digits p : digits_positive (positive_digits p) = Some p.
Proof. induction p as [p IH|p IH|]; simpl; [by rewrite IH..|done]. Qed.

Definition binary_uuid_text : UuidText.
Proof.
  refine {|
    uuid_to_string u := match u with N0 => "z" | Npos p => String "p" (positive_digits p) end;
    uuid_parse s := match s with
                    | "z" => Some N0
                    | String "p" s => Npos <$> digits_positive s
                    | _ => None
                    end |}.
  intros [|p]; [done|]. by rewrite digits_positive_digits.
Defined.
