(* ===== verification/Reference.v ===== *)
(** * Reference: image references, digests, platforms and image identity

    [src/registry/reference.rs], [src/registry/image_identity.rs],
    [Platform] of [src/registry/client.rs] and the error type of
    [src/registry/error.rs]. A reference is what the administrator types; its
    canonical form names registry, repository and tag explicitly and is what
    the rest of the program stores and compares. *)

From S2P Require Import Prelude Text.
From Stdlib Require Import Ascii.

(** ** Errors *)

Inductive RegistryError :=
| ReferenceInvalid | CredentialRequired | CredentialInvalid | Forbidden | TagNotFound
| RateLimited | RegUnavailable | RegTimeout | Tls | Protocol | ManifestUnsupported
| DigestMismatch | PlatformNotFound | AuthUnsupported | AuthRealmUntrusted.

#[export] Instance RegistryError_eq_dec : EqDecision RegistryError.
Proof. solve_decision. Defined.

Definition registry_public_code (e : RegistryError) : string :=
  match e with
  | CredentialRequired => "REGISTRY_CREDENTIAL_REQUIRED"
  | CredentialInvalid => "REGISTRY_CREDENTIAL_INVALID"
  | Forbidden => "REGISTRY_FORBIDDEN"
  | TagNotFound => "REGISTRY_TAG_NOT_FOUND"
  | RateLimited => "REGISTRY_RATE_LIMITED"
  | RegUnavailable => "REGISTRY_UNAVAILABLE"
  | RegTimeout => "REGISTRY_TIMEOUT"
  | Tls => "REGISTRY_TLS_ERROR"
  | Protocol | ReferenceInvalid => "REGISTRY_PROTOCOL_ERROR"
  | ManifestUnsupported => "REGISTRY_MANIFEST_UNSUPPORTED"
  | DigestMismatch => "REGISTRY_DIGEST_MISMATCH"
  | PlatformNotFound => "REGISTRY_PLATFORM_NOT_FOUND"
  | AuthUnsupported => "REGISTRY_AUTH_UNSUPPORTED"
  | AuthRealmUntrusted => "REGISTRY_AUTH_REALM_UNTRUSTED"
  end.

(** ** Digests *)

Definition validate_digest (value : string) : result RegistryError unit :=
  hex ← ok_or (strip_prefix "sha256:" value) DigestMismatch;
  refuse_if (negb (Nat.eqb (String.length hex) 64) || negb (str_all is_lower_hex hex)) DigestMismatch.

(** ** Registry and repository names *)

Definition registry_host_byte (b : ascii) : bool :=
  is_ascii_lowercase b || is_ascii_digit b || char_eqb b "." || char_eqb b "-".

Definition validate_registry (value : string) : result RegistryError unit :=
  _ ← refuse_if (str_is_empty value || Nat.ltb 255 (String.length value)
                 || str_any is_ascii_uppercase value) ReferenceInvalid;
  let '(host, port) :=
    match rsplit_once ":" value with
    | Some (h, p) => (h, Some p)
    | None => (value, None)
    end in
  refuse_if (str_is_empty host || negb (str_all registry_host_byte host)
             || is_some_and port (fun p => str_is_empty p || negb (str_all is_ascii_digit p)))
    ReferenceInvalid.

Definition repository_byte (b : ascii) : bool :=
  is_ascii_lowercase b || is_ascii_digit b || char_eqb b "." || char_eqb b "_" || char_eqb b "-".

Definition repository_part_bad (part : string) : bool :=
  match first_byte part, last_byte part with
  | Some a, Some z =>
      negb (is_ascii_alphanumeric a) || negb (is_ascii_alphanumeric z)
      || negb (str_all repository_byte part)
  | _, _ => true
  end.

Definition validate_repository (value : string) : result RegistryError unit :=
  refuse_if (str_is_empty value || Nat.ltb 255 (String.length value)
             || existsb repository_part_bad (split "/" value)) ReferenceInvalid.

Definition validate_logical_registry (value : string) : result RegistryError string :=
  _ ← refuse_if (value =? "registry-1.docker.io") ReferenceInvalid;
  _ ← validate_registry value;
  Ok (if (value =? "index.docker.io") || (value =? "docker.io") then "docker.io" else value).

(** ** References *)

Record ImageReference := MkImageReference {
  logical_registry : string;
  transport_registry : string;
  repository : string;
  tag : string;
  canonical_tagged_ref : string;
  docker_auth_key : string;
}.

#[export] Instance ImageReference_eq_dec : EqDecision ImageReference.
Proof. solve_decision. Defined.

(** The characters refused anywhere in a reference; 034 is the double quote. *)
Definition reference_forbidden : list ascii :=
  ["@"; "$"; "{"; "}"; "`"; "\"; "034"; "'"; "?"; "#"]%char.

Definition reference_text_bad (value : string) : bool :=
  str_is_empty value || Nat.ltb 320 (String.length value)
  || contains_any reference_forbidden value
  || contains_str "://" value
  || str_any (fun b => is_ascii_control b || is_ascii_whitespace b) value.

Definition tag_byte_at (index : nat) (byte : ascii) : bool :=
  is_ascii_alphanumeric byte || char_eqb byte "_"
  || (Nat.ltb 0 index && (char_eqb byte "." || char_eqb byte "-")).

Definition tag_bad (tag : string) : bool :=
  str_is_empty tag || Nat.ltb 128 (String.length tag) || negb (str_all_indexed tag_byte_at 0 tag).

Definition first_is_registry (first : string) : bool :=
  contains_char "." first || contains_char ":" first || (first =? "localhost").

Definition is_docker_io (first : string) : bool :=
  (first =? "docker.io") || (first =? "index.docker.io").

(** The three names of a reference: logical registry, transport registry,
    repository, from the components of the part before the tag. *)
Definition resolve_registry (first : string) (parts : list string)
    : result RegistryError (string * string * string) :=
  if first_is_registry first then
    _ ← validate_registry first;
    let rest := join "/" parts in
    let rest := if is_docker_io first && negb (contains_char "/" rest)
                then "library/" +:+ rest else rest in
    _ ← validate_repository rest;
    _ ← refuse_if (first =? "registry-1.docker.io") ReferenceInvalid;
    Ok (if is_docker_io first then ("docker.io", "registry-1.docker.io", rest)
        else (first, first, rest))
  else
    let rest := join "/" (first :: parts) in
    _ ← validate_repository rest;
    let repository := if contains_char "/" rest then rest else "library/" +:+ rest in
    Ok ("docker.io", "registry-1.docker.io", repository).

Definition parse (value : string) : result RegistryError ImageReference :=
  _ ← refuse_if (reference_text_bad value) ReferenceInvalid;
  let slash := rfind "/" value in
  colon ← ok_or (rfind ":" value) ReferenceInvalid;
  _ ← refuse_if (is_some_and slash (fun slash => Nat.ltb colon slash)) ReferenceInvalid;
  let repository_part := str_take colon value in
  let tag := str_drop (S colon) value in
  _ ← refuse_if (tag_bad tag) ReferenceInvalid;
  match split "/" repository_part with
  | [] => Err ReferenceInvalid
  | first :: parts =>
      '(logical, transport, repository) ← resolve_registry first parts;
      let canonical :=
        if logical =? "docker.io" then "docker.io/" +:+ repository +:+ ":" +:+ tag
        else logical +:+ "/" +:+ repository +:+ ":" +:+ tag in
      let auth :=
        if logical =? "docker.io" then "https://index.docker.io/v1/" else logical in
      Ok (MkImageReference logical transport repository tag canonical auth)
  end.

Definition runnable (self : ImageReference) (digest : string) : result RegistryError string :=
  _ ← validate_digest digest;
  let prefix :=
    if logical_registry self =? "docker.io" then "docker.io/" +:+ repository self
    else logical_registry self +:+ "/" +:+ repository self in
  Ok (prefix +:+ "@" +:+ digest).

(** ** Platforms *)

Record Platform := MkPlatform {
  os : string;
  architecture : string;
  variant : option string;
}.

#[export] Instance Platform_eq_dec : EqDecision Platform.
Proof. solve_decision. Defined.

(** Architecture aliases and the variant each implies. *)
Definition canonical_architecture (raw : string) : option (string * option string) :=
  if (raw =? "amd64") || (raw =? "x86_64") || (raw =? "x86-64") then Some ("amd64", None)
  else if (raw =? "arm64") || (raw =? "aarch64") then Some ("arm64", Some "v8")
  else if (raw =? "armv7") || (raw =? "armv7l") || (raw =? "armhf") then Some ("arm", Some "v7")
  else if raw =? "arm" then Some ("arm", None)
  else None.

Definition canonical_variant (architecture : string) (variant : option string)
    : option (option string) :=
  match variant with
  | None =>
      if architecture =? "amd64" then Some None
      else if architecture =? "arm64" then Some (Some "v8")
      else None
  | Some v =>
      if (architecture =? "arm64") && (v =? "v8") then Some (Some "v8")
      else if (architecture =? "arm") && ((v =? "v7") || (v =? "7")) then Some (Some "v7")
      else if (architecture =? "arm") && ((v =? "v6") || (v =? "6")) then Some (Some "v6")
      else None
  end.

Definition canonical (os architecture : string) (variant : option string)
    : result RegistryError Platform :=
  let os := to_ascii_lowercase os in
  _ ← refuse_if (os ≠? "linux") PlatformNotFound;
  '(architecture, inferred_variant) ←
    ok_or (canonical_architecture (to_ascii_lowercase architecture)) PlatformNotFound;
  let variant :=
    to_ascii_lowercase <$>
      coalesce (match variant with Some v => if str_is_empty v then None else Some v | None => None end)
        inferred_variant in
  variant ← ok_or (canonical_variant architecture variant) PlatformNotFound;
  Ok (MkPlatform os architecture variant).

(** ** Image identity *)

Record ImageIdentity := MkImageIdentity {
  ii_manifest_digest : string;
  ii_config_digest : string;
  ii_platform : Platform;
}.

Record ManifestDescriptor := MkManifestDescriptor {
  md_digest : option string;
  md_os : option string;
  md_architecture : option string;
  md_variant : option string;
}.

#[export] Instance ImageIdentity_eq_dec : EqDecision ImageIdentity.
Proof. solve_decision. Defined.
#[export] Instance ManifestDescriptor_eq_dec : EqDecision ManifestDescriptor.
Proof. solve_decision. Defined.

Definition image_identity_new (manifest_digest config_digest : string) (platform : Platform)
    : result RegistryError ImageIdentity :=
  _ ← validate_digest manifest_digest;
  _ ← validate_digest config_digest;
  platform ← canonical (os platform) (architecture platform) (variant platform);
  Ok (MkImageIdentity manifest_digest config_digest platform).

Definition matches_engine_image_id (self : ImageIdentity) (observed : option string) : bool :=
  is_some_and observed (fun value =>
    is_ok (validate_digest value)
    && ((value =? ii_config_digest self) || (value =? ii_manifest_digest self))).

Definition matches_manifest_descriptor (self : ImageIdentity) (descriptor : ManifestDescriptor) : bool :=
  match md_digest descriptor, md_os descriptor, md_architecture descriptor with
  | Some digest, Some os, Some architecture =>
      is_ok (validate_digest digest)
      && (digest =? ii_manifest_digest self)
      && match canonical os architecture (md_variant descriptor) with
         | Ok platform => platform =? ii_platform self
         | Err _ => false
         end
  | _, _, _ => false
  end.

Definition matches_observation (self : ImageIdentity) (engine_image_id : option string)
    (descriptor : option ManifestDescriptor) : bool :=
  matches_engine_image_id self engine_image_id
  && is_none_or descriptor (matches_manifest_descriptor self).

(** ** Manifests and indexes

    The JSON reader is a parameter; the checks the source makes on the parsed
    document are not. *)

Definition OCI_MANIFEST := "application/vnd.oci.image.manifest.v1+json".
Definition OCI_INDEX := "application/vnd.oci.image.index.v1+json".
Definition DOCKER_MANIFEST := "application/vnd.docker.distribution.manifest.v2+json".
Definition DOCKER_LIST := "application/vnd.docker.distribution.manifest.list.v2+json".
Definition OCI_CONFIG := "application/vnd.oci.image.config.v1+json".
Definition DOCKER_CONFIG := "application/vnd.docker.container.image.v1+json".

Record DescriptorPlatform := MkDescriptorPlatform {
  dp_architecture : string; dp_os : string; dp_variant : option string }.
Record Descriptor := MkDescriptor {
  d_media_type : string; d_digest : string; d_platform : option DescriptorPlatform }.
Record Manifest := MkManifest {
  m_schema_version : Z; m_media_type : option string; m_config : Descriptor }.
Record Index := MkIndex {
  i_schema_version : Z; i_media_type : option string; i_manifests : list Descriptor }.

Section manifests.
Context (manifest_of_json : string -> option Manifest).
Context (index_of_json : string -> option Index).

Definition parse_manifest (body media_type : string) : result RegistryError Manifest :=
  _ ← refuse_if (negb ((media_type =? OCI_MANIFEST) || (media_type =? DOCKER_MANIFEST))) ManifestUnsupported;
  manifest ← ok_or (manifest_of_json body) Protocol;
  _ ← refuse_if (negb (m_schema_version manifest =? 2%Z)
                 || is_some_and (m_media_type manifest) (fun value => value ≠? media_type))
        ManifestUnsupported;
  _ ← validate_digest (d_digest (m_config manifest));
  _ ← refuse_if (negb ((d_media_type (m_config manifest) =? OCI_CONFIG)
                       || (d_media_type (m_config manifest) =? DOCKER_CONFIG))) ManifestUnsupported;
  Ok manifest.

(** The loop over descriptors stops at the first bad digest. *)
Fixpoint validate_descriptors (manifests : list Descriptor) : result RegistryError unit :=
  match manifests with
  | [] => Ok tt
  | d :: rest => _ ← validate_digest (d_digest d); validate_descriptors rest
  end.

Definition parse_index (body media_type : string) : result RegistryError Index :=
  _ ← refuse_if (negb ((media_type =? OCI_INDEX) || (media_type =? DOCKER_LIST))) ManifestUnsupported;
  index ← ok_or (index_of_json body) Protocol;
  _ ← refuse_if (negb (i_schema_version index =? 2%Z)
                 || Nat.ltb 256 (length (i_manifests index))
                 || is_some_and (i_media_type index) (fun value => value ≠? media_type))
        ManifestUnsupported;
  _ ← validate_descriptors (i_manifests index);
  Ok index.
End manifests.

Example parse_hub : parse "nginx:1.27" =
  Ok (MkImageReference "docker.io" "registry-1.docker.io" "library/nginx" "1.27"
        "docker.io/library/nginx:1.27" "https://index.docker.io/v1/").
Proof. vm_compute. reflexivity. Qed.

Example parse_custom : parse "ghcr.io:443/acme/app:v2" =
  Ok (MkImageReference "ghcr.io:443" "ghcr.io:443" "acme/app" "v2"
        "ghcr.io:443/acme/app:v2" "ghcr.io:443").
Proof. vm_compute. reflexivity. Qed.

Example canonical_aarch64 : canonical "Linux" "aarch64" None = Ok (MkPlatform "linux" "arm64" (Some "v8")).
Proof. vm_compute. reflexivity. Qed.

(** ** Well-formed references *)

(** What [parse] guarantees of its result. *)
Record wf_reference (r : ImageReference) : Prop := {
  wf_canonical : canonical_tagged_ref r =
    (logical_registry r +:+ "/" +:+ repository r) +:+ ":" +:+ tag r;
  wf_tag : tag_bad (tag r) = false;
  wf_repository_empty : str_is_empty (repository r) = false;
  wf_repository_parts : existsb repository_part_bad (split "/" (repository r)) = false;
  wf_registry : validate_registry (logical_registry r) = Ok tt;
  wf_registry_first : first_is_registry (logical_registry r) = true;
  wf_registry_flat : contains_char "/" (logical_registry r) = false;
  wf_registry_kind :
    (logical_registry r = "docker.io" /\ transport_registry r = "registry-1.docker.io"
     /\ docker_auth_key r = "https://index.docker.io/v1/"
     /\ contains_char "/" (repository r) = true)
    \/ (transport_registry r = logical_registry r /\ docker_auth_key r = logical_registry r
        /\ is_docker_io (logical_registry r) = false
        /\ logical_registry r <> "registry-1.docker.io");
}.

Lemma unit_result {E} (r : result E unit) u : r = Ok u -> r = Ok tt.
Proof. by destruct u. Qed.

(** Every valid repository part is made of repository bytes. *)
Lemma repository_part_good p :
  repository_part_bad p = false -> str_all repository_byte p = true.
Proof.
  unfold repository_part_bad.
  destruct (first_byte p), (last_byte p); intros H; bools; done.
Qed.

Lemma split_bytes (P : ascii -> bool) c s :
  P c = true ->
  existsb (fun p => negb (str_all P p)) (split c s) = false -> str_all P s = true.
Proof.
  intros Hc. induction s as [|a s IH]; [done|]. cbn [split].
  destruct (char_eqb c a) eqn:Ha.
  - apply char_eqb_eq in Ha as ->. cbn. rewrite Hc. auto.
  - destruct (split c s) as [|p ps] eqn:Hs; [by destruct (split_ne c s)|].
    cbn. intros [Hp Hps]%orb_false_iff. bools.
    rewrite H. apply IH. cbn. by rewrite H0.
Qed.

Lemma existsb_weaken {A} (f g : A -> bool) l :
  (forall a, f a = false -> g a = false) -> existsb f l = false -> existsb g l = false.
Proof.
  intros Hfg. induction l as [|a l IH]; [done|]. cbn.
  intros [Ha Hl]%orb_false_iff. by rewrite Hfg, IH.
Qed.

Definition repository_or_slash (c : ascii) : bool := repository_byte c || char_eqb c "/".

Lemma repository_bytes s :
  existsb repository_part_bad (split "/" s) = false -> str_all repository_or_slash s = true.
Proof.
  intros H. apply split_bytes with "/"%char; [done|].
  eapply existsb_weaken; [|exact H]. intros p Hp%repository_part_good.
  apply negb_false_iff. eapply str_all_impl; [|exact Hp].
  intros c Hc. unfold repository_or_slash. by rewrite Hc.
Qed.

(** A registry name is host bytes, then at most a port; it never ends in a colon. *)
Definition registry_byte (c : ascii) : bool := registry_host_byte c || char_eqb c ":".

Lemma registry_bytes s :
  validate_registry s = Ok tt -> str_all registry_byte s = true /\ ends_with_char ":" s = false.
Proof.
  unfold validate_registry, rsplit_once, is_some_and. intros H. ok_inv.
  destruct (rfind ":" s) as [i|] eqn:Hi; lazy beta iota in H; apply refuse_if_ok in H.
  - apply orb_false_iff in H as [[_ Hh%negb_false_iff]%orb_false_iff [Hp Hd'%negb_false_iff]%orb_false_iff].
    apply rfind_Some in Hi as [Hs Hd].
    assert (Hhost : str_all registry_byte (str_take i s) = true).
    { eapply str_all_impl; [|exact Hh]. intros c Hc. unfold registry_byte. by rewrite Hc. }
    assert (Hport : str_all registry_byte (str_drop (S i) s) = true).
    { eapply str_all_impl; [|exact Hd']. intros c Hc. unfold registry_byte, registry_host_byte.
      rewrite Hc. by destruct (is_ascii_lowercase c). }
    split.
    + rewrite Hs, str_all_append, Hhost. cbn [str_all]. by rewrite Hport.
    + rewrite Hs. change (String ":" (str_drop (S i) s)) with (":" +:+ str_drop (S i) s).
      rewrite <- append_assoc, ends_with_append by done. by apply ends_with_no_char.
  - apply orb_false_iff in H as [[_ Hh%negb_false_iff]%orb_false_iff _].
    apply rfind_None in Hi. split; [|by apply ends_with_no_char].
    eapply str_all_impl; [|exact Hh]. intros c Hc. unfold registry_byte. by rewrite Hc.
Qed.

Definition tag_byte (c : ascii) : bool :=
  is_ascii_alphanumeric c || char_eqb c "_" || char_eqb c "." || char_eqb c "-".

Lemma tag_bytes t : tag_bad t = false -> str_all tag_byte t = true.
Proof.
  unfold tag_bad. intros H. bools. revert H0. generalize 0. clear.
  induction t as [|c t IH]; intros n; [done|]. cbn. intros [Hc Ht]%andb_true_iff.
  rewrite (IH _ Ht), andb_true_r. unfold tag_byte_at in Hc. unfold tag_byte.
  destruct (is_ascii_alphanumeric c), (char_eqb c "_"), (char_eqb c "."), (char_eqb c "-");
    destruct (Nat.ltb 0 n); done.
Qed.

(** ** Parsing produces well-formed references *)

Lemma part_library_good : repository_part_bad "library" = false.
Proof. reflexivity. Qed.

Lemma split_library s : split "/" ("library/" +:+ s) = "library" :: split "/" s.
Proof. apply (split_append "/" "library" s). reflexivity. Qed.

Lemma validate_repository_ok s :
  validate_repository s = Ok tt <->
  str_is_empty s = false /\ String.length s <= 255 /\ existsb repository_part_bad (split "/" s) = false.
Proof.
  unfold validate_repository, refuse_if. rewrite <- Nat.ltb_ge.
  destruct (str_is_empty s), (Nat.ltb 255 (String.length s)), (existsb _ _); naive_solver.
Qed.

Lemma resolve_registry_wf first parts logical transport repo :
  contains_char "/" first = false ->
  resolve_registry first parts = Ok (logical, transport, repo) ->
  str_is_empty repo = false /\ existsb repository_part_bad (split "/" repo) = false
  /\ validate_registry logical = Ok tt /\ first_is_registry logical = true
  /\ contains_char "/" logical = false
  /\ ((logical = "docker.io" /\ transport = "registry-1.docker.io" /\ contains_char "/" repo = true)
      \/ (transport = logical /\ is_docker_io logical = false /\ logical <> "registry-1.docker.io")).
Proof.
  unfold resolve_registry. intros Hflat H. destruct (first_is_registry first) eqn:Hfirst.
  - ok_inv. apply unit_result in E, E0. bools. apply validate_repository_ok in E0 as (He & _ & Hp).
    destruct (is_docker_io first) eqn:Hhub; simplify_eq; cbn [andb] in *.
    + repeat split; try done. left. repeat split.
      destruct (contains_char "/" (join "/" parts)) eqn:Hc; [done|]. reflexivity.
    + repeat split; try done. right. by repeat split.
  - cbv zeta in H. set (rest := join "/" (first :: parts)) in H. clearbody rest.
    apply bind_ok_inv in H as ([] & (He & _ & Hp)%validate_repository_ok & H).
    injection H as <- <- <-.
    repeat split; try done; destruct (contains_char "/" rest) eqn:Hc; try done.
    all: by left.
Qed.

Lemma parse_wf value r : parse value = Ok r -> wf_reference r.
Proof.
  unfold parse. intros H. ok_inv.
  pose proof (split_parts "/" (str_take a0 value)) as Hparts.
  destruct (split "/" (str_take a0 value)) as [|first parts]; [done|]. ok_inv.
  inversion Hparts as [|? ? Hflat _]; subst.
  match goal with E : resolve_registry _ _ = Ok ?t |- _ =>
    destruct t as [[logical transport] repo]; rename E into Hres end.
  ok_inv. apply resolve_registry_wf in Hres as (He & Hp & Hv & Hf & Hl & Hk); [|done].
  split; cbn; try done.
  - destruct (decide (logical = "docker.io")) as [->|Hne].
    + rewrite bool_decide_eq_true_2 by done. by rewrite append_assoc.
    + rewrite bool_decide_eq_false_2 by done. by rewrite !append_assoc.
  - destruct Hk as [(-> & -> & Hs)|(-> & Hh & Hne)]; [by left|]. right.
    rewrite bool_decide_eq_false_2; [done|]. intros ->. done.
Qed.

(** ** Canonical references parse to themselves *)

(** The bytes of a canonical reference: none of those [parse] refuses. *)
Definition canonical_byte (c : ascii) : bool :=
  registry_byte c || repository_or_slash c || tag_byte c.

Lemma canonical_bytes r :
  wf_reference r -> str_all canonical_byte (canonical_tagged_ref r) = true.
Proof.
  intros H. rewrite (wf_canonical r H), !str_all_append.
  assert (Hreg : str_all canonical_byte (logical_registry r) = true).
  { eapply str_all_impl; [|apply (registry_bytes _ (wf_registry r H))]. by_bytes. }
  assert (Hrepo : str_all canonical_byte (repository r) = true).
  { eapply str_all_impl; [|apply repository_bytes, (wf_repository_parts r H)]. by_bytes. }
  assert (Htag : str_all canonical_byte (tag r) = true).
  { eapply str_all_impl; [|apply tag_bytes, (wf_tag r H)]. by_bytes. }
  by rewrite Hreg, Hrepo, Htag.
Qed.

Lemma repository_no_colon r : wf_reference r -> contains_char ":" (repository r) = false.
Proof.
  intros H. eapply str_all_not_any; [|apply repository_bytes, (wf_repository_parts r H)]. by_bytes.
Qed.

Lemma tag_no_char c r :
  forallb (fun b => implb (tag_byte b) (negb (char_eqb c b))) all_bytes = true ->
  wf_reference r -> contains_char c (tag r) = false.
Proof.
  intros Hc H. eapply str_all_not_any; [apply byte_excludes, Hc|apply tag_bytes, (wf_tag r H)].
Qed.

Lemma canonical_no_scheme r : wf_reference r -> contains_str "://" (canonical_tagged_ref r) = false.
Proof.
  intros H. apply no_scheme. rewrite (wf_canonical r H), !adjacent_append.
  rewrite (adjacent_no_second _ _ _ (wf_registry_flat r H)).
  rewrite (adjacent_no_first ":" "/" (repository r)) by by apply repository_no_colon.
  rewrite (adjacent_no_second ":" "/" (tag r)) by by apply tag_no_char.
  rewrite (proj2 (registry_bytes _ (wf_registry r H))). cbn.
  pose proof (tag_no_char "/" r eq_refl H) as Htag. unfold starts_with_char.
  destruct (tag r) as [|c t]; cbn -[char_eqb]; [by rewrite andb_false_r|].
  unfold contains_char in Htag. cbn -[char_eqb] in Htag. apply orb_false_iff in Htag as [-> _].
  by rewrite andb_false_r.
Qed.

Lemma canonical_text_good r :
  wf_reference r -> String.length (canonical_tagged_ref r) <= 320 ->
  reference_text_bad (canonical_tagged_ref r) = false.
Proof.
  intros H Hlen. unfold reference_text_bad. rewrite canonical_no_scheme by done.
  pose proof (canonical_bytes r H) as Hb.
  rewrite (str_all_not_any canonical_byte (fun b => is_ascii_control b || is_ascii_whitespace b) _
             ltac:(by_bytes) Hb).
  unfold contains_any.
  rewrite (str_all_not_any canonical_byte (fun c => existsb (char_eqb c) reference_forbidden) _
             ltac:(by_bytes) Hb).
  rewrite (proj2 (Nat.ltb_ge _ _) Hlen).
  rewrite (wf_canonical r H). by destruct (logical_registry r).
Qed.

(** The components of a canonical reference are read back as they were. *)
Lemma resolve_registry_canonical r :
  wf_reference r -> String.length (repository r) <= 255 ->
  resolve_registry (logical_registry r) (split "/" (repository r)) =
  Ok (logical_registry r, transport_registry r, repository r).
Proof.
  intros H Hlen. unfold resolve_registry.
  rewrite (wf_registry_first r H), (wf_registry r H). cbn -[join split]. rewrite join_split.
  assert (Hrepo : validate_repository (repository r) = Ok tt).
  { apply validate_repository_ok. repeat split; [apply H|done|apply H]. }
  destruct (wf_registry_kind r H) as [(-> & -> & _ & ->)|(-> & _ & Hhub & Hne)].
  - change (is_docker_io "docker.io") with true. cbn -[validate_repository]. by rewrite Hrepo.
  - rewrite Hhub. cbn -[validate_repository]. rewrite Hrepo. cbn.
    by rewrite bool_decide_eq_false_2.
Qed.

(** A canonical reference splits at its last colon, which follows every slash. *)
Lemma canonical_split r :
  wf_reference r ->
  let base := logical_registry r +:+ "/" +:+ repository r in
  rfind ":" (canonical_tagged_ref r) = Some (String.length base)
  /\ is_some_and (rfind "/" (canonical_tagged_ref r)) (fun s => Nat.ltb (String.length base) s) = false
  /\ str_take (String.length base) (canonical_tagged_ref r) = base
  /\ str_drop (S (String.length base)) (canonical_tagged_ref r) = tag r.
Proof.
  intros H base. rewrite (wf_canonical r H). fold base.
  change (":" +:+ tag r) with (String ":" (tag r)).
  rewrite str_take_append, str_drop_S_append, rfind_append by by apply tag_no_char.
  rewrite rfind_append_l by (unfold contains_char; cbn [str_any]; apply (tag_no_char "/" r eq_refl H)).
  repeat split. destruct (rfind "/" base) as [k|] eqn:Hk; [|done].
  apply rfind_lt in Hk. cbn [is_some_and]. apply Nat.ltb_ge. lia.
Qed.

(** Parsing a canonical reference that fits the length limits returns the
    same reference: the stored form is a fixed point of [parse]. *)
Theorem parse_canonical_fixpoint value r :
  parse value = Ok r ->
  String.length (canonical_tagged_ref r) <= 320 -> String.length (repository r) <= 255 ->
  parse (canonical_tagged_ref r) = Ok r.
Proof.
  intros Hp Hlen Hrepo. apply parse_wf in Hp as H. unfold parse.
  rewrite canonical_text_good by done.
  destruct (canonical_split r H) as (Hc & Hs & Ht & Hd). cbv zeta in *.
  rewrite (refuse_if_false _ _ eq_refl), ok_bind, Hc. cbn [ok_or].
  rewrite ok_bind, (refuse_if_false _ _ Hs), ok_bind, Hd, Ht, (refuse_if_false _ _ (wf_tag r H)), ok_bind.
  change ("/" +:+ repository r) with (String "/" (repository r)).
  rewrite split_append by apply H. rewrite resolve_registry_canonical by done.
  pose proof (wf_canonical r H) as Hcan. pose proof (wf_registry_kind r H) as Hk.
  rewrite !append_assoc in Hcan. destruct r as [l t p g c k]; cbn in *. f_equal.
  destruct Hk as [(-> & -> & -> & _)|(-> & -> & Hhub & _)].
  - by rewrite Hcan.
  - rewrite bool_decide_eq_false_2; [by rewrite Hcan|]. by intros ->.
Qed.

Lemma parse_canonical_fixpoint_witness :
  parse "nginx:1.27" = Ok (MkImageReference "docker.io" "registry-1.docker.io" "library/nginx" "1.27"
     "docker.io/library/nginx:1.27" "https://index.docker.io/v1/")
  /\ parse "docker.io/library/nginx:1.27" =
     Ok (MkImageReference "docker.io" "registry-1.docker.io" "library/nginx" "1.27"
     "docker.io/library/nginx:1.27" "https://index.docker.io/v1/").
Proof.
  split; [vm_compute; reflexivity|].
  apply (parse_canonical_fixpoint "nginx:1.27"
    (MkImageReference "docker.io" "registry-1.docker.io" "library/nginx" "1.27"
       "docker.io/library/nginx:1.27" "https://index.docker.io/v1/"));
    vm_compute; [reflexivity|lia|lia].
Defined.

Fixpoint repeat_char (n : nat) (c : ascii) : string :=
  match n with O => "" | S n => String c (repeat_char n c) end.

(** A 311-byte Docker Hub reference. *)
Definition long_reference : string := repeat_char 200 "a" +:+ ":" +:+ repeat_char 110 "b".

(** Finding: the length limit is not stable under canonicalisation: a reference the
    parser accepts can have a canonical form it refuses, so a release stored
    under that form cannot be read back as a reference. *)
Theorem parse_accepts_unstable_reference :
  exists image, parse long_reference = Ok image
    /\ parse (canonical_tagged_ref image) = Err ReferenceInvalid.
Proof.
  destruct (parse long_reference) as [image|] eqn:Hp; [|vm_compute in Hp; discriminate].
  exists image. split; [done|]. vm_compute in Hp. injection Hp as <-. vm_compute. reflexivity.
Qed.
