(* ===== verification/Models.v ===== *)
(** * Models: the data types of the domain, the Docker observer, the release
    store and the Compose runner

    [src/domain/{application,health,mounts,environment,files,networks,dto}.rs],
    [src/docker/models.rs], [src/docker/mod.rs] (catalog entries),
    [src/app_store/releases.rs] (release header), [src/registry/client.rs]
    (resolved image), [src/compose/{runner,error}.rs]. Struct fields keep the
    source's names behind a short prefix, since Rocq projections share one name
    space. Filesystem paths are strings. *)

From S2P Require Import Prelude Text Reference.

(** ** Domain *)

Inductive DesiredState := Stopped | DesiredRunning.

Inductive HttpClient := Curl | Wget.

Record HttpHealthcheck := MkHttpHealthcheck {
  hh_client : HttpClient;
  hh_scheme : string;
  hh_host : string;
  hh_port : Z;
  hh_path : string;
  hh_interval_seconds : Z;
  hh_timeout_seconds : Z;
  hh_retries : Z;
  hh_start_period_seconds : Z;
}.

Inductive HealthPolicy :=
| Healthy (http : option HttpHealthcheck)
| Running (stable_window_seconds : Z)
| Completed
| Disabled (acknowledge_reduced_safety : bool).

Inductive PortProtocol := Tcp | Udp.

Record PortInput := MkPortInput {
  pi_host_ip : string; pi_host_port : Z; pi_container_port : Z; pi_protocol : PortProtocol }.

Inductive VolumeInput :=
| OwnedVolume (logical_name target_path : string)
| ExternalVolume (name target_path : string).

Definition volume_target_path (v : VolumeInput) : string :=
  match v with OwnedVolume _ t | ExternalVolume _ t => t end.

Record BindMountInput := MkBindMountInput {
  bm_source : string; bm_target_path : string; bm_readonly : bool;
  bm_acknowledge_non_rollbackable : bool }.

Record PublicEnvInput := MkPublicEnvInput { pe_key : string; pe_value : string }.

Record ManagedFileMetadata := MkManagedFileMetadata {
  mf_logical_name : string; mf_target_path : string; mf_sensitive : bool; mf_readonly : bool }.

Inductive NetworkInput :=
| OwnedDefault
| External (name : string) (aliases : list string).

Inductive NetworkMode :=
| OwnedOnly | OwnedAndExternal | ExternalOnly | OwnedAndPlatform
| OwnedPlatformAndExternal | PlatformAndExternal | PlatformOnly.

Record ExternalNetworkAttachment := MkExternalNetworkAttachment {
  ea_name : string; ea_aliases : list string; ea_source_index : nat }.

Record NetworkPlan := MkNetworkPlan {
  np_owned_default_network : bool;
  np_service_discovery_enabled : bool;
  np_mode : NetworkMode;
  np_external : list ExternalNetworkAttachment;
}.

(** The immutable configuration a release is built from. *)
Record ConfigMetadata := MkConfigMetadata {
  cm_security_profile : option string;
  cm_schema_version : Z;
  cm_stop_grace_period_seconds : Z;
  cm_environment_order : option (list string);
  cm_public_env_keys : list string;
  cm_secret_keys : list string;
  cm_secret_hmacs : gmap string string;
  cm_files : list ManagedFileMetadata;
  cm_public_file_sha256s : gmap string string;
  cm_secret_file_hmacs : gmap string string;
  cm_ports : list PortInput;
  cm_volumes : list VolumeInput;
  cm_binds : list BindMountInput;
  cm_owned_default_network : bool;
  cm_service_discovery_enabled : bool;
  cm_networks : list NetworkInput;
  cm_health : HealthPolicy;
  cm_config_sha256 : string;
}.

Record BindIdentity := MkBindIdentity { bi_path : string; bi_device : Z; bi_inode : Z }.

(** ** Applications *)

Definition APP_METADATA_SCHEMA_VERSION : Z := 3.
Definition RESOURCE_NAME_SCHEMA_LEGACY : Z := 1.
Definition RESOURCE_NAME_SCHEMA_CURRENT : Z := 2.
Definition default_poll_interval : Z := 300.
Definition default_stop_grace_period_seconds : Z := 10.
Definition MAX_STOP_GRACE_PERIOD_SECONDS : Z := 600.

Record AppMetadata := MkAppMetadata {
  am_schema_version : Z;
  am_id : Uuid;
  am_slug : string;
  am_display_name : string;
  am_resource_name_schema_version : Z;
  am_discovery_image_ref : option string;
  am_credential_ref : option Uuid;
  am_draft_revision : option Uuid;
  am_draft_config_sha256 : option string;
  am_desired_state : DesiredState;
  am_auto_deploy_enabled : bool;
  am_poll_interval_seconds : Z;
  am_last_operation_id : Uuid;
  am_created_at : Time;
  am_updated_at : Time;
}.

#[export] Instance eta_AppMetadata : Eta AppMetadata := fun r =>
  MkAppMetadata (am_schema_version r) (am_id r) (am_slug r) (am_display_name r)
    (am_resource_name_schema_version r) (am_discovery_image_ref r) (am_credential_ref r)
    (am_draft_revision r) (am_draft_config_sha256 r) (am_desired_state r)
    (am_auto_deploy_enabled r) (am_poll_interval_seconds r) (am_last_operation_id r)
    (am_created_at r) (am_updated_at r).

Definition is_configured (self : AppMetadata) : bool := is_some (am_draft_revision self).

Record AppResourceNames := MkAppResourceNames {
  rn_project_name : string; rn_owned_default_network_name : string; rn_bridge_name : string }.

(** [stable_resource_token] hashes the identifier; the hash is a parameter of
    the naming function. An unknown schema version is unreachable in the
    source ([read_metadata] validates it) and has no names here. *)
Definition resource_names (stable_resource_token : Uuid -> string)
    (app_id : Uuid) (slug : string) (schema_version : Z) : option AppResourceNames :=
  bridge_name ←
    (if schema_version =? RESOURCE_NAME_SCHEMA_LEGACY then Some ("sd-" +:+ slug)
     else if schema_version =? RESOURCE_NAME_SCHEMA_CURRENT
          then Some ("sd-" +:+ stable_resource_token app_id) else None);
  Some (MkAppResourceNames ("solodock-" +:+ slug) ("solodock-" +:+ slug +:+ "-default") bridge_name).

(** The project name does not depend on the schema or the token. *)
Definition project_name_of (metadata : AppMetadata) : string := "solodock-" +:+ am_slug metadata.

Definition owned_volume_name (slug logical_name : string) : string :=
  "solodock-" +:+ slug +:+ "." +:+ logical_name.

(** ** Catalog entries *)

Record ManagedFileResponse := MkManagedFileResponse {
  mr_metadata : ManagedFileMetadata; mr_content : option string }.

Record DraftResponse := MkDraftResponse {
  dr_security_profile : option string;
  dr_discovery_image_ref : string;
  dr_credential_ref : option Uuid;
  dr_auto_deploy_enabled : bool;
  dr_poll_interval_seconds : Z;
  dr_stop_grace_period_seconds : Z;
  dr_environment_order : option (list string);
  dr_public_environment : list PublicEnvInput;
  dr_secret_keys : list string;
  dr_files : list ManagedFileResponse;
  dr_ports : list PortInput;
  dr_volumes : list VolumeInput;
  dr_binds : list BindMountInput;
  dr_owned_default_network : bool;
  dr_service_discovery_enabled : bool;
  dr_networks : list NetworkInput;
  dr_health : HealthPolicy;
}.

Record AppCatalogEntry := MkAppCatalogEntry {
  ce_id : Uuid;
  ce_slug : string;
  ce_display_name : string;
  ce_resource_name_schema_version : Z;
  ce_project_name : string;
  ce_active_release_id : option Uuid;
  ce_active_image_ref : option string;
  ce_active_config_revision : option Uuid;
  ce_active_config_sha256 : option string;
  ce_active_network_plan : option NetworkPlan;
  ce_pending_release_id : option Uuid;
  ce_pending_image_ref : option string;
  ce_pending_config_revision : option Uuid;
  ce_pending_network_plan : option NetworkPlan;
  ce_discovery_image_ref : option string;
  ce_draft_revision : option Uuid;
  ce_draft_config_sha256 : option string;
  ce_desired_state : DesiredState;
  ce_auto_deploy_enabled : bool;
  ce_poll_interval_seconds : Z;
  ce_draft : option DraftResponse;
}.

#[export] Instance eta_AppCatalogEntry : Eta AppCatalogEntry := fun r =>
  MkAppCatalogEntry (ce_id r) (ce_slug r) (ce_display_name r)
    (ce_resource_name_schema_version r) (ce_project_name r) (ce_active_release_id r)
    (ce_active_image_ref r) (ce_active_config_revision r) (ce_active_config_sha256 r)
    (ce_active_network_plan r) (ce_pending_release_id r) (ce_pending_image_ref r)
    (ce_pending_config_revision r) (ce_pending_network_plan r) (ce_discovery_image_ref r)
    (ce_draft_revision r) (ce_draft_config_sha256 r) (ce_desired_state r)
    (ce_auto_deploy_enabled r) (ce_poll_interval_seconds r) (ce_draft r).

(** ** Releases *)

Inductive ReleaseTrigger := RtManual | RtRollback | RtPoll.

Record ReleaseV2 := MkReleaseV2 {
  rl_schema_version : Z;
  rl_compose_schema_version : Z;
  rl_id : Uuid;
  rl_app_id : Uuid;
  rl_config_revision : Uuid;
  rl_config_sha256 : string;
  rl_stop_grace_period_seconds : Z;
  rl_service_discovery_enabled : bool;
  rl_source_image_ref : string;
  rl_logical_registry : string;
  rl_repository : string;
  rl_source_tag : string;
  rl_source_descriptor_digest : string;
  rl_index_digest : option string;
  rl_manifest_digest : string;
  rl_runnable_image_ref : string;
  rl_platform_os : string;
  rl_platform_architecture : string;
  rl_platform_variant : option string;
  rl_local_image_id : string;
  rl_compose_sha256 : string;
  rl_credential_ref : option Uuid;
  rl_trigger : ReleaseTrigger;
  rl_source_release_id : option Uuid;
  rl_created_at : Time;
  rl_integrity_hmac : string;
}.

#[export] Instance eta_ReleaseV2 : Eta ReleaseV2 := fun r =>
  MkReleaseV2 (rl_schema_version r) (rl_compose_schema_version r) (rl_id r) (rl_app_id r)
    (rl_config_revision r) (rl_config_sha256 r) (rl_stop_grace_period_seconds r)
    (rl_service_discovery_enabled r) (rl_source_image_ref r) (rl_logical_registry r)
    (rl_repository r) (rl_source_tag r) (rl_source_descriptor_digest r) (rl_index_digest r)
    (rl_manifest_digest r) (rl_runnable_image_ref r) (rl_platform_os r)
    (rl_platform_architecture r) (rl_platform_variant r) (rl_local_image_id r)
    (rl_compose_sha256 r) (rl_credential_ref r) (rl_trigger r) (rl_source_release_id r)
    (rl_created_at r) (rl_integrity_hmac r).

(** [ReleaseV2::image_identity]. *)
Definition release_image_identity (self : ReleaseV2) : result RegistryError ImageIdentity :=
  image_identity_new (rl_manifest_digest self) (rl_local_image_id self)
    (MkPlatform (rl_platform_os self) (rl_platform_architecture self) (rl_platform_variant self)).

(** [ReleaseV2::apply_schema_defaults]: fields an old schema's HMAC did not
    cover take their only safe value. *)
Definition apply_schema_defaults (self : ReleaseV2) : ReleaseV2 :=
  let self := if rl_schema_version self =? 3%Z
              then self <| rl_stop_grace_period_seconds := default_stop_grace_period_seconds |>
              else self in
  if (rl_schema_version self =? 3%Z) || (rl_schema_version self =? 4%Z)
  then self <| rl_service_discovery_enabled := false |> else self.

Record ResolvedImage := MkResolvedImage {
  ri_source_image_ref : string;
  ri_logical_registry : string;
  ri_repository : string;
  ri_source_tag : string;
  ri_source_descriptor_digest : string;
  ri_index_digest : option string;
  ri_manifest_digest : string;
  ri_runnable_image_ref : string;
  ri_platform : Platform;
  ri_local_image_id : string;
}.

(** ** Docker observations *)

Inductive DockerErrorKind :=
| DkUnavailable | DkPermissionDenied | DkIncompatible | DkContainerChanged | DkObservationFailed.

Definition docker_public_code (kind : DockerErrorKind) : string :=
  match kind with
  | DkUnavailable => "DOCKER_UNAVAILABLE"
  | DkPermissionDenied => "DOCKER_PERMISSION_DENIED"
  | DkIncompatible => "DOCKER_API_INCOMPATIBLE"
  | DkContainerChanged => "CONTAINER_CHANGED"
  | DkObservationFailed => "DOCKER_OBSERVATION_FAILED"
  end.

Inductive ProbeStatus := PrStarting | PrReady | PrUnavailable | PrPermissionDenied | PrIncompatible.

Record ProbeSnapshot := MkProbeSnapshot {
  ps_status : ProbeStatus;
  ps_error_code : option string;
  ps_server_version : option string;
  ps_api_version : option string;
  ps_os : option string;
  ps_architecture : option string;
  ps_observed_at : Time;
  ps_docker_root_directory : option string;
}.

Inductive ContainerStatus :=
| CsMissing | CsCreated | CsRunning | CsPaused | CsRestarting | CsRemoving | CsExited | CsDead | CsUnknown.

Inductive HealthStatus := HsNone | HsStarting | HsHealthy | HsUnhealthy | HsUnknown.

Inductive MountKind := MkVolume | MkBind | MkTmpfs.

Record PortProjection := MkPortProjection {
  pp_container_port : Z; pp_protocol : string; pp_host_ip : string; pp_host_port : Z }.
Record MountProjection := MkMountProjection {
  mp_kind : MountKind; mp_source : option string; mp_destination : string; mp_read_only : bool }.
Record NetworkProjection := MkNetworkProjection {
  npj_name : string; npj_container_ip : option string; npj_aliases : list string }.

Record ContainerRecord := MkContainerRecord {
  cr_id : string;
  cr_name : string;
  cr_labels : gmap string string;
  cr_status : ContainerStatus;
  cr_health : HealthStatus;
  cr_exit_code : option Z;
  cr_restart_count : option Z;
  cr_started_at : option string;
  cr_finished_at : option string;
  cr_configured_image_ref : option string;
  cr_image_id : option string;
  cr_manifest_descriptor : option ManifestDescriptor;
  cr_ports : list PortProjection;
  cr_mounts : list MountProjection;
  cr_networks : list NetworkProjection;
}.

(** ** Compose and pull *)

Inductive ComposeAction :=
| CaVersion | CaValidate | CaStart | CaRecreate | CaDeployCandidate | CaStop | CaRemove.

Record RunContext := MkRunContext {
  rc_project_name : string;
  rc_project_directory : string;
  rc_compose_file : string;
  rc_timeout : Z;  (** in nanoseconds *)
  rc_stop_grace_period_seconds : Z;
  rc_redaction_patterns : list string;
}.

Inductive ComposeError :=
| CeUnavailable | CeIncompatible | CePermissionDenied | CeValidationFailed | CeTimeout
| CeCancelled | CeUnknownEffect | CeOutputInvalid | CeUnsafePath.

Definition compose_public_code (e : ComposeError) : string :=
  match e with
  | CeUnavailable => "COMPOSE_UNAVAILABLE"
  | CeIncompatible => "COMPOSE_INCOMPATIBLE"
  | CePermissionDenied => "COMPOSE_PERMISSION_DENIED"
  | CeValidationFailed | CeOutputInvalid | CeUnsafePath => "COMPOSE_VALIDATION_FAILED"
  | CeTimeout => "COMPOSE_TIMEOUT"
  | CeCancelled => "OPERATION_INTERRUPTED"
  | CeUnknownEffect => "COMPOSE_EFFECT_UNKNOWN"
  end.

Inductive PullError :=
| PeUnavailable | PePermissionDenied | PeCredentialInvalid | PeDiskPressure | PeMemoryPressure
| PeVerificationFailed | PeInterrupted | PeOutputUnsafe | PeUnsafePath | PeCleanupFailed.

Definition pull_public_code (e : PullError) : string :=
  match e with
  | PeUnavailable => "DOCKER_PULL_UNAVAILABLE"
  | PePermissionDenied => "DOCKER_PERMISSION_DENIED"
  | PeCredentialInvalid => "REGISTRY_CREDENTIAL_INVALID"
  | PeDiskPressure | PeMemoryPressure => "RESOURCE_PRESSURE"
  | PeVerificationFailed => "IMAGE_VERIFICATION_FAILED"
  | PeInterrupted => "DEPLOYMENT_INTERRUPTED"
  | PeOutputUnsafe => "SECRET_OUTPUT_REJECTED"
  | PeUnsafePath => "RUNTIME_PATH_UNSAFE"
  | PeCleanupFailed => "CREDENTIAL_CLEANUP_FAILED"
  end.

(** ** Registry credentials *)

Record CredentialMetadata := MkCredentialMetadata {
  crd_schema_version : Z;
  crd_id : Uuid;
  crd_revision : Uuid;
  crd_registry : string;
  crd_username : string;
  crd_secret_revision : Uuid;
  crd_last_operation_id : Uuid;
  crd_created_at : Time;
  crd_rotated_at : Time;
  crd_integrity_hmac : string;
}.

Record LoadedCredential := MkLoadedCredential {
  lc_metadata : CredentialMetadata; lc_secret : string }.

(** ** Store errors *)

(** [std::io::ErrorKind], as far as the source looks at it. *)
Inductive IoKind := NotFound | AlreadyExists | InvalidData | OtherIo.

Inductive PermissionError := PeIo (kind : IoKind) | PeUnexpectedType | PeOwner | PeMode.

Inductive StoreError :=
| SePermission (error : PermissionError) | SeIo (kind : IoKind) | SeSymlinkBoundary | SeReleaseConflict | SeConfigRevisionConflict
| SeAppConflict | SeRevisionStale | SeContentInvalid | SeManagedFilePermissionInvalid.

(** The links of an application directory. *)
Inductive ReleaseLink := LinkActive | LinkPending.

(** ** Decidable equality *)


#[export] Instance DesiredState_eq_dec : EqDecision DesiredState.
Proof. solve_decision. Defined.
#[export] Instance HttpClient_eq_dec : EqDecision HttpClient.
Proof. solve_decision. Defined.
#[export] Instance HttpHealthcheck_eq_dec : EqDecision HttpHealthcheck.
Proof. solve_decision. Defined.
#[export] Instance HealthPolicy_eq_dec : EqDecision HealthPolicy.
Proof. solve_decision. Defined.
#[export] Instance PortProtocol_eq_dec : EqDecision PortProtocol.
Proof. solve_decision. Defined.
#[export] Instance PortInput_eq_dec : EqDecision PortInput.
Proof. solve_decision. Defined.
#[export] Instance VolumeInput_eq_dec : EqDecision VolumeInput.
Proof. solve_decision. Defined.
#[export] Instance BindMountInput_eq_dec : EqDecision BindMountInput.
Proof. solve_decision. Defined.
#[export] Instance NetworkInput_eq_dec : EqDecision NetworkInput.
Proof. solve_decision. Defined.
#[export] Instance NetworkMode_eq_dec : EqDecision NetworkMode.
Proof. solve_decision. Defined.
#[export] Instance BindIdentity_eq_dec : EqDecision BindIdentity.
Proof. solve_decision. Defined.
#[export] Instance ReleaseTrigger_eq_dec : EqDecision ReleaseTrigger.
Proof. solve_decision. Defined.
#[export] Instance ReleaseV2_eq_dec : EqDecision ReleaseV2.
Proof. solve_decision. Defined.
#[export] Instance ContainerStatus_eq_dec : EqDecision ContainerStatus.
Proof. solve_decision. Defined.
#[export] Instance HealthStatus_eq_dec : EqDecision HealthStatus.
Proof. solve_decision. Defined.
#[export] Instance ComposeAction_eq_dec : EqDecision ComposeAction.
Proof. solve_decision. Defined.
#[export] Instance ComposeError_eq_dec : EqDecision ComposeError.
Proof. solve_decision. Defined.
#[export] Instance PullError_eq_dec : EqDecision PullError.
Proof. solve_decision. Defined.
#[export] Instance DockerErrorKind_eq_dec : EqDecision DockerErrorKind.
Proof. solve_decision. Defined.
#[export] Instance IoKind_eq_dec : EqDecision IoKind.
Proof. solve_decision. Defined.
#[export] Instance PermissionError_eq_dec : EqDecision PermissionError.
Proof. solve_decision. Defined.
#[export] Instance StoreError_eq_dec : EqDecision StoreError.
Proof. solve_decision. Defined.
#[export] Instance ReleaseLink_eq_dec : EqDecision ReleaseLink.
Proof. solve_decision. Defined.
