(* ===== verification/Effects.v ===== *)
(** * Effects: programs as trees of environment calls

    The deployment engine is straight-line asynchronous code that calls the
    ledger, the filesystem store, the Docker daemon, the Compose runner and the
    Registry, and may find any answer at each call. A [prog] is such code: it
    returns, or makes a call and continues with the answer, or has run out of
    the fuel given to a loop. Calls are the constructors of an event family
    [E : Type -> Type], where [E X] is a call answered by an [X].

    - [trace p tr o]: the program can make the calls of [tr], in order, with
      the recorded answers, and then be at [o] ([Some a]: returned [a]).
    - [exhausts p tr]: those calls lead to a loop that has spent its fuel.
    - [safe]: a program logic over a journal of the calls made. [safe_sound] and
      [safe_fuel] turn a proof of [safe] into statements about every trace.
    - [run]: executes a program against a handler, a function that answers
      calls from a world; [run_trace] shows that what is executed is a trace. *)

From Stdlib Require Import Eqdep.
From S2P Require Import Prelude.

Inductive prog (E : Type -> Type) (A : Type) : Type :=
| Ret (a : A)
| Vis (X : Type) (e : E X) (k : X -> prog E A)
| OutOfFuel.
Arguments Ret {E A} _.
Arguments Vis {E A X} _ _.
Arguments OutOfFuel {E A}.

Section prog.
Context {E : Type -> Type}.

Definition call {X} (e : E X) : prog E X := Vis e Ret.

Fixpoint prog_bind {A B} (p : prog E A) (f : A -> prog E B) : prog E B :=
  match p with
  | Ret a => f a
  | Vis e k => Vis e (fun x => prog_bind (k x) f)
  | OutOfFuel => OutOfFuel
  end.

(** ** Traces *)

(** One answered call. *)
Inductive obs : Type := Obs (X : Type) (e : E X) (x : X).

(** The calls of a program with their answers, oldest first, and where it is:
    [Some a] once it has returned. *)
Inductive trace {A} : prog E A -> list obs -> option A -> Prop :=
| trace_stop p : trace p [] None
| trace_ret a : trace (Ret a) [] (Some a)
| trace_vis X (e : E X) k x tr o : trace (k x) tr o -> trace (Vis e k) (Obs X e x :: tr) o.

(** The answers [tr] take the program to a loop whose fuel is spent. *)
Inductive exhausts {A} : prog E A -> list obs -> Prop :=
| exhausts_now : exhausts OutOfFuel []
| exhausts_vis X (e : E X) k x tr : exhausts (k x) tr -> exhausts (Vis e k) (Obs X e x :: tr).

Lemma trace_vis_inv {A} X (e : E X) (k : X -> prog E A) tr a :
  trace (Vis e k) tr (Some a) -> exists x tr', tr = Obs X e x :: tr' /\ trace (k x) tr' (Some a).
Proof.
  intros Ht. remember (Some a) as o eqn:Ho. remember (Vis e k) as q eqn:Hq.
  destruct Ht as [| |X' e' k' x tr o Ht]; [done|done|]. injection Hq. intros Hk He HX. subst X'.
  apply inj_pair2 in He, Hk. subst. eauto.
Qed.

(** A finished trace of a sequence is a finished trace of each part. *)
Lemma trace_bind_inv {A B} (p : prog E A) (f : A -> prog E B) tr b :
  trace (prog_bind p f) tr (Some b) ->
  exists tr1 tr2 a, tr = tr1 ++ tr2 /\ trace p tr1 (Some a) /\ trace (f a) tr2 (Some b).
Proof.
  revert tr. induction p as [a|X e k IH|]; intros tr Ht; simpl in Ht.
  - exists [], tr, a. split; [done|]. split; [constructor|done].
  - apply trace_vis_inv in Ht as (x & tr' & -> & Ht).
    destruct (IH x tr' Ht) as (tr1 & tr2 & a & -> & H1 & H2).
    exists (Obs X e x :: tr1), tr2, a. split; [done|]. split; [by constructor|done].
  - remember (Some b) as o eqn:Ho. remember OutOfFuel as q eqn:Hq. by destruct Ht.
Qed.

(** ** A program logic over observations

    A journal [G] collects what the calls so far have shown. [pre g e] says the
    call [e] is acceptable then, [rely g e x] what may be assumed of its
    answer, and [spent] whether running out of fuel is acceptable. *)

Section logic.
Context {G : Type} (note : G -> obs -> G).
Context (pre : forall X, G -> E X -> Prop) (rely : forall X, G -> E X -> X -> Prop) (spent : Prop).

Fixpoint safe {A} (p : prog E A) (g : G) (Q : G -> A -> Prop) : Prop :=
  match p with
  | Ret a => Q g a
  | Vis e k => pre _ g e /\ forall x, rely _ g e x -> safe (k x) (note g (Obs _ e x)) Q
  | OutOfFuel => spent
  end.

Lemma safe_bind {A B} (p : prog E A) (f : A -> prog E B) g Q :
  safe p g (fun g' a => safe (f a) g' Q) -> safe (prog_bind p f) g Q.
Proof.
  revert g. induction p as [a|X e k IH|]; intros g; simpl; [done| |done].
  intros [He Hk]. split; [done|]. intros x Hx. by apply IH, Hk.
Qed.

Lemma safe_mono {A} (p : prog E A) g (Q Q' : G -> A -> Prop) :
  safe p g Q -> (forall g' a, Q g' a -> Q' g' a) -> safe p g Q'.
Proof.
  intros Hs HQ. revert g Hs. induction p as [a|X e k IH|]; intros g; simpl; [auto| |done].
  intros [He Hk]. split; [done|]. intros x Hx. by apply IH, Hk.
Qed.

Definition pre_obs (g : G) (o : obs) : Prop := match o with Obs X e _ => pre X g e end.
Definition rely_obs (g : G) (o : obs) : Prop := match o with Obs X e x => rely X g e x end.

(** Every answer of the trace was one the proof may rely on. *)
Fixpoint relied (g : G) (tr : list obs) : Prop :=
  match tr with [] => True | o :: tr' => rely_obs g o /\ relied (note g o) tr' end.

(** Every call of every trace was acceptable when it was made, and what the
    program returns satisfies its postcondition. *)
Lemma safe_sound {A} (p : prog E A) g Q tr o :
  safe p g Q -> trace p tr o -> relied g tr ->
  (forall tr1 c tr2, tr = tr1 ++ c :: tr2 -> pre_obs (foldl note g tr1) c)
  /\ (forall a, o = Some a -> Q (foldl note g tr) a).
Proof.
  intros Hs Ht. revert g Hs. induction Ht as [p|a|X e k x tr o Ht IH]; intros g Hs Hr.
  - split; [|done]. intros tr1 c tr2 Heq. by destruct tr1.
  - split; [|by intros ? [= <-]]. intros tr1 c tr2 Heq. by destruct tr1.
  - destruct Hs as [He Hk], Hr as [Hx Hr]. destruct (IH _ (Hk x Hx) Hr) as [IHc IHr]. split; [|done].
    intros [|o1 tr1] c tr2 [= <- Heq]; [exact He|]. by eapply IHc.
Qed.

(** What holds at every call and at every return holds wherever a trace stops. *)
Lemma safe_everywhere (I : G -> Prop) {A} (p : prog E A) g Q tr o :
  (forall X g' (e : E X), pre X g' e -> I g') -> (forall g' a, Q g' a -> I g') -> (spent -> False) ->
  safe p g Q -> trace p tr o -> relied g tr ->
  I (foldl note g tr) /\ (forall a, o = Some a -> Q (foldl note g tr) a).
Proof.
  intros Hpre HQ Hsp Hs Ht. revert g Hs. induction Ht as [p|a|X e k x tr o Ht IH]; intros g Hs Hr.
  - split; [|done]. destruct p as [a|X e k|]; simpl in Hs; [eauto|destruct Hs; eauto|by exfalso; apply Hsp].
  - split; [eauto|]. by intros ? [= <-].
  - destruct Hs as [He Hk], Hr as [Hx Hr]. by apply IH; [apply Hk|].
Qed.

Lemma safe_fuel {A} (p : prog E A) g Q tr :
  safe p g Q -> exhausts p tr -> relied g tr -> spent.
Proof.
  intros Hs Ht. revert g Hs. induction Ht as [|X e k x tr Ht IH]; intros g Hs Hr; [exact Hs|].
  destruct Hs as [_ Hk], Hr as [Hx Hr]. by eapply IH; [apply Hk|].
Qed.
End logic.

(** ** Programs that make only calls of one kind *)

Fixpoint calls_only (P : forall X, E X -> Prop) {A} (p : prog E A) : Prop :=
  match p with
  | Ret _ | OutOfFuel => True
  | Vis e k => P _ e /\ forall x, calls_only P (k x)
  end.

Lemma calls_only_bind (P : forall X, E X -> Prop) {A B} (p : prog E A) (f : A -> prog E B) :
  calls_only P p -> (forall a, calls_only P (f a)) -> calls_only P (prog_bind p f).
Proof.
  intros Hp Hf. induction p as [a|X e k IH|]; simpl in *; [auto| |done].
  destruct Hp as [He Hk]. split; [done|]. intros x. by apply IH, Hk.
Qed.

(** A program whose calls a journal does not record leaves it as it is, and
    keeps what any other journal shows of its answer. *)
Lemma calls_only_safe (P : forall X, E X -> Prop) {G G'} (note : G -> obs -> G)
    (note' : G' -> obs -> G') (pre : forall X, G -> E X -> Prop)
    (rely : forall X, G -> E X -> X -> Prop) {A} (p : prog E A) g h (Q : G' -> A -> Prop) :
  calls_only P p ->
  (forall X (e : E X) x g, P X e -> note g (Obs X e x) = g) ->
  (forall X (e : E X) g, P X e -> pre X g e) ->
  safe note' (fun _ _ _ => True) (fun _ _ _ _ => True) True p h Q ->
  safe note pre rely True p g (fun g' a => g' = g /\ exists h', Q h' a).
Proof.
  intros Hp Hnote Hpre. revert h Hp. induction p as [a|X e k IH|]; intros h; simpl; [|intros [He Hk]|done].
  - intros _ HQ. split; [done|by exists h].
  - intros [_ Hs]. split; [by apply Hpre|]. intros x _. rewrite Hnote by done. eapply IH; [apply Hk|by apply Hs].
Qed.

(** ** Execution against a handler *)

Section run.
Context {W : Type} (handle : forall X, E X -> W -> X * W).

Fixpoint run {A} (p : prog E A) (w : W) : option A * W :=
  match p with
  | Ret a => (Some a, w)
  | Vis e k => let '(x, w') := handle _ e w in run (k x) w'
  | OutOfFuel => (None, w)
  end.

(** The calls a run makes. *)
Fixpoint run_log {A} (p : prog E A) (w : W) : list obs :=
  match p with
  | Ret _ | OutOfFuel => []
  | Vis e k => let '(x, w') := handle _ e w in Obs _ e x :: run_log (k x) w'
  end.

Lemma run_trace {A} (p : prog E A) w : trace p (run_log p w) (run p w).1.
Proof.
  revert w. induction p as [a|X e k IH|]; intros w; simpl; try by constructor.
  destruct (handle X e w) as [x w']. constructor. apply IH.
Qed.

Lemma run_bind {A B} (p : prog E A) (f : A -> prog E B) w :
  run (prog_bind p f) w =
  match run p w with
  | (Some a, w') => run (f a) w'
  | (None, w') => (None, w')
  end.
Proof.
  revert w. induction p as [a|X e k IH|]; intros w; simpl; [by destruct (run (f a) w)| |done].
  destruct (handle X e w) as [x w']. apply IH.
Qed.
End run.
End prog.

Arguments obs _ : clear implicits.
Arguments Obs {E X} _ _.

#[export] Instance prog_ret {E} : MRet (prog E) := fun A => Ret.
#[export] Instance prog_mbind {E} : MBind (prog E) := fun A B f p => prog_bind p f.

(** ** Programs with errors: [async fn ... -> Result<A, R>] *)

Definition eprog (E : Type -> Type) (R A : Type) : Type := prog E (result R A).

Section eprog.
Context {E : Type -> Type} {R : Type}.

Definition eret {A} (a : A) : eprog E R A := Ret (Ok a).
Definition fail {A} (r : R) : eprog E R A := Ret (Err r).

(** The [?] operator. *)
Definition ebind {A B} (p : eprog E R A) (f : A -> eprog E R B) : eprog E R B :=
  prog_bind p (fun r => match r with Ok a => f a | Err e => Ret (Err e) end).

(** A call that cannot fail, and a call whose error is mapped. *)
Definition ask {X} (e : E X) : eprog E R X := Vis e (fun x => Ret (Ok x)).
Definition try_call {F X} (e : E (result F X)) (f : F -> R) : eprog E R X :=
  Vis e (fun r => Ret (map_err f r)).

(** A pure result used inside an effectful function. *)
Definition lift {A} (r : result R A) : eprog E R A := Ret r.

(** [for x in xs { f(x)?; }] *)
Fixpoint each {A} (f : A -> eprog E R unit) (xs : list A) : eprog E R unit :=
  match xs with
  | [] => eret tt
  | x :: xs' => ebind (f x) (fun _ => each f xs')
  end.

(** The steps of a program that returned success all succeeded. *)
Lemma trace_ebind_inv {A B} (p : eprog E R A) (f : A -> eprog E R B) tr b :
  trace (ebind p f) tr (Some (Ok b)) ->
  exists tr1 tr2 a, tr = tr1 ++ tr2 /\ trace p tr1 (Some (Ok a)) /\ trace (f a) tr2 (Some (Ok b)).
Proof.
  intros (tr1 & tr2 & [a|e] & -> & H1 & H2)%trace_bind_inv; [by exists tr1, tr2, a|].
  remember (Ret (Err e)) as q eqn:Hq. remember (Some (Ok b)) as o eqn:Ho. by destruct H2; simplify_eq.
Qed.

Lemma trace_ret_inv {A} (a b : A) tr : trace (E := E) (Ret a) tr (Some b) -> tr = [] /\ a = b.
Proof.
  intros Ht. remember (Ret a) as q eqn:Hq. remember (Some b) as o eqn:Ho. by destruct Ht; simplify_eq.
Qed.

Lemma trace_lift_inv {A B} (r : result R A) (f : A -> eprog E R B) tr b :
  trace (ebind (lift r) f) tr (Some (Ok b)) -> exists a, r = Ok a /\ trace (f a) tr (Some (Ok b)).
Proof. destruct r as [a|e]; simpl; [by exists a|]. by intros [_ [=]]%trace_ret_inv. Qed.

Lemma trace_try_inv {F X B} (e : E (result F X)) (f : F -> R) (k : X -> eprog E R B) tr b :
  trace (ebind (try_call e f) k) tr (Some (Ok b)) ->
  exists x tr', tr = Obs e (Ok x) :: tr' /\ trace (k x) tr' (Some (Ok b)).
Proof.
  intros ([x|r] & tr' & -> & Ht)%trace_vis_inv; simpl in Ht; [by exists x, tr'|]. by apply trace_ret_inv in Ht as [_ [=]].
Qed.
End eprog.

Notation "x <- p ;; q" := (ebind p (fun x => q))
  (at level 100, p at next level, right associativity) : solodock_scope.
Notation "p ;;; q" := (ebind p (fun _ => q))
  (at level 100, right associativity) : solodock_scope.

Section esafe.
Context {E : Type -> Type} {R G : Type} (note : G -> obs E -> G).
Context (pre : forall X, G -> E X -> Prop) (rely : forall X, G -> E X -> X -> Prop) (spent : Prop).
Abbreviation safe := (safe note pre rely spent).

Lemma safe_ebind {A B} (p : eprog E R A) (f : A -> eprog E R B) g Q :
  safe p g (fun g' r => match r with Ok a => safe (f a) g' Q | Err e => Q g' (Err e) end) ->
  safe (ebind p f) g Q.
Proof. intros H. apply safe_bind. eapply safe_mono; [exact H|]. by intros g' [a|e]. Qed.

(** A lemma about [p] used in the middle of a program. *)
Lemma safe_ebind_use {A B} (p : eprog E R A) (f : A -> eprog E R B) g P Q :
  safe p g P ->
  (forall g' a, P g' (Ok a) -> safe (f a) g' Q) ->
  (forall g' e, P g' (Err e) -> Q g' (Err e)) ->
  safe (ebind p f) g Q.
Proof.
  intros Hp Hok Herr. apply safe_ebind. eapply safe_mono; [exact Hp|]. intros g' [a|e]; auto.
Qed.

(** One lemma per construct of the source: a call and [?], an infallible call,
    a guard, an option and a pure result with [?]. *)
Lemma safe_try {F X B} (e : E (result F X)) (f : F -> R) (k : X -> eprog E R B) g Q :
  pre _ g e ->
  (forall r, rely _ g e (Err r) -> Q (note g (Obs e (Err r))) (Err (f r))) ->
  (forall x, rely _ g e (Ok x) -> safe (k x) (note g (Obs e (Ok x))) Q) ->
  safe (ebind (try_call e f) k) g Q.
Proof. intros He Herr Hok. split; [done|]. intros [x|r] Hx; simpl; auto. Qed.

Lemma safe_try_last {F X} (e : E (result F X)) (f : F -> R) g Q :
  pre _ g e ->
  (forall r, rely _ g e (Err r) -> Q (note g (Obs e (Err r))) (Err (f r))) ->
  (forall x, rely _ g e (Ok x) -> Q (note g (Obs e (Ok x))) (Ok x)) ->
  safe (try_call e f) g Q.
Proof. intros He Herr Hok. split; [done|]. intros [x|r] Hx; simpl; auto. Qed.

Lemma safe_ask {X B} (e : E X) (k : X -> eprog E R B) g Q :
  pre _ g e -> (forall x, rely _ g e x -> safe (k x) (note g (Obs e x)) Q) ->
  safe (ebind (ask e) k) g Q.
Proof. intros He Hok. by split. Qed.

Lemma safe_lift {A B} (r : result R A) (k : A -> eprog E R B) g Q :
  (forall e, r = Err e -> Q g (Err e)) -> (forall a, r = Ok a -> safe (k a) g Q) ->
  safe (ebind (lift r) k) g Q.
Proof. intros Herr Hok. destruct r; [by apply Hok|by apply Herr]. Qed.

Lemma safe_lift_map {F A B} (f : F -> R) (r : result F A) (k : A -> eprog E R B) g Q :
  (forall e, r = Err e -> Q g (Err (f e))) -> (forall a, r = Ok a -> safe (k a) g Q) ->
  safe (ebind (lift (map_err f r)) k) g Q.
Proof. intros Herr Hok. destruct r; [by apply Hok|by apply Herr]. Qed.
End esafe.
