(* ===== verification/Ownership.v ===== *)
(** * Ownership: which containers SoloDock may act on

    [src/docker/ownership.rs]. A container belongs to an application only if it
    carries the complete set of canonical labels; every Docker effect is gated
    on this test. *)

From S2P Require Import Prelude Text Reference Models.

Definition MANAGED_LABEL := "com.solodock.managed".
Definition SCHEMA_LABEL := "com.solodock.schema-version".
Definition APP_ID_LABEL := "com.solodock.app-id".
Definition RELEASE_ID_LABEL := "com.solodock.release-id".
Definition PROJECT_LABEL := "com.docker.compose.project".
Definition SERVICE_LABEL := "com.docker.compose.service".
Definition ONEOFF_LABEL := "com.docker.compose.oneoff".

Record OwnedIdentity := MkOwnedIdentity { oi_app_id : Uuid; oi_release_id : Uuid }.

#[export] Instance OwnedIdentity_eq_dec : EqDecision OwnedIdentity.
Proof. solve_decision. Defined.

Section ownership.
Context {UT : UuidText}.

Definition canonical_uuid (value : string) : option Uuid :=
  parsed ← uuid_parse value;
  if value =? uuid_to_string parsed then Some parsed else None.

Definition validate_syntactic_identity (labels : gmap string string) (app : AppCatalogEntry)
    : option OwnedIdentity :=
  app_id ← labels !! APP_ID_LABEL ≫= canonical_uuid;
  release_id ← labels !! RELEASE_ID_LABEL ≫= canonical_uuid;
  if (labels !! MANAGED_LABEL =? Some "true")
     && (labels !! SCHEMA_LABEL =? Some "1")
     && (app_id =? ce_id app)
     && (labels !! PROJECT_LABEL =? Some (ce_project_name app))
     && (labels !! SERVICE_LABEL =? Some "app")
     && (labels !! ONEOFF_LABEL =? Some "False")
  then Some (MkOwnedIdentity app_id release_id) else None.

Definition validate_identity (labels : gmap string string) (app : AppCatalogEntry)
    : option OwnedIdentity :=
  identity ← validate_syntactic_identity labels app;
  if ce_active_release_id app =? Some (oi_release_id identity) then Some identity else None.

Definition release_is_allowed (identity : OwnedIdentity) (releases : list Uuid) : bool :=
  bool_decide (oi_release_id identity ∈ releases).

Definition validate_observed_identity (labels : gmap string string) (app : AppCatalogEntry)
    : option OwnedIdentity :=
  identity ← validate_syntactic_identity labels app;
  if (Some (oi_release_id identity) =? ce_active_release_id app)
     || (Some (oi_release_id identity) =? ce_pending_release_id app)
  then Some identity else None.

Definition claimed_app_id (labels : gmap string string) : option Uuid :=
  labels !! APP_ID_LABEL ≫= uuid_parse.

Definition is_managed_candidate (labels : gmap string string) : bool :=
  labels !! MANAGED_LABEL =? Some "true".

Definition valid_container_id (value : string) : bool :=
  Nat.eqb (String.length value) 64 && str_all is_lower_hex value.

(** ** Laws *)

(** The labels Compose and SoloDock put on the container of a release. *)
Definition carries_labels (labels : gmap string string) (app : AppCatalogEntry) (release : Uuid) : Prop :=
  labels !! MANAGED_LABEL = Some "true" /\ labels !! SCHEMA_LABEL = Some "1"
  /\ labels !! APP_ID_LABEL = Some (uuid_to_string (ce_id app))
  /\ labels !! RELEASE_ID_LABEL = Some (uuid_to_string release)
  /\ labels !! PROJECT_LABEL = Some (ce_project_name app)
  /\ labels !! SERVICE_LABEL = Some "app" /\ labels !! ONEOFF_LABEL = Some "False".

Lemma canonical_uuid_Some value u : canonical_uuid value = Some u <-> value = uuid_to_string u.
Proof.
  unfold canonical_uuid. split.
  - intros (v & Hv & H)%bind_Some. by case_bool_decide; simplify_eq.
  - intros ->. by rewrite uuid_parse_to_string; simpl; rewrite bool_decide_eq_true_2.
Qed.


(** The test accepts exactly the containers that carry the canonical labels of
    the application, and reports the release they name. *)
Lemma validate_syntactic_identity_spec labels app id :
  validate_syntactic_identity labels app = Some id <->
  oi_app_id id = ce_id app /\ carries_labels labels app (oi_release_id id).
Proof.
  unfold validate_syntactic_identity, carries_labels. split.
  - intros (a & (sa & Hla & Ha%canonical_uuid_Some)%bind_Some & H)%bind_Some.
    apply bind_Some in H as (r & (sr & Hlr & Hr%canonical_uuid_Some)%bind_Some & H).
    destruct (_ && _) eqn:Hc in H; [|done]. bools. simplify_eq. simpl. by repeat split.
  - destruct id as [a r]; simpl. intros (-> & Hm & Hs & Ha & Hr & Hp & Hv & Ho).
    rewrite Ha, Hr. simpl.
    rewrite !(proj2 (canonical_uuid_Some _ _) eq_refl). simpl.
    by rewrite Hm, Hs, Hp, Hv, Ho, !bool_decide_eq_true_2.
Qed.

(** The ownership test accepts a container only if it carries the complete
    canonical labels of the application, and then the container belongs to no
    other application and to no other release: two accepted tests on the same
    labels agree on application, project and release. *)
Theorem identity_exact_and_exclusive labels app1 id1 :
  validate_syntactic_identity labels app1 = Some id1 ->
  oi_app_id id1 = ce_id app1 /\ carries_labels labels app1 (oi_release_id id1)
  /\ forall app2 id2, validate_syntactic_identity labels app2 = Some id2 ->
     id1 = id2 /\ ce_id app1 = ce_id app2 /\ ce_project_name app1 = ce_project_name app2.
Proof.
  rewrite validate_syntactic_identity_spec. intros [Ha1 Hc1]. split; [done|]. split; [done|].
  intros app2 id2. rewrite validate_syntactic_identity_spec.
  destruct Hc1 as (_ & _ & Hi1 & Hr1 & Hp1 & _). intros [Ha2 (_ & _ & Hi2 & Hr2 & Hp2 & _)].
  rewrite Hi1 in Hi2. rewrite Hr1 in Hr2. rewrite Hp1 in Hp2.
  injection Hi2 as Hi%uuid_to_string_inj. injection Hr2 as Hr%uuid_to_string_inj.
  injection Hp2 as Hp. destruct id1, id2; simpl in *. by subst; rewrite Hi.
Qed.
End ownership.
