(* ===== verification/Database.v ===== *)
(** * Database: the SQLite tables the deployment engine and the poller share

    [migrations/*.sql] read through [src/deploy/ledger.rs] and
    [src/registry/poll_state.rs]. Tables with a single-column primary key are
    finite maps; tables read in insertion or key order are lists. Enumerated
    TEXT columns hold the Rust enumeration; [as_str]/[parse] of the source is
    their encoding. Timestamps are instants, compared as the text SQLite
    compares where the source orders by them. *)

From S2P Require Import Prelude Text Reference Models.

(** ** Enumerations of the deployments table *)

Inductive DeploymentTrigger := Manual | Rollback | Poll.

Inductive DeploymentStatus :=
| StQueued | StRunning | StSucceeded | StNoOp | StFailed | StRolledBack | StNeedsAttention | StInterrupted.

Inductive DeploymentPhase :=
| PhQueued | PhResolving | PhPreparing | PhPulling | PhApplying | PhVerifying | PhCommitting
| PhRollingBack | PhVerifyingRollback | PhTerminal.

#[export] Instance DeploymentTrigger_eq_dec : EqDecision DeploymentTrigger.
Proof. solve_decision. Defined.
#[export] Instance DeploymentStatus_eq_dec : EqDecision DeploymentStatus.
Proof. solve_decision. Defined.
#[export] Instance DeploymentPhase_eq_dec : EqDecision DeploymentPhase.
Proof. solve_decision. Defined.

Inductive LedgerError := LeBusy | LeStateChanged | LeCorrupt | LeDb | LeSql.

#[export] Instance LedgerError_eq_dec : EqDecision LedgerError.
Proof. solve_decision. Defined.

(** The text encodings the [string_enum!] macro generates. *)
Definition trigger_as_str (t : DeploymentTrigger) : string :=
  match t with Manual => "manual" | Rollback => "rollback" | Poll => "poll" end.

Definition status_as_str (s : DeploymentStatus) : string :=
  match s with
  | StQueued => "queued" | StRunning => "running" | StSucceeded => "succeeded" | StNoOp => "no_op"
  | StFailed => "failed" | StRolledBack => "rolled_back" | StNeedsAttention => "needs_attention"
  | StInterrupted => "interrupted"
  end.

Definition phase_as_str (p : DeploymentPhase) : string :=
  match p with
  | PhQueued => "queued" | PhResolving => "resolving" | PhPreparing => "preparing"
  | PhPulling => "pulling" | PhApplying => "applying" | PhVerifying => "verifying"
  | PhCommitting => "committing" | PhRollingBack => "rolling_back"
  | PhVerifyingRollback => "verifying_rollback" | PhTerminal => "terminal"
  end.

(** [match value { text => Ok(variant), .., _ => Err(Corrupt) }]. *)
Fixpoint parse_variant {A} (as_str : A -> string) (variants : list A) (value : string)
    : result LedgerError A :=
  match variants with
  | [] => Err LeCorrupt
  | v :: vs => if value =? as_str v then Ok v else parse_variant as_str vs value
  end.

Definition trigger_parse := parse_variant trigger_as_str [Manual; Rollback; Poll].
Definition status_parse := parse_variant status_as_str
  [StQueued; StRunning; StSucceeded; StNoOp; StFailed; StRolledBack; StNeedsAttention; StInterrupted].
Definition phase_parse := parse_variant phase_as_str
  [PhQueued; PhResolving; PhPreparing; PhPulling; PhApplying; PhVerifying; PhCommitting;
   PhRollingBack; PhVerifyingRollback; PhTerminal].

Definition is_terminal (s : DeploymentStatus) : bool :=
  match s with StQueued | StRunning => false | _ => true end.

(** ** Deployments *)

Record DeploymentRecord := MkDeploymentRecord {
  dp_id : Uuid;
  dp_app_id : Uuid;
  dp_trigger : DeploymentTrigger;
  dp_requested_revision : Uuid;
  dp_from_release_id : option Uuid;
  dp_expected_pending_release_id : option Uuid;
  dp_expected_actual_release_id : option Uuid;
  dp_expected_actual_container_id : option string;
  dp_predecessor_runtime_release_id : option Uuid;
  dp_candidate_release_id : option Uuid;
  dp_rollback_target_release_id : option Uuid;
  dp_rollback_of_deployment_id : option Uuid;
  dp_status : DeploymentStatus;
  dp_phase : DeploymentPhase;
  dp_source_image_ref : option string;
  dp_source_descriptor_digest : option string;
  dp_manifest_digest : option string;
  dp_platform : option string;
  dp_scheduled_source_image_ref : option string;
  dp_scheduled_source_descriptor_digest : option string;
  dp_scheduled_manifest_digest : option string;
  dp_scheduled_index_digest : option string;
  dp_scheduled_platform_os : option string;
  dp_scheduled_platform_architecture : option string;
  dp_scheduled_platform_variant : option string;
  dp_scheduled_local_image_id : option string;
  dp_scheduled_repository : option string;
  dp_scheduled_target_key : option string;
  dp_poll_generation : option string;
  dp_error_class : option string;
  dp_error_code : option string;
  dp_health_policy : option string;
  dp_health_result : option string;
  dp_request_id : Uuid;
  dp_created_at : Time;
  dp_started_at : option Time;
  dp_completed_at : option Time;
  dp_updated_at : Time;
}.

#[export] Instance eta_DeploymentRecord : Eta DeploymentRecord := fun r =>
  MkDeploymentRecord (dp_id r) (dp_app_id r) (dp_trigger r) (dp_requested_revision r)
    (dp_from_release_id r) (dp_expected_pending_release_id r) (dp_expected_actual_release_id r)
    (dp_expected_actual_container_id r) (dp_predecessor_runtime_release_id r)
    (dp_candidate_release_id r) (dp_rollback_target_release_id r) (dp_rollback_of_deployment_id r)
    (dp_status r) (dp_phase r) (dp_source_image_ref r) (dp_source_descriptor_digest r)
    (dp_manifest_digest r) (dp_platform r) (dp_scheduled_source_image_ref r)
    (dp_scheduled_source_descriptor_digest r) (dp_scheduled_manifest_digest r)
    (dp_scheduled_index_digest r) (dp_scheduled_platform_os r)
    (dp_scheduled_platform_architecture r) (dp_scheduled_platform_variant r)
    (dp_scheduled_local_image_id r) (dp_scheduled_repository r) (dp_scheduled_target_key r)
    (dp_poll_generation r) (dp_error_class r) (dp_error_code r) (dp_health_policy r)
    (dp_health_result r) (dp_request_id r) (dp_created_at r) (dp_started_at r)
    (dp_completed_at r) (dp_updated_at r).

Inductive EffectPhase := EffectStarted | EffectObserved.

#[export] Instance EffectPhase_eq_dec : EqDecision EffectPhase.
Proof. solve_decision. Defined.

(** A row: the columns of [DeploymentRecord] and the effect markers only the
    ledger's own statements read. *)
Record DeploymentRow := MkDeploymentRow {
  row_record : DeploymentRecord;
  row_effect_phase : option EffectPhase;
  row_pre_container_id : option string;
  row_pre_started_at : option string;
  row_post_container_id : option string;
  row_rollback_effect_phase : option EffectPhase;
  row_rollback_pre_container_id : option string;
  row_rollback_post_container_id : option string;
}.

#[export] Instance eta_DeploymentRow : Eta DeploymentRow := fun r =>
  MkDeploymentRow (row_record r) (row_effect_phase r) (row_pre_container_id r)
    (row_pre_started_at r) (row_post_container_id r) (row_rollback_effect_phase r)
    (row_rollback_pre_container_id r) (row_rollback_post_container_id r).

Record TransitionRow := MkTransitionRow {
  tr_deployment_id : Uuid;
  tr_seq : Z;
  tr_phase : DeploymentPhase;
  tr_result : string;
  tr_code : option string;
  tr_created_at : Time;
}.

(** The JSON metadata of an audit event is an object of text fields. *)
Record AuditEvent := MkAuditEvent {
  ae_actor : string;
  ae_request_id : Uuid;
  ae_action : string;
  ae_target_type : option string;
  ae_target_id : option Uuid;
  ae_result : string;
  ae_metadata : list (string * option string);
  ae_created_at : Time;
}.

(** ** Poll state *)

Inductive PollOutcome :=
| PoDisabled | PoScheduled | PoUnchanged | PoConfigPendingManual | PoBusySkipped | PoBlockedDrift
| PoBlockedAttention | PoSuppressedFailedTarget | PoRegistryError | PoCredentialError
| PoInvalidSource | PoCancelled.

#[export] Instance PollOutcome_eq_dec : EqDecision PollOutcome.
Proof. solve_decision. Defined.

Record PollState := MkPollState {
  pl_app_id : Uuid;
  pl_generation : string;
  pl_enabled : bool;
  pl_consecutive_transient_failures : Z;
  pl_next_check_not_before : option Time;
  pl_last_checked_at : option Time;
  pl_last_success_at : option Time;
  pl_last_source_descriptor_digest : option string;
  pl_last_etag : option string;
  pl_last_manifest_digest : option string;
  pl_last_platform : option string;
  pl_last_outcome : PollOutcome;
  pl_last_error_class : option string;
  pl_last_error_code : option string;
  pl_suppressed_target_key : option string;
  pl_suppressed_deployment_id : option Uuid;
  pl_webhook_sequence : Z;
  pl_webhook_processed_sequence : Z;
  pl_last_webhook_received_at : option Time;
  pl_last_wake_source : option string;
  pl_updated_at : Time;
}.

#[export] Instance eta_PollState : Eta PollState := fun r =>
  MkPollState (pl_app_id r) (pl_generation r) (pl_enabled r)
    (pl_consecutive_transient_failures r) (pl_next_check_not_before r) (pl_last_checked_at r)
    (pl_last_success_at r) (pl_last_source_descriptor_digest r) (pl_last_etag r)
    (pl_last_manifest_digest r) (pl_last_platform r) (pl_last_outcome r) (pl_last_error_class r)
    (pl_last_error_code r) (pl_suppressed_target_key r) (pl_suppressed_deployment_id r)
    (pl_webhook_sequence r) (pl_webhook_processed_sequence r) (pl_last_webhook_received_at r)
    (pl_last_wake_source r) (pl_updated_at r).

(** ** Webhook replays *)

Record ReplayRow := MkReplayRow {
  rp_app_id : Uuid;
  rp_secret_revision : Uuid;
  rp_nonce_sha256 : string;
  rp_received_at : Time;
  rp_expires_at : Time;
  rp_request_id : Uuid;
}.

(** ** The database *)

Record Database := MkDatabase {
  deployments : gmap Uuid DeploymentRow;
  deployment_transitions : list TransitionRow;
  audit_events : list AuditEvent;
  poll_states : gmap Uuid PollState;
  webhook_replays : list ReplayRow;
}.

#[export] Instance eta_Database : Eta Database := fun r =>
  MkDatabase (deployments r) (deployment_transitions r) (audit_events r) (poll_states r)
    (webhook_replays r).

Definition empty_database : Database := MkDatabase ∅ [] [] ∅ [].

(** ** Encodings are injective and complete *)

Lemma parse_variant_as_str {A} (as_str : A -> string) variants v :
  (forall a b, as_str a = as_str b -> a = b) -> v ∈ variants ->
  parse_variant as_str variants (as_str v) = Ok v.
Proof.
  intros Hinj. induction variants as [|w vs IH]; [by intros ?%not_elem_of_nil|].
  rewrite elem_of_cons. intros Hv. simpl. case_bool_decide as Heq; [by rewrite (Hinj _ _ Heq)|].
  destruct Hv as [->|Hv]; [done|auto].
Qed.

Lemma parse_variant_Ok {A} (as_str : A -> string) variants value v :
  parse_variant as_str variants value = Ok v -> value = as_str v.
Proof.
  induction variants as [|w vs IH]; [done|]. simpl. case_bool_decide; [by intros [= ->]|auto].
Qed.

(** Every status, phase and trigger written to the ledger reads back as itself. *)
Lemma ledger_enums_roundtrip :
  (forall t, trigger_parse (trigger_as_str t) = Ok t)
  /\ (forall s, status_parse (status_as_str s) = Ok s)
  /\ (forall p, phase_parse (phase_as_str p) = Ok p).
Proof. repeat split; intros []; reflexivity. Qed.
