(* ===== verification/Ledger.v ===== *)
(** * Ledger: the durable record of deployments

    [src/deploy/ledger.rs] over the tables of [migrations/0003, 0004]. Each
    operation is one SQLite transaction: it returns the new database, or an
    error and the database is unchanged. [now] is the instant the operation
    reads from the clock. *)

From S2P Require Import Prelude Text Reference Models Database.

(** ** Statements *)

Definition status_of (row : DeploymentRow) : DeploymentStatus := dp_status (row_record row).
(** [status IN ('queued','running')] *)
Definition nonterminal (row : DeploymentRow) : bool := negb (is_terminal (status_of row)).

(** [UPDATE deployments SET .. WHERE id=? AND cond]; the callers refuse unless
    exactly one row changed. *)
Definition update_deployment (id : Uuid) (cond : DeploymentRow -> bool)
    (set : DeploymentRow -> DeploymentRow) (db : Database) : result LedgerError Database :=
  match deployments db !! id with
  | Some row => if cond row then Ok (db <| deployments := <[id := set row]> (deployments db) |>)
                else Err LeStateChanged
  | None => Err LeStateChanged
  end.

(** The unique index [deployments_one_nonterminal_per_app] (the index
    [deployments_poll_target] is implied by it). *)
Definition app_claimed (app_id : Uuid) (db : Database) : bool :=
  existsb (fun kv => (dp_app_id (row_record kv.2) =? app_id) && nonterminal kv.2)
    (map_to_list (deployments db)).

(** [INSERT INTO deployments]: refused on the primary key or the unique index. *)
Definition insert_deployment (row : DeploymentRow) (db : Database) : result LedgerError Database :=
  let id := dp_id (row_record row) in
  if is_some (deployments db !! id)
     || (nonterminal row && app_claimed (dp_app_id (row_record row)) db)
  then Err LeBusy
  else Ok (db <| deployments := <[id := row]> (deployments db) |>).

(** [INSERT INTO deployment_transitions]: refused on the primary key. *)
Definition insert_transition (row : TransitionRow) (db : Database) : result LedgerError Database :=
  if existsb (fun t => (tr_deployment_id t =? tr_deployment_id row) && (tr_seq t =? tr_seq row))
       (deployment_transitions db)
  then Err LeSql
  else Ok (db <| deployment_transitions := deployment_transitions db ++ [row] |>).

Definition insert_audit_event (event : AuditEvent) (db : Database) : Database :=
  db <| audit_events := audit_events db ++ [event] |>.

Definition transitions_of (id : Uuid) (db : Database) : list TransitionRow :=
  filter (fun t => tr_deployment_id t = id) (deployment_transitions db).

(** [SELECT COALESCE(MAX(seq),0)+1 FROM deployment_transitions WHERE deployment_id=?] *)
Definition next_seq (id : Uuid) (db : Database) : Z :=
  (max_or_zero (tr_seq <$> transitions_of id db) + 1)%Z.

(** ** Operations *)

(** The row [create] inserts: the named columns, every other column NULL. *)
Definition queued_row (now : Time) (id app_id : Uuid) (trigger : DeploymentTrigger)
    (requested_revision : Uuid) (from_release_id rollback_target rollback_of : option Uuid)
    (request_id : Uuid) : DeploymentRow :=
  MkDeploymentRow
    {| dp_id := id; dp_app_id := app_id; dp_trigger := trigger;
       dp_requested_revision := requested_revision; dp_from_release_id := from_release_id;
       dp_expected_pending_release_id := None; dp_expected_actual_release_id := None;
       dp_expected_actual_container_id := None; dp_predecessor_runtime_release_id := None;
       dp_candidate_release_id := None; dp_rollback_target_release_id := rollback_target;
       dp_rollback_of_deployment_id := rollback_of; dp_status := StQueued; dp_phase := PhQueued;
       dp_source_image_ref := None; dp_source_descriptor_digest := None;
       dp_manifest_digest := None; dp_platform := None; dp_scheduled_source_image_ref := None;
       dp_scheduled_source_descriptor_digest := None; dp_scheduled_manifest_digest := None;
       dp_scheduled_index_digest := None; dp_scheduled_platform_os := None;
       dp_scheduled_platform_architecture := None; dp_scheduled_platform_variant := None;
       dp_scheduled_local_image_id := None; dp_scheduled_repository := None;
       dp_scheduled_target_key := None; dp_poll_generation := None; dp_error_class := None;
       dp_error_code := None; dp_health_policy := None; dp_health_result := None;
       dp_request_id := request_id; dp_created_at := now; dp_started_at := None;
       dp_completed_at := None; dp_updated_at := now |}
    None None None None None None None.

Definition get (id : Uuid) (db : Database) : option DeploymentRecord :=
  row_record <$> deployments db !! id.

Definition create (now : Time) (id app_id : Uuid) (trigger : DeploymentTrigger)
    (requested_revision : Uuid) (from_release_id rollback_target rollback_of : option Uuid)
    (request_id : Uuid) (db : Database) : result LedgerError (Database * DeploymentRecord) :=
  db ← insert_deployment
         (queued_row now id app_id trigger requested_revision from_release_id rollback_target
            rollback_of request_id) db;
  db ← insert_transition (MkTransitionRow id 1 PhQueued "scheduled" None now) db;
  record ← ok_or (get id db) LeCorrupt;
  Ok (db, record).

Definition set_transition (now : Time) (phase : DeploymentPhase) (status : DeploymentStatus)
    (code : option string) (row : DeploymentRow) : DeploymentRow :=
  let r := row_record row in
  row <| row_record :=
    r <| dp_phase := phase |>
      <| dp_status := status |>
      <| dp_started_at := coalesce (dp_started_at r) (if status =? StRunning then Some now else None) |>
      <| dp_completed_at := if is_terminal status then Some now else dp_completed_at r |>
      <| dp_error_code := code |>
      <| dp_updated_at := now |> |>.

(** [status] is one of those that suppress a polled target. *)
Definition suppresses (status : DeploymentStatus) : bool :=
  match status with StFailed | StRolledBack | StNeedsAttention => true | _ => false end.

(** [UPDATE poll_states SET suppressed.. WHERE app_id=? AND generation=?] *)
Definition suppress_target (now : Time) (id app_id : Uuid) (generation : option string)
    (target : string) (db : Database) : Database :=
  match poll_states db !! app_id with
  | Some p =>
      if generation =? Some (pl_generation p) then
        db <| poll_states := <[app_id :=
          p <| pl_suppressed_target_key := Some target |>
            <| pl_suppressed_deployment_id := Some id |>
            <| pl_last_outcome := PoSuppressedFailedTarget |>
            <| pl_updated_at := now |>]> (poll_states db) |>
      else db
  | None => db
  end.

Definition terminal_audit (now : Time) (status : DeploymentStatus) (code : option string)
    (r : DeploymentRecord) (render : Uuid -> string) : AuditEvent :=
  MkAuditEvent "system" (dp_request_id r) "deployment_terminal" (Some "app") (Some (dp_app_id r))
    (status_as_str status)
    [("deployment_id", Some (render (dp_id r))); ("trigger", Some (trigger_as_str (dp_trigger r)));
     ("status", Some (status_as_str status)); ("code", code)] now.

(** The terminal part of [transition]: audit and failed-target suppression. *)
Definition close_deployment (render : Uuid -> string) (now : Time) (id : Uuid)
    (status : DeploymentStatus) (code : option string) (r : DeploymentRecord) (db : Database) : Database :=
  let db := insert_audit_event (terminal_audit now status code r render) db in
  match dp_trigger r, dp_scheduled_target_key r with
  | Poll, Some target =>
      if suppresses status then suppress_target now id (dp_app_id r) (dp_poll_generation r) target db
      else db
  | _, _ => db
  end.

Definition transition (render : Uuid -> string) (now : Time) (id : Uuid) (phase : DeploymentPhase)
    (status : DeploymentStatus) (res : string) (code : option string) (db : Database)
    : result LedgerError Database :=
  db ← update_deployment id nonterminal (set_transition now phase status code) db;
  db ← insert_transition (MkTransitionRow id (next_seq id db) phase res code now) db;
  if is_terminal status then
    row ← ok_or (deployments db !! id) LeSql;
    Ok (close_deployment render now id status code (row_record row) db)
  else Ok db.

Definition running (row : DeploymentRow) : bool := status_of row =? StRunning.

Definition resolved (now : Time) (id candidate : Uuid) (predecessor : option Uuid)
    (source descriptor manifest platform : string) (db : Database) : result LedgerError Database :=
  update_deployment id running
    (fun row => row <| row_record :=
       (row_record row) <| dp_candidate_release_id := Some candidate |>
         <| dp_predecessor_runtime_release_id := predecessor |>
         <| dp_source_image_ref := Some source |>
         <| dp_source_descriptor_digest := Some descriptor |>
         <| dp_manifest_digest := Some manifest |>
         <| dp_platform := Some platform |>
         <| dp_updated_at := now |> |>) db.

(** No guard: a missing row changes nothing and is not an error. *)
Definition set_health (now : Time) (id : Uuid) (policy res : string) (db : Database)
    : result LedgerError Database :=
  Ok (db <| deployments :=
        alter (fun row => row <| row_record :=
                 (row_record row) <| dp_health_policy := Some policy |>
                   <| dp_health_result := Some res |> <| dp_updated_at := now |> |>)
          id (deployments db) |>).

Definition touch (now : Time) (row : DeploymentRow) : DeploymentRow :=
  row <| row_record := (row_record row) <| dp_updated_at := now |> |>.

Definition mark_effect_started (now : Time) (id : Uuid) (pre_container_id pre_started_at : option string)
    (db : Database) : result LedgerError Database :=
  update_deployment id
    (fun row => running row && (dp_phase (row_record row) =? PhApplying) && is_none (row_effect_phase row))
    (fun row => (touch now row) <| row_effect_phase := Some EffectStarted |>
                  <| row_pre_container_id := pre_container_id |>
                  <| row_pre_started_at := pre_started_at |>) db.

Definition mark_effect_observed (now : Time) (id : Uuid) (post_container_id : string) (db : Database)
    : result LedgerError Database :=
  update_deployment id
    (fun row => running row && (row_effect_phase row =? Some EffectStarted))
    (fun row => (touch now row) <| row_effect_phase := Some EffectObserved |>
                  <| row_post_container_id := Some post_container_id |>) db.

Definition mark_rollback_started (now : Time) (id : Uuid) (pre_container_id : string) (db : Database)
    : result LedgerError Database :=
  update_deployment id
    (fun row => running row && is_none (row_rollback_effect_phase row))
    (fun row => (touch now row) <| row_rollback_effect_phase := Some EffectStarted |>
                  <| row_rollback_pre_container_id := Some pre_container_id |>) db.

Definition mark_rollback_observed (now : Time) (id : Uuid) (post_container_id : option string)
    (db : Database) : result LedgerError Database :=
  update_deployment id
    (fun row => running row && (row_rollback_effect_phase row =? Some EffectStarted))
    (fun row => (touch now row) <| row_rollback_effect_phase := Some EffectObserved |>
                  <| row_rollback_post_container_id := post_container_id |>) db.

(** Startup recovery: every deployment a previous process left open. *)
Definition interrupt_row (now : Time) (row : DeploymentRow) : DeploymentRow :=
  if nonterminal row then
    row <| row_record :=
      (row_record row) <| dp_status := StInterrupted |> <| dp_phase := PhTerminal |>
        <| dp_error_class := Some "interrupted" |>
        <| dp_error_code := Some "DEPLOYMENT_INTERRUPTED" |>
        <| dp_completed_at := Some now |> <| dp_updated_at := now |> |>
  else row.

Definition count_rows (P : DeploymentRow -> bool) (db : Database) : nat :=
  length (filter (fun kv : Uuid * DeploymentRow => P kv.2 = true) (map_to_list (deployments db))).

Definition interrupt_nonterminal (now : Time) (db : Database) : Database * nat :=
  (db <| deployments := interrupt_row now <$> deployments db |>, count_rows nonterminal db).

Definition active_count (db : Database) : nat := count_rows nonterminal db.

Definition attention_counts (db : Database) : nat * nat :=
  (count_rows (fun row => status_of row =? StInterrupted) db,
   count_rows (fun row => status_of row =? StNeedsAttention) db).

(** ** Invariants *)

(** A row's columns agree with its status and its effect markers. *)
Record row_wf (row : DeploymentRow) : Prop := {
  rw_completed : is_terminal (status_of row) = is_some (dp_completed_at (row_record row));
  rw_effect : match row_effect_phase row with
              | None => row_pre_container_id row = None /\ row_post_container_id row = None
              | Some EffectStarted => row_post_container_id row = None
              | Some EffectObserved => is_Some (row_post_container_id row)
              end;
  rw_rollback : match row_rollback_effect_phase row with
                | None => row_rollback_pre_container_id row = None
                          /\ row_rollback_post_container_id row = None
                | Some EffectStarted => is_Some (row_rollback_pre_container_id row)
                                        /\ row_rollback_post_container_id row = None
                | Some EffectObserved => is_Some (row_rollback_pre_container_id row)
                end;
}.

Record ledger_wf (db : Database) : Prop := {
  lw_key id row : deployments db !! id = Some row -> dp_id (row_record row) = id;
  lw_row id row : deployments db !! id = Some row -> row_wf row;
  (** at most one open deployment per application *)
  lw_claim id1 id2 row1 row2 :
    deployments db !! id1 = Some row1 -> deployments db !! id2 = Some row2 ->
    dp_app_id (row_record row1) = dp_app_id (row_record row2) ->
    nonterminal row1 = true -> nonterminal row2 = true -> id1 = id2;
  (** the transitions of a deployment are numbered 1, 2, .. without gaps *)
  lw_seq id : tr_seq <$> transitions_of id db = seqZ 1 (Z.of_nat (length (transitions_of id db)));
  (** exactly the recorded deployments have transitions *)
  lw_ref id : transitions_of id db = [] <-> deployments db !! id = None;
}.

Lemma app_claimed_false app_id db :
  app_claimed app_id db = false ->
  forall id row, deployments db !! id = Some row -> dp_app_id (row_record row) = app_id ->
  nonterminal row = false.
Proof.
  unfold app_claimed. intros H id row Hrow Happ. destruct (nonterminal row) eqn:Hn; [|done].
  rewrite <- not_true_iff_false, existsb_exists in H. destruct H.
  exists (id, row). split; [by apply list_elem_of_In, elem_of_map_to_list|].
  simpl. by rewrite bool_decide_eq_true_2, Hn.
Qed.

Lemma app_claimed_true app_id db :
  app_claimed app_id db = true <->
  exists id row, deployments db !! id = Some row /\ dp_app_id (row_record row) = app_id
    /\ nonterminal row = true.
Proof.
  unfold app_claimed. rewrite existsb_exists. split.
  - intros ([id row] & Hin & Hc). bools. exists id, row.
    by apply list_elem_of_In, elem_of_map_to_list in Hin.
  - intros (id & row & Hrow & Happ & Hn). exists (id, row).
    split; [by apply list_elem_of_In, elem_of_map_to_list|]. simpl.
    by rewrite bool_decide_eq_true_2, Hn.
Qed.

Lemma update_deployment_ok id cond set db db' :
  update_deployment id cond set db = Ok db' ->
  exists row, deployments db !! id = Some row /\ cond row = true
    /\ db' = db <| deployments := <[id := set row]> (deployments db) |>.
Proof.
  unfold update_deployment. intros H. destruct (deployments db !! id) as [row|]; [|done].
  destruct (cond row) eqn:Hc; [|done]. simplify_eq. eauto.
Qed.

(** What a statement that changes one row must respect. *)
Record row_update (row row' : DeploymentRow) : Prop := {
  ru_id : dp_id (row_record row') = dp_id (row_record row);
  ru_app : dp_app_id (row_record row') = dp_app_id (row_record row);
  ru_open : nonterminal row' = true -> nonterminal row = true;
  ru_wf : row_wf row -> row_wf row';
}.

Lemma update_wf db id row row' :
  ledger_wf db -> deployments db !! id = Some row -> row_update row row' ->
  ledger_wf (db <| deployments := <[id := row']> (deployments db) |>).
Proof.
  intros Hwf Hrow [Hid Happ Hopen Hrwf].
  split; cbn -[transitions_of seqZ].
  - intros i r. rewrite lookup_insert. case_decide; [intros [= <-]; subst|apply Hwf].
    rewrite Hid. by apply (lw_key db Hwf).
  - intros i r. rewrite lookup_insert. case_decide; [intros [= <-]; subst|apply Hwf].
    by apply Hrwf, (lw_row db Hwf i).
  - intros i j r1 r2. rewrite !lookup_insert. repeat case_decide; intros; simplify_eq; try done.
    + eapply (lw_claim db Hwf); eauto; congruence.
    + eapply (lw_claim db Hwf); eauto; congruence.
    + by eapply (lw_claim db Hwf i j).
  - apply Hwf.
  - intros i. rewrite (lw_ref db Hwf i), lookup_insert. case_decide; [subst|done].
    by rewrite Hrow.
Qed.

Lemma filter_snoc_self {A} (P : A -> Prop) `{!forall x, Decision (P x)} (l : list A) x :
  P x -> filter P (l ++ [x]) = filter P l ++ [x].
Proof. intros Hx. rewrite list.filter_app. by rewrite (list.filter_cons_True _ x []) by done. Qed.

Lemma filter_snoc_other {A} (P : A -> Prop) `{!forall x, Decision (P x)} (l : list A) x :
  ~ P x -> filter P (l ++ [x]) = filter P l.
Proof.
  intros Hx. rewrite list.filter_app, (list.filter_cons_False _ x []) by done.
  apply app_nil_r.
Qed.

Lemma max_or_zero_app l z : max_or_zero (l ++ [z]) = Z.max (max_or_zero l) (Z.max z 0).
Proof. unfold max_or_zero. rewrite foldr_app. simpl. induction l as [|x l IH]; simpl; lia. Qed.

Lemma max_or_zero_seqZ n : max_or_zero (seqZ 1 (Z.of_nat n)) = Z.of_nat n.
Proof.
  induction n as [|n IH]; [done|]. rewrite seqZ_S, max_or_zero_app, IH. lia.
Qed.

Lemma next_seq_wf db id : ledger_wf db -> next_seq id db = (Z.of_nat (length (transitions_of id db)) + 1)%Z.
Proof. intros Hwf. unfold next_seq. by rewrite (lw_seq db Hwf), max_or_zero_seqZ. Qed.

(** Appending the next transition of a deployment never conflicts and keeps the
    numbering. *)
Lemma insert_transition_wf db id phase res code now :
  ledger_wf db -> is_Some (deployments db !! id) ->
  exists db', insert_transition (MkTransitionRow id (next_seq id db) phase res code now) db = Ok db'
    /\ ledger_wf db' /\ deployments db' = deployments db /\ poll_states db' = poll_states db
    /\ audit_events db' = audit_events db /\ webhook_replays db' = webhook_replays db
    /\ transitions_of id db' = transitions_of id db ++ [MkTransitionRow id (next_seq id db) phase res code now].
Proof.
  intros Hwf Hsome. unfold insert_transition.
  destruct (existsb _ _) eqn:Hex.
  { apply existsb_exists in Hex as (t & Hin%list_elem_of_In & Hc). bools. simpl in *.
    assert (Ht : t ∈ transitions_of id db) by (apply list_elem_of_filter; by split).
    assert (Hle : (tr_seq t <= max_or_zero (tr_seq <$> transitions_of id db))%Z)
      by (by apply max_or_zero_upper, list_elem_of_fmap_2).
    unfold next_seq in *. lia. }
  eexists; split; [done|]. set (t := MkTransitionRow _ _ _ _ _ _).
  assert (Hself : filter (fun t => tr_deployment_id t = id) (deployment_transitions db ++ [t])
                  = transitions_of id db ++ [t]) by (by apply filter_snoc_self).
  assert (Hother : forall i, i <> id ->
            filter (fun t => tr_deployment_id t = i) (deployment_transitions db ++ [t])
            = transitions_of i db).
  { intros i Hi. apply filter_snoc_other. by intros <-. }
  split; [|repeat split; done].
  split; try apply Hwf.
  - intros i. unfold transitions_of. cbn [deployment_transitions field_set eta_Database].
    destruct (decide (i = id)) as [->|Hi]; [|by rewrite Hother by done; apply Hwf].
    rewrite Hself, fmap_app, length_app. cbn [length fmap list_fmap tr_seq t].
    rewrite (lw_seq db Hwf), Nat2Z.inj_add, next_seq_wf by done.
    rewrite seqZ_app by lia. f_equal. rewrite seqZ_cons by done. f_equal. lia.
  - intros i. unfold transitions_of at 1. cbn [deployment_transitions deployments field_set eta_Database].
    destruct (decide (i = id)) as [->|Hi]; [|by rewrite Hother by done; apply Hwf].
    rewrite Hself. destruct Hsome as [row ->]. split; [|done].
    intros H. by apply app_nil in H as [_ ?].
Qed.

(** A row as [create] and [claim_deployment] insert it. *)
Record queued_fresh (row : DeploymentRow) : Prop := {
  qf_status : status_of row = StQueued;
  qf_completed : dp_completed_at (row_record row) = None;
  qf_effect : row_effect_phase row = None;
  qf_pre : row_pre_container_id row = None;
  qf_post : row_post_container_id row = None;
  qf_rollback : row_rollback_effect_phase row = None;
  qf_rollback_pre : row_rollback_pre_container_id row = None;
  qf_rollback_post : row_rollback_post_container_id row = None;
}.

Lemma queued_fresh_nonterminal row : queued_fresh row -> nonterminal row = true.
Proof. intros H. unfold nonterminal. by rewrite (qf_status row H). Qed.

Lemma queued_fresh_wf row : queued_fresh row -> row_wf row.
Proof. intros [Hs Hc He Hp Ho Hr Hrp Hro]. split; [by rewrite Hs, Hc|by rewrite He|by rewrite Hr]. Qed.

Lemma insert_deployment_ok row db db' :
  insert_deployment row db = Ok db' ->
  deployments db !! dp_id (row_record row) = None
  /\ (nonterminal row = true -> app_claimed (dp_app_id (row_record row)) db = false)
  /\ db' = db <| deployments := <[dp_id (row_record row) := row]> (deployments db) |>.
Proof.
  unfold insert_deployment. intros H.
  destruct (deployments db !! dp_id (row_record row)) eqn:Hl; [done|]. simpl in H.
  destruct (nonterminal row && app_claimed _ db) eqn:Hc; [done|]. simplify_eq.
  split; [done|]. split; [|done]. intros Hn. by rewrite Hn in Hc.
Qed.

(** A deployment inserted together with its first transition. *)
Definition open_deployment (now : Time) (row : DeploymentRow) (db : Database) : result LedgerError Database :=
  db ← insert_deployment row db;
  insert_transition (MkTransitionRow (dp_id (row_record row)) 1 PhQueued "scheduled" None now) db.

Lemma open_deployment_wf now row db :
  ledger_wf db -> queued_fresh row ->
  deployments db !! dp_id (row_record row) = None ->
  app_claimed (dp_app_id (row_record row)) db = false ->
  exists db', open_deployment now row db = Ok db' /\ ledger_wf db'
    /\ deployments db' = <[dp_id (row_record row) := row]> (deployments db).
Proof.
  intros Hwf Hq Hnone Hfree. set (id := dp_id (row_record row)).
  unfold open_deployment, insert_deployment. fold id in Hnone |- *. rewrite Hnone, Hfree, andb_false_r.
  cbn [is_some orb mbind result_bind]. set (db1 := db <| deployments := _ |>).
  set (t := MkTransitionRow id 1 PhQueued "scheduled" None now).
  assert (Hnil : transitions_of id db = []) by (by apply (lw_ref db Hwf)).
  unfold insert_transition. destruct (existsb _ _) eqn:Hex.
  { apply existsb_exists in Hex as (t' & Hin%list_elem_of_In & Hc). bools.
    assert (Ht : t' ∈ transitions_of id db) by (apply list_elem_of_filter; by split).
    rewrite Hnil in Ht. by apply not_elem_of_nil in Ht. }
  assert (Hself : filter (fun t => tr_deployment_id t = id) (deployment_transitions db ++ [t]) = [t])
    by (rewrite filter_snoc_self by done; unfold transitions_of in Hnil; by rewrite Hnil).
  assert (Hother : forall i, i <> id ->
            filter (fun t => tr_deployment_id t = i) (deployment_transitions db ++ [t])
            = transitions_of i db)
    by (intros i Hi; apply filter_snoc_other; by intros <-).
  eexists; split; [done|]. split; [|done].
  split; cbn [deployments deployment_transitions field_set eta_Database db1].
  - intros i r. rewrite lookup_insert. case_decide; [by intros [= <-]|apply Hwf].
  - intros i r. rewrite lookup_insert.
    case_decide; [intros [= <-]; by apply queued_fresh_wf|apply Hwf].
  - intros i j r1 r2. rewrite !lookup_insert. repeat case_decide; intros; simplify_eq; try done.
    + exfalso. assert (nonterminal r2 = false) by (eapply app_claimed_false; eauto). congruence.
    + exfalso. assert (nonterminal r1 = false) by (eapply app_claimed_false; eauto). congruence.
    + by eapply (lw_claim db Hwf i j).
  - intros i. unfold transitions_of. cbn [deployment_transitions field_set eta_Database db1].
    destruct (decide (i = id)) as [->|Hi]; [by rewrite Hself|by rewrite Hother by done; apply Hwf].
  - intros i. unfold transitions_of. cbn [deployment_transitions field_set eta_Database db1].
    rewrite lookup_insert. case_decide as Hi; subst; [by rewrite Hself|].
    rewrite Hother by done. apply Hwf.
Qed.

Lemma open_deployment_ok now row db db' :
  open_deployment now row db = Ok db' ->
  deployments db !! dp_id (row_record row) = None
  /\ (nonterminal row = true -> app_claimed (dp_app_id (row_record row)) db = false).
Proof.
  unfold open_deployment. intros H. ok_inv. apply insert_deployment_ok in E as (? & ? & ?). done.
Qed.

(** ** The ledger as a transition system

    One step is one committed transaction. [step_open] is the insertion shared
    by [create] and the idempotent deployment claim; [step_other] is any
    transaction on other tables. *)
Inductive ledger_step (db : Database) : Database -> Prop :=
| step_open now row db' :
    queued_fresh row -> open_deployment now row db = Ok db' -> ledger_step db db'
| step_transition render now id phase status res code db' :
    transition render now id phase status res code db = Ok db' -> ledger_step db db'
| step_resolved now id candidate predecessor source descriptor manifest platform db' :
    resolved now id candidate predecessor source descriptor manifest platform db = Ok db' ->
    ledger_step db db'
| step_set_health now id policy res db' :
    set_health now id policy res db = Ok db' -> ledger_step db db'
| step_mark_effect_started now id pre_id pre_started db' :
    mark_effect_started now id pre_id pre_started db = Ok db' -> ledger_step db db'
| step_mark_effect_observed now id post_id db' :
    mark_effect_observed now id post_id db = Ok db' -> ledger_step db db'
| step_mark_rollback_started now id pre_id db' :
    mark_rollback_started now id pre_id db = Ok db' -> ledger_step db db'
| step_mark_rollback_observed now id post_id db' :
    mark_rollback_observed now id post_id db = Ok db' -> ledger_step db db'
| step_interrupt now : ledger_step db (interrupt_nonterminal now db).1
| step_other db' :
    deployments db' = deployments db -> deployment_transitions db' = deployment_transitions db ->
    ledger_step db db'.

(** The invariant reads two tables only. *)
Lemma ledger_wf_ext db db' :
  deployments db' = deployments db -> deployment_transitions db' = deployment_transitions db ->
  ledger_wf db -> ledger_wf db'.
Proof.
  intros Hd Ht [Hk Hr Hc Hs Hf]. split; unfold transitions_of in *; rewrite ?Hd, ?Ht; done.
Qed.

Lemma close_deployment_tables render now id status code r db :
  deployments (close_deployment render now id status code r db) = deployments db
  /\ deployment_transitions (close_deployment render now id status code r db)
     = deployment_transitions db.
Proof.
  unfold close_deployment, suppress_target. by repeat case_match.
Qed.

Definition markers_of (row : DeploymentRow) :=
  (row_effect_phase row, row_pre_container_id row, row_post_container_id row,
   row_rollback_effect_phase row, row_rollback_pre_container_id row,
   row_rollback_post_container_id row).

(** A statement that leaves status, completion and markers alone. *)
Lemma quiet_update_row_update row row' :
  dp_id (row_record row') = dp_id (row_record row) ->
  dp_app_id (row_record row') = dp_app_id (row_record row) ->
  status_of row' = status_of row ->
  dp_completed_at (row_record row') = dp_completed_at (row_record row) ->
  markers_of row' = markers_of row -> row_update row row'.
Proof.
  unfold markers_of. intros Hi Ha Hs Hc [= E1 E2 E3 E4 E5 E6].
  split; [done|done|unfold nonterminal; by rewrite Hs|].
  intros [Hrc He Hr]. split; rewrite ?Hs, ?Hc, ?E1, ?E2, ?E3, ?E4, ?E5, ?E6; done.
Qed.

Lemma set_transition_row_update now phase status code row :
  nonterminal row = true -> row_update row (set_transition now phase status code row).
Proof.
  intros Hn. split; [done|done|done|]. intros [Hc He Hr]. split; [|done|done].
  unfold nonterminal in Hn. apply negb_true_iff in Hn. rewrite Hn in Hc.
  cbn. destruct (is_terminal status) eqn:Hs; [done|]. done.
Qed.

(** Every statement the engine issues on one row, as an update of that row. *)
Lemma mark_effect_started_row_update now pre_id pre_started row :
  row_effect_phase row = None ->
  row_update row ((touch now row) <| row_effect_phase := Some EffectStarted |>
                    <| row_pre_container_id := pre_id |> <| row_pre_started_at := pre_started |>).
Proof.
  intros Hn. split; try done. intros [Hc He Hr]. split; [done| |done].
  rewrite Hn in He. cbn. by destruct He.
Qed.

Lemma mark_effect_observed_row_update now post_id row :
  row_update row ((touch now row) <| row_effect_phase := Some EffectObserved |>
                    <| row_post_container_id := Some post_id |>).
Proof. split; try done. intros [Hc He Hr]. split; [done|by eexists|done]. Qed.

Lemma mark_rollback_started_row_update now pre_id row :
  row_rollback_effect_phase row = None ->
  row_update row ((touch now row) <| row_rollback_effect_phase := Some EffectStarted |>
                    <| row_rollback_pre_container_id := Some pre_id |>).
Proof.
  intros Hn. split; try done. intros [Hc He Hr]. split; [done|done|].
  rewrite Hn in Hr. cbn. destruct Hr. split; [by eexists|done].
Qed.

Lemma mark_rollback_observed_row_update now post_id row :
  row_rollback_effect_phase row = Some EffectStarted ->
  row_update row ((touch now row) <| row_rollback_effect_phase := Some EffectObserved |>
                    <| row_rollback_post_container_id := post_id |>).
Proof.
  intros Hn. split; try done. intros [Hc He Hr]. split; [done|done|].
  rewrite Hn in Hr. cbn. by destruct Hr.
Qed.

Lemma interrupt_row_row_update now row : row_update row (interrupt_row now row).
Proof.
  unfold interrupt_row. destruct (nonterminal row) eqn:Hn; [|by split].
  split; try done. intros [Hc He Hr]. by split.
Qed.

Lemma fmap_wf (f : DeploymentRow -> DeploymentRow) db :
  (forall row, row_update row (f row)) -> ledger_wf db ->
  ledger_wf (db <| deployments := f <$> deployments db |>).
Proof.
  intros Hf Hwf. split; cbn -[transitions_of seqZ].
  - intros i r. rewrite lookup_fmap_Some. intros (r0 & <- & Hr).
    rewrite (ru_id _ _ (Hf r0)). by apply (lw_key db Hwf).
  - intros i r. rewrite lookup_fmap_Some. intros (r0 & <- & Hr).
    by apply (Hf r0), (lw_row db Hwf i).
  - intros i j r1 r2. rewrite !lookup_fmap_Some. intros (s1 & <- & H1) (s2 & <- & H2).
    rewrite (ru_app _ _ (Hf s1)), (ru_app _ _ (Hf s2)).
    intros Happ Hn1%(ru_open _ _ (Hf s1)) Hn2%(ru_open _ _ (Hf s2)).
    by eapply (lw_claim db Hwf i j).
  - apply Hwf.
  - intros i. rewrite (lw_ref db Hwf i), lookup_fmap. by destruct (deployments db !! i).
Qed.

(** [transition] succeeds exactly on an open deployment, and then the row, the
    log of transitions and nothing else of the ledger changes. *)
Lemma transition_open render now id phase status res code db row :
  ledger_wf db -> deployments db !! id = Some row -> nonterminal row = true ->
  exists db', transition render now id phase status res code db = Ok db' /\ ledger_wf db'
    /\ deployments db' = <[id := set_transition now phase status code row]> (deployments db)
    /\ transitions_of id db'
       = transitions_of id db ++ [MkTransitionRow id (next_seq id db) phase res code now].
Proof.
  intros Hwf Hrow Hn. unfold transition, update_deployment. rewrite Hrow, Hn.
  cbn [mbind result_bind]. set (db1 := db <| deployments := _ |>).
  assert (Hwf1 : ledger_wf db1)
    by (eapply update_wf; [done|done|by apply set_transition_row_update]).
  destruct (insert_transition_wf db1 id phase res code now Hwf1) as
    (db2 & Hins & Hwf2 & Hd & _ & _ & _ & Ht).
  { cbn. rewrite lookup_insert_eq. by eexists. }
  rewrite Hins. cbn [mbind result_bind].
  destruct (is_terminal status); [|by exists db2].
  rewrite Hd. cbn [deployments field_set eta_Database db1]. rewrite lookup_insert_eq.
  cbn [ok_or mbind result_bind]. eexists; split; [done|].
  destruct (close_deployment_tables render now id status code
              (row_record (set_transition now phase status code row)) db2) as [Hcd Hct].
  split; [by eapply ledger_wf_ext|]. split; [by rewrite Hcd, Hd|].
  unfold transitions_of in *. by rewrite Hct.
Qed.

Lemma transition_closed render now id phase status res code db :
  match deployments db !! id with Some row => nonterminal row = false | None => True end ->
  transition render now id phase status res code db = Err LeStateChanged.
Proof.
  unfold transition, update_deployment. destruct (deployments db !! id) as [row|]; [|done].
  by intros ->.
Qed.

Lemma transition_ok_open render now id phase status res code db db' :
  transition render now id phase status res code db = Ok db' ->
  exists row, deployments db !! id = Some row /\ nonterminal row = true.
Proof.
  intros H. destruct (deployments db !! id) as [row|] eqn:Hrow; [destruct (nonterminal row) eqn:Hn|].
  - eauto.
  - by rewrite transition_closed in H by (by rewrite Hrow).
  - by rewrite transition_closed in H by (by rewrite Hrow).
Qed.

(** How a row may change over time. *)
Definition effect_rank (p : option EffectPhase) : nat :=
  match p with None => 0 | Some EffectStarted => 1 | Some EffectObserved => 2 end.

(** Everything but the health summary and the modification time. *)
Definition settled (row : DeploymentRow) : DeploymentRow :=
  row <| row_record := (row_record row) <| dp_health_policy := None |>
           <| dp_health_result := None |> <| dp_updated_at := 0%Z |> |>.

Record row_advances (row row' : DeploymentRow) : Prop := {
  ra_id : dp_id (row_record row') = dp_id (row_record row);
  ra_app : dp_app_id (row_record row') = dp_app_id (row_record row);
  ra_closed : nonterminal row = false -> settled row' = settled row;
  ra_effect : effect_rank (row_effect_phase row) <= effect_rank (row_effect_phase row');
  ra_pre : row_effect_phase row <> None -> row_pre_container_id row' = row_pre_container_id row;
  ra_post : row_effect_phase row = Some EffectObserved ->
            row_post_container_id row' = row_post_container_id row;
  ra_rollback : effect_rank (row_rollback_effect_phase row)
                <= effect_rank (row_rollback_effect_phase row');
  ra_rollback_pre : row_rollback_effect_phase row <> None ->
                    row_rollback_pre_container_id row' = row_rollback_pre_container_id row;
  ra_rollback_post : row_rollback_effect_phase row = Some EffectObserved ->
                     row_rollback_post_container_id row' = row_rollback_post_container_id row;
}.

Lemma settled_closed row row' :
  settled row' = settled row -> nonterminal row' = nonterminal row.
Proof.
  intros H. change (nonterminal (settled row') = nonterminal (settled row)). by rewrite H.
Qed.

#[export] Instance row_advances_preorder : PreOrder row_advances.
Proof.
  split; [by intros row; split|].
  intros a b c [Hi Ha Hc He Hp Ho Hr Hrp Hro] [Hi' Ha' Hc' He' Hp' Ho' Hr' Hrp' Hro'].
  split; try (congruence || lia).
  - intros Hn. rewrite Hc', Hc; [done|done|]. by rewrite (settled_closed _ _ (Hc Hn)).
  - intros Hn. rewrite Hp'; [by apply Hp|]. intros Hb. rewrite Hb in He.
    destruct (row_effect_phase a) as [[]|]; simpl in He; try lia; done.
  - intros Hn. rewrite Ho'; [by apply Ho|]. rewrite Hn in He.
    destruct (row_effect_phase b) as [[]|]; simpl in He; try lia; done.
  - intros Hn. rewrite Hrp'; [by apply Hrp|]. intros Hb. rewrite Hb in Hr.
    destruct (row_rollback_effect_phase a) as [[]|]; simpl in Hr; try lia; done.
  - intros Hn. rewrite Hro'; [by apply Hro|]. rewrite Hn in Hr.
    destruct (row_rollback_effect_phase b) as [[]|]; simpl in Hr; try lia; done.
Qed.

(** A guarded statement on one row: it keeps the invariant, and every row of
    the table advances. *)
Lemma guarded_update_advances id cond set db db' :
  update_deployment id cond set db = Ok db' ->
  (forall row, cond row = true -> row_advances row (set row)) ->
  forall i row, deployments db !! i = Some row ->
  exists row', deployments db' !! i = Some row' /\ row_advances row row'.
Proof.
  intros (row0 & Hrow0 & Hc & ->)%update_deployment_ok Hset i row Hrow.
  cbn. rewrite lookup_insert. case_decide; [subst; simplify_eq; eauto|by exists row].
Qed.

Lemma guarded_update_wf id cond set db db' :
  update_deployment id cond set db = Ok db' ->
  (forall row, cond row = true -> row_update row (set row)) -> ledger_wf db -> ledger_wf db'.
Proof.
  intros (row0 & Hrow0 & Hc & ->)%update_deployment_ok Hset Hwf. by eapply update_wf; eauto.
Qed.

Lemma running_nonterminal row : running row = true -> nonterminal row = true.
Proof. unfold running, nonterminal. intros H. bools. by rewrite H. Qed.

(** Closes [row_advances row row'] for a row known to be open whose markers
    either stay or move forward. *)
Ltac row_advances_open :=
  bools; repeat match goal with
  | H : running _ = true |- _ => apply running_nonterminal in H
  | H : is_none _ = true |- _ => apply is_none_true in H
  end;
  split; cbn; try done; try congruence;
  repeat match goal with H : _ = Some EffectStarted |- _ => rewrite H; clear H
                       | H : row_effect_phase _ = None |- _ => rewrite H; clear H
                       | H : row_rollback_effect_phase _ = None |- _ => rewrite H; clear H end;
  cbn; try done; try lia.

Lemma alter_present {A} (f : A -> A) (i : Uuid) (m : gmap Uuid A) x :
  m !! i = Some x -> alter f i m = <[i := f x]> m.
Proof.
  intros H. apply map_eq. intros j. rewrite lookup_alter, lookup_insert.
  case_decide; [subst; by rewrite H|done].
Qed.

Lemma alter_absent {A} (f : A -> A) (i : Uuid) (m : gmap Uuid A) :
  m !! i = None -> alter f i m = m.
Proof. intros H. apply alter_id. by rewrite H. Qed.

Lemma ledger_step_wf db db' : ledger_step db db' -> ledger_wf db -> ledger_wf db'.
Proof.
  intros Hstep Hwf. destruct Hstep as [now row db' Hq H|render now id phase status res code db' H
    |? ? ? ? ? ? ? ? db' H|now id policy res db' H|now id ? ? db' H|now id ? db' H|now id ? db' H
    |now id ? db' H|now|db' Hd Ht].
  - destruct (open_deployment_ok _ _ _ _ H) as [Hnone Hfree].
    destruct (open_deployment_wf now row db Hwf Hq Hnone) as (db1 & H1 & Hwf1 & _);
      [by apply Hfree, queued_fresh_nonterminal|]. congruence.
  - destruct (transition_ok_open _ _ _ _ _ _ _ _ _ H) as (row & Hrow & Hn).
    destruct (transition_open render now id phase status res code db row Hwf Hrow Hn)
      as (db1 & H1 & Hwf1 & _). congruence.
  - eapply guarded_update_wf; [exact H| |done]. intros row _. by apply quiet_update_row_update.
  - injection H as <-. destruct (deployments db !! id) as [row|] eqn:Hrow.
    + rewrite (alter_present _ _ _ row) by done.
      eapply update_wf; [done|done|by apply quiet_update_row_update].
    + apply (ledger_wf_ext db); [|done|exact Hwf]. cbn. by apply alter_absent.
  - eapply guarded_update_wf; [exact H| |done]. intros row Hc. cbv beta in Hc |- *. bools.
    by apply mark_effect_started_row_update, is_none_true.
  - eapply guarded_update_wf; [exact H| |done]. intros row _. apply mark_effect_observed_row_update.
  - eapply guarded_update_wf; [exact H| |done]. intros row Hc. cbv beta in Hc |- *. bools.
    by apply mark_rollback_started_row_update, is_none_true.
  - eapply guarded_update_wf; [exact H| |done]. intros row Hc. cbv beta in Hc |- *. bools.
    by apply mark_rollback_observed_row_update.
  - apply fmap_wf; [apply interrupt_row_row_update|done].
  - by eapply ledger_wf_ext.
Qed.

Lemma ledger_step_advances db db' :
  ledger_step db db' ->
  forall id row, deployments db !! id = Some row ->
  exists row', deployments db' !! id = Some row' /\ row_advances row row'.
Proof.
  intros Hstep id row Hrow. destruct Hstep as [now row0 db' Hq H
    |render now id0 phase status res code db' H|? ? ? ? ? ? ? ? db' H|now id0 policy res db' H
    |now id0 ? ? db' H|now id0 ? db' H|now id0 ? db' H|now id0 ? db' H|now|db' Hd Ht].
  - destruct (open_deployment_ok _ _ _ _ H) as [Hnone _].
    unfold open_deployment in H. ok_inv. apply insert_deployment_ok in E as (_ & _ & ->).
    unfold insert_transition in H. case_match; [done|]. simplify_eq. cbn.
    exists row. by rewrite lookup_insert_ne by congruence.
  - unfold transition in H. apply bind_ok_inv in H as (db1 & Hu & H).
    eapply guarded_update_advances in Hu as (row' & Hrow' & Hadv); [|shelve|exact Hrow].
    exists row'. split; [|done]. apply bind_ok_inv in H as (db2 & E & H). unfold insert_transition in E. destruct (existsb _ _); [done|].
    simplify_eq. destruct (is_terminal status); ok_inv; [|exact Hrow'].
    by rewrite (proj1 (close_deployment_tables _ _ _ _ _ _ _)).
    Unshelve. intros r Hr. cbv beta in Hr |- *. by row_advances_open.
  - eapply guarded_update_advances; [exact H| |done]. intros r Hr. cbv beta in Hr |- *. by row_advances_open.
  - injection H as <-. cbn. rewrite lookup_alter. case_decide; [subst|by exists row].
    rewrite Hrow. cbn. eexists; split; [done|]. by split.
  - eapply guarded_update_advances; [exact H| |done]. intros r Hr. cbv beta in Hr |- *. by row_advances_open.
  - eapply guarded_update_advances; [exact H| |done]. intros r Hr. cbv beta in Hr |- *. by row_advances_open.
  - eapply guarded_update_advances; [exact H| |done]. intros r Hr. cbv beta in Hr |- *. by row_advances_open.
  - eapply guarded_update_advances; [exact H| |done]. intros r Hr. cbv beta in Hr |- *. by row_advances_open.
  - cbn. rewrite lookup_fmap, Hrow. eexists; split; [done|]. unfold interrupt_row.
    destruct (nonterminal row) eqn:Hn; [|done]. split; cbn; try done. congruence.
  - exists row. by rewrite Hd.
Qed.

Lemma create_open now id app_id trigger revision from target rollback_of request db :
  let row := queued_row now id app_id trigger revision from target rollback_of request in
  create now id app_id trigger revision from target rollback_of request db =
  (db' ← open_deployment now row db; Ok (db', row_record row)).
Proof.
  intros row. unfold create, open_deployment. fold row.
  destruct (insert_deployment row db) as [db1|e] eqn:Hi; [|done]. cbn [mbind result_bind].
  apply insert_deployment_ok in Hi as (_ & _ & ->).
  unfold insert_transition. cbn [tr_deployment_id dp_id row_record row queued_row].
  destruct (existsb _ _); [done|]. cbn. unfold get. cbn. by rewrite lookup_insert_eq.
Qed.

Lemma queued_row_fresh now id app_id trigger revision from target rollback_of request :
  queued_fresh (queued_row now id app_id trigger revision from target rollback_of request).
Proof. by split. Qed.

Lemma rtc_row_advances db db' id row :
  rtc ledger_step db db' -> deployments db !! id = Some row ->
  exists row', deployments db' !! id = Some row' /\ row_advances row row'.
Proof.
  intros H. revert row. induction H as [x|x y z Hxy _ IH]; intros row Hrow; [by exists row|].
  destruct (ledger_step_advances _ _ Hxy _ _ Hrow) as (row1 & H1 & Ha1).
  destruct (IH _ H1) as (row2 & H2 & Ha2). exists row2. split; [done|]. by trans row1.
Qed.

Lemma empty_ledger_wf : ledger_wf empty_database.
Proof. split; unfold empty_database; cbn; intros *; rewrite ?lookup_empty; done. Qed.

(** ** Theorems *)

(** C23: every database the ledger's transactions can produce, in any order and
    from any number of callers, is well formed: at most one open deployment
    per application, gapless transition numbers, a completion time exactly on
    terminal rows, and effect markers that agree with the recorded containers. *)
Theorem ledger_reachable_wf db : rtc ledger_step empty_database db -> ledger_wf db.
Proof.
  intros H. generalize empty_ledger_wf. induction H as [|x y z Hxy _ IH]; [done|]. intros Hx. eapply IH, ledger_step_wf; eauto.
Qed.

(** As transactions commit, no deployment disappears, a terminal deployment
    never changes again (its health summary and modification time apart), and
    the durable effect markers only move from absent to started to observed,
    never rewriting the container recorded before. *)
Theorem ledger_history_advances db db' id row :
  rtc ledger_step db db' -> deployments db !! id = Some row ->
  exists row', deployments db' !! id = Some row' /\ row_advances row row'.
Proof.
  apply rtc_row_advances.
Qed.

(** [create] with a fresh identifier is refused as busy exactly when the
    application already has an open deployment; otherwise it records a queued
    deployment with its first transition, and claims the application. *)
Theorem create_claims_app now id app_id trigger revision from target rollback_of request db :
  ledger_wf db -> deployments db !! id = None ->
  if app_claimed app_id db
  then create now id app_id trigger revision from target rollback_of request db = Err LeBusy
  else exists db' record,
    create now id app_id trigger revision from target rollback_of request db = Ok (db', record)
    /\ ledger_wf db' /\ get id db' = Some record /\ dp_status record = StQueued
    /\ app_claimed app_id db' = true
    /\ (forall i, i <> id -> deployments db' !! i = deployments db !! i).
Proof.
  intros Hwf Hnone. set (row := queued_row now id app_id trigger revision from target rollback_of request).
  destruct (app_claimed app_id db) eqn:Hc; rewrite create_open.
  - unfold open_deployment, insert_deployment. cbn [dp_id dp_app_id row_record queued_row].
    by rewrite Hnone, Hc.
  - destruct (open_deployment_wf now row db Hwf) as (db' & Ho & Hwf' & Hd);
      [apply queued_row_fresh|done|done|]. fold row. rewrite Ho. cbn [mbind result_bind].
    exists db', (row_record row). unfold get. rewrite Hd. cbn [dp_id row_record row queued_row].
    rewrite lookup_insert_eq. do 4 (split; [done|]). split.
    + apply app_claimed_true. exists id, row. by rewrite Hd, lookup_insert_eq.
    + intros i Hi. by rewrite lookup_insert_ne.
Qed.

(** [transition] is total on the ledger: on an open deployment it commits,
    appends the next numbered transition and closes the row exactly when the
    new status is terminal; on a terminal or unknown deployment it is refused
    as a state change. *)
Theorem transition_total render now id phase status res code db :
  ledger_wf db ->
  match deployments db !! id with
  | Some row =>
      if nonterminal row then
        exists db', transition render now id phase status res code db = Ok db' /\ ledger_wf db'
          /\ deployments db' = <[id := set_transition now phase status code row]> (deployments db)
          /\ transitions_of id db'
             = transitions_of id db ++ [MkTransitionRow id (next_seq id db) phase res code now]
          /\ app_claimed (dp_app_id (row_record row)) db' = negb (is_terminal status)
      else transition render now id phase status res code db = Err LeStateChanged
  | None => transition render now id phase status res code db = Err LeStateChanged
  end.
Proof.
  intros Hwf. destruct (deployments db !! id) as [row|] eqn:Hrow;
    [destruct (nonterminal row) eqn:Hn|]; [|by apply transition_closed; rewrite Hrow..].
  destruct (transition_open render now id phase status res code db row Hwf Hrow Hn)
    as (db' & Ht & Hwf' & Hd & Hl).
  exists db'. do 4 (split; [done|]). destruct (app_claimed _ db') eqn:Hc.
  - apply app_claimed_true in Hc as (i & r & Hr & Happ & Hnr). rewrite Hd in Hr.
    apply lookup_insert_Some in Hr as [[<- <-]|[Hne Hr]]; [exact (eq_sym Hnr)|].
    destruct Hne. by eapply (lw_claim db Hwf id i).
  - destruct (is_terminal status) eqn:Hs; [done|].
    assert (nonterminal (set_transition now phase status code row) = false) as Hf;
      [|change (negb (is_terminal status) = false) in Hf; by rewrite Hs in Hf].
    eapply app_claimed_false; [exact Hc| |done]. by rewrite Hd, lookup_insert_eq.
Qed.

Lemma count_rows_zero P db :
  (forall id row, deployments db !! id = Some row -> P row = false) -> count_rows P db = 0.
Proof.
  intros H. unfold count_rows. destruct (filter _ _) as [|[id row] l] eqn:Hf; [done|]. exfalso.
  assert (Hin : (id, row) ∈ filter (fun kv : Uuid * DeploymentRow => P kv.2 = true)
                  (map_to_list (deployments db))) by (rewrite Hf; by constructor).
  apply list_elem_of_filter in Hin as [HP Hin]. apply elem_of_map_to_list in Hin.
  specialize (H _ _ Hin). simpl in HP. congruence.
Qed.

(** Startup recovery closes every deployment a previous process left open:
    none is open afterwards, the returned count is the number it closed, no
    application stays claimed, and rows already terminal are untouched. *)
Theorem interrupt_closes_all now db :
  let '(db', changed) := interrupt_nonterminal now db in
  active_count db' = 0 /\ changed = active_count db
  /\ (forall app_id, app_claimed app_id db' = false)
  /\ (forall id row, deployments db !! id = Some row ->
        deployments db' !! id = Some (interrupt_row now row)
        /\ status_of (interrupt_row now row)
           = (if nonterminal row then StInterrupted else status_of row))
  /\ (ledger_wf db -> ledger_wf db').
Proof.
  cbn [interrupt_nonterminal].
  assert (Hclosed : forall row, nonterminal (interrupt_row now row) = false).
  { intros row. unfold interrupt_row. by destruct (nonterminal row) eqn:Hn. }
  split; [|split; [done|split; [|split]]].
  - apply count_rows_zero. cbn. intros id row. rewrite lookup_fmap_Some. by intros (? & <- & ?).
  - intros app_id. destruct (app_claimed _ _) eqn:Hc; [|done].
    apply app_claimed_true in Hc as (i & r & Hr & _ & Hn). cbn in Hr.
    apply lookup_fmap_Some in Hr as (r0 & <- & _). by rewrite Hclosed in Hn.
  - intros id row Hrow. cbn. rewrite lookup_fmap, Hrow. split; [done|]. unfold interrupt_row.
    by destruct (nonterminal row).
  - intros Hwf. apply fmap_wf; [apply interrupt_row_row_update|done].
Qed.

(** When a polled deployment ends in failure, rollback or needing
    attention, its target is suppressed in the poll state of the generation
    that scheduled it, naming the deployment; a poll state of another
    generation, and every other application's, is left alone. *)
Theorem poll_failure_suppresses_target render now id phase status res code db row target p :
  ledger_wf db -> deployments db !! id = Some row -> nonterminal row = true ->
  dp_trigger (row_record row) = Poll -> dp_scheduled_target_key (row_record row) = Some target ->
  suppresses status = true -> poll_states db !! dp_app_id (row_record row) = Some p ->
  exists db', transition render now id phase status res code db = Ok db'
    /\ (forall app, app <> dp_app_id (row_record row) -> poll_states db' !! app = poll_states db !! app)
    /\ exists p', poll_states db' !! dp_app_id (row_record row) = Some p'
       /\ if dp_poll_generation (row_record row) =? Some (pl_generation p)
          then pl_suppressed_target_key p' = Some target /\ pl_suppressed_deployment_id p' = Some id
               /\ pl_last_outcome p' = PoSuppressedFailedTarget
          else p' = p.
Proof.
  intros Hwf Hrow Hn Htr Htk Hs Hp. unfold transition, update_deployment. rewrite Hrow, Hn.
  cbn [mbind result_bind]. set (db1 := db <| deployments := _ |>).
  assert (Hwf1 : ledger_wf db1)
    by (eapply update_wf; [done|done|by apply set_transition_row_update]).
  destruct (insert_transition_wf db1 id phase res code now Hwf1) as
    (db2 & Hins & _ & Hd & Hps & _).
  { cbn. rewrite lookup_insert_eq. by eexists. }
  rewrite Hins. cbn [mbind result_bind]. replace (is_terminal status) with true by (by destruct status).
  rewrite Hd. cbn [deployments field_set eta_Database db1]. rewrite lookup_insert_eq.
  cbn [ok_or mbind result_bind]. eexists; split; [done|].
  unfold close_deployment. cbn [row_record set_transition dp_trigger dp_scheduled_target_key
    dp_app_id dp_poll_generation field_set eta_DeploymentRow eta_DeploymentRecord].
  rewrite Htr, Htk, Hs. unfold suppress_target. cbn [poll_states insert_audit_event field_set eta_Database].
  rewrite Hps. cbn [poll_states db1 field_set eta_Database]. rewrite Hp.
  case_bool_decide; cbn [poll_states field_set eta_Database insert_audit_event]; rewrite ?Hps.
  - split; [intros app Happ; by rewrite lookup_insert_ne|]. rewrite lookup_insert_eq. by eexists.
  - split; [done|]. by exists p.
Qed.

(** ** A concrete ledger *)

Definition demo_row : DeploymentRow := queued_row 5 1%N 7%N Manual 2%N None None None 3%N.
(** A polled deployment of application 7 for a scheduled target. *)
Definition demo_poll_row : DeploymentRow :=
  demo_row <| row_record := (row_record demo_row) <| dp_trigger := Poll |>
    <| dp_scheduled_target_key := Some "target" |> <| dp_poll_generation := Some "g1" |> |>.

Definition demo_open (row : DeploymentRow) : Database :=
  match open_deployment 5 row empty_database with Ok db => db | Err _ => empty_database end.

Definition demo_poll_state : PollState :=
  MkPollState 7%N "g1" true 0 None None None None None None None PoScheduled None None None None
    0 0 None None 0.

Definition demo_poll_db : Database :=
  (demo_open demo_poll_row) <| poll_states := {[ 7%N := demo_poll_state ]} |>.

Lemma demo_open_reachable row :
  queued_fresh row -> rtc ledger_step empty_database (demo_open row).
Proof.
  intros Hq. unfold demo_open. destruct (open_deployment 5 row empty_database) eqn:Ho; [|done].
  apply rtc_once. by eapply step_open.
Qed.

Lemma demo_open_wf row : queued_fresh row -> ledger_wf (demo_open row).
Proof.
  intros Hq. unfold demo_open. destruct (open_deployment 5 row empty_database) eqn:Ho.
  - eapply ledger_step_wf; [by eapply step_open|apply empty_ledger_wf].
  - apply empty_ledger_wf.
Qed.

Lemma ledger_reachable_wf_witness : ledger_wf (demo_open demo_row).
Proof. apply ledger_reachable_wf, demo_open_reachable. by split. Defined.

Lemma ledger_history_advances_witness :
  exists row', deployments (interrupt_nonterminal 9 (demo_open demo_row)).1 !! 1%N = Some row'
    /\ row_advances demo_row row'.
Proof.
  apply (ledger_history_advances (demo_open demo_row)); [|reflexivity].
  apply rtc_once, step_interrupt.
Defined.

Lemma create_claims_app_witness :
  create 6 2%N 7%N Manual 2%N None None None 3%N (demo_open demo_row) = Err LeBusy.
Proof.
  apply (create_claims_app 6 2%N 7%N Manual 2%N None None None 3%N (demo_open demo_row));
    [apply demo_open_wf; by split|reflexivity].
Defined.

Lemma transition_total_witness :
  exists db', transition (fun _ => "") 6 1%N PhResolving StRunning "started" None (demo_open demo_row)
    = Ok db' /\ app_claimed 7%N db' = true.
Proof.
  destruct (transition_total (fun _ => "") 6 1%N PhResolving StRunning "started" None
              (demo_open demo_row)) as (db' & H & _ & _ & _ & Hc);
    [apply demo_open_wf; by split|]. by exists db'.
Defined.

Lemma poll_failure_suppresses_target_witness :
  exists db', transition (fun _ => "") 6 1%N PhTerminal StFailed "failed" (Some "X") demo_poll_db = Ok db'
    /\ exists p', poll_states db' !! 7%N = Some p' /\ pl_suppressed_target_key p' = Some "target".
Proof.
  destruct (poll_failure_suppresses_target (fun _ => "") 6 1%N PhTerminal StFailed "failed" (Some "X")
              demo_poll_db demo_poll_row "target" demo_poll_state) as (db' & H & _ & p' & Hp' & Hc);
    try reflexivity.
  - apply (ledger_wf_ext (demo_open demo_poll_row)); [done|done|]. apply demo_open_wf. by split.
  - exists db'. split; [done|]. exists p'. split; [done|]. apply Hc.
Defined.
