(* ===== verification/Health.v ===== *)
(** * Health: readiness of a container under a health policy

    The pure part of [src/deploy/health.rs]: the observation budget
    ([health_deadline]), the readiness test ([policy_ready]) and the recheck of
    a verified container ([HealthResult::recheck]). The verification loop is in
    [Verifier]. *)

From S2P Require Import Prelude Text Reference Models.

Inductive HealthError :=
| HeMissing | HeUnhealthy | HeTimeout | HeExited | HeRestarted | HeCompletedNonzero | HeNotReady
| HeChanged | HeIdentityMismatch | HeObservation | HeInterrupted.

#[export] Instance HealthError_eq_dec : EqDecision HealthError.
Proof. solve_decision. Defined.

Definition health_public_code (e : HealthError) : string :=
  match e with
  | HeNotReady => "CONTAINER_NOT_READY"
  | HeMissing => "HEALTHCHECK_MISSING"
  | HeUnhealthy => "HEALTH_UNHEALTHY"
  | HeTimeout => "HEALTH_TIMEOUT"
  | HeExited => "CONTAINER_EXITED"
  | HeRestarted => "CONTAINER_RESTARTED"
  | HeCompletedNonzero => "COMPLETED_NONZERO"
  | HeChanged => "CONTAINER_CHANGED"
  | HeIdentityMismatch => "CANDIDATE_INVALID"
  | HeObservation => "DOCKER_OBSERVATION_FAILED"
  | HeInterrupted => "DEPLOYMENT_INTERRUPTED"
  end.

Record HealthResult := MkHealthResult {
  hr_outcome : string;
  hr_code : option string;
  hr_elapsed_seconds : Z;
  hr_restart_count : option Z;
  hr_exit_code : option Z;
  hr_verified_container : ContainerRecord;
}.

(** ** Durations, in nanoseconds *)

Definition second : Z := 1000000000.
Definition from_secs (seconds : Z) : Z := (seconds * second)%Z.
Definition as_secs (duration : Z) : Z := (duration / second)%Z.

Definition STARTUP_SECONDS : Z := 300.
Definition OBSERVATION_MARGIN_SECONDS : Z := 10.

(** The arithmetic is at [u64]; the operands are at most 16 bits wide, so it
    cannot overflow ([health_deadline_bounds]). *)
Definition health_deadline (policy : HealthPolicy) : Z :=
  from_secs
    match policy with
    | Running stable_window_seconds => STARTUP_SECONDS + stable_window_seconds + OBSERVATION_MARGIN_SECONDS
    | Healthy (Some http) =>
        Z.max STARTUP_SECONDS
          (hh_start_period_seconds http
           + hh_retries http * (hh_interval_seconds http + hh_timeout_seconds http)
           + OBSERVATION_MARGIN_SECONDS)
    | _ => STARTUP_SECONDS
    end.

Definition policy_ready (container : ContainerRecord) (policy : HealthPolicy) : result HealthError bool :=
  match policy with
  | Completed =>
      match cr_status container with
      | CsExited => if cr_exit_code container =? Some 0%Z then Ok true else Err HeCompletedNonzero
      | CsDead => Err HeExited
      | _ => Ok false
      end
  | _ =>
      match cr_status container with
      | CsExited | CsDead => Err HeExited
      | CsPaused | CsRemoving => Err HeNotReady
      | CsRunning =>
          match policy with
          | Healthy _ =>
              match cr_health container with
              | HsHealthy => Ok true
              | HsStarting => Ok false
              | HsUnhealthy => Err HeUnhealthy
              | HsNone | HsUnknown => Err HeMissing
              end
          | _ => Ok true
          end
      | _ => Ok false
      end
  end.

Definition recheck (self : HealthResult) (container : ContainerRecord) (policy : HealthPolicy)
    : result HealthError unit :=
  if cr_id container ≠? cr_id (hr_verified_container self) then Err HeChanged
  else if (cr_started_at container ≠? cr_started_at (hr_verified_container self))
          || (cr_restart_count container ≠? cr_restart_count (hr_verified_container self))
       then Err HeRestarted
       else
         match policy_ready container policy with
         | Ok true => Ok tt
         | Ok false => Err HeNotReady
         | Err e => Err e
         end.

(** ** Laws *)

(** What a policy asks of a container, in the words of the documentation. *)
Definition ready_state (container : ContainerRecord) (policy : HealthPolicy) : Prop :=
  match policy with
  | Completed => cr_status container = CsExited /\ cr_exit_code container = Some 0%Z
  | Healthy _ => cr_status container = CsRunning /\ cr_health container = HsHealthy
  | Running _ | Disabled _ => cr_status container = CsRunning
  end.

Lemma policy_ready_true container policy :
  policy_ready container policy = Ok true <-> ready_state container policy.
Proof.
  unfold policy_ready, ready_state.
  destruct policy, (cr_status container), (cr_health container); try case_bool_decide; naive_solver.
Qed.

Lemma recheck_ok self container policy :
  recheck self container policy = Ok tt <->
  cr_id container = cr_id (hr_verified_container self)
  /\ cr_started_at container = cr_started_at (hr_verified_container self)
  /\ cr_restart_count container = cr_restart_count (hr_verified_container self)
  /\ ready_state container policy.
Proof.
  rewrite <- policy_ready_true. unfold recheck. repeat case_bool_decide; simpl; try (split; [done|tauto]).
  destruct (policy_ready container policy) as [[]|]; simpl; split; try done; try tauto; naive_solver.
Qed.

(** The configured widths of a policy. *)
Definition policy_in_range (policy : HealthPolicy) : Prop :=
  match policy with
  | Running w => (0 <= w <= u16_max)%Z
  | Healthy (Some h) =>
      (0 <= hh_interval_seconds h <= u16_max)%Z /\ (0 <= hh_timeout_seconds h <= u16_max)%Z
      /\ (0 <= hh_retries h <= u8_max)%Z /\ (0 <= hh_start_period_seconds h <= u16_max)%Z
  | _ => True
  end.

(** The observation budget of every representable policy fits in 64 bits,
    is never below the startup allowance, and leaves room for the whole
    configured observation: the stable window, or every HTTP probe with its
    timeout after the start period. *)
Theorem health_deadline_bounds policy :
  policy_in_range policy ->
  (from_secs STARTUP_SECONDS <= health_deadline policy)%Z
  /\ (as_secs (health_deadline policy) <= u64_max)%Z
  /\ match policy with
     | Running w => (from_secs w < health_deadline policy)%Z
     | Healthy (Some h) =>
         (from_secs (hh_start_period_seconds h
            + hh_retries h * (hh_interval_seconds h + hh_timeout_seconds h)) < health_deadline policy)%Z
     | _ => True
     end.
Proof.
  unfold health_deadline, from_secs, as_secs, second, u64_max, u16_max, u8_max,
    STARTUP_SECONDS, OBSERVATION_MARGIN_SECONDS. intros H.
  rewrite Z.div_mul by lia.
  destruct policy as [[h|]|w| |]; simpl in *; unfold u16_max, u8_max in *; try (repeat split; lia).
  destruct H as (Hi & Ht & Hr & Hs).
  set (i := hh_interval_seconds h) in *. set (t := hh_timeout_seconds h) in *.
  set (r := hh_retries h) in *. set (s := hh_start_period_seconds h) in *.
  assert (0 <= r * (i + t) <= 255 * 131070)%Z by nia. repeat split; lia.
Qed.

Lemma health_deadline_bounds_witness :
  (from_secs 15 < health_deadline (Running 15))%Z.
Proof. apply (health_deadline_bounds (Running 15)). unfold policy_in_range, u16_max. lia. Defined.
