(* ===== verification/Events.v ===== *)
(** * Events: the calls the deployment engine makes

    One constructor per call of [src/deploy/worker.rs] and
    [src/deploy/health.rs] into another component, with the result that
    component may answer. The deployment ledger's calls are those of [Ledger];
    the store's links and releases are those of [ReleaseStore]. Docker, Compose,
    the Registry, the image puller, the clock and the resource validators are
    the environment: any answer is possible. *)

From S2P Require Import Prelude Text Reference Models Database Health Effects.

(** [tokio::select!] between shutdown and [tokio::time::timeout]. *)
Inductive Timed (A : Type) : Type :=
| TimedShutdown
| TimedElapsed
| TimedValue (a : A).
Arguments TimedShutdown {A}.
Arguments TimedElapsed {A}.
Arguments TimedValue {A} _.

Inductive ev : Type -> Type :=
(** deployment ledger *)
| LedgerGet (id : Uuid) : ev (result LedgerError (option DeploymentRecord))
| LedgerTransition (id : Uuid) (phase : DeploymentPhase) (status : DeploymentStatus)
    (res : string) (code : option string) : ev (result LedgerError unit)
| LedgerResolved (id candidate : Uuid) (predecessor : option Uuid)
    (source descriptor manifest platform : string) : ev (result LedgerError unit)
| LedgerSetHealth (id : Uuid) (policy : HealthPolicy) (health : HealthResult)
    : ev (result LedgerError unit)
| LedgerMarkEffectStarted (id : Uuid) (pre_container_id pre_started_at : option string)
    : ev (result LedgerError unit)
| LedgerMarkEffectObserved (id : Uuid) (post_container_id : string) : ev (result LedgerError unit)
| LedgerMarkRollbackStarted (id : Uuid) (pre_container_id : string) : ev (result LedgerError unit)
| LedgerMarkRollbackObserved (id : Uuid) (post_container_id : option string)
    : ev (result LedgerError unit)
(** application store *)
| ReadMetadata (app_id : Uuid) : ev (result StoreError AppMetadata)
| ReadReleaseLink (app_id : Uuid) (link : ReleaseLink) : ev (result StoreError (option Uuid))
| LoadV2Release (app_id release_id : Uuid) : ev (result StoreError ReleaseV2)
| SetPending (app_id release_id : Uuid) : ev (result StoreError unit)
| PublishV2Release (metadata : AppMetadata) (release_id : Uuid) (image : ResolvedImage)
    (trigger : ReleaseTrigger) (source_release_id : option Uuid) : ev (result StoreError ReleaseV2)
| IntegrityKey : ev (result StoreError string)
| LoadVerified (app_id revision_id : Uuid) (hmac_key : string) : ev (result StoreError ConfigMetadata)
| FinalizeActive (app_id : Uuid) (expected : option Uuid) (candidate : Uuid)
    (desired : DesiredState) (operation_id : Uuid) (now : Time) : ev (result StoreError unit)
| RemoveReleaseLinkIf (app_id : Uuid) (link : ReleaseLink) (release_id : Uuid)
    : ev (result StoreError unit)
| LoadCredential (id : Uuid) : ev (result StoreError LoadedCredential)
(** Docker observation *)
| Probe : ev (result DockerErrorKind ProbeSnapshot)
| ListComposeAppContainers (project_name : string) : ev (result DockerErrorKind (list ContainerRecord))
| InspectWithin (id : string) (remaining : Z) : ev (Timed (result DockerErrorKind ContainerRecord))
| CatalogGet (app_id : Uuid) : ev (option AppCatalogEntry)
| EnsurePlatformNetwork (slug : string) (allowed : list string) : ev (result string unit)
(** Compose, image pull, Registry *)
| ComposeRun (action : ComposeAction) (context : RunContext) : ev (result ComposeError unit)
| Pull (deployment_id : Uuid) (image : ResolvedImage) (credential : option LoadedCredential)
    (redaction : list string) : ev (result PullError unit)
| Resolve (image : ImageReference) (platform : Platform) (credential : option (string * string))
    : ev (result RegistryError ResolvedImage)
(** validation of a configuration against the host; errors are public codes *)
| ValidateBindPlan (app_id : Uuid) (metadata : ConfigMetadata) : ev (result string unit)
| ValidateResources (app_id : Uuid) (metadata : ConfigMetadata) (container : option string)
    (request_id : Uuid) : ev (result string unit)
| ValidateResourcesForDetach (app_id : Uuid) (metadata : ConfigMetadata) (container : option string)
    (request_id : Uuid) : ev (result string unit)
| ValidateRuntimePaths (metadata : ConfigMetadata) (docker_root : option string)
    : ev (result string (list BindIdentity))
| RevalidateBindIdentity (identity : BindIdentity) : ev (result unit unit)
(** the catalog refresh, identifiers, clocks and notifications *)
| Refresh : ev unit
| NewUuid : ev Uuid
| NowUtc : ev Time
| Instant : ev Time
| SleepOrShutdown (duration : Z) : ev bool
| NotifyReconcile : ev unit
| NotifyRetention : ev unit.

(** ** A refusing environment

    Every call fails. Concrete environments used to evaluate the engine answer
    the calls of interest and refuse the rest. *)
Definition refuse (X : Type) (e : ev X) : X :=
  match e in ev X return X with
  | LedgerGet _ => Err LeDb
  | LedgerTransition _ _ _ _ _ | LedgerResolved _ _ _ _ _ _ _ | LedgerSetHealth _ _ _
  | LedgerMarkEffectStarted _ _ _ | LedgerMarkEffectObserved _ _ | LedgerMarkRollbackStarted _ _
  | LedgerMarkRollbackObserved _ _ => Err LeDb
  | ReadMetadata _ => Err (SeIo OtherIo)
  | ReadReleaseLink _ _ => Err (SeIo OtherIo)
  | LoadV2Release _ _ => Err (SeIo OtherIo)
  | SetPending _ _ => Err (SeIo OtherIo)
  | PublishV2Release _ _ _ _ _ => Err (SeIo OtherIo)
  | IntegrityKey => Err SeContentInvalid
  | LoadVerified _ _ _ => Err (SeIo OtherIo)
  | FinalizeActive _ _ _ _ _ _ => Err (SeIo OtherIo)
  | RemoveReleaseLinkIf _ _ _ => Err (SeIo OtherIo)
  | LoadCredential _ => Err (SeIo OtherIo)
  | Probe => Err DkUnavailable
  | ListComposeAppContainers _ => Err DkUnavailable
  | InspectWithin _ _ => TimedElapsed
  | CatalogGet _ => None
  | EnsurePlatformNetwork _ _ => Err "PLATFORM_NETWORK_UNAVAILABLE"
  | ComposeRun _ _ => Err CeUnavailable
  | Pull _ _ _ _ => Err PeUnavailable
  | Resolve _ _ _ => Err RegUnavailable
  | ValidateBindPlan _ _ => Err ""
  | ValidateResources _ _ _ _ | ValidateResourcesForDetach _ _ _ _ => Err ""
  | ValidateRuntimePaths _ _ => Err ""
  | RevalidateBindIdentity _ => Err tt
  | Refresh | NotifyReconcile | NotifyRetention => tt
  | NewUuid => 0%N
  | NowUtc | Instant => 0%Z
  | SleepOrShutdown _ => true
  end.
