(* ===== verification/Verifier.v ===== *)
(** * Verifier: the health verification loop

    [HealthVerifier] of [src/deploy/health.rs]. Each round inspects the exact
    container within what is left of the deadline, refuses a restart, and
    succeeds once the policy has held for the stable window; between rounds it
    sleeps one second. The loop takes fuel; [verify_terminates] shows that the
    fuel [verify] passes is enough for every clock that respects sleeps. *)

From S2P Require Import Prelude Text Reference Models Database Health Ownership Effects Events.

Section verifier.
Context {UT : UuidText}.

(** [Instant::elapsed], which saturates at zero. *)
Definition elapsed (since now : Time) : Z := saturating_sub now since.

(** The identity test of [inspect_exact] on an inspected container. *)
Definition exact_identity (id : string) (release : Uuid) (configured_image_ref : string)
    (image_identity : ImageIdentity) (value : ContainerRecord) : result HealthError ContainerRecord :=
  if (cr_id value ≠? id)
     || (cr_labels value !! RELEASE_ID_LABEL ≠? Some (uuid_to_string release))
     || (cr_configured_image_ref value ≠? Some configured_image_ref)
  then Err HeChanged
  else if negb (matches_observation image_identity (cr_image_id value) (cr_manifest_descriptor value))
       then Err HeIdentityMismatch
       else Ok value.

(** [inspect_exact] under [tokio::time::timeout] and shutdown. *)
Definition inspect_before (id : string) (release : Uuid) (configured_image_ref : string)
    (image_identity : ImageIdentity) (started : Time) (deadline : Z) : eprog ev HealthError ContainerRecord :=
  now <- ask Instant ;;
  if (deadline <? elapsed started now)%Z then fail HeTimeout
  else
    answer <- ask (InspectWithin id (deadline - elapsed started now)) ;;
    match answer with
    | TimedShutdown => fail HeInterrupted
    | TimedElapsed => fail HeTimeout
    | TimedValue (Err _) => fail HeObservation
    | TimedValue (Ok value) => lift (exact_identity id release configured_image_ref image_identity value)
    end.

Definition stable_required (policy : HealthPolicy) : Z :=
  match policy with
  | Running stable_window_seconds => stable_window_seconds
  | Disabled _ => 5
  | _ => 0
  end.

(** The loop's local variables. *)
Record VerifyState := MkVerifyState {
  vs_baseline_started : option string;
  vs_awaiting_first_start : bool;
  vs_running_since : option Time;
}.

(** The adoption of the first start of a container observed as created. *)
Definition observe_start (vs : VerifyState) (container : ContainerRecord) : VerifyState :=
  if vs_awaiting_first_start vs && is_some (cr_started_at container)
     && match cr_status container with CsRunning | CsExited => true | _ => false end
     && (cr_restart_count container =? Some 0%Z)
  then MkVerifyState (cr_started_at container) false (vs_running_since vs)
  else vs.

Section loop.
Context (container_id : string) (release_id : Uuid) (configured_image_ref : string).
Context (image_identity : ImageIdentity) (policy : HealthPolicy) (deadline : Z) (started : Time).
Context (baseline_restarts : option Z).

(** The readiness part of a round: whether the policy has held long enough, and
    since when it has held. [running_since.get_or_insert_with(Instant::now)]
    and [since.elapsed()] read the clock. *)
Definition round_success (ready : bool) (running_since : option Time)
    : eprog ev HealthError (bool * option Time) :=
  if ready then
    since <- match running_since with Some t => eret t | None => ask Instant end ;;
    now <- ask Instant ;;
    eret ((stable_required policy <=? as_secs (elapsed since now))%Z, Some since)
  else eret (false, None).

Fixpoint verify_loop (fuel : nat) (vs : VerifyState) : eprog ev HealthError HealthResult :=
  match fuel with
  | O => OutOfFuel
  | S fuel =>
      container <- inspect_before container_id release_id configured_image_ref image_identity
                     started deadline ;;
      let vs := observe_start vs container in
      if (cr_started_at container ≠? vs_baseline_started vs)
         || (cr_restart_count container ≠? baseline_restarts)
      then fail HeRestarted
      else
        ready <- lift (policy_ready container policy) ;;
        outcome <- round_success ready (vs_running_since vs) ;;
        let (success, running_since) := outcome : bool * option Time in
        if success then
          now <- ask Instant ;;
          eret (MkHealthResult "passed" None (as_secs (elapsed started now))
                  (cr_restart_count container) (cr_exit_code container) container)
        else
          shutdown <- ask (SleepOrShutdown second) ;;
          if shutdown : bool then fail HeInterrupted
          else
            now <- ask Instant ;;
            if (deadline <=? elapsed started now)%Z then fail HeTimeout
            else verify_loop fuel (MkVerifyState (vs_baseline_started vs) (vs_awaiting_first_start vs)
                                     running_since)
  end.
End loop.

(** Rounds before the deadline: one per slept second, and one more. *)
Definition verify_fuel (deadline : Z) : nat := S (Z.to_nat (as_secs deadline)).

Definition verify (container_id : string) (release_id : Uuid) (configured_image_ref : string)
    (image_identity : ImageIdentity) (policy : HealthPolicy) (deadline : Z)
    : eprog ev HealthError HealthResult :=
  started <- ask Instant ;;
  first <- inspect_before container_id release_id configured_image_ref image_identity started deadline ;;
  verify_loop container_id release_id configured_image_ref image_identity policy deadline started
    (cr_restart_count first) (verify_fuel deadline)
    (MkVerifyState (cr_started_at first)
       ((cr_status first =? CsCreated) && is_none (cr_started_at first)
        && (cr_restart_count first =? Some 0%Z)) None).

(** ** What a successful verification has seen

    Histories are newest first. *)

Definition inspected_of (o : obs ev) : option ContainerRecord :=
  match o with
  | Obs e x =>
      match e in ev X return X -> option ContainerRecord with
      | InspectWithin _ _ => fun answer =>
          match answer with TimedValue (Ok c) => Some c | _ => None end
      | _ => fun _ => None
      end x
  end.

Definition inspected (h : list (obs ev)) : list ContainerRecord := omap inspected_of h.

Abbreviation log := (fun (h : list (obs ev)) o => o :: h).
Abbreviation hsafe := (safe log (fun _ _ _ => True) (fun _ _ _ _ => True) True).

Section verified.
Context (container_id : string) (release_id : Uuid) (configured_image_ref : string).
Context (image_identity : ImageIdentity) (policy : HealthPolicy).

(** The container is the one asked for and satisfies the policy. *)
Definition good_container (c : ContainerRecord) : Prop :=
  cr_id c = container_id
  /\ cr_labels c !! RELEASE_ID_LABEL = Some (uuid_to_string release_id)
  /\ cr_configured_image_ref c = Some configured_image_ref
  /\ matches_observation image_identity (cr_image_id c) (cr_manifest_descriptor c) = true
  /\ ready_state c policy.

(** An observation of the run that began at [run_started] after [restarts]
    restarts, or of that container before Docker reported its first start. *)
Definition same_run (restarts : option Z) (run_started : option string) (c : ContainerRecord) : Prop :=
  cr_restart_count c = restarts
  /\ (cr_started_at c = run_started \/ cr_started_at c = None).

(** From the inspection before the instant [t] on, every inspection of [h]
    found the same run of the container, good. *)
Definition good_since (h : list (obs ev)) (t : Time) (restarts : option Z)
    (run_started : option string) : Prop :=
  exists h1 h2 c0, h = h1 ++ Obs Instant t :: h2 /\ head (inspected h2) = Some c0
    /\ Forall (fun c => good_container c /\ same_run restarts run_started c) (c0 :: inspected h1).

(** A verified history: the last inspection is [c], in a steady good run that
    began at least [window] seconds before a later reading of the clock. *)
Definition verified_history (h : list (obs ev)) (c : ContainerRecord) (window : Z) : Prop :=
  head (inspected h) = Some c /\ good_container c
  /\ exists h1 h2 t now, h = h1 ++ Obs Instant now :: h2 /\ inspected h1 = []
       /\ good_since h2 t (cr_restart_count c) (cr_started_at c)
       /\ (from_secs window <= elapsed t now)%Z.

Lemma exact_identity_ok c value :
  exact_identity container_id release_id configured_image_ref image_identity value = Ok c ->
  ready_state c policy -> c = value /\ good_container c.
Proof.
  unfold exact_identity, good_container. intros H Hr. repeat case_bool_decide; simpl in H; try done.
  destruct (matches_observation _ _ _) eqn:Hm; simpl in H; [|done]. by simplify_eq.
Qed.

Lemma inspect_before_spec started deadline h :
  hsafe (inspect_before container_id release_id configured_image_ref image_identity started deadline) h
    (fun h' r => match r with
       | Ok c => (ready_state c policy -> good_container c)
                 /\ exists n r, h' = Obs (InspectWithin container_id n) (TimedValue (Ok c))
                                     :: Obs Instant r :: h
       | Err _ => True end).
Proof.
  unfold inspect_before. split; [done|]. intros now _. cbn [prog_bind].
  destruct (deadline <? elapsed started now)%Z; [done|]. split; [done|].
  intros [| |[value|]] _; cbn; try done.
  destruct (exact_identity _ _ _ _ value) as [c|] eqn:Hi; [|done].
  assert (c = value) as -> by (unfold exact_identity in Hi; repeat case_match; congruence).
  split; [|eauto]. intros Hr. by apply exact_identity_ok in Hi as [_ ?].
Qed.

(** The loop invariant. *)
Definition loop_inv (restarts : option Z) (vs : VerifyState) (h : list (obs ev)) : Prop :=
  (vs_awaiting_first_start vs = true -> vs_baseline_started vs = None)
  /\ forall t, vs_running_since vs = Some t -> good_since h t restarts (vs_baseline_started vs).

Lemma good_since_cons h t r s o :
  inspected_of o = None -> good_since h t r s -> good_since (o :: h) t r s.
Proof.
  intros Ho (h1 & h2 & c0 & -> & Hh & Hf). exists (o :: h1), h2, c0. split; [done|]. split; [done|].
  unfold inspected. cbn. by rewrite Ho.
Qed.

Lemma good_since_inspect h t r s c n :
  good_container c -> same_run r s c -> good_since h t r s ->
  good_since (Obs (InspectWithin container_id n) (TimedValue (Ok c)) :: h) t r s.
Proof.
  intros Hg Hs (h1 & h2 & c0 & -> & Hh & Hf). eexists (_ :: h1), h2, c0. split; [done|].
  split; [done|]. inversion Hf as [|? ? Hc0 Hrest]; subst. unfold inspected. cbn. auto.
Qed.

Lemma good_since_start h t r s c n :
  good_container c -> same_run r s c ->
  good_since (Obs Instant t :: Obs (InspectWithin container_id n) (TimedValue (Ok c)) :: h) t r s.
Proof.
  intros Hg Hs. exists [], (Obs (InspectWithin container_id n) (TimedValue (Ok c)) :: h), c.
  split; [done|]. split; [done|]. by constructor; [|constructor].
Qed.

Lemma good_since_adopt h t r s : good_since h t r None -> good_since h t r s.
Proof.
  intros (h1 & h2 & c0 & Hh & Hi & Hf). exists h1, h2, c0. split; [done|]. split; [done|].
  eapply Forall_impl; [|exact Hf]. intros c [Hg [Hr Hs]]. split; [done|]. split; [done|]. right. by destruct Hs.
Qed.

Lemma observe_start_inv restarts vs h c :
  loop_inv restarts vs h -> loop_inv restarts (observe_start vs c) h.
Proof.
  intros [Ha Hg]. unfold observe_start. destruct (_ && _) eqn:Hc; [|done]. bools.
  split; [done|]. cbn. intros t Ht. apply good_since_adopt. specialize (Hg t Ht). by rewrite Ha in Hg.
Qed.

Lemma round_success_spec ready running_since h c n r s :
  (forall t, running_since = Some t -> good_since h t r s) ->
  (ready = true -> good_container c) -> same_run r s c ->
  let h0 := Obs (InspectWithin container_id n) (TimedValue (Ok c)) :: h in
  hsafe (round_success policy ready running_since) h0 (fun h' res => match res with
    | Ok (success, since) =>
        (exists h1, h' = h1 ++ h0 /\ inspected h1 = [])
        /\ (forall t, since = Some t -> good_since h' t r s)
        /\ (success = true -> ready = true /\ exists t now h2, h' = Obs Instant now :: h2 /\ good_since h2 t r s
             /\ (from_secs (stable_required policy) <= elapsed t now)%Z)
    | Err _ => True end).
Proof.
  intros Hg Hready Hs h0. unfold round_success. destruct ready; [specialize (Hready eq_refl)|].
  2:{ split; [by exists []|]. by split. }
  assert (Hsecs : forall t now, (stable_required policy <=? as_secs (elapsed t now))%Z = true ->
            (from_secs (stable_required policy) <= elapsed t now)%Z).
  { intros t now. unfold from_secs, as_secs, second. rewrite Z.leb_le. intros H.
    assert (elapsed t now / 1000000000 * 1000000000 <= elapsed t now)%Z by (rewrite Z.mul_comm; by apply Z.mul_div_le).
    nia. }
  destruct running_since as [t|]; cbn.
  - assert (Hg0 : good_since h0 t r s) by (apply good_since_inspect; auto).
    split; [done|]. intros now _. split; [by exists [Obs Instant now]|]. split.
    + intros ? [= <-]. by apply good_since_cons.
    + intros Hw. split; [done|]. exists t, now, h0. auto.
  - split; [done|]. intros t _. split; [done|]. intros now _.
    assert (Hg0 : good_since (Obs Instant t :: h0) t r s) by (by apply good_since_start).
    split; [by exists [Obs Instant now; Obs Instant t]|]. split.
    + intros ? [= <-]. by apply good_since_cons.
    + intros Hw. split; [done|]. exists t, now, (Obs Instant t :: h0). auto.
Qed.

Lemma verify_loop_spec deadline started restarts fuel vs h :
  loop_inv restarts vs h ->
  hsafe (verify_loop container_id release_id configured_image_ref image_identity policy deadline
           started restarts fuel vs) h
    (fun h' r => match r with
       | Ok res => verified_history h' (hr_verified_container res) (stable_required policy)
                   /\ cr_restart_count (hr_verified_container res) = restarts
       | Err _ => True end).
Proof.
  revert vs h. induction fuel as [|fuel IH]; intros vs h Hinv; [done|]. cbn [verify_loop].
  eapply safe_ebind_use; [apply inspect_before_spec| |done].
  cbv beta iota. intros h1 c [Hgood (n & r & ->)]. set (vs1 := observe_start vs c).
  assert (Hinv1 : loop_inv restarts vs1 h) by (by apply observe_start_inv).
  destruct (cr_started_at c ≠? _) eqn:Hst; [done|]. destruct (cr_restart_count c ≠? _) eqn:Hre; [done|].
  bools. cbn [orb]. apply safe_ebind. unfold lift. destruct (policy_ready c policy) as [ready|] eqn:Hp; [|done].
  eapply safe_ebind_use; [apply (round_success_spec ready _ (Obs Instant r :: h) c n restarts
                                    (vs_baseline_started vs1))| |done].
  - intros t Ht. apply good_since_cons; [done|]. by apply Hinv1.
  - intros ->. by apply Hgood, policy_ready_true.
  - split; [done|by left].
  - cbv beta iota. intros h2 [success since] ((h1 & -> & Hh1) & Hsince & Hsucc). destruct success.
    + split; [done|]. intros now _. cbn. split; [|done].
      destruct (Hsucc eq_refl) as (-> & t & now' & h2 & Heq & Hg & Hw).
      assert (Hhead : forall o, inspected_of o = None -> head (inspected (o :: h1 ++
          Obs (InspectWithin container_id n) (TimedValue (Ok c)) :: Obs Instant r :: h)) = Some c).
      { intros o Ho. unfold inspected in *. cbn. rewrite Ho, list.omap_app, Hh1. done. }
      split; [by apply Hhead|]. split; [by apply Hgood, policy_ready_true|].
      exists [Obs Instant now], h2, t, now'. by rewrite Heq, Hst, Hre.
    + split; [done|]. intros [] _; [done|]. split; [done|]. intros now _.
      cbn [prog_bind]. destruct (deadline <=? elapsed started now)%Z; [done|]. apply IH.
      split; [apply Hinv1|]. cbn. intros t Ht. by repeat apply good_since_cons; [..|apply Hsince].
Qed.

Lemma verify_spec deadline h :
  hsafe (verify container_id release_id configured_image_ref image_identity policy deadline) h
    (fun h' r => match r with
       | Ok res => verified_history h' (hr_verified_container res) (stable_required policy)
       | Err _ => True end).
Proof.
  unfold verify. split; [done|]. intros started _. cbn [prog_bind]. eapply safe_ebind_use; [apply inspect_before_spec| |done].
  cbv beta iota. intros h2 c _. eapply safe_mono; [apply verify_loop_spec|].
  - split; cbn; [|done]. intros Ha. bools. by apply is_none_true.
  - intros h' [res|]; [|done]. by intros [? _].
Qed.
End verified.

(** The calls of the verifier. *)
Definition observes (X : Type) (e : ev X) : Prop :=
  match e with Instant | InspectWithin _ _ | SleepOrShutdown _ => True | _ => False end.

Lemma verify_observes container_id release_id image_ref identity policy deadline :
  calls_only observes (verify container_id release_id image_ref identity policy deadline).
Proof.
  assert (Hi : forall started, calls_only observes
            (inspect_before container_id release_id image_ref identity started deadline)).
  { intros started. split; [done|]. intros now. cbn. case_match; [done|]. split; [done|].
    intros answer. by repeat case_match. }
  assert (Hl : forall fuel started restarts vs, calls_only observes
            (verify_loop container_id release_id image_ref identity policy deadline started restarts fuel vs)).
  { induction fuel as [|fuel IH]; intros started restarts vs; [done|]. cbn [verify_loop].
    apply calls_only_bind; [apply Hi|]. intros [c|]; [|done]. case_match; [done|].
    apply calls_only_bind; [done|]. intros [ready|]; [|done]. apply calls_only_bind.
    { unfold round_success. destruct ready; [|done]. by destruct (vs_running_since _). }
    intros [[[] since]|]; [by split| |done]. split; [done|]. intros []; [done|]. split; [done|].
    intros now. cbn. case_match; [done|apply IH]. }
  split; [done|]. intros started. cbn [prog_bind]. apply calls_only_bind; [apply Hi|]. intros [c|]; [apply Hl|done].
Qed.

(** ** Termination *)

(** The clock a caller can rely on: it never runs backwards, and a sleep that
    was not cut short takes its whole duration. *)
Definition tick (clock : Time) (o : obs ev) : Time :=
  match o with
  | Obs e x =>
      match e in ev X return X -> Time with
      | Instant => fun now => now
      | SleepOrShutdown d => fun cut => if cut then clock else (clock + d)%Z
      | _ => fun _ => clock
      end x
  end.

Definition monotone (X : Type) (clock : Time) (e : ev X) : X -> Prop :=
  match e in ev X return X -> Prop with
  | Instant => fun now => (clock <= now)%Z
  | _ => fun _ => True
  end.

Definition monotone_clock (clock : Time) (tr : list (obs ev)) : Prop := relied tick monotone clock tr.

Abbreviation tsafe := (safe tick (fun _ _ _ => True) monotone False).

Lemma inspect_before_total container_id release_id image_ref identity started deadline clock :
  tsafe (inspect_before container_id release_id image_ref identity started deadline) clock
    (fun clock' _ => (clock <= clock')%Z).
Proof.
  split; [done|]. intros now Hnow. simpl in Hnow. cbn. case_match; [done|]. split; [done|].
  intros answer _. by repeat case_match.
Qed.

Lemma round_success_total policy ready since clock :
  tsafe (round_success policy ready since) clock (fun clock' _ => (clock <= clock')%Z).
Proof.
  unfold round_success. destruct ready; [|cbn; lia]. destruct since as [t|]; cbn.
  - by split.
  - split; [done|]. intros t Ht. split; [done|]. intros now Hnow. lia.
Qed.

Lemma verify_loop_total container_id release_id image_ref identity policy deadline started restarts
    fuel vs clock :
  (started <= clock)%Z -> (deadline < elapsed started clock + Z.of_nat fuel * second)%Z ->
  (0 < fuel)%nat ->
  tsafe (verify_loop container_id release_id image_ref identity policy deadline started restarts fuel vs)
    clock (fun _ _ => True).
Proof.
  revert vs clock. induction fuel as [|fuel IH]; intros vs clock Hs Hf Hpos; [lia|]. cbn [verify_loop].
  eapply safe_ebind_use; [apply inspect_before_total| |done]. intros clock1 c H1. cbv beta iota.
  case_match; [done|]. apply safe_ebind. unfold lift. destruct (policy_ready c policy) as [ready|]; [|done].
  cbv beta iota. eapply safe_ebind_use; [apply round_success_total| |done].
  cbv beta iota. intros clock2 [[] since] H2; [by split|].
  split; [done|]. intros [] _; [done|]. split; [done|]. intros now Hnow. simpl in Hnow. cbn [prog_bind].
  unfold elapsed, saturating_sub in *. destruct (deadline <=? Z.max 0 (now - started))%Z eqn:Hd; [done|].
  apply Z.leb_gt in Hd. unfold second in *. apply IH; cbn [tick]; lia.
Qed.

(** ** Theorems *)

(** C37: a container passes health verification only when it is the exact
    container asked for, of the exact release, image reference and image
    identity, satisfies the policy at the last inspection, and has done so in
    one uninterrupted run, without a restart, at every inspection for at least
    the stable window, measured between two readings of the clock. *)
Theorem verify_sound container_id release_id image_ref identity policy deadline tr res :
  trace (verify container_id release_id image_ref identity policy deadline) tr (Some (Ok res)) ->
  verified_history container_id release_id image_ref identity policy (reverse tr)
    (hr_verified_container res) (stable_required policy).
Proof.
  intros Ht. assert (Hf : forall tr (h : list (obs ev)), foldl log h tr = reverse tr ++ h).
  { clear. induction tr as [|o tr IH]; intros h; [done|]. simpl. by rewrite IH, reverse_cons, <- app_assoc. }
  rewrite <- (app_nil_r (reverse tr)), <- Hf.
  assert (Hr : forall h, relied log (fun _ _ _ _ => True) h tr).
  { clear. induction tr as [|o tr IH]; intros h; [done|]. by split; [destruct o|]. }
  by destruct (safe_sound _ _ _ _ _ _ _ _ _ (verify_spec _ _ _ _ _ deadline []) Ht (Hr [])) as [_ Hq];
    apply (Hq _ eq_refl).
Qed.

(** C38: health verification always ends: with a clock that never runs backwards
    and sleeps that take their second, the rounds the verifier is given are
    never used up, whatever Docker answers. *)
Theorem verify_terminates container_id release_id image_ref identity policy deadline clock tr :
  monotone_clock clock tr ->
  ~ exhausts (verify container_id release_id image_ref identity policy deadline) tr.
Proof.
  intros Hr He. eapply (safe_fuel tick (fun _ _ _ => True) monotone False _ clock (fun _ _ => True));
    [|exact He|exact Hr].
  split; [done|]. intros started Hs. cbn [prog_bind].
  eapply safe_ebind_use; [apply inspect_before_total| |done]. cbv beta iota. intros clock1 c H1.
  apply verify_loop_total; unfold verify_fuel; cbn [tick] in H1; [done| |lia].
  unfold elapsed, saturating_sub, as_secs, second.
  pose proof (Z.div_mod deadline 1000000000 ltac:(lia)).
  pose proof (Z.mod_pos_bound deadline 1000000000 ltac:(lia)). lia.
Qed.
End verifier.

(** ** A concrete verification *)

Definition demo_digest : string := "sha256:" +:+ "aaaaaaaaaaaaaaaaaaaaaaaaaaaaaaaa" +:+ "aaaaaaaaaaaaaaaaaaaaaaaaaaaaaaaa".
Definition demo_platform : Platform := MkPlatform "linux" "amd64" None.
Definition demo_identity : ImageIdentity := MkImageIdentity demo_digest demo_digest demo_platform.

(** A container of release 9, running since one start. *)
Definition demo_container (labels : gmap string string) : ContainerRecord :=
  MkContainerRecord "c1" "app" labels CsRunning HsNone None (Some 0%Z) (Some "t0") None
    (Some "img") (Some demo_digest) None [] [] [].

Definition demo_labels : gmap string string :=
  {[ RELEASE_ID_LABEL := @uuid_to_string binary_uuid_text 9%N ]}.

(** Docker keeps answering that container; every sleep takes five seconds. *)
Definition demo_docker (X : Type) (e : ev X) (clock : Time) : X * Time :=
  match e in ev X return X * Time with
  | Instant => (clock, clock)
  | SleepOrShutdown _ => (false, (clock + from_secs 5)%Z)
  | InspectWithin _ _ => (TimedValue (Ok (demo_container demo_labels)), clock)
  | e => (refuse _ e, clock)
  end.

(** Verification under the policy that asks for five seconds. *)
Definition demo_verify : eprog ev HealthError HealthResult :=
  @verify binary_uuid_text "c1" 9%N "img" demo_identity (Disabled true)
    (health_deadline (Disabled true)).

Lemma verify_sound_witness :
  verified_history (UT := binary_uuid_text) "c1" 9%N "img" demo_identity (Disabled true)
    (reverse (run_log demo_docker demo_verify 0%Z)) (demo_container demo_labels) 5.
Proof.
  apply (verify_sound (UT := binary_uuid_text) "c1" 9%N "img" demo_identity (Disabled true)
           (health_deadline (Disabled true)) (run_log demo_docker demo_verify 0%Z)
           (MkHealthResult "passed" None 5 (Some 0%Z) None (demo_container demo_labels))).
  replace (Some _) with (run demo_docker demo_verify 0%Z).1 by (vm_compute; reflexivity).
  apply run_trace.
Defined.

Lemma verify_terminates_witness :
  ~ exhausts demo_verify (run_log demo_docker demo_verify 0%Z).
Proof.
  apply (verify_terminates (UT := binary_uuid_text) "c1" 9%N "img" demo_identity (Disabled true)
           (health_deadline (Disabled true)) 0%Z).
  vm_compute. repeat split; discriminate.
Defined.
