(* ===== verification/Engine.v ===== *)
(** * Engine: the deployment engine

    [src/deploy/worker.rs], call for call. The long function [run] is split at
    the points where its control flow is straight, into stages composed by
    [run] in the order of the source. The end-to-end test gates
    ([test_effect_boundary], [test_candidate_boundary]) compile to [Ok(())]
    without the [docker-e2e] feature and are left out. *)

From S2P Require Import Prelude Text Reference Models Database Health Ownership Effects Events Verifier.

Inductive EngineError :=
| Stable (code : string)
| NeedsAttention (code : string)
| Interrupted
| Internal
| AlreadyTerminal.

#[export] Instance EngineError_eq_dec : EqDecision EngineError.
Proof. solve_decision. Defined.

Inductive FailedApplyObservation :=
| NoEffect
| Candidate (container : ContainerRecord).

Record CompensationRequest := MkCompensationRequest {
  cq_active : option Uuid;
  cq_candidate : Uuid;
  cq_container : ContainerRecord;
  cq_code : string;
}.

Definition engine (A : Type) : Type := eprog ev EngineError A.

(** ** Calls with the error the engine makes of their failure *)

Definition internal {F X} (e : ev (result F X)) : engine X := try_call e (fun _ => Internal).
Definition interrupted {F X} (e : ev (result F X)) : engine X := try_call e (fun _ => Interrupted).
Definition stable {F X} (code : string) (e : ev (result F X)) : engine X :=
  try_call e (fun _ => Stable code).
Definition attention {F X} (code : string) (e : ev (result F X)) : engine X :=
  try_call e (fun _ => NeedsAttention code).

Definition guard (c : bool) (e : EngineError) : engine unit := if c then fail e else eret tt.
Definition some_or {X} (o : option X) (e : EngineError) : engine X := lift (ok_or o e).

(** ** Pure helpers *)

Definition resolved_from_release (value : ReleaseV2) : ResolvedImage :=
  MkResolvedImage (rl_source_image_ref value) (rl_logical_registry value) (rl_repository value)
    (rl_source_tag value) (rl_source_descriptor_digest value) (rl_index_digest value)
    (rl_manifest_digest value) (rl_runnable_image_ref value)
    (MkPlatform (rl_platform_os value) (rl_platform_architecture value) (rl_platform_variant value))
    (rl_local_image_id value).

Definition candidate_matches_release (container : ContainerRecord) (release : ReleaseV2) : bool :=
  match release_image_identity release with
  | Err _ => false
  | Ok identity =>
      (cr_configured_image_ref container =? Some (rl_runnable_image_ref release))
      && matches_observation identity (cr_image_id container) (cr_manifest_descriptor container)
      && match cr_status container with
         | CsRunning | CsCreated | CsRestarting | CsExited => true
         | _ => false
         end
  end.

Definition desired_after (health : HealthPolicy) : DesiredState :=
  match health with Completed => Stopped | _ => DesiredRunning end.

Definition platform_text (os architecture : string) : string := os +:+ "/" +:+ architecture.

Definition unwrap_or_false (r : result HealthError bool) : bool :=
  match r with Ok b => b | Err _ => false end.

Section engine.
Context {UT : UuidText} (apps_directory : string).

Definition app_directory (app_id : Uuid) : string := apps_directory +:+ "/" +:+ uuid_to_string app_id.

Definition release_compose_path (app_id release_id : Uuid) : string :=
  app_directory app_id +:+ "/releases/" +:+ uuid_to_string release_id +:+ "/compose.yaml".

(** ** Observation *)

Definition minimal_app (id : Uuid) (active : option Uuid) : engine AppCatalogEntry :=
  metadata <- interrupted (ReadMetadata id) ;;
  eret {| ce_id := id; ce_slug := am_slug metadata; ce_display_name := am_display_name metadata;
          ce_resource_name_schema_version := am_resource_name_schema_version metadata;
          ce_project_name := project_name_of metadata; ce_active_release_id := active;
          ce_active_image_ref := None; ce_active_config_revision := None;
          ce_active_config_sha256 := None; ce_active_network_plan := None;
          ce_pending_release_id := None; ce_pending_image_ref := None;
          ce_pending_config_revision := None; ce_pending_network_plan := None;
          ce_discovery_image_ref := None; ce_draft_revision := None;
          ce_draft_config_sha256 := None; ce_desired_state := Stopped;
          ce_auto_deploy_enabled := false; ce_poll_interval_seconds := 300; ce_draft := None |}.

Definition release_run_context (app_id release : Uuid) : engine RunContext :=
  metadata <- interrupted (ReadMetadata app_id) ;;
  loaded <- interrupted (LoadV2Release app_id release) ;;
  eret (MkRunContext (project_name_of metadata) (app_directory app_id)
          (release_compose_path app_id release)
          ((rl_stop_grace_period_seconds loaded + 60) * second) (rl_stop_grace_period_seconds loaded) []).

Definition context := release_run_context.

Definition preflight (app_id : Uuid) (expected_release : option Uuid)
    (expected_container_id : option string) : engine (option ContainerRecord) :=
  app <- minimal_app app_id expected_release ;;
  candidates <- stable "DOCKER_UNAVAILABLE" (ListComposeAppContainers (ce_project_name app)) ;;
  match candidates with
  | [] => if is_none expected_release && is_none expected_container_id then eret None
          else fail (NeedsAttention "CONTAINER_CHANGED")
  | [candidate] =>
      identity <- some_or (validate_syntactic_identity (cr_labels candidate) app)
                    (NeedsAttention "APP_CONTAINER_INVALID") ;;
      guard ((Some (oi_release_id identity) ≠? expected_release)
             || (expected_container_id ≠? Some (cr_id candidate)))
        (NeedsAttention "APP_CONTAINER_INVALID") ;;;
      eret (Some candidate)
  | _ => fail (NeedsAttention "APP_CONTAINER_AMBIGUOUS")
  end.

Definition schedule_predecessor (record : DeploymentRecord) : engine (option ContainerRecord) :=
  preflight (dp_app_id record) (dp_expected_actual_release_id record)
    (dp_expected_actual_container_id record).

Definition observe_owned_candidate (app_id release : Uuid) (old_id : option string)
    : engine ContainerRecord :=
  app <- minimal_app app_id (Some release) ;;
  candidates <- interrupted (ListComposeAppContainers (ce_project_name app)) ;;
  match candidates with
  | [candidate] =>
      identity <- some_or (validate_syntactic_identity (cr_labels candidate) app)
                    (NeedsAttention "APP_CONTAINER_INVALID") ;;
      guard (oi_release_id identity ≠? release) (NeedsAttention "APP_CONTAINER_INVALID") ;;;
      guard (old_id =? Some (cr_id candidate)) (NeedsAttention "CONTAINER_CHANGED") ;;;
      eret candidate
  | _ => fail (NeedsAttention "APP_CONTAINER_AMBIGUOUS")
  end.

(** [unwrap_or_default] of an absent container identifier is the empty string. *)
Definition observe_failed_apply (record : DeploymentRecord) (candidate_id : Uuid)
    : engine FailedApplyObservation :=
  app <- minimal_app (dp_app_id record) (Some candidate_id) ;;
  candidates <- interrupted (ListComposeAppContainers (ce_project_name app)) ;;
  match candidates with
  | [container] =>
      unchanged <-
        (if cr_id container =? default "" (dp_expected_actual_container_id record) then
           predecessor <- minimal_app (dp_app_id record) (dp_expected_actual_release_id record) ;;
           identity <- some_or (validate_syntactic_identity (cr_labels container) predecessor)
                         Interrupted ;;
           eret (Some (oi_release_id identity) =? dp_expected_actual_release_id record)
         else eret false) ;;
      if unchanged : bool then eret NoEffect
      else
        identity <- some_or (validate_syntactic_identity (cr_labels container) app) Interrupted ;;
        if oi_release_id identity =? candidate_id then eret (Candidate container)
        else fail Interrupted
  | [] => if is_none (dp_expected_actual_container_id record)
             && is_none (dp_expected_actual_release_id record)
          then eret NoEffect else fail Interrupted
  | _ => fail Interrupted
  end.

Definition verify_release_links (app_id : Uuid) (active : option Uuid) (pending : Uuid) : engine unit :=
  current_active <- internal (ReadReleaseLink app_id LinkActive) ;;
  (if current_active ≠? active then fail (NeedsAttention "DEPLOYMENT_FACTS_CHANGED")
   else
     current_pending <- internal (ReadReleaseLink app_id LinkPending) ;;
     guard (current_pending ≠? Some pending) (NeedsAttention "DEPLOYMENT_FACTS_CHANGED")) ;;;
  attention "RELEASE_INVALID" (LoadV2Release app_id pending) ;;;
  eret tt.

Definition validate_runtime_paths_fresh (metadata : ConfigMetadata) : engine (list BindIdentity) :=
  probe <- interrupted Probe ;;
  try_call (ValidateRuntimePaths metadata (ps_docker_root_directory probe)) NeedsAttention.

(** [config_revision::load_verified] with the store's integrity key. *)
Definition load_config (error : EngineError) (app_id revision_id : Uuid) : engine ConfigMetadata :=
  key <- internal IntegrityKey ;;
  try_call (LoadVerified app_id revision_id key) (fun _ => error).

Definition revalidate_binds (error : EngineError) (binds : list BindIdentity) : engine unit :=
  each (fun identity => try_call (RevalidateBindIdentity identity) (fun _ => error)) binds.

Definition load_credential_ref (credential_ref : option Uuid) (image : ImageReference)
    : engine (option LoadedCredential) :=
  value <- match credential_ref with
           | None => eret None
           | Some id =>
               credential <- stable "REGISTRY_CREDENTIAL_INVALID" (LoadCredential id) ;;
               eret (Some credential)
           end ;;
  guard (is_some_and value (fun v => crd_registry (lc_metadata v) ≠? logical_registry image))
    (Stable "REGISTRY_CREDENTIAL_MISMATCH") ;;;
  eret value.

Definition load_credential (app : AppMetadata) (image : ImageReference)
    : engine (option LoadedCredential) :=
  load_credential_ref (am_credential_ref app) image.

Definition redaction_of (credential : option LoadedCredential) : list string :=
  match credential with Some v => [lc_secret v] | None => [] end.

Definition cleanup_pending (app_id candidate : Uuid) : engine unit :=
  interrupted (RemoveReleaseLinkIf app_id LinkPending candidate).
(** ** Resolution of the candidate release *)

Definition Resolution : Type := ResolvedImage * Uuid * ReleaseV2.

Definition no_op_runtime_converged (record : DeploymentRecord) (active : Uuid) (release : ReleaseV2)
    : engine bool :=
  if dp_expected_actual_release_id record ≠? Some active then eret false
  else
    observed <- schedule_predecessor record ;;
    match observed with
    | None => eret false
    | Some container =>
        if negb (candidate_matches_release container release) then eret false
        else
          loaded <- load_config (Stable "RELEASE_INVALID") (dp_app_id record) (rl_config_revision release) ;;
          eret (unwrap_or_false (policy_ready container (cm_health loaded)))
    end.

(** Whether the active release already is what the draft asks for. *)
Definition same_configuration (old : ReleaseV2) (metadata : AppMetadata) : bool :=
  (Some (rl_config_revision old) =? am_draft_revision metadata)
  && (Some (rl_config_sha256 old) =? am_draft_config_sha256 metadata).

(** The [if let Some(active_id) = active && let Ok(old) = .. && ..] chain of
    [resolve_manual]: the active release when nothing is to be done. *)
Definition manual_no_op (record : DeploymentRecord) (metadata : AppMetadata) (active : option Uuid)
    (resolved : ResolvedImage) : engine (option (Uuid * ReleaseV2)) :=
  match active with
  | None => eret None
  | Some active_id =>
      loaded <- ask (LoadV2Release (dp_app_id record) active_id) ;;
      match loaded with
      | Err _ => eret None
      | Ok old =>
          if (rl_manifest_digest old =? ri_manifest_digest resolved)
             && same_configuration old metadata
             && is_none (dp_expected_pending_release_id record)
          then
            converged <- no_op_runtime_converged record active_id old ;;
            eret (if converged : bool then Some (active_id, old) else None)
          else eret None
      end
  end.

(** The tail shared by the resolutions that publish a new release. *)
Definition publish_candidate (record : DeploymentRecord) (metadata : AppMetadata)
    (active : option Uuid) (resolved : ResolvedImage) (res : string) (trigger : ReleaseTrigger)
    : engine Resolution :=
  candidate_id <- ask NewUuid ;;
  internal (LedgerResolved (dp_id record) candidate_id active (ri_source_image_ref resolved)
              (ri_source_descriptor_digest resolved) (ri_manifest_digest resolved)
              (platform_text (os (ri_platform resolved)) (architecture (ri_platform resolved)))) ;;;
  internal (LedgerTransition (dp_id record) PhPreparing StRunning res None) ;;;
  release <- stable "RELEASE_INVALID" (PublishV2Release metadata candidate_id resolved trigger None) ;;
  eret (resolved, candidate_id, release).

(** The tail shared by the resolutions that reuse a published release. *)
Definition reuse_release (record : DeploymentRecord) (release_id : Uuid) (predecessor : option Uuid)
    (release : ReleaseV2) (res : string) : engine Resolution :=
  internal (LedgerResolved (dp_id record) release_id predecessor (rl_source_image_ref release)
              (rl_source_descriptor_digest release) (rl_manifest_digest release)
              (platform_text (rl_platform_os release) (rl_platform_architecture release))) ;;;
  internal (LedgerTransition (dp_id record) PhPreparing StRunning res None) ;;;
  eret (resolved_from_release release, release_id, release).

Definition resolve_manual (record : DeploymentRecord) (metadata : AppMetadata) (active : option Uuid)
    : engine Resolution :=
  discovery <- some_or (am_discovery_image_ref metadata) (Stable "APP_UNCONFIGURED") ;;
  image <- lift (map_err (fun e => Stable (registry_public_code e)) (parse discovery)) ;;
  probe <- try_call Probe (fun e => Stable (docker_public_code e)) ;;
  probe_os <- some_or (ps_os probe) (Stable "DOCKER_API_INCOMPATIBLE") ;;
  probe_architecture <- some_or (ps_architecture probe) (Stable "DOCKER_API_INCOMPATIBLE") ;;
  platform <- lift (map_err (fun _ => Stable "DOCKER_API_INCOMPATIBLE")
                      (canonical probe_os probe_architecture None)) ;;
  credential <- load_credential metadata image ;;
  resolved <- try_call (Resolve image platform
                ((fun v => (crd_username (lc_metadata v), lc_secret v)) <$> credential))
                (fun e => Stable (registry_public_code e)) ;;
  no_op <- manual_no_op record metadata active resolved ;;
  match no_op with
  | Some (active_id, old) =>
      loaded <- load_config (Stable "RELEASE_INVALID") (dp_app_id record) (rl_config_revision old) ;;
      now <- ask NowUtc ;;
      attention "ACTIVE_FINALIZE_FAILED"
        (FinalizeActive (dp_app_id record) (Some active_id) active_id
           (desired_after (cm_health loaded)) (dp_id record) now) ;;;
      internal (LedgerTransition (dp_id record) PhTerminal StNoOp "no_op" None) ;;;
      fail AlreadyTerminal
  | None => publish_candidate record metadata active resolved "resolved" RtManual
  end.

Definition resolve_rollback (record : DeploymentRecord) (active : option Uuid) : engine Resolution :=
  target <- some_or (dp_rollback_target_release_id record) (Stable "ROLLBACK_TARGET_INVALID") ;;
  release <- stable "ROLLBACK_TARGET_INVALID" (LoadV2Release (dp_app_id record) target) ;;
  reuse_release record target active release "rollback_target_verified".

(** The scheduled target of a polled deployment, checked against the draft. *)
Definition scheduled_image (record : DeploymentRecord) (metadata : AppMetadata)
    : result EngineError ResolvedImage :=
  let invalid := Stable "POLL_TARGET_INVALID" in
  _ ← refuse_if (negb (am_auto_deploy_enabled metadata)) (Stable "AUTO_DEPLOY_DISABLED");
  source ← ok_or (dp_scheduled_source_image_ref record) invalid;
  _ ← refuse_if (Some source ≠? am_discovery_image_ref metadata) (Stable "DEPLOYMENT_FACTS_CHANGED");
  image ← map_err (fun _ => invalid) (parse source);
  manifest ← ok_or (dp_scheduled_manifest_digest record) invalid;
  scheduled_os ← ok_or (dp_scheduled_platform_os record) invalid;
  scheduled_architecture ← ok_or (dp_scheduled_platform_architecture record) invalid;
  platform ← map_err (fun _ => invalid)
    (canonical scheduled_os scheduled_architecture (dp_scheduled_platform_variant record));
  scheduled_repository ← ok_or (dp_scheduled_repository record) invalid;
  _ ← refuse_if (scheduled_repository ≠? repository image) invalid;
  descriptor ← ok_or (dp_scheduled_source_descriptor_digest record) invalid;
  runnable_ref ← map_err (fun _ => invalid) (runnable image manifest);
  local_image_id ← ok_or (dp_scheduled_local_image_id record) invalid;
  Ok (MkResolvedImage source (logical_registry image) scheduled_repository (tag image) descriptor
        (dp_scheduled_index_digest record) manifest runnable_ref platform local_image_id).

(** The active-release part of [resolve_poll]: [true] when already converged. *)
Definition poll_no_op (record : DeploymentRecord) (metadata : AppMetadata) (active : option Uuid)
    (resolved : ResolvedImage) : engine bool :=
  match active with
  | None => eret false
  | Some active_id =>
      loaded <- ask (LoadV2Release (dp_app_id record) active_id) ;;
      match loaded with
      | Err _ => eret false
      | Ok old =>
          if rl_manifest_digest old ≠? ri_manifest_digest resolved then eret false
          else if negb (same_configuration old metadata) then fail (Stable "CONFIG_PENDING_MANUAL")
          else if is_none (dp_expected_pending_release_id record)
               then no_op_runtime_converged record active_id old
               else eret false
      end
  end.

Definition resolve_poll (record : DeploymentRecord) (metadata : AppMetadata) (active : option Uuid)
    : engine Resolution :=
  resolved <- lift (scheduled_image record metadata) ;;
  no_op <- poll_no_op record metadata active resolved ;;
  if no_op : bool then
    internal (LedgerTransition (dp_id record) PhTerminal StNoOp "no_op" None) ;;;
    fail AlreadyTerminal
  else publish_candidate record metadata active resolved "poll_target_verified" RtPoll.

Definition resume_pending (record : DeploymentRecord) (pending : Uuid) : engine Resolution :=
  release <- attention "PENDING_RELEASE_INVALID" (LoadV2Release (dp_app_id record) pending) ;;
  guard (rl_config_revision release ≠? dp_requested_revision record)
    (Stable "DEPLOYMENT_FACTS_CHANGED") ;;;
  reuse_release record pending (dp_from_release_id record) release "pending_resumed".

Definition resume_poll_pending (record : DeploymentRecord) (pending : Uuid) : engine Resolution :=
  value <- resume_pending record pending ;;
  guard ((dp_scheduled_manifest_digest record ≠? Some (rl_manifest_digest value.2))
         || (dp_scheduled_source_image_ref record ≠? Some (rl_source_image_ref value.2))
         || is_none (dp_scheduled_target_key record)
         || is_none (dp_poll_generation record))
    (NeedsAttention "POLL_PENDING_TARGET_CHANGED") ;;;
  eret value.

(** [Err(AlreadyTerminal) => return Ok(())]: the run ends with nothing to apply. *)
Definition unless_terminal {A} (p : engine A) : engine (option A) :=
  prog_bind p (fun r => match r with
    | Ok a => eret (Some a)
    | Err AlreadyTerminal => eret None
    | Err e => fail e
    end).

Definition resolve_candidate (record : DeploymentRecord) (metadata : AppMetadata)
    (active : option Uuid) : engine (option Resolution) :=
  match dp_trigger record with
  | Manual => unless_terminal
      match dp_expected_pending_release_id record with
      | Some existing_pending => resume_pending record existing_pending
      | None => resolve_manual record metadata active
      end
  | Rollback => value <- resolve_rollback record active ;; eret (Some value)
  | Poll => unless_terminal
      match dp_expected_pending_release_id record with
      | Some existing_pending => resume_poll_pending record existing_pending
      | None => resolve_poll record metadata active
      end
  end.
(** ** Compensation *)

(** Loads a release again after the effect marker and requires it unchanged. *)
Definition reload_release (code : string) (app_id release_id : Uuid) (expected : ReleaseV2)
    : engine ReleaseV2 :=
  release <- attention code (LoadV2Release app_id release_id) ;;
  guard (release ≠? expected) (NeedsAttention "RELEASE_INVALID") ;;;
  eret release.

Definition remove_first_deploy_candidate (record : DeploymentRecord) (candidate : Uuid)
    (run_context : RunContext) : engine unit :=
  let failed := "CANDIDATE_CLEANUP_FAILED" in
  attention failed (ComposeRun CaStop run_context) ;;;
  attention failed (ComposeRun CaRemove run_context) ;;;
  remaining <- attention failed (ListComposeAppContainers (rc_project_name run_context)) ;;
  guard (negb (is_nil remaining)) (NeedsAttention failed) ;;;
  internal (LedgerMarkRollbackObserved (dp_id record) None) ;;;
  interrupted (RemoveReleaseLinkIf (dp_app_id record) LinkPending candidate).

(** [rollback_or_fail] without an active release: the candidate is removed. *)
Definition remove_candidate (record : DeploymentRecord) (request : CompensationRequest)
    (candidate_release : ReleaseV2) : engine unit :=
  let candidate := cq_candidate request in
  let container_id := cr_id (cq_container request) in
  internal (LedgerMarkRollbackStarted (dp_id record) container_id) ;;;
  verify_release_links (dp_app_id record) None candidate ;;;
  final_release <- reload_release "RELEASE_INVALID" (dp_app_id record) candidate candidate_release ;;
  loaded <- load_config (NeedsAttention "RELEASE_INVALID") (dp_app_id record)
              (rl_config_revision final_release) ;;
  binds <- validate_runtime_paths_fresh loaded ;;
  try_call (ValidateResourcesForDetach (dp_app_id record) loaded (Some container_id)
              (dp_request_id record)) NeedsAttention ;;;
  final_candidate <- observe_owned_candidate (dp_app_id record) candidate None ;;
  guard (cr_id final_candidate ≠? container_id) Interrupted ;;;
  revalidate_binds (NeedsAttention "BIND_CHANGED") binds ;;;
  run_context <- context (dp_app_id record) candidate ;;
  remove_first_deploy_candidate record candidate run_context ;;;
  fail (Stable (cq_code request)).

(** [loaded.metadata.service_discovery_enabled]: the shared network exists and
    the application's alias is free. *)
Definition ensure_platform_network (on_error : string -> EngineError) (record : DeploymentRecord)
    (loaded : ConfigMetadata) (allowed : list string) : engine unit :=
  if cm_service_discovery_enabled loaded then
    entry <- ask (CatalogGet (dp_app_id record)) ;;
    app <- some_or entry (NeedsAttention "APP_NOT_FOUND") ;;
    try_call (EnsurePlatformNetwork (ce_slug app) allowed) on_error
  else eret tt.

(** The checks between a stop and the next start: the bind sources are still
    the ones accepted before it, and no other application conflicts. *)
Definition stop_to_start_guard (on_change : EngineError) (on_conflict : string -> EngineError)
    (record : DeploymentRecord) (loaded : ConfigMetadata) (binds : list BindIdentity) : engine unit :=
  post_stop_binds <- validate_runtime_paths_fresh loaded ;;
  guard (post_stop_binds ≠? binds) on_change ;;;
  revalidate_binds on_change post_stop_binds ;;;
  try_call (ValidateBindPlan (dp_app_id record) loaded) on_conflict.

(** [rollback_or_fail] with an active release, up to the stop of the candidate. *)
Definition prepare_rollback (record : DeploymentRecord) (request : CompensationRequest)
    (candidate_release : ReleaseV2) (old_id : Uuid)
    : engine (ReleaseV2 * ConfigMetadata * list BindIdentity * ContainerRecord) :=
  let candidate := cq_candidate request in
  let container_id := cr_id (cq_container request) in
  old <- attention "ROLLBACK_TARGET_INVALID" (LoadV2Release (dp_app_id record) old_id) ;;
  old_image <- lift (map_err (fun _ => NeedsAttention "ROLLBACK_TARGET_INVALID")
                       (parse (rl_source_image_ref old))) ;;
  old_credential <- load_credential_ref (rl_credential_ref old) old_image ;;
  try_call (Pull (dp_id record) (resolved_from_release old) old_credential (redaction_of old_credential))
    (fun error => match error with
       | PeInterrupted => Interrupted
       | _ => NeedsAttention (pull_public_code error)
       end) ;;;
  internal (LedgerMarkRollbackStarted (dp_id record) container_id) ;;;
  verify_release_links (dp_app_id record) (Some old_id) candidate ;;;
  final_old <- attention "ROLLBACK_TARGET_INVALID" (LoadV2Release (dp_app_id record) old_id) ;;
  final_candidate_release <- attention "RELEASE_INVALID" (LoadV2Release (dp_app_id record) candidate) ;;
  guard ((final_old ≠? old) || (final_candidate_release ≠? candidate_release))
    (NeedsAttention "RELEASE_INVALID") ;;;
  loaded <- load_config (NeedsAttention "ROLLBACK_TARGET_INVALID") (dp_app_id record)
              (rl_config_revision final_old) ;;
  binds <- validate_runtime_paths_fresh loaded ;;
  fresh_candidate <- observe_owned_candidate (dp_app_id record) candidate None ;;
  guard (cr_id fresh_candidate ≠? container_id) Interrupted ;;;
  try_call (ValidateResources (dp_app_id record) loaded (Some (cr_id fresh_candidate))
              (dp_request_id record)) NeedsAttention ;;;
  revalidate_binds (NeedsAttention "BIND_CHANGED") binds ;;;
  try_call (ValidateBindPlan (dp_app_id record) loaded) NeedsAttention ;;;
  ensure_platform_network NeedsAttention record loaded [cr_id fresh_candidate] ;;;
  eret (old, loaded, binds, fresh_candidate).

(** The rest: stop the candidate, start the old release, verify it. *)
Definition apply_rollback (record : DeploymentRecord) (request : CompensationRequest) (old_id : Uuid)
    (old : ReleaseV2) (loaded : ConfigMetadata) (binds : list BindIdentity)
    (fresh_candidate : ContainerRecord) : engine ContainerRecord :=
  let candidate := cq_candidate request in
  stop_context <- context (dp_app_id record) candidate ;;
  attention "ROLLBACK_FAILED" (ComposeRun CaStop stop_context) ;;;
  stopped_candidate <- observe_owned_candidate (dp_app_id record) candidate None ;;
  guard ((cr_id stopped_candidate ≠? cr_id fresh_candidate)
         || (cr_status stopped_candidate ≠? CsExited)) (NeedsAttention "ROLLBACK_FAILED") ;;;
  stop_to_start_guard (NeedsAttention "BIND_CHANGED") NeedsAttention record loaded binds ;;;
  old_context <- context (dp_app_id record) old_id ;;
  try_call (ComposeRun CaDeployCandidate old_context)
    (fun error => match error with
       | CeValidationFailed | CeOutputInvalid | CeUnsafePath => NeedsAttention "ROLLBACK_FAILED"
       | _ => Interrupted
       end) ;;;
  container <- observe_owned_candidate (dp_app_id record) old_id (Some (cr_id fresh_candidate)) ;;
  guard (negb (candidate_matches_release container old)) (NeedsAttention "ROLLBACK_FAILED") ;;;
  internal (LedgerMarkRollbackObserved (dp_id record) (Some (cr_id container))) ;;;
  internal (LedgerTransition (dp_id record) PhVerifyingRollback StRunning "rollback_applied" None) ;;;
  eret container.

(** [.map_err(|_| NeedsAttention(code))] on a verification. *)
Definition or_attention {R A} (code : string) (p : eprog ev R A) : engine A :=
  prog_bind p (fun r => match r with Ok a => eret a | Err _ => fail (NeedsAttention code) end).

Definition finish_rollback (record : DeploymentRecord) (request : CompensationRequest) (old_id : Uuid)
    (old : ReleaseV2) (loaded : ConfigMetadata) (container : ContainerRecord) : engine unit :=
  identity <- lift (map_err (fun _ => NeedsAttention "ROLLBACK_TARGET_INVALID")
                      (release_image_identity old)) ;;
  health <- or_attention "ROLLBACK_HEALTH_FAILED"
              (verify (cr_id container) old_id (rl_runnable_image_ref old) identity
                 (cm_health loaded) (health_deadline (cm_health loaded))) ;;
  final_container <- observe_owned_candidate (dp_app_id record) old_id None ;;
  guard ((cr_id final_container ≠? cr_id container)
         || negb (candidate_matches_release final_container old))
    (NeedsAttention "ROLLBACK_HEALTH_FAILED") ;;;
  lift (map_err (fun _ => NeedsAttention "ROLLBACK_HEALTH_FAILED")
          (recheck health final_container (cm_health loaded))) ;;;
  cleanup_pending (dp_app_id record) (cq_candidate request) ;;;
  ask Refresh ;;;
  internal (LedgerTransition (dp_id record) PhTerminal StRolledBack "rolled_back"
              (Some (cq_code request))).

Definition rollback_or_fail (record : DeploymentRecord) (request : CompensationRequest) : engine unit :=
  candidate_release <- attention "RELEASE_INVALID"
                         (LoadV2Release (dp_app_id record) (cq_candidate request)) ;;
  internal (LedgerTransition (dp_id record) PhRollingBack StRunning "candidate_failed"
              (Some (cq_code request))) ;;;
  match cq_active request with
  | None => remove_candidate record request candidate_release
  | Some old_id =>
      prepared <- prepare_rollback record request candidate_release old_id ;;
      let '(old, loaded, binds, fresh_candidate) := prepared in
      container <- apply_rollback record request old_id old loaded binds fresh_candidate ;;
      finish_rollback record request old_id old loaded container
  end.

Definition restore_predecessor (record : DeploymentRecord) (predecessor : option ContainerRecord)
    (expected_bind_identities : list BindIdentity) : engine unit :=
  let failed := "PREDECESSOR_RESTORE_FAILED" in
  match predecessor with
  | None => eret tt
  | Some predecessor =>
      if cr_status predecessor =? CsExited then eret tt
      else
        release_id <- some_or (dp_expected_actual_release_id record) (NeedsAttention failed) ;;
        release <- attention failed (LoadV2Release (dp_app_id record) release_id) ;;
        loaded <- load_config (NeedsAttention failed) (dp_app_id record) (rl_config_revision release) ;;
        stop_to_start_guard (NeedsAttention "BIND_CHANGED") NeedsAttention record loaded
          expected_bind_identities ;;;
        start_context <- context (dp_app_id record) release_id ;;
        attention failed (ComposeRun CaStart start_context) ;;;
        restored <- or_attention failed
                      (preflight (dp_app_id record) (Some release_id) (Some (cr_id predecessor))) ;;
        restored <- some_or restored (NeedsAttention failed) ;;
        guard (cr_status restored ≠? CsRunning) (NeedsAttention failed)
  end.
(** ** The stages of a run *)

(** The facts the deployment was scheduled on still hold. *)
Definition begin_run (deployment_id : Uuid) : engine (DeploymentRecord * AppMetadata * option Uuid) :=
  found <- internal (LedgerGet deployment_id) ;;
  record <- some_or found Internal ;;
  internal (LedgerTransition deployment_id PhResolving StRunning "started" None) ;;;
  metadata <- stable "APP_NOT_FOUND" (ReadMetadata (dp_app_id record)) ;;
  guard (am_draft_revision metadata ≠? Some (dp_requested_revision record))
    (Stable "DEPLOYMENT_FACTS_CHANGED") ;;;
  active <- internal (ReadReleaseLink (dp_app_id record) LinkActive) ;;
  pending <- internal (ReadReleaseLink (dp_app_id record) LinkPending) ;;
  guard ((active ≠? dp_from_release_id record) || (pending ≠? dp_expected_pending_release_id record))
    (Stable "DEPLOYMENT_FACTS_CHANGED") ;;;
  schedule_predecessor record ;;;
  eret (record, metadata, active).

(** The pending link is set and the image is pulled and verified. *)
Definition pull_candidate (deployment_id : Uuid) (record : DeploymentRecord) (resolved : ResolvedImage)
    (candidate_id : Uuid) (candidate_release : ReleaseV2) : engine unit :=
  pending_before <- internal (ReadReleaseLink (dp_app_id record) LinkPending) ;;
  (if pending_before ≠? Some candidate_id
   then internal (SetPending (dp_app_id record) candidate_id) else eret tt) ;;;
  ask Refresh ;;;
  internal (LedgerTransition deployment_id PhPulling StRunning "candidate_published" None) ;;;
  image <- lift (map_err (fun e => Stable (registry_public_code e))
                   (parse (rl_source_image_ref candidate_release))) ;;
  credential <- load_credential_ref (rl_credential_ref candidate_release) image ;;
  pulled <- ask (Pull deployment_id resolved credential (redaction_of credential)) ;;
  match pulled with
  | Ok _ => eret tt
  | Err PeInterrupted => fail Interrupted
  | Err ((PeCleanupFailed | PeOutputUnsafe) as error) => fail (NeedsAttention (pull_public_code error))
  | Err error =>
      if is_some (dp_expected_pending_release_id record)
      then fail (NeedsAttention (pull_public_code error))
      else
        cleanup_pending (dp_app_id record) candidate_id ;;;
        fail (Stable (pull_public_code error))
  end.

(** The effect is announced in the ledger, then everything it depends on is
    read and validated again. *)
Definition prepare_apply (deployment_id : Uuid) (record : DeploymentRecord) (active : option Uuid)
    (candidate_id : Uuid) (candidate_release : ReleaseV2)
    : engine (option ContainerRecord * ConfigMetadata * list BindIdentity) :=
  internal (LedgerTransition deployment_id PhApplying StRunning "image_verified" None) ;;;
  predecessor <- schedule_predecessor record ;;
  internal (LedgerMarkEffectStarted deployment_id (cr_id <$> predecessor)
              (predecessor ≫= cr_started_at)) ;;;
  verify_release_links (dp_app_id record) active candidate_id ;;;
  final_release <- reload_release "RELEASE_INVALID" (dp_app_id record) candidate_id candidate_release ;;
  loaded <- load_config (NeedsAttention "RELEASE_INVALID") (dp_app_id record)
              (rl_config_revision final_release) ;;
  binds <- validate_runtime_paths_fresh loaded ;;
  try_call (ValidateBindPlan (dp_app_id record) loaded) Stable ;;;
  final_predecessor <- schedule_predecessor record ;;
  guard ((cr_id <$> final_predecessor) ≠? (cr_id <$> predecessor)) (NeedsAttention "CONTAINER_CHANGED") ;;;
  try_call (ValidateResources (dp_app_id record) loaded (cr_id <$> final_predecessor)
              (dp_request_id record)) NeedsAttention ;;;
  revalidate_binds (Stable "BIND_CHANGED") binds ;;;
  ensure_platform_network Stable record loaded (option_list (cr_id <$> final_predecessor)) ;;;
  eret (predecessor, loaded, binds).

(** The running predecessor is stopped and observed exited; its bind sources
    are kept for a restore. *)
Definition stop_predecessor (record : DeploymentRecord) : engine (list BindIdentity) :=
  let failed := NeedsAttention "PREDECESSOR_RESTORE_FAILED" in
  match dp_expected_actual_release_id record with
  | None => eret []
  | Some release_id =>
      predecessor_context <- context (dp_app_id record) release_id ;;
      release <- try_call (LoadV2Release (dp_app_id record) release_id) (fun _ => failed) ;;
      predecessor_config <- load_config failed (dp_app_id record) (rl_config_revision release) ;;
      predecessor_binds <- validate_runtime_paths_fresh predecessor_config ;;
      stop <- ask (ComposeRun CaStop predecessor_context) ;;
      if negb (is_ok stop) then fail Interrupted
      else
        stopped <- schedule_predecessor record ;;
        guard (negb (is_some_and stopped (fun value => cr_status value =? CsExited))) Interrupted ;;;
        eret predecessor_binds
  end.

(** A failed apply: compensate for what it did, as far as that is known. *)
Definition handle_failed_apply (deployment_id : Uuid) (record : DeploymentRecord)
    (active : option Uuid) (candidate_id : Uuid) (predecessor : option ContainerRecord)
    (predecessor_binds : list BindIdentity) (error : ComposeError) : engine unit :=
  if error =? CeCancelled then fail Interrupted
  else
    observation <- observe_failed_apply record candidate_id ;;
    match observation with
    | Candidate container =>
        internal (LedgerMarkEffectObserved deployment_id (cr_id container)) ;;;
        rollback_or_fail record
          (MkCompensationRequest active candidate_id container (compose_public_code error))
    | NoEffect =>
        restore_predecessor record predecessor predecessor_binds ;;;
        match error with
        | CeValidationFailed | CeOutputInvalid | CeUnsafePath =>
            cleanup_pending (dp_app_id record) candidate_id ;;;
            fail (Stable (compose_public_code error))
        | _ => fail Interrupted
        end
    end.

(** The candidate is committed after a last look at links, container and health. *)
Definition commit_candidate (deployment_id : Uuid) (record : DeploymentRecord) (active : option Uuid)
    (candidate_id : Uuid) (candidate_release : ReleaseV2) (loaded : ConfigMetadata)
    (candidate : ContainerRecord) (health : HealthResult) : engine unit :=
  internal (LedgerSetHealth deployment_id (cm_health loaded) health) ;;;
  internal (LedgerTransition deployment_id PhCommitting StRunning "health_passed" None) ;;;
  verify_release_links (dp_app_id record) active candidate_id ;;;
  final_candidate <- observe_owned_candidate (dp_app_id record) candidate_id None ;;
  guard (cr_id final_candidate ≠? cr_id candidate) (NeedsAttention "CONTAINER_CHANGED") ;;;
  match (if negb (candidate_matches_release final_candidate candidate_release)
         then Err HeIdentityMismatch
         else recheck health final_candidate (cm_health loaded)) with
  | Err error =>
      rollback_or_fail record
        (MkCompensationRequest active candidate_id final_candidate (health_public_code error))
  | Ok _ =>
      now <- ask NowUtc ;;
      attention "ACTIVE_FINALIZE_FAILED"
        (FinalizeActive (dp_app_id record) active candidate_id (desired_after (cm_health loaded))
           deployment_id now) ;;;
      ask Refresh ;;;
      internal (LedgerTransition deployment_id PhTerminal StSucceeded "committed" None)
  end.

(** The applied candidate is claimed in the ledger, identified and verified. *)
Definition verify_candidate (deployment_id : Uuid) (record : DeploymentRecord) (active : option Uuid)
    (candidate_id : Uuid) (candidate_release : ReleaseV2) (loaded : ConfigMetadata)
    (predecessor : option ContainerRecord) : engine unit :=
  candidate <- observe_owned_candidate (dp_app_id record) candidate_id (cr_id <$> predecessor) ;;
  internal (LedgerMarkEffectObserved deployment_id (cr_id candidate)) ;;;
  if negb (candidate_matches_release candidate candidate_release) then
    rollback_or_fail record
      (MkCompensationRequest active candidate_id candidate "CANDIDATE_INVALID")
  else
    internal (LedgerTransition deployment_id PhVerifying StRunning "candidate_applied" None) ;;;
    identity <- lift (map_err (fun _ => NeedsAttention "RELEASE_INVALID")
                        (release_image_identity candidate_release)) ;;
    prog_bind (verify (cr_id candidate) candidate_id (rl_runnable_image_ref candidate_release)
                 identity (cm_health loaded) (health_deadline (cm_health loaded)))
      (fun verified => match verified with
       | Ok health => commit_candidate deployment_id record active candidate_id candidate_release
                        loaded candidate health
       | Err (HeInterrupted | HeObservation | HeChanged) => fail Interrupted
       | Err error =>
           rollback_or_fail record
             (MkCompensationRequest active candidate_id candidate (health_public_code error))
       end).

(** From the announced effect to the end of the deployment. *)
Definition apply_candidate (deployment_id : Uuid) (record : DeploymentRecord) (active : option Uuid)
    (candidate_id : Uuid) (candidate_release : ReleaseV2) : engine unit :=
  prepared <- prepare_apply deployment_id record active candidate_id candidate_release ;;
  let '(predecessor, loaded, binds) := prepared in
  predecessor_binds <- stop_predecessor record ;;
  stop_to_start_guard (Stable "BIND_CHANGED") Stable record loaded binds ;;;
  candidate_context <- context (dp_app_id record) candidate_id ;;
  compose_result <- ask (ComposeRun CaDeployCandidate candidate_context) ;;
  match compose_result with
  | Err error => handle_failed_apply deployment_id record active candidate_id predecessor
                   predecessor_binds error
  | Ok _ => verify_candidate deployment_id record active candidate_id candidate_release loaded predecessor
  end.

Definition run (deployment_id : Uuid) : engine unit :=
  begun <- begin_run deployment_id ;;
  let '(record, metadata, active) := begun in
  resolution <- resolve_candidate record metadata active ;;
  match resolution with
  | None => eret tt
  | Some (resolved, candidate_id, candidate_release) =>
      pull_candidate deployment_id record resolved candidate_id candidate_release ;;;
      apply_candidate deployment_id record active candidate_id candidate_release
  end.

(** ** The task *)

Definition terminal_of (error : EngineError) : DeploymentStatus * string :=
  match error with
  | Interrupted => (StInterrupted, "DEPLOYMENT_INTERRUPTED")
  | NeedsAttention code => (StNeedsAttention, code)
  | Stable code => (StFailed, code)
  | Internal | AlreadyTerminal => (StInterrupted, "DEPLOYMENT_INTERNAL")
  end.

Definition record_terminal_error (deployment_id : Uuid) (error : EngineError) : prog ev unit :=
  let '(status, code) := terminal_of error in
  Vis (LedgerTransition deployment_id PhTerminal status "failed" (Some code)) (fun _ => Ret tt).

Definition spawn (deployment_id : Uuid) : prog ev unit :=
  prog_bind (run deployment_id) (fun outcome =>
    prog_bind
      match outcome with
      | Ok _ => Ret tt
      | Err error =>
          prog_bind (call Refresh) (fun _ =>
          prog_bind (record_terminal_error deployment_id error) (fun _ =>
          call NotifyReconcile))
      end
      (fun _ => call NotifyRetention)).
End engine.

(** ** A reference the poller can never deploy *)

(** A polled deployment records the canonical form of the discovered
    reference and is refused unless it equals the text of the draft: an
    application configured with a short reference is never updated by polling. *)
Theorem polled_short_reference_refused record metadata discovery image :
  parse discovery = Ok image -> canonical_tagged_ref image <> discovery ->
  am_discovery_image_ref metadata = Some discovery -> am_auto_deploy_enabled metadata = true ->
  dp_scheduled_source_image_ref record = Some (canonical_tagged_ref image) ->
  scheduled_image record metadata = Err (Stable "DEPLOYMENT_FACTS_CHANGED").
Proof.
  intros Hp Hne Hd Ha Hs. unfold scheduled_image. rewrite Ha, Hs, Hd. cbn.
  rewrite bool_decide_eq_false_2 by congruence. done.
Qed.
