(* ===== verification/EngineSafety.v ===== *)
(** * EngineSafety: what the deployment engine may do, and when

    A journal collects what the calls of a deployment have shown. [allowed]
    is the protocol of the documentation (docs/deployments.md): which effects,
    commits, link removals and terminal states are acceptable after which
    observations. [run_safe] proves that every call the engine makes, whatever
    the environment answers at any point, is allowed; the theorems read single
    guarantees off that proof for every trace. What a start relies on is kept in
    the list of the calls since the last Compose command themselves, because it
    ties several of them together: whose configuration was loaded, and that it
    is the binds of that one which were resolved and compared. *)

From S2P Require Import Prelude Text Reference Models Database Health Ownership Effects Events Verifier Engine.

(** ** The journal *)

Record Journal := MkJournal {
  j_record : option DeploymentRecord;          (** the deployment, as the ledger returned it *)
  j_effect_marked : bool;                      (** the ledger accepted the effect marker *)
  j_predecessor : option string;               (** the container recorded by that marker *)
  j_candidate_seen : option string;            (** the candidate container recorded *)
  j_rollback_marked : option string;           (** the container of the rollback marker *)
  j_rollback_seen : bool;                      (** the ledger accepted the rollback observation *)
  j_containers : option (list ContainerRecord);(** the application's containers, as last listed *)
  j_outstanding : bool;                        (** an applied release not since seen absent *)
  j_pending_removed : bool;                    (** the pending link was removed *)
  j_finalized : bool;                          (** the candidate became active *)
  j_active : option (option Uuid);             (** the active link, as last read *)
  j_pending : option (option Uuid);            (** the pending link, as last read *)
  j_health : option (HealthPolicy * HealthResult); (** the health result recorded *)
  j_closed : option DeploymentStatus;          (** the ledger accepted this terminal status *)
}.

#[export] Instance eta_Journal : Eta Journal := fun j =>
  MkJournal (j_record j) (j_effect_marked j) (j_predecessor j) (j_candidate_seen j)
    (j_rollback_marked j) (j_rollback_seen j) (j_containers j) (j_outstanding j) (j_pending_removed j) (j_finalized j) (j_active j)
    (j_pending j) (j_health j) (j_closed j).

Definition empty_journal : Journal :=
  MkJournal None false None None None false None false false false None None None None.

(** None of the listed containers is one an applied release left behind: each is
    the predecessor, or another than the candidate recorded. *)
Definition effect_absent (j : Journal) (containers : list ContainerRecord) : bool :=
  forallb (fun c => (Some (cr_id c) =? j_predecessor j)
                    || is_some_and (j_candidate_seen j) (fun seen => cr_id c ≠? seen)) containers.

Definition note_compose (j : Journal) (action : ComposeAction) : Journal :=
  match action with
  | CaDeployCandidate => j <| j_containers := None |> <| j_outstanding := true |>
  | CaStart | CaRecreate | CaRemove => j <| j_containers := None |>
  | CaStop | CaValidate | CaVersion => j
  end.

Definition note (j : Journal) (o : obs ev) : Journal :=
  match o with
  | Obs e x =>
      match e in ev X return X -> Journal with
      | LedgerGet _ => fun r => match r with Ok (Some record) => j <| j_record := Some record |> | _ => j end
      | LedgerTransition _ _ status _ _ => fun r =>
          if is_ok r && is_terminal status then j <| j_closed := Some status |> else j
      | LedgerMarkEffectStarted _ pre _ => fun r =>
          if is_ok r then j <| j_effect_marked := true |> <| j_predecessor := pre |> else j
      | LedgerMarkEffectObserved _ post => fun r =>
          if is_ok r then j <| j_candidate_seen := Some post |> else j
      | LedgerMarkRollbackStarted _ pre => fun r =>
          if is_ok r then j <| j_rollback_marked := Some pre |> else j
      | LedgerMarkRollbackObserved _ _ => fun r =>
          if is_ok r then j <| j_rollback_seen := true |> else j
      | LedgerSetHealth _ policy health => fun r =>
          if is_ok r then j <| j_health := Some (policy, health) |> else j
      | ReadReleaseLink _ LinkActive => fun r =>
          match r with Ok link => j <| j_active := Some link |> | Err _ => j end
      | ReadReleaseLink _ LinkPending => fun r =>
          match r with Ok link => j <| j_pending := Some link |> | Err _ => j end
      | ListComposeAppContainers _ => fun r =>
          match r with
          | Ok l => j <| j_containers := Some l |>
                      <| j_outstanding := if effect_absent j l then false else j_outstanding j |>
          | Err _ => j
          end
      | ComposeRun action _ => fun _ => note_compose j action
      | FinalizeActive _ _ _ _ _ _ => fun r => if is_ok r then j <| j_finalized := true |> else j
      | RemoveReleaseLinkIf _ _ _ => fun r =>
          if is_ok r then j <| j_pending_removed := true |> else j
      | _ => fun _ => j
      end x
  end.

(** What the ledger promises: it answers with the record asked for. *)
Definition own_record (X : Type) (j : Journal) (e : ev X) : X -> Prop :=
  match e in ev X return X -> Prop with
  | LedgerGet id => fun r => forall record, r = Ok (Some record) -> dp_id record = id
  | _ => fun _ => True
  end.

(** ** The protocol *)

Section protocol.
Context {UT : UuidText} (apps_directory : string) (deployment_id : Uuid).

(** The call concerns the deployment's own application. *)
Definition own_app (j : Journal) (app_id : Uuid) : Prop :=
  exists record, j_record j = Some record /\ dp_app_id record = app_id.

Definition carries_release (c : ContainerRecord) (release : Uuid) : Prop :=
  cr_labels c !! RELEASE_ID_LABEL = Some (uuid_to_string release).

(** The one container of the application is the one the ledger names as the
    object of the effect in progress. *)
Definition targets_recorded (j : Journal) : Prop :=
  exists c, j_containers j = Some [c]
    /\ match j_rollback_marked j with
       | Some id => cr_id c = id
       | None => j_predecessor j = Some (cr_id c)
       end.

(** No container of the application can be writing. *)
Definition writers_stopped (j : Journal) : Prop :=
  exists l, j_containers j = Some l /\ Forall (fun c => cr_status c = CsExited) l.

(** The one container of the application is the recorded predecessor itself. *)
Definition predecessor_alone (j : Journal) : Prop :=
  exists c, j_containers j = Some [c] /\ j_predecessor j = Some (cr_id c).

Definition compose_allowed (j : Journal) (action : ComposeAction) (c : RunContext) : Prop :=
  j_effect_marked j = true
  /\ (exists record, j_record j = Some record
        /\ rc_project_directory c = app_directory apps_directory (dp_app_id record))
  /\ match action with
     | CaStop => targets_recorded j
     | CaRemove => is_Some (j_rollback_marked j) /\ targets_recorded j
     | CaDeployCandidate => writers_stopped j
     | CaStart => j_outstanding j = false /\ predecessor_alone j
     | CaVersion | CaValidate | CaRecreate => False
     end.

(** The evidence for committing a candidate: the links are as expected, and the
    one container of the application is the recorded candidate, of that
    release, the same run that was verified healthy, and ready now. *)
Definition commit_evidence (j : Journal) (expected : option Uuid) (candidate : Uuid)
    (desired : DesiredState) : Prop :=
  exists c policy health,
    j_containers j = Some [c] /\ j_candidate_seen j = Some (cr_id c) /\ carries_release c candidate
    /\ j_health j = Some (policy, health) /\ recheck health c policy = Ok tt
    /\ ready_state (hr_verified_container health) policy
    /\ j_active j = Some expected /\ j_pending j = Some (Some candidate)
    /\ desired = desired_after policy.

(** A no-op: nothing was applied, and the active release is what runs. *)
Definition no_op_evidence (j : Journal) (expected : option Uuid) (candidate : Uuid) : Prop :=
  j_effect_marked j = false /\ expected = Some candidate
  /\ exists c, j_containers j = Some [c] /\ carries_release c candidate.

(** A rollback: the pending link is gone, and the one container is an observed
    one of the old release, not the failed candidate. *)
Definition rollback_evidence (j : Journal) : Prop :=
  j_pending_removed j = true /\ j_rollback_seen j = true /\ j_outstanding j = false
  /\ exists c old failed, j_containers j = Some [c] /\ j_active j = Some (Some old)
       /\ carries_release c old /\ j_rollback_marked j = Some failed /\ cr_id c <> failed.

(** The codes of a credential of the old release that cannot be loaded. *)
Definition credential_code (code : string) : Prop :=
  code = "REGISTRY_CREDENTIAL_INVALID" \/ code = "REGISTRY_CREDENTIAL_MISMATCH".

(** The applied candidate is recorded and its compensation was never begun,
    because the credential of the old release could not be loaded. *)
Definition uncompensated (j : Journal) (code : string) : Prop :=
  credential_code code /\ is_Some (j_candidate_seen j) /\ j_rollback_marked j = None
  /\ j_pending_removed j = false.

Definition terminal_allowed (j : Journal) (status : DeploymentStatus) (code : option string) : Prop :=
  match status with
  | StSucceeded => j_finalized j = true /\ j_pending_removed j = false
  | StNoOp => j_effect_marked j = false
  | StRolledBack => j_finalized j = false /\ rollback_evidence j
  | StFailed => j_finalized j = false
      /\ (j_outstanding j = false \/ exists c, code = Some c /\ uncompensated j c)
  | StNeedsAttention => j_finalized j = false /\ j_pending_removed j = false
  | StInterrupted => (j_finalized j = false /\ j_pending_removed j = false)
      \/ (code = Some "DEPLOYMENT_INTERNAL" /\ (j_pending_removed j = true -> j_outstanding j = false))
  | StQueued | StRunning => False
  end.

Definition allowed (X : Type) (j : Journal) (e : ev X) : Prop :=
  match e with
  | LedgerGet id => id = deployment_id
  | LedgerTransition id phase status _ code =>
      id = deployment_id
      /\ (if is_terminal status then phase = PhTerminal /\ terminal_allowed j status code
          else status = StRunning)
  | LedgerResolved id _ _ _ _ _ _ | LedgerSetHealth id _ _ | LedgerMarkEffectStarted id _ _
  | LedgerMarkEffectObserved id _ | LedgerMarkRollbackStarted id _ | LedgerMarkRollbackObserved id _ =>
      id = deployment_id
  | SetPending app_id _ => own_app j app_id
  | FinalizeActive app_id expected candidate desired operation_id _ =>
      own_app j app_id /\ operation_id = deployment_id
      /\ (commit_evidence j expected candidate desired \/ no_op_evidence j expected candidate)
  | RemoveReleaseLinkIf app_id link _ => own_app j app_id /\ link = LinkPending /\ j_outstanding j = false
  | ComposeRun action c => compose_allowed j action c
  | _ => True
  end.
End protocol.

(** ** Proof of the protocol *)

Section safety.
Context {UT : UuidText} (apps_directory : string).

(** What an error of a run says about the deployment. *)
Definition err_ok (j : Journal) (e : EngineError) : Prop :=
  match e with
  | Stable code => j_finalized j = false /\ (j_outstanding j = false \/ uncompensated j code)
  | NeedsAttention _ | Interrupted => j_finalized j = false /\ j_pending_removed j = false
  | Internal => j_pending_removed j = true -> j_outstanding j = false
  | AlreadyTerminal => is_Some (j_closed j) /\ (j_pending_removed j = true -> j_outstanding j = false)
  end.

Definition post {A} (P : Journal -> A -> Prop) (j : Journal) (r : result EngineError A) : Prop :=
  match r with Ok a => P j a | Err e => err_ok j e end.

Abbreviation esafe d := (safe note (allowed apps_directory d) own_record True).

(** The journal after the application's containers were listed, and after the
    links were read. *)
Definition listed (j : Journal) (l : list ContainerRecord) : Journal :=
  note j (Obs (ListComposeAppContainers "") (Ok l)).
Definition linked (j : Journal) (active pending : option Uuid) : Journal :=
  j <| j_active := Some active |> <| j_pending := Some pending |>.

Lemma safe_guard d {B} c e (k : unit -> engine B) j Q :
  (c = true -> Q j (Err e)) -> (c = false -> esafe d (k tt) j Q) -> esafe d (ebind (guard c e) k) j Q.
Proof. intros Ht Hf. destruct c; [by apply Ht|by apply Hf]. Qed.

Lemma safe_some_or d {A B} (o : option A) e (k : A -> engine B) j Q :
  (o = None -> Q j (Err e)) -> (forall a, o = Some a -> esafe d (k a) j Q) ->
  esafe d (ebind (some_or o e) k) j Q.
Proof. intros Hn Hs. destruct o; [by apply Hs|by apply Hn]. Qed.

(** A lemma used in the middle of a function with the same error discipline. *)
Lemma safe_use d {A B} (p : engine A) (f : A -> engine B) j P Q :
  esafe d p j (post P) -> (forall j' a, P j' a -> esafe d (f a) j' (post Q)) ->
  esafe d (ebind p f) j (post Q).
Proof. intros Hp Hf. eapply safe_ebind_use; [exact Hp|exact Hf|done]. Qed.

Lemma safe_last d {A} (p : engine A) j (P Q : Journal -> A -> Prop) :
  esafe d p j (post P) -> (forall j' a, P j' a -> Q j' a) -> esafe d p j (post Q).
Proof. intros Hp HQ. eapply safe_mono; [exact Hp|]. intros j' [a|e]; simpl; auto. Qed.

(** Continues from an unknown journal of which only [I] is kept. *)
Lemma safe_forget d {A} (I : Journal -> Prop) (p : engine A) j Q :
  I j -> (forall j', I j' -> esafe d p j' Q) -> esafe d p j Q.
Proof. auto. Qed.

(** Symbolic execution of one construct. The side conditions on calls and
    errors are attempted; what is left is left to the proof. *)
(** A stable error while no applied release is outstanding. *)
Ltac stably := split; [|left].
Ltac quick := solve [exact I | cbn; intuition (eauto; congruence)].
Ltac step :=
  unfold internal, interrupted, stable, attention;
  lazymatch goal with
  | |- safe _ _ _ _ (ebind (try_call _ _) _) _ _ =>
      apply safe_try; [try quick | intros ? ?; try quick | intros ? ?]
  | |- safe _ _ _ _ (ebind (ask _) _) _ _ => apply safe_ask; [try quick | intros ? ?]
  | |- safe _ _ _ _ (ebind (guard _ _) _) _ _ => apply safe_guard; [intros ?; try quick | intros ?]
  | |- safe _ _ _ _ (ebind (some_or _ _) _) _ _ => apply safe_some_or; [intros ?; try quick | intros ? ?]
  | |- safe _ _ _ _ (ebind (lift (map_err _ _)) _) _ _ =>
      apply safe_lift_map; [intros ? ?; try quick | intros ? ?]
  | |- safe _ _ _ _ (ebind (lift _) _) _ _ => apply safe_lift; [intros ? ?; try quick | intros ? ?]
  | |- safe _ _ _ _ (ebind (eret _) _) _ _ => cbn [ebind eret prog_bind]
  | |- safe _ _ _ _ (ebind (fail _) _) _ _ => cbn [ebind fail prog_bind]
  | |- safe _ _ _ _ (try_call _ _) _ _ =>
      apply safe_try_last; [try quick | intros ? ?; try quick | intros ? ?; try quick]
  | |- safe _ _ _ _ (eret _) _ _ => cbn [safe eret]; try quick
  | |- safe _ _ _ _ (fail _) _ _ => cbn [safe fail]; try quick
  end.

(** *** Reading functions *)

Section reading.
Context (d : Uuid) (j : Journal) (Hpr : j_pending_removed j = false) (Hfz : j_finalized j = false).

Lemma minimal_app_safe id active :
  esafe d (minimal_app id active) j (post (fun j' app => j' = j /\ ce_id app = id)).
Proof. unfold minimal_app. do 2 step. Qed.

Lemma context_safe app_id release :
  esafe d (context apps_directory app_id release) j
    (post (fun j' c => j' = j /\ rc_project_directory c = app_directory apps_directory app_id)).
Proof. unfold context, release_run_context. do 3 step. Qed.

Lemma load_config_safe error app_id revision :
  err_ok j error -> esafe d (load_config error app_id revision) j (post (fun j' _ => j' = j)).
Proof. intros He. unfold load_config. do 2 step. Qed.

Lemma revalidate_binds_safe error binds :
  err_ok j error -> esafe d (revalidate_binds error binds) j (post (fun j' _ => j' = j)).
Proof.
  intros He. unfold revalidate_binds. induction binds as [|b binds IH]; cbn [each]; by step.
Qed.

Lemma validate_runtime_paths_fresh_safe metadata :
  esafe d (validate_runtime_paths_fresh metadata) j
    (post (fun j' _ => j' = j)).
Proof. unfold validate_runtime_paths_fresh. do 2 step. Qed.

Lemma load_credential_ref_safe credential_ref image :
  (forall code, credential_code code -> err_ok j (Stable code)) ->
  esafe d (load_credential_ref credential_ref image) j (post (fun j' _ => j' = j)).
Proof.
  intros He. unfold load_credential_ref.
  eapply (safe_use _ _ _ _ (fun j' _ => j' = j)).
  - destruct credential_ref; repeat step. apply He. by left.
  - intros j' v ->. step; [|by step]. apply He. by right.
Qed.

Lemma reload_release_safe code app_id release expected :
  esafe d (reload_release code app_id release expected) j
    (post (fun j' r => j' = j /\ r = expected)).
Proof. unfold reload_release. do 3 step. bools. subst. done. Qed.

Lemma verify_release_links_safe app_id active pending :
  esafe d (verify_release_links app_id active pending) j
    (post (fun j' _ => j' = linked j active (Some pending))).
Proof.
  unfold verify_release_links. step. eapply (safe_use _ _ _ _ (fun j' _ => j' = linked j active (Some pending))).
  - case_bool_decide as Ha; subst; cbn [negb]; repeat step. unfold guard.
    case_bool_decide as Hb; subst; cbn [negb]; by step.
  - intros j' _ ->. do 2 step.
Qed.

Lemma ensure_platform_network_safe on_error record loaded allowed_ids :
  (forall code, err_ok j (on_error code)) ->
  esafe d (ensure_platform_network on_error record loaded allowed_ids) j (post (fun j' _ => j' = j)).
Proof.
  intros He. unfold ensure_platform_network. destruct (cm_service_discovery_enabled loaded); [|by step].
  repeat step.
Qed.

Lemma validated_identity candidate app identity release :
  validate_syntactic_identity (cr_labels candidate) app = Some identity ->
  oi_release_id identity = release -> carries_release candidate release.
Proof. intros (_ & _ & _ & _ & Hr & _)%validate_syntactic_identity_spec <-. exact Hr. Qed.

Lemma observe_owned_candidate_safe app_id release old_id :
  esafe d (observe_owned_candidate app_id release old_id) j
    (post (fun j' c => j' = listed j [c] /\ carries_release c release /\ old_id <> Some (cr_id c))).
Proof.
  unfold observe_owned_candidate. eapply safe_use; [apply minimal_app_safe|].
  intros j' app [-> _]. step. destruct x as [|c [|c' l]]; [by step| |by step].
  step. step. step. step. bools. split; [done|]. split; [|done]. by eapply validated_identity.
Qed.
End reading.

(** The guard between a stop and the next start. *)
Lemma stop_to_start_guard_safe d j on_change on_conflict record loaded binds :
  j_pending_removed j = false -> j_finalized j = false -> err_ok j on_change -> (forall code, err_ok j (on_conflict code)) ->
  esafe d (stop_to_start_guard on_change on_conflict record loaded binds) j
    (post (fun j' _ => j' = j)).
Proof.
  intros Hpr Hfz He Hc. unfold stop_to_start_guard.
  eapply safe_use; [by apply validate_runtime_paths_fresh_safe|]. intros j' post_stop_binds ->.
  step.
  eapply safe_use; [by apply revalidate_binds_safe; destruct on_change|]. intros j' _ ->.
  step.
Qed.

(** The journal with its containers listed again keeps everything else. *)
Lemma listed_outstanding j l : j_outstanding j = false -> j_outstanding (listed j l) = false.
Proof. intros H. cbn. rewrite H. by destruct (effect_absent j l). Qed.

Section observing.
Context (d : Uuid) (j : Journal).
Context (Hpr : j_pending_removed j = false) (Hfz : j_finalized j = false) (Hout : j_outstanding j = false).

(** A preflight that succeeds has listed exactly the expected container. *)
Lemma preflight_safe app_id expected_release expected_id :
  esafe d (preflight app_id expected_release expected_id) j
    (post (fun j' found => exists l, j' = listed j l /\ l = option_list found
       /\ cr_id <$> found = expected_id
       /\ match expected_release with
          | Some release => exists c, found = Some c /\ carries_release c release
          | None => found = None
          end)).
Proof.
  unfold preflight. eapply safe_use; [by apply minimal_app_safe|]. intros j' app [-> _]. step.
  destruct x as [|c [|c' l]]; [| |by step].
  - destruct expected_release, expected_id; cbn [is_none is_some negb andb]; step.
    exists []. done.
  - do 3 step. exists [c]. apply orb_false_iff in H1 as [Hr Hi]. bools. subst.
    split; [done|]. split; [done|]. split; [done|]. exists c. split; [done|]. by eapply validated_identity.
Qed.

Lemma schedule_predecessor_safe record :
  esafe d (schedule_predecessor record) j
    (post (fun j' found => exists l, j' = listed j l /\ l = option_list found
       /\ cr_id <$> found = dp_expected_actual_container_id record
       /\ match dp_expected_actual_release_id record with
          | Some release => exists c, found = Some c /\ carries_release c release
          | None => found = None
          end)).
Proof. apply preflight_safe. Qed.

End observing.


(** What stays true while a deployment that announced its effect is under way. *)
Record in_flight (j : Journal) (record : DeploymentRecord) : Prop := {
  if_record : j_record j = Some record;
  if_marked : j_effect_marked j = true;
  if_pending : j_pending_removed j = false;
  if_predecessor : j_predecessor j = dp_expected_actual_container_id record;
  if_consistent : dp_expected_actual_container_id record = None ->
                  dp_expected_actual_release_id record = None;
  if_finalized : j_finalized j = false;
}.

Lemma in_flight_own_app j record : in_flight j record -> own_app j (dp_app_id record).
Proof. intros H. exists record. by rewrite (if_record _ _ H). Qed.

(** A failed apply is classified as without effect only on a listing that shows
    it, and as a candidate only on a container of that release. *)
Lemma observe_failed_apply_safe d j record candidate_id :
  in_flight j record ->
  esafe d (observe_failed_apply record candidate_id) j
    (post (fun j' observation => exists l, j' = listed j l /\
       match observation with
       | NoEffect => effect_absent j l = true
           /\ (is_Some (dp_expected_actual_container_id record) -> predecessor_alone (listed j l))
       | Candidate c => l = [c] /\ carries_release c candidate_id
       end)).
Proof.
  intros Hf. pose proof (if_pending _ _ Hf) as Hpr. pose proof (if_predecessor _ _ Hf) as Hp.
  pose proof (if_finalized _ _ Hf) as Hz.
  unfold observe_failed_apply.
  eapply safe_use; [by apply minimal_app_safe|]. intros j' app [-> _]. step.
  destruct x as [|c [|c' l]]; [| |by step].
  { destruct (_ && _) eqn:Hn; step. exists []. split; [done|]. split; [done|]. intros [? He].
    by rewrite He in Hn. }
  eapply (safe_use _ _ _ _ (fun j' unchanged => j' = listed j [c] /\
            (unchanged = true -> effect_absent j [c] = true /\ j_predecessor j = Some (cr_id c)))).
  - destruct (cr_id c =? _) eqn:Hid; [|by step].
    eapply safe_use; [by apply minimal_app_safe|]. intros j' predecessor [-> _]. step.
    cbn. split; [done|]. intros Hrel. bools. unfold effect_absent. rewrite Hp. cbn.
    destruct (dp_expected_actual_container_id record) as [pid|] eqn:He; cbn in Hid |- *; [subst|].
    + by rewrite bool_decide_eq_true_2.
    + rewrite (if_consistent _ _ Hf) in Hrel by done. done.
  - intros j' unchanged [-> Hu]. destruct unchanged.
    { step. destruct Hu as [Ha Hq]; [done|]. exists [c]. split; [done|]. split; [done|]. by exists c. }
    step. case_bool_decide; step. exists [c]. split; [done|]. split; [done|]. by eapply validated_identity.
Qed.


(** *** Compensation *)

Lemma in_flight_listed j record l : in_flight j record -> in_flight (listed j l) record.
Proof. intros []. by split. Qed.
Lemma in_flight_linked j record a p : in_flight j record -> in_flight (linked j a p) record.
Proof. intros []. by split. Qed.

(** Discharges [compose_allowed]. *)
Lemma compose_allowed_intro j record action c :
  in_flight j record -> rc_project_directory c = app_directory apps_directory (dp_app_id record) ->
  match action with
  | CaStop => targets_recorded j
  | CaRemove => is_Some (j_rollback_marked j) /\ targets_recorded j
  | CaDeployCandidate => writers_stopped j
  | CaStart => j_outstanding j = false /\ predecessor_alone j
  | CaVersion | CaValidate | CaRecreate => False
  end -> compose_allowed apps_directory j action c.
Proof. intros [Hr Hm _ _ _ _] Hc Ha. split; [done|]. split; [by exists record|done]. Qed.

Lemma remove_first_deploy_candidate_safe j record candidate c run_context :
  in_flight j record -> j_containers j = Some [c] -> j_rollback_marked j = Some (cr_id c) ->
  rc_project_directory run_context = app_directory apps_directory (dp_app_id record) ->
  esafe (dp_id record) (remove_first_deploy_candidate record candidate run_context) j
    (post (fun j' _ => j_outstanding j' = false /\ j_finalized j' = false)).
Proof.
  intros Hf Hl Hm Hc. pose proof Hf as [Hr He Hp Hq Hk Hz].
  assert (Ht : targets_recorded j) by (exists c; by rewrite Hl, Hm).
  unfold remove_first_deploy_candidate. step; [by eapply compose_allowed_intro|].
  step; [eapply compose_allowed_intro; [|done|split; [by cbn; rewrite Hm|exact Ht]]|]; [by split|].
  step. step. destruct x1; [|done]. do 2 step. cbn. split; [by exists record|done].
Qed.

Lemma remove_candidate_safe j record request release :
  in_flight j record ->
  esafe (dp_id record) (remove_candidate apps_directory record request release) j
    (post (fun _ _ => False)).
Proof.
  intros Hf. pose proof Hf as [Hr He Hp Hq Hk Hz]. unfold remove_candidate. step.
  eapply safe_use; [by apply verify_release_links_safe|]. intros ? _ ->.
  eapply safe_use; [by apply reload_release_safe|]. intros ? final_release [-> ->].
  eapply safe_use; [by apply load_config_safe|]. intros ? loaded ->.
  eapply safe_use; [by apply validate_runtime_paths_fresh_safe|]. intros ? binds ->.
  step. eapply safe_use; [by apply observe_owned_candidate_safe|].
  intros ? c (-> & _ & _). step. bools.
  eapply safe_use; [by apply revalidate_binds_safe|]. intros ? _ ->.
  eapply safe_use; [by apply context_safe|]. intros ? run_context [-> Hc].
  eapply safe_use; [eapply (remove_first_deploy_candidate_safe _ record _ c); [by split|done|by cbn; f_equal|done]|].
  intros j' ? []. step.
Qed.


(** The health verifier leaves the journal alone, and what it accepts is ready. *)
Lemma verify_safe d j container_id release_id image_ref identity policy deadline :
  esafe d (verify container_id release_id image_ref identity policy deadline) j
    (fun j' r => j' = j /\ match r with
       | Ok res => ready_state (hr_verified_container res) policy
       | Err _ => True end).
Proof.
  eapply safe_mono; [eapply (calls_only_safe observes)|].
  - apply verify_observes.
  - intros X [] x g; done.
  - intros X [] g; done.
  - apply (verify_spec container_id release_id image_ref identity policy deadline []).
  - intros j' [res|] [-> (h & Hq)]; [|done]. split; [done|].
    destruct Hq as (_ & (_ & _ & _ & _ & Hready) & _). done.
Qed.

Lemma or_attention_safe d {R A B} code (p : eprog ev R A) (k : A -> engine B) j Q :
  safe note (allowed apps_directory d) own_record True p j (fun j' r =>
    match r with
    | Ok a => esafe d (k a) j' (post Q)
    | Err _ => j_finalized j' = false /\ j_pending_removed j' = false
    end) ->
  esafe d (ebind (or_attention code p) k) j (post Q).
Proof.
  intros Hp. unfold or_attention. apply safe_ebind, safe_bind. eapply safe_mono; [exact Hp|].
  intros j' [a|r]; simpl; auto.
Qed.

Lemma prepare_rollback_safe j record request release old_id :
  in_flight j record -> j_rollback_marked j = None ->
  j_candidate_seen j = Some (cr_id (cq_container request)) ->
  esafe (dp_id record) (prepare_rollback record request release old_id) j
    (post (fun j' '(_, _, _, fresh) =>
       in_flight j' record /\ j_containers j' = Some [fresh]
       /\ j_rollback_marked j' = Some (cr_id fresh) /\ j_candidate_seen j' = Some (cr_id fresh)
       /\ j_active j' = Some (Some old_id))).
Proof.
  intros Hf Hrm Hseen. pose proof Hf as [Hr He Hp Hq Hk Hz]. unfold prepare_rollback. step. step.
  eapply safe_use; [apply load_credential_ref_safe|intros ? credential ->].
  { intros code Hcode. split; [done|]. right. split; [done|]. split; [by eexists|done]. }
  step; [by destruct r|]. step.
  eapply safe_use; [by apply verify_release_links_safe|]. intros ? _ ->. do 3 step.
  eapply safe_use; [by apply load_config_safe|]. intros ? loaded ->.
  eapply safe_use; [by apply validate_runtime_paths_fresh_safe|]. intros ? binds ->.
  eapply safe_use; [by apply observe_owned_candidate_safe|]. intros ? c (-> & _ & _). step. bools. step.
  eapply safe_use; [by apply revalidate_binds_safe|]. intros ? _ ->. step.
  eapply safe_use; [by apply ensure_platform_network_safe|]. intros ? _ ->. step.
  split; [by split|]. cbn. rewrite Hseen. do 2 (split; [congruence|]). split; congruence.
Qed.

Lemma apply_rollback_safe j record request old_id old loaded binds fresh :
  in_flight j record -> j_containers j = Some [fresh] ->
  j_rollback_marked j = Some (cr_id fresh) -> j_candidate_seen j = Some (cr_id fresh) ->
  j_active j = Some (Some old_id) ->
  esafe (dp_id record) (apply_rollback apps_directory record request old_id old loaded binds fresh) j
    (post (fun j' c =>
       in_flight j' record /\ j_outstanding j' = false /\ j_rollback_seen j' = true
       /\ j_active j' = Some (Some old_id) /\ j_rollback_marked j' = Some (cr_id fresh)
       /\ j_candidate_seen j' = Some (cr_id fresh) /\ cr_id c <> cr_id fresh)).
Proof.
  intros Hf Hl Hm Hs Ha. pose proof Hf as [Hr He Hp Hq Hk Hz]. unfold apply_rollback.
  eapply safe_use; [by apply context_safe|]. intros ? stop_context [-> Hsc].
  step; [eapply compose_allowed_intro; [done..|]; exists fresh; by rewrite Hl, Hm|].
  eapply safe_use; [by apply observe_owned_candidate_safe|]. intros ? stopped (-> & _ & _).
  step. bools.
  eapply safe_use; [by apply stop_to_start_guard_safe|]. intros ? _ ->.
  eapply safe_use; [by apply context_safe|]. intros ? old_context [-> Hoc].
  apply safe_try.
  { eapply (compose_allowed_intro _ record); [by split|done|].
    exists [stopped]. split; [done|]. by repeat constructor. }
  { intros [] _; by split. }
  intros [] _. apply (safe_forget _ (fun j1 => in_flight j1 record
    /\ j_rollback_marked j1 = Some (cr_id fresh) /\ j_candidate_seen j1 = Some (cr_id fresh)
    /\ j_active j1 = Some (Some old_id))); [by split; [split|]|].
  intros j1 (Hf1 & Hm1 & Hs1 & Ha1).
  pose proof (if_pending _ _ Hf1) as Hp1. pose proof (if_finalized _ _ Hf1) as Hz1.
  eapply safe_use; [by apply observe_owned_candidate_safe|]. intros ? c (-> & Hrel & Hne).
  do 4 step. split; [by destruct Hf1|]. split; [|split; [done|split; [done|]]].
  - cbn -[effect_absent]. unfold effect_absent. cbn. rewrite Hs1. cbn.
    rewrite (bool_decide_eq_false_2 (cr_id c = cr_id fresh)) by congruence. by rewrite orb_true_r.
  - split; [done|]. split; [done|]. congruence.
Qed.


(** A run that returns has closed the deployment. *)
Definition closed (j : Journal) (_ : unit) : Prop := is_Some (j_closed j).

Lemma finish_rollback_safe j record request old_id old loaded c0 fresh :
  in_flight j record -> j_outstanding j = false -> j_rollback_seen j = true ->
  j_active j = Some (Some old_id) -> j_rollback_marked j = Some (cr_id fresh) ->
  j_candidate_seen j = Some (cr_id fresh) -> cr_id c0 <> cr_id fresh ->
  esafe (dp_id record) (finish_rollback record request old_id old loaded c0) j (post closed).
Proof.
  intros Hf Hout Hseen Ha Hm Hcs Hne. pose proof Hf as [Hr He Hp Hq Hk Hz]. unfold finish_rollback. step.
  apply or_attention_safe. eapply safe_mono; [apply verify_safe|].
  intros j' [health|] [-> _]; [|done].
  eapply safe_use; [by apply observe_owned_candidate_safe|]. intros ? c (-> & Hrel & _).
  pose proof (listed_outstanding j [c] Hout) as Hout1. step. bools. step.
  unfold cleanup_pending. step. { cbn. split; [by exists record|done]. }
  step. step; [|by eexists]. cbn. do 5 (split; [done|]). split; [exact Hout1|].
  exists c, old_id, (cr_id fresh). cbn. repeat split; try done. congruence.
Qed.

Lemma rollback_or_fail_safe j record request :
  in_flight j record -> j_rollback_marked j = None ->
  j_candidate_seen j = Some (cr_id (cq_container request)) ->
  esafe (dp_id record) (rollback_or_fail apps_directory record request) j (post closed).
Proof.
  intros Hf Hrm Hseen. pose proof Hf as [Hr He Hp Hq Hk Hz]. unfold rollback_or_fail. do 2 step.
  destruct (cq_active request) as [old_id|].
  - eapply safe_use; [apply prepare_rollback_safe; [by split|done|done]|].
    intros j1 [[[old loaded] binds] fresh] (Hf1 & Hl1 & Hm1 & Hs1 & Ha1).
    eapply safe_use; [by apply apply_rollback_safe|].
    intros j2 c (Hf2 & Ho2 & Hrs2 & Ha2 & Hm2 & Hs2 & Hne).
    by eapply finish_rollback_safe.
  - eapply safe_last; [by apply remove_candidate_safe; split|done].
Qed.


(** Programs that neither remove the pending link nor commit leave the journal
    saying so. *)
Definition keeps_pending (X : Type) (e : ev X) : Prop :=
  match e with RemoveReleaseLinkIf _ _ _ | FinalizeActive _ _ _ _ _ _ => False | _ => True end.

Lemma keeps_pending_safe d {A} (p : engine A) j Q :
  calls_only keeps_pending p -> esafe d p j Q ->
  esafe d p j (fun j' r => Q j' r /\ j_pending_removed j' = j_pending_removed j
                             /\ j_finalized j' = j_finalized j).
Proof.
  revert j. induction p as [a|X e k IH|]; intros j; [by simpl|intros [He Hk] [Hpre Hs]|done].
  split; [done|]. intros x Hx. eapply safe_mono; [apply IH; [apply Hk|by apply Hs]|].
  intros j' r (HQ & Hj' & Hz'). split; [done|]. rewrite Hj', Hz'. clear -He.
  destruct e; cbn in He |- *; unfold note_compose; repeat case_match; try done.
Qed.

Lemma preflight_keeps app_id release id : calls_only keeps_pending (preflight app_id release id).
Proof.
  split; [done|]. intros [metadata|]; [|done]. split; [done|]. intros [[|c [|]]|]; cbn; try done.
  - by case_match.
  - case_match; [|done]. unfold guard. cbn. by case_match.
Qed.

Lemma restore_predecessor_safe j record predecessor binds :
  in_flight j record -> j_outstanding j = false ->
  (is_Some predecessor -> predecessor_alone j) ->
  esafe (dp_id record) (restore_predecessor apps_directory record predecessor binds) j
    (post (fun j' _ => in_flight j' record /\ j_outstanding j' = false)).
Proof.
  intros Hf Hout Halone. pose proof Hf as [Hr He Hp Hq Hk Hz]. unfold restore_predecessor.
  destruct predecessor as [p|]; [|by step]. case_bool_decide; [by step|]. do 2 step.
  eapply safe_use; [by apply load_config_safe|]. intros ? loaded ->.
  eapply safe_use; [by apply stop_to_start_guard_safe|]. intros ? _ ->.
  eapply safe_use; [by apply context_safe|]. intros ? start_context [-> Hc].
  step; [by eapply (compose_allowed_intro _ record); [split| |split; [|apply Halone]]|].
  apply or_attention_safe.
  eapply safe_mono; [apply keeps_pending_safe; [apply preflight_keeps|by apply preflight_safe]|].
  intros j' [found|e] (Hpost & Hkeep & Hkeep'); [|by rewrite Hkeep, Hkeep'].
  destruct Hpost as (l & -> & -> & _ & c & -> & _). step. unfold guard. destruct (negb _); step.
  split; [by split|]. by apply listed_outstanding.
Qed.


(** *** The stages of a run *)

(** Before any effect of this run. *)
Record scheduled (j : Journal) (record : DeploymentRecord) : Prop := {
  sc_record : j_record j = Some record;
  sc_unmarked : j_effect_marked j = false;
  sc_pending : j_pending_removed j = false;
  sc_outstanding : j_outstanding j = false;
  sc_rollback : j_rollback_marked j = None;
  sc_finalized : j_finalized j = false;
}.

Lemma scheduled_listed j record l : scheduled j record -> scheduled (listed j l) record.
Proof. intros []. split; try done. by apply listed_outstanding. Qed.

(** The journal once the effect is announced and its inputs validated. *)
Record prepared (j : Journal) (record : DeploymentRecord) : Prop := {
  pr_flight : in_flight j record;
  pr_outstanding : j_outstanding j = false;
  pr_rollback : j_rollback_marked j = None;
}.

Lemma prepare_apply_safe j record active candidate_id release :
  scheduled j record ->
  esafe (dp_id record) (prepare_apply (dp_id record) record active candidate_id release) j
    (post (fun j' '(predecessor, _, _) =>
       prepared j' record /\ cr_id <$> predecessor = dp_expected_actual_container_id record
       /\ exists found, j_containers j' = Some (option_list found)
          /\ cr_id <$> found = dp_expected_actual_container_id record
          /\ match dp_expected_actual_release_id record with
             | Some _ => is_Some found | None => found = None end)).
Proof.
  intros [Hr Hm Hp Ho Hrm Hz]. unfold prepare_apply. step.
  eapply safe_use; [by apply schedule_predecessor_safe|].
  intros ? predecessor (l & -> & -> & Hid & Hrel). step.
  apply (safe_forget _ (fun j1 => prepared j1 record)).
  { split; [split; try done; cbn|apply (listed_outstanding j); done|done].
    intros Hn. rewrite Hn in Hid. destruct (dp_expected_actual_release_id record); [|done].
    by destruct Hrel as (c & -> & _). }
  clear dependent j. intros j [Hf Ho Hrm]. pose proof Hf as [Hr He Hp Hq Hk Hz].
  eapply safe_use; [by apply verify_release_links_safe|]. intros ? _ ->.
  eapply safe_use; [by apply reload_release_safe|]. intros ? final_release [-> ->].
  eapply safe_use; [by apply load_config_safe|]. intros ? loaded ->.
  eapply safe_use; [by apply validate_runtime_paths_fresh_safe|]. intros ? binds ->. step.
  eapply safe_use; [by apply schedule_predecessor_safe|].
  intros ? found (l & -> & -> & Hid' & Hrel'). pose proof (listed_outstanding j (option_list found) Ho) as Ho'.
  do 2 step. eapply safe_use; [apply revalidate_binds_safe; try done; by stably|]. intros ? _ ->.
  eapply safe_use; [apply ensure_platform_network_safe; try done; by stably|]. intros ? _ ->. step.
  split; [by split; [split| |]|]. split; [done|]. exists found. split; [done|]. split; [done|].
  destruct (dp_expected_actual_release_id record); [|done]. by destruct Hrel' as (c & -> & _).
Qed.


Lemma stop_predecessor_safe j record found :
  prepared j record -> j_containers j = Some (option_list found) ->
  cr_id <$> found = dp_expected_actual_container_id record ->
  match dp_expected_actual_release_id record with Some _ => is_Some found | None => found = None end ->
  esafe (dp_id record) (stop_predecessor apps_directory record) j
    (post (fun j' _ => prepared j' record /\ writers_stopped j')).
Proof.
  intros Hpre Hl Hid Hfound. pose proof Hpre as [Hf Ho Hrm].
  unfold stop_predecessor. destruct (dp_expected_actual_release_id record) as [release|] eqn:Hrel.
  2:{ subst. step. split; [done|]. exists []. by rewrite Hl. }
  destruct Hfound as [c ->]. cbn in Hid, Hl. pose proof Hf as [Hr He Hp Hq Hk Hz].
  eapply safe_use; [by apply context_safe|]. intros ? c0 [-> Hc]. step.
  eapply safe_use; [by apply load_config_safe|]. intros ? loaded ->.
  eapply safe_use; [by apply validate_runtime_paths_fresh_safe|]. intros ? binds ->. step.
  { eapply (compose_allowed_intro _ record); [by split|done|]. exists c. cbn. by rewrite Hrm, Hq. }
  destruct x0; cbn [is_ok negb]; [|by step].
  eapply safe_use; [by apply schedule_predecessor_safe|].
  intros ? stopped (l & -> & -> & _ & Hs). rewrite Hrel in Hs. destruct Hs as (c1 & -> & _).
  step. bools. match goal with H : is_some_and _ _ = true |- _ => cbn in H end. bools. step. split.
  - split; [by split|by apply (listed_outstanding j)|done].
  - exists [c1]. split; [done|]. by apply Forall_singleton.
Qed.

Lemma handle_failed_apply_safe j record active candidate_id predecessor binds error :
  in_flight j record -> j_rollback_marked j = None ->
  cr_id <$> predecessor = dp_expected_actual_container_id record ->
  esafe (dp_id record)
    (handle_failed_apply apps_directory (dp_id record) record active candidate_id predecessor binds error) j
    (post closed).
Proof.
  intros Hf Hrm Hid. pose proof Hf as [Hr He Hp Hq Hk Hz]. unfold handle_failed_apply.
  case_bool_decide; [by step|].
  eapply safe_use; [by apply observe_failed_apply_safe|]. intros ? [|c] (l & -> & Hobs).
  - destruct Hobs as [Hobs Halone].
    eapply safe_use; [apply restore_predecessor_safe; [by split|cbn; by rewrite Hobs|]|].
    { intros [p ->]. apply Halone. rewrite <- Hid. by eexists. }
    intros j' [] [[Hr' He' Hp' Hq' Hk' Hz'] Ho']. destruct error; try by step.
    all: unfold cleanup_pending; step; [cbn; split; [by exists record|done]|]; by step; stably.
  - step. apply rollback_or_fail_safe; [by split|done|done].
Qed.

Lemma commit_candidate_safe j record active candidate_id release loaded candidate health :
  in_flight j record -> j_rollback_marked j = None -> j_candidate_seen j = Some (cr_id candidate) ->
  ready_state (hr_verified_container health) (cm_health loaded) ->
  esafe (dp_id record)
    (commit_candidate apps_directory (dp_id record) record active candidate_id release loaded candidate
       health) j (post closed).
Proof.
  intros Hf Hrm Hseen Hready. pose proof Hf as [Hr He Hp Hq Hk Hz]. unfold commit_candidate. do 2 step.
  eapply safe_use; [by apply verify_release_links_safe|]. intros ? _ ->.
  eapply safe_use; [by apply observe_owned_candidate_safe|]. intros ? c (-> & Hrel & _). step. bools.
  destruct (if negb _ then _ else _) as [[]|error] eqn:Hcheck.
  - destruct (negb (candidate_matches_release c release)) eqn:Hmatch; [done|]. step.
    step; [|do 2 step; by eexists]. cbn. split; [by exists record|]. split; [done|]. left.
    exists c, (cm_health loaded), health. cbn. rewrite Hseen.
    repeat (split; [done || congruence|]). done.
  - apply rollback_or_fail_safe; [by split|done|]. cbn. congruence.
Qed.


Lemma verify_candidate_safe j record active candidate_id release loaded predecessor :
  in_flight j record -> j_rollback_marked j = None ->
  esafe (dp_id record)
    (verify_candidate apps_directory (dp_id record) record active candidate_id release loaded
       predecessor) j (post closed).
Proof.
  intros Hf Hrm. pose proof Hf as [Hr He Hp Hq Hk Hz]. unfold verify_candidate.
  eapply safe_use; [by apply observe_owned_candidate_safe|]. intros ? c (-> & Hrel & _). step.
  destruct (negb _); [apply rollback_or_fail_safe; [by split|done|done]|]. do 2 step.
  apply safe_bind. eapply safe_mono; [apply verify_safe|]. intros j' [health|error] [-> Hready].
  - apply commit_candidate_safe; [by split|done|done|done].
  - destruct error; try (by step); (apply rollback_or_fail_safe; [by split|done|done]).
Qed.

Lemma apply_candidate_safe j record active candidate_id release :
  scheduled j record ->
  esafe (dp_id record)
    (apply_candidate apps_directory (dp_id record) record active candidate_id release) j (post closed).
Proof.
  intros Hs. unfold apply_candidate. eapply safe_use; [by apply prepare_apply_safe|].
  intros j1 [[predecessor loaded] binds] (Hp1 & Hid & found & Hl & Hid' & Hfound).
  eapply safe_use; [by eapply stop_predecessor_safe|]. intros j2 pbinds [[Hf2 Ho2 Hrm2] Hw2].
  pose proof Hf2 as [Hr He Hp Hq Hk Hz].
  eapply safe_use; [by apply stop_to_start_guard_safe; [| |stably|stably]|]. intros ? _ ->.
  eapply safe_use; [by apply context_safe|]. intros ? c [-> Hc]. step.
  { eapply (compose_allowed_intro _ record); [by split|done|exact Hw2]. }
  destruct x as [[]|error].
  - apply verify_candidate_safe; [by split|done].
  - apply handle_failed_apply_safe; [by split|done|done].
Qed.

Lemma pull_candidate_safe j record resolved candidate_id release :
  scheduled j record ->
  esafe (dp_id record) (pull_candidate (dp_id record) record resolved candidate_id release) j
    (post (fun j' _ => scheduled j' record)).
Proof.
  intros [Hr Hm Hp Ho Hrm Hz]. unfold pull_candidate. step.
  eapply (safe_use _ _ _ _ (fun j' _ => scheduled j' record)).
  { destruct (_ ≠? _); repeat step; try (by split); by exists record. }
  clear dependent j. intros j [] [Hr Hm Hp Ho Hrm Hz]. do 3 step.
  eapply safe_use; [by apply load_credential_ref_safe; stably|]. intros ? credential ->. step.
  match goal with x : result PullError unit |- _ => destruct x as [[]|error] end; [by step; split|].
  assert (Hfail : forall code, esafe (dp_id record) (if is_some (dp_expected_pending_release_id record)
     then fail (NeedsAttention code) else cleanup_pending (dp_app_id record) candidate_id ;;; fail (Stable code))
     j (post (fun j' (_ : unit) => scheduled j' record))).
  { intros code. destruct (is_some _); [by step|]. unfold cleanup_pending.
    step; [cbn; split; [by exists record|done]|]. by step; stably. }
  destruct error; try apply Hfail; by step.
Qed.


Lemma no_op_runtime_converged_safe j record active release :
  scheduled j record ->
  esafe (dp_id record) (no_op_runtime_converged record active release) j
    (post (fun j' converged => scheduled j' record /\
       (converged = true -> exists c, j_containers j' = Some [c] /\ carries_release c active))).
Proof.
  intros Hs. pose proof Hs as [Hr Hm Hp Ho Hrm Hz]. unfold no_op_runtime_converged.
  case_bool_decide as Hrel; cbn [negb]; [|by step].
  eapply safe_use; [by apply schedule_predecessor_safe|]. intros ? found (l & -> & -> & _ & Hfound).
  pose proof (scheduled_listed _ _ (option_list found) Hs) as Hs'. pose proof Hs' as [_ _ _ Ho' _ _].
  rewrite Hrel in Hfound. destruct Hfound as (c & -> & Hc). destruct (negb _); [by step|].
  eapply safe_use; [by apply load_config_safe; try stably|]. intros ? loaded ->. step.
Qed.

Lemma publish_candidate_safe j record metadata active resolved res trigger :
  scheduled j record ->
  esafe (dp_id record) (publish_candidate record metadata active resolved res trigger) j
    (post (fun j' _ => scheduled j' record)).
Proof. intros [Hr Hm Hp Ho Hrm Hz]. unfold publish_candidate. do 5 step. by split. Qed.

Lemma reuse_release_safe j record release_id predecessor release res :
  scheduled j record ->
  esafe (dp_id record) (reuse_release record release_id predecessor release res) j
    (post (fun j' _ => scheduled j' record)).
Proof. intros [Hr Hm Hp Ho Hrm Hz]. unfold reuse_release. do 3 step. by split. Qed.

Lemma manual_no_op_safe j record metadata active resolved :
  scheduled j record ->
  esafe (dp_id record) (manual_no_op record metadata active resolved) j
    (post (fun j' no_op => scheduled j' record /\ match no_op with
       | Some (active_id, _) => active = Some active_id
           /\ exists c, j_containers j' = Some [c] /\ carries_release c active_id
       | None => True end)).
Proof.
  intros Hs. unfold manual_no_op. destruct active as [active_id|]; [|by step].
  step. destruct x as [old|]; [|by step]. destruct (_ && _); [|by step].
  eapply safe_use; [by apply no_op_runtime_converged_safe|]. intros j' [] [Hs' Hc]; step.
Qed.

Lemma resolve_manual_safe j record metadata active :
  scheduled j record ->
  esafe (dp_id record) (resolve_manual record metadata active) j
    (post (fun j' _ => scheduled j' record)).
Proof.
  intros Hs. pose proof Hs as [Hr Hm Hp Ho Hrm Hz]. unfold resolve_manual. do 6 step.
  eapply safe_use; [by apply load_credential_ref_safe; stably|]. intros ? credential ->. step.
  eapply safe_use; [by apply manual_no_op_safe|]. intros j' [[active_id old]|] [Hs' Hno].
  - clear dependent j. pose proof Hs' as [Hr Hm Hp Ho Hrm Hz]. destruct Hno as (-> & c & Hl & Hc).
    eapply safe_use; [by apply load_config_safe; try stably|]. intros ? loaded ->. step. step.
    { cbn. split; [by exists record|]. split; [done|]. right. split; [done|]. split; [done|]. by exists c. }
    step. by eexists.
  - by apply publish_candidate_safe.
Qed.

Lemma scheduled_image_stable record metadata e :
  scheduled_image record metadata = Err e -> exists code, e = Stable code.
Proof.
  unfold scheduled_image. intros H.
  repeat (apply bind_err_inv in H as [H|(? & _ & H)];
    [first [ unfold refuse_if in H; case_match; simplify_eq; by eexists
           | unfold ok_or in H; case_match; simplify_eq; by eexists
           | unfold map_err in H; case_match; simplify_eq; by eexists ]|]).
  done.
Qed.

Lemma resolve_poll_safe j record metadata active :
  scheduled j record ->
  esafe (dp_id record) (resolve_poll record metadata active) j (post (fun j' _ => scheduled j' record)).
Proof.
  intros Hs. pose proof Hs as [Hr Hm Hp Ho Hrm Hz]. unfold resolve_poll. step.
  { apply (scheduled_image_stable record metadata) in H as [code ->]. by stably. }
  eapply (safe_use _ _ _ _ (fun j' _ => scheduled j' record)).
  - unfold poll_no_op. destruct active as [active_id|]; [|by step]. step. destruct x as [old|]; [|by step].
    repeat case_match; try by step. by eapply safe_last; [by apply no_op_runtime_converged_safe|intros ? ? [? _]].
  - clear dependent j. intros j [] Hs; [|by apply publish_candidate_safe].
    pose proof Hs as [Hr Hm Hp Ho Hrm Hz]. step. by eexists.
Qed.


Lemma resume_pending_safe j record pending :
  scheduled j record ->
  esafe (dp_id record) (resume_pending record pending) j (post (fun j' _ => scheduled j' record)).
Proof.
  intros Hs. pose proof Hs as [Hr Hm Hp Ho Hrm Hz]. unfold resume_pending. do 2 step.
  by apply reuse_release_safe.
Qed.

Lemma unless_terminal_safe d {A} (p : engine A) j P :
  esafe d p j (post P) ->
  esafe d (unless_terminal p) j
    (post (fun j' found => match found with Some a => P j' a | None => is_Some (j_closed j') end)).
Proof.
  intros Hp. unfold unless_terminal. apply safe_bind. eapply safe_mono; [exact Hp|].
  by intros j' [a|[]]; try done; intros [].
Qed.

Lemma resolve_candidate_safe j record metadata active :
  scheduled j record ->
  esafe (dp_id record) (resolve_candidate record metadata active) j
    (post (fun j' found => match found with
       | Some _ => scheduled j' record
       | None => is_Some (j_closed j') end)).
Proof.
  intros Hs. pose proof Hs as [Hr Hm Hp Ho Hrm Hz]. unfold resolve_candidate. destruct (dp_trigger record).
  - apply unless_terminal_safe. destruct (dp_expected_pending_release_id record);
      [by apply resume_pending_safe|by apply resolve_manual_safe].
  - eapply (safe_use _ _ _ _ (fun j' _ => scheduled j' record)); [|intros j' v Hs'; by step].
    unfold resolve_rollback. do 2 step. by apply reuse_release_safe.
  - apply unless_terminal_safe. destruct (dp_expected_pending_release_id record);
      [|by apply resolve_poll_safe]. unfold resume_poll_pending.
    eapply safe_use; [by apply resume_pending_safe|]. intros j' v [Hr' Hm' Hp' Ho' Hrm' Hz'].
    do 2 step. by split.
Qed.

Lemma begin_run_safe d :
  esafe d (begin_run d) empty_journal
    (post (fun j' '(record, _, _) => scheduled j' record /\ dp_id record = d)).
Proof.
  unfold begin_run. step. step; [by subst|]. subst x. assert (Hd : dp_id a = d) by (by apply H). do 3 step.
  step. step. step.
  eapply safe_use; [by apply schedule_predecessor_safe|]. intros j' found (l & -> & _). step.
  split; [|done]. apply scheduled_listed. by split.
Qed.

Lemma run_safe d : esafe d (run apps_directory d) empty_journal (post closed).
Proof.
  unfold run. eapply safe_use; [apply begin_run_safe|].
  intros j [[record metadata] active] [Hs Hd]. subst d.
  eapply safe_use; [by apply resolve_candidate_safe|].
  intros j1 [[[resolved candidate_id] release]|]; [intros Hs1|intros Hc; by step].
  eapply safe_use; [by apply pull_candidate_safe|]. intros j2 [] Hs2. by apply apply_candidate_safe.
Qed.

(** The task as a whole: the terminal error is recorded under the protocol too,
    and a terminal status is always at least attempted. *)
Lemma spawn_safe d :
  safe note (allowed apps_directory d) own_record True (spawn apps_directory d) empty_journal
    (fun _ _ => True).
Proof.
  unfold spawn. apply safe_bind. eapply safe_mono; [apply run_safe|]. intros j [[]|e] Hpost.
  - by split.
  - split; [done|]. intros [] _. cbn [note prog_bind]. unfold record_terminal_error.
    destruct (terminal_of e) as [status code] eqn:Ht. cbn [prog_bind]. split; [|by repeat split].
    destruct e as [c|c| | |]; cbn in Ht, Hpost |- *; simplify_eq; cbn; repeat split; try done; try (by left);
      try (by destruct Hpost); try (by right); try (right; split; by destruct Hpost).
    destruct Hpost as [_ []]; [by left|right; by eexists].
Qed.

End safety.

(** ** Starts

    Which configuration the checks before a start were made with is stated on
    the calls themselves: every call of the task so far, and those since the
    last Compose command. *)

Record Calls := MkCalls {
  cl_all : list (obs ev);
  cl_recent : list (obs ev);
}.

Definition note_call (g : Calls) (o : obs ev) : Calls :=
  MkCalls (cl_all g ++ [o])
    match o with Obs e _ => match e with ComposeRun _ _ => [] | _ => cl_recent g ++ [o] end end.

Section starts.
Context {UT : UuidText} (apps_directory : string).

(** The release named by the Compose file was read, its configuration loaded,
    and since the last Compose command that configuration's bind sources were
    resolved, each found to be the same object again, and found free of
    conflicts with every other application. *)
Definition binds_checked (g : Calls) (c : RunContext) : Prop :=
  exists app release_id release key config root binds,
    rc_compose_file c = release_compose_path apps_directory app release_id
    /\ Obs (LoadV2Release app release_id) (Ok release) ∈ cl_all g
    /\ Obs (LoadVerified app (rl_config_revision release) key) (Ok config) ∈ cl_all g
    /\ Obs (ValidateRuntimePaths config root) (Ok binds) ∈ cl_recent g
    /\ (forall b, b ∈ binds -> Obs (RevalidateBindIdentity b) (Ok tt) ∈ cl_recent g)
    /\ Obs (ValidateBindPlan app config) (Ok tt) ∈ cl_recent g.

Definition start_allowed (X : Type) (g : Calls) (e : ev X) : Prop :=
  match e with
  | ComposeRun action c => action <> CaStop -> action <> CaRemove -> binds_checked g c
  | _ => True
  end.

Abbreviation ssafe := (safe note_call start_allowed (fun _ _ _ _ => True) True).

Definition gives {A} (P : Calls -> A -> Prop) (g : Calls) (r : result EngineError A) : Prop :=
  match r with Ok a => P g a | Err _ => True end.

Lemma gives_then {A B} (p : engine A) (f : A -> engine B) g P Q :
  ssafe p g (gives P) -> (forall g' a, P g' a -> ssafe (f a) g' (gives Q)) ->
  ssafe (ebind p f) g (gives Q).
Proof. intros Hp Hf. by eapply safe_ebind_use; [exact Hp|exact Hf|]. Qed.

Lemma gives_weaken {A} (p : engine A) g (P Q : Calls -> A -> Prop) :
  ssafe p g (gives P) -> (forall g' a, P g' a -> Q g' a) -> ssafe p g (gives Q).
Proof. intros Hp HQ. eapply safe_mono; [exact Hp|]. intros g' [a|e]; simpl; auto. Qed.

(** *** Programs without Compose commands, and without starts *)

Definition quiet (X : Type) (e : ev X) : Prop := match e with ComposeRun _ _ => False | _ => True end.
Definition starts_nothing (X : Type) (e : ev X) : Prop :=
  match e with ComposeRun action _ => action = CaStop \/ action = CaRemove | _ => True end.

Definition grows (g g' : Calls) : Prop := cl_all g ⊆ cl_all g'.
Definition extends (g g' : Calls) : Prop := grows g g' /\ cl_recent g ⊆ cl_recent g'.

#[local] Instance extends_preorder : PreOrder extends.
Proof.
  unfold extends, grows. split; [intros g; by split|]. intros g1 g2 g3 [] []. split; set_solver.
Qed.
#[local] Instance grows_preorder : PreOrder grows.
Proof. unfold grows. split; [by intros g|]. intros g1 g2 g3. set_solver. Qed.

Lemma note_call_grows g o : grows g (note_call g o).
Proof. unfold grows. cbn. set_solver. Qed.

Lemma note_call_extends {X} g (e : ev X) x : quiet X e -> extends g (note_call g (Obs e x)).
Proof. intros He. split; [apply note_call_grows|]. destruct e; cbn in *; set_solver. Qed.

Lemma quiet_safe {A} (p : prog ev A) g : calls_only quiet p -> ssafe p g (fun g' _ => extends g g').
Proof.
  revert g. induction p as [a|X e k IH|]; intros g; [by simpl|intros [He Hk]|done].
  split; [by destruct e|]. intros x _. eapply safe_mono; [by apply IH|]. intros g' a Hg. simpl.
  trans (note_call g (Obs e x)); [by apply note_call_extends|done].
Qed.

Lemma starts_nothing_safe {A} (p : prog ev A) g :
  calls_only starts_nothing p -> ssafe p g (fun g' _ => grows g g').
Proof.
  revert g. induction p as [a|X e k IH|]; intros g; [by simpl|intros [He Hk]|done].
  split; [destruct e; try done; cbn; intros; by destruct He|]. intros x _. eapply safe_mono; [by apply IH|].
  intros g' a Hg. simpl. trans (note_call g (Obs e x)); [apply note_call_grows|done].
Qed.

Lemma quiet_bind {A B} (p : engine A) (f : A -> engine B) g Q :
  calls_only quiet p -> (forall g' a, extends g g' -> ssafe (f a) g' (gives Q)) ->
  ssafe (ebind p f) g (gives Q).
Proof.
  intros Hp Hf. eapply safe_ebind_use; [by apply quiet_safe|simpl; intros; by apply Hf|done].
Qed.

Lemma calls_only_ebind (P : forall X, ev X -> Prop) {A B} (p : engine A) (f : A -> engine B) :
  calls_only P p -> (forall a, calls_only P (f a)) -> calls_only P (ebind p f).
Proof. intros Hp Hf. apply calls_only_bind; [done|]. by intros [a|]. Qed.

Lemma calls_only_mono (P P' : forall X, ev X -> Prop) {A} (p : prog ev A) :
  (forall X (e : ev X), P X e -> P' X e) -> calls_only P p -> calls_only P' p.
Proof. intros HP. induction p as [a|X e k IH|]; cbn; [done| |done]. intros []. auto. Qed.

Lemma verify_quiet container_id release_id image_ref identity policy deadline :
  calls_only quiet (verify container_id release_id image_ref identity policy deadline).
Proof. eapply calls_only_mono; [|apply verify_observes]. by intros X []. Qed.

Lemma revalidate_binds_quiet error binds : calls_only quiet (revalidate_binds error binds).
Proof.
  unfold revalidate_binds. induction binds as [|b binds IH]; [done|].
  cbn [each]. by apply calls_only_ebind.
Qed.

Lemma quiet_starts_nothing {A} (p : prog ev A) : calls_only quiet p -> calls_only starts_nothing p.
Proof. apply calls_only_mono. by intros X []. Qed.

Ltac head_of p := lazymatch p with ?f _ => head_of f | _ => p end.

(** Decides [calls_only] by following the program. *)
Ltac follow :=
  repeat match goal with
  | |- calls_only _ (ebind _ _) => apply calls_only_ebind; [|intros ?]
  | |- calls_only _ (prog_bind _ _) => apply calls_only_bind; [|intros ?]
  | |- calls_only _ (match ?x with _ => _ end) => destruct x
  | |- calls_only _ (verify _ _ _ _ _ _) => first [apply verify_quiet|apply quiet_starts_nothing, verify_quiet]
  | |- calls_only _ (revalidate_binds _ _) =>
      first [apply revalidate_binds_quiet|apply quiet_starts_nothing, revalidate_binds_quiet]
  | |- _ => solve [exact I | repeat split; cbn; auto]
  | |- calls_only _ ?p => let h := head_of p in unfold h
  end.

(** *** What the checks leave behind *)

(** The configuration of a release, as this task read it. *)
Definition known (g : Calls) (app release_id : Uuid) (config : ConfigMetadata) : Prop :=
  exists release key,
    Obs (LoadV2Release app release_id) (Ok release) ∈ cl_all g
    /\ Obs (LoadVerified app (rl_config_revision release) key) (Ok config) ∈ cl_all g.

Definition checked (g : Calls) (app : Uuid) (config : ConfigMetadata) : Prop :=
  exists root binds,
    Obs (ValidateRuntimePaths config root) (Ok binds) ∈ cl_recent g
    /\ (forall b, b ∈ binds -> Obs (RevalidateBindIdentity b) (Ok tt) ∈ cl_recent g)
    /\ Obs (ValidateBindPlan app config) (Ok tt) ∈ cl_recent g.

Lemma known_grows g g' app release_id config :
  known g app release_id config -> grows g g' -> known g' app release_id config.
Proof. intros (release & key & H1 & H2) Hg. exists release, key. split; by apply Hg. Qed.

Lemma checked_extends g g' app config : checked g app config -> extends g g' -> checked g' app config.
Proof.
  intros (root & binds & H1 & H2 & H3) [_ Hg]. exists root, binds.
  split; [by apply Hg|]. split; [|by apply Hg]. intros b Hb. by apply Hg, H2.
Qed.

(** A call that succeeded is among the calls. *)
Lemma try_given {F X} (e : ev (result F X)) (f : F -> EngineError) g :
  start_allowed _ g e ->
  ssafe (try_call e f) g (gives (fun g' x => g' = note_call g (Obs e (Ok x)))).
Proof. intros He. split; [done|]. by intros [x|r] _. Qed.

Lemma load_config_given error app revision g :
  ssafe (load_config error app revision) g
    (gives (fun g' config => extends g g'
       /\ exists key, Obs (LoadVerified app revision key) (Ok config) ∈ cl_all g')).
Proof.
  unfold load_config. apply quiet_bind; [follow|]. intros g1 key Hg1.
  eapply gives_weaken; [by apply try_given|]. intros g' config ->.
  split; [trans g1; [done|by apply note_call_extends]|]. exists key. cbn. set_solver.
Qed.

Lemma revalidate_binds_given error binds g :
  ssafe (revalidate_binds error binds) g
    (gives (fun g' _ => extends g g'
       /\ forall b, b ∈ binds -> Obs (RevalidateBindIdentity b) (Ok tt) ∈ cl_recent g')).
Proof.
  unfold revalidate_binds. revert g. induction binds as [|b binds IH]; intros g; cbn [each].
  { split; [done|]. set_solver. }
  eapply gives_then; [by apply try_given|]. intros g1 [] ->. eapply gives_weaken; [apply IH|].
  intros g' [] [Hg Hb]. split; [trans (note_call g (Obs (RevalidateBindIdentity b) (Ok tt))); [by apply note_call_extends|done]|].
  intros b' [-> | Hin]%elem_of_cons; [|by apply Hb]. destruct Hg as [_ Hg]. apply Hg. cbn. set_solver.
Qed.

Lemma stop_to_start_guard_given on_change on_conflict record loaded binds g :
  ssafe (stop_to_start_guard on_change on_conflict record loaded binds) g
    (gives (fun g' _ => extends g g' /\ checked g' (dp_app_id record) loaded)).
Proof.
  unfold stop_to_start_guard, validate_runtime_paths_fresh.
  eapply (gives_then _ _ _ (fun g1 found => extends g g1 /\ exists root,
    Obs (ValidateRuntimePaths loaded root) (Ok found) ∈ cl_recent g1)).
  { apply quiet_bind; [follow|]. intros g1 probe Hg1. eapply gives_weaken; [by apply try_given|].
    intros g' found ->. split; [trans g1; [done|by apply note_call_extends]|]. exists (ps_docker_root_directory probe).
    cbn. set_solver. }
  intros g1 found (Hg1 & root & Hfound). apply quiet_bind; [follow|]. intros g2 _ Hg2.
  eapply gives_then; [apply revalidate_binds_given|]. intros g3 _ [Hg3 Hb].
  eapply gives_weaken; [by apply try_given|]. intros g' [] ->.
  pose proof (note_call_extends g3 (ValidateBindPlan (dp_app_id record) loaded) (Ok tt) I) as Hg4.
  split; [trans g1; [done|]; trans g2; [done|]; by trans g3|].
  exists root, found. split; [apply Hg4, Hg3, Hg2, Hfound|]. split; [intros b Hin; by apply Hg4, Hb|].
  cbn. set_solver.
Qed.

Lemma context_given app release g :
  ssafe (context apps_directory app release) g
    (gives (fun g' c => extends g g' /\ rc_compose_file c = release_compose_path apps_directory app release)).
Proof.
  unfold context, release_run_context. apply quiet_bind; [follow|]. intros g1 metadata Hg1.
  apply quiet_bind; [follow|]. intros g2 loaded Hg2. split; [by trans g1|done].
Qed.

(** The checks and then the context make a start acceptable. *)
Lemma binds_checked_intro g app release config c :
  known g app release config -> checked g app config ->
  rc_compose_file c = release_compose_path apps_directory app release -> binds_checked g c.
Proof.
  intros (r & key & H1 & H2) (root & binds & H3 & H4 & H5) Hc.
  by exists app, release, r, key, config, root, binds.
Qed.

(** The guard, the context and the start that follows. *)
Lemma guarded_start {B} on_change on_conflict record loaded binds release (k : RunContext -> engine B) g Q :
  known g (dp_app_id record) release loaded ->
  (forall g' c, binds_checked g' c -> ssafe (k c) g' (gives Q)) ->
  ssafe (stop_to_start_guard on_change on_conflict record loaded binds ;;;
         c <- context apps_directory (dp_app_id record) release ;; k c) g (gives Q).
Proof.
  intros Hk Hrest. eapply gives_then; [apply stop_to_start_guard_given|]. intros g1 _ [Hg1 Hc].
  eapply gives_then; [apply context_given|]. intros g2 c [Hg2 Hfile]. apply Hrest.
  eapply binds_checked_intro; [eapply known_grows; [exact Hk|]|by eapply checked_extends|done].
  trans g1; [apply Hg1|apply Hg2].
Qed.

(** A quiet program at the end of another. *)
Lemma quiet_last {A} (p : engine A) g : calls_only quiet p -> ssafe p g (gives (fun _ _ => True)).
Proof. intros Hp. eapply safe_mono; [by apply quiet_safe|]. by intros g' []. Qed.

Lemma known_bind {A B} (p : engine A) (f : A -> engine B) g app release config Q :
  known g app release config -> calls_only starts_nothing p ->
  (forall g' a, known g' app release config -> ssafe (f a) g' (gives Q)) ->
  ssafe (ebind p f) g (gives Q).
Proof.
  intros Hk Hp Hf. eapply safe_ebind_use; [by apply starts_nothing_safe| |done].
  simpl. intros g' a Hg. apply Hf. by eapply known_grows.
Qed.

(** Passes a call that starts nothing. *)
Ltac pass := eapply known_bind; [eassumption|follow|intros ? ? ?].

(** *** The stages of a run *)

Lemma restore_predecessor_given record predecessor binds g :
  ssafe (restore_predecessor apps_directory record predecessor binds) g (gives (fun _ _ => True)).
Proof.
  unfold restore_predecessor. destruct predecessor as [p|]; [|done]. case_bool_decide; [done|].
  apply quiet_bind; [follow|]. intros g1 release_id _.
  eapply gives_then; [by apply try_given|]. intros g2 release ->.
  eapply gives_then; [apply load_config_given|]. intros g3 loaded (Hg & key & Hloaded).
  apply (guarded_start _ _ _ _ _ release_id).
  { exists release, key. split; [|done]. apply Hg. cbn. set_solver. }
  intros g4 c Hc. eapply gives_then; [by apply try_given; intros _ _|]. intros g5 [] _.
  apply quiet_last. follow.
Qed.

Lemma prepare_rollback_given record request release old_id g :
  ssafe (prepare_rollback record request release old_id) g
    (gives (fun g' '(_, loaded, _, _) => known g' (dp_app_id record) old_id loaded)).
Proof.
  unfold prepare_rollback. do 6 (apply quiet_bind; [follow|]; intros ? ? _).
  eapply gives_then; [by apply try_given|]. intros g1 final_old ->.
  apply quiet_bind; [follow|]. intros g2 final_candidate Hg2. apply quiet_bind; [follow|]. intros g3 _ Hg3.
  eapply gives_then; [apply load_config_given|]. intros g4 loaded (Hg4 & key & Hloaded).
  assert (Hk : known g4 (dp_app_id record) old_id loaded).
  { exists final_old, key. split; [|done]. apply Hg4, Hg3, Hg2. cbn. set_solver. }
  clear - Hk. do 7 pass. done.
Qed.

Lemma rollback_or_fail_given record request g :
  ssafe (rollback_or_fail apps_directory record request) g (gives (fun _ _ => True)).
Proof.
  unfold rollback_or_fail. do 2 (apply quiet_bind; [follow|]; intros ? ? _).
  destruct (cq_active request) as [old_id|].
  2:{ eapply safe_mono; [apply starts_nothing_safe|by intros ? []]. follow. }
  eapply gives_then; [apply prepare_rollback_given|]. intros g1 [[[old loaded] binds] fresh] Hk.
  eapply (gives_then _ _ _ (fun _ _ => True)); [|intros; apply quiet_last; follow].
  unfold apply_rollback. do 4 pass. eapply guarded_start; [eassumption|]. intros g2 c Hc.
  eapply gives_then; [by apply try_given; intros _ _|]. intros ? [] _. apply quiet_last. follow.
Qed.

Lemma prepare_apply_given d record active candidate release g :
  ssafe (prepare_apply d record active candidate release) g
    (gives (fun g' '(_, loaded, _) => known g' (dp_app_id record) candidate loaded)).
Proof.
  unfold prepare_apply. do 4 (apply quiet_bind; [follow|]; intros ? ? _). unfold reload_release at 1.
  eapply (gives_then _ _ _ (fun g' r => Obs (LoadV2Release (dp_app_id record) candidate) (Ok r) ∈ cl_all g')).
  { eapply gives_then; [by apply try_given|]. intros g1 r ->. apply quiet_bind; [follow|]. intros g2 _ Hg.
    apply Hg. cbn. set_solver. }
  intros g1 final_release Hr.
  eapply gives_then; [apply load_config_given|]. intros g2 loaded (Hg & key & Hloaded).
  assert (Hk : known g2 (dp_app_id record) candidate loaded).
  { exists final_release, key. split; [by apply Hg|done]. }
  clear - Hk. do 7 pass. done.
Qed.

Lemma apply_candidate_given d record active candidate release g :
  ssafe (apply_candidate apps_directory d record active candidate release) g (gives (fun _ _ => True)).
Proof.
  unfold apply_candidate. eapply gives_then; [apply prepare_apply_given|].
  intros g1 [[predecessor loaded] binds] Hk. pass. eapply guarded_start; [eassumption|]. intros g2 c Hc.
  split; [by intros _ _|]. intros [[]|error] _; cbn [prog_bind].
  - unfold verify_candidate. do 2 (apply quiet_bind; [follow|]; intros ? ? _).
    destruct (negb _); [apply rollback_or_fail_given|]. do 2 (apply quiet_bind; [follow|]; intros ? ? _).
    apply safe_bind. eapply safe_mono; [apply quiet_safe; follow|]. intros g3 [health|[]] _;
      try apply rollback_or_fail_given; try done.
    unfold commit_candidate. do 5 (apply quiet_bind; [follow|]; intros ? ? _).
    destruct (if negb _ then _ else _); [apply quiet_last; follow|apply rollback_or_fail_given].
  - unfold handle_failed_apply. case_bool_decide; [done|]. apply quiet_bind; [follow|]. intros g3 [|found] _.
    + eapply gives_then; [apply restore_predecessor_given|]. intros g4 _ _. apply quiet_last. follow.
    + apply quiet_bind; [follow|]. intros g4 _ _. apply rollback_or_fail_given.
Qed.

(** Every start of a task is preceded by the checks of its configuration. *)
Lemma spawn_starts_safe d : ssafe (spawn apps_directory d) (MkCalls [] []) (fun _ _ => True).
Proof.
  unfold spawn. apply safe_bind. eapply safe_mono; [|intros g [|e] _; eapply safe_mono; [apply quiet_safe; follow|done|apply quiet_safe; follow|done]].
  instantiate (1 := gives (fun _ _ => True)).
  unfold run. apply quiet_bind; [follow|]. intros g1 [[record metadata] active] _.
  apply quiet_bind; [follow|]. intros g2 [[[resolved candidate] release]|] _; [|done].
  apply quiet_bind; [follow|]. intros g3 _ _. apply apply_candidate_given.
Qed.

End starts.
