(* ===== verification/EngineTheorems.v ===== *)
(** * EngineTheorems: guarantees of the deployment engine

    Each theorem quantifies over every trace of a deployment task: every
    environment, every failure, every point at which the process may stop. The
    ledger's one promise used, that it answers with the record asked for, is
    [own_records]; [own_records_of_ledger] discharges it from the ledger itself,
    and [spawn_settles_ledger] composes the engine with the ledger. *)

From S2P Require Import Prelude Text Reference Models Database Ledger Health Ownership Effects Events Verifier Engine EngineSafety.

Section theorems.
Context {UT : UuidText} (apps_directory : string).

(** The journal after the calls of [tr]. *)
Definition journal (tr : list (obs ev)) : Journal := foldl note empty_journal tr.

Definition own_records (tr : list (obs ev)) : Prop := relied note own_record empty_journal tr.

(** [tr] is the calls of a run of the task so far, and [c] its last one. *)
Definition task_call (d : Uuid) (tr : list (obs ev)) (c : obs ev) : Prop :=
  exists tr2 o, trace (spawn apps_directory d) (tr ++ c :: tr2) o /\ own_records (tr ++ c :: tr2).

(** ** Lemmas *)

Lemma task_call_allowed d tr X (e : ev X) x :
  task_call d tr (Obs e x) -> allowed apps_directory d X (journal tr) e.
Proof.
  intros (tr2 & o & Ht & Hr).
  destruct (safe_sound _ _ _ _ _ _ _ _ _ (spawn_safe apps_directory d) Ht Hr) as [Hc _].
  by apply (Hc tr (Obs e x) tr2).
Qed.

Lemma own_records_prefix tr1 tr2 : own_records (tr1 ++ tr2) -> own_records tr1.
Proof.
  unfold own_records. generalize empty_journal as j. induction tr1 as [|o tr1 IH]; intros j; [done|].
  intros [Ho Hr]. split; [done|by apply IH].
Qed.

Lemma task_call_before d tr1 c1 tr2 c2 :
  task_call d (tr1 ++ c1 :: tr2) c2 -> task_call d tr1 c1.
Proof.
  intros (tr3 & o & Ht & Hr). exists (tr2 ++ c2 :: tr3), o.
  rewrite <- app_assoc in Ht, Hr. done.
Qed.

(** A fact the journal has come to hold was noted from one of the calls. *)
Lemma journal_source {A} (f : Journal -> A) `{!EqDecision A} tr :
  f (journal tr) <> f empty_journal ->
  exists tr1 o tr2, tr = tr1 ++ o :: tr2 /\ f (note (journal tr1) o) <> f (journal tr1)
    /\ f (note (journal tr1) o) = f (journal tr).
Proof.
  induction tr as [|o tr IH] using rev_ind; [done|]. unfold journal in *. rewrite foldl_app. cbn.
  intros Hne. destruct (decide (f (note (foldl note empty_journal tr) o) = f (foldl note empty_journal tr)))
    as [Heq|Hchg].
  - rewrite Heq in Hne |- *. destruct (IH Hne) as (tr1 & o' & tr2 & -> & H1 & H2).
    exists tr1, o', (tr2 ++ [o]). by rewrite <- app_assoc.
  - by exists tr, o, [].
Qed.

Lemma noted_effect_marked j o :
  j_effect_marked (note j o) <> j_effect_marked j ->
  exists id pre st, o = Obs (LedgerMarkEffectStarted id pre st) (Ok tt).
Proof.
  destruct o as [X e x]. destruct e; cbn; try done; unfold note_compose; repeat case_match; try done.
  destruct x as [[]|]; [|done]. eauto.
Qed.

Lemma noted_pending_removed j o :
  j_pending_removed (note j o) <> j_pending_removed j ->
  exists app link release, o = Obs (RemoveReleaseLinkIf app link release) (Ok tt).
Proof.
  destruct o as [X e x]. destruct e; cbn; try done; unfold note_compose; repeat case_match; try done.
  destruct x as [[]|]; [|done]. eauto.
Qed.

Lemma noted_removed_stays tr1 tr2 :
  j_pending_removed (journal tr1) = true -> j_pending_removed (journal (tr1 ++ tr2)) = true.
Proof.
  unfold journal. rewrite foldl_app. generalize (foldl note empty_journal tr1) as j.
  induction tr2 as [|o tr2 IH]; intros j Hj; [done|]. apply IH.
  destruct o as [X e x]. destruct e; cbn; try done; unfold note_compose; by repeat case_match.
Qed.

(** The calls of [tr], and those since its last Compose command. *)
Definition calls_so_far (tr : list (obs ev)) : Calls := foldl note_call (MkCalls [] []) tr.

Lemma relied_anything g tr : relied note_call (fun _ _ _ _ => True) g tr.
Proof. revert g. induction tr as [|[] ? IH]; intros g; [done|]. split; [done|apply IH]. Qed.

Lemma task_start_checked d tr action context r :
  task_call d tr (Obs (ComposeRun action context) r) -> action <> CaStop -> action <> CaRemove ->
  binds_checked apps_directory (calls_so_far tr) context.
Proof.
  intros (tr2 & o & Ht & _).
  destruct (safe_sound _ _ _ _ _ _ _ _ _ (spawn_starts_safe apps_directory d) Ht) as [Hc _].
  - apply relied_anything.
  - by apply (Hc tr (Obs (ComposeRun action context) r) tr2).
Qed.

(** ** Theorems *)

(** C2: no Compose command runs before the ledger has durably accepted the
    effect marker of this deployment, whatever happened before. *)
Theorem effects_announced_first d tr action context r :
  task_call d tr (Obs (ComposeRun action context) r) ->
  exists pre_id pre_started,
    Obs (LedgerMarkEffectStarted d pre_id pre_started) (Ok tt) ∈ tr.
Proof.
  intros Hcall. destruct (task_call_allowed _ _ _ _ _ Hcall) as [Hm _].
  destruct (journal_source j_effect_marked tr) as (tr1 & o & tr2 & -> & Hn & _); [by rewrite Hm; discriminate|].
  apply noted_effect_marked in Hn as (id & pre & st & ->).
  assert (id = d) by exact (task_call_allowed _ _ _ _ _ (task_call_before _ _ _ _ _ Hcall)). subst id.
  exists pre, st. apply elem_of_app. right. apply elem_of_cons. by left.
Qed.

(** C4: a stop or removal is only ever issued when the application has exactly
    one container and it is the one the ledger names: the recorded candidate
    once compensation began, the recorded predecessor before; a removal only
    during compensation. *)
Theorem destructive_effects_hit_recorded_container d tr action context r :
  task_call d tr (Obs (ComposeRun action context) r) -> action = CaStop \/ action = CaRemove ->
  targets_recorded (journal tr) /\ (action = CaRemove -> is_Some (j_rollback_marked (journal tr))).
Proof.
  intros Hcall. destruct (task_call_allowed _ _ _ _ _ Hcall) as (_ & _ & Ha).
  intros [-> | ->]; [by split|]. destruct Ha. by split.
Qed.

(** C6: a start names a release whose configuration this task loaded, and since
    the last Compose command the bind sources of that very configuration were
    resolved again, each found unchanged, and found free of conflicts with every
    other application. A candidate or rollback target is started only when every
    container of the application was last seen exited, the predecessor only when
    it was itself last seen as the application's one container and no applied
    release is outstanding. *)
Theorem starts_are_guarded d tr action context r :
  task_call d tr (Obs (ComposeRun action context) r) -> action <> CaStop -> action <> CaRemove ->
  (action = CaDeployCandidate \/ action = CaStart)
  /\ binds_checked apps_directory (calls_so_far tr) context
  /\ (action = CaDeployCandidate -> writers_stopped (journal tr))
  /\ (action = CaStart -> j_outstanding (journal tr) = false /\ predecessor_alone (journal tr)).
Proof.
  intros Hcall Hs Hr. pose proof (task_start_checked _ _ _ _ _ Hcall Hs Hr) as Hb.
  destruct (task_call_allowed _ _ _ _ _ Hcall) as (_ & _ & Ha).
  destruct action; try done; (split; [auto|]; split; [done|]; by split).
Qed.

(** C3: a release becomes active only on commit evidence (links as expected,
    the one container is the recorded candidate of that release, in the same
    run that passed health verification, and ready now), or as a no-op on a
    run without any effect whose one container is of the active release. *)
Theorem commit_requires_verified_candidate d tr app expected candidate desired operation now r :
  task_call d tr (Obs (FinalizeActive app expected candidate desired operation now) r) ->
  operation = d /\ own_app (journal tr) app
  /\ (commit_evidence (journal tr) expected candidate desired
      \/ no_op_evidence (journal tr) expected candidate).
Proof. intros Hcall. by destruct (task_call_allowed _ _ _ _ _ Hcall) as (? & ? & ?). Qed.


(** When a deployment ends needing attention, or interrupted for a reason
    other than an internal failure, its pending link was never removed. *)
Theorem uncertain_end_keeps_pending d tr phase status res code r :
  task_call d tr (Obs (LedgerTransition d phase status res code) r) ->
  status = StNeedsAttention \/ (status = StInterrupted /\ code <> Some "DEPLOYMENT_INTERNAL") ->
  forall app link release, Obs (RemoveReleaseLinkIf app link release) (Ok tt) ∉ tr.
Proof.
  intros Hcall Hs app link release Hin.
  assert (Hf : j_pending_removed (journal tr) = false).
  { destruct (task_call_allowed _ _ _ _ _ Hcall) as [_ Ha].
    destruct Hs as [-> | [-> Hcode]]; cbn in Ha; destruct Ha as [_ Ha]; [apply Ha|]. by destruct Ha as [[]|[]]. }
  apply list_elem_of_split in Hin as (tr1 & tr2 & ->).
  enough (j_pending_removed (journal ((tr1 ++ [Obs (RemoveReleaseLinkIf app link release) (Ok tt)]) ++ tr2)) = true)
    as Ht by (rewrite <- app_assoc in Ht; cbn in Ht; congruence).
  apply noted_removed_stays. unfold journal. by rewrite foldl_app.
Qed.

(** A deployment task touches only its own ledger row and its own
    application: every ledger statement names this deployment, and every link
    change and Compose command is for the application of its record. *)
Theorem task_stays_within_its_deployment d tr X (e : ev X) x :
  task_call d tr (Obs e x) ->
  match e with
  | LedgerGet id | LedgerTransition id _ _ _ _ | LedgerResolved id _ _ _ _ _ _ | LedgerSetHealth id _ _
  | LedgerMarkEffectStarted id _ _ | LedgerMarkEffectObserved id _ | LedgerMarkRollbackStarted id _
  | LedgerMarkRollbackObserved id _ => id = d
  | SetPending app _ | FinalizeActive app _ _ _ _ _ | RemoveReleaseLinkIf app _ _ =>
      own_app (journal tr) app
  | ComposeRun _ c => exists app, own_app (journal tr) app
                        /\ rc_project_directory c = app_directory apps_directory app
  | _ => True
  end.
Proof.
  intros Hcall%task_call_allowed. destruct e; try exact I; try exact Hcall; try apply Hcall.
  destruct Hcall as (_ & (record & Hr & Hd) & _). exists (dp_app_id record). split; [|done].
  by exists record.
Qed.

(** ** The engine and the ledger together *)

(** A failure of the database itself, not of what the ledger was asked. *)
Definition database_failure (e : LedgerError) : Prop := e = LeDb \/ e = LeSql.

(** What the ledger answers to a call, and the database after it: the outcome
    of its transaction, or a failure of the database, which leaves the database
    as it was or is only reported of a transaction that was committed. *)
Definition commits (db : Database) (op : result LedgerError Database) (x : result LedgerError unit)
    (db' : Database) : Prop :=
  match op with
  | Ok db1 => x = Ok tt /\ db' = db1
  | Err e => x = Err e /\ db' = db
  end
  \/ exists e, database_failure e /\ x = Err e /\ (db' = db \/ op = Ok db').

Section with_ledger.
(** How identifiers, policies and results are rendered into columns. *)
Context (render : Uuid -> string) (policy_text : HealthPolicy -> string) (result_text : HealthResult -> string).

Definition ledger_answer (db : Database) (o : obs ev) (db' : Database) : Prop :=
  match o with
  | Obs e x =>
      match e in ev X return X -> Prop with
      | LedgerGet id => fun x =>
          (x = Ok (get id db) \/ exists e, database_failure e /\ x = Err e) /\ db' = db
      | LedgerTransition id phase status res code => fun x =>
          exists now, commits db (transition render now id phase status res code db) x db'
      | LedgerResolved id candidate predecessor source descriptor manifest platform => fun x =>
          exists now, commits db (resolved now id candidate predecessor source descriptor manifest platform db) x db'
      | LedgerSetHealth id policy health => fun x =>
          exists now, commits db (set_health now id (policy_text policy) (result_text health) db) x db'
      | LedgerMarkEffectStarted id pre started => fun x =>
          exists now, commits db (mark_effect_started now id pre started db) x db'
      | LedgerMarkEffectObserved id post => fun x =>
          exists now, commits db (mark_effect_observed now id post db) x db'
      | LedgerMarkRollbackStarted id pre => fun x =>
          exists now, commits db (mark_rollback_started now id pre db) x db'
      | LedgerMarkRollbackObserved id post => fun x =>
          exists now, commits db (mark_rollback_observed now id post db) x db'
      | _ => fun _ => db' = db
      end x
  end.

(** The calls of a task answered by the ledger, with any transactions of other
    callers committed in between. *)
Inductive follows : Database -> list (obs ev) -> Database -> Prop :=
| follows_nil db : follows db [] db
| follows_cons db db0 o db1 tr db2 :
    rtc ledger_step db db0 -> ledger_answer db0 o db1 -> follows db1 tr db2 ->
    follows db (o :: tr) db2.

Lemma ledger_answer_step db o db' : ledger_answer db o db' -> rtc ledger_step db db'.
Proof.
  assert (Hc : forall op x, commits db op x db' -> (forall db1, op = Ok db1 -> ledger_step db db1) ->
    rtc ledger_step db db').
  { intros op x [Hc|(e & _ & _ & [-> | Hc])] Hs; [|done|by apply rtc_once, Hs].
    destruct op as [db1|e]; destruct Hc as [_ ->]; [by apply rtc_once, Hs|done]. }
  destruct o as [X e x]. destruct e; cbn [ledger_answer]; try (by intros ->); try (by intros [_ ->]);
    intros [now Hx]; (eapply Hc; [exact Hx|]); intros db1 Hop;
    first [exact (step_transition _ _ _ _ _ _ _ _ _ Hop) | exact (step_resolved _ _ _ _ _ _ _ _ _ _ Hop)
          | exact (step_set_health _ _ _ _ _ _ Hop) | exact (step_mark_effect_started _ _ _ _ _ _ Hop)
          | exact (step_mark_effect_observed _ _ _ _ _ Hop) | exact (step_mark_rollback_started _ _ _ _ _ Hop)
          | exact (step_mark_rollback_observed _ _ _ _ _ Hop)].
Qed.

Lemma rtc_ledger_wf db db' : rtc ledger_step db db' -> ledger_wf db -> ledger_wf db'.
Proof. induction 1 as [|x y z Hxy _ IH]; [done|]. intros Hx. by eapply IH, ledger_step_wf. Qed.

Lemma follows_rtc db tr db' : follows db tr db' -> rtc ledger_step db db'.
Proof.
  induction 1 as [|db db0 o db1 tr db2 Hs Ha _ IH]; [done|].
  trans db0; [done|]. trans db1; [by eapply ledger_answer_step|done].
Qed.

Lemma own_records_of_ledger db tr db' : ledger_wf db -> follows db tr db' -> own_records tr.
Proof.
  unfold own_records. generalize empty_journal as j. intros j Hwf Hf. revert j Hwf.
  induction Hf as [|db db0 o db1 tr db2 Hs Ha _ IH]; intros j Hwf; [done|].
  pose proof (rtc_ledger_wf _ _ Hs Hwf) as Hwf0.
  split; [|apply IH; by eapply rtc_ledger_wf; [eapply ledger_answer_step|]].
  destruct o as [X e x]. destruct e; try done. cbn in *.
  destruct Ha as [[-> | (e & _ & ->)] ->]; [|done].
  intros record Hrec. injection Hrec as Hrec. unfold get in Hrec.
  apply fmap_Some in Hrec as (row & Hrow & ->). by apply (lw_key _ Hwf0).
Qed.

(** A terminal transition leaves the row terminal, whether it was accepted or
    refused, unless the database failed. *)
Lemma terminal_answer_closes db d status res code x db' row :
  ledger_wf db -> is_terminal status = true -> deployments db !! d = Some row ->
  ledger_answer db (Obs (LedgerTransition d PhTerminal status res code) x) db' ->
  (exists row', deployments db' !! d = Some row' /\ nonterminal row' = false)
  \/ exists e, database_failure e /\ x = Err e.
Proof.
  intros Hwf Hs Hrow (now & [Hc|(e & He & -> & _)]); [left|by right; exists e].
  destruct (nonterminal row) eqn:Hn.
  - destruct (transition_open render now d PhTerminal status res code db row Hwf Hrow Hn)
      as (db1 & Ht & _ & Hd & _). rewrite Ht in Hc. destruct Hc as [_ ->].
    rewrite Hd, lookup_insert_eq. eexists; split; [done|]. unfold nonterminal. cbn. by rewrite Hs.
  - rewrite transition_closed in Hc by (by rewrite Hrow). destruct Hc as [_ ->]. eauto.
Qed.

Lemma noted_closed j o :
  j_closed (note j o) <> j_closed j ->
  exists id phase status res code,
    o = Obs (LedgerTransition id phase status res code) (Ok tt) /\ is_terminal status = true.
Proof.
  destruct o as [X e x]. destruct e; cbn; try done; unfold note_compose; repeat case_match; try done.
  destruct x as [[]|]; [|done]. intros _. do 5 eexists. split; [done|].
  by match goal with H : _ && _ = true |- _ => apply andb_true_iff in H as [_ H] end.
Qed.

(** A task that returns has had a terminal transition of its deployment
    accepted, or ends with the attempt to record one. *)
Lemma spawn_attempts_terminal d tr :
  trace (spawn apps_directory d) tr (Some tt) -> own_records tr ->
  exists tr1 status res code x tr2, is_terminal status = true
    /\ tr = tr1 ++ Obs (LedgerTransition d PhTerminal status res code) x :: tr2
    /\ (x = Ok tt \/ tr2 = [Obs NotifyReconcile tt; Obs NotifyRetention tt]).
Proof.
  intros Ht Hr. pose proof Ht as Hspawn.
  apply trace_bind_inv in Ht as (tr1 & tr2 & outcome & -> & Hrun & Hrest).
  destruct outcome as [[]|e].
  - destruct (safe_sound _ _ _ _ _ _ _ _ _ (run_safe apps_directory d) Hrun (own_records_prefix _ _ Hr))
      as [Hcalls Hpost].
    destruct (Hpost _ eq_refl) as [status Hclosed]. fold (journal tr1) in Hclosed.
    destruct (journal_source j_closed tr1) as (t1 & o & t2 & -> & Hn & _); [by rewrite Hclosed|].
    apply noted_closed in Hn as (id & phase & st & res & code & -> & Hst).
    destruct (Hcalls t1 _ t2 eq_refl) as [-> Ha]. rewrite Hst in Ha. destruct Ha as [-> _].
    exists t1, st, res, code, (Ok tt), (t2 ++ tr2). split; [done|]. split; [by rewrite <- app_assoc|by left].
  - cbn in Hrest. apply trace_vis_inv in Hrest as ([] & tr3 & -> & Hrest).
    unfold record_terminal_error in Hrest.
    destruct (terminal_of e) as [status code] eqn:Hst. cbn in Hrest.
    apply trace_vis_inv in Hrest as (x & tr4 & -> & Hrest).
    apply trace_vis_inv in Hrest as ([] & tr5 & -> & Hrest).
    apply trace_vis_inv in Hrest as ([] & tr6 & -> & Hrest).
    apply trace_ret_inv in Hrest as [-> _].
    exists (tr1 ++ [Obs Refresh tt]), status, "failed", (Some code), x,
      [Obs NotifyReconcile tt; Obs NotifyRetention tt].
    split; [by destruct e; simplify_eq/=|]. rewrite <- app_assoc. split; [done|by right].
Qed.

Lemma follows_app db tr1 tr2 db' :
  follows db (tr1 ++ tr2) db' -> exists db1, follows db tr1 db1 /\ follows db1 tr2 db'.
Proof.
  revert db. induction tr1 as [|o tr1 IH]; intros db Hf; [exists db; split; [constructor|done]|].
  inversion Hf as [|? db0 ? db1 ? ? Hs Ha Hrest]; subst. destruct (IH _ Hrest) as (db2 & H1 & H2).
  exists db2. split; [by econstructor|done].
Qed.

(** After the attempt to record a terminal status the row is terminal for good,
    unless the database failed. *)
Lemma attempt_settles d db db' row tr1 status res code x tr2 :
  ledger_wf db -> deployments db !! d = Some row -> is_terminal status = true ->
  follows db (tr1 ++ Obs (LedgerTransition d PhTerminal status res code) x :: tr2) db' ->
  (exists row', deployments db' !! d = Some row' /\ nonterminal row' = false)
  \/ exists e, database_failure e /\ x = Err e.
Proof.
  intros Hwf Hrow Hst (db1 & Hf1 & Hf2)%follows_app.
  inversion Hf2 as [|? db2 ? db3 ? ? Hs Ha Hrest]; subst.
  assert (Hto : rtc ledger_step db db2) by (trans db1; [by eapply follows_rtc|done]).
  destruct (rtc_row_advances _ _ _ _ Hto Hrow) as (row2 & Hrow2 & _).
  destruct (terminal_answer_closes _ _ _ _ _ _ _ _ (rtc_ledger_wf _ _ Hto Hwf) Hst Hrow2 Ha)
    as [(row3 & Hrow3 & Hn3)|He]; [left|by right].
  destruct (rtc_row_advances _ _ _ _ (follows_rtc _ _ _ Hrest) Hrow3) as (row4 & Hrow4 & Hadv).
  exists row4. split; [done|]. by rewrite (settled_closed _ _ (ra_closed _ _ Hadv Hn3)).
Qed.

(** A ledger call changes no row but the one it names. *)
Lemma ledger_answer_others d db X (e : ev X) x db' i :
  match e with
  | LedgerGet id | LedgerTransition id _ _ _ _ | LedgerResolved id _ _ _ _ _ _ | LedgerSetHealth id _ _
  | LedgerMarkEffectStarted id _ _ | LedgerMarkEffectObserved id _ | LedgerMarkRollbackStarted id _
  | LedgerMarkRollbackObserved id _ => id = d
  | _ => True
  end -> ledger_answer db (Obs e x) db' -> i <> d -> deployments db' !! i = deployments db !! i.
Proof.
  intros Hid Ha Hne.
  assert (Hc : forall op y, commits db op y db' -> (forall db1, op = Ok db1 -> deployments db1 !! i = deployments db !! i) ->
    deployments db' !! i = deployments db !! i).
  { intros op y [Hc|(f & _ & _ & [-> | Hc])] Hop; [|done|by apply Hop].
    destruct op as [db1|f]; destruct Hc as [_ ->]; [by apply Hop|done]. }
  assert (Hu : forall cond set db1, update_deployment d cond set db = Ok db1 -> deployments db1 !! i = deployments db !! i).
  { intros cond set db1 (row & _ & _ & ->)%update_deployment_ok. cbn. by rewrite lookup_insert_ne. }
  destruct e; cbn [ledger_answer] in Ha; subst; try done; try (by destruct Ha as [_ ->]); destruct Ha as [now Ha];
    eapply Hc; try exact Ha; intros db1 Hop; try (by eapply Hu).
  - unfold transition in Hop. apply bind_ok_inv in Hop as (db2 & Hop & Ht).
    apply Hu in Hop. rewrite <- Hop. unfold insert_transition in Ht. destruct (existsb _ _); [done|]. cbn in Ht.
    destruct (is_terminal status); ok_inv; [|done].
    by rewrite (proj1 (close_deployment_tables _ _ _ _ _ _ _)).
  - unfold set_health in Hop. ok_inv. cbn. by rewrite lookup_alter_ne.
Qed.

(** C1: engine and ledger together, with a database that may fail at any call:
    once a deployment task has returned, its row is terminal, however the task
    failed and whatever other transactions were committed in between; or the
    last thing the task did before its two notifications was the attempt to
    record a terminal status, and that write failed in the database. *)
Theorem spawn_settles_ledger d tr db db' row :
  ledger_wf db -> deployments db !! d = Some row -> follows db tr db' ->
  trace (spawn apps_directory d) tr (Some tt) ->
  (exists row', deployments db' !! d = Some row' /\ is_terminal (status_of row') = true)
  \/ exists tr1 status res code e,
       tr = tr1 ++ [Obs (LedgerTransition d PhTerminal status res code) (Err e);
                    Obs NotifyReconcile tt; Obs NotifyRetention tt]
       /\ is_terminal status = true /\ database_failure e.
Proof.
  intros Hwf Hrow Hf Ht.
  destruct (spawn_attempts_terminal d tr Ht (own_records_of_ledger _ _ _ Hwf Hf))
    as (tr1 & status & res & code & x & tr2 & Hst & -> & Hx).
  destruct (attempt_settles _ _ _ _ _ _ _ _ _ _ Hwf Hrow Hst Hf) as [(row' & Hrow' & Hn)|(e & He & ->)].
  - left. exists row'. split; [done|]. by apply negb_false_iff in Hn.
  - right. destruct Hx as [[=]| ->]. by exists tr1, status, res, code, e.
Qed.
End with_ledger.

End theorems.
