(* ===== verification/EngineDemo.v ===== *)
(** * EngineDemo: deployments executed against a concrete host

    A small host: the real ledger on a database, the links and releases of one
    application, and a Docker daemon that carries out Compose commands. The
    engine runs on it by computation; the runs witness that the hypotheses of
    the theorems about traces can hold, and two of them show behaviours that
    the documentation excludes. *)

From S2P Require Import Prelude Text Reference Models Database Ledger Health Ownership Effects Events Verifier Engine EngineSafety EngineTheorems.

#[local] Existing Instance binary_uuid_text.

(** ** The host *)

(** What goes wrong in a run. *)
Record Scenario := MkScenario {
  sn_trigger : DeploymentTrigger;
  sn_old : option Uuid;                 (** the active release, with its container running *)
  sn_candidate_health : HealthStatus;   (** the health Docker reports for the candidate *)
  sn_credential_ref : option Uuid;      (** the credential of the old release *)
  sn_binds_change_at_stop : bool;       (** bind sources differ once a container was stopped *)
  sn_pull : result PullError unit;      (** what the image puller answers *)
}.

Record World := MkWorld {
  w_db : Database;
  w_active : option Uuid;
  w_pending : option Uuid;
  w_containers : list ContainerRecord;
  w_stopped : bool;
  w_clock : Z;
}.

#[export] Instance eta_World : Eta World := fun w =>
  MkWorld (w_db w) (w_active w) (w_pending w) (w_containers w) (w_stopped w) (w_clock w).

Definition demo_app : Uuid := 7%N.
Definition demo_deployment : Uuid := 1%N.
Definition demo_candidate : Uuid := 20%N.
Definition demo_old : Uuid := 10%N.
Definition demo_revision : Uuid := 2%N.

Definition demo_metadata : AppMetadata :=
  MkAppMetadata 3 demo_app "app" "App" 2 (Some "registry.example/app:1") None (Some demo_revision) (Some "sha")
    DesiredRunning true 300 5%N 0 0.

Definition demo_config : ConfigMetadata :=
  MkConfigMetadata None 3 10 None [] [] ∅ [] ∅ ∅ [] [] [] true false [] (Healthy None) "sha".

Definition demo_resolved : ResolvedImage :=
  MkResolvedImage "registry.example/app:1" "registry.example" "app" "1" demo_digest None demo_digest
    "img" demo_platform demo_digest.

Definition demo_old_digest : string :=
  "sha256:" +:+ "bbbbbbbbbbbbbbbbbbbbbbbbbbbbbbbb" +:+ "bbbbbbbbbbbbbbbbbbbbbbbbbbbbbbbb".

Definition demo_release (s : Scenario) (id : Uuid) : ReleaseV2 :=
  MkReleaseV2 5 2 id demo_app demo_revision "sha" 10 false "registry.example/app:1" "registry.example" "app"
    "1" demo_digest None (if id =? demo_old then demo_old_digest else demo_digest) "img" "linux" "amd64" None demo_digest "compose"
    (if id =? demo_old then sn_credential_ref s else None) RtManual None 0 "hmac".

Definition release_container (id : string) (health : HealthStatus) (release : Uuid) : ContainerRecord :=
  let labels : gmap string string :=
    {[ MANAGED_LABEL := "true"; SCHEMA_LABEL := "1"; APP_ID_LABEL := uuid_to_string demo_app;
       RELEASE_ID_LABEL := uuid_to_string release; PROJECT_LABEL := "solodock-app";
       SERVICE_LABEL := "app"; ONEOFF_LABEL := "False" ]} in
  MkContainerRecord id "app" labels CsRunning health None (Some 0%Z) (Some "t0") None (Some "img")
    (Some demo_digest) None [] [] [].

Definition with_status (st : ContainerStatus) (c : ContainerRecord) : ContainerRecord :=
  MkContainerRecord (cr_id c) (cr_name c) (cr_labels c) st (cr_health c) (cr_exit_code c)
    (cr_restart_count c) (cr_started_at c) (cr_finished_at c) (cr_configured_image_ref c)
    (cr_image_id c) (cr_manifest_descriptor c) (cr_ports c) (cr_mounts c) (cr_networks c).

(** Docker carries out the command. *)
Definition demo_compose (s : Scenario) (action : ComposeAction) (c : RunContext) (w : World) : World :=
  match action with
  | CaStop => w <| w_containers := with_status CsExited <$> w_containers w |> <| w_stopped := true |>
  | CaRemove => w <| w_containers := [] |>
  | CaStart => w <| w_containers := with_status CsRunning <$> w_containers w |>
  | CaDeployCandidate =>
      if rc_compose_file c =? release_compose_path "/apps" demo_app demo_candidate
      then w <| w_containers := [release_container "new" (sn_candidate_health s) demo_candidate] |>
      else w <| w_containers := [release_container "restored" HsHealthy demo_old] |>
  | _ => w
  end.

Definition on_ledger (op : Time -> Database -> result LedgerError Database) (w : World)
    : result LedgerError unit * World :=
  match op (w_clock w) (w_db w) with
  | Ok db => (Ok tt, w <| w_db := db |>)
  | Err e => (Err e, w)
  end.

Definition demo_host (s : Scenario) (X : Type) (e : ev X) (w : World) : X * World :=
  match e in ev X return X * World with
  | LedgerGet id => (Ok (get id (w_db w)), w)
  | LedgerTransition id phase status res code =>
      on_ledger (fun now => transition (fun _ => "") now id phase status res code) w
  | LedgerResolved id candidate predecessor source descriptor manifest platform =>
      on_ledger (fun now => resolved now id candidate predecessor source descriptor manifest platform) w
  | LedgerSetHealth id _ _ => on_ledger (fun now => set_health now id "" "") w
  | LedgerMarkEffectStarted id pre st => on_ledger (fun now => mark_effect_started now id pre st) w
  | LedgerMarkEffectObserved id post => on_ledger (fun now => mark_effect_observed now id post) w
  | LedgerMarkRollbackStarted id pre => on_ledger (fun now => mark_rollback_started now id pre) w
  | LedgerMarkRollbackObserved id post => on_ledger (fun now => mark_rollback_observed now id post) w
  | ReadMetadata _ => (Ok demo_metadata, w)
  | ReadReleaseLink _ LinkActive => (Ok (w_active w), w)
  | ReadReleaseLink _ LinkPending => (Ok (w_pending w), w)
  | LoadV2Release _ id => (Ok (demo_release s id), w)
  | SetPending _ id => (Ok tt, w <| w_pending := Some id |>)
  | PublishV2Release _ id _ _ _ => (Ok (demo_release s id), w)
  | IntegrityKey => (Ok "key", w)
  | LoadVerified _ _ _ => (Ok demo_config, w)
  | FinalizeActive _ _ id _ _ _ => (Ok tt, w <| w_active := Some id |> <| w_pending := None |>)
  | RemoveReleaseLinkIf _ _ _ => (Ok tt, w <| w_pending := None |>)
  | Probe => (Ok (MkProbeSnapshot PrReady None None None (Some "linux") (Some "amd64") 0 None), w)
  | ListComposeAppContainers _ => (Ok (w_containers w), w)
  | InspectWithin _ _ =>
      (match w_containers w with c :: _ => TimedValue (Ok c) | [] => TimedElapsed end, w)
  | ComposeRun action c => (Ok tt, demo_compose s action c w)
  | Pull _ _ _ _ => (sn_pull s, w)
  | Resolve _ _ _ => (Ok demo_resolved, w)
  | ValidateBindPlan _ _ => (Ok tt, w)
  | ValidateResources _ _ _ _ | ValidateResourcesForDetach _ _ _ _ => (Ok tt, w)
  | ValidateRuntimePaths _ _ =>
      (Ok [MkBindIdentity "/data" 1 (if sn_binds_change_at_stop s && w_stopped w then 2 else 1)], w)
  | RevalidateBindIdentity _ => (Ok tt, w)
  | NewUuid => (demo_candidate, w)
  | NowUtc | Instant => (w_clock w, w)
  | SleepOrShutdown d => (false, w <| w_clock := (w_clock w + d)%Z |>)
  | e => (refuse _ e, w)
  end.

(** ** Scheduled deployments *)

Definition demo_record (s : Scenario) : DeploymentRecord :=
  let r := row_record (queued_row 0 demo_deployment demo_app (sn_trigger s) demo_revision (sn_old s) None None 3%N) in
  match sn_old s with
  | Some old => r <| dp_expected_actual_release_id := Some old |>
                  <| dp_expected_actual_container_id := Some "old" |>
  | None => r
  end.

Definition demo_world (s : Scenario) : World :=
  MkWorld (demo_open (MkDeploymentRow (demo_record s) None None None None None None None))
    (sn_old s) None
    (match sn_old s with Some old => [release_container "old" HsHealthy old] | None => [] end) false 0.

Definition demo_task (s : Scenario) : prog ev unit := spawn "/apps" demo_deployment.
Definition demo_trace (s : Scenario) : list (obs ev) :=
  run_log (demo_host s) (demo_task s) (demo_world s).
Definition demo_final (s : Scenario) : World := (Effects.run (demo_host s) (demo_task s) (demo_world s)).2.

Definition demo_status (s : Scenario) : option (DeploymentStatus * option string) :=
  (fun row => (status_of row, dp_error_code (row_record row)))
    <$> deployments (w_db (demo_final s)) !! demo_deployment.

Definition first_deploy (health : HealthStatus) : Scenario :=
  MkScenario Manual None health None false (Ok tt).
Definition update_deploy (health : HealthStatus) : Scenario :=
  MkScenario Manual (Some demo_old) health None false (Ok tt).

(** A first deployment succeeds; an unhealthy one is removed and fails. *)
Example first_deploy_succeeds :
  demo_status (first_deploy HsHealthy) = Some (StSucceeded, None)
  /\ w_active (demo_final (first_deploy HsHealthy)) = Some demo_candidate.
Proof. vm_compute. split; reflexivity. Qed.

Example first_deploy_removed :
  demo_status (first_deploy HsUnhealthy) = Some (StFailed, Some "HEALTH_UNHEALTHY")
  /\ w_containers (demo_final (first_deploy HsUnhealthy)) = []
  /\ w_pending (demo_final (first_deploy HsUnhealthy)) = None.
Proof. vm_compute. repeat split. Qed.

(** An unhealthy update is rolled back to the old release. *)
Example update_rolled_back :
  demo_status (update_deploy HsUnhealthy) = Some (StRolledBack, Some "HEALTH_UNHEALTHY")
  /\ (cr_id <$> w_containers (demo_final (update_deploy HsUnhealthy))) = ["restored"].
Proof. vm_compute. split; reflexivity. Qed.

(** ** The runs as traces *)

(** [own_records], decided on a trace. *)
Definition answers_own_record (o : obs ev) : bool :=
  match o with
  | Obs e x =>
      match e in ev X return X -> bool with
      | LedgerGet id => fun r => match r with Ok (Some record) => dp_id record =? id | _ => true end
      | _ => fun _ => true
      end x
  end.

Lemma own_records_check tr : forallb answers_own_record tr = true -> own_records tr.
Proof.
  unfold own_records. generalize empty_journal as j. induction tr as [|[X e x] tr IH]; intros j H; [done|].
  cbn in H. apply andb_true_iff in H as [Ho Htr]. split; [|by apply IH].
  destruct e; try done. cbn in *. intros record ->. by bools.
Qed.

(** The first call of a trace that satisfies a test, with what came before. *)
Fixpoint split_at (P : obs ev -> bool) (tr : list (obs ev)) : list (obs ev) * list (obs ev) :=
  match tr with
  | [] => ([], [])
  | o :: tr' => if P o then ([], tr) else let '(a, b) := split_at P tr' in (o :: a, b)
  end.

Lemma split_at_app P tr : (split_at P tr).1 ++ (split_at P tr).2 = tr.
Proof.
  induction tr as [|o tr IH]; [done|]. simpl. destruct (P o); [done|].
  destruct (split_at P tr); simpl in *. by rewrite IH.
Qed.

(** A call found in a demonstration run is a call of the task. *)
Lemma demo_task_call s P c rest :
  (split_at P (demo_trace s)).2 = c :: rest -> forallb answers_own_record (demo_trace s) = true ->
  task_call "/apps" demo_deployment (split_at P (demo_trace s)).1 c.
Proof.
  intros Hs Ho. exists rest, (Effects.run (demo_host s) (demo_task s) (demo_world s)).1.
  rewrite <- Hs, split_at_app. split; [apply run_trace|]. by apply own_records_check.
Qed.

Definition is_compose (a : ComposeAction) (o : obs ev) : bool :=
  match o with Obs e _ => match e with ComposeRun a' _ => a' =? a | _ => false end end.
Definition is_finalize (o : obs ev) : bool :=
  match o with Obs e _ => match e with FinalizeActive _ _ _ _ _ _ => true | _ => false end end.
Definition is_terminal_call (o : obs ev) : bool :=
  match o with Obs e _ => match e with LedgerTransition _ _ st _ _ => is_terminal st | _ => false end end.

Definition before (P : obs ev -> bool) (s : Scenario) : list (obs ev) := (split_at P (demo_trace s)).1.

(** ** Witnesses *)

Definition demo_context (release : Uuid) : RunContext :=
  MkRunContext "solodock-app" (app_directory "/apps" demo_app)
    (release_compose_path "/apps" demo_app release) (70 * second) 10 [].

Ltac demo_call :=
  eapply demo_task_call; [vm_compute; reflexivity|vm_compute; reflexivity].

Lemma effects_announced_first_witness :
  exists pre_id pre_started,
    Obs (LedgerMarkEffectStarted demo_deployment pre_id pre_started) (Ok tt)
    ∈ before (is_compose CaDeployCandidate) (first_deploy HsHealthy).
Proof.
  apply (effects_announced_first "/apps" demo_deployment _ CaDeployCandidate (demo_context demo_candidate)
           (Ok tt)).
  demo_call.
Defined.

Lemma destructive_effects_hit_recorded_container_witness :
  targets_recorded (journal (before (is_compose CaRemove) (first_deploy HsUnhealthy))).
Proof.
  apply (destructive_effects_hit_recorded_container "/apps" demo_deployment _ CaRemove
           (demo_context demo_candidate) (Ok tt)); [demo_call|by right].
Defined.

Lemma starts_are_guarded_witness :
  binds_checked "/apps" (calls_so_far (before (is_compose CaDeployCandidate) (update_deploy HsHealthy)))
    (demo_context demo_candidate)
  /\ (CaDeployCandidate = CaDeployCandidate ->
      writers_stopped (journal (before (is_compose CaDeployCandidate) (update_deploy HsHealthy)))).
Proof.
  destruct (starts_are_guarded "/apps" demo_deployment (before (is_compose CaDeployCandidate) (update_deploy HsHealthy))
    CaDeployCandidate (demo_context demo_candidate) (Ok tt)) as (_ & Hb & Hw & _); [demo_call|done|done|].
  by split.
Defined.

Lemma commit_requires_verified_candidate_witness :
  commit_evidence (journal (before is_finalize (first_deploy HsHealthy))) None demo_candidate DesiredRunning
  \/ no_op_evidence (journal (before is_finalize (first_deploy HsHealthy))) None demo_candidate.
Proof.
  apply (commit_requires_verified_candidate "/apps" demo_deployment _ demo_app None demo_candidate
           DesiredRunning demo_deployment 0 (Ok tt)).
  demo_call.
Defined.


(** A pull whose output is unsafe to keep. *)
Definition unsafe_pull : Scenario := MkScenario Manual None HsHealthy None false (Err PeOutputUnsafe).

Lemma uncertain_end_keeps_pending_witness :
  Obs (RemoveReleaseLinkIf demo_app LinkPending demo_candidate) (Ok tt) ∉ before is_terminal_call unsafe_pull.
Proof.
  apply (uncertain_end_keeps_pending "/apps" demo_deployment _ PhTerminal StNeedsAttention "failed"
           (Some "SECRET_OUTPUT_REJECTED") (Ok tt)); [demo_call|by left].
Defined.

Lemma task_stays_within_its_deployment_witness :
  exists app, own_app (journal (before (is_compose CaDeployCandidate) (first_deploy HsHealthy))) app
    /\ rc_project_directory (demo_context demo_candidate) = app_directory "/apps" app.
Proof.
  apply (task_stays_within_its_deployment "/apps" demo_deployment _ _
           (ComposeRun CaDeployCandidate (demo_context demo_candidate)) (Ok tt)).
  demo_call.
Defined.

(** The host answers ledger calls as the ledger does. *)
Lemma demo_follows s {A} (p : prog ev A) w :
  follows (fun _ => "") (fun _ => "") (fun _ => "") (w_db w) (run_log (demo_host s) p w)
    (w_db (Effects.run (demo_host s) p w).2).
Proof.
  revert w. induction p as [a|X e k IH|]; intros w; simpl; [constructor| |constructor].
  destruct (demo_host s X e w) as [x w'] eqn:He. eapply follows_cons; [reflexivity| |apply IH].
  assert (Hop : forall op x, on_ledger op w = (x, w') -> exists now, commits (w_db w) (op now (w_db w)) x (w_db w')).
  { intros op y. unfold on_ledger. intros Hy. exists (w_clock w).
    left. destruct (op (w_clock w) (w_db w)); simplify_eq; by split. }
  destruct e; cbn [demo_host] in He; cbn [ledger_answer];
    try (apply (Hop _ _ He)); repeat case_match; simplify_eq; try done; try (split; [by left|done]).
  by destruct action; cbn; repeat case_match.
Qed.

Lemma spawn_settles_ledger_witness :
  (exists row, deployments (w_db (demo_final (first_deploy HsHealthy))) !! demo_deployment = Some row
    /\ is_terminal (status_of row) = true)
  \/ exists tr1 status res code e,
       demo_trace (first_deploy HsHealthy)
       = tr1 ++ [Obs (LedgerTransition demo_deployment PhTerminal status res code) (Err e);
                 Obs NotifyReconcile tt; Obs NotifyRetention tt]
       /\ is_terminal status = true /\ database_failure e.
Proof.
  apply (spawn_settles_ledger "/apps" (fun _ => "") (fun _ => "") (fun _ => "") demo_deployment
           (demo_trace (first_deploy HsHealthy)) (w_db (demo_world (first_deploy HsHealthy))) _
           (MkDeploymentRow (demo_record (first_deploy HsHealthy)) None None None None None None None)).
  - apply demo_open_wf. by split.
  - vm_compute. reflexivity.
  - apply demo_follows.
  - replace (Some tt) with (Effects.run (demo_host (first_deploy HsHealthy)) (demo_task (first_deploy HsHealthy))
      (demo_world (first_deploy HsHealthy))).1 by (vm_compute; reflexivity).
    apply run_trace.
Defined.

Lemma identity_exact_and_exclusive_witness :
  carries_labels (cr_labels (release_container "c" HsHealthy demo_old))
    (MkAppCatalogEntry demo_app "app" "App" 2 "solodock-app" None None None None None None None None None
       None None None Stopped false 300 None) demo_old.
Proof.
  apply (identity_exact_and_exclusive (cr_labels (release_container "c" HsHealthy demo_old))
    (MkAppCatalogEntry demo_app "app" "App" 2 "solodock-app" None None None None None None None None None
       None None None Stopped false 300 None) (MkOwnedIdentity demo_app demo_old)).
  vm_compute. reflexivity.
Defined.

(** ** Behaviours the documentation excludes *)

(** An unhealthy update whose old release names a credential that is gone. *)
Definition credential_gone : Scenario :=
  MkScenario Manual (Some demo_old) HsUnhealthy (Some 99%N) false (Ok tt).

(** The documentation says a failed deployment proves the candidate side
    effect absent. It does not: when the old release's credential cannot be
    loaded during compensation, the deployment is recorded as failed while the
    unhealthy candidate is running and its pending link is set. *)
Theorem failed_with_candidate_running :
  demo_status credential_gone = Some (StFailed, Some "REGISTRY_CREDENTIAL_INVALID")
  /\ ((fun c => (cr_id c, cr_status c, cr_health c)) <$> w_containers (demo_final credential_gone))
     = [("new", CsRunning, HsUnhealthy)]
  /\ w_pending (demo_final credential_gone) = Some demo_candidate.
Proof. vm_compute. repeat split. Qed.

(** A bind source that changes while the predecessor stops. *)
Definition bind_changed : Scenario :=
  MkScenario Manual (Some demo_old) HsHealthy None true (Ok tt).

(** Finding: the documentation says a bind source that changed between stop and start
    leaves the deployment interrupted or needing attention. It is recorded as
    failed, with the predecessor left stopped and the pending link set. *)
Theorem failed_with_predecessor_stopped :
  demo_status bind_changed = Some (StFailed, Some "BIND_CHANGED")
  /\ ((fun c => (cr_id c, cr_status c)) <$> w_containers (demo_final bind_changed)) = [("old", CsExited)]
  /\ w_pending (demo_final bind_changed) = Some demo_candidate.
Proof. vm_compute. repeat split. Qed.

Lemma polled_short_reference_refused_witness :
  scheduled_image
    ((demo_record (first_deploy HsHealthy)) <| dp_scheduled_source_image_ref := Some "docker.io/library/nginx:1.27" |>)
    (demo_metadata <| am_discovery_image_ref := Some "nginx:1.27" |>)
  = Err (Stable "DEPLOYMENT_FACTS_CHANGED").
Proof.
  destruct (parse "nginx:1.27") as [image|] eqn:Hp; [|vm_compute in Hp; discriminate].
  apply (polled_short_reference_refused _ _ "nginx:1.27" image Hp); vm_compute in Hp; by simplify_eq.
Defined.
