(* ===== verification/PollStates.v ===== *)
(** * PollStates: the durable state of polling and webhook wake-ups

    [src/registry/poll_state.rs] over [migrations/202608290003_m5_polling.sql]
    and [202608300001_m6_webhooks.sql]. Each operation is one transaction on
    the tables [poll_states] and [webhook_replays]; [now] is the instant it
    reads from the clock. *)

From S2P Require Import Prelude Text Reference Models Database.

(** SQLite compares timestamps as the text the [time] crate formats, whose
    fraction digits have variable length: the comparison is a parameter that
    agrees with the clock to the second. *)
Class SqlTime := {
  text_before : Time -> Time -> bool;
  text_before_later : forall a b, (a / 1000000000 < b / 1000000000)%Z -> text_before a b = true;
  text_before_not_earlier : forall a b, text_before a b = true -> (a / 1000000000 <= b / 1000000000)%Z;
}.

Definition seconds (n : Z) : Z := (n * 1000000000)%Z.

Inductive PollStateError := PsInvalid | PsCorrupt | PsDb | PsSql.
Inductive WebhookAccept := WaAccepted | WaCoalesced | WaIgnoredDisabled | WaReplay.

#[export] Instance PollStateError_eq_dec : EqDecision PollStateError.
Proof. solve_decision. Defined.
#[export] Instance WebhookAccept_eq_dec : EqDecision WebhookAccept.
Proof. solve_decision. Defined.

Definition outcome_as_str (o : PollOutcome) : string :=
  match o with
  | PoDisabled => "disabled" | PoScheduled => "scheduled" | PoUnchanged => "unchanged"
  | PoConfigPendingManual => "config_pending_manual" | PoBusySkipped => "busy_skipped"
  | PoBlockedDrift => "blocked_drift" | PoBlockedAttention => "blocked_attention"
  | PoSuppressedFailedTarget => "suppressed_failed_target" | PoRegistryError => "registry_error"
  | PoCredentialError => "credential_error" | PoInvalidSource => "invalid_source"
  | PoCancelled => "cancelled"
  end.

Record PollObservation := MkPollObservation {
  po_generation : string;
  po_enabled : bool;
  po_next_check_not_before : option Time;
  po_checked_at : option Time;
  po_success : bool;
  po_replace_observed_fields : bool;
  po_source_descriptor_digest : option string;
  po_etag : option string;
  po_manifest_digest : option string;
  po_platform : option string;
  po_outcome : PollOutcome;
  po_error_class : option string;
  po_error_code : option string;
  po_transient_failures : Z;
}.

Definition set_poll (app_id : Uuid) (p : PollState) (db : Database) : Database :=
  db <| poll_states := <[app_id := p]> (poll_states db) |>.

(** The row [publish] inserts; columns it does not name take their defaults. *)
Definition observed_row (now : Time) (app_id : Uuid) (value : PollObservation) : PollState :=
  MkPollState app_id (po_generation value) (po_enabled value) (po_transient_failures value)
    (po_next_check_not_before value) (po_checked_at value)
    (if po_success value then po_checked_at value else None)
    (po_source_descriptor_digest value) (po_etag value) (po_manifest_digest value) (po_platform value)
    (po_outcome value) (po_error_class value) (po_error_code value) None None 0 0 None None now.

(** [ON CONFLICT(app_id) DO UPDATE]: the right-hand sides read the old row. *)
Definition merge_observation (now : Time) (value : PollObservation) (old : PollState) : PollState :=
  let changed := pl_generation old ≠? po_generation value in
  let observed new old_field :=
    if changed || po_replace_observed_fields value then new else coalesce new old_field in
  old <| pl_enabled := po_enabled value |>
      <| pl_consecutive_transient_failures := po_transient_failures value |>
      <| pl_next_check_not_before := po_next_check_not_before value |>
      <| pl_last_checked_at := coalesce (po_checked_at value) (pl_last_checked_at old) |>
      <| pl_last_success_at :=
           if po_success value then coalesce (po_checked_at value) (pl_last_success_at old)
           else pl_last_success_at old |>
      <| pl_last_source_descriptor_digest :=
           observed (po_source_descriptor_digest value) (pl_last_source_descriptor_digest old) |>
      <| pl_last_etag := observed (po_etag value) (pl_last_etag old) |>
      <| pl_last_manifest_digest := observed (po_manifest_digest value) (pl_last_manifest_digest old) |>
      <| pl_last_platform := observed (po_platform value) (pl_last_platform old) |>
      <| pl_last_outcome := po_outcome value |>
      <| pl_last_error_class := po_error_class value |>
      <| pl_last_error_code := po_error_code value |>
      <| pl_suppressed_target_key := if changed then None else pl_suppressed_target_key old |>
      <| pl_suppressed_deployment_id := if changed then None else pl_suppressed_deployment_id old |>
      <| pl_updated_at := now |>
      <| pl_generation := po_generation value |>.

Definition publish (now : Time) (app_id : Uuid) (value : PollObservation) (db : Database)
    : result PollStateError Database :=
  if (5 <? po_transient_failures value)%Z then Err PsInvalid
  else
    Ok (set_poll app_id
          match poll_states db !! app_id with
          | Some old => merge_observation now value old
          | None => observed_row now app_id value
          end db).

(** The first due time of a generation, under the condition that the row is
    still the one the scheduler saw; whether a row changed. *)
Definition try_initialize_generation (now : Time) (app_id : Uuid) (observed_generation : option string)
    (generation : string) (next_check_not_before : Time) (db : Database) : Database * bool :=
  match observed_generation, poll_states db !! app_id with
  | Some observed, Some p =>
      if pl_generation p =? observed then
        (set_poll app_id
           (MkPollState (pl_app_id p) generation true 0 (Some next_check_not_before) None None None None
              None None PoScheduled None None None None (pl_webhook_sequence p)
              (pl_webhook_processed_sequence p) (pl_last_webhook_received_at p) (pl_last_wake_source p)
              now) db, true)
      else (db, false)
  | Some _, None => (db, false)
  | None, Some _ => (db, false)
  | None, None =>
      (set_poll app_id
         (MkPollState app_id generation true 0 (Some next_check_not_before) None None None None None None
            PoScheduled None None None None 0 0 None None now) db, true)
  end.

Definition retain_apps (app_ids : list Uuid) (db : Database) : Database :=
  db <| poll_states := filter (fun kv => kv.1 ∈ app_ids) (poll_states db) |>
     <| webhook_replays := filter (fun r => rp_app_id r ∈ app_ids) (webhook_replays db) |>.

Definition suppress (now : Time) (app_id : Uuid) (target_key : string) (deployment_id : Uuid)
    (db : Database) : result PollStateError Database :=
  match poll_states db !! app_id with
  | Some p => Ok (set_poll app_id
      (p <| pl_suppressed_target_key := Some target_key |>
         <| pl_suppressed_deployment_id := Some deployment_id |>
         <| pl_last_outcome := PoSuppressedFailedTarget |> <| pl_updated_at := now |>) db)
  | None => Err PsCorrupt
  end.

Definition clear_suppression_if_target (now : Time) (app_id : Uuid) (target_key : string)
    (db : Database) : Database :=
  match poll_states db !! app_id with
  | Some p =>
      if pl_suppressed_target_key p =? Some target_key then
        set_poll app_id (p <| pl_suppressed_target_key := None |>
                           <| pl_suppressed_deployment_id := None |> <| pl_updated_at := now |>) db
      else db
  | None => db
  end.

Definition count_polls (P : PollState -> bool) (db : Database) : nat :=
  length (filter (fun kv : Uuid * PollState => P kv.2 = true) (map_to_list (poll_states db))).

Definition counts (db : Database) : nat * nat * nat :=
  (count_polls pl_enabled db, count_polls (fun p => is_some (pl_suppressed_target_key p)) db,
   count_polls (fun p => match pl_last_outcome p with
                         | PoRegistryError | PoCredentialError | PoInvalidSource => true
                         | _ => false end) db).

(** ** Webhooks *)

Section webhooks.
Context {ST : SqlTime}.

Definition replay_key (r : ReplayRow) : Uuid * Uuid * string :=
  (rp_app_id r, rp_secret_revision r, rp_nonce_sha256 r).

Definition expired (now : Time) (r : ReplayRow) : bool := text_before (rp_expires_at r) now.

(** [ORDER BY expires_at], ties in row order. *)
Fixpoint insert_by_expiry (r : ReplayRow) (l : list ReplayRow) : list ReplayRow :=
  match l with
  | [] => [r]
  | x :: l' => if text_before (rp_expires_at x) (rp_expires_at r) then x :: insert_by_expiry r l'
               else r :: l
  end.
Definition order_by_expiry (l : list ReplayRow) : list ReplayRow := foldr insert_by_expiry [] l.

(** The bounded cleanup at the start of [accept_webhook]. *)
Definition purge_expired (now : Time) (replays : list ReplayRow) : list ReplayRow :=
  let doomed := take 100 (order_by_expiry (filter (fun r => expired now r = true) replays)) in
  filter (fun r => replay_key r ∉ (replay_key <$> doomed)) replays.

(** The wake-up written for an enabled application. *)
Definition wake_row (now : Time) (app_id : Uuid) (generation : string) (old : option PollState) : PollState :=
  match old with
  | None =>
      MkPollState app_id generation true 0 None None None None None None None PoScheduled None None None
        None 1 0 (Some now) (Some "webhook") now
  | Some p =>
      let same := pl_generation p =? generation in
      let keep {A} (f : option A) : option A := if same then f else None in
      MkPollState (pl_app_id p) generation true
        (if same then pl_consecutive_transient_failures p else 0%Z)
        (keep (pl_next_check_not_before p)) (keep (pl_last_checked_at p)) (keep (pl_last_success_at p))
        (keep (pl_last_source_descriptor_digest p)) (keep (pl_last_etag p))
        (keep (pl_last_manifest_digest p)) (keep (pl_last_platform p))
        (if same then pl_last_outcome p else PoScheduled)
        (keep (pl_last_error_class p)) (keep (pl_last_error_code p))
        (keep (pl_suppressed_target_key p)) (keep (pl_suppressed_deployment_id p))
        (pl_webhook_sequence p + 1) (pl_webhook_processed_sequence p) (Some now) (Some "webhook") now
  end.

Definition webhook_audit (now : Time) (app_id request_id : Uuid) (action : string) : AuditEvent :=
  MkAuditEvent "webhook" request_id action (Some "app") (Some app_id) "accepted" [] now.

Definition accept_webhook (now : Time) (app_id secret_revision : Uuid) (nonce_sha256 : string)
    (request_id : Uuid) (generation : string) (enabled : bool) (db : Database)
    : Database * WebhookAccept :=
  let expires := (now + seconds 600)%Z in
  let replays := purge_expired now (webhook_replays db) in
  let row := MkReplayRow app_id secret_revision nonce_sha256 now expires request_id in
  if existsb (fun r => replay_key r =? replay_key row) replays then (db, WaReplay)
  else
    let db' := db <| webhook_replays := replays ++ [row] |> in
    let previous := poll_states db !! app_id in
    let '(db', action) :=
      if enabled then
        (set_poll app_id (wake_row now app_id generation previous) db',
         if is_some_and previous (fun p => (pl_webhook_processed_sequence p <? pl_webhook_sequence p)%Z)
         then WaCoalesced else WaAccepted)
      else (db', WaIgnoredDisabled) in
    let audit_action := match action with
                        | WaAccepted | WaReplay => "registry_recheck_requested"
                        | WaCoalesced => "registry_recheck_coalesced"
                        | WaIgnoredDisabled => "registry_recheck_ignored_disabled"
                        end in
    (db' <| audit_events := audit_events db' ++ [webhook_audit now app_id request_id audit_action] |>,
     action).
End webhooks.

Definition mark_webhook_processed (now : Time) (app_id : Uuid) (generation : string) (captured : Z)
    (db : Database) : Database :=
  match poll_states db !! app_id with
  | Some p =>
      if pl_generation p =? generation then
        set_poll app_id
          (p <| pl_webhook_processed_sequence :=
                  Z.min (pl_webhook_sequence p) (Z.max (pl_webhook_processed_sequence p) captured) |>
             <| pl_last_wake_source :=
                  if (captured <? pl_webhook_sequence p)%Z then Some "webhook" else pl_last_wake_source p |>
             <| pl_updated_at := now |>) db
      else db
  | None => db
  end.

Definition webhook_replay_count (db : Database) : nat := length (webhook_replays db).

Definition remove_app_operational (app_id : Uuid) (db : Database) : Database :=
  db <| webhook_replays := filter (fun r => rp_app_id r <> app_id) (webhook_replays db) |>
     <| poll_states := delete app_id (poll_states db) |>.

(** ** Histories of operations *)

Inductive poll_op :=
| OpPublish (now : Time) (app_id : Uuid) (value : PollObservation)
| OpInitialize (now : Time) (app_id : Uuid) (observed : option string) (generation : string) (due : Time)
| OpRetain (app_ids : list Uuid)
| OpSuppress (now : Time) (app_id : Uuid) (target_key : string) (deployment_id : Uuid)
| OpClearSuppression (now : Time) (app_id : Uuid) (target_key : string)
| OpAccept (now : Time) (app_id secret_revision : Uuid) (nonce_sha256 : string) (request_id : Uuid)
    (generation : string) (enabled : bool)
| OpMarkProcessed (now : Time) (app_id : Uuid) (generation : string) (captured : Z)
| OpRemoveApp (app_id : Uuid).

Section histories.
Context {ST : SqlTime}.

(** A refused operation leaves the database as it was. *)
Definition exec (db : Database) (op : poll_op) : Database :=
  match op with
  | OpPublish now app value => match publish now app value db with Ok db' => db' | Err _ => db end
  | OpInitialize now app observed generation due =>
      (try_initialize_generation now app observed generation due db).1
  | OpRetain ids => retain_apps ids db
  | OpSuppress now app key deployment =>
      match suppress now app key deployment db with Ok db' => db' | Err _ => db end
  | OpClearSuppression now app key => clear_suppression_if_target now app key db
  | OpAccept now app revision nonce request generation enabled =>
      (accept_webhook now app revision nonce request generation enabled db).1
  | OpMarkProcessed now app generation captured => mark_webhook_processed now app generation captured db
  | OpRemoveApp app => remove_app_operational app db
  end.

(** The counter of a published observation is a [u8]. *)
Definition op_typed (op : poll_op) : Prop :=
  match op with
  | OpPublish _ _ value => (0 <= po_transient_failures value <= u8_max)%Z
  | _ => True
  end.

(** The operation does not delete what is kept for the application. *)
Definition op_keeps (app_id : Uuid) (op : poll_op) : Prop :=
  match op with
  | OpRetain ids => app_id ∈ ids
  | OpRemoveApp other => other <> app_id
  | _ => True
  end.

(** ** Invariant *)

Record poll_row_wf (app_id : Uuid) (p : PollState) : Prop := {
  pw_key : pl_app_id p = app_id;
  pw_failures : (0 <= pl_consecutive_transient_failures p <= 5)%Z;
  pw_sequence : (0 <= pl_webhook_processed_sequence p <= pl_webhook_sequence p)%Z;
  (** a suppressed target names the deployment that failed *)
  pw_suppressed : is_some (pl_suppressed_target_key p) = is_some (pl_suppressed_deployment_id p);
}.

Record poll_wf (db : Database) : Prop := {
  pw_rows app_id p : poll_states db !! app_id = Some p -> poll_row_wf app_id p;
  pw_replays : NoDup (replay_key <$> webhook_replays db);
}.

Lemma set_poll_wf app_id p db :
  poll_wf db -> poll_row_wf app_id p -> poll_wf (set_poll app_id p db).
Proof.
  intros [Hr Hn] Hp. split; [|done]. intros a q. cbn. rewrite lookup_insert.
  case_decide; [intros [= <-]; by subst|apply Hr].
Qed.

Lemma NoDup_fmap_filter {A B} (f : A -> B) (P : A -> Prop) `{!forall x, Decision (P x)} (l : list A) :
  NoDup (f <$> l) -> NoDup (f <$> filter P l).
Proof.
  induction l as [|x l IH]; [done|]. rewrite fmap_cons, list.NoDup_cons. intros [Hx Hl].
  rewrite list.filter_cons. case_decide; [|by apply IH]. rewrite fmap_cons, list.NoDup_cons. split; [|by apply IH].
  intros Hin. apply Hx. apply list_elem_of_fmap in Hin as (y & -> & Hy).
  apply list_elem_of_fmap. exists y. split; [done|]. by apply list_elem_of_filter in Hy as [_ ?].
Qed.

Lemma existsb_key key l :
  existsb (fun r => replay_key r =? key) l = true <-> key ∈ (replay_key <$> l).
Proof.
  rewrite existsb_exists, list_elem_of_fmap. split.
  - intros (r & Hr%list_elem_of_In & Hk). bools. by exists r.
  - intros (r & -> & Hr). exists r. split; [by apply list_elem_of_In|]. by apply bool_decide_eq_true_2.
Qed.

Lemma wake_row_wf now app_id generation old :
  match old with Some p => poll_row_wf app_id p | None => True end ->
  poll_row_wf app_id (wake_row now app_id generation old).
Proof.
  destruct old as [p|]; [intros [Hk Hf Hs Hd]|intros _; by split; cbn; try lia].
  split; cbn; [done|case_bool_decide; [done|lia]|lia|]. by case_bool_decide.
Qed.

Lemma exec_wf db op : poll_wf db -> op_typed op -> poll_wf (exec db op).
Proof.
  intros Hwf Hop. pose proof Hwf as [Hr Hn]. destruct op as [now app value|now app observed generation due|ids
    |now app key deployment|now app key|now app revision nonce request generation enabled
    |now app generation captured|app]; cbn [exec].
  - unfold publish. cbn in Hop. destruct (Z.ltb_spec 5 (po_transient_failures value)); [done|].
    apply set_poll_wf; [done|]. destruct (poll_states db !! app) as [p|] eqn:Hp.
    + destruct (Hr _ _ Hp) as [Hk Hf Hs Hd]. split; cbn; [done|lia|done|]. by case_bool_decide.
    + split; cbn; [done|lia|lia|done].
  - unfold try_initialize_generation. destruct observed, (poll_states db !! app) as [p|] eqn:Hp; try done.
    + case_bool_decide; [|done]. destruct (Hr _ _ Hp) as [Hk Hf Hs Hd].
      apply set_poll_wf; [done|]. split; cbn; [done|lia|done|done].
    + apply set_poll_wf; [done|]. split; cbn; [done|lia|lia|done].
  - split; cbn; [|by apply NoDup_fmap_filter].
    intros a p Hp. apply map_lookup_filter_Some in Hp as [Hp _]. by apply Hr.
  - unfold suppress. destruct (poll_states db !! app) as [p|] eqn:Hp; [|done].
    destruct (Hr _ _ Hp) as [Hk Hf Hs Hd]. apply set_poll_wf; [done|by split].
  - unfold clear_suppression_if_target. destruct (poll_states db !! app) as [p|] eqn:Hp; [|done].
    case_bool_decide; [|done]. destruct (Hr _ _ Hp) as [Hk Hf Hs Hd]. apply set_poll_wf; [done|by split].
  - unfold accept_webhook. destruct (existsb _ _) eqn:Hex; [done|].
    assert (Hn' : NoDup (replay_key <$> (purge_expired now (webhook_replays db)
      ++ [MkReplayRow app revision nonce now (now + seconds 600) request]))).
    { rewrite fmap_app. apply list.NoDup_app. split; [by apply NoDup_fmap_filter|]. split; [|apply list.NoDup_singleton].
      intros k Hk ->%list_elem_of_singleton. apply existsb_key in Hk. congruence. }
    destruct enabled; (split; cbn; [|exact Hn']); [|done]. intros a q. rewrite lookup_insert.
    case_decide; [|apply Hr]. intros [= <-]. subst a. apply wake_row_wf.
    destruct (poll_states db !! app) as [p|] eqn:Hp; [by apply Hr|done].
  - unfold mark_webhook_processed. destruct (poll_states db !! app) as [p|] eqn:Hp; [|done].
    case_bool_decide; [|done]. destruct (Hr _ _ Hp) as [Hk Hf Hs Hd].
    apply set_poll_wf; [done|]. split; cbn; [done|done|lia|done].
  - split; cbn; [|by apply NoDup_fmap_filter]. intros a p Hp.
    apply lookup_delete_Some in Hp as [_ Hp]. by apply Hr.
Qed.

(** ** Replays *)

(** The clock of an accepted webhook, to the second. *)
Definition op_before (deadline : Time) (op : poll_op) : Prop :=
  match op with
  | OpAccept now _ _ _ _ _ _ => (now / 1000000000 < deadline / 1000000000)%Z
  | _ => True
  end.

Definition remembered (key : Uuid * Uuid * string) (expires : Time) (db : Database) : Prop :=
  exists r, r ∈ webhook_replays db /\ replay_key r = key /\ rp_expires_at r = expires.

Lemma insert_by_expiry_elem r x l : x ∈ insert_by_expiry r l <-> x = r \/ x ∈ l.
Proof.
  induction l as [|y l IH]; simpl; [set_solver|]. destruct (text_before _ _); set_solver.
Qed.

Lemma order_by_expiry_elem x l : x ∈ order_by_expiry l <-> x ∈ l.
Proof.
  induction l as [|y l IH]; [done|]. simpl. rewrite insert_by_expiry_elem, IH. set_solver.
Qed.

(** Cleanup only removes rows that have expired. *)
Lemma purge_keeps now r l :
  NoDup (replay_key <$> l) -> r ∈ l -> expired now r = false -> r ∈ purge_expired now l.
Proof.
  intros Hn Hr He. unfold purge_expired. apply list_elem_of_filter. split; [|done].
  intros Hin. apply list_elem_of_fmap in Hin as (r' & Hk & Hr').
  assert (Hin' : r' ∈ filter (fun r => expired now r = true) l).
  { apply order_by_expiry_elem. by eapply elem_of_take in Hr' as (? & ?%list_elem_of_lookup_2 & ?). }
  apply list_elem_of_filter in Hin' as [He' Hr''].
  enough (r = r') by congruence. clear -Hn Hr Hr'' Hk.
  induction l as [|x l IH]; [by apply not_elem_of_nil in Hr|].
  rewrite fmap_cons, list.NoDup_cons in Hn. destruct Hn as [Hx Hn].
  apply elem_of_cons in Hr as [->|Hr], Hr'' as [->|Hr'']; [done| | |by apply IH].
  - destruct Hx. rewrite Hk. by apply list_elem_of_fmap_2.
  - destruct Hx. rewrite <- Hk. by apply list_elem_of_fmap_2.
Qed.

Lemma exec_remembers key expires db op :
  poll_wf db -> op_keeps key.1.1 op -> op_before expires op ->
  remembered key expires db -> remembered key expires (exec db op).
Proof.
  intros [_ Hn] Hkeep Hbefore (r & Hr & Hk & He).
  assert (Hsame : forall db', webhook_replays db' = webhook_replays db -> remembered key expires db').
  { intros db' H. exists r. by rewrite H. }
  destruct op; cbn [exec].
  - unfold publish. destruct (5 <? _)%Z; by apply Hsame.
  - unfold try_initialize_generation. repeat case_match; by apply Hsame.
  - exists r. split; [|done]. apply list_elem_of_filter. split; [|done]. by subst key.
  - unfold suppress. destruct (poll_states db !! app_id); by apply Hsame.
  - unfold clear_suppression_if_target. repeat case_match; by apply Hsame.
  - unfold accept_webhook. destruct (existsb _ _); [by apply Hsame|].
    assert (Hin : r ∈ purge_expired now (webhook_replays db)).
    { apply purge_keeps; [done|done|]. unfold expired. rewrite He. destruct (text_before expires now) eqn:Ht; [|done].
      apply text_before_not_earlier in Ht. cbn in Hbefore. lia. }
    destruct enabled; (exists r; split; [|done]; cbn; apply elem_of_app; by left).
  - unfold mark_webhook_processed. repeat case_match; by apply Hsame.
  - exists r. split; [|done]. apply list_elem_of_filter. split; [|done]. subst key. by apply not_eq_sym.
Qed.

Lemma exec_all_remembers key expires db ops :
  poll_wf db -> Forall op_typed ops -> Forall (op_keeps key.1.1) ops -> Forall (op_before expires) ops ->
  remembered key expires db ->
  poll_wf (foldl exec db ops) /\ remembered key expires (foldl exec db ops).
Proof.
  revert db. induction ops as [|op ops IH]; intros db Hwf Ht Hk Hb Hr; [done|].
  inversion Ht; inversion Hk; inversion Hb; subst. cbn. apply IH; try done.
  - by apply exec_wf.
  - by apply exec_remembers.
Qed.

Lemma accept_remembers now app revision nonce request generation enabled db db1 a :
  accept_webhook now app revision nonce request generation enabled db = (db1, a) -> a <> WaReplay ->
  remembered (app, revision, nonce) (now + seconds 600) db1.
Proof.
  unfold accept_webhook. intros H Ha. destruct (existsb _ _); [by simplify_eq|].
  eexists (MkReplayRow app revision nonce now _ request). split; [|done].
  destruct enabled; simplify_eq; cbn; apply elem_of_app; right; by apply list_elem_of_singleton.
Qed.

Lemma accept_remembered_replays now app revision nonce request generation enabled db expires :
  poll_wf db -> remembered (app, revision, nonce) expires db ->
  (now / 1000000000 < expires / 1000000000)%Z ->
  accept_webhook now app revision nonce request generation enabled db = (db, WaReplay).
Proof.
  intros [_ Hn] (r & Hr & Hk & He) Hlt. unfold accept_webhook.
  assert (Hin : r ∈ purge_expired now (webhook_replays db)).
  { apply purge_keeps; [done|done|]. unfold expired. rewrite He.
    destruct (text_before expires now) eqn:Ht; [|done]. apply text_before_not_earlier in Ht. lia. }
  replace (existsb _ _) with true; [done|]. symmetry. apply existsb_key.
  change (replay_key (MkReplayRow _ _ _ _ _ _)) with (app, revision, nonce).
  rewrite <- Hk. by apply list_elem_of_fmap_2.
Qed.


(** ** Wake-ups *)

Definition wake_pending (app_id : Uuid) (db : Database) : Prop :=
  exists p, poll_states db !! app_id = Some p
    /\ (pl_webhook_processed_sequence p < pl_webhook_sequence p)%Z.

(** The wake-up numbered [sequence] or a later one is still unprocessed. *)
Definition wake_from (app_id : Uuid) (sequence : Z) (db : Database) : Prop :=
  exists p, poll_states db !! app_id = Some p
    /\ (pl_webhook_processed_sequence p < sequence <= pl_webhook_sequence p)%Z.

(** Every mark for the application was captured before that wake-up. *)
Definition op_captured_before (app_id : Uuid) (sequence : Z) (op : poll_op) : Prop :=
  match op with
  | OpMarkProcessed _ app _ captured => app = app_id -> (captured < sequence)%Z
  | _ => True
  end.

Lemma set_poll_wake app_id sequence app p db :
  wake_from app_id sequence db ->
  (forall q, app = app_id -> poll_states db !! app_id = Some q ->
     (pl_webhook_processed_sequence q < sequence <= pl_webhook_sequence q)%Z ->
     (pl_webhook_processed_sequence p < sequence <= pl_webhook_sequence p)%Z) ->
  wake_from app_id sequence (set_poll app p db).
Proof.
  intros (q & Hq & Hs) Hp. unfold wake_from. cbn. destruct (decide (app = app_id)) as [->|Hne].
  - exists p. rewrite lookup_insert_eq. split; [done|]. by eapply Hp.
  - exists q. by rewrite lookup_insert_ne.
Qed.

Lemma exec_keeps_wake app_id sequence db op :
  op_keeps app_id op -> op_captured_before app_id sequence op ->
  wake_from app_id sequence db -> wake_from app_id sequence (exec db op).
Proof.
  intros Hkeep Hmark Hw. pose proof Hw as (q & Hq & Hs). destruct op; cbn [exec].
  - unfold publish. destruct (5 <? _)%Z; [done|]. apply set_poll_wake; [done|].
    intros q' -> Hq'. by rewrite Hq'.
  - unfold try_initialize_generation. destruct observed, (poll_states db !! app_id0) as [p|] eqn:Hp; try done.
    + case_bool_decide; [|done]. apply set_poll_wake; [done|]. intros q' -> Hq' Hs'. cbn. congruence.
    + apply set_poll_wake; [done|]. intros q' ->. congruence.
  - exists q. split; [|done]. apply map_lookup_filter_Some. by split.
  - unfold suppress. destruct (poll_states db !! app_id0) as [p|] eqn:Hp; [|done].
    apply set_poll_wake; [done|]. intros q' -> Hq'. cbn. congruence.
  - unfold clear_suppression_if_target. destruct (poll_states db !! app_id0) as [p|] eqn:Hp; [|done].
    case_bool_decide; [|done]. apply set_poll_wake; [done|]. intros q' -> Hq'. cbn. congruence.
  - unfold accept_webhook. destruct (existsb _ _); [done|]. destruct enabled; [|by exists q].
    change (wake_from app_id sequence (set_poll app_id0 (wake_row now app_id0 generation (poll_states db !! app_id0)) db)).
    apply set_poll_wake; [done|]. intros q' -> Hq' Hs'. rewrite Hq'. cbn. lia.
  - unfold mark_webhook_processed. destruct (poll_states db !! app_id0) as [p|] eqn:Hp; [|done].
    case_bool_decide; [|done]. apply set_poll_wake; [done|]. intros q' -> Hq' Hs'.
    specialize (Hmark eq_refl). rewrite Hp in Hq'. simplify_eq. cbn. lia.
  - exists q. split; [|done]. cbn. by rewrite lookup_delete_ne.
Qed.

(** ** Theorems *)

(** Whatever the operations and their order, every poll state keeps its
    bounds: between zero and five transient failures, a processed webhook
    sequence that never exceeds the received one, and a suppressed target
    exactly with the deployment that failed; no webhook nonce is stored twice. *)
Theorem poll_histories_wf ops :
  Forall op_typed ops -> poll_wf (foldl exec empty_database ops).
Proof.
  assert (H0 : poll_wf empty_database).
  { split; [intros a p; cbn; by rewrite lookup_empty|by apply list.NoDup_nil]. }
  revert H0. generalize empty_database as db. induction ops as [|op ops IH]; intros db Hwf Ht; [done|].
  inversion Ht; subst. cbn. apply IH; [|done]. by apply exec_wf.
Qed.

(** A webhook nonce accepted for an application and secret is refused as a
    replay for ten minutes, to the second, whatever other operations run in
    between, cleanup of expired nonces included. *)
Theorem webhook_replay_refused t1 t2 app revision nonce request1 request2 gen1 gen2 en1 en2 db db1 a ops :
  poll_wf db ->
  accept_webhook t1 app revision nonce request1 gen1 en1 db = (db1, a) -> a <> WaReplay ->
  Forall op_typed ops -> Forall (op_keeps app) ops ->
  Forall (op_before (t1 + seconds 600)) ops ->
  (t2 / 1000000000 < t1 / 1000000000 + 600)%Z ->
  (accept_webhook t2 app revision nonce request2 gen2 en2 (foldl exec db1 ops)).2 = WaReplay.
Proof.
  intros Hwf Hacc Ha Ht Hk Hb Hlt.
  assert (Hwf1 : poll_wf db1).
  { replace db1 with (exec db (OpAccept t1 app revision nonce request1 gen1 en1)) by (cbn; by rewrite Hacc).
    by apply exec_wf. }
  destruct (exec_all_remembers (app, revision, nonce) (t1 + seconds 600) db1 ops) as [Hwf2 Hr2]; try done.
  { by eapply accept_remembers. }
  rewrite (accept_remembered_replays _ _ _ _ _ _ _ _ (t1 + seconds 600)); [done|done|done|].
  unfold seconds. rewrite Z.div_add by lia. lia.
Qed.

(** No wake-up is lost: once a webhook is accepted for an enabled
    application, its recheck stays pending until an operation marks a sequence
    captured after it, however many polls, marks of earlier captures,
    publications and further webhooks interleave. *)
Theorem webhook_wake_not_lost now app revision nonce request generation db db1 a ops :
  poll_wf db -> accept_webhook now app revision nonce request generation true db = (db1, a) ->
  a <> WaReplay ->
  exists p, poll_states db1 !! app = Some p
    /\ (Forall (op_keeps app) ops -> Forall (op_captured_before app (pl_webhook_sequence p)) ops ->
        wake_pending app (foldl exec db1 ops)).
Proof.
  intros Hwf Hacc Ha. unfold accept_webhook in Hacc. destruct (existsb _ _); [by simplify_eq|]. simplify_eq.
  cbn. rewrite lookup_insert_eq. eexists. split; [done|]. set (p := wake_row _ _ _ _). intros Hk Hc.
  match goal with |- wake_pending app (foldl exec ?db1 ops) => assert (Hw : wake_from app (pl_webhook_sequence p) db1) end.
  { exists p. cbn. rewrite lookup_insert_eq. split; [done|].
    destruct (poll_states db !! app) as [q|] eqn:Hq; subst p; cbn; [|lia].
    destruct (pw_rows _ Hwf _ _ Hq) as [_ _ Hs _]. lia. }
  revert Hw Hk Hc. generalize (pl_webhook_sequence p) as s. intros s.
  match goal with |- wake_from app s ?db1 -> _ => generalize db1 as d end.
  clear. induction ops as [|op ops IH]; intros d Hw Hk Hc.
  - destruct Hw as (q & Hq & Hs). exists q. split; [done|lia].
  - inversion Hk; inversion Hc; subst. cbn. apply IH; try done. by apply exec_keeps_wake.
Qed.

(** When an operation changes the generation of a poll state, everything
    learnt under the old one is forgotten: the suppressed target, and every
    validator unless the operation itself observed a new one. *)
Theorem generation_change_forgets db op app p p' :
  poll_states db !! app = Some p -> poll_states (exec db op) !! app = Some p' ->
  pl_generation p' <> pl_generation p ->
  pl_suppressed_target_key p' = None /\ pl_suppressed_deployment_id p' = None
  /\ match op with
     | OpPublish _ _ value =>
         pl_last_etag p' = po_etag value /\ pl_last_manifest_digest p' = po_manifest_digest value
         /\ pl_last_source_descriptor_digest p' = po_source_descriptor_digest value
     | _ => pl_last_etag p' = None /\ pl_last_manifest_digest p' = None
            /\ pl_last_source_descriptor_digest p' = None /\ pl_last_success_at p' = None
     end.
Proof.
  intros Hp Hp' Hg.
  assert (Hset : forall a q, poll_states (set_poll a q db) !! app = Some p' -> a = app /\ q = p').
  { intros a q. cbn. rewrite lookup_insert. case_decide; [by intros [= ->]|]. intros. congruence. }
  destruct op; cbn [exec] in Hp'.
  - unfold publish in Hp'. destruct (5 <? _)%Z; [congruence|]. apply Hset in Hp' as [-> <-].
    rewrite Hp in Hg |- *. cbn in Hg |- *. by rewrite !bool_decide_eq_false_2.
  - unfold try_initialize_generation in Hp'.
    destruct observed, (poll_states db !! app_id) as [q|] eqn:Hq; cbn [fst] in Hp'; try congruence.
    + case_bool_decide; cbn [fst] in Hp'; [|congruence]. apply Hset in Hp' as [-> <-]. done.
    + apply Hset in Hp' as [-> <-]. congruence.
  - apply map_lookup_filter_Some in Hp' as [Hp' _]. congruence.
  - unfold suppress in Hp'. destruct (poll_states db !! app_id) as [q|] eqn:Hq; [|congruence].
    apply Hset in Hp' as [-> <-]. cbn in Hg. congruence.
  - unfold clear_suppression_if_target in Hp'. destruct (poll_states db !! app_id) as [q|] eqn:Hq; [|congruence].
    case_bool_decide; [|congruence]. apply Hset in Hp' as [-> <-]. cbn in Hg. congruence.
  - unfold accept_webhook in Hp'. destruct (existsb _ _); [cbn in Hp'; congruence|].
    destruct enabled; [|cbn in Hp'; congruence]. apply (Hset app_id) in Hp' as [-> <-].
    rewrite Hp in Hg |- *. cbn in Hg |- *. by rewrite !bool_decide_eq_false_2 by congruence.
  - unfold mark_webhook_processed in Hp'. destruct (poll_states db !! app_id) as [q|] eqn:Hq; [|congruence].
    case_bool_decide; [|congruence]. apply Hset in Hp' as [-> <-]. cbn in Hg. congruence.
  - cbn in Hp'. apply lookup_delete_Some in Hp' as [_ Hp']. congruence.
Qed.

End histories.

(** ** Concrete histories *)

(** The comparison when every timestamp has the same number of fraction digits. *)
Definition clock_sql_time : SqlTime.
Proof.
  refine {| text_before a b := (a <? b)%Z |}.
  - intros a b H. apply Z.ltb_lt. destruct (Z.lt_ge_cases a b) as [|Hge]; [done|].
    pose proof (Z.div_le_mono b a 1000000000 ltac:(lia) Hge). lia.
  - intros a b H%Z.ltb_lt. apply Z.div_le_mono; lia.
Defined.

Definition demo_observation : PollObservation :=
  MkPollObservation "g1" true None (Some 0%Z) true true (Some "sha256:d") (Some "etag") (Some "sha256:m")
    (Some "linux/amd64") PoUnchanged None None 0.

(** A poll, a webhook, another poll. *)
Definition demo_ops : list poll_op :=
  [OpPublish 0 7%N demo_observation; OpAccept (seconds 10) 7%N 4%N "n1" 5%N "g1" true;
   OpPublish (seconds 20) 7%N demo_observation].

Lemma demo_ops_typed : Forall op_typed demo_ops.
Proof. repeat constructor; cbn; unfold u8_max; lia. Qed.

Lemma poll_histories_wf_witness :
  poll_wf (foldl (@exec clock_sql_time) empty_database demo_ops).
Proof. apply (poll_histories_wf (ST := clock_sql_time) demo_ops). apply demo_ops_typed. Defined.

Lemma empty_poll_wf : poll_wf empty_database.
Proof. split; [intros a p; cbn; by rewrite lookup_empty|by apply list.NoDup_nil]. Qed.

Definition demo_accept (now : Time) (db : Database) : Database * WebhookAccept :=
  @accept_webhook clock_sql_time now 7%N 4%N "n1" 5%N "g1" true db.

Lemma webhook_replay_refused_witness :
  (demo_accept (seconds 300) (foldl (@exec clock_sql_time) (demo_accept 0 empty_database).1
     [OpAccept (seconds 200) 7%N 4%N "n2" 6%N "g1" true])).2 = WaReplay.
Proof.
  apply (webhook_replay_refused (ST := clock_sql_time) 0 (seconds 300) 7%N 4%N "n1" 5%N 5%N "g1" "g1" true true
           empty_database (demo_accept 0 empty_database).1 (demo_accept 0 empty_database).2).
  - apply empty_poll_wf.
  - reflexivity.
  - vm_compute. discriminate.
  - by repeat constructor.
  - by repeat constructor.
  - repeat constructor.
  - vm_compute. reflexivity.
Defined.

Lemma webhook_wake_not_lost_witness :
  wake_pending 7%N (foldl (@exec clock_sql_time) (demo_accept 0 empty_database).1
    [OpMarkProcessed 1 7%N "g1" 0; OpPublish 2 7%N demo_observation]).
Proof.
  destruct (webhook_wake_not_lost (ST := clock_sql_time) 0 7%N 4%N "n1" 5%N "g1" empty_database
    (demo_accept 0 empty_database).1 (demo_accept 0 empty_database).2
    [OpMarkProcessed 1 7%N "g1" 0; OpPublish 2 7%N demo_observation]) as (p & Hp & Hw).
  - apply empty_poll_wf.
  - reflexivity.
  - vm_compute. discriminate.
  - vm_compute in Hp. injection Hp as <-. apply Hw; repeat constructor; cbn; lia.
Defined.

Lemma generation_change_forgets_witness :
  pl_suppressed_target_key (wake_row 3 7%N "g2" (Some (observed_row 0 7%N demo_observation))) = None.
Proof.
  apply (generation_change_forgets (ST := clock_sql_time)
    (set_poll 7%N (observed_row 0 7%N demo_observation) empty_database)
    (OpAccept 3 7%N 4%N "n1" 5%N "g2" true) 7%N (observed_row 0 7%N demo_observation)).
  - reflexivity.
  - vm_compute. reflexivity.
  - vm_compute. discriminate.
Defined.
