(* ===== verification/Codec.v ===== *)
(** * Codec: decimal and hexadecimal text, and the cryptographic interface

    Integers are printed by Rust's [Display] and read by [str::parse], digests
    by [{:x}]; both directions are here with their inverse laws. The hash, MAC
    and base64 crates are third-party: the class [Crypto] states what the
    source relies on. *)

From S2P Require Import Prelude Text.
From Stdlib Require Import Ascii.

(** ** Decimal integers *)

Definition digit_value (c : ascii) : N := (code c - 48)%N.

(** The digits loop of [from_str_radix] without and with its overflow check. *)
Fixpoint decimal_value (acc : N) (s : string) : N :=
  match s with
  | EmptyString => acc
  | String c s' => decimal_value (10 * acc + digit_value c) s'
  end.

Fixpoint checked_decimal (limit acc : N) (s : string) : option N :=
  match s with
  | EmptyString => Some acc
  | String c s' =>
      if is_ascii_digit c then
        let next := (10 * acc + digit_value c)%N in
        if (next <=? limit)%N then checked_decimal limit next s' else None
      else None
  end.

(** [str::parse] at an unsigned type with the given maximum: an optional plus
    sign, then at least one digit. *)
Definition parse_unsigned (max : Z) (s : string) : option Z :=
  let digits := match s with
                | String c s' => if char_eqb "+"%char c then s' else s
                | EmptyString => s
                end in
  if str_is_empty digits then None
  else option_map Z.of_N (checked_decimal (Z.to_N max) 0 digits).

(** A decimal text without a sign or a superfluous zero. *)
Definition canonical_digits (s : string) : bool :=
  negb (str_is_empty s)
  && negb ((1 <? String.length s) && starts_with "0" s)
  && str_all is_ascii_digit s.

Lemma pretty_digit_value x : (x < 10)%N -> digit_value (pretty_N_char x) = x.
Proof.
  intros Hx. destruct x as [|p]; [done|].
  do 4 (destruct p as [p|p|]; try reflexivity; try lia).
Qed.

Lemma pretty_digit_char c : is_ascii_digit c = true -> pretty_N_char (digit_value c) = c.
Proof. rewrite <- char_eqb_eq. revert c. by_bytes. Qed.

Lemma digit_value_lt c : is_ascii_digit c = true -> (digit_value c < 10)%N.
Proof. rewrite <- N.ltb_lt. revert c. by_bytes. Qed.

Lemma pretty_digit_is_digit x : is_ascii_digit (pretty_N_char x) = true.
Proof. unfold pretty_N_char. by repeat case_match. Qed.

(** Printing inserts exactly the digits that reading removes. *)
Lemma decimal_value_pretty_go x s : decimal_value 0 (pretty_N_go x s) = decimal_value x s.
Proof.
  revert s. induction (N.lt_wf_0 x) as [x _ IH]; intros s.
  destruct (N.eq_0_gt_0_cases x) as [->|Hx]; [done|].
  rewrite pretty_N_go_step by done. rewrite IH by (by apply N.div_lt). cbn [decimal_value].
  rewrite pretty_digit_value by (by apply N.mod_lt).
  by rewrite <- N.div_mod by done.
Qed.

Lemma pretty_go_decimal_value x s t :
  (0 < x)%N -> str_all is_ascii_digit s = true ->
  pretty_N_go (decimal_value x s) t = pretty_N_go x (s +:+ t).
Proof.
  revert x. induction s as [|c s IH]; intros x Hx; cbn [decimal_value str_all String.append]; [done|].
  intros [Hc Hs]%andb_true_iff. rewrite IH; [|lia|done]. pose proof (digit_value_lt c Hc) as Hd.
  rewrite pretty_N_go_step by lia.
  replace (10 * x + digit_value c)%N with (digit_value c + x * 10)%N by lia.
  rewrite N.div_add, N.Div0.mod_add, N.div_small, N.mod_small, pretty_digit_char by done.
  by rewrite N.add_0_l.
Qed.

Lemma pretty_go_digits x s :
  str_all is_ascii_digit s = true -> str_all is_ascii_digit (pretty_N_go x s) = true.
Proof.
  revert s. induction (N.lt_wf_0 x) as [x _ IH]; intros s Hs.
  destruct (N.eq_0_gt_0_cases x) as [->|Hx]; [done|].
  rewrite pretty_N_go_step by done. apply IH; [by apply N.div_lt|].
  cbn [str_all]. by rewrite pretty_digit_is_digit.
Qed.

Lemma pretty_N_digits (n : N) : str_all is_ascii_digit (pretty n) = true.
Proof. unfold pretty, pretty_N. case_decide; [done|]. by apply pretty_go_digits. Qed.

Lemma decimal_value_pretty (n : N) : decimal_value 0 (pretty n) = n.
Proof. unfold pretty, pretty_N. case_decide; [by subst|]. apply decimal_value_pretty_go. Qed.

Lemma leading_digit c : is_ascii_digit c = true -> digit_value c = 0%N -> c = "0"%char.
Proof. intros Hc H0. rewrite <- (pretty_digit_char c Hc), H0. done. Qed.

Lemma decimal_value_ge x s : (x <= decimal_value x s)%N.
Proof. revert x. induction s as [|c s IH]; intros x; cbn [decimal_value]; [done|]. etrans; [|apply IH]. lia. Qed.

(** A canonical decimal text is the printed form of its value. *)
Lemma pretty_decimal_value s : canonical_digits s = true -> pretty (decimal_value 0 s) = s.
Proof.
  unfold canonical_digits. intros [[Hne Hz]%andb_true_iff Hd]%andb_true_iff.
  destruct s as [|c s]; [done|]. cbn [str_all] in Hd. apply andb_true_iff in Hd as [Hc Hd].
  cbn [decimal_value]. rewrite N.mul_0_r, N.add_0_l.
  destruct (N.eq_0_gt_0_cases (digit_value c)) as [H0|Hpos].
  - apply (leading_digit c Hc) in H0 as ->. destruct s as [|c' s]; [done|]. by destruct s.
  - pose proof (decimal_value_ge (digit_value c) s). unfold pretty, pretty_N.
    rewrite decide_False by lia. rewrite pretty_go_decimal_value by done.
    rewrite append_nil_r, pretty_N_go_step, N.div_small, N.mod_small by (try done; by apply digit_value_lt).
    by rewrite pretty_N_go_0, pretty_digit_char.
Qed.

Lemma pretty_go_ne x s : (0 < x)%N -> exists c s', pretty_N_go x s = String c s' /\ c <> "0"%char.
Proof.
  revert s. induction (N.lt_wf_0 x) as [x _ IH]; intros s Hx. rewrite pretty_N_go_step by done.
  destruct (N.lt_ge_cases x 10) as [Hlt|Hge].
  - rewrite N.div_small, N.mod_small by done. rewrite pretty_N_go_0.
    eexists _, _. split; [done|]. intros Hc.
    pose proof (pretty_digit_value x Hlt) as Hv. rewrite Hc in Hv. change (0%N = x) in Hv. lia.
  - apply IH; [by apply N.div_lt|]. by apply N.div_str_pos.
Qed.

Lemma pretty_canonical (n : N) : canonical_digits (pretty n) = true.
Proof.
  unfold canonical_digits. rewrite pretty_N_digits, andb_true_r.
  unfold pretty, pretty_N. case_decide; [done|].
  destruct (pretty_go_ne n "") as (c & s & -> & Hc); [lia|].
  cbn [str_is_empty negb andb]. apply negb_true_iff, andb_false_iff. right.
  unfold starts_with. cbn [String.prefix].
  destruct (ascii_dec "0" c) as [Hd|Hd]; [by subst|done].
Qed.

Lemma checked_decimal_value limit acc s n :
  checked_decimal limit acc s = Some n -> decimal_value acc s = n.
Proof.
  revert acc. induction s as [|c s IH]; intros acc; cbn [checked_decimal decimal_value]; [by intros [= ->]|].
  destruct (is_ascii_digit c); [|done]. cbv zeta. case_match; [apply IH|done].
Qed.

Lemma checked_decimal_bound limit acc s n :
  (acc <= limit)%N -> checked_decimal limit acc s = Some n -> (n <= limit)%N.
Proof.
  revert acc. induction s as [|c s IH]; intros acc Ha; cbn [checked_decimal]; [by intros [= <-]|].
  destruct (is_ascii_digit c); [|done]. cbv zeta. case_match eqn:Hl; [|done]. apply IH. by apply N.leb_le.
Qed.

Lemma checked_decimal_total limit acc s :
  str_all is_ascii_digit s = true -> (decimal_value acc s <= limit)%N ->
  checked_decimal limit acc s = Some (decimal_value acc s).
Proof.
  revert acc. induction s as [|c s IH]; intros acc; cbn [checked_decimal decimal_value str_all]; [done|].
  intros [Hc Hs]%andb_true_iff Hv. rewrite Hc. cbv zeta.
  pose proof (decimal_value_ge (10 * acc + digit_value c) s).
  destruct (N.leb_spec (10 * acc + digit_value c) limit); [by apply IH|lia].
Qed.

(** Printing and parsing are inverse within the range of the type. *)
Lemma parse_unsigned_canonical max s z :
  (0 <= max)%Z -> canonical_digits s = true -> parse_unsigned max s = Some z ->
  (0 <= z <= max)%Z /\ pretty z = s.
Proof.
  intros Hm Hs. pose proof Hs as Hs'.
  unfold canonical_digits in Hs'. apply andb_true_iff in Hs' as [[Hne _]%andb_true_iff Hd].
  unfold parse_unsigned. destruct s as [|c s]; [done|].
  destruct (char_eqb "+"%char c) eqn:Hp.
  { apply char_eqb_eq in Hp as <-. done. }
  cbn [str_is_empty].
  destruct (checked_decimal _ _ _) as [n|] eqn:Hn; [|done]. intros [= <-].
  pose proof (checked_decimal_value _ _ _ _ Hn) as Hv.
  apply checked_decimal_bound in Hn; [|lia]. split; [lia|].
  rewrite <- (pretty_decimal_value _ Hs), Hv. by destruct n.
Qed.

Lemma pretty_nonneg (z : Z) : (0 <= z)%Z -> pretty z = pretty (Z.to_N z).
Proof. by destruct z. Qed.

Lemma parse_unsigned_pretty max z : (0 <= z <= max)%Z -> parse_unsigned max (pretty z) = Some z.
Proof.
  intros Hz. rewrite pretty_nonneg by lia.
  pose proof (pretty_canonical (Z.to_N z)) as Hc. pose proof (pretty_N_digits (Z.to_N z)) as Hd.
  unfold canonical_digits in Hc. apply andb_true_iff in Hc as [[Hne _]%andb_true_iff _].
  unfold parse_unsigned. destruct (pretty (Z.to_N z)) as [|c s] eqn:Hp; [done|].
  assert (Hplus : char_eqb "+"%char c = false).
  { apply not_true_iff_false. intros <-%char_eqb_eq. done. }
  rewrite Hplus. cbn [str_is_empty]. rewrite <- Hp in *.
  rewrite checked_decimal_total; [|done|rewrite decimal_value_pretty; lia].
  cbn [option_map]. rewrite decimal_value_pretty. f_equal. lia.
Qed.

(** ** Lower-case hexadecimal *)

Definition hex_digit (n : N) : ascii := ascii_of_N (if (n <? 10)%N then 48 + n else 87 + n).
(** [{:x}] and the crate's [hex] of a byte string: two digits per byte. *)
Fixpoint hex (bytes : string) : string :=
  match bytes with
  | EmptyString => EmptyString
  | String c s => String (hex_digit (code c / 16)) (String (hex_digit (code c mod 16)) (hex s))
  end.

Lemma hex_length s : String.length (hex s) = 2 * String.length s.
Proof. induction s as [|c s IH]; cbn [hex String.length]; lia. Qed.

Lemma hex_lower s : str_all is_lower_hex (hex s) = true.
Proof.
  induction s as [|c s IH]; cbn [hex str_all]; [done|]. rewrite IH, andb_true_r.
  exact (all_bytes_spec (fun c => is_lower_hex (hex_digit (code c / 16))
    && is_lower_hex (hex_digit (code c mod 16))) ltac:(by vm_compute) c).
Qed.

(** ** Hashes, message authentication and base64

    The crates [sha2], [hmac] and [base64] (URL-safe alphabet, no padding).
    Digests have 32 bytes, an encoding decodes to what was encoded, and uses
    only the URL-safe alphabet. *)

Definition is_base64url (c : ascii) : bool :=
  is_ascii_alphanumeric c || char_eqb "-"%char c || char_eqb "_"%char c.

Class Crypto := {
  sha256 : string -> string;
  hmac_sha256 : string -> string -> string;
  base64_encode : string -> string;
  base64_decode : string -> option string;
  sha256_length : forall m, String.length (sha256 m) = 32;
  hmac_length : forall k m, String.length (hmac_sha256 k m) = 32;
  base64_decode_encode : forall b, base64_decode (base64_encode b) = Some b;
  base64_alphabet : forall b, str_all is_base64url (base64_encode b) = true;
}.

(** A concrete instance for evaluating definitions on examples: digests are a
    padded rolling checksum, base64 is replaced by hexadecimal. *)

Fixpoint checksum (acc : N) (s : string) : N :=
  match s with
  | EmptyString => acc
  | String c s' => checksum ((31 * acc + code c) mod 2305843009213693951) s'
  end.

Fixpoint pad (n : nat) (s : string) : string :=
  match n with
  | 0 => EmptyString
  | S n' => match s with
            | EmptyString => String "." (pad n' EmptyString)
            | String c s' => String c (pad n' s')
            end
  end.

Fixpoint unhex (s : string) : option string :=
  match s with
  | EmptyString => Some EmptyString
  | String h (String l s') =>
      let value c := if is_ascii_digit c then (code c - 48)%N else (code c - 87)%N in
      option_map (String (ascii_of_N (16 * value h + value l))) (unhex s')
  | _ => None
  end.

Lemma pad_length n s : String.length (pad n s) = n.
Proof. revert s. induction n as [|n IH]; intros [|c s]; cbn [pad String.length]; auto. Qed.

Lemma unhex_hex s : unhex (hex s) = Some s.
Proof.
  induction s as [|c s IH]; [done|]. cbn [hex unhex]. rewrite IH. cbn [option_map]. do 2 f_equal.
  apply char_eqb_eq. revert c. apply all_bytes_spec. by vm_compute.
Qed.

Lemma hex_base64url s : str_all is_base64url (hex s) = true.
Proof. eapply str_all_impl; [|apply hex_lower]. by_bytes. Qed.

Definition demo_crypto : Crypto := {|
  sha256 m := pad 32 (pretty (checksum 7 m));
  hmac_sha256 k m := pad 32 (pretty (checksum (checksum 11 k) m));
  base64_encode := hex;
  base64_decode := unhex;
  sha256_length m := pad_length 32 _;
  hmac_length k m := pad_length 32 _;
  base64_decode_encode := unhex_hex;
  base64_alphabet := hex_base64url;
|}.
