(* ===== verification/WebhookProtocol.v ===== *)
(** * WebhookProtocol: the signed request headers

    [src/webhook/protocol.rs]. A request is signed over a text that names the
    protocol, the second it was made, a nonce, the application and the digest
    of its body; the headers have one accepted spelling each. *)

From S2P Require Import Prelude Text Codec.
From Stdlib Require Import Ascii.

Definition MAX_BODY_BYTES : nat := 1024.
Definition TIMESTAMP_WINDOW_SECONDS : Z := 300.

Inductive ProtocolError := PeHeader | PeTimestamp | PeSignature | PeSecret.

Record VerifiedHeaders := MkVerifiedHeaders {
  vh_timestamp : Z;
  vh_nonce : string;
  vh_nonce_sha256 : string;
  vh_signature : string;
}.

#[export] Instance ProtocolError_eq_dec : EqDecision ProtocolError.
Proof. solve_decision. Defined.
#[export] Instance VerifiedHeaders_eq_dec : EqDecision VerifiedHeaders.
Proof. solve_decision. Defined.

Definition newline : string := String "010" EmptyString.

(** [OffsetDateTime::unix_timestamp]: whole seconds, rounded down. *)
Definition unix_timestamp (now : Time) : Z := (now / 1000000000)%Z.

Definition hex_value (value : ascii) : result ProtocolError N :=
  if is_ascii_digit value then Ok (code value - 48)%N
  else if (97 <=? code value)%N && (code value <=? 102)%N then Ok (code value - 97 + 10)%N
  else Err PeHeader.

(** The loop over [as_chunks::<2>]: an odd last byte is not visited. *)
Fixpoint signature_bytes (hex : string) : result ProtocolError string :=
  match hex with
  | String a (String b rest) =>
      high ← hex_value a;
      low ← hex_value b;
      bytes ← signature_bytes rest;
      Ok (String (ascii_of_N (N.lor (N.shiftl high 4) low)) bytes)
  | _ => Ok EmptyString
  end.

Section protocol.
Context {CR : Crypto} {UT : UuidText}.

Definition parse_headers (timestamp nonce signature : string) : result ProtocolError VerifiedHeaders :=
  _ ← refuse_if
        (str_is_empty timestamp
         || ((1 <? String.length timestamp) && starts_with "0" timestamp)
         || negb (str_all is_ascii_digit timestamp)) PeHeader;
  timestamp ← ok_or (parse_unsigned i64_max timestamp) PeHeader;
  decoded ← ok_or (base64_decode nonce) PeHeader;
  _ ← refuse_if ((String.length decoded ≠? 16) || (base64_encode decoded ≠? nonce)) PeHeader;
  hex ← ok_or (strip_prefix "v1=" signature) PeHeader;
  _ ← refuse_if ((String.length hex ≠? 64) || negb (str_all is_lower_hex hex)) PeHeader;
  signature_bytes ← signature_bytes hex;
  Ok (MkVerifiedHeaders timestamp nonce (sha256 nonce) signature_bytes).

Definition decode_secret (secret : string) : result ProtocolError string :=
  decoded ← ok_or (base64_decode secret) PeSecret;
  _ ← refuse_if ((String.length decoded ≠? 32) || (base64_encode decoded ≠? secret)) PeSecret;
  Ok decoded.

Definition validate_secret (secret : string) : result ProtocolError unit :=
  _ ← decode_secret secret; Ok tt.

Definition signing_input (app_id : Uuid) (body : string) (timestamp : Z) (nonce : string) : string :=
  "solodock-webhook-v1" +:+ newline +:+ pretty timestamp +:+ newline +:+ nonce +:+ newline
  +:+ "POST" +:+ newline +:+ "/hooks/v1/apps/" +:+ uuid_to_string app_id +:+ "/registry" +:+ newline
  +:+ hex (sha256 body).

Definition verify (app_id : Uuid) (raw_body : string) (headers : VerifiedHeaders) (secret : string)
    (now : Time) : result ProtocolError unit :=
  _ ← refuse_if
        (TIMESTAMP_WINDOW_SECONDS <? Z.abs (unix_timestamp now - vh_timestamp headers))%Z PeTimestamp;
  decoded ← decode_secret secret;
  _ ← refuse_if ((String.length decoded ≠? 32) || (base64_encode decoded ≠? secret)) PeSecret;
  let input := signing_input app_id raw_body (vh_timestamp headers) (vh_nonce headers) in
  let expected := hmac_sha256 decoded input in
  refuse_if (expected ≠? vh_signature headers) PeSignature.

#[local] Arguments signing_input : simpl never.

(** ** Canonical forms *)

(** A nonce in its one spelling, and headers as a client prints them. *)
Definition canonical_nonce (nonce : string) : Prop :=
  exists bytes, String.length bytes = 16 /\ nonce = base64_encode bytes.

Definition canonical_headers (h : VerifiedHeaders) : Prop :=
  (0 <= vh_timestamp h <= i64_max)%Z /\ canonical_nonce (vh_nonce h)
  /\ vh_nonce_sha256 h = sha256 (vh_nonce h) /\ String.length (vh_signature h) = 32.

(** ** Lemmas *)

(** Discharges the next guard of two refusals. *)
Ltac pass_guard :=
  rewrite (refuse_if_false _ (_ || _));
  [|rewrite ?orb_false_iff, ?negb_false_iff, ?bool_decide_eq_true; split; try done].


Lemma hex_value_digit c n :
  hex_value c = Ok n -> (n < 16)%N /\ hex_digit n = c.
Proof.
  intros H. assert (Hb : forall c, match hex_value c with
    | Ok n => (n <? 16)%N && char_eqb (hex_digit n) c | Err _ => true end = true).
  { apply all_bytes_spec. by vm_compute. }
  specialize (Hb c). rewrite H in Hb. apply andb_true_iff in Hb as [Hn Hc].
  split; [by apply N.ltb_lt|by apply char_eqb_eq].
Qed.

Lemma hex_value_hex_digit n : (n < 16)%N -> hex_value (hex_digit n) = Ok n.
Proof.
  intros Hn. destruct n as [|p]; [done|].
  do 4 (destruct p as [p|p|]; try reflexivity; try lia).
Qed.

Lemma pair_byte high low :
  (high < 16)%N -> (low < 16)%N ->
  let c := ascii_of_N (N.lor (N.shiftl high 4) low) in (code c / 16 = high /\ code c mod 16 = low)%N.
Proof.
  intros Hh Hl.
  assert (Hall : forallb (fun h => forallb (fun l =>
    let c := ascii_of_N (N.lor (N.shiftl (N.of_nat h) 4) (N.of_nat l)) in
    (code c / 16 =? N.of_nat h)%N && (code c mod 16 =? N.of_nat l)%N) (seq 0 16)) (seq 0 16) = true)
    by (by vm_compute).
  rewrite forallb_forall in Hall. specialize (Hall (N.to_nat high)).
  rewrite forallb_forall in Hall. specialize (fun H => Hall H (N.to_nat low)).
  rewrite !N2Nat.id in Hall. cbv zeta in Hall. rewrite andb_true_iff, !N.eqb_eq in Hall.
  apply Hall; apply in_seq; lia.
Qed.

Lemma byte_pair c : ascii_of_N (N.lor (N.shiftl (code c / 16) 4) (code c mod 16)) = c.
Proof. apply char_eqb_eq. revert c. apply all_bytes_spec. by vm_compute. Qed.

(** The signature loop inverts [hex] on texts of even length. *)
Lemma signature_bytes_hex s : signature_bytes (hex s) = Ok s.
Proof.
  induction s as [|c s IH]; [done|]. cbn [hex signature_bytes].
  assert (code c < 256)%N by apply N_ascii_bounded.
  rewrite !hex_value_hex_digit by (by apply N.mod_lt || by apply N.Div0.div_lt_upper_bound).
  cbn. rewrite IH. cbn. by rewrite byte_pair.
Qed.

Lemma signature_bytes_inv n s b :
  String.length s = 2 * n -> signature_bytes s = Ok b -> s = hex b /\ String.length b = n.
Proof.
  revert s b. induction n as [|n IH]; intros s b Hl Hs.
  - destruct s; [|done]. cbn in Hs. by ok_inv.
  - destruct s as [|x [|y s]]; [done|cbn in Hl; lia|]. cbn [signature_bytes] in Hs. ok_inv.
    apply hex_value_digit in E as [Hh <-], E0 as [Hlo <-].
    destruct (IH s a1) as [-> Hb]; [cbn in Hl; lia|done|].
    cbn [hex String.length]. destruct (pair_byte a a0 Hh Hlo) as [-> ->]. by rewrite Hb.
Qed.

Lemma decode_secret_ok secret key :
  decode_secret secret = Ok key <-> String.length key = 32 /\ secret = base64_encode key.
Proof.
  unfold decode_secret. split.
  - intros H. ok_inv. bools. done.
  - intros [Hl ->]. rewrite base64_decode_encode. cbn.
    rewrite !bool_decide_eq_true_2 by done. done.
Qed.

(** [verify] accepts exactly the requests made within the window whose
    signature is the authentication code of their signing input under a
    well-formed secret. *)
Lemma verify_ok app_id body h secret now :
  verify app_id body h secret now = Ok tt <->
  (Z.abs (unix_timestamp now - vh_timestamp h) <= TIMESTAMP_WINDOW_SECONDS)%Z
  /\ exists key, decode_secret secret = Ok key
     /\ vh_signature h = hmac_sha256 key (signing_input app_id body (vh_timestamp h) (vh_nonce h)).
Proof.
  unfold verify. split.
  - intros H. ok_inv. bools. split; [by apply Z.ltb_ge|]. eauto.
  - intros [Hw (key & Hk & Hs)]. rewrite refuse_if_false by (by apply Z.ltb_ge). cbn.
    rewrite Hk. cbn. apply decode_secret_ok in Hk as [Hl ->].
    pass_guard. cbn.
    apply refuse_if_false. by rewrite negb_false_iff, bool_decide_eq_true.
Qed.

Lemma base64_no_newline s : str_all is_base64url s = true -> contains_char "010" s = false.
Proof. apply str_all_not_any. by_bytes. Qed.

Lemma decimal_no_newline z : contains_char "010" (pretty (z : Z)) = false.
Proof.
  destruct z as [|p|p]; [done|..]; cbn [pretty pretty_Z].
  2: rewrite contains_char_append; apply orb_false_iff; split; [done|].
  all: apply (str_all_not_any is_ascii_digit); [by_bytes|apply (pretty_N_digits (Npos p))].
Qed.

Lemma append_inj_r_length a b c d :
  String.length c = String.length d -> a +:+ c = b +:+ d -> a = b /\ c = d.
Proof.
  intros Hl. revert b. induction a as [|x a IH]; intros [|y b]; cbn [String.append].
  - done.
  - intros ->. cbn in Hl. rewrite length_append in Hl. lia.
  - intros <-. cbn in Hl. rewrite length_append in Hl. lia.
  - intros [= -> [-> ->]%IH]. done.
Qed.

(** Header parsing accepts exactly one spelling of every well-formed set of
    headers: the texts accepted are those a client prints from canonical
    headers, so a request cannot be respelled and stay valid. *)
Theorem parse_headers_iff_printed t n s h :
  parse_headers t n s = Ok h <->
  canonical_headers h /\ t = pretty (vh_timestamp h) /\ n = vh_nonce h /\ s = "v1=" +:+ hex (vh_signature h).
Proof.
  unfold parse_headers. split.
  - intros H. ok_inv. bools. apply strip_prefix_Some in E3 as ->.
    assert (canonical_digits t = true) as Ht.
    { unfold canonical_digits. apply andb_true_iff. split; [|done].
      apply andb_true_iff. split; by apply negb_true_iff. }
    apply parse_unsigned_canonical in E0 as [Hr <-]; [|done..].
    apply (signature_bytes_inv 32) in E5 as [-> Hl]; [|done].
    repeat split; try done; [exact (proj1 Hr)|exact (proj2 Hr)|by exists a1].
  - destruct h as [z n' d sig]. unfold canonical_headers.
    cbn [vh_timestamp vh_nonce vh_nonce_sha256 vh_signature].
    intros [(Hr & (b & Hb & ->) & -> & Hl) (-> & -> & ->)].
    pose proof (pretty_canonical (Z.to_N z)) as Hc. rewrite <- pretty_nonneg in Hc by lia.
    unfold canonical_digits in Hc. apply andb_true_iff in Hc as [[Hne Hz]%andb_true_iff Hd].
    apply negb_true_iff in Hne, Hz. rewrite Hne, Hz, Hd. cbn.
    rewrite parse_unsigned_pretty by lia. cbn. rewrite base64_decode_encode. cbn.
    pass_guard. cbn. pass_guard. 2: by rewrite hex_length, Hl. 2: apply hex_lower.
    cbn. by rewrite signature_bytes_hex.
Qed.

(** What is signed is unambiguous: two signing inputs with well-formed nonces
    are equal only for the same second, nonce, application and body digest, so
    a signature cannot be moved to another application, nonce or time. *)
Theorem signing_input_injective app1 app2 body1 body2 t1 t2 n1 n2 :
  canonical_nonce n1 -> canonical_nonce n2 ->
  signing_input app1 body1 t1 n1 = signing_input app2 body2 t2 n2 ->
  t1 = t2 /\ n1 = n2 /\ app1 = app2 /\ sha256 body1 = sha256 body2.
Proof.
  intros (b1 & _ & ->) (b2 & _ & ->) H.
  assert (Hn : forall b, contains_char "010" (base64_encode b) = false)
    by (intros b; apply base64_no_newline, base64_alphabet).
  assert (Hparts : forall app body t b, split "010" (signing_input app body t (base64_encode b)) =
    "solodock-webhook-v1" :: pretty t :: base64_encode b :: "POST"
    :: split "010" ("/hooks/v1/apps/" +:+ uuid_to_string app +:+ "/registry" +:+ newline +:+ hex (sha256 body))).
  { intros app body t b. unfold signing_input, newline.
    repeat (change (String "010" EmptyString +:+ ?x) with (String "010" x);
            rewrite split_append by first [done | apply decimal_no_newline | apply Hn]; f_equal). }
  apply (f_equal (split "010")) in H. rewrite !Hparts in H.
  do 2 (match type of H with context [split ?c (String.append "/hooks/v1/apps/" ?r)] =>
    let l := fresh "l" in remember (split c ("/hooks/v1/apps/" +:+ r)) as l end).
  injection H as Ht Hb Hrest. subst l l0.
  apply (f_equal (join newline)) in Hrest. unfold newline in Hrest. rewrite !join_split in Hrest.
  apply append_inj_l, append_inj_r_length in Hrest as [Happ Hbody];
    [|by rewrite !length_append, !hex_length, !sha256_length].
  apply append_inj_l, append_inj_l, (f_equal signature_bytes) in Hbody.
  rewrite !signature_bytes_hex in Hbody. apply (f_equal uuid_parse) in Happ.
  rewrite !uuid_parse_to_string in Happ. apply (inj pretty) in Ht. by simplify_eq.
Qed.

End protocol.

(** ** A concrete signed request *)

Definition demo_secret : string := hex "0123456789abcdef0123456789abcdef".
Definition demo_nonce : string := hex "nonce-of-16bytes".

Definition demo_body : string := "{'event':'registry.push'}".

Definition demo_headers : VerifiedHeaders :=
  MkVerifiedHeaders 1800000000 demo_nonce (sha256 (Crypto := demo_crypto) demo_nonce)
    (hmac_sha256 (Crypto := demo_crypto) "0123456789abcdef0123456789abcdef"
       (signing_input (CR := demo_crypto) (UT := binary_uuid_text) 7 demo_body 1800000000 demo_nonce)).

Lemma signing_input_injective_witness :
  (1800000000%Z = 1800000000%Z /\ demo_nonce = demo_nonce /\ 7%N = 7%N
   /\ sha256 (Crypto := demo_crypto) demo_body = sha256 (Crypto := demo_crypto) demo_body)
  /\ verify (CR := demo_crypto) (UT := binary_uuid_text) 7 demo_body demo_headers demo_secret
       (1800000300 * 1000000000) = Ok tt
  /\ verify (CR := demo_crypto) (UT := binary_uuid_text) 8 demo_body demo_headers demo_secret
       (1800000300 * 1000000000) = Err PeSignature.
Proof.
  split; [|by vm_compute].
  apply (signing_input_injective (CR := demo_crypto) (UT := binary_uuid_text)); [by exists "nonce-of-16bytes"..|done].
Defined.
