(* ===== verification/RateLimit.v ===== *)
(** * RateLimit: the webhook request limiter

    [src/webhook/rate.rs]. One fixed window of sixty seconds with a global
    bucket and one bucket per known application, under a mutex: a call is one
    atomic step. The clock is read once to test the window and once more when
    a new window opens. *)

From S2P Require Import Prelude PollStates.

Record RateState := MkRateState {
  rs_window : Time;
  rs_global : Z;
  rs_apps : gmap Uuid Z;
}.

#[export] Instance eta_RateState : Eta RateState := fun r =>
  MkRateState (rs_window r) (rs_global r) (rs_apps r).

Definition rate_default (now : Time) : RateState := MkRateState now 0 ∅.

(** [Instant::elapsed] saturates at zero. *)
Definition elapsed (since now : Time) : Z := Z.max 0 (now - since).

Definition open_window (read reset : Time) (st : RateState) : RateState :=
  if (seconds 60 <=? elapsed (rs_window st) read)%Z then rate_default reset else st.

Definition check (read reset : Time) (app_id : option Uuid) (known_app : bool) (st : RateState)
    : bool * RateState :=
  let state := open_window read reset st in
  if (120 <=? rs_global state)%Z then (false, state)
  else
    let state := state <| rs_global := (rs_global state + 1)%Z |> in
    match app_id with
    | Some app_id =>
        if known_app then
          let count := default 0%Z (rs_apps state !! app_id) in
          if (10 <=? count)%Z then (false, state <| rs_apps := <[app_id := count]> (rs_apps state) |>)
          else (true, state <| rs_apps := <[app_id := (count + 1)%Z]> (rs_apps state) |>)
        else (true, state)
    | None => (true, state)
    end.

Definition retain_apps (ids : list Uuid) (st : RateState) : RateState :=
  st <| rs_apps := filter (fun kv => kv.1 ∈ ids) (rs_apps st) |>.

(** ** Histories *)

Inductive rate_op :=
| RateCheck (read reset : Time) (app_id : option Uuid) (known_app : bool)
| RateRetain (ids : list Uuid).

(** The requests admitted by a history, in order, with the final state. *)
Fixpoint serve (st : RateState) (ops : list rate_op) : RateState * list (option Uuid * bool) :=
  match ops with
  | [] => (st, [])
  | RateCheck read reset app_id known :: ops =>
      let '(granted, st) := check read reset app_id known st in
      let '(st, rest) := serve st ops in
      (st, if granted then (app_id, known) :: rest else rest)
  | RateRetain ids :: ops => serve (retain_apps ids st) ops
  end.

(** The clock readings of a history are ordered, from a given instant on. *)
Fixpoint timed (from : Time) (ops : list rate_op) : Prop :=
  match ops with
  | [] => True
  | RateCheck read reset _ _ :: ops => (from <= read <= reset)%Z /\ timed reset ops
  | RateRetain _ :: ops => timed from ops
  end.

Definition op_within (first last : Time) (op : rate_op) : Prop :=
  match op with RateCheck read _ _ _ => (first <= read < last)%Z | RateRetain _ => True end.

Definition op_retains (app_id : Uuid) (op : rate_op) : Prop :=
  match op with RateCheck _ _ _ _ => True | RateRetain ids => app_id ∈ ids end.

Definition for_app (app_id : Uuid) (granted : list (option Uuid * bool)) : list (option Uuid * bool) :=
  filter (fun g => g = (Some app_id, true)) granted.

(** ** The invariant of the counters *)

Definition app_count (app_id : Uuid) (st : RateState) : Z := default 0%Z (rs_apps st !! app_id).

Record rate_wf (st : RateState) : Prop := {
  wf_global : (0 <= rs_global st <= 120)%Z;
  wf_apps : forall app_id, (0 <= app_count app_id st <= 10)%Z;
}.

Lemma rate_default_wf now : rate_wf (rate_default now).
Proof. split; [done|]. intros app_id. unfold app_count. cbn. rewrite lookup_empty. done. Qed.

Lemma open_window_wf read reset st : rate_wf st -> rate_wf (open_window read reset st).
Proof. intros Hwf. unfold open_window. case_match; [apply rate_default_wf|done]. Qed.

(** What one admitted or refused request costs. *)
Lemma check_spec read reset app_id known st :
  rate_wf st ->
  let st1 := open_window read reset st in
  let '(granted, st') := check read reset app_id known st in
  rate_wf st' /\ rs_window st' = rs_window st1
  /\ ((if granted then 1 else 0) <= rs_global st' - rs_global st1)%Z
  /\ forall app, ((if granted && bool_decide ((app_id, known) = (Some app, true)) then 1 else 0)
                  <= app_count app st' - app_count app st1)%Z.
Proof.
  intros Hwf. apply (open_window_wf read reset) in Hwf. unfold check. cbv zeta.
  set (st1 := open_window read reset st) in *. destruct Hwf as [Hg Ha].
  destruct (Z.leb_spec 120 (rs_global st1)).
  { repeat split; try done; try lia; intros; try apply Ha; cbn; lia. }
  destruct app_id as [a|], known; cbn -[app_count].
  2-4: split; [split; [cbn; lia|exact Ha]|]; split; [done|]; split; [cbn; lia|]; intros app;
       rewrite bool_decide_eq_false_2 by done; unfold app_count; cbn; lia.
  pose proof (Ha a) as Haa. unfold app_count in Haa.
  destruct (Z.leb_spec 10 (default 0%Z (rs_apps st1 !! a))); cbn -[app_count].
  all: split; [split; [cbn; lia|]|split; [done|split; [cbn; lia|]]]; intros app;
    specialize (Ha app); unfold app_count in *; cbn;
    destruct (decide (a = app)) as [->|Hne]; rewrite ?lookup_insert_eq, ?lookup_insert_ne by done; cbn;
    rewrite ?bool_decide_eq_false_2 by congruence; rewrite ?bool_decide_eq_true_2 by done; lia.
Qed.

Lemma retain_apps_count ids app st :
  app_count app (retain_apps ids st) = if bool_decide (app ∈ ids) then app_count app st else 0%Z.
Proof.
  unfold app_count, retain_apps. cbn. rewrite map_lookup_filter.
  destruct (rs_apps st !! app) as [n|]; cbn; [|by case_bool_decide].
  case_bool_decide; [by rewrite option_guard_True|by rewrite option_guard_False].
Qed.

Lemma retain_apps_wf ids st : rate_wf st -> rate_wf (retain_apps ids st).
Proof.
  intros [Hg Ha]. split; [done|]. intros app. rewrite retain_apps_count.
  case_bool_decide; [apply Ha|lia].
Qed.

(** Every history keeps the counters within the widths of their types. *)
Lemma serve_wf st ops : rate_wf st -> rate_wf (serve st ops).1.
Proof.
  revert st. induction ops as [|[read reset app known|ids] ops IH]; intros st Hwf; cbn [serve]; [done|..].
  - pose proof (check_spec read reset app known st Hwf) as Hc.
    destruct (check read reset app known st) as [g st']. destruct Hc as [Hwf' _].
    specialize (IH st' Hwf'). by destruct (serve st' ops).
  - by apply IH, retain_apps_wf.
Qed.

(** What is left in an interval of one window length that starts at [a]: one
    bucket once a window opened inside it, two before. *)
Definition budget (a : Time) (size : Z) (used : Z) (st : RateState) : Z :=
  ((if (a <=? rs_window st)%Z then size else 2 * size) - used)%Z.

Lemma open_window_budget a size (used : RateState -> Z) read reset st :
  (a <= read < a + seconds 60)%Z -> (read <= reset)%Z -> (used st <= size)%Z ->
  used (rate_default reset) = 0%Z ->
  let st1 := open_window read reset st in
  (budget a size (used st1) st1 <= budget a size (used st) st)%Z.
Proof.
  intros Ha Hr Hu H0. unfold open_window.
  destruct (Z.leb_spec (seconds 60) (elapsed (rs_window st) read)) as [Hw|]; [|done].
  cbv zeta. rewrite H0. unfold budget, elapsed, seconds in *. cbn [rate_default rs_window].
  repeat case_match; lia.
Qed.

Lemma serve_budget a from st ops :
  rate_wf st -> timed from ops -> Forall (op_within a (a + seconds 60)) ops ->
  let granted := (serve st ops).2 in
  (Z.of_nat (length granted) <= budget a 120 (rs_global st) st)%Z
  /\ forall app, Forall (op_retains app) ops ->
     (Z.of_nat (length (for_app app granted)) <= budget a 10 (app_count app st) st)%Z.
Proof.
  revert from st. induction ops as [|[read reset app_id known|ids] ops IH]; intros from st Hwf Ht Hw;
    cbn [serve].
  - destruct Hwf as [Hg Ha]. split; [|intros app _; specialize (Ha app)];
      unfold budget; cbn; case_match; lia.
  - destruct Ht as [Hr Ht]. apply Forall_cons_1 in Hw as [Hin Hw]. cbn in Hin.
    pose proof (check_spec read reset app_id known st Hwf) as Hc.
    destruct (check read reset app_id known st) as [g st']. destruct Hc as (Hwf' & Hwin & Hg & Happ).
    specialize (IH reset st' Hwf' Ht Hw). destruct (serve st' ops) as [st'' rest]. cbn [snd] in *.
    destruct IH as [IH1 IH2]. destruct Hwf as [Hg0 Ha0]. split.
    + pose proof (open_window_budget a 120 rs_global read reset st ltac:(lia) ltac:(lia) ltac:(lia) eq_refl).
      unfold budget in *. rewrite Hwin in *. destruct g; cbn [length]; lia.
    + intros app [_ Hret]%Forall_cons_1. specialize (IH2 app Hret). specialize (Happ app).
      pose proof (open_window_budget a 10 (app_count app) read reset st ltac:(lia) ltac:(lia)
        ltac:(apply Ha0) eq_refl).
      unfold budget in *. rewrite Hwin in *. unfold for_app in *.
      destruct g; cbn [andb] in Happ; [|lia]. rewrite filter_cons.
      case_bool_decide; [rewrite decide_True by done|rewrite decide_False by done]; cbn [length]; lia.
  - apply Forall_cons_1 in Hw as [_ Hw].
    destruct (IH from (retain_apps ids st) (retain_apps_wf ids st Hwf) Ht Hw) as [IH1 IH2].
    split; [exact IH1|]. intros app [Hin Hret]%Forall_cons_1. specialize (IH2 app Hret). cbn in Hin.
    rewrite retain_apps_count, bool_decide_eq_true_2 in IH2 by done. exact IH2.
Qed.

(** ** Theorem *)

(** C39: whatever the traffic, any sixty seconds admit at most two windows'
    worth of requests: 240 in total, and 20 for a known application that stays
    registered; the counters never leave the range of their machine types. *)
Theorem rate_limits_hold t0 before during a :
  timed t0 during -> Forall (op_within a (a + seconds 60)) during ->
  let st := (serve (rate_default t0) before).1 in
  let granted := (serve st during).2 in
  rate_wf st
  /\ length granted <= 240
  /\ forall app, Forall (op_retains app) during -> length (for_app app granted) <= 20.
Proof.
  intros Ht Hw. cbv zeta.
  pose proof (serve_wf _ before (rate_default_wf t0)) as Hwf.
  set (st := (serve (rate_default t0) before).1) in *.
  destruct (serve_budget a t0 st during Hwf Ht Hw) as [H1 H2]. cbv zeta in H1, H2.
  destruct Hwf as [Hg Ha]. split; [by split|]. unfold budget in *. split.
  - destruct (a <=? rs_window st)%Z; lia.
  - intros app Hr. specialize (H2 app Hr). specialize (Ha app).
    destruct (a <=? rs_window st)%Z; lia.
Qed.

(** Thirty requests of one application across a window boundary: exactly
    twenty are admitted, so the bound is reached. *)
Definition demo_burst (from : Time) (n : nat) : list rate_op :=
  replicate n (RateCheck from from (Some 7%N) true).

Lemma rate_limits_hold_witness :
  length (serve (rate_default 0) (demo_burst (seconds 59) 15 ++ demo_burst (seconds 60) 15)).2 = 20
  /\ length (for_app 7%N
       (serve (serve (rate_default 0) []).1 (demo_burst (seconds 59) 15 ++ demo_burst (seconds 60) 15)).2) <= 20.
Proof.
  split; [by vm_compute|].
  apply (rate_limits_hold 0 [] (demo_burst (seconds 59) 15 ++ demo_burst (seconds 60) 15) (seconds 59)).
  - repeat split; by vm_compute.
  - apply Forall_app. split; apply Forall_replicate; by vm_compute.
  - apply Forall_app. split; by apply Forall_replicate.
Defined.
