(* ===== verification/Ingress.v ===== *)
(** * Ingress: the public webhook endpoint

    [src/webhook/ingress.rs] with [WebhookStore::load_current] of
    [src/webhook/store.rs]. The handler is a function of what it observes: the
    request, the stores as they answer at each point where it reads them, the
    clock readings, the limiter and the database. Reads before the catalog
    lock and reads under it are separate observations, because other mutations
    may run in between. *)

From S2P Require Import Prelude Text Codec Models Database PollStates RateLimit WebhookProtocol.
From Stdlib Require Import Ascii.

(** ** The webhook configuration *)

Record WebhookMetadata := MkWebhookMetadata {
  wm_schema_version : Z;
  wm_app_id : Uuid;
  wm_enabled : bool;
  wm_metadata_revision : Uuid;
  wm_secret_revision : option Uuid;
  wm_last_operation_id : Uuid;
  wm_created_at : Time;
  wm_updated_at : Time;
  wm_rotated_at : option Time;
  wm_integrity_hmac : string;
}.

Record LoadedWebhook := MkLoadedWebhook { lw_metadata : WebhookMetadata; lw_secret : string }.

(** The three reads are the application metadata, the webhook metadata and the
    secret of a revision. *)
Definition load_current (read_metadata : result StoreError AppMetadata)
    (load_metadata : result StoreError WebhookMetadata)
    (load_revision : Uuid -> WebhookMetadata -> result StoreError string)
    : result StoreError LoadedWebhook :=
  app ← read_metadata;
  _ ← refuse_if (negb (is_configured app)) SeContentInvalid;
  metadata ← load_metadata;
  _ ← refuse_if (negb (wm_enabled metadata)) SeContentInvalid;
  revision ← ok_or (wm_secret_revision metadata) SeContentInvalid;
  secret ← load_revision revision metadata;
  Ok (MkLoadedWebhook metadata secret).

(** ** Requests and responses *)

(** Header names are lower case; a name may occur several times. The body is
    what the connection delivers, or nothing when it breaks off. *)
Record Request := MkRequest {
  rq_app_text : string;
  rq_headers : list (string * string);
  rq_body : option string;
}.

Inductive Response :=
| Accepted (request_id : Uuid)
| NotFound
| WebhookError (status : Z) (code : string) (request_id : Uuid).

#[export] Instance Response_eq_dec : EqDecision Response.
Proof. solve_decision. Defined.

(** [HeaderValue::to_str]: visible ASCII and tabs only. *)
Definition header_to_str (value : string) : option string :=
  if str_all (fun c => ((32 <=? code c)%N && (code c <? 127)%N) || (code c =? 9)%N) value
  then Some value else None.

Definition get_all (headers : list (string * string)) (name : string) : list string :=
  (filter (fun h => h.1 = name) headers).*2.

Definition one_header (headers : list (string * string)) (name : string) : option string :=
  match get_all headers name with
  | value :: rest =>
      text ← header_to_str value;
      if is_nil rest then Some text else None
  | [] => None
  end.

(** [to_bytes(body, MAX_BODY_BYTES)]. *)
Definition read_body (request : Request) : option string :=
  body ← rq_body request;
  if (String.length body <=? MAX_BODY_BYTES)%nat then Some body else None.

(** ** What the handler observes *)

Record View := MkView {
  vw_webhooks : bool;
  vw_permit : bool;
  vw_limiter_read : Time;
  vw_limiter_reset : Time;
  vw_catalog : Uuid -> option AppCatalogEntry;
  vw_loaded : Uuid -> result StoreError LoadedWebhook;
  vw_verified_at : Time;
  vw_m3 : bool;
  vw_m4 : bool;
  vw_current : Uuid -> result StoreError LoadedWebhook;
  vw_metadata : Uuid -> result StoreError AppMetadata;
  vw_generation : AppMetadata -> result StoreError string;
  vw_accepted_at : Time;
  vw_database_ok : bool;
}.

Record Outcome := MkOutcome {
  oc_response : Response;
  oc_limiter : RateState;
  oc_database : Database;
  oc_notified : bool;
}.

Section ingress.
Context {CR : Crypto} {UT : UuidText} {ST : SqlTime}.
(** [serde_json::from_slice::<WebhookPayload>] succeeds. *)
Variable payload_valid : string -> bool.

Definition required_headers (headers : list (string * string)) : option VerifiedHeaders :=
  timestamp ← one_header headers "x-solodock-timestamp";
  nonce ← one_header headers "x-solodock-nonce";
  signature ← one_header headers "x-solodock-signature";
  result_ok (parse_headers timestamp nonce signature).

Definition webhook_error := WebhookError.
Definition unauthorized (request_id : Uuid) : Response :=
  webhook_error 401 "WEBHOOK_UNAUTHORIZED" request_id.

(** The [Content-Length] test made before anything is read. *)
Definition declared_too_large (headers : list (string * string)) : bool :=
  is_some_and (value ← head (get_all headers "content-length");
               text ← header_to_str value;
               parse_unsigned u64_max text)
    (fun length => (Z.of_nat MAX_BODY_BYTES <? length)%Z).

(** The part of the handler under the catalog lock. *)
Definition receive_locked (view : View) (request_id : Uuid) (app_id : Uuid) (parsed : VerifiedHeaders)
    (loaded : LoadedWebhook) (limiter : RateState) (db : Database) : Outcome :=
  let answer response := MkOutcome response limiter db false in
  match vw_current view app_id with
  | Err _ => answer (unauthorized request_id)
  | Ok current =>
  if wm_secret_revision (lw_metadata current) ≠? wm_secret_revision (lw_metadata loaded)
  then answer (unauthorized request_id) else
  match vw_metadata view app_id with
  | Err _ => answer (unauthorized request_id)
  | Ok metadata =>
  if negb (is_configured metadata) then answer (webhook_error 409 "APP_UNCONFIGURED" request_id) else
  match vw_generation view metadata with
  | Err _ => answer (webhook_error 503 "WEBHOOK_STORE_DEGRADED" request_id)
  | Ok generation =>
  match wm_secret_revision (lw_metadata current) with
  | None => answer (unauthorized request_id) (* unreachable: an enabled webhook has a revision *)
  | Some secret_revision =>
  if negb (vw_database_ok view) then answer (webhook_error 503 "WEBHOOK_STORE_DEGRADED" request_id) else
  let '(db', accepted) :=
    accept_webhook (vw_accepted_at view) app_id secret_revision (vh_nonce_sha256 parsed) request_id
      generation (am_auto_deploy_enabled metadata) db in
  match accepted with
  | WaReplay => MkOutcome (webhook_error 409 "WEBHOOK_REPLAYED" request_id) limiter db' false
  | _ => MkOutcome (Accepted request_id) limiter db' true
  end end end end end.

Definition receive (view : View) (request_id : Uuid) (request : Request) (limiter : RateState)
    (db : Database) : Outcome :=
  let answer response := MkOutcome response limiter db false in
  if negb (vw_webhooks view) then answer NotFound else
  if declared_too_large (rq_headers request)
  then answer (webhook_error 422 "WEBHOOK_PAYLOAD_INVALID" request_id) else
  if negb (vw_permit view) then answer (webhook_error 429 "WEBHOOK_RATE_LIMITED" request_id) else
  match read_body request with
  | None => answer (webhook_error 422 "WEBHOOK_PAYLOAD_INVALID" request_id)
  | Some body =>
  let known := match uuid_parse (rq_app_text request) with
               | Some value => if rq_app_text request =? uuid_to_string value then Some value else None
               | None => None
               end in
  let catalog_app := known ≫= vw_catalog view in
  let '(granted, limiter) :=
    check (vw_limiter_read view) (vw_limiter_reset view) known (is_some catalog_app) limiter in
  let answer response := MkOutcome response limiter db false in
  if negb granted then answer (webhook_error 429 "WEBHOOK_RATE_LIMITED" request_id) else
  match known with
  | None => answer (unauthorized request_id)
  | Some app_id =>
  if is_some_and catalog_app (fun app => is_none (ce_draft_revision app))
  then answer (webhook_error 409 "APP_UNCONFIGURED" request_id) else
  if one_header (rq_headers request) "content-type" ≠? Some "application/json"
  then answer (webhook_error 422 "WEBHOOK_PAYLOAD_INVALID" request_id) else
  match required_headers (rq_headers request) with
  | None => answer (unauthorized request_id)
  | Some parsed =>
  match vw_loaded view app_id with
  | Err _ => answer (unauthorized request_id)
  | Ok loaded =>
  if negb (is_ok (verify app_id body parsed (lw_secret loaded) (vw_verified_at view)))
  then answer (unauthorized request_id) else
  if negb (payload_valid body) then answer (webhook_error 422 "WEBHOOK_PAYLOAD_INVALID" request_id) else
  if negb (vw_m3 view) then answer (webhook_error 503 "WEBHOOK_UNAVAILABLE" request_id) else
  if negb (vw_m4 view) then answer (webhook_error 503 "WEBHOOK_UNAVAILABLE" request_id) else
  receive_locked view request_id app_id parsed loaded limiter db
  end end end end.

(** ** What an acceptance proves *)

Record acceptance (view : View) (request_id : Uuid) (request : Request) (db db' : Database)
    (app_id : Uuid) (parsed : VerifiedHeaders) (secret_revision : Uuid) : Prop := {
  ac_app : rq_app_text request = uuid_to_string app_id;
  ac_headers : required_headers (rq_headers request) = Some parsed;
  ac_body : exists body secret,
    rq_body request = Some body /\ String.length body <= MAX_BODY_BYTES /\ payload_valid body = true
    /\ verify app_id body parsed secret (vw_verified_at view) = Ok tt
    /\ exists loaded, vw_loaded view app_id = Ok loaded /\ lw_secret loaded = secret
       /\ wm_secret_revision (lw_metadata loaded) = Some secret_revision;
  ac_current : exists current, vw_current view app_id = Ok current
    /\ wm_secret_revision (lw_metadata current) = Some secret_revision;
  ac_stored : exists metadata generation accepted,
    vw_metadata view app_id = Ok metadata /\ is_configured metadata = true
    /\ vw_generation view metadata = Ok generation /\ accepted <> WaReplay
    /\ accept_webhook (vw_accepted_at view) app_id secret_revision (vh_nonce_sha256 parsed) request_id
         generation (am_auto_deploy_enabled metadata) db = (db', accepted);
}.

Lemma accept_replay_same now app revision nonce request generation enabled db db' :
  accept_webhook now app revision nonce request generation enabled db = (db', WaReplay) -> db' = db.
Proof.
  unfold accept_webhook. destruct (existsb _ _); [by intros [=]|].
  destruct enabled; [destruct (is_some_and _ _)|]; intros Heq; simplify_eq.
Qed.

Lemma receive_locked_spec view request_id app_id parsed loaded limiter db :
  let o := receive_locked view request_id app_id parsed loaded limiter db in
  (oc_database o = db /\ oc_notified o = false /\ forall id, oc_response o <> Accepted id)
  \/ oc_response o = Accepted request_id /\ oc_notified o = true /\
     exists current secret_revision metadata generation accepted,
       vw_current view app_id = Ok current
       /\ wm_secret_revision (lw_metadata current) = wm_secret_revision (lw_metadata loaded)
       /\ wm_secret_revision (lw_metadata current) = Some secret_revision
       /\ vw_metadata view app_id = Ok metadata /\ is_configured metadata = true
       /\ vw_generation view metadata = Ok generation /\ accepted <> WaReplay
       /\ accept_webhook (vw_accepted_at view) app_id secret_revision (vh_nonce_sha256 parsed) request_id
            generation (am_auto_deploy_enabled metadata) db = (oc_database o, accepted).
Proof.
  cbv zeta. unfold receive_locked.
  destruct (vw_current view app_id) as [current|]; [|by left].
  case_bool_decide as Hrev; cbn [negb]; [|by left].
  destruct (vw_metadata view app_id) as [metadata|]; [|by left].
  destruct (is_configured metadata) eqn:Hconf; cbn [negb]; [|by left].
  destruct (vw_generation view metadata) as [generation|] eqn:Hgen; [|by left].
  destruct (wm_secret_revision (lw_metadata current)) as [rev|] eqn:Hr; [|by left].
  destruct (vw_database_ok view); cbn [negb]; [|by left].
  destruct (accept_webhook _ _ _ _ _ _ _ _) as [db' a] eqn:Hacc.
  destruct (decide (a = WaReplay)) as [->|Hne].
  - left. apply accept_replay_same in Hacc as ->. done.
  - right. destruct a; try done; (split; [done|split; [done|]]);
      exists current, rev, metadata, generation; eexists; repeat split; try done; congruence.
Qed.

Lemma receive_spec view request_id request limiter db :
  let o := receive view request_id request limiter db in
  (oc_database o = db /\ oc_notified o = false /\ forall id, oc_response o <> Accepted id)
  \/ oc_response o = Accepted request_id /\ oc_notified o = true
     /\ exists app_id parsed secret_revision,
          acceptance view request_id request db (oc_database o) app_id parsed secret_revision.
Proof.
  cbv zeta. unfold receive.
  destruct (vw_webhooks view); cbn [negb]; [|by left].
  destruct (declared_too_large _); [by left|].
  destruct (vw_permit view); cbn [negb]; [|by left].
  destruct (read_body request) as [body|] eqn:Hbody; [|by left].
  set (known := match uuid_parse _ with Some _ => _ | None => _ end).
  destruct (check _ _ _ _ _) as [granted limiter'].
  destruct granted; cbn [negb]; [|by left].
  destruct known as [app_id|] eqn:Hknown; [|by left].
  destruct (is_some_and _ _); [by left|].
  destruct (_ ≠? Some "application/json"); [by left|].
  destruct (required_headers _) as [parsed|] eqn:Hheaders; [|by left].
  destruct (vw_loaded view app_id) as [loaded|] eqn:Hloaded; [|by left].
  destruct (verify _ _ _ _ _) as [[]|] eqn:Hverify; cbn [is_ok negb]; [|by left].
  destruct (payload_valid body) eqn:Hpayload; cbn [negb]; [|by left].
  destruct (vw_m3 view); cbn [negb]; [|by left].
  destruct (vw_m4 view); cbn [negb]; [|by left].
  destruct (receive_locked_spec view request_id app_id parsed loaded limiter' db)
    as [?|(Hresp & Hnot & current & rev & metadata & generation & accepted & Hcur & Heq & Hrev & Hmeta
           & Hconf & Hgen & Hne & Hacc)]; [by left|right].
  split; [done|]. split; [done|]. exists app_id, parsed, rev. split; [|done| | |].
  - unfold known in Hknown. destruct (uuid_parse _); [|done]. case_bool_decide; [|done]. by simplify_eq.
  - unfold read_body in Hbody. destruct (rq_body request) as [b|]; [|done]. cbn in Hbody.
    destruct (Nat.leb_spec (String.length b) MAX_BODY_BYTES); [|done]. simplify_eq.
    exists body, (lw_secret loaded). repeat split; try done. exists loaded. repeat split; try done. congruence.
  - eauto.
  - eauto 10.
Qed.

Lemma required_headers_canonical headers parsed :
  required_headers headers = Some parsed -> exists t n s, parse_headers t n s = Ok parsed.
Proof.
  unfold required_headers. intros H.
  apply bind_Some in H as (t & _ & (n & _ & (s & _ & H)%bind_Some)%bind_Some).
  exists t, n, s. by destruct (parse_headers t n s); simplify_eq/=.
Qed.

(** ** Theorems *)

(** C33: the endpoint only accepts authentic requests: an accepted request names
    a canonical application, has a small valid body, and carries a fresh nonce
    and a signature that verifies under a secret that is still current under
    the catalog lock; any other request leaves the database untouched and
    wakes nobody. *)
Theorem receive_accepts_only_authentic view request_id request limiter db :
  let o := receive view request_id request limiter db in
  match oc_response o with
  | Accepted _ => exists app_id parsed secret_revision,
      acceptance view request_id request db (oc_database o) app_id parsed secret_revision
  | _ => oc_database o = db /\ oc_notified o = false
  end.
Proof.
  pose proof (receive_spec view request_id request limiter db) as Hs. cbv zeta in *.
  destruct Hs as [(Hdb & Hnot & Hne)|(Hr & _ & He)]; [|by rewrite Hr].
  destruct (oc_response _) as [other| |]; [by destruct (Hne other)|done..].
Qed.

(** The window of a verified request, in seconds. *)
Lemma acceptance_window view request_id request db db' app_id parsed revision :
  acceptance view request_id request db db' app_id parsed revision ->
  (Z.abs (unix_timestamp (vw_verified_at view) - vh_timestamp parsed) <= TIMESTAMP_WINDOW_SECONDS)%Z.
Proof. intros [_ _ (body & secret & _ & _ & _ & Hv & _) _ _]. by apply verify_ok in Hv as [? _]. Qed.

Lemma acceptance_wf view request_id request db db' app_id parsed revision :
  acceptance view request_id request db db' app_id parsed revision -> poll_wf db ->
  poll_wf db' /\ remembered (app_id, revision, vh_nonce_sha256 parsed)
                   (vw_accepted_at view + seconds 600) db'.
Proof.
  intros [_ _ _ _ (metadata & generation & a & _ & _ & _ & Hne & Hacc)] Hwf. split.
  - replace db' with (exec db (OpAccept (vw_accepted_at view) app_id revision (vh_nonce_sha256 parsed)
      request_id generation (am_auto_deploy_enabled metadata))) by (cbn; by rewrite Hacc).
    by apply exec_wf.
  - by eapply accept_remembers.
Qed.

(** C34: a signed request is accepted at most once, but for an edge. After an
    acceptance the same request under the same secret is refused as long as the
    nonce is kept, ten minutes from the acceptance, and afterwards as too old,
    provided that the whole seconds the second request waits between its
    verification and its acceptance, for the catalog lock above all, are fewer
    than those the first one had left behind of its own window when it was
    verified. So the edge in which a request may be accepted twice is the first
    second of its window, prolonged by that wait. *)
Theorem webhook_accepted_once view1 view2 id1 id2 request1 request2 limiter1 limiter2 db ops :
  let o1 := receive view1 id1 request1 limiter1 db in
  let o2 := receive view2 id2 request2 limiter2 (foldl exec (oc_database o1) ops) in
  poll_wf db -> Forall op_typed ops ->
  rq_app_text request2 = rq_app_text request1 -> rq_headers request2 = rq_headers request1 ->
  (forall app_id current1 current2,
     vw_current view1 app_id = Ok current1 -> vw_current view2 app_id = Ok current2 ->
     wm_secret_revision (lw_metadata current1) = wm_secret_revision (lw_metadata current2)) ->
  (forall app_id, rq_app_text request1 = uuid_to_string app_id -> Forall (op_keeps app_id) ops) ->
  Forall (op_before (vw_accepted_at view1 + seconds 600)) ops ->
  (unix_timestamp (vw_verified_at view1) <= unix_timestamp (vw_accepted_at view1))%Z ->
  (forall parsed, required_headers (rq_headers request1) = Some parsed ->
     unix_timestamp (vw_accepted_at view2) - unix_timestamp (vw_verified_at view2)
     < unix_timestamp (vw_verified_at view1) - (vh_timestamp parsed - TIMESTAMP_WINDOW_SECONDS))%Z ->
  oc_response o1 = Accepted id1 -> oc_response o2 <> Accepted id2.
Proof.
  cbv zeta. intros Hwf Ht Happ Hhd Hsec Hkeep Hbefore Hclock Hearly Hr1 Hr2.
  destruct (receive_spec view1 id1 request1 limiter1 db) as [(_ & _ & Hne)|(_ & _ & app1 & h1 & rev1 & A1)];
    [by apply (Hne id1)|].
  destruct (receive_spec view2 id2 request2 limiter2
    (foldl exec (oc_database (receive view1 id1 request1 limiter1 db)) ops))
    as [(_ & _ & Hne)|(_ & _ & app2 & h2 & rev2 & A2)]; [by apply (Hne id2)|].
  pose proof (acceptance_window _ _ _ _ _ _ _ _ A2) as Hw2.
  destruct (acceptance_wf _ _ _ _ _ _ _ _ A1 Hwf) as [Hwf1 Hrem].
  destruct A1 as [Ha1 Hh1 _ (c1 & Hc1 & Hrev1) _].
  destruct A2 as [Ha2 Hh2 _ (c2 & Hc2 & Hrev2) (metadata & generation & a & _ & _ & _ & Hne & Hacc)].
  assert (app2 = app1) as ->.
  { rewrite Happ, Ha1 in Ha2. apply (f_equal uuid_parse) in Ha2.
    rewrite !uuid_parse_to_string in Ha2. by simplify_eq. }
  rewrite Hhd, Hh1 in Hh2. injection Hh2 as <-.
  specialize (Hsec app1 c1 c2 Hc1 Hc2). rewrite Hrev1, Hrev2 in Hsec. injection Hsec as <-.
  destruct (exec_all_remembers (app1, rev1, vh_nonce_sha256 h1) _ _ ops Hwf1 Ht (Hkeep app1 Ha1) Hbefore Hrem)
    as [Hwf2 Hrem2].
  rewrite (accept_remembered_replays _ _ _ _ _ _ _ _ _ Hwf2 Hrem2) in Hacc; [by simplify_eq|].
  specialize (Hearly h1 Hh1). unfold seconds, unix_timestamp, TIMESTAMP_WINDOW_SECONDS in *.
  rewrite Z.div_add by done. lia.
Qed.

End ingress.

(** ** Concrete requests *)

Definition demo_webhook : LoadedWebhook :=
  MkLoadedWebhook (MkWebhookMetadata 1 7%N true 30%N (Some 31%N) 32%N 0 0 None "") demo_secret.

Definition demo_app : AppMetadata :=
  MkAppMetadata 1 7%N "web" "Web" 1 (Some "nginx:1.27") None (Some 40%N) (Some "cfg") Stopped true 300 41%N 0 0.

(** Every store answers; the clock is read at the given instant throughout. *)
Definition demo_view (now : Time) : View :=
  MkView true true now now (fun _ => None) (fun _ => Ok demo_webhook) now true true
    (fun _ => Ok demo_webhook) (fun _ => Ok demo_app) (fun _ => Ok "g1") now true.

Definition demo_request : Request :=
  MkRequest (uuid_to_string (UuidText := binary_uuid_text) 7)
    [("content-type", "application/json"); ("x-solodock-timestamp", "1800000000");
     ("x-solodock-nonce", demo_nonce);
     ("x-solodock-signature", "v1=" +:+ hex (vh_signature demo_headers))]
    (Some demo_body).

Definition demo_receive (now : Time) (db : Database) : Outcome :=
  receive (CR := demo_crypto) (UT := binary_uuid_text) (ST := clock_sql_time)
    (fun body => body =? demo_body) (demo_view now) 50%N demo_request (rate_default 0) db.

Definition at_seconds (s : Z) (nanos : Z) : Time := (seconds s + nanos)%Z.

Lemma webhook_accepted_once_witness :
  oc_response (demo_receive (at_seconds 1800000001 0) empty_database) = Accepted 50%N
  /\ oc_response (demo_receive (at_seconds 1800000300 0)
       (oc_database (demo_receive (at_seconds 1800000001 0) empty_database))) <> Accepted 50%N.
Proof.
  split; [by vm_compute|]. unfold demo_receive.
  pose proof (webhook_accepted_once (CR := demo_crypto) (UT := binary_uuid_text) (ST := clock_sql_time)
    (fun body => body =? demo_body) (demo_view (at_seconds 1800000001 0)) (demo_view (at_seconds 1800000300 0))
    50%N 50%N demo_request demo_request (rate_default 0) (rate_default 0) empty_database []) as H.
  cbv zeta in H. cbn [foldl] in H. apply H; clear H.
  - apply empty_poll_wf.
  - constructor.
  - done.
  - done.
  - intros app c1 c2 [= <-] [= <-]. done.
  - constructor.
  - constructor.
  - by vm_compute.
  - intros parsed H. vm_compute in H. injection H as <-. by vm_compute.
  - by vm_compute.
Defined.

(** The edge of the window is open: the nonce of a request accepted during
    the first second in which it is valid expires ten minutes later, while the
    request itself stays valid to the end of that second, so the same signed
    request is accepted twice. *)
Theorem replay_accepted_at_window_edge :
  let first := at_seconds (1800000000 - 300) 100000000 in
  let second := at_seconds (1800000000 + 300) 200000000 in
  let o1 := demo_receive first empty_database in
  let o2 := demo_receive second (oc_database o1) in
  oc_response o1 = Accepted 50%N /\ oc_response o2 = Accepted 50%N
  /\ (pl_webhook_sequence <$> poll_states (oc_database o2) !! 7%N) = Some 2%Z.
Proof. by vm_compute. Qed.
