(* ===== verification/Idempotency.v ===== *)
(** * Idempotency: request keys, claims and replayed responses

    [src/mutation/idempotency.rs] over the table [idempotency_records]. A
    mutation claims its key before it acts and stores its response when it is
    done; a repeated request resumes or replays. The deployment claim inserts
    its deployment in the same transaction. *)

From S2P Require Import Prelude Text Codec Reference Models Database Ledger PollStates.
From Stdlib Require Import Ascii.

Inductive IdemStatus := IsPending | IsSucceeded | IsInterrupted | IsFailed.
Inductive IdemEffectPhase := IeStarted | IeCompleted.

#[export] Instance IdemStatus_eq_dec : EqDecision IdemStatus.
Proof. solve_decision. Defined.
#[export] Instance IdemEffectPhase_eq_dec : EqDecision IdemEffectPhase.
Proof. solve_decision. Defined.

(** A row of [idempotency_records] without its key columns. *)
Record IdemRow := MkIdemRow {
  ir_rowid : Z;
  ir_request_hmac : string;
  ir_operation_id : Uuid;
  ir_status : IdemStatus;
  ir_response_status : option Z;
  ir_response_body : option string;
  ir_error_code : option string;
  ir_effect_phase : option IdemEffectPhase;
  ir_pre_container_id : option string;
  ir_pre_started_at : option string;
  ir_post_container_id : option string;
  ir_created_at : Time;
  ir_updated_at : Time;
}.

#[export] Instance eta_IdemRow : Eta IdemRow := fun r =>
  MkIdemRow (ir_rowid r) (ir_request_hmac r) (ir_operation_id r) (ir_status r) (ir_response_status r)
    (ir_response_body r) (ir_error_code r) (ir_effect_phase r) (ir_pre_container_id r)
    (ir_pre_started_at r) (ir_post_container_id r) (ir_created_at r) (ir_updated_at r).

(** The primary key: actor, route and the authentication code of the raw key. *)
Abbreviation IdemKey := (string * string * string)%type (only parsing).

(** The table, the tables its transactions also write or read, and the
    operations that two other tables protect from collection. *)
Record IdemStore := MkIdemStore {
  is_records : gmap IdemKey IdemRow;
  is_database : Database;
  is_retirement_pending : list Uuid;
  is_unfinalized : list Uuid;
}.

#[export] Instance eta_IdemStore : Eta IdemStore := fun r =>
  MkIdemStore (is_records r) (is_database r) (is_retirement_pending r) (is_unfinalized r).

Definition empty_idem : IdemStore := MkIdemStore ∅ empty_database [] [].

Inductive ClaimResult :=
| New (operation_id : Uuid)
| Resume (operation_id : Uuid)
| Replay (operation_id : Uuid) (status : Z) (body : string).

(** [IeDecode] stands for the panic of the row decoder on a terminal record
    without a response. *)
Inductive IdempotencyError :=
| IeKeyRequired | IeKeyInvalid | IeReused | IeInProgress | IeRecordInvalid | IeRandom
| IePermission | IeDatabase | IeIo | IeStore | IeDecode.

#[export] Instance ClaimResult_eq_dec : EqDecision ClaimResult.
Proof. solve_decision. Defined.
#[export] Instance IdempotencyError_eq_dec : EqDecision IdempotencyError.
Proof. solve_decision. Defined.

Record EffectMarker := MkEffectMarker {
  em_phase : IdemEffectPhase;
  em_pre_container_id : option string;
  em_pre_started_at : option string;
  em_post_container_id : option string;
}.

Definition validate_key (value : string) : result IdempotencyError unit :=
  refuse_if (negb ((16 <=? String.length value) && (String.length value <=? 128))
             || negb (str_all (fun c => (33 <=? code c)%N && (code c <=? 126)%N) value)) IeKeyInvalid.

(** ** Statements on the table *)

Definition put (key : IdemKey) (row : IdemRow) (s : IdemStore) : IdemStore :=
  s <| is_records := <[key := row]> (is_records s) |>.

(** [UPDATE .. WHERE key AND cond]: the number of changed rows is one or none. *)
Definition update_record (key : IdemKey) (cond : IdemRow -> bool) (set : IdemRow -> IdemRow)
    (s : IdemStore) : option IdemStore :=
  row ← is_records s !! key;
  if cond row then Some (put key (set row) s) else None.

(** SQLite numbers a new row after the largest row number in use. *)
Definition next_rowid (s : IdemStore) : Z :=
  (max_or_zero (ir_rowid <$> (map_to_list (is_records s)).*2) + 1)%Z.

Definition pending_row (now : Time) (rowid : Z) (request_hmac : string) (operation_id : Uuid) : IdemRow :=
  MkIdemRow rowid request_hmac operation_id IsPending None None None None None None None now now.

Definition audit (s : IdemStore) (event : AuditEvent) : IdemStore :=
  s <| is_database := insert_audit_event event (is_database s) |>.

(** The terminal answer both claims give. *)
Definition replay_of (row : IdemRow) : result IdempotencyError ClaimResult :=
  match ir_response_status row, ir_response_body row with
  | Some status, Some body => Ok (Replay (ir_operation_id row) status body)
  | _, _ => Err IeDecode
  end.

Definition is_pending (row : IdemRow) : bool := ir_status row =? IsPending.

(** ** Operations

    [key_hmac] is the authentication code of the validated raw key. *)

Section operations.
Context {CR : Crypto}.
(** The service's key material. *)
Variable key_material : string.

Definition hmac_of (raw_key : string) : string := hmac_sha256 key_material raw_key.
Definition admin_key (route raw_key : string) : IdemKey := ("admin", route, hmac_of raw_key).

Definition completed_for_actor (actor route raw_key request_hmac : string) (s : IdemStore)
    : result IdempotencyError (option ClaimResult) :=
  if negb ((actor =? "admin") || (actor =? "system")) then Err IeKeyInvalid else
  _ ← validate_key raw_key;
  match is_records s !! (actor, route, hmac_of raw_key) with
  | None => Ok None
  | Some row =>
      if ir_request_hmac row ≠? request_hmac then Err IeReused
      else match ir_status row with
           | IsSucceeded | IsFailed => answer ← replay_of row; Ok (Some answer)
           | _ => Ok None
           end
  end.

Definition interrupt_pending (now : Time) (s : IdemStore) : IdemStore :=
  s <| is_records := (fun row => if is_pending row
                                 then row <| ir_status := IsInterrupted |> <| ir_updated_at := now |>
                                 else row) <$> is_records s |>.

Definition claim (now : Time) (operation_id : Uuid) (route raw_key request_hmac : string)
    (request_id : Uuid) (s : IdemStore) : result IdempotencyError (IdemStore * ClaimResult) :=
  _ ← validate_key raw_key;
  let key := admin_key route raw_key in
  match is_records s !! key with
  | None =>
      let s := put key (pending_row now (next_rowid s) request_hmac operation_id) s in
      let s := audit s (MkAuditEvent "admin" request_id route None None "attempt" [] now) in
      Ok (s, New operation_id)
  | Some row =>
      if ir_request_hmac row ≠? request_hmac then Err IeReused
      else match ir_status row with
           | IsSucceeded | IsFailed => answer ← replay_of row; Ok (s, answer)
           | IsInterrupted =>
               Ok (put key (row <| ir_status := IsPending |> <| ir_updated_at := now |>) s,
                   Resume (ir_operation_id row))
           | IsPending => Err IeInProgress
           end
  end.

Definition finish (now : Time) (route raw_key : string) (status : Z) (body : string)
    (error_code : option string) (request_id : Uuid) (s : IdemStore) : IdemStore :=
  let res := if (status <? 400)%Z then IsSucceeded else IsFailed in
  let s := default s (update_record (admin_key route raw_key) (fun _ => true)
             (fun row => row <| ir_status := res |> <| ir_response_status := Some status |>
                           <| ir_response_body := Some body |> <| ir_error_code := error_code |>
                           <| ir_updated_at := now |>) s) in
  audit s (MkAuditEvent "admin" request_id route None None
             (if (status <? 400)%Z then "succeeded" else "failed") [] now).

Definition effect_marker (route raw_key : string) (s : IdemStore) : option EffectMarker :=
  row ← is_records s !! admin_key route raw_key;
  phase ← ir_effect_phase row;
  Some (MkEffectMarker phase (ir_pre_container_id row) (ir_pre_started_at row) (ir_post_container_id row)).

Definition mark_effect_observed (now : Time) (route raw_key container_id : string) (s : IdemStore)
    : result IdempotencyError IdemStore :=
  ok_or (update_record (admin_key route raw_key)
           (fun row => is_pending row && (ir_effect_phase row =? Some IeStarted)
                       && is_none (ir_pre_container_id row)
                       && is_none_or (ir_post_container_id row) (fun old => old =? container_id))
           (fun row => row <| ir_post_container_id := Some container_id |> <| ir_updated_at := now |>) s)
    IeRecordInvalid.

Definition mark_effect_started (now : Time) (route raw_key : string)
    (container_id started_at : option string) (s : IdemStore) : result IdempotencyError IdemStore :=
  ok_or (update_record (admin_key route raw_key)
           (fun row => is_pending row && is_none (ir_effect_phase row))
           (fun row => row <| ir_effect_phase := Some IeStarted |>
                         <| ir_pre_container_id := container_id |>
                         <| ir_pre_started_at := started_at |> <| ir_updated_at := now |>) s)
    IeRecordInvalid.

Definition mark_effect_completed (now : Time) (route raw_key : string) (s : IdemStore)
    : result IdempotencyError IdemStore :=
  ok_or (update_record (admin_key route raw_key)
           (fun row => is_pending row && (ir_effect_phase row =? Some IeStarted))
           (fun row => row <| ir_effect_phase := Some IeCompleted |> <| ir_updated_at := now |>) s)
    IeRecordInvalid.

Definition mark_interrupted (now : Time) (route raw_key : string) (request_id : Uuid) (s : IdemStore)
    : IdemStore :=
  let s := default s (update_record (admin_key route raw_key) is_pending
             (fun row => row <| ir_status := IsInterrupted |> <| ir_updated_at := now |>) s) in
  audit s (MkAuditEvent "admin" request_id route None None "interrupted" [] now).

(** ** The deployment claim *)

Record ScheduledResolvedTarget := MkScheduledResolvedTarget {
  st_image : ResolvedImage;
  st_generation : string;
  st_target_key : string;
}.

(** What the claim binds besides its identity. *)
Record DeploymentClaim := MkDeploymentClaim {
  dc_app_id : Uuid;
  dc_trigger : DeploymentTrigger;
  dc_requested_revision : Uuid;
  dc_from_release_id : option Uuid;
  dc_expected_pending_release_id : option Uuid;
  dc_expected_actual_release_id : option Uuid;
  dc_expected_actual_container_id : option string;
  dc_rollback_target_release_id : option Uuid;
  dc_rollback_of_deployment_id : option Uuid;
  dc_scheduled : option ScheduledResolvedTarget;
}.

(** The inserted deployment: the named columns over the queued row. *)
Definition claimed_row (now : Time) (operation_id request_id : Uuid) (c : DeploymentClaim) : DeploymentRow :=
  let row := queued_row now operation_id (dc_app_id c) (dc_trigger c) (dc_requested_revision c)
               (dc_from_release_id c) (dc_rollback_target_release_id c) (dc_rollback_of_deployment_id c)
               request_id in
  let image {A} (f : ResolvedImage -> A) := (fun t => f (st_image t)) <$> dc_scheduled c in
  row <| row_record :=
    (row_record row)
      <| dp_expected_pending_release_id := dc_expected_pending_release_id c |>
      <| dp_expected_actual_release_id := dc_expected_actual_release_id c |>
      <| dp_expected_actual_container_id := dc_expected_actual_container_id c |>
      <| dp_scheduled_source_image_ref := image ri_source_image_ref |>
      <| dp_scheduled_source_descriptor_digest := image ri_source_descriptor_digest |>
      <| dp_scheduled_manifest_digest := image ri_manifest_digest |>
      <| dp_scheduled_index_digest := image ri_index_digest ≫= id |>
      <| dp_scheduled_platform_os := image (fun i => os (ri_platform i)) |>
      <| dp_scheduled_platform_architecture := image (fun i => architecture (ri_platform i)) |>
      <| dp_scheduled_platform_variant := image (fun i => variant (ri_platform i)) ≫= id |>
      <| dp_scheduled_local_image_id := image ri_local_image_id |>
      <| dp_scheduled_repository := image ri_repository |>
      <| dp_scheduled_target_key := st_target_key <$> dc_scheduled c |>
      <| dp_poll_generation := st_generation <$> dc_scheduled c |> |>.

Definition claim_actor (trigger : DeploymentTrigger) : string :=
  if trigger =? Poll then "system" else "admin".

(** [render] prints the JSON body of the queued response. A unique violation of
    the deployment insert is reported as work in progress; every other failure
    is a database error. A failed transaction changes nothing. *)
Definition claim_deployment (render : Uuid -> string) (now : Time) (operation_id : Uuid)
    (route raw_key request_hmac : string) (request_id : Uuid) (c : DeploymentClaim) (s : IdemStore)
    : result IdempotencyError (IdemStore * ClaimResult) :=
  _ ← validate_key raw_key;
  let actor := claim_actor (dc_trigger c) in
  let key := (actor, route, hmac_of raw_key) in
  match is_records s !! key with
  | None =>
      let s := put key (pending_row now (next_rowid s) request_hmac operation_id) s in
      db ← map_err (fun e => match e with LeBusy => IeInProgress | _ => IeDatabase end)
             (insert_deployment (claimed_row now operation_id request_id c) (is_database s));
      db ← map_err (fun _ => IeDatabase)
             (insert_transition (MkTransitionRow operation_id 1 PhQueued "scheduled" None now) db);
      let s := s <| is_database := db |> in
      let s := audit s (MkAuditEvent actor request_id route (Some "deployment") (Some operation_id)
                          "attempt" [] now) in
      let s := default s (update_record key (fun row => ir_operation_id row =? operation_id)
                 (fun row => row <| ir_status := IsSucceeded |> <| ir_response_status := Some 202%Z |>
                               <| ir_response_body := Some (render operation_id) |>
                               <| ir_updated_at := now |>) s) in
      Ok (s, New operation_id)
  | Some row =>
      if ir_request_hmac row ≠? request_hmac then Err IeReused
      else match ir_status row with
           | IsSucceeded | IsFailed => answer ← replay_of row; Ok (s, answer)
           | IsInterrupted | IsPending => Err IeInProgress
           end
  end.
End operations.

(** ** Collection of old responses *)

Section collection.
Context {ST : SqlTime}.

Definition terminal_record (row : IdemRow) : bool :=
  (ir_status row =? IsSucceeded) || (ir_status row =? IsFailed).

Definition collectable (cutoff : Time) (row : IdemRow) : bool :=
  terminal_record row && text_before (ir_updated_at row) cutoff.

(** [ORDER BY updated_at]. *)
Fixpoint insert_by_update (r : IdemRow) (l : list IdemRow) : list IdemRow :=
  match l with
  | [] => [r]
  | x :: l' => if text_before (ir_updated_at x) (ir_updated_at r) then x :: insert_by_update r l' else r :: l
  end.

Definition gc_cutoff (now : Time) : Time := (now - seconds 86400)%Z.

(** The first transaction: at most 100 unprotected expired terminal records. *)
Definition gc_select (now : Time) (protected : list Uuid) (s : IdemStore) : list (Z * Uuid) :=
  let candidates := foldr insert_by_update []
    (filter (fun row => collectable (gc_cutoff now) row = true) (map_to_list (is_records s)).*2) in
  take 100 ((fun row => (ir_rowid row, ir_operation_id row)) <$>
              filter (fun row => ir_operation_id row ∉ protected) candidates).

(** What one [DELETE] of the second transaction matches. *)
Definition doomed (cutoff : Time) (s : IdemStore) (candidate : Z * Uuid) (row : IdemRow) : bool :=
  (ir_rowid row =? candidate.1) && (ir_operation_id row =? candidate.2)
  && collectable cutoff row
  && negb (bool_decide (ir_operation_id row ∈ is_retirement_pending s))
  && negb (bool_decide (ir_operation_id row ∈ is_unfinalized s)).

Definition gc_delete_one (cutoff : Time) (s : IdemStore) (candidate : Z * Uuid) : IdemStore * nat :=
  let kept := filter (fun kv => doomed cutoff s candidate kv.2 = false) (is_records s) in
  (s <| is_records := kept |>, size (is_records s) - size kept).

(** The second transaction, on whatever the table holds by then. *)
Fixpoint gc_delete (cutoff : Time) (rows : list (Z * Uuid)) (s : IdemStore) : IdemStore * nat :=
  match rows with
  | [] => (s, 0)
  | candidate :: rows =>
      let '(s, n) := gc_delete_one cutoff s candidate in
      let '(s, m) := gc_delete cutoff rows s in
      (s, n + m)
  end.

Definition gc_protected (artifacts : list Uuid) (s : IdemStore) : list Uuid :=
  artifacts ++ is_retirement_pending s.
End collection.

(** ** Histories *)

(** One step is one committed transaction of some caller, at the time it gives;
    [IoCollect] is the deleting transaction of a collection with whatever
    candidates an earlier one selected, and [IoOther] any transaction on the
    other tables. *)
Inductive idem_op :=
| IoClaim (now : Time) (operation_id : Uuid) (route raw_key request_hmac : string) (request_id : Uuid)
| IoClaimDeployment (render : Uuid -> string) (now : Time) (operation_id : Uuid)
    (route raw_key request_hmac : string) (request_id : Uuid) (c : DeploymentClaim)
| IoFinish (now : Time) (route raw_key : string) (status : Z) (body : string) (code : option string)
    (request_id : Uuid)
| IoEffectStarted (now : Time) (route raw_key : string) (container_id started_at : option string)
| IoEffectObserved (now : Time) (route raw_key container_id : string)
| IoEffectCompleted (now : Time) (route raw_key : string)
| IoInterrupt (now : Time) (route raw_key : string) (request_id : Uuid)
| IoInterruptAll (now : Time)
| IoCollect (now : Time) (rows : list (Z * Uuid))
| IoOther (now : Time) (db : Database) (retirement unfinalized : list Uuid).

Definition idem_time (op : idem_op) : Time :=
  match op with
  | IoClaim now _ _ _ _ _ | IoClaimDeployment _ now _ _ _ _ _ _ | IoFinish now _ _ _ _ _ _
  | IoEffectStarted now _ _ _ _ | IoEffectObserved now _ _ _ | IoEffectCompleted now _ _
  | IoInterrupt now _ _ _ | IoInterruptAll now | IoCollect now _ | IoOther now _ _ _ => now
  end.

Definition committed {E A} (s : IdemStore) (r : result E (IdemStore * A)) : IdemStore :=
  match r with Ok (s', _) => s' | Err _ => s end.
Definition updated {E} (s : IdemStore) (r : result E IdemStore) : IdemStore :=
  match r with Ok s' => s' | Err _ => s end.

Section histories.
Context {CR : Crypto} {ST : SqlTime}.
Variable key_material : string.

Definition exec_idem (s : IdemStore) (op : idem_op) : IdemStore :=
  match op with
  | IoClaim now id route raw hmac req => committed s (claim key_material now id route raw hmac req s)
  | IoClaimDeployment render now id route raw hmac req c =>
      committed s (claim_deployment key_material render now id route raw hmac req c s)
  | IoFinish now route raw status body code req => finish key_material now route raw status body code req s
  | IoEffectStarted now route raw cid sat =>
      updated s (mark_effect_started key_material now route raw cid sat s)
  | IoEffectObserved now route raw cid => updated s (mark_effect_observed key_material now route raw cid s)
  | IoEffectCompleted now route raw => updated s (mark_effect_completed key_material now route raw s)
  | IoInterrupt now route raw req => mark_interrupted key_material now route raw req s
  | IoInterruptAll now => interrupt_pending now s
  | IoCollect now rows => (gc_delete (gc_cutoff now) rows s).1
  | IoOther _ db retirement unfinalized => MkIdemStore (is_records s) db retirement unfinalized
  end.

(** The operation stores a response for the key. *)
Definition finishes (key : IdemKey) (op : idem_op) : bool :=
  match op with IoFinish _ route raw _ _ _ _ => admin_key key_material route raw =? key | _ => false end.

(** ** Invariant: terminal records carry their response, row numbers are unique. *)
Definition answered (row : IdemRow) : Prop :=
  terminal_record row = true ->
  is_some (ir_response_status row) = true /\ is_some (ir_response_body row) = true.

Record idem_wf (s : IdemStore) : Prop := {
  iw_response key row : is_records s !! key = Some row -> answered row;
  iw_rowid key1 key2 row1 row2 :
    is_records s !! key1 = Some row1 -> is_records s !! key2 = Some row2 ->
    ir_rowid row1 = ir_rowid row2 -> key1 = key2;
}.

(** How a step may change a stored record. *)
Record record_step (row row' : IdemRow) : Prop := {
  rs_rowid : ir_rowid row' = ir_rowid row;
  rs_request : ir_request_hmac row' = ir_request_hmac row;
  rs_operation : ir_operation_id row' = ir_operation_id row;
  rs_answered : answered row -> answered row';
}.

Definition second (t : Time) : Z := (t / 1000000000)%Z.

(** A record the collection at [now] may not touch: it was written within the
    last day, to the second. *)
Lemma fresh_not_collectable t now row :
  (second t <= second (ir_updated_at row))%Z -> (second now < second t + 86400)%Z ->
  collectable (gc_cutoff now) row = false.
Proof.
  intros Ht Hn. unfold collectable. destruct (terminal_record row); [|done]. cbn.
  destruct (text_before _ _) eqn:Hb; [|done]. apply text_before_not_earlier in Hb.
  unfold gc_cutoff, seconds, second in *.
  replace (now - 86400 * 1000000000)%Z with (now + (-86400) * 1000000000)%Z in Hb by lia.
  rewrite Z.div_add in Hb by done. lia.
Qed.

Lemma gc_delete_one_lookup cutoff s candidate key row :
  is_records (gc_delete_one cutoff s candidate).1 !! key = Some row <->
  is_records s !! key = Some row /\ doomed cutoff s candidate row = false.
Proof. cbn. by rewrite map_lookup_filter_Some. Qed.

Lemma gc_delete_tables cutoff rows s :
  is_retirement_pending (gc_delete cutoff rows s).1 = is_retirement_pending s
  /\ is_unfinalized (gc_delete cutoff rows s).1 = is_unfinalized s
  /\ is_database (gc_delete cutoff rows s).1 = is_database s.
Proof.
  revert s. induction rows as [|candidate rows IH]; intros s; [done|]. cbn -[gc_delete_one].
  destruct (gc_delete_one cutoff s candidate) as [s1 n] eqn:H1.
  assert (H : s1 = (gc_delete_one cutoff s candidate).1) by (by rewrite H1). clear H1.
  specialize (IH s1). destruct (gc_delete cutoff rows s1). cbn in *. by subst.
Qed.

Lemma gc_delete_lookup cutoff rows s key row :
  is_records (gc_delete cutoff rows s).1 !! key = Some row <->
  is_records s !! key = Some row /\ Forall (fun c => doomed cutoff s c row = false) rows.
Proof.
  revert s. induction rows as [|candidate rows IH]; intros s.
  { split; [intros; by split|by intros [? _]]. }
  cbn -[gc_delete_one]. pose proof (gc_delete_one_lookup cutoff s candidate key row) as Hone.
  assert (Htab : is_retirement_pending (gc_delete_one cutoff s candidate).1 = is_retirement_pending s
    /\ is_unfinalized (gc_delete_one cutoff s candidate).1 = is_unfinalized s) by done.
  destruct (gc_delete_one cutoff s candidate) as [s1 n]. cbn in Hone, Htab. specialize (IH s1).
  destruct (gc_delete cutoff rows s1) as [s2 m]. cbn in *. rewrite IH, Hone, list.Forall_cons.
  unfold doomed. destruct Htab as [-> ->]. tauto.
Qed.

Lemma update_record_lookup k cond set s s' key :
  update_record k cond set s = Some s' ->
  exists row, is_records s !! k = Some row /\ cond row = true /\ is_database s' = is_database s /\
    is_records s' !! key = if bool_decide (k = key) then Some (set row) else is_records s !! key.
Proof.
  unfold update_record. intros (row & Hrow & H)%bind_Some. destruct (cond row) eqn:Hc; [|done].
  injection H as <-. exists row. repeat split; try done. cbn.
  rewrite lookup_insert. case_decide; [by rewrite bool_decide_eq_true_2|by rewrite bool_decide_eq_false_2].
Qed.

(** What one step can do to a stored record: nothing, an update that keeps its
    identity and touches a terminal record only to store a response, or its
    collection. *)
Inductive record_fate (op : idem_op) (key : IdemKey) (row : IdemRow) : option IdemRow -> Prop :=
| fate_same : record_fate op key row (Some row)
| fate_updated row' :
    record_step row row' -> ir_updated_at row' = idem_time op ->
    (terminal_record row = true -> finishes key op = true) ->
    record_fate op key row (Some row')
| fate_collected now rows :
    op = IoCollect now rows -> collectable (gc_cutoff now) row = true ->
    record_fate op key row None.

(** A guarded update reaches a record only under its key and its guard. *)
Lemma update_fate op key row k cond set s s' :
  is_records s !! key = Some row ->
  (s' = s \/ update_record k cond set s = Some s') ->
  (k = key -> cond row = true ->
     record_step row (set row) /\ ir_updated_at (set row) = idem_time op
     /\ (terminal_record row = true -> finishes key op = true)) ->
  record_fate op key row (is_records s' !! key).
Proof.
  intros Hrow [->|Hu] Hset; [rewrite Hrow; constructor|].
  destruct (update_record_lookup _ _ _ _ _ key Hu) as (row0 & Hk & Hc & _ & ->).
  case_bool_decide as Heq; [subst k|rewrite Hrow; constructor].
  rewrite Hrow in Hk. injection Hk as <-. destruct (Hset eq_refl Hc) as (H1 & H2 & H3). by constructor.
Qed.

Lemma pending_not_terminal row : is_pending row = true -> terminal_record row = false.
Proof. unfold is_pending, terminal_record. intros ->%bool_decide_eq_true. done. Qed.

Lemma ok_or_cases {E} (s : IdemStore) (o : option IdemStore) (e : E) :
  updated s (ok_or o e) = s \/ o = Some (updated s (ok_or o e)).
Proof. destruct o; [by right|by left]. Qed.

Lemma default_cases (s : IdemStore) (o : option IdemStore) : default s o = s \/ o = Some (default s o).
Proof. destruct o; [by right|by left]. Qed.

(** An insertion under a key leaves a stored record alone: the key is free. *)
Lemma claim_fate op now id route raw hmac req s key row :
  idem_time op = now -> is_records s !! key = Some row ->
  record_fate op key row (is_records (committed s (claim key_material now id route raw hmac req s)) !! key).
Proof.
  intros Hop Hrow. unfold claim. destruct (validate_key raw) as [[]|]; cbn; [|rewrite Hrow; constructor].
  destruct (is_records s !! admin_key key_material route raw) as [old|] eqn:Hold.
  - case_bool_decide; cbn; [|rewrite Hrow; constructor].
    destruct (ir_status old) eqn:Hst; cbn; try (rewrite Hrow; constructor).
    + destruct (replay_of old); cbn; rewrite Hrow; constructor.
    + destruct (decide (admin_key key_material route raw = key)) as [<-|Hne].
      * rewrite lookup_insert_eq. rewrite Hrow in Hold. injection Hold as <-.
        constructor; [by split|done|]. unfold terminal_record. by rewrite Hst.
      * rewrite lookup_insert_ne by done. rewrite Hrow. constructor.
    + destruct (replay_of old); cbn; rewrite Hrow; constructor.
  - cbn. rewrite lookup_insert_ne by congruence. rewrite Hrow. constructor.
Qed.

Lemma claim_deployment_fate op render now id route raw hmac req c s key row :
  is_records s !! key = Some row ->
  record_fate op key row
    (is_records (committed s (claim_deployment key_material render now id route raw hmac req c s)) !! key).
Proof.
  intros Hrow. unfold claim_deployment.
  destruct (validate_key raw) as [[]|]; cbn -[update_record]; [|rewrite Hrow; constructor].
  set (k := (claim_actor _, route, _)). destruct (is_records s !! k) as [old|] eqn:Hold.
  - case_bool_decide; cbn; [|rewrite Hrow; constructor].
    destruct (ir_status old); cbn; try (rewrite Hrow; constructor);
      destruct (replay_of old); cbn; rewrite Hrow; constructor.
  - destruct (insert_deployment _ _) as [db1|]; cbn -[update_record]; [|rewrite Hrow; constructor].
    destruct (insert_transition _ _) as [db2|]; cbn -[update_record]; [|rewrite Hrow; constructor].
    match goal with |- context [default ?s0 (update_record k ?cond ?set ?s0)] =>
      destruct (default_cases s0 (update_record k cond set s0)) as [->|Hu] end.
    + cbn. rewrite lookup_insert_ne by congruence. rewrite Hrow. constructor.
    + destruct (update_record_lookup _ _ _ _ _ key Hu) as (? & _ & _ & _ & ->). cbn.
      rewrite bool_decide_eq_false_2, lookup_insert_ne by congruence. rewrite Hrow. constructor.
Qed.

Lemma exec_idem_fate s op key row :
  is_records s !! key = Some row -> record_fate op key row (is_records (exec_idem s op) !! key).
Proof.
  intros Hrow. destruct op; cbn [exec_idem].
  - by apply claim_fate.
  - by apply claim_deployment_fate.
  - unfold finish. cbn [audit is_records field_set eta_IdemStore].
    eapply update_fate; [exact Hrow|apply default_cases|]. intros Hk _.
    split; [by split|]. split; [done|]. intros _. cbn. by apply bool_decide_eq_true.
  - eapply update_fate; [exact Hrow|apply ok_or_cases|]. intros _ Hc%andb_true_iff.
    split; [by split|]. split; [done|]. destruct Hc as [Hp _]. by rewrite pending_not_terminal.
  - eapply update_fate; [exact Hrow|apply ok_or_cases|]. intros _ Hc. cbv beta in Hc. bools.
    split; [by split|]. split; [done|]. by rewrite pending_not_terminal.
  - eapply update_fate; [exact Hrow|apply ok_or_cases|]. intros _ Hc%andb_true_iff.
    split; [by split|]. split; [done|]. destruct Hc as [Hp _]. by rewrite pending_not_terminal.
  - unfold mark_interrupted. cbn [audit is_records field_set eta_IdemStore].
    eapply update_fate; [exact Hrow|apply default_cases|]. intros _ Hc.
    split; [by split|]. split; [done|]. by rewrite pending_not_terminal.
  - cbn. rewrite lookup_fmap, Hrow. cbn. destruct (is_pending row) eqn:Hp; [|constructor].
    constructor; [by split|done|]. by rewrite pending_not_terminal.
  - destruct (is_records (gc_delete (gc_cutoff now) rows s).1 !! key) as [row'|] eqn:Hd.
    + apply gc_delete_lookup in Hd as [Hd _]. rewrite Hrow in Hd. injection Hd as <-. constructor.
    + eapply fate_collected; [done|]. destruct (collectable (gc_cutoff now) row) eqn:Hc; [done|].
      exfalso. assert (is_records (gc_delete (gc_cutoff now) rows s).1 !! key = Some row); [|congruence].
      apply gc_delete_lookup. split; [done|]. apply Forall_forall. intros c _. unfold doomed.
      rewrite Hc. by rewrite andb_false_r.
  - cbn. rewrite Hrow. constructor.
Qed.

Lemma answered_replay row :
  answered row -> terminal_record row = true ->
  exists status body, ir_response_status row = Some status /\ ir_response_body row = Some body
    /\ replay_of row = Ok (Replay (ir_operation_id row) status body).
Proof.
  intros Ha Ht. destruct (Ha Ht) as [[status Hs]%is_some_Some [body Hb]%is_some_Some].
  exists status, body. unfold replay_of. by rewrite Hs, Hb.
Qed.

Lemma next_rowid_fresh s key row : is_records s !! key = Some row -> (ir_rowid row < next_rowid s)%Z.
Proof.
  intros Hrow. unfold next_rowid. apply Z.lt_succ_r, max_or_zero_upper, list_elem_of_fmap_2.
  apply list_elem_of_fmap. exists (key, row). split; [done|]. by apply elem_of_map_to_list.
Qed.

(** A free key stays free or receives one new record; only claims insert. *)
Definition claimed_fresh (s s' : IdemStore) : Prop :=
  is_records s' = is_records s
  \/ exists key row, is_records s !! key = None /\ is_records s' = <[key := row]> (is_records s)
       /\ ir_rowid row = next_rowid s /\ answered row.

Lemma claimed_fresh_wf s s' : claimed_fresh s s' -> idem_wf s -> idem_wf s'.
Proof.
  intros [Heq|(key & row & Hnone & Heq & Hid & Ha)] [Hr Hi]; split; rewrite ?Heq; try done.
  - intros k r. rewrite lookup_insert. case_decide; [by intros [= <-]|apply Hr].
  - intros k1 k2 r1 r2. rewrite !lookup_insert. repeat case_decide; intros; simplify_eq; try done.
    + match goal with H : is_records s !! k2 = Some r2 |- _ => apply next_rowid_fresh in H; lia end.
    + match goal with H : is_records s !! k1 = Some r1 |- _ => apply next_rowid_fresh in H; lia end.
    + by eapply Hi.
Qed.

Lemma stepped_wf s s' :
  (forall key row', is_records s' !! key = Some row' ->
     exists row, is_records s !! key = Some row /\ (row' = row \/ record_step row row')) ->
  idem_wf s -> idem_wf s'.
Proof.
  intros Hs [Hr Hi]. split.
  - intros key row' H. destruct (Hs key row' H) as (row & Hrow & [->|Hstep]); [by eapply Hr|].
    by eapply rs_answered, Hr.
  - intros k1 k2 r1 r2 H1 H2 Heq.
    destruct (Hs k1 r1 H1) as (q1 & Hq1 & E1), (Hs k2 r2 H2) as (q2 & Hq2 & E2).
    eapply Hi; [exact Hq1|exact Hq2|].
    assert (ir_rowid r1 = ir_rowid q1) by (destruct E1 as [->|[]]; done).
    assert (ir_rowid r2 = ir_rowid q2) by (destruct E2 as [->|[]]; done). congruence.
Qed.

Definition keeps_free (s s' : IdemStore) : Prop :=
  forall key, is_records s !! key = None -> is_records s' !! key = None.

Lemma update_keeps_free k cond set s s' :
  s' = s \/ update_record k cond set s = Some s' -> keeps_free s s'.
Proof.
  intros [->|Hu] key Hnone; [done|].
  destruct (update_record_lookup _ _ _ _ _ key Hu) as (row & Hk & _ & _ & ->).
  case_bool_decide; [congruence|done].
Qed.

Lemma claim_fresh now id route raw hmac req s :
  let s' := committed s (claim key_material now id route raw hmac req s) in
  claimed_fresh s s' \/ keeps_free s s'.
Proof.
  cbv zeta. unfold claim. destruct (validate_key raw) as [[]|]; cbn; [|by left; left].
  destruct (is_records s !! _) as [old|] eqn:Hold.
  - case_bool_decide; cbn; [|by left; left].
    destruct (ir_status old); cbn; try (by left; left).
    1,3: destruct (replay_of old); by left; left.
    right. intros key Hnone. cbn. rewrite lookup_insert_ne; [done|congruence].
  - left; right. eexists _, _. cbn. repeat split; try done.
Qed.

Lemma claim_deployment_fresh render now id route raw hmac req c s :
  claimed_fresh s (committed s (claim_deployment key_material render now id route raw hmac req c s)).
Proof.
  unfold claim_deployment.
  destruct (validate_key raw) as [[]|]; cbn -[update_record]; [|by left].
  set (k := (claim_actor _, route, _)). destruct (is_records s !! k) as [old|] eqn:Hold.
  - case_bool_decide; cbn; [|by left].
    destruct (ir_status old); cbn; try (by left); destruct (replay_of old); by left.
  - destruct (insert_deployment _ _) as [db1|]; cbn -[update_record]; [|by left].
    destruct (insert_transition _ _) as [db2|]; cbn -[update_record]; [|by left].
    right. unfold update_record. cbn. rewrite lookup_insert_eq. cbn.
    rewrite bool_decide_eq_true_2 by done. cbn. rewrite insert_insert_eq.
    eexists _, _. split; [exact Hold|]. split; [done|]. by split.
Qed.

Lemma exec_idem_wf s op : idem_wf s -> idem_wf (exec_idem s op).
Proof.
  intros Hwf. assert (Hfate := exec_idem_fate s op).
  assert (Hgen : keeps_free s (exec_idem s op) -> idem_wf (exec_idem s op)).
  { intros Hfree. apply (stepped_wf s); [|done]. intros key row' Hrow'.
    destruct (is_records s !! key) as [row|] eqn:Hrow; [|by rewrite (Hfree key Hrow) in Hrow'].
    exists row. split; [done|]. specialize (Hfate key row Hrow). rewrite Hrow' in Hfate.
    inversion Hfate; subst; auto. }
  destruct op; cbn [exec_idem] in *.
  - destruct (claim_fresh now operation_id route raw_key request_hmac request_id s) as [H|H];
      [by eapply claimed_fresh_wf|by apply Hgen].
  - eapply claimed_fresh_wf; [apply claim_deployment_fresh|done].
  - apply Hgen. unfold finish. intros key Hk. cbn [audit is_records field_set eta_IdemStore].
    eapply update_keeps_free; [apply default_cases|done].
  - apply Hgen. eapply update_keeps_free, ok_or_cases.
  - apply Hgen. eapply update_keeps_free, ok_or_cases.
  - apply Hgen. eapply update_keeps_free, ok_or_cases.
  - apply Hgen. unfold mark_interrupted. intros key Hk.
    cbn [audit is_records field_set eta_IdemStore]. eapply update_keeps_free; [apply default_cases|done].
  - apply Hgen. intros key Hk. cbn. by rewrite lookup_fmap, Hk.
  - apply Hgen. intros key Hk.
    destruct (is_records (gc_delete _ _ _).1 !! key) eqn:Hd; [|done].
    apply gc_delete_lookup in Hd as [Hd _]. congruence.
  - apply Hgen. by intros key Hk.
Qed.

Lemma empty_idem_wf : idem_wf empty_idem.
Proof. split; intros *; cbn; by rewrite lookup_empty. Qed.

(** ** Histories of steps *)

Definition within_day (t : Time) (op : idem_op) : Prop :=
  (second t <= second (idem_time op) < second t + 86400)%Z.

(** Within a day of its last change, a record keeps its identity, and, without
    another response for it, a terminal record stays as it is. *)
Lemma history_keeps s ops key row t :
  idem_wf s -> is_records s !! key = Some row -> (second t <= second (ir_updated_at row))%Z ->
  Forall (within_day t) ops ->
  exists row', is_records (foldl exec_idem s ops) !! key = Some row'
    /\ idem_wf (foldl exec_idem s ops)
    /\ ir_request_hmac row' = ir_request_hmac row /\ ir_operation_id row' = ir_operation_id row
    /\ (terminal_record row = true -> Forall (fun op => finishes key op = false) ops -> row' = row).
Proof.
  revert s row. induction ops as [|op ops IH]; intros s row Hwf Hrow Ht Hday.
  { exists row. split_and!; done. }
  apply Forall_cons_1 in Hday as [Hop Hday]. cbn [foldl].
  pose proof (exec_idem_fate s op key row Hrow) as Hfate.
  pose proof (exec_idem_wf s op Hwf) as Hwf'.
  destruct (is_records (exec_idem s op) !! key) as [row1|] eqn:Hrow1.
  - assert (Hup : (second t <= second (ir_updated_at row1))%Z).
    { inversion Hfate as [|? ? Hup|]; subst; [done|]. rewrite Hup. apply Hop. }
    destruct (IH _ row1 Hwf' Hrow1 Hup Hday) as (row2 & Hrow2 & Hwf2 & Hreq & Hoper & Hsame).
    exists row2. split; [done|]. split; [done|].
    inversion Hfate as [|? [Hid1 Hreq1 Hoper1 _] Hup1 Hterm|]; subst.
    + split; [done|]. split; [done|]. intros Hterm Hfin. apply Forall_cons_1 in Hfin as [_ Hfin]. auto.
    + split; [congruence|]. split; [congruence|]. intros Ht' Hfin.
      apply Forall_cons_1 in Hfin as [Hfin _]. rewrite Hterm in Hfin by done. done.
  - inversion Hfate as [| |now rows Heq Hc]; subst op. cbn in Hop.
    rewrite (fresh_not_collectable t) in Hc; [done|done|]. apply Hop.
Qed.

(** What a claim answers when its key has a record. *)
Lemma claim_existing now id route raw hmac req s row :
  validate_key raw = Ok tt -> idem_wf s ->
  is_records s !! admin_key key_material route raw = Some row ->
  claim key_material now id route raw hmac req s =
  if ir_request_hmac row ≠? hmac then Err IeReused
  else match ir_status row with
       | IsSucceeded | IsFailed => answer ← replay_of row; Ok (s, answer)
       | IsInterrupted =>
           Ok (put (admin_key key_material route raw) (row <| ir_status := IsPending |> <| ir_updated_at := now |>) s,
               Resume (ir_operation_id row))
       | IsPending => Err IeInProgress
       end.
Proof. intros Hv _ Hrow. unfold claim. by rewrite Hv, Hrow. Qed.

(** The operation a claim hands out, if it hands out one. *)
Definition claim_operation (r : ClaimResult) : Uuid :=
  match r with New id | Resume id | Replay id _ _ => id end.

(** C30: a key is claimed once: after a claim was told it is new, every later
    claim of the key within a day, whatever any client, restart or collection
    did meanwhile, is either refused (in progress, or reused for another
    request) or resumes or replays that same operation; none is told it is new
    again. *)
Theorem key_claimed_once now id route raw hmac req s s1 ops now' id' hmac' req' :
  idem_wf s -> claim key_material now id route raw hmac req s = Ok (s1, New id) ->
  Forall (within_day now) ops ->
  match claim key_material now' id' route raw hmac' req' (foldl exec_idem s1 ops) with
  | Ok (_, New _) => False
  | Ok (_, answer) => hmac' = hmac /\ claim_operation answer = id
  | Err IeReused => hmac' <> hmac
  | Err e => e = IeInProgress
  end.
Proof.
  intros Hwf Hclaim Hday.
  assert (Hwf1 : idem_wf s1).
  { replace s1 with (exec_idem s (IoClaim now id route raw hmac req)) by (cbn; by rewrite Hclaim).
    by apply exec_idem_wf. }
  assert (Hv : validate_key raw = Ok tt).
  { unfold claim in Hclaim. by destruct (validate_key raw) as [[]|]. }
  assert (Hrow : is_records s1 !! admin_key key_material route raw
                 = Some (pending_row now (next_rowid s) hmac id)).
  { unfold claim in Hclaim. rewrite Hv in Hclaim. cbn in Hclaim.
    destruct (is_records s !! _) as [old|]; cbn in Hclaim.
    - destruct (_ ≠? _); [done|]. destruct (ir_status old); try done;
        unfold replay_of in Hclaim; destruct (ir_response_status old), (ir_response_body old); done.
    - injection Hclaim as <-. cbn. apply lookup_insert_eq. }
  destruct (history_keeps s1 ops _ _ now Hwf1 Hrow) as (row & Hrow' & Hwf' & Hreq & Hoper & _); [done|done|].
  cbn in Hreq, Hoper. rewrite (claim_existing _ _ _ _ _ _ _ _ Hv Hwf' Hrow').
  case_bool_decide as Heq; cbn [negb]; [|congruence]. subst hmac'.
  destruct (ir_status row) eqn:Hst; cbn; try done.
  all: destruct (answered_replay row) as (status & body & _ & _ & ->);
       [by eapply iw_response|unfold terminal_record; by rewrite Hst|done].
Qed.

(** A stored response is replayed: after an operation finished, every repeat
    of its request within a day is answered with that operation and exactly
    that response, by the claim and by the lookup that precedes it, and nothing
    is executed again, whatever other clients, restarts and collections do. *)
Theorem finished_request_replays now route raw hmac status body code req s row ops now' id' req' :
  idem_wf s -> validate_key raw = Ok tt ->
  is_records s !! admin_key key_material route raw = Some row -> ir_request_hmac row = hmac ->
  let s1 := finish key_material now route raw status body code req s in
  let s2 := foldl exec_idem s1 ops in
  Forall (within_day now) ops ->
  Forall (fun op => finishes (admin_key key_material route raw) op = false) ops ->
  let answer := Replay (ir_operation_id row) status body in
  claim key_material now' id' route raw hmac req' s2 = Ok (s2, answer)
  /\ completed_for_actor key_material "admin" route raw hmac s2 = Ok (Some answer).
Proof.
  intros Hwf Hv Hrow Hreq s1 s2 Hday Hfin answer.
  assert (Hwf1 : idem_wf s1) by (apply (exec_idem_wf s (IoFinish now route raw status body code req)), Hwf).
  set (row1 := row <| ir_status := if (status <? 400)%Z then IsSucceeded else IsFailed |>
    <| ir_response_status := Some status |> <| ir_response_body := Some body |>
    <| ir_error_code := code |> <| ir_updated_at := now |>).
  assert (Hrow1 : is_records s1 !! admin_key key_material route raw = Some row1).
  { unfold s1, finish, update_record. rewrite Hrow. apply lookup_insert_eq. }
  assert (Hterm : terminal_record row1 = true) by (cbn; by destruct (status <? 400)%Z).
  destruct (history_keeps s1 ops _ _ now Hwf1 Hrow1) as (row2 & Hrow2 & Hwf2 & Hreq2 & _ & Hsame); [done|done|].
  rewrite (Hsame Hterm Hfin) in Hrow2. fold s2 in Hrow2, Hwf2.
  rewrite (claim_existing _ _ _ _ _ _ _ _ Hv Hwf2 Hrow2). unfold completed_for_actor.
  change ("admin", route, hmac_of key_material raw) with (admin_key key_material route raw).
  rewrite Hv, Hrow2. cbn. rewrite Hreq, bool_decide_eq_true_2 by done.
  by destruct (status <? 400)%Z.
Qed.

Lemma claimed_row_fresh now id req c : queued_fresh (claimed_row now id req c).
Proof. by split. Qed.

(** C31: the deployment claim is atomic: with a free key it either inserts the
    key with its replayable response together with the queued deployment, as
    one step of the ledger that claims the application, or, when the
    application already has an open deployment, it is refused as in progress
    and nothing is stored. *)
Theorem deployment_claim_atomic render now id route raw hmac req c s :
  ledger_wf (is_database s) -> validate_key raw = Ok tt ->
  deployments (is_database s) !! id = None ->
  let key := (claim_actor (dc_trigger c), route, hmac_of key_material raw) in
  is_records s !! key = None ->
  let r := claim_deployment key_material render now id route raw hmac req c s in
  if app_claimed (dc_app_id c) (is_database s) then r = Err IeInProgress
  else exists s' row, r = Ok (s', New id)
    /\ is_records s' = <[key := row]> (is_records s) /\ ir_request_hmac row = hmac
    /\ replay_of row = Ok (Replay id 202 (render id)) /\ terminal_record row = true
    /\ rtc ledger_step (is_database s) (is_database s') /\ ledger_wf (is_database s')
    /\ get id (is_database s') = Some (row_record (claimed_row now id req c))
    /\ app_claimed (dc_app_id c) (is_database s') = true.
Proof.
  intros Hwf Hv Hid key Hnone r. subst r. unfold claim_deployment. rewrite Hv. cbn -[update_record].
  fold key. rewrite Hnone. cbn [is_database put field_set eta_IdemStore].
  set (row := claimed_row now id req c).
  destruct (app_claimed (dc_app_id c) (is_database s)) eqn:Hclaimed.
  { unfold insert_deployment. cbn. by rewrite Hid, Hclaimed. }
  destruct (open_deployment_wf now row (is_database s) Hwf (claimed_row_fresh now id req c) Hid Hclaimed)
    as (db' & Hopen & Hwf' & Hdep).
  pose proof Hopen as Hsplit. unfold open_deployment in Hsplit.
  destruct (insert_deployment row (is_database s)) as [db1|] eqn:Hins; [|done].
  cbn [mbind result_bind] in Hsplit. cbn [map_err mbind result_bind].
  change (dp_id (row_record row)) with id in Hsplit. rewrite Hsplit. cbn [map_err mbind result_bind].
  unfold update_record. cbn. rewrite lookup_insert_eq. cbn. rewrite bool_decide_eq_true_2 by done. cbn.
  eexists _, _. split; [done|]. cbn. rewrite insert_insert_eq. split; [done|].
  split; [done|]. split; [done|]. split; [done|].
  assert (Hstep : ledger_step db' (insert_audit_event
    (MkAuditEvent (claim_actor (dc_trigger c)) req route (Some "deployment") (Some id) "attempt" [] now) db'))
    by (by apply step_other).
  split. { eapply rtc_l; [eapply step_open; [apply (claimed_row_fresh now id req c)|exact Hopen]|by apply rtc_once]. }
  split. { by eapply ledger_step_wf. }
  unfold get. cbn. rewrite Hdep. cbn. rewrite lookup_insert_eq. split; [done|].
  apply app_claimed_true. exists id, row. cbn. rewrite Hdep. by rewrite lookup_insert_eq.
Qed.

(** Deleting by a unique row number removes at most one record. *)
Lemma gc_delete_one_count cutoff s candidate : idem_wf s -> (gc_delete_one cutoff s candidate).2 <= 1.
Proof.
  intros Hwf. cbn. set (kept := filter _ (is_records s)).
  destruct (decide (map_Forall (fun _ row => doomed cutoff s candidate row = false) (is_records s))) as [Hall|Hex].
  - unfold kept. rewrite map_filter_id; [lia|]. exact Hall.
  - apply map_not_Forall in Hex as (key & row & Hrow & Hd); [|apply _].
    assert (Hkept : kept = delete key (is_records s)).
    { apply map_eq. intros k. unfold kept. rewrite map_lookup_filter.
      destruct (decide (k = key)) as [->|Hne].
      - rewrite lookup_delete_eq, Hrow. cbn. by rewrite option_guard_False.
      - rewrite lookup_delete_ne by done. destruct (is_records s !! k) as [r|] eqn:Hr; [|done]. cbn.
        rewrite option_guard_True; [done|]. destruct (doomed cutoff s candidate r) eqn:Hdr; [|done].
        exfalso. apply Hne. eapply (iw_rowid s Hwf); [done|done|].
        apply not_false_is_true in Hd. unfold doomed in Hd, Hdr. bools. congruence. }
    rewrite Hkept, map_size_delete_Some by done. lia.
Qed.

Lemma gc_delete_one_wf cutoff s candidate : idem_wf s -> idem_wf (gc_delete_one cutoff s candidate).1.
Proof.
  apply stepped_wf. intros key row [Hrow _]%gc_delete_one_lookup. exists row. by split; [|left].
Qed.

Lemma gc_delete_count cutoff rows s : idem_wf s -> (gc_delete cutoff rows s).2 <= length rows.
Proof.
  revert s. induction rows as [|candidate rows IH]; intros s Hwf; [done|]. cbn -[gc_delete_one].
  pose proof (gc_delete_one_count cutoff s candidate Hwf).
  pose proof (gc_delete_one_wf cutoff s candidate Hwf) as Hwf1.
  destruct (gc_delete_one cutoff s candidate) as [s1 n]. cbn in *. specialize (IH s1 Hwf1).
  destruct (gc_delete cutoff rows s1) as [s2 m]. cbn in *. lia.
Qed.

Lemma gc_select_elem now protected s rowid id :
  (rowid, id) ∈ gc_select now protected s -> id ∉ protected.
Proof.
  unfold gc_select. intros Hin. apply elem_of_take in Hin as (i & Hin%list_elem_of_lookup_2 & _).
  apply list_elem_of_fmap in Hin as (row & [= -> ->] & Hrow). by apply list_elem_of_filter in Hrow as [? _].
Qed.

(** Collection is safe and bounded: of the records present when it deletes,
    whatever happened since the candidates were selected, it removes at most
    100, and only terminal ones a day old whose operation owns no artifact and
    awaits neither retirement nor finalization; all others stay as they are. *)
Theorem collection_spares_live now protected s0 s :
  idem_wf s ->
  let '(s', n) := gc_delete (gc_cutoff now) (gc_select now protected s0) s in
  n <= 100 /\ forall key row, is_records s !! key = Some row ->
    is_records s' !! key = Some row
    \/ (is_records s' !! key = None /\ collectable (gc_cutoff now) row = true
        /\ (ir_operation_id row ∉ protected)
        /\ (ir_operation_id row ∉ is_retirement_pending s) /\ (ir_operation_id row ∉ is_unfinalized s)).
Proof.
  intros Hwf. set (rows := gc_select now protected s0).
  pose proof (gc_delete_count (gc_cutoff now) rows s Hwf) as Hn.
  assert (Hlen : length rows <= 100) by (unfold rows, gc_select; rewrite length_take; lia).
  pose proof (fun key row => gc_delete_lookup (gc_cutoff now) rows s key row) as Hlook.
  destruct (gc_delete (gc_cutoff now) rows s) as [s' n]. cbn in *. split; [lia|].
  intros key row Hrow. specialize (Hlook key).
  destruct (decide (Forall (fun c => doomed (gc_cutoff now) s c row = false) rows)) as [Hall|Hex].
  { left. by apply Hlook. }
  right. split.
  { destruct (is_records s' !! key) as [row'|]; [|done]. destruct (proj1 (Hlook row') eq_refl) as [Hr' Hall].
    rewrite Hrow in Hr'. by injection Hr' as <-. }
  apply not_Forall_Exists, Exists_exists in Hex as ([rowid id] & Hin & Hd); [|apply _].
  apply not_false_is_true in Hd. unfold doomed in Hd. bools. cbn in *. split; [done|]. subst id.
  split; [by eapply gc_select_elem, list_elem_of_In|]. by split.
Qed.
End histories.

(** ** Concrete histories *)

Definition demo_raw_key : string := "0123456789abcdef".
Definition demo_route : string := "/api/v1/apps".

Definition demo_claim (now : Time) (s : IdemStore) : result IdempotencyError (IdemStore * ClaimResult) :=
  claim (CR := demo_crypto) "k" now 9%N demo_route demo_raw_key "h" 1%N s.

Definition demo_claimed : IdemStore := committed empty_idem (demo_claim 0 empty_idem).

(** A restart, the resumed request and its response. *)
Definition demo_history : list idem_op :=
  [IoInterruptAll (seconds 5); IoClaim (seconds 6) 10%N demo_route demo_raw_key "h" 2%N;
   IoFinish (seconds 7) demo_route demo_raw_key 200 "done" None 2%N].

Lemma key_claimed_once_witness :
  match claim (CR := demo_crypto) "k" (seconds 60) 11%N demo_route demo_raw_key "h" 3%N
          (foldl (exec_idem (CR := demo_crypto) (ST := clock_sql_time) "k") demo_claimed demo_history) with
  | Ok (_, New _) => False
  | Ok (_, answer) => "h" = "h" /\ claim_operation answer = 9%N
  | Err IeReused => "h" <> "h"
  | Err e => e = IeInProgress
  end.
Proof.
  apply (key_claimed_once (CR := demo_crypto) (ST := clock_sql_time) "k" 0 9%N demo_route demo_raw_key "h" 1%N
    empty_idem demo_claimed demo_history (seconds 60) 11%N "h" 3%N).
  - apply empty_idem_wf.
  - vm_compute. reflexivity.
  - by repeat constructor.
Defined.

Lemma finished_request_replays_witness :
  let s := finish (CR := demo_crypto) "k" (seconds 1) demo_route demo_raw_key 200 "ok" None 1%N demo_claimed in
  claim (CR := demo_crypto) "k" (seconds 3) 12%N demo_route demo_raw_key "h" 4%N
    (foldl (exec_idem (CR := demo_crypto) (ST := clock_sql_time) "k") s [IoInterruptAll (seconds 2)])
  = Ok (foldl (exec_idem (CR := demo_crypto) (ST := clock_sql_time) "k") s [IoInterruptAll (seconds 2)],
        Replay 9%N 200 "ok").
Proof.
  apply (finished_request_replays (CR := demo_crypto) (ST := clock_sql_time) "k" (seconds 1) demo_route demo_raw_key
    "h" 200 "ok" None 1%N demo_claimed (pending_row 0 1 "h" 9%N) [IoInterruptAll (seconds 2)]).
  - apply (exec_idem_wf (CR := demo_crypto) (ST := clock_sql_time) "k" empty_idem
      (IoClaim 0 9%N demo_route demo_raw_key "h" 1%N)), empty_idem_wf.
  - reflexivity.
  - vm_compute. reflexivity.
  - reflexivity.
  - by repeat constructor.
  - by repeat constructor.
Defined.

Definition demo_deployment_claim : DeploymentClaim :=
  MkDeploymentClaim 7%N Manual 2%N None None None None None None None.

Lemma deployment_claim_atomic_witness :
  exists s' row,
    claim_deployment (CR := demo_crypto) "k" (fun _ => "queued") 5 20%N demo_route demo_raw_key "h" 3%N
      demo_deployment_claim empty_idem = Ok (s', New 20%N)
    /\ replay_of row = Ok (Replay 20%N 202 "queued").
Proof.
  pose proof (deployment_claim_atomic (CR := demo_crypto) "k" (fun _ => "queued") 5 20%N demo_route demo_raw_key
    "h" 3%N demo_deployment_claim empty_idem empty_ledger_wf) as H. cbv zeta in H.
  specialize (H eq_refl eq_refl eq_refl).
  assert (Hfree : app_claimed 7%N empty_database = false) by (by vm_compute).
  cbn [dc_app_id demo_deployment_claim is_database empty_idem] in H. rewrite Hfree in H. destruct H as (s' & row & H & _ & _ & Hr & _).
  exists s', row. exact (conj H Hr).
Defined.

Lemma collection_spares_live_witness :
  let s := foldl (exec_idem (CR := demo_crypto) (ST := clock_sql_time) "k") demo_claimed demo_history in
  let now := seconds 200000 in
  (gc_delete (ST := clock_sql_time) (gc_cutoff now) (gc_select (ST := clock_sql_time) now [] s) s).2 = 1
  /\ (gc_delete (ST := clock_sql_time) (gc_cutoff now) (gc_select (ST := clock_sql_time) now [] s) s).2 <= 100.
Proof.
  split; [by vm_compute|].
  pose proof (collection_spares_live (ST := clock_sql_time) (seconds 200000) []
    (foldl (exec_idem (CR := demo_crypto) (ST := clock_sql_time) "k") demo_claimed demo_history)
    (foldl (exec_idem (CR := demo_crypto) (ST := clock_sql_time) "k") demo_claimed demo_history)) as H.
  assert (Hwf : idem_wf (foldl (exec_idem (CR := demo_crypto) (ST := clock_sql_time) "k") demo_claimed demo_history)).
  { cbn [demo_history foldl]. do 3 apply exec_idem_wf.
    apply (exec_idem_wf (CR := demo_crypto) (ST := clock_sql_time) "k" empty_idem
      (IoClaim 0 9%N demo_route demo_raw_key "h" 1%N)), empty_idem_wf. }
  specialize (H Hwf). destruct (gc_delete _ _ _) as [s' n]. apply H.
Defined.
