(* ===== verification/Scheduler.v ===== *)
(** * Scheduler: guards, fresh facts and the claim

    [src/deploy/scheduler.rs] with the guards of [src/mutation/coordinator.rs].
    A deployment is scheduled under the application's lock and the one Compose
    permit, after the facts the caller saw were observed again; the engine task
    keeps both guards until it ends. *)

From S2P Require Import Prelude Text Codec Reference Models Ownership Database Ledger Health Effects Events Engine EngineTheorems PollStates Idempotency.

(** ** The coordinator *)

Inductive CoordinatorError := CeBusy | CePermission | CeIo.

#[export] Instance CoordinatorError_eq_dec : EqDecision CoordinatorError.
Proof. solve_decision. Defined.

(** Who holds a guard: the task of a deployment, or another mutation. *)
Abbreviation Holder := (option Uuid) (only parsing).

Record Guards := MkGuards {
  gd_apps : gmap Uuid (option Uuid);
  gd_compose : option (option Uuid);
}.

#[export] Instance eta_Guards : Eta Guards := fun r => MkGuards (gd_apps r) (gd_compose r).

Definition free_guards : Guards := MkGuards ∅ None.

(** The in-process lock of the application, then its lock file: opening and
    checking the file may fail, and another process may hold its lock. *)
Definition try_app (app_id : Uuid) (holder : option Uuid) (lock_file : result CoordinatorError unit)
    (g : Guards) : result CoordinatorError Guards :=
  if is_some (gd_apps g !! app_id) then Err CeBusy
  else _ ← lock_file; Ok (g <| gd_apps := <[app_id := holder]> (gd_apps g) |>).

(** The semaphore has one permit. *)
Definition try_compose_owned (holder : option Uuid) (g : Guards) : result CoordinatorError Guards :=
  if is_some (gd_compose g) then Err CeBusy else Ok (g <| gd_compose := Some holder |>).

(** Dropping the guards of an application mutation. *)
Definition drop_guards (app_id : Uuid) (g : Guards) : Guards :=
  MkGuards (delete app_id (gd_apps g)) None.

(** ** Commands *)

Record ScheduleFacts := MkScheduleFacts {
  sf_draft_revision : Uuid;
  sf_active_release_id : option Uuid;
  sf_pending_release_id : option Uuid;
  sf_actual_release_id : option Uuid;
  sf_actual_container_id : option string;
  sf_acknowledge_non_rollbackable_data : bool;
}.

Record ScheduleCommand := MkScheduleCommand {
  sc_route : string;
  sc_idempotency_key : string;
  sc_fingerprint : string;
  sc_request_id : Uuid;
  sc_app_id : Uuid;
  sc_trigger : DeploymentTrigger;
  sc_facts : ScheduleFacts;
  sc_rollback_target : option Uuid;
  sc_rollback_of : option Uuid;
  sc_scheduled : option ScheduledResolvedTarget;
}.

Inductive ScheduleResult :=
| Scheduled (deployment_id : Uuid)
| ScheduleReplay (status : Z) (body : string).

Inductive ScheduleError :=
| ShAppNotFound | ShUnconfigured | ShBusy | ShFactsChanged | ShDataAckRequired | ShContainerInvalid
| ShDocker (code : string) | ShConfigInvalid | ShIdempotency (e : IdempotencyError) | ShInternal.

(** What the scheduler observes while it holds the guards. *)
Record ScheduleView := MkScheduleView {
  sv_shutdown : bool;
  sv_lock_file : result CoordinatorError unit;
  sv_metadata : result StoreError AppMetadata;
  sv_active : result StoreError (option Uuid);
  sv_pending : result StoreError (option Uuid);
  sv_catalog : option AppCatalogEntry;
  sv_containers : result DockerErrorKind (list ContainerRecord);
  sv_generation : AppMetadata -> result StoreError string;
  sv_integrity_key : bool;
  sv_draft : Uuid -> result StoreError ConfigMetadata;
  sv_now : Time;
  sv_operation_id : Uuid;
}.

Section scheduler.
Context {CR : Crypto} {UT : UuidText}.
Variable key_material : string.
(** The JSON body of the queued response. *)
Variable render : Uuid -> string.

Definition actual_fact (view : ScheduleView) (active : option Uuid)
    : result ScheduleError (option (Uuid * string)) :=
  app ← ok_or (sv_catalog view) ShAppNotFound;
  let app := app <| ce_active_release_id := active |> in
  candidates ← map_err (fun kind => ShDocker (docker_public_code kind)) (sv_containers view);
  _ ← refuse_if (1 <? length candidates) ShContainerInvalid;
  match candidates with
  | [] => Ok None
  | container :: _ =>
      identity ← ok_or (validate_syntactic_identity (cr_labels container) app) ShContainerInvalid;
      Ok (Some (oi_release_id identity, cr_id container))
  end.

(** The facts the caller saw are still the facts. *)
Definition facts_changed (facts : ScheduleFacts) (draft_revision : Uuid) (active pending : option Uuid)
    (actual : option (Uuid * string)) : bool :=
  (draft_revision ≠? sf_draft_revision facts)
  || (active ≠? sf_active_release_id facts)
  || (pending ≠? sf_pending_release_id facts)
  || (fst <$> actual ≠? sf_actual_release_id facts)
  || (snd <$> actual ≠? sf_actual_container_id facts).

(** A polled deployment additionally needs its generation to be current. *)
Definition check_poll (view : ScheduleView) (command : ScheduleCommand) (metadata : AppMetadata)
    : result ScheduleError unit :=
  if sc_trigger command =? Poll then
    scheduled ← ok_or (sc_scheduled command) ShConfigInvalid;
    if negb (am_auto_deploy_enabled metadata) then Err ShFactsChanged
    else generation ← map_err (fun _ => ShConfigInvalid) (sv_generation view metadata);
         refuse_if (st_generation scheduled ≠? generation) ShFactsChanged
  else Ok tt.

(** Everything between acquiring the guards and the claim: the bound claim. *)
Definition bind_facts (view : ScheduleView) (command : ScheduleCommand)
    : result ScheduleError DeploymentClaim :=
  metadata ← map_err (fun _ => ShAppNotFound) (sv_metadata view);
  draft_revision ← ok_or (am_draft_revision metadata) ShUnconfigured;
  active ← map_err (fun _ => ShInternal) (sv_active view);
  pending ← map_err (fun _ => ShInternal) (sv_pending view);
  actual ← actual_fact view active;
  _ ← refuse_if (facts_changed (sc_facts command) draft_revision active pending actual) ShFactsChanged;
  _ ← check_poll view command metadata;
  _ ← refuse_if (negb (sv_integrity_key view)) ShInternal;
  draft ← map_err (fun _ => ShConfigInvalid) (sv_draft view draft_revision);
  _ ← refuse_if ((negb (is_nil (cm_volumes draft)) || negb (is_nil (cm_binds draft)))
                 && negb (sf_acknowledge_non_rollbackable_data (sc_facts command))) ShDataAckRequired;
  Ok (MkDeploymentClaim (sc_app_id command) (sc_trigger command) draft_revision active pending
        (fst <$> actual) (snd <$> actual) (sc_rollback_target command) (sc_rollback_of command)
        (sc_scheduled command)).

(** The replay lookup reads [seen], the claim runs on the store by then. The
    guards are returned only when the task took them over. *)
Definition schedule (view : ScheduleView) (command : ScheduleCommand) (seen : IdemStore)
    (g : Guards) (s : IdemStore) : result ScheduleError (Guards * IdemStore * ScheduleResult) :=
  _ ← refuse_if (sv_shutdown view) ShBusy;
  completed ← map_err ShIdempotency
    (completed_for_actor key_material (claim_actor (sc_trigger command)) (sc_route command)
       (sc_idempotency_key command) (sc_fingerprint command) seen);
  match completed with
  | Some (Replay _ status body) => Ok (g, s, ScheduleReplay status body)
  | _ =>
      let holder := Some (sv_operation_id view) in
      held ← map_err (fun _ => ShBusy) (try_app (sc_app_id command) holder (sv_lock_file view) g);
      held ← map_err (fun _ => ShBusy) (try_compose_owned holder held);
      bound ← bind_facts view command;
      claimed ← map_err ShIdempotency
        (claim_deployment key_material render (sv_now view) (sv_operation_id view) (sc_route command)
           (sc_idempotency_key command) (sc_fingerprint command) (sc_request_id command) bound s);
      match claimed with
      | (s, Replay _ status body) => Ok (g, s, ScheduleReplay status body)
      | (s, New deployment_id) => Ok (held, s, Scheduled deployment_id)
      | (s, Resume _) => Err ShBusy
      end
  end.

(** ** Inversion of the claim *)

Lemma replay_of_new row a id : replay_of row = Ok a -> a <> New id /\ a <> Resume id.
Proof. unfold replay_of. by destruct (ir_response_status row), (ir_response_body row); intros [= <-]. Qed.

Lemma claim_deployment_inv now id route raw hmac req c s s' a :
  claim_deployment key_material render now id route raw hmac req c s = Ok (s', a) ->
  (exists status body op, a = Replay op status body /\ s' = s)
  \/ (a = New id
      /\ (exists row, is_records s' = <[(claim_actor (dc_trigger c), route, hmac_of key_material raw) := row]> (is_records s)
           /\ ir_rowid row = next_rowid s /\ ir_request_hmac row = hmac /\ ir_updated_at row = now
           /\ terminal_record row = true /\ replay_of row = Ok (Replay id 202 (render id)))
      /\ is_records s !! (claim_actor (dc_trigger c), route, hmac_of key_material raw) = None
      /\ exists db', open_deployment now (claimed_row now id req c) (is_database s) = Ok db'
       /\ deployments (is_database s') = deployments db'
       /\ deployment_transitions (is_database s') = deployment_transitions db').
Proof.
  unfold claim_deployment. destruct (validate_key raw) as [[]|]; [|done]. cbn -[update_record].
  set (k := (claim_actor _, route, _)). destruct (is_records s !! k) as [old|] eqn:Hold.
  - case_bool_decide; [|done]. cbn. intros Hok. left.
    destruct (ir_status old); try done; unfold replay_of in Hok;
      destruct (ir_response_status old), (ir_response_body old); cbn in Hok; simplify_eq; eauto.
  - unfold open_deployment. change (is_database (put _ _ s)) with (is_database s).
    destruct (insert_deployment _ _) as [db1|]; [|done]. cbn -[update_record].
    destruct (insert_transition _ _) as [db2|] eqn:Ht; [|done]. cbn -[update_record].
    intros H. right. unfold update_record in H. cbn in H. rewrite lookup_insert_eq in H. cbn in H.
    rewrite bool_decide_eq_true_2 in H by done. cbn in H. simplify_eq. split; [done|].
    split; [|split; [done|by exists db2]]. cbn. rewrite insert_insert_eq. by eexists.
Qed.

Lemma try_app_ok app_id holder file g g' :
  try_app app_id holder file g = Ok g' ->
  gd_apps g !! app_id = None /\ g' = g <| gd_apps := <[app_id := holder]> (gd_apps g) |>.
Proof. unfold try_app. destruct (gd_apps g !! app_id); [done|]. cbn. intros H. ok_inv. done. Qed.

Lemma try_compose_ok holder g g' :
  try_compose_owned holder g = Ok g' -> gd_compose g = None /\ g' = g <| gd_compose := Some holder |>.
Proof. unfold try_compose_owned. destruct (gd_compose g); [done|]. cbn. intros H. ok_inv. done. Qed.

(** What a successful binding proves about the observations. *)
Record facts_hold (view : ScheduleView) (command : ScheduleCommand) (c : DeploymentClaim) : Prop := {
  fh_app : dc_app_id c = sc_app_id command;
  fh_trigger : dc_trigger c = sc_trigger command;
  fh_draft : exists metadata, sv_metadata view = Ok metadata
    /\ am_draft_revision metadata = Some (sf_draft_revision (sc_facts command))
    /\ (sc_trigger command = Poll -> am_auto_deploy_enabled metadata = true
        /\ exists scheduled, sc_scheduled command = Some scheduled
           /\ sv_generation view metadata = Ok (st_generation scheduled));
  fh_active : sv_active view = Ok (sf_active_release_id (sc_facts command));
  fh_pending : sv_pending view = Ok (sf_pending_release_id (sc_facts command));
  fh_actual : exists containers, sv_containers view = Ok containers
    /\ (cr_id <$> containers) = match sf_actual_container_id (sc_facts command) with
                               | Some id => [id] | None => [] end;
  fh_bound : dc_requested_revision c = sf_draft_revision (sc_facts command)
    /\ dc_from_release_id c = sf_active_release_id (sc_facts command)
    /\ dc_expected_pending_release_id c = sf_pending_release_id (sc_facts command)
    /\ dc_expected_actual_release_id c = sf_actual_release_id (sc_facts command)
    /\ dc_expected_actual_container_id c = sf_actual_container_id (sc_facts command);
  fh_data : exists draft, sv_draft view (dc_requested_revision c) = Ok draft
    /\ (sf_acknowledge_non_rollbackable_data (sc_facts command) = true
        \/ cm_volumes draft = [] /\ cm_binds draft = []);
}.

Lemma actual_fact_ok view active actual :
  actual_fact view active = Ok actual ->
  exists containers, sv_containers view = Ok containers
    /\ (cr_id <$> containers) = match snd <$> actual with Some id => [id] | None => [] end.
Proof.
  unfold actual_fact. intros H. ok_inv. exists a0. split; [done|].
  destruct a0 as [|container [|? ?]]; cbn in *; [by ok_inv|by ok_inv|].
  done.
Qed.

Lemma is_nil_true {A} (l : list A) : is_nil l = true -> l = [].
Proof. by destruct l. Qed.

Lemma bind_facts_ok view command c : bind_facts view command = Ok c -> facts_hold view command c.
Proof.
  unfold bind_facts. intros H. ok_inv. rename a into metadata, a0 into draft_revision, a1 into active,
    a2 into pending, a3 into actual, a7 into draft.
  unfold facts_changed in *. bools. subst.
  destruct (actual_fact_ok _ _ _ E3) as (containers & Hc & Hids).
  split; cbn; try done.
  - exists metadata. split; [done|]. split; [done|]. intros Hp. unfold check_poll in E5.
    rewrite bool_decide_eq_true_2 in E5 by done. ok_inv.
    destruct (am_auto_deploy_enabled metadata); cbn in E5; [|done]. ok_inv. bools. subst. eauto.
  - exists containers. by rewrite <- H0.
  - exists draft. split; [done|]. apply andb_false_iff in E8 as [Hn|Ha].
    + right. bools. by split; apply is_nil_true.
    + left. by apply negb_false_iff.
Qed.

Lemma schedule_ok view command seen g s g' s' answer :
  schedule view command seen g s = Ok (g', s', answer) ->
  (exists status body, answer = ScheduleReplay status body /\ g' = g /\ s' = s)
  \/ (let id := sv_operation_id view in
      answer = Scheduled id /\ gd_apps g !! sc_app_id command = None /\ gd_compose g = None
      /\ g' = MkGuards (<[sc_app_id command := Some id]> (gd_apps g)) (Some (Some id))
      /\ (let key := (claim_actor (sc_trigger command), sc_route command,
                      hmac_of key_material (sc_idempotency_key command)) in
          is_records s !! key = None
          /\ exists row, is_records s' = <[key := row]> (is_records s)
               /\ ir_rowid row = next_rowid s /\ ir_request_hmac row = sc_fingerprint command
               /\ ir_updated_at row = sv_now view
               /\ terminal_record row = true /\ replay_of row = Ok (Replay id 202 (render id)))
      /\ exists c db', bind_facts view command = Ok c
         /\ open_deployment (sv_now view) (claimed_row (sv_now view) id (sc_request_id command) c)
              (is_database s) = Ok db'
         /\ deployments (is_database s') = deployments db'
         /\ deployment_transitions (is_database s') = deployment_transitions db').
Proof.
  unfold schedule. intros H. apply bind_ok_inv in H as ([] & _ & H).
  apply bind_ok_inv in H as (completed & _ & H).
  assert (Hcases : (exists op st b, completed = Some (Replay op st b))
                   \/ (forall op st b, completed <> Some (Replay op st b))).
  { destruct completed as [[]|]; [by right|by right|left; eauto|by right]. }
  destruct Hcases as [(op & st & b & ->)|Hno]; [left; ok_inv; eauto|].
  match type of H with ?l = _ =>
    assert (Heq : l = (
      held ← map_err (fun _ => ShBusy) (try_app (sc_app_id command) (Some (sv_operation_id view)) (sv_lock_file view) g);
      held ← map_err (fun _ => ShBusy) (try_compose_owned (Some (sv_operation_id view)) held);
      bound ← bind_facts view command;
      claimed ← map_err ShIdempotency
        (claim_deployment key_material render (sv_now view) (sv_operation_id view) (sc_route command)
           (sc_idempotency_key command) (sc_fingerprint command) (sc_request_id command) bound s);
      match claimed with
      | (s, Replay _ status body) => Ok (g, s, ScheduleReplay status body)
      | (s, New deployment_id) => Ok (held, s, Scheduled deployment_id)
      | (s, Resume _) => Err ShBusy
      end)) by (destruct completed as [[]|]; try done; by destruct (Hno operation_id status body))
  end.
  rewrite Heq in H. clear Heq. apply bind_ok_inv in H as (g1 & Hg1 & H).
  apply bind_ok_inv in H as (g2 & Hg2 & H). apply bind_ok_inv in H as (c & Hc & H).
  apply bind_ok_inv in H as ([s1 a] & Ha & H). ok_inv.
  apply try_app_ok in Hg1 as [Happ ->]. apply try_compose_ok in Hg2 as [Hcomp ->].
  apply claim_deployment_inv in Ha as [(st & b & op & -> & ->)|(-> & Hrow & Hnone & db' & Hopen & Hd & Ht)]; ok_inv;
    [left; eauto|right]. split; [done|]. split; [done|]. split; [done|]. split; [done|].
  rewrite (fh_trigger _ _ _ (bind_facts_ok _ _ _ Hc)) in Hrow, Hnone. split; [done|]. by exists c, db'.
Qed.

Lemma open_deployment_deployments now row db db' :
  open_deployment now row db = Ok db' ->
  deployments db' = <[dp_id (row_record row) := row]> (deployments db).
Proof.
  unfold open_deployment. intros H. ok_inv. apply insert_deployment_ok in E as (_ & _ & ->).
  unfold insert_transition in H. destruct (existsb _ _); [done|]. ok_inv. done.
Qed.

(** A deployment is only scheduled on current facts: with the application's
    guard and the Compose permit free and now held for it, the draft, the
    active and pending releases and the one container as the caller saw them, a
    polled generation that is still current, and data loss acknowledged when
    the draft has volumes or binds; the ledger row records exactly those facts.
    A replayed answer changes nothing. *)
Theorem schedule_binds_current_facts view command seen g s g' s' answer :
  schedule view command seen g s = Ok (g', s', answer) ->
  match answer with
  | Scheduled id =>
      id = sv_operation_id view
      /\ (gd_apps g !! sc_app_id command = None /\ gd_compose g = None)
      /\ g' = MkGuards (<[sc_app_id command := Some id]> (gd_apps g)) (Some (Some id))
      /\ exists c, facts_hold view command c
           /\ get id (is_database s') = Some (row_record (claimed_row (sv_now view) id (sc_request_id command) c))
           /\ app_claimed (sc_app_id command) (is_database s) = false
  | ScheduleReplay _ _ => g' = g /\ s' = s
  end.
Proof.
  intros [(st & b & -> & -> & ->)|(-> & Happ & Hcomp & -> & _ & c & db' & Hc & Hopen & Hd & _)]%schedule_ok; [done|].
  split; [done|]. split; [done|]. split; [done|]. exists c. pose proof (bind_facts_ok _ _ _ Hc) as Hf.
  split; [done|]. split.
  - unfold get. rewrite Hd, (open_deployment_deployments _ _ _ _ Hopen). cbn. by rewrite lookup_insert_eq.
  - apply open_deployment_ok in Hopen as [_ Hfree]. cbn in Hfree. rewrite (fh_app _ _ _ Hf) in Hfree.
    by apply Hfree.
Qed.


(** A finished request is answered from the store, whatever the guards. *)
Lemma schedule_replays view command seen g s row id status body :
  sv_shutdown view = false -> validate_key (sc_idempotency_key command) = Ok tt ->
  is_records seen !! (claim_actor (sc_trigger command), sc_route command,
                      hmac_of key_material (sc_idempotency_key command)) = Some row ->
  ir_request_hmac row = sc_fingerprint command -> terminal_record row = true ->
  replay_of row = Ok (Replay id status body) ->
  schedule view command seen g s = Ok (g, s, ScheduleReplay status body).
Proof.
  intros Hs Hv Hrow Hreq Hterm Hrep. unfold schedule, completed_for_actor. rewrite Hs, Hv, Hrow, Hreq.
  replace (negb _) with false by (by destruct (sc_trigger command)). cbn [refuse_if mbind result_bind].
  rewrite bool_decide_eq_true_2 by done. cbn [negb].
  unfold terminal_record in Hterm. destruct (ir_status row); try done; by rewrite Hrep.
Qed.


(** ** The running system

    Deployment tasks, other mutations and other transactions interleave in any
    order. A task is the engine's program itself: what it has done so far is a
    trace of [spawn], each of its ledger calls is answered by the database, which
    may fail, and it ends when its program has nothing left to do. *)

Record Task := MkTask {
  tk_id : Uuid;
  tk_app : Uuid;
  tk_calls : list (obs ev);
}.

Record SchedState := MkSchedState {
  ss_guards : Guards;
  ss_store : IdemStore;
  ss_tasks : list Task;
  ss_ended : list Task;
}.

Definition ss_database (st : SchedState) : Database := is_database (ss_store st).
Definition ss_deployments (st : SchedState) : gmap Uuid DeploymentRow := deployments (ss_database st).

Section system.
Variable apps_directory : string.
(** How the ledger renders identifiers, policies and results into columns. *)
Variable (id_text : Uuid -> string) (policy_text : HealthPolicy -> string) (result_text : HealthResult -> string).

Abbreviation answers := (ledger_answer id_text policy_text result_text).

(** [sy_end]: the guards are dropped before the last notification is sent. *)
Inductive sched_step (st : SchedState) : SchedState -> Prop :=
| sy_schedule view command seen g' s' id :
    schedule view command seen (ss_guards st) (ss_store st) = Ok (g', s', Scheduled id) ->
    sched_step st (MkSchedState g' s' (MkTask id (sc_app_id command) [] :: ss_tasks st) (ss_ended st))
| sy_call before t after o outcome s' :
    ss_tasks st = before ++ t :: after ->
    trace (spawn apps_directory (tk_id t)) (tk_calls t ++ [o]) outcome ->
    answers (ss_database st) o (is_database s') ->
    sched_step st (MkSchedState (ss_guards st) s'
                     (before ++ MkTask (tk_id t) (tk_app t) (tk_calls t ++ [o]) :: after) (ss_ended st))
| sy_end before t after :
    ss_tasks st = before ++ t :: after ->
    trace (spawn apps_directory (tk_id t)) (tk_calls t ++ [Obs NotifyRetention tt]) (Some tt) ->
    sched_step st (MkSchedState (drop_guards (tk_app t) (ss_guards st)) (ss_store st) (before ++ after)
                     (t :: ss_ended st))
| sy_other s' :
    deployments (is_database s') = ss_deployments st ->
    deployment_transitions (is_database s') = deployment_transitions (ss_database st) ->
    sched_step st (MkSchedState (ss_guards st) s' (ss_tasks st) (ss_ended st))
| sy_lock_app app file g' :
    try_app app None file (ss_guards st) = Ok g' ->
    sched_step st (MkSchedState g' (ss_store st) (ss_tasks st) (ss_ended st))
| sy_lock_compose g' :
    try_compose_owned None (ss_guards st) = Ok g' ->
    sched_step st (MkSchedState g' (ss_store st) (ss_tasks st) (ss_ended st))
| sy_unlock_app app :
    gd_apps (ss_guards st) !! app = Some None ->
    sched_step st (MkSchedState (MkGuards (delete app (gd_apps (ss_guards st))) (gd_compose (ss_guards st)))
                     (ss_store st) (ss_tasks st) (ss_ended st))
| sy_unlock_compose :
    gd_compose (ss_guards st) = Some None ->
    sched_step st (MkSchedState (MkGuards (gd_apps (ss_guards st)) None) (ss_store st) (ss_tasks st)
                     (ss_ended st)).

(** The task holds the application's guard and the Compose permit. *)
Definition holds_guards (g : Guards) (t : Task) : Prop :=
  gd_apps g !! tk_app t = Some (Some (tk_id t)) /\ gd_compose g = Some (Some (tk_id t)).

(** The task works on a deployment of its application, and its calls were
    answered by the ledger from then on. *)
Definition follows_ledger (db : Database) (t : Task) : Prop :=
  exists db0 db1 row, ledger_wf db0 /\ deployments db0 !! tk_id t = Some row
    /\ dp_app_id (row_record row) = tk_app t
    /\ follows id_text policy_text result_text db0 (tk_calls t) db1 /\ rtc ledger_step db1 db.

(** The last ledger call of the task was the attempt to record a terminal
    status, and the database failed. *)
Definition left_open (t : Task) : Prop :=
  exists tr status res code e,
    tk_calls t = tr ++ [Obs (LedgerTransition (tk_id t) PhTerminal status res code) (Err e);
                        Obs NotifyReconcile tt]
    /\ is_terminal status = true /\ database_failure e.

Record sched_wf (st : SchedState) : Prop := {
  sw_ledger : ledger_wf (ss_database st);
  sw_single : length (ss_tasks st) <= 1;
  sw_held t : t ∈ ss_tasks st -> holds_guards (ss_guards st) t;
  sw_task t : t ∈ ss_tasks st -> follows_ledger (ss_database st) t;
  sw_open id row : ss_deployments st !! id = Some row -> nonterminal row = true ->
    (exists t, t ∈ ss_tasks st /\ tk_id t = id /\ tk_app t = dp_app_id (row_record row))
    \/ (exists t, t ∈ ss_ended st /\ tk_id t = id /\ left_open t);
}.

(** *** Preservation *)

Lemma only_task {A} (l before after : list A) t :
  length l <= 1 -> l = before ++ t :: after -> before = [] /\ after = [].
Proof. intros Hl ->. rewrite length_app in Hl. cbn in Hl. destruct before, after; cbn in Hl; auto; lia. Qed.

Lemma follows_ledger_later db db' t : follows_ledger db t -> rtc ledger_step db db' -> follows_ledger db' t.
Proof.
  intros (db0 & db1 & row & H1 & H2 & H3 & H4 & H5) Hs. exists db0, db1, row.
  do 4 (split; [done|]). by trans db.
Qed.

Lemma follows_snoc db tr db1 db2 o db3 :
  follows id_text policy_text result_text db tr db1 -> rtc ledger_step db1 db2 -> answers db2 o db3 ->
  follows id_text policy_text result_text db (tr ++ [o]) db3.
Proof.
  induction 1 as [db|db db0 o' db1' tr db2' Hs Ha Hf IH]; intros Hto Ho; [|by econstructor; eauto].
  econstructor; [exact Hto|exact Ho|constructor].
Qed.

(** A scheduled deployment is one new open row. *)
Lemma schedule_opens view command seen g s g' s' id :
  schedule view command seen g s = Ok (g', s', Scheduled id) ->
  gd_compose g = None /\ g' = MkGuards (<[sc_app_id command := Some id]> (gd_apps g)) (Some (Some id))
  /\ rtc ledger_step (is_database s) (is_database s')
  /\ exists row, deployments (is_database s') = <[id := row]> (deployments (is_database s))
       /\ dp_app_id (row_record row) = sc_app_id command.
Proof.
  intros [(? & ? & ? & _)|(Hid & _ & Hcomp & -> & _ & c & db' & Hc & Hopen & Hd & Ht)]%schedule_ok; [done|].
  injection Hid as ->. split; [done|]. split; [done|]. split.
  - apply (rtc_l _ _ db'); [by eapply step_open; [apply claimed_row_fresh|]|]. by apply rtc_once, step_other.
  - rewrite Hd, (open_deployment_deployments _ _ _ _ Hopen). eexists. split; [done|]. cbn.
    by rewrite (fh_app _ _ _ (bind_facts_ok _ _ _ Hc)).
Qed.

(** The calls of a task change no row but its own, and keep to the ledger. *)
Lemma call_follows db t o outcome db' :
  follows_ledger db t -> trace (spawn apps_directory (tk_id t)) (tk_calls t ++ [o]) outcome -> answers db o db' ->
  follows_ledger db' (MkTask (tk_id t) (tk_app t) (tk_calls t ++ [o]))
  /\ forall i, i <> tk_id t -> deployments db' !! i = deployments db !! i.
Proof.
  intros (db0 & db1 & row & Hwf & Hrow & Happ & Hf & Hto) Ht Ha.
  pose proof (follows_snoc _ _ _ _ _ _ Hf Hto Ha) as Hf'. split.
  - exists db0, db', row. by do 4 (split; [done|]).
  - intros i Hi. destruct o as [X e x].
    pose proof (task_stays_within_its_deployment apps_directory (tk_id t) (tk_calls t) X e x) as Hown.
    eapply ledger_answer_others; [|exact Ha|exact Hi].
    assert (Hcall : task_call apps_directory (tk_id t) (tk_calls t) (Obs e x)).
    { exists [], outcome. split; [done|]. by eapply own_records_of_ledger. }
    specialize (Hown Hcall). by destruct e.
Qed.

(** A task that has ended has closed its row, or left it open because the
    database failed. *)
Lemma ended_settled db t :
  follows_ledger db t ->
  trace (spawn apps_directory (tk_id t)) (tk_calls t ++ [Obs NotifyRetention tt]) (Some tt) ->
  (exists row, deployments db !! tk_id t = Some row /\ nonterminal row = false) \/ left_open t.
Proof.
  intros (db0 & db1 & row & Hwf & Hrow & _ & Hf & Hto) Ht.
  assert (Hf' : follows id_text policy_text result_text db0 (tk_calls t ++ [Obs NotifyRetention tt]) db)
    by by eapply follows_snoc.
  destruct (spawn_attempts_terminal _ _ _ Ht (own_records_of_ledger _ _ _ _ _ _ Hwf Hf'))
    as (tr1 & status & res & code & x & tr2 & Hst & Htr & Hx). rewrite Htr in Hf'.
  destruct (attempt_settles _ _ _ _ _ _ _ _ _ _ _ _ _ Hwf Hrow Hst Hf') as [Hc|(e & He & ->)]; [by left|right].
  destruct Hx as [[=]| ->]. exists tr1, status, res, code, e. split; [|done].
  eapply (app_inj_tail _ _ (Obs NotifyRetention tt) (Obs NotifyRetention tt)). by rewrite <- app_assoc.
Qed.

Lemma schedule_step_wf st view command seen g' s' id :
  schedule view command seen (ss_guards st) (ss_store st) = Ok (g', s', Scheduled id) ->
  sched_wf st ->
  sched_wf (MkSchedState g' s' (MkTask id (sc_app_id command) [] :: ss_tasks st) (ss_ended st)).
Proof.
  intros (Hcomp & -> & Hsteps & row & Hd & Happ)%schedule_opens Hwf.
  pose proof (rtc_ledger_wf _ _ Hsteps (sw_ledger st Hwf)) as Hled.
  assert (Hnone : ss_tasks st = []).
  { destruct (ss_tasks st) as [|t l] eqn:Hl; [done|].
    destruct (sw_held st Hwf t) as [_ Hh]; [rewrite Hl; by left|]. congruence. }
  rewrite Hnone. split; unfold ss_deployments, ss_database in *; cbn [ss_tasks ss_guards ss_store ss_ended].
  - done.
  - cbn. lia.
  - intros t ->%list_elem_of_singleton. split; cbn; [by rewrite lookup_insert_eq|done].
  - intros t ->%list_elem_of_singleton. exists (is_database s'), (is_database s'), row.
    split; [done|]. split; [cbn; by rewrite Hd, lookup_insert_eq|]. split; [done|]. split; [constructor|done].
  - intros i r. rewrite Hd, lookup_insert. case_decide as Hi.
    + subst i. intros [= <-] _. left. eexists. split; [by apply list_elem_of_singleton|]. by split.
    + intros Hr Hn. destruct (sw_open st Hwf i r Hr Hn) as [(t & Ht & _)|Hleft]; [|by right].
      rewrite Hnone in Ht. by apply not_elem_of_nil in Ht.
Qed.

Lemma call_step_wf st before t after o outcome s' :
  ss_tasks st = before ++ t :: after ->
  trace (spawn apps_directory (tk_id t)) (tk_calls t ++ [o]) outcome ->
  answers (ss_database st) o (is_database s') -> sched_wf st ->
  sched_wf (MkSchedState (ss_guards st) s'
    (before ++ MkTask (tk_id t) (tk_app t) (tk_calls t ++ [o]) :: after) (ss_ended st)).
Proof.
  intros Htasks Ht Ha Hwf. destruct (only_task _ _ _ _ (sw_single st Hwf) Htasks) as [-> ->]. cbn [app] in *.
  assert (Hin : t ∈ ss_tasks st) by (rewrite Htasks; by left).
  pose proof (sw_task st Hwf t Hin) as Htf. destruct (call_follows _ _ _ _ _ Htf Ht Ha) as [Hf Hothers].
  assert (Hstep : rtc ledger_step (ss_database st) (is_database s')) by by eapply ledger_answer_step.
  split; unfold ss_deployments, ss_database in *; cbn [ss_tasks ss_guards ss_store ss_ended].
  - by eapply rtc_ledger_wf, Hwf.
  - cbn. lia.
  - intros t' ->%list_elem_of_singleton. by apply (sw_held st Hwf t).
  - by intros t' ->%list_elem_of_singleton.
  - intros i row Hr Hn. destruct (decide (i = tk_id t)) as [->|Hne].
    + left. eexists. split; [by apply list_elem_of_singleton|]. split; [done|]. cbn.
      destruct Htf as (db0 & db1 & row0 & _ & Hrow0 & <- & Hf0 & Hto).
      destruct (rtc_row_advances db0 (is_database s') (tk_id t) row0) as (row' & Hr' & Hra); [|done|].
      { trans db1; [by eapply follows_rtc|]. by etrans. }
      rewrite Hr in Hr'. injection Hr' as <-. symmetry. apply Hra.
    + rewrite Hothers in Hr by done. destruct (sw_open st Hwf i row Hr Hn) as [(t' & Ht' & Hid & _)|]; [|by right].
      rewrite Htasks in Ht'. apply list_elem_of_singleton in Ht' as ->. done.
Qed.

Lemma end_step_wf st before t after :
  ss_tasks st = before ++ t :: after ->
  trace (spawn apps_directory (tk_id t)) (tk_calls t ++ [Obs NotifyRetention tt]) (Some tt) -> sched_wf st ->
  sched_wf (MkSchedState (drop_guards (tk_app t) (ss_guards st)) (ss_store st) (before ++ after)
    (t :: ss_ended st)).
Proof.
  intros Htasks Ht Hwf. destruct (only_task _ _ _ _ (sw_single st Hwf) Htasks) as [-> ->]. cbn [app] in *.
  assert (Hin : t ∈ ss_tasks st) by (rewrite Htasks; by left).
  pose proof (ended_settled _ _ (sw_task st Hwf t Hin) Ht) as Hend.
  split; unfold ss_deployments, ss_database in *; cbn [ss_tasks ss_guards ss_store ss_ended];
    try (intros ? Hf; by apply not_elem_of_nil in Hf).
  - apply Hwf.
  - cbn. lia.
  - intros i row Hr Hn. right. destruct (sw_open st Hwf i row Hr Hn) as [(t' & Ht' & Hid & _)|(t' & Ht' & Hl)].
    + rewrite Htasks in Ht'. apply list_elem_of_singleton in Ht' as ->. exists t. split; [by left|].
      split; [done|]. destruct Hend as [(row' & Hr' & Hn')|]; [|done]. subst i. congruence.
    + exists t'. split; [by right|done].
Qed.

(** A step that keeps the tasks, their guards and the ledger's tables. *)
Lemma quiet_step_wf st g' s' :
  deployments (is_database s') = ss_deployments st ->
  deployment_transitions (is_database s') = deployment_transitions (ss_database st) ->
  (forall t, holds_guards (ss_guards st) t -> holds_guards g' t) ->
  sched_wf st -> sched_wf (MkSchedState g' s' (ss_tasks st) (ss_ended st)).
Proof.
  intros Hd Ht Hg Hwf.
  split; unfold ss_deployments, ss_database in *; cbn [ss_tasks ss_guards ss_store ss_ended].
  - by eapply ledger_wf_ext, Hwf.
  - apply Hwf.
  - intros t Hin. by apply Hg, Hwf.
  - intros t Hin. eapply follows_ledger_later; [by apply (sw_task st Hwf)|]. by apply rtc_once, step_other.
  - rewrite Hd. apply Hwf.
Qed.

Lemma sched_step_wf st st' : sched_step st st' -> sched_wf st -> sched_wf st'.
Proof.
  intros Hstep Hwf. destruct Hstep as [view command seen g' s' id H|before t after o outcome s' Hts Htr Ha
    |before t after Hts Htr|s' Hd Ht|app file g' H|g' H|app H|H].
  - by eapply schedule_step_wf.
  - by eapply call_step_wf.
  - by apply end_step_wf.
  - by apply quiet_step_wf.
  - apply try_app_ok in H as [Hfree ->]. apply quiet_step_wf; [done|done| |done].
    intros t [Ha Hc]. split; [|done]. cbn. rewrite lookup_insert_ne; [done|congruence].
  - apply try_compose_ok in H as [Hfree ->]. apply quiet_step_wf; [done|done| |done].
    intros t [Ha Hc]. congruence.
  - apply quiet_step_wf; [done|done| |done].
    intros t [Ha Hc]. split; [|done]. cbn. rewrite lookup_delete_ne; [done|congruence].
  - apply quiet_step_wf; [done|done| |done]. intros t [Ha Hc]. congruence.
Qed.

(** C7: one deployment at a time. From a start without open deployments, in
    every interleaving of scheduling, of the calls of the engine's tasks with
    whatever the environment answers, of other mutations and of other
    transactions: the ledger stays well formed, at most one deployment task
    runs, it holds its application's guard and the Compose permit, and every
    open deployment of the ledger is the one it works on; except that a
    deployment stays open without a task when the database failed the last
    write of its task, the attempt to record a terminal status. *)
Theorem one_deployment_in_flight s st :
  ledger_wf (is_database s) ->
  (forall id row, deployments (is_database s) !! id = Some row -> nonterminal row = false) ->
  rtc sched_step (MkSchedState free_guards s [] []) st ->
  ledger_wf (ss_database st) /\ length (ss_tasks st) <= 1
  /\ (forall t, t ∈ ss_tasks st -> holds_guards (ss_guards st) t)
  /\ forall id row, ss_deployments st !! id = Some row -> nonterminal row = true ->
       (exists t, t ∈ ss_tasks st /\ tk_id t = id /\ tk_app t = dp_app_id (row_record row))
       \/ (exists t, t ∈ ss_ended st /\ tk_id t = id /\ left_open t).
Proof.
  intros Hledger Hstart Hrtc.
  assert (Hwf0 : sched_wf (MkSchedState free_guards s [] [])).
  { split; cbn; try (intros ? Hf; by apply not_elem_of_nil in Hf); [done|lia|].
    intros id row Hr Hn. rewrite (Hstart id row Hr) in Hn. done. }
  assert (Hwf : sched_wf st).
  { clear Hstart Hledger. induction Hrtc as [|x y z Hxy _ IH]; [done|]. by apply IH, (sched_step_wf x). }
  split; [apply Hwf|]. split; [apply Hwf|]. split; apply Hwf.
Qed.

End system.
End scheduler.

(** ** A concrete schedule *)

Definition demo_schedule_metadata : AppMetadata :=
  MkAppMetadata 3 7%N "app" "App" 2 (Some "nginx:1.27") None (Some 2%N) (Some "cfg") DesiredRunning false 300
    41%N 0 0.

Definition demo_catalog_entry : AppCatalogEntry :=
  MkAppCatalogEntry 7%N "app" "App" 2 "solodock-app" None None None None None None None None None
    (Some "nginx:1.27") (Some 2%N) (Some "cfg") DesiredRunning false 300 None.

Definition demo_draft : ConfigMetadata :=
  MkConfigMetadata None 3 10 None [] [] ∅ [] ∅ ∅ [] [] [] true false [] (Healthy None) "sha".

Definition demo_schedule_view : ScheduleView :=
  MkScheduleView false (Ok tt) (Ok demo_schedule_metadata) (Ok None) (Ok None) (Some demo_catalog_entry) (Ok [])
    (fun _ => Ok "g1") true (fun _ => Ok demo_draft) 5 20%N.

Definition demo_command : ScheduleCommand :=
  MkScheduleCommand demo_route demo_raw_key "h" 3%N 7%N Manual (MkScheduleFacts 2%N None None None None false)
    None None None.

Definition demo_schedule : result ScheduleError (Guards * IdemStore * ScheduleResult) :=
  schedule (CR := demo_crypto) (UT := binary_uuid_text) "k" (fun _ => "queued") demo_schedule_view demo_command
    empty_idem free_guards empty_idem.

Definition demo_scheduled : Guards * IdemStore :=
  match demo_schedule with Ok (g, s, _) => (g, s) | Err _ => (free_guards, empty_idem) end.

Lemma demo_schedule_ok : demo_schedule = Ok (demo_scheduled.1, demo_scheduled.2, Scheduled 20%N).
Proof. vm_compute. reflexivity. Qed.

Lemma schedule_binds_current_facts_witness :
  20%N = sv_operation_id demo_schedule_view
  /\ gd_compose demo_scheduled.1 = Some (Some 20%N).
Proof.
  destruct (schedule_binds_current_facts (CR := demo_crypto) (UT := binary_uuid_text) "k" (fun _ => "queued")
    demo_schedule_view demo_command empty_idem free_guards empty_idem demo_scheduled.1 demo_scheduled.2
    (Scheduled 20%N) demo_schedule_ok) as (Hid & _ & Hg & _).
  split; [exact Hid|]. rewrite Hg. reflexivity.
Defined.

(** The scheduled task, after its first call. *)
Definition demo_task_state : SchedState :=
  MkSchedState demo_scheduled.1 demo_scheduled.2
    [MkTask 20%N 7%N [Obs (LedgerGet 20%N) (Ok (get 20%N (is_database demo_scheduled.2)))]] [].

Lemma one_deployment_in_flight_witness : length (ss_tasks demo_task_state) <= 1.
Proof.
  apply (one_deployment_in_flight (CR := demo_crypto) (UT := binary_uuid_text) "k" (fun _ => "queued") "/apps"
    (fun _ => "") (fun _ => "") (fun _ => "") empty_idem).
  - apply empty_ledger_wf.
  - intros id row. cbn. by rewrite lookup_empty.
  - eapply rtc_l; [|apply rtc_once].
    + apply (sy_schedule (CR := demo_crypto) (UT := binary_uuid_text) "k" (fun _ => "queued") "/apps" (fun _ => "")
        (fun _ => "") (fun _ => "") (MkSchedState free_guards empty_idem [] []) demo_schedule_view demo_command empty_idem).
      exact demo_schedule_ok.
    + eapply (sy_call _ _ _ _ _ _ (MkSchedState demo_scheduled.1 demo_scheduled.2 [MkTask 20%N 7%N []] [])
        [] (MkTask 20%N 7%N []) [] _ None demo_scheduled.2); [reflexivity| |].
      * apply trace_vis, trace_stop.
      * split; [by left|reflexivity].
Defined.
