(* ===== verification/Poller.v ===== *)
(** * Poller: when to look at the registry, and what to do about it

    [src/registry/poller.rs]. The coordinator plans one due time per enabled
    application; [poll_one] resolves the configured reference and decides: it
    records an observation, or publishes the target and schedules a deployment
    for it. Stores, registry, Docker and clock answer through a view; the
    result is the sequence of writes the poll makes. *)

From S2P Require Import Prelude Text Codec Reference Models Ownership Database Ledger PollStates WebhookProtocol Idempotency Scheduler.
From Stdlib Require Import Ascii.

(** ** Bytes hashed for jitter *)

(** [to_be_bytes] at [n] bytes. *)
Fixpoint be_bytes (n : nat) (v : N) : string :=
  match n with
  | 0 => EmptyString
  | S n' => be_bytes n' (v / 256) +:+ String (ascii_of_N (v mod 256)) EmptyString
  end.
(** [Uuid::as_bytes]. *)
Definition uuid_bytes (id : Uuid) : string := be_bytes 16 id.

(** The first byte of a digest. *)
Definition first_code (digest : string) : Z :=
  match digest with String c _ => Z.of_N (code c) | EmptyString => 0 end.

Record DueEntry := MkDueEntry {
  de_due_unix : Z;
  de_app_id : Uuid;
  de_generation : string;
  de_webhook_sequence : Z;
}.

Inductive PollResolve :=
| NotModified
| Modified (image : ResolvedImage) (etag : option string).

Section timing.
Context {CR : Crypto}.

Definition interval_with_jitter (key : string) (app_id : Uuid) (generation : string) (interval : Z)
    (ordinal : N) : Z :=
  let bytes := hmac_sha256 key (uuid_bytes app_id +:+ generation +:+ be_bytes 8 ordinal) in
  let span := Z.min (interval / 10) 30 in
  let offset := if (span =? 0)%Z then 0%Z else (first_code bytes mod (span * 2 + 1) - span)%Z in
  let jittered := Z.max (interval + offset) 1 in
  if (jittered <=? u32_max)%Z then jittered else interval.

(** A store without its key jitters with the empty key. *)
Definition initial_jitter (integrity_key : option string) (app_id : Uuid) (generation : string)
    (interval : Z) : Z :=
  interval_with_jitter (default "" integrity_key) app_id generation interval 0.

Definition webhook_jitter (app_id : Uuid) (sequence : Z) : Z :=
  (first_code (sha256 (uuid_bytes app_id +:+ be_bytes 8 (Z.to_N sequence))) mod 6)%Z.

Definition clamp_persisted_due (due now : Time) (configured_interval : Z) : Time :=
  let latest_expected := (now + seconds (saturating_add u32_max configured_interval 30))%Z in
  if (latest_expected <? due)%Z then (now + seconds 1800)%Z else Z.max due now.

Definition webhook_must_respect_backoff (state : PollState) (now : Time) : bool :=
  is_some_and (pl_next_check_not_before state) (fun deadline => (now <? deadline)%Z)
  && ((0 <? pl_consecutive_transient_failures state)%Z
      || (pl_last_outcome state =? PoCredentialError)).

(** The due time of an enabled application whose row is [current]. *)
Definition pending_webhook (generation : string) (current : option PollState) : option PollState :=
  value ← current;
  if (pl_generation value =? generation)
     && (pl_webhook_processed_sequence value <? pl_webhook_sequence value)%Z
  then Some value else None.

Definition raw_due (integrity_key : option string) (now : Time) (app_id : Uuid) (interval : Z)
    (generation : string) (current : option PollState) : Time :=
  match pending_webhook generation current with
  | None =>
      match (value ← current;
             if pl_generation value =? generation then pl_next_check_not_before value else None) with
      | Some due => due
      | None => (now + seconds (initial_jitter integrity_key app_id generation interval))%Z
      end
  | Some value =>
      let wake_due := (now + seconds (webhook_jitter app_id (pl_webhook_sequence value)))%Z in
      if webhook_must_respect_backoff value now then
        match pl_next_check_not_before value with
        | Some backoff => Z.max backoff wake_due
        | None => wake_due
        end
      else wake_due
  end.

Definition plan_due (integrity_key : option string) (now : Time) (app_id : Uuid) (interval : Z)
    (generation : string) (current : option PollState) : DueEntry :=
  let due := clamp_persisted_due (raw_due integrity_key now app_id interval generation current) now interval in
  MkDueEntry (unix_timestamp due) app_id generation
    match pending_webhook generation current with Some value => pl_webhook_sequence value | None => 0 end.

(** The observations a poll records. *)
Definition checked_observation (generation : string) (next checked : Time) (outcome : PollOutcome)
    : PollObservation :=
  MkPollObservation generation true (Some next) (Some checked) true false None None None None outcome
    None None 0.

Definition format_platform (platform : Platform) : string :=
  match variant platform with
  | Some v => os platform +:+ "/" +:+ architecture platform +:+ "/" +:+ v
  | None => os platform +:+ "/" +:+ architecture platform
  end.

Definition next_regular (metadata : AppMetadata) (generation : string) (checked : Time) : Time :=
  (checked + seconds (interval_with_jitter generation (am_id metadata) generation
                        (am_poll_interval_seconds metadata) 0))%Z.

Definition success_observation (metadata : AppMetadata) (generation : string) (resolved : ResolvedImage)
    (etag : option string) (outcome : PollOutcome) (checked : Time) : PollObservation :=
  MkPollObservation generation true (Some (next_regular metadata generation checked)) (Some checked) true true
    (Some (ri_source_descriptor_digest resolved)) etag (Some (ri_manifest_digest resolved))
    (Some (format_platform (ri_platform resolved))) outcome None None 0.

Definition not_modified_observation (metadata : AppMetadata) (generation : string) (outcome : PollOutcome)
    (checked : Time) : PollObservation :=
  checked_observation generation (next_regular metadata generation checked) checked outcome.

(** The backoff of a transient failure, by the number of failures. *)
Definition backoff_seconds (failures : Z) : Z :=
  default 0%Z ([60; 120; 300; 600; 1800]%Z !! Z.to_nat (saturating_sub failures 1)).

Definition error_seconds (metadata : AppMetadata) (outcome : PollOutcome) (failures : Z) : Z :=
  if (0 <? failures)%Z then backoff_seconds failures
  else if outcome =? PoCredentialError then Z.max (am_poll_interval_seconds metadata) 1800
  else am_poll_interval_seconds metadata.

Definition error_observation (metadata : AppMetadata) (generation : string) (outcome : PollOutcome)
    (class error_code : string) (failures : Z) (checked : Time) : PollObservation :=
  let delay := interval_with_jitter generation (am_id metadata) generation
                 (error_seconds metadata outcome failures) (Z.to_N failures) in
  MkPollObservation generation true (Some (checked + seconds delay)%Z) (Some checked) false false None None
    None None outcome (Some class) (Some error_code) failures.

(** ** Bounds *)

Lemma interval_with_jitter_bounds key app generation interval ordinal :
  (1 <= interval <= u32_max)%Z ->
  let j := interval_with_jitter key app generation interval ordinal in
  (1 <= j <= u32_max)%Z /\ (Z.abs (j - interval) <= Z.min 30 (interval / 10))%Z.
Proof.
  intros Hi. unfold interval_with_jitter. cbv zeta. set (b := first_code _). set (span := Z.min (interval / 10) 30).
  assert (Hspan : (0 <= span <= 30 /\ span <= interval / 10)%Z).
  { unfold span. pose proof (Z.div_pos interval 10). lia. }
  assert (Hdiv : (10 * (interval / 10) <= interval)%Z) by (apply Z.mul_div_le; lia).
  destruct (Z.eqb_spec span 0).
  - destruct (Z.leb_spec (Z.max (interval + 0) 1) u32_max); lia.
  - assert (0 <= b mod (span * 2 + 1) < span * 2 + 1)%Z by (apply Z.mod_pos_bound; lia).
    destruct (Z.leb_spec (Z.max (interval + (b mod (span * 2 + 1) - span)) 1) u32_max); lia.
Qed.

(** ** The plan of one application

    One pass of the coordinator's loop body: the writes it makes and whether
    the application is skipped, degrades the inventory, restarts the pass or is
    due. *)

Inductive PlanAction :=
| PlPublish (observation : PollObservation)
| PlMarkProcessed (generation : string) (captured : Z)
| PlInitialize (observed : option string) (generation : string) (due : Time).

Inductive PlanOutcome := PlDegraded | PlSkipped | PlRestart | PlDue (entry : DueEntry).

Record PlanView := MkPlanView {
  pn_metadata : result StoreError AppMetadata;
  pn_generation : AppMetadata -> result StoreError string;
  pn_current : result PollStateError (option PollState);
  pn_publish : bool;
  pn_mark : bool;
  pn_initialize : result PollStateError bool;
  pn_reread : result PollStateError (option PollState);
}.

Definition disabled_observation (generation : string) : PollObservation :=
  MkPollObservation generation false None None false false None None None None PoDisabled None None 0.

Definition plan_app (integrity_key : option string) (now : Time) (app_id : Uuid) (view : PlanView)
    : list PlanAction * PlanOutcome :=
  match pn_metadata view with
  | Err _ => ([], PlDegraded)
  | Ok metadata =>
  match pn_generation view metadata with
  | Err _ => ([], PlDegraded)
  | Ok generation =>
  match pn_current view with
  | Err _ => ([], PlDegraded)
  | Ok current =>
  if negb (am_auto_deploy_enabled metadata) then
    let woken := is_some_and current (fun p => (pl_webhook_processed_sequence p <? pl_webhook_sequence p)%Z) in
    let marks := match current with
                 | Some p => if woken then [PlMarkProcessed generation (pl_webhook_sequence p)] else []
                 | None => []
                 end in
    (PlPublish (disabled_observation generation) :: marks,
     if negb (pn_publish view) || (woken && negb (pn_mark view)) then PlDegraded else PlSkipped)
  else
  let interval := am_poll_interval_seconds metadata in
  let due current := PlDue (plan_due integrity_key now app_id interval generation current) in
  if is_none_or current (fun value => pl_generation value ≠? generation) then
    let initial_due := (now + seconds (initial_jitter integrity_key app_id generation interval))%Z in
    let initialize := PlInitialize (pl_generation <$> current) generation initial_due in
    match pn_initialize view with
    | Err _ => ([initialize], PlDegraded)
    | Ok false => ([initialize], PlRestart)
    | Ok true =>
        match pn_reread view with
        | Err _ => ([initialize], PlDegraded)
        | Ok current => ([initialize], due current)
        end
    end
  else ([], due current)
  end end end.

(** The entries polled together with the first: the heap is emptied in order as
    long as its head is due. *)
Fixpoint due_batch (now : Z) (heap : list DueEntry) : list DueEntry :=
  match heap with
  | entry :: heap => if (de_due_unix entry <=? now)%Z then entry :: due_batch now heap else []
  | [] => []
  end.
Definition poll_batch (now : Z) (next : DueEntry) (heap : list DueEntry) : list DueEntry :=
  next :: due_batch now heap.

Definition acknowledge_webhook_if_current (metadata : result StoreError AppMetadata)
    (current : AppMetadata -> result StoreError string) (now : Time) (app_id : Uuid) (generation : string)
    (captured : Z) (db : Database) : result unit Database :=
  metadata ← map_err (fun _ => tt) metadata;
  current ← map_err (fun _ => tt) (current metadata);
  Ok (if am_auto_deploy_enabled metadata && (current =? generation)
      then mark_webhook_processed now app_id generation captured db else db).

Lemma first_code_range digest : (0 <= first_code digest <= 255)%Z.
Proof. destruct digest as [|c s]; cbn; [lia|]. pose proof (N_ascii_bounded c). unfold code. lia. Qed.

Lemma webhook_jitter_bounds app sequence : (0 <= webhook_jitter app sequence <= 5)%Z.
Proof. unfold webhook_jitter. pose proof (Z.mod_pos_bound (first_code (sha256 (uuid_bytes app +:+ be_bytes 8 (Z.to_N sequence)))) 6). lia. Qed.

Lemma clamp_bounds due now interval :
  (0 <= interval <= u32_max)%Z ->
  (now <= clamp_persisted_due due now interval
   <= now + seconds (Z.max 1800 (saturating_add u32_max interval 30)))%Z.
Proof.
  intros Hi. unfold clamp_persisted_due, seconds, saturating_add, u32_max in *. cbv zeta.
  destruct (Z.ltb_spec (now + Z.min 4294967295 (interval + 30) * 1000000000) due); lia.
Qed.

(** Polling is prompt and bounded: an application is due within its
    interval plus thirty seconds or within half an hour, never in the past; a
    pending webhook without backoff is due within five seconds and its sequence
    is captured; and a failed check is retried after its backoff step, at most
    1800 seconds, give or take thirty. *)
Theorem poll_timing_bounded integrity_key now app interval generation current :
  (1 <= interval <= u32_max)%Z ->
  let entry := plan_due integrity_key now app interval generation current in
  (unix_timestamp now <= de_due_unix entry
   <= unix_timestamp (now + seconds (Z.max 1800 (saturating_add u32_max interval 30))))%Z
  /\ (forall value, pending_webhook generation current = Some value ->
        webhook_must_respect_backoff value now = false ->
        (de_due_unix entry <= unix_timestamp (now + seconds 5))%Z
        /\ de_webhook_sequence entry = pl_webhook_sequence value)
  /\ forall metadata outcome class error_code failures checked, (1 <= failures <= 5)%Z ->
       exists next, po_next_check_not_before
           (error_observation metadata generation outcome class error_code failures checked) = Some next
         /\ (checked + seconds (backoff_seconds failures - 30) <= next
             <= checked + seconds (backoff_seconds failures + 30))%Z
         /\ (60 <= backoff_seconds failures <= 1800)%Z.
Proof.
  intros Hi. cbv zeta. split; [|split].
  - pose proof (clamp_bounds (raw_due integrity_key now app interval generation current) now interval ltac:(lia)).
    cbn. unfold unix_timestamp. split; apply Z.div_le_mono; lia.
  - intros value Hp Hb. cbn. rewrite Hp. split; [|done].
    unfold raw_due. rewrite Hp, Hb. unfold unix_timestamp. apply Z.div_le_mono; [lia|].
    pose proof (webhook_jitter_bounds app (pl_webhook_sequence value)).
    unfold clamp_persisted_due, seconds, saturating_add, u32_max in *. cbv zeta.
    destruct (Z.ltb_spec (now + Z.min 4294967295 (interval + 30) * 1000000000)
      (now + webhook_jitter app (pl_webhook_sequence value) * 1000000000)); lia.
  - intros metadata outcome class error_code failures checked Hf.
    assert (Hback : (60 <= backoff_seconds failures <= 1800)%Z).
    { assert (failures = 1 \/ failures = 2 \/ failures = 3 \/ failures = 4 \/ failures = 5)%Z
        as [->|[->|[->|[->| ->]]]] by lia; by vm_compute. }
    eexists. split; [done|]. split; [|done]. unfold error_seconds.
    destruct (Z.ltb_spec 0 failures); [|lia].
    pose proof (interval_with_jitter_bounds generation (am_id metadata) generation (backoff_seconds failures)
      (Z.to_N failures) ltac:(unfold u32_max; lia)) as [_ Hj]. cbv zeta in Hj.
    unfold seconds. lia.
Qed.

End timing.

(** ** One poll *)

(** What is observed of an application at one point of the poll. *)
Record PollFacts := MkPollFacts {
  pf_metadata : result StoreError AppMetadata;
  pf_generation : AppMetadata -> result StoreError string;
  pf_active : result StoreError (option Uuid);
  pf_pending : result StoreError (option Uuid);
  pf_catalog : option AppCatalogEntry;
  pf_containers : result DockerErrorKind (list ContainerRecord);
  pf_release : Uuid -> result StoreError ReleaseV2;
}.

(** [None] as a registry answer is a shutdown while waiting for it. *)
Record PollView := MkPollView {
  pv_metadata : result StoreError AppMetadata;
  pv_generation : AppMetadata -> result StoreError string;
  pv_latest : result LedgerError (option DeploymentRecord);
  pv_credential : Uuid -> result StoreError LoadedCredential;
  pv_probe : result DockerErrorKind ProbeSnapshot;
  pv_previous : result PollStateError (option PollState);
  pv_resolve_poll : ImageReference -> Platform -> option LoadedCredential -> option string ->
                    option (result RegistryError PollResolve);
  pv_unmodified : PollFacts;
  pv_resolve : ImageReference -> Platform -> option LoadedCredential -> option (result RegistryError ResolvedImage);
  pv_facts : PollFacts;
  pv_state : result PollStateError (option PollState);
  pv_checked : Time;
  pv_rechecked : Time;
  pv_request_id : Uuid;
  pv_publish : PollObservation -> bool;
  pv_schedule : ScheduleCommand -> result ScheduleError ScheduleResult;
}.

Inductive PollAction :=
| PaPublish (app_id : Uuid) (observation : PollObservation)
| PaClearSuppression (app_id : Uuid) (target_key : string)
| PaSchedule (command : ScheduleCommand).

Abbreviation Polled := (list PollAction * result unit unit)%type (only parsing).

(** [.map_err(|_| ())?] before anything was written. *)
Notation "'given' x := r 'in' k" := (match r with Ok x => k | Err _ => ([], Err tt) end)
  (at level 10, x name, r at level 100, k at level 200) : solodock_scope.

Section poll.
Context {CR : Crypto} {UT : UuidText}.
(** The idempotency service's key. *)
Variable key_material : string.

(** The generation: everything a poll's decision depends on, authenticated.
    [print] is the canonical JSON of the listed facts. *)
Definition poll_generation
    (print : Uuid -> option Uuid -> option string -> string -> option (Uuid * Uuid * Uuid) -> bool -> Z -> string)
    (integrity_key : result StoreError string) (load : Uuid -> result StoreError LoadedCredential)
    (metadata : AppMetadata) : result StoreError string :=
  discovery_image_ref ← ok_or (am_discovery_image_ref metadata) SeContentInvalid;
  credential ← match am_credential_ref metadata with
               | Some id => loaded ← load id; Ok (Some loaded)
               | None => Ok None
               end;
  image ← map_err (fun _ => SeContentInvalid) (parse discovery_image_ref);
  let canonical :=
    print (am_id metadata) (am_draft_revision metadata) (am_draft_config_sha256 metadata)
      (canonical_tagged_ref image)
      ((fun value => (crd_id (lc_metadata value), crd_revision (lc_metadata value),
                      crd_secret_revision (lc_metadata value))) <$> credential)
      (am_auto_deploy_enabled metadata) (am_poll_interval_seconds metadata) in
  key ← integrity_key;
  Ok (hex (hmac_sha256 key canonical)).

Definition poll_actual_fact (facts : PollFacts) (active : option Uuid) : result unit (option (Uuid * string)) :=
  app ← ok_or (pf_catalog facts) tt;
  let app := app <| ce_active_release_id := active |> in
  candidates ← map_err (fun _ => tt) (pf_containers facts);
  _ ← refuse_if (1 <? length candidates) tt;
  match candidates with
  | [] => Ok None
  | container :: _ =>
      identity ← ok_or (validate_syntactic_identity (cr_labels container) app) tt;
      Ok (Some (oi_release_id identity, cr_id container))
  end.

Definition target_key (metadata : AppMetadata) (resolved : ResolvedImage) : string :=
  hex (sha256
    (uuid_to_string (am_id metadata) +:+ ":" +:+ default "unconfigured" (am_draft_config_sha256 metadata)
     +:+ ":" +:+ ri_manifest_digest resolved +:+ ":" +:+ os (ri_platform resolved) +:+ "/"
     +:+ architecture (ri_platform resolved) +:+ "/" +:+ default "" (variant (ri_platform resolved)))).

Definition record (view : PollView) (app_id : Uuid) (observation : PollObservation) : Polled :=
  ([PaPublish app_id observation], if pv_publish view observation then Ok tt else Err tt).

Definition record_success (view : PollView) (metadata : AppMetadata) (generation : string)
    (resolved : ResolvedImage) (etag : option string) (outcome : PollOutcome) (checked : Time) : Polled :=
  record view (am_id metadata) (success_observation metadata generation resolved etag outcome checked).

Definition record_not_modified (view : PollView) (metadata : AppMetadata) (generation : string)
    (outcome : PollOutcome) : Polled :=
  record view (am_id metadata) (not_modified_observation metadata generation outcome (pv_checked view)).

Definition record_error (view : PollView) (metadata : AppMetadata) (generation : string)
    (outcome : PollOutcome) (class error_code : string) (failures : Z) : Polled :=
  record view (am_id metadata)
    (error_observation metadata generation outcome class error_code failures (pv_checked view)).

(** The release runs the current draft. *)
Definition draft_outcome (release : ReleaseV2) (fresh : AppMetadata) : PollOutcome :=
  if (Some (rl_config_revision release) =? am_draft_revision fresh)
     && (Some (rl_config_sha256 release) =? am_draft_config_sha256 fresh)
  then PoUnchanged else PoConfigPendingManual.

Definition idempotency_text (prefix : string) (app_id : Uuid) (generation target suffix : string) : string :=
  prefix +:+ uuid_to_string app_id +:+ ":" +:+ generation +:+ ":" +:+ target +:+ suffix.

(** The latest deployment, when it is a poll of this generation and target. *)
Definition convergence_attempt (generation target : string) (latest : option DeploymentRecord)
    : option DeploymentRecord :=
  deployment ← latest;
  if (dp_trigger deployment =? Poll) && (dp_poll_generation deployment =? Some generation)
     && (dp_scheduled_target_key deployment =? Some target)
  then Some deployment else None.

Definition convergence_suffix (attempt : option DeploymentRecord) : string :=
  match attempt with
  | Some deployment =>
      if dp_status deployment =? StInterrupted then ":converge:" +:+ uuid_to_string (dp_id deployment) else ""
  | None => ""
  end.

Definition poll_command (view : PollView) (app_id draft_revision : Uuid) (generation target suffix : string)
    (resolved : ResolvedImage) (active pending : option Uuid) (actual : option (Uuid * string)) : ScheduleCommand :=
  MkScheduleCommand ("/internal/poll/" +:+ uuid_to_string app_id)
    (hex (hmac_sha256 key_material (idempotency_text "" app_id generation target suffix)))
    (hmac_sha256 key_material (idempotency_text "poll:" app_id generation target suffix))
    (pv_request_id view) app_id Poll
    (MkScheduleFacts draft_revision active pending (fst <$> actual) (snd <$> actual) true)
    None None (Some (MkScheduledResolvedTarget resolved generation target)).

(** Publish the target, then schedule it. *)
Definition poll_schedule (view : PollView) (fresh : AppMetadata) (generation : string)
    (resolved : ResolvedImage) (etag : option string) (command : ScheduleCommand) : Polled :=
  let '(published, res) := record_success view fresh generation resolved etag PoScheduled (pv_checked view) in
  match res with
  | Err _ => (published, Err tt)
  | Ok _ =>
      let actions := published ++ [PaSchedule command] in
      let finally outcome :=
        let '(last, res) := record_success view fresh generation resolved etag outcome (pv_rechecked view) in
        (actions ++ last, res) in
      match pv_schedule view command with
      | Ok (Scheduled _) => (actions, Ok tt)
      | Ok (ScheduleReplay _ _) => finally PoBusySkipped
      | Err ShBusy | Err ShFactsChanged => finally PoBusySkipped
      | Err ShContainerInvalid => finally PoBlockedDrift
      | Err _ => (actions, Err tt)
      end
  end.

(** The facts a conditional answer or a resolved image is judged on. *)
Definition fresh_metadata (facts : PollFacts) (generation : string) : result unit (option AppMetadata) :=
  fresh ← map_err (fun _ => tt) (pf_metadata facts);
  current ← map_err (fun _ => tt) (pf_generation facts fresh);
  Ok (if (current ≠? generation) || negb (am_auto_deploy_enabled fresh) then None else Some fresh).

(** The pending release is not the one to wait for. *)
Definition pending_blocks (release : ReleaseV2) (resolved : ResolvedImage) (pending_id : Uuid)
    (active : option Uuid) (actual : option (Uuid * string)) : bool :=
  (rl_manifest_digest release ≠? ri_manifest_digest resolved)
  || ((fst <$> actual ≠? Some pending_id) && (fst <$> actual ≠? active)).

(** The last part of [poll_one]: nothing active matches the resolved image. *)
Definition poll_target (view : PollView) (metadata fresh : AppMetadata) (generation : string)
    (latest : option DeploymentRecord) (resolved : ResolvedImage) (etag : option string)
    (active pending : option Uuid) (actual : option (Uuid * string)) : Polled :=
  let skip outcome := record_success view fresh generation resolved etag outcome (pv_checked view) in
  let target := target_key fresh resolved in
  given state := pv_state view in
  if (state ≫= pl_suppressed_target_key) =? Some target then skip PoSuppressedFailedTarget else
  given blocked := match pending with
             | Some pending_id =>
                 release ← map_err (fun _ => tt) (pf_release (pv_facts view) pending_id);
                 Ok (if pending_blocks release resolved pending_id active actual
                     then Some PoBlockedAttention else None)
             | None =>
                 Ok (if is_some_and actual (fun value => Some (fst value) ≠? active)
                     then Some PoBlockedDrift else None)
             end in
  match blocked with
  | Some outcome => skip outcome
  | None =>
      let attempt := convergence_attempt generation target latest in
      if is_some_and attempt (fun d => negb (is_terminal (dp_status d))) then skip PoBusySkipped else
      match am_draft_revision fresh with
      | None => ([], Err tt)
      | Some draft_revision =>
          poll_schedule view fresh generation resolved etag
            (poll_command view (am_id metadata) draft_revision generation target
               (convergence_suffix attempt) resolved active pending actual)
      end
  end.

(** From the resolved image on. *)
Definition poll_resolved (view : PollView) (metadata : AppMetadata) (generation : string)
    (latest : option DeploymentRecord) (resolved : ResolvedImage) (etag : option string) : Polled :=
  given current := fresh_metadata (pv_facts view) generation in
  match current with
  | None => ([], Ok tt)
  | Some fresh =>
      given active := pf_active (pv_facts view) in
      given pending := pf_pending (pv_facts view) in
      let skip outcome := record_success view fresh generation resolved etag outcome (pv_checked view) in
      match poll_actual_fact (pv_facts view) active with
      | Err _ => skip PoBlockedDrift
      | Ok actual =>
          match active with
          | Some active_id =>
              given release := pf_release (pv_facts view) active_id in
              if rl_manifest_digest release =? ri_manifest_digest resolved then
                if is_some pending || (fst <$> actual ≠? Some active_id) then skip PoBlockedDrift
                else let '(actions, res) := skip (draft_outcome release fresh) in
                     (PaClearSuppression (am_id metadata) (target_key fresh resolved) :: actions, res)
              else poll_target view metadata fresh generation latest resolved etag active pending actual
          | None => poll_target view metadata fresh generation latest resolved etag active pending actual
          end
      end
  end.

(** The registry says nothing changed: the recorded manifest may still not be
    the one that runs, and then it is resolved in full. *)
Definition poll_not_modified (view : PollView) (metadata : AppMetadata) (generation : string)
    (latest : option DeploymentRecord) (previous : option PollState) (image : ImageReference)
    (platform : Platform) (credential : option LoadedCredential) : Polled :=
  let facts := pv_unmodified view in
  given current := fresh_metadata facts generation in
  match current with
  | None => ([], Ok tt)
  | Some fresh =>
      given active := pf_active facts in
      given pending := pf_pending facts in
      let actual := match poll_actual_fact facts active with Ok value => value | Err _ => None end in
      given converged := match active, previous with
                   | Some active_id, Some previous =>
                       release ← map_err (fun _ => tt) (pf_release facts active_id);
                       Ok (if is_none pending && (fst <$> actual =? Some active_id)
                              && (pl_last_manifest_digest previous =? Some (rl_manifest_digest release))
                           then Some (draft_outcome release fresh) else None)
                   | _, _ => Ok None
                   end in
      match converged with
      | Some outcome => record_not_modified view fresh generation outcome
      | None =>
          match pv_resolve view image platform credential with
          | None => ([], Ok tt)
          | Some resolved =>
              given resolved := resolved in
              poll_resolved view metadata generation latest resolved None
          end
      end
  end.

Definition is_transient (error : RegistryError) : bool :=
  match error with RegTimeout | RegUnavailable | RateLimited => true | _ => false end.

Definition registry_outcome (error : RegistryError) : PollOutcome :=
  match error with
  | CredentialRequired | CredentialInvalid | Forbidden => PoCredentialError
  | _ => PoRegistryError
  end.

(** A failed resolution is recorded with its backoff. *)
Definition poll_failed (view : PollView) (metadata : AppMetadata) (generation : string)
    (previous : option PollState) (error : RegistryError) : Polled :=
  let transient := is_transient error in
  let failures :=
    if transient then
      Z.min (saturating_add u8_max
        match previous with Some p => pl_consecutive_transient_failures p | None => 0 end 1) 5
    else 0%Z in
  record_error view metadata generation (registry_outcome error)
    (if transient then "transient" else "deterministic") (registry_public_code error) failures.

Definition poll_one (view : PollView) (due : DueEntry) : Polled :=
  given metadata := pv_metadata view in
  given generation := pv_generation view metadata in
  if negb (am_auto_deploy_enabled metadata) || (generation ≠? de_generation due) then ([], Ok tt) else
  given latest := pv_latest view in
  if is_some_and latest (fun deployment => dp_status deployment =? StNeedsAttention)
  then record_error view metadata generation PoBlockedAttention "attention" "DEPLOYMENT_NEEDS_ATTENTION" 0 else
  match am_discovery_image_ref metadata with
  | None => ([], Ok tt)
  | Some discovery_image_ref =>
  match parse discovery_image_ref with
  | Err error =>
      record_error view metadata generation PoInvalidSource "deterministic" (registry_public_code error) 0
  | Ok image =>
  given credential := match am_credential_ref metadata with
                | Some id => loaded ← pv_credential view id; Ok (Some loaded)
                | None => Ok None
                end in
  if is_some_and credential (fun value => crd_registry (lc_metadata value) ≠? logical_registry image)
  then record_error view metadata generation PoCredentialError "credential" "REGISTRY_CREDENTIAL_MISMATCH" 0 else
  given probe := pv_probe view in
  given probed_os := ok_or (ps_os probe) tt in
  given probed_architecture := ok_or (ps_architecture probe) tt in
  given platform := canonical probed_os probed_architecture None in
  given previous := pv_previous view in
  let conditional_etag :=
    value ← previous; if pl_generation value =? generation then pl_last_etag value else None in
  match pv_resolve_poll view image platform credential conditional_etag with
  | None => ([], Ok tt)
  | Some (Ok (Modified resolved etag)) => poll_resolved view metadata generation latest resolved etag
  | Some (Ok NotModified) =>
      poll_not_modified view metadata generation latest previous image platform credential
  | Some (Err error) => poll_failed view metadata generation previous error
  end end end.


(** ** When a poll schedules *)

Lemma record_no_schedule view app obs c : PaSchedule c ∉ (record view app obs).1.
Proof. cbn. by intros [=]%list_elem_of_singleton. Qed.

(** The writes of a scheduling poll, in order: the target is published before
    the deployment is requested. *)
Definition scheduling_writes (view : PollView) (fresh : AppMetadata) (generation : string)
    (resolved : ResolvedImage) (etag : option string) (command : ScheduleCommand)
    (actions : list PollAction) : Prop :=
  exists rest, actions
    = PaPublish (am_id fresh) (success_observation fresh generation resolved etag PoScheduled (pv_checked view))
      :: PaSchedule command :: rest
    /\ forall c, PaSchedule c ∉ rest.

Lemma poll_schedule_writes view fresh generation resolved etag command c :
  PaSchedule c ∈ (poll_schedule view fresh generation resolved etag command).1 ->
  c = command
  /\ scheduling_writes view fresh generation resolved etag command
       (poll_schedule view fresh generation resolved etag command).1.
Proof.
  unfold poll_schedule, record_success, record.
  destruct (pv_publish view _); [|cbn; by intros [=]%list_elem_of_singleton].
  assert (Hrest : forall (rest : list PollAction), (forall c, PaSchedule c ∉ rest) ->
    forall p, PaSchedule c ∈ PaPublish (am_id fresh) p :: PaSchedule command :: rest -> c = command).
  { intros rest Hr p. rewrite !elem_of_cons. intros [[=]|[[= ->]|Hin]]; [done|]. by apply Hr in Hin. }
  intros Hin. cbn in *.
  destruct (pv_schedule view command) as [[]|[]]; cbn in *;
    (split; [by eapply Hrest, Hin; intros c' Hc'; try (apply list_elem_of_singleton in Hc'); set_solver|
             eexists; split; [done|]; intros c' Hc'; set_solver]).
Qed.

(** What holds when a poll requests a deployment. *)
Record poll_evidence (view : PollView) (generation : string) (metadata fresh : AppMetadata)
    (latest : option DeploymentRecord) (resolved : ResolvedImage) (command : ScheduleCommand) : Prop := {
  pe_fresh : pf_metadata (pv_facts view) = Ok fresh /\ pf_generation (pv_facts view) fresh = Ok generation
    /\ am_auto_deploy_enabled fresh = true;
  (** the target is not suppressed *)
  pe_state : exists state, pv_state view = Ok state
    /\ (state ≫= pl_suppressed_target_key) <> Some (target_key fresh resolved);
  (** no poll of this target is in flight *)
  pe_idle : forall attempt, convergence_attempt generation (target_key fresh resolved) latest = Some attempt ->
    is_terminal (dp_status attempt) = true;
  (** the active release is of another image, and what runs is accounted for *)
  pe_drift : exists active pending actual draft_revision,
    pf_active (pv_facts view) = Ok active /\ pf_pending (pv_facts view) = Ok pending
    /\ poll_actual_fact (pv_facts view) active = Ok actual
    /\ (forall active_id release, active = Some active_id -> pf_release (pv_facts view) active_id = Ok release ->
          rl_manifest_digest release <> ri_manifest_digest resolved)
    /\ match pending with
       | Some pending_id => exists release, pf_release (pv_facts view) pending_id = Ok release
           /\ rl_manifest_digest release = ri_manifest_digest resolved
           /\ ((fst <$> actual) = Some pending_id \/ (fst <$> actual) = active)
       | None => actual = None \/ (fst <$> actual) = active
       end
    /\ am_draft_revision fresh = Some draft_revision
    /\ command = poll_command view (am_id metadata) draft_revision generation (target_key fresh resolved)
                   (convergence_suffix (convergence_attempt generation (target_key fresh resolved) latest))
                   resolved active pending actual;
}.

Lemma poll_target_schedules view metadata fresh generation latest resolved etag active pending actual c :
  pf_metadata (pv_facts view) = Ok fresh -> pf_generation (pv_facts view) fresh = Ok generation ->
  am_auto_deploy_enabled fresh = true ->
  pf_active (pv_facts view) = Ok active -> pf_pending (pv_facts view) = Ok pending ->
  poll_actual_fact (pv_facts view) active = Ok actual ->
  (forall active_id release, active = Some active_id -> pf_release (pv_facts view) active_id = Ok release ->
     rl_manifest_digest release <> ri_manifest_digest resolved) ->
  let actions := (poll_target view metadata fresh generation latest resolved etag active pending actual).1 in
  PaSchedule c ∈ actions ->
  poll_evidence view generation metadata fresh latest resolved c
  /\ scheduling_writes view fresh generation resolved etag c actions.
Proof.
  intros Hm Hg Ha Hact Hpend Hactual Hrel. cbv zeta. unfold poll_target.
  destruct (pv_state view) as [state|] eqn:Hstate; [|by intros Hf%not_elem_of_nil].
  case_bool_decide as Hsup; [by intros Hf%record_no_schedule|].
  match goal with |- context [match ?m with Ok _ => _ | Err _ => _ end] =>
    destruct m as [blocked|] eqn:Hblocked; [|by intros Hf%not_elem_of_nil] end.
  destruct blocked as [o|]; [by intros Hf%record_no_schedule|]. cbv zeta.
  destruct (is_some_and (convergence_attempt _ _ _) _) eqn:Hidle; [by intros Hf%record_no_schedule|].
  destruct (am_draft_revision fresh) as [draft|] eqn:Hdraft; [|by intros Hf%not_elem_of_nil].
  intros Hin. apply poll_schedule_writes in Hin as [-> Hw]. split; [|done]. split.
  - done.
  - by exists state.
  - intros attempt Heq. rewrite Heq in Hidle. cbn in Hidle. by apply negb_false_iff.
  - exists active, pending, actual, draft. repeat split; try done.
    destruct pending as [pending_id|].
    + ok_inv. destruct (pending_blocks _ _ _ _ _) eqn:Hb; [done|]. exists a. split; [done|].
      unfold pending_blocks in Hb. apply orb_false_iff in Hb as [Hman Hact']. bools. split; [done|].
      apply andb_false_iff in Hact' as [?|?]; bools; auto.
    + ok_inv. destruct actual as [[release id]|]; [|by left]. right. cbn in *.
      case_bool_decide; [done|]. done.
Qed.

Lemma fresh_metadata_some facts generation fresh :
  fresh_metadata facts generation = Ok (Some fresh) ->
  pf_metadata facts = Ok fresh /\ pf_generation facts fresh = Ok generation
  /\ am_auto_deploy_enabled fresh = true.
Proof.
  unfold fresh_metadata. intros H. ok_inv.
  destruct (_ || _) eqn:Hc; [done|]. ok_inv. bools. by subst.
Qed.

(** The decision to schedule, with the writes it makes. *)
Definition poll_decision (view : PollView) (metadata : AppMetadata) (generation : string)
    (latest : option DeploymentRecord) (c : ScheduleCommand) (actions : list PollAction) : Prop :=
  exists fresh resolved etag, poll_evidence view generation metadata fresh latest resolved c
    /\ scheduling_writes view fresh generation resolved etag c actions.

Lemma poll_resolved_schedules view metadata generation latest resolved etag c :
  let actions := (poll_resolved view metadata generation latest resolved etag).1 in
  PaSchedule c ∈ actions -> poll_decision view metadata generation latest c actions.
Proof.
  cbv zeta. unfold poll_resolved.
  destruct (fresh_metadata _ _) as [[fresh|]|] eqn:Hfresh; [|by intros Hf%not_elem_of_nil..].
  apply fresh_metadata_some in Hfresh as (Hm & Hg & Ha).
  destruct (pf_active _) as [active|] eqn:Hactive; [|by intros Hf%not_elem_of_nil].
  destruct (pf_pending _) as [pending|] eqn:Hpending; [|by intros Hf%not_elem_of_nil]. cbv zeta.
  destruct (poll_actual_fact _ _) as [actual|] eqn:Hactual; [|by intros Hf%record_no_schedule].
  destruct active as [active_id|].
  - destruct (pf_release _ active_id) as [release|] eqn:Hrelease; [|by intros Hf%not_elem_of_nil].
    case_bool_decide as Hman.
    + destruct (_ || _); [by intros Hf%record_no_schedule|].
      unfold record_success, record. intros Hin. exfalso. set_solver.
    + intros Hin. exists fresh, resolved, etag. apply poll_target_schedules; try done.
      intros a r [= <-] Hr. congruence.
  - intros Hin. exists fresh, resolved, etag. by apply poll_target_schedules.
Qed.

Lemma poll_not_modified_schedules view metadata generation latest previous image platform credential c :
  let actions := (poll_not_modified view metadata generation latest previous image platform credential).1 in
  PaSchedule c ∈ actions -> poll_decision view metadata generation latest c actions.
Proof.
  cbv zeta. unfold poll_not_modified.
  destruct (fresh_metadata _ _) as [[fresh|]|]; [|by intros Hf%not_elem_of_nil..].
  destruct (pf_active _) as [active|]; [|by intros Hf%not_elem_of_nil].
  destruct (pf_pending _) as [pending|]; [|by intros Hf%not_elem_of_nil]. cbv zeta.
  match goal with |- context [match ?m with Ok _ => _ | Err _ => _ end] =>
    lazymatch type of m with result unit (option PollOutcome) =>
      destruct m as [[o|]|]; [by intros Hf%record_no_schedule| |by intros Hf%not_elem_of_nil] end end.
  destruct (pv_resolve _ _ _ _) as [[resolved|]|]; [|by intros Hf%not_elem_of_nil..].
  apply poll_resolved_schedules.
Qed.

Lemma poll_one_decides view due c :
  PaSchedule c ∈ (poll_one view due).1 ->
  exists metadata latest,
    (pv_metadata view = Ok metadata /\ pv_generation view metadata = Ok (de_generation due)
     /\ am_auto_deploy_enabled metadata = true)
    /\ (pv_latest view = Ok latest /\ forall d, latest = Some d -> dp_status d <> StNeedsAttention)
    /\ poll_decision view metadata (de_generation due) latest c (poll_one view due).1.
Proof.
  unfold poll_one.
  destruct (pv_metadata view) as [metadata|]; [|by intros Hf%not_elem_of_nil].
  destruct (pv_generation view metadata) as [generation|] eqn:Hgen; [|by intros Hf%not_elem_of_nil].
  destruct (_ || _) eqn:Hauto; [by intros Hf%not_elem_of_nil|]. bools. subst generation.
  destruct (pv_latest view) as [latest|]; [|by intros Hf%not_elem_of_nil].
  destruct (is_some_and latest _) eqn:Hatt; [by intros Hf%record_no_schedule|].
  destruct (am_discovery_image_ref metadata) as [discovery|]; [|by intros Hf%not_elem_of_nil].
  destruct (parse discovery) as [image|]; [|by intros Hf%record_no_schedule].
  match goal with |- context [match ?m with Ok _ => _ | Err _ => _ end] =>
    destruct m as [credential|]; [|by intros Hf%not_elem_of_nil] end.
  destruct (is_some_and credential _); [by intros Hf%record_no_schedule|].
  destruct (pv_probe view) as [probe|]; [|by intros Hf%not_elem_of_nil].
  destruct (ok_or (ps_os probe) tt) as [o|]; [|by intros Hf%not_elem_of_nil].
  destruct (ok_or (ps_architecture probe) tt) as [ar|]; [|by intros Hf%not_elem_of_nil].
  destruct (canonical o ar None) as [platform|]; [|by intros Hf%not_elem_of_nil].
  destruct (pv_previous view) as [previous|]; [|by intros Hf%not_elem_of_nil]. cbv zeta.
  intros Hin. exists metadata, latest. split; [done|]. split.
  { split; [done|]. intros d ->. cbn in Hatt. by bools. }
  revert Hin. destruct (pv_resolve_poll _ _ _ _ _) as [[[|resolved etag]|error]|].
  - apply poll_not_modified_schedules.
  - apply poll_resolved_schedules.
  - by intros Hf%record_no_schedule.
  - by intros Hf%not_elem_of_nil.
Qed.



(** ** One deployment per target *)

(** The identity under which a poll requests a deployment depends only on the
    application, the generation, the target and an interrupted attempt at it. *)
Lemma poll_command_identity view1 view2 app draft1 draft2 generation target suffix r1 r2 a1 a2 p1 p2 x1 x2 :
  let c1 := poll_command view1 app draft1 generation target suffix r1 a1 p1 x1 in
  let c2 := poll_command view2 app draft2 generation target suffix r2 a2 p2 x2 in
  sc_route c1 = sc_route c2 /\ sc_idempotency_key c1 = sc_idempotency_key c2
  /\ sc_fingerprint c1 = sc_fingerprint c2 /\ sc_trigger c1 = sc_trigger c2.
Proof. done. Qed.

Lemma poll_key_valid text : validate_key (hex (hmac_sha256 key_material text)) = Ok tt.
Proof.
  unfold validate_key. apply refuse_if_false. apply orb_false_iff. split.
  - by rewrite hex_length, hmac_length.
  - apply negb_false_iff. eapply str_all_impl; [|apply hex_lower]. by_bytes.
Qed.

(** No deployment was interrupted as far as the poll saw. *)
Definition uninterrupted (view : PollView) : Prop :=
  forall d, pv_latest view = Ok (Some d) -> dp_status d <> StInterrupted.

Lemma poll_decision_command view metadata generation latest c actions :
  uninterrupted view -> pv_latest view = Ok latest ->
  poll_decision view metadata generation latest c actions ->
  exists resolved draft active pending actual target,
    c = poll_command view (am_id metadata) draft generation target "" resolved active pending actual.
Proof.
  intros Hu Hl (fresh & resolved & etag & [_ _ _ Hd] & _).
  destruct Hd as (active & pending & actual & draft & _ & _ & _ & _ & _ & _ & ->).
  replace (convergence_suffix _) with "".
  { by exists resolved, draft, active, pending, actual, (target_key fresh resolved). }
  unfold convergence_attempt, convergence_suffix. destruct latest as [d|]; [|done]. cbn.
  destruct (_ && _); [|done]. rewrite bool_decide_eq_false_2; [done|]. by apply Hu.
Qed.

End poll.

Section once.
Context {CR : Crypto} {UT : UuidText} {ST : SqlTime}.
Variable key_material : string.
Variable render : Uuid -> string.

(** What a poll asks to be deployed. *)
Definition poll_goal (c : ScheduleCommand) : Uuid * option (string * string) :=
  (sc_app_id c, (fun t => (st_generation t, st_target_key t)) <$> sc_scheduled c).

Lemma scheduled_record view command seen g s g' s' id :
  idem_wf s -> schedule key_material render view command seen g s = Ok (g', s', Scheduled id) ->
  exists row, idem_wf s'
    /\ is_records s' !! (claim_actor (sc_trigger command), sc_route command,
                         hmac_of key_material (sc_idempotency_key command)) = Some row
    /\ ir_request_hmac row = sc_fingerprint command /\ ir_updated_at row = sv_now view
    /\ terminal_record row = true /\ replay_of row = Ok (Replay id 202 (render id)).
Proof.
  intros Hwf [(? & ? & ? & _)|(Heq & _ & _ & _ & (Hnone & row & Hs' & Hid & Hreq & Hup & Hterm & Hrep) & _)]%schedule_ok;
    [done|]. injection Heq as ->. exists row. split_and!; try done.
  - apply (claimed_fresh_wf s); [|done]. right. eexists _, row. split_and!; try done.
    intros _. unfold replay_of in Hrep. by destruct (ir_response_status row), (ir_response_body row).
  - rewrite Hs'. apply lookup_insert_eq.
Qed.

(** A poll requests a deployment only for a target that needs it: automatic
    deployment on and the generation current at the start and again after the
    registry answered, the latest deployment not needing attention, the target
    neither suppressed nor already being deployed, the active release of
    another image and the running container accounted for; and it has
    published that target before. *)
Theorem poll_schedules_needed_target view due c :
  PaSchedule c ∈ (poll_one key_material view due).1 ->
  exists metadata latest,
    (pv_metadata view = Ok metadata /\ pv_generation view metadata = Ok (de_generation due)
     /\ am_auto_deploy_enabled metadata = true)
    /\ (pv_latest view = Ok latest /\ forall d, latest = Some d -> dp_status d <> StNeedsAttention)
    /\ poll_decision key_material view metadata (de_generation due) latest c (poll_one key_material view due).1.
Proof. exact (poll_one_decides key_material view due c). Qed.

(** C32: poller, scheduler and idempotency store together: of two polls of the
    same application, generation and target, neither of which finds the latest
    deployment interrupted, the first of which was scheduled, the second is
    answered within a day with the deployment of the first, without touching
    guards or ledger, whatever other requests, restarts and collections come
    between. (After an interruption the key of a poll names the interrupted
    deployment, and the target is tried again.) *)
Theorem poll_target_deployed_once view1 view2 due1 due2 c1 c2 sview1 sview2 seen g s g' s' id ops g2 :
  idem_wf s -> uninterrupted view1 -> uninterrupted view2 ->
  PaSchedule c1 ∈ (poll_one key_material view1 due1).1 ->
  PaSchedule c2 ∈ (poll_one key_material view2 due2).1 ->
  poll_goal c1 = poll_goal c2 ->
  schedule key_material render sview1 c1 seen g s = Ok (g', s', Scheduled id) ->
  Forall (within_day (sv_now sview1)) ops -> sv_shutdown sview2 = false ->
  let s2 := foldl (exec_idem key_material) s' ops in
  schedule key_material render sview2 c2 s2 g2 s2 = Ok (g2, s2, ScheduleReplay 202 (render id)).
Proof.
  intros Hwf Hu1 Hu2 H1 H2 Hgoal Hsched Hday Hup s2.
  apply poll_one_decides in H1 as (m1 & l1 & _ & [Hl1 _] & Hd1).
  apply poll_one_decides in H2 as (m2 & l2 & _ & [Hl2 _] & Hd2).
  apply poll_decision_command in Hd1 as (r1 & dr1 & a1 & p1 & x1 & t1 & ->); [|done..].
  apply poll_decision_command in Hd2 as (r2 & dr2 & a2 & p2 & x2 & t2 & ->); [|done..].
  injection Hgoal as Happ Hgen Htarget.
  apply scheduled_record in Hsched as (row & Hwf' & Hrow & Hreq & Hupd & Hterm & Hrep); [|done].
  destruct (history_keeps key_material s' ops _ row (sv_now sview1) Hwf' Hrow) as (row2 & Hrow2 & _ & _ & _ & Hsame);
    [by rewrite Hupd|done|].
  assert (Hfin : Forall (fun op => finishes key_material ("system", sc_route (poll_command key_material view1 (am_id m1) dr1
    (de_generation due1) t1 "" r1 a1 p1 x1), hmac_of key_material (sc_idempotency_key (poll_command key_material view1
    (am_id m1) dr1 (de_generation due1) t1 "" r1 a1 p1 x1))) op = false) ops).
  { apply Forall_forall. intros op _. by destruct op; cbn; rewrite ?bool_decide_eq_false_2. }
  rewrite (Hsame Hterm Hfin) in Hrow2.
  destruct (poll_command_identity key_material view2 view1 (am_id m1) dr2 dr1 (de_generation due1) t1 ""
    r2 r1 a2 a1 p2 p1 x2 x1) as (Er & Ek & Ef & _).
  rewrite <- Happ, <- Hgen, <- Htarget.
  eapply schedule_replays; [done|apply poll_key_valid|rewrite Er, Ek; exact Hrow2|by rewrite Ef|done|done].
Qed.
End once.

(** ** A concrete poll *)

Definition demo_polled_app : AppMetadata :=
  MkAppMetadata 3 7%N "app" "App" 2 (Some "docker.io/library/nginx:1.27") None (Some 2%N) (Some "cfg") DesiredRunning
    true 300 41%N 0 0.

Definition demo_resolved : ResolvedImage :=
  MkResolvedImage "docker.io/library/nginx:1.27" "docker.io" "library/nginx" "1.27" "sha256:d" None "sha256:m"
    "docker.io/library/nginx@sha256:m" (MkPlatform "linux" "amd64" None) "sha256:i".

Definition demo_facts : PollFacts :=
  MkPollFacts (Ok demo_polled_app) (fun _ => Ok "g1") (Ok None) (Ok None) (Some demo_catalog_entry) (Ok [])
    (fun _ => Err (SeIo OtherIo)).

Definition demo_probe : ProbeSnapshot :=
  MkProbeSnapshot PrReady None None None (Some "linux") (Some "x86_64") 0 None.

Definition demo_poll (now : Time) : PollView :=
  MkPollView (Ok demo_polled_app) (fun _ => Ok "g1") (Ok None) (fun _ => Err (SeIo OtherIo)) (Ok demo_probe) (Ok None)
    (fun _ _ _ _ => Some (Ok (Modified demo_resolved None))) demo_facts (fun _ _ _ => None) demo_facts (Ok None)
    now now 77%N (fun _ => true) (fun _ => Ok (Scheduled 20%N)).

Definition demo_due : DueEntry := MkDueEntry 0 7%N "g1" 0.

Definition demo_polled (now : Time) : list PollAction :=
  (poll_one (CR := demo_crypto) (UT := binary_uuid_text) "k" (demo_poll now) demo_due).1.

Definition demo_poll_command (now : Time) : ScheduleCommand :=
  match demo_polled now with [_; PaSchedule c] => c | _ => demo_command end.

Lemma demo_polled_schedules now : PaSchedule (demo_poll_command now) ∈ demo_polled now.
Proof.
  assert (H : demo_polled now = [hd (PaSchedule demo_command) (demo_polled now); PaSchedule (demo_poll_command now)])
    by reflexivity.
  rewrite H. right. by left.
Qed.

Lemma poll_schedules_needed_target_witness :
  exists metadata latest,
    (pv_metadata (demo_poll 0) = Ok metadata /\ pv_generation (demo_poll 0) metadata = Ok (de_generation demo_due)
     /\ am_auto_deploy_enabled metadata = true)
    /\ (pv_latest (demo_poll 0) = Ok latest /\ forall d, latest = Some d -> dp_status d <> StNeedsAttention)
    /\ poll_decision (CR := demo_crypto) (UT := binary_uuid_text) "k" (demo_poll 0) metadata "g1" latest
         (demo_poll_command 0) (demo_polled 0).
Proof.
  apply (poll_schedules_needed_target (CR := demo_crypto) (UT := binary_uuid_text) "k" (demo_poll 0) demo_due).
  apply demo_polled_schedules.
Defined.

Definition demo_poll_schedule_view (now : Time) : ScheduleView :=
  MkScheduleView false (Ok tt) (Ok demo_polled_app) (Ok None) (Ok None) (Some demo_catalog_entry) (Ok [])
    (fun _ => Ok "g1") true (fun _ => Ok demo_draft) now 20%N.

Definition demo_poll_scheduled : Guards * IdemStore :=
  match schedule (CR := demo_crypto) (UT := binary_uuid_text) "k" (fun _ => "queued") (demo_poll_schedule_view 5)
          (demo_poll_command 0) empty_idem free_guards empty_idem with
  | Ok (g, s, _) => (g, s)
  | Err _ => (free_guards, empty_idem)
  end.

Lemma demo_poll_schedule_ok :
  schedule (CR := demo_crypto) (UT := binary_uuid_text) "k" (fun _ => "queued") (demo_poll_schedule_view 5)
    (demo_poll_command 0) empty_idem free_guards empty_idem
  = Ok (demo_poll_scheduled.1, demo_poll_scheduled.2, Scheduled 20%N).
Proof. vm_compute. reflexivity. Qed.

Lemma poll_target_deployed_once_witness :
  schedule (CR := demo_crypto) (UT := binary_uuid_text) "k" (fun _ => "queued") (demo_poll_schedule_view (seconds 400))
    (demo_poll_command (seconds 300)) demo_poll_scheduled.2 free_guards demo_poll_scheduled.2
  = Ok (free_guards, demo_poll_scheduled.2, ScheduleReplay 202 "queued").
Proof.
  apply (poll_target_deployed_once (CR := demo_crypto) (UT := binary_uuid_text) (ST := clock_sql_time) "k"
    (fun _ => "queued") (demo_poll 0) (demo_poll (seconds 300)) demo_due demo_due (demo_poll_command 0)
    (demo_poll_command (seconds 300)) (demo_poll_schedule_view 5) (demo_poll_schedule_view (seconds 400))
    empty_idem free_guards empty_idem demo_poll_scheduled.1 demo_poll_scheduled.2 20%N [] free_guards).
  - apply empty_idem_wf.
  - by intros d.
  - by intros d.
  - apply demo_polled_schedules.
  - apply demo_polled_schedules.
  - vm_compute. reflexivity.
  - apply demo_poll_schedule_ok.
  - constructor.
  - reflexivity.
Defined.

Lemma poll_timing_bounded_witness :
  (unix_timestamp 0 <= de_due_unix (plan_due (CR := demo_crypto) (Some "key") 0 7%N 300 "g1" None))%Z.
Proof.
  apply (poll_timing_bounded (CR := demo_crypto) (Some "key") 0 7%N 300 "g1" None).
  unfold u32_max. lia.
Defined.
