(* ===== verification/Names.v ===== *)
(** * Names: the checks of names and stored documents

    The part of [src/domain/validation.rs] that both the configuration of an
    application and its stored documents go through: image references pinned by
    digest, slugs, and the consistency of [app.toml] ([src/app_store/mod.rs]). *)

From S2P Require Import Prelude Text Reference Models.
From Stdlib Require Import Ascii.

(** [compose::CURRENT_COMPOSE_SCHEMA_VERSION] *)
Definition CURRENT_COMPOSE_SCHEMA_VERSION : Z := 5.

Fixpoint split_once_str (p s : string) : option (string * string) :=
  match strip_prefix p s with
  | Some rest => Some (EmptyString, rest)
  | None =>
      match s with
      | EmptyString => None
      | String c s' => '(before, after) ← split_once_str p s'; Some (String c before, after)
      end
  end.

Definition valid_repository_component (value : string) : bool :=
  negb (str_is_empty value)
  && str_all (fun b => is_ascii_lowercase b || is_ascii_digit b || char_eqb b "."%char || char_eqb b "_"%char
                       || char_eqb b "-"%char) value
  && is_some_and (first_byte value) is_ascii_alphanumeric
  && is_some_and (last_byte value) is_ascii_alphanumeric.

Definition valid_registry (value : string) : bool :=
  let '(host, port) := match rsplit_once ":" value with
                       | Some (host, port) => (host, Some port) | None => (value, None) end in
  negb (str_is_empty host)
  && str_all (fun b => is_ascii_lowercase b || is_ascii_digit b || char_eqb b "."%char || char_eqb b "-"%char) host
  && is_none_or port (fun port => negb (str_is_empty port) && str_all is_ascii_digit port).

Definition valid_repository (value : string) : bool :=
  if str_is_empty value || str_any is_ascii_uppercase value then false
  else match split "/" value with
       | first :: parts =>
           if str_is_empty first then false
           else
             let first_is_registry :=
               contains_char "." first || contains_char ":" first || (first =? "localhost") in
             if first_is_registry && negb (valid_registry first) then false
             else
               let repository_parts := if first_is_registry then parts else first :: parts in
               negb (is_nil repository_parts) && forallb valid_repository_component repository_parts
       | [] => false
       end.

Definition runnable_forbidden : list ascii :=
  ["$"; "{"; "}"; "`"; "\"; ascii_of_nat 34; "'"]%char.

Definition validate_runnable_image (value : string) : bool :=
  if (320 <? String.length value)%nat || contains_any runnable_forbidden value then false
  else match split_once_str "@sha256:" value with
       | None => false
       | Some (repository, digest) =>
           negb (contains_char "@" repository) && valid_repository repository
           && (String.length digest =? 64)%nat && str_all is_lower_hex digest
       end.

Definition validate_slug_for_resource_schema (value : string) (version : Z) : bool :=
  match (if version =? RESOURCE_NAME_SCHEMA_LEGACY then Some 12
         else if version =? RESOURCE_NAME_SCHEMA_CURRENT then Some 20 else None) with
  | None => false
  | Some max =>
      negb (str_is_empty value) && (String.length value <=? max)%nat
      && str_all (fun b => is_ascii_lowercase b || is_ascii_digit b || char_eqb b "-"%char) value
      && is_some_and (first_byte value) is_ascii_alphanumeric
      && is_some_and (last_byte value) is_ascii_alphanumeric
  end.

Definition valid_metadata_identity_versions (metadata_version naming_version : Z) : bool :=
  ((metadata_version =? 2%Z) && (naming_version =? RESOURCE_NAME_SCHEMA_LEGACY))
  || ((metadata_version =? APP_METADATA_SCHEMA_VERSION)
      && ((naming_version =? RESOURCE_NAME_SCHEMA_LEGACY) || (naming_version =? RESOURCE_NAME_SCHEMA_CURRENT))).

(** The consistency [read_metadata] requires of a parsed document. *)
Definition metadata_valid (metadata : AppMetadata) : bool :=
  valid_metadata_identity_versions (am_schema_version metadata) (am_resource_name_schema_version metadata)
  && validate_slug_for_resource_schema (am_slug metadata) (am_resource_name_schema_version metadata)
  && Bool.eqb (is_some (am_draft_revision metadata)) (is_some (am_draft_config_sha256 metadata))
  && negb (is_none (am_draft_revision metadata)
           && (is_some (am_discovery_image_ref metadata) || is_some (am_credential_ref metadata)
               || (am_desired_state metadata ≠? Stopped) || am_auto_deploy_enabled metadata)).
