(* ===== verification/Drafts.v ===== *)
(** * Drafts: validation and normalisation of an application's configuration

    [src/domain/validation.rs], [src/domain/networks.rs] and the inputs of
    [src/domain/{application,environment,files,mounts}.rs]: a request's draft
    and the stored secrets are turned into a [NormalizedDraft] with its
    metadata and hash, or into one issue with its path, code and message.

    Strings are UTF-8 bytes. Sets the source fills while it loops are [gset]s,
    [BTreeMap]s are [gmap]s, [sort_by] is a stable insertion sort. The host's
    answers about bind sources are a parameter ([BindHost]); JSON printing of
    the canonical form is a parameter ([canonical_json]). *)

From stdpp Require Import sets gmap.
From S2P Require Import Prelude Text Reference Models Codec Names.
From Stdlib Require Import Ascii.

(** ** Errors *)

Inductive DomainError :=
| ConfigInvalid | ConfigQuotaExceeded | EnvDuplicate | SecretOperationRequired | FileTargetConflict
| BindDisabled | BindOutsideAllowedRoot | BindSymlink | BindChanged | BindSourceAncestorConflict
| BindRwAckRequired | PortConflict | FeatureNotAvailable | DomainInternal.

(** [DraftValidationError] with its one [ValidationIssue]. *)
Record DraftValidationError := At {
  dv_error : DomainError; dv_path : string; dv_code : string; dv_message : string }.

Abbreviation checked A := (result DraftValidationError A).

Definition digits (n : nat) : string := pretty (N.of_nat n).
Definition show_Z (z : Z) : string := pretty z.

(** A [Result<(), DomainError>] that only ever fails with [ConfigInvalid]. *)
Definition valid (b : bool) : result DomainError unit := refuse_if (negb b) ConfigInvalid.

(** ** Sorting and paths *)

Section sort.
Context {A : Type} (le : A -> A -> bool).
Fixpoint insert_by (x : A) (l : list A) : list A :=
  match l with
  | [] => [x]
  | y :: l' => if le x y then x :: l else y :: insert_by x l'
  end.
(** [Vec::sort_by]: stable. *)
Fixpoint sort_by (l : list A) : list A :=
  match l with [] => [] | x :: l' => insert_by x (sort_by l') end.
End sort.

(** Byte order of strings. *)
Definition text_leb (a b : string) : bool := negb (text_ltb b a).

(** [std::path::Component]s of a UNIX path: empty parts and inner [.] parts
    vanish. *)
Inductive Component := RootDir | CurDir | ParentDir | Normal (name : string).

#[export] Instance Component_eq_dec : EqDecision Component.
Proof. solve_decision. Defined.

Definition component_of (part : string) : Component := if part =? ".." then ParentDir else Normal part.

Definition is_absolute (path : string) : bool := starts_with "/" path.

Definition components (path : string) : list Component :=
  let parts := filter (fun part => part <> EmptyString) (split "/" path) in
  (if is_absolute path then [RootDir]
   else match parts with part :: _ => if part =? "." then [CurDir] else [] | [] => [] end)
  ++ map component_of (filter (fun part => part <> ".") parts).

Definition path_eqb (a b : string) : bool := components a =? components b.
Definition path_starts_with (a b : string) : bool := bool_decide (components b `prefix_of` components a).

(** ** Text *)

(** [char::is_control] somewhere in UTF-8 text: C0, DEL and C1. *)
Definition c1_second (b : ascii) : bool := (128 <=? code b)%N && (code b <=? 159)%N.
Fixpoint has_control (s : string) : bool :=
  match s with
  | EmptyString => false
  | String c s' =>
      is_ascii_control c
      || ((code c =? 194)%N && is_some_and (first_byte s') c1_second)
      || has_control s'
  end.

(** Number of characters: bytes that do not continue a sequence. *)
Fixpoint char_count (s : string) : nat :=
  match s with
  | EmptyString => 0
  | String c s' => (if (128 <=? code c)%N && (code c <=? 191)%N then 0 else 1) + char_count s'
  end.

Definition bytes (l : list nat) : string := foldr (fun n s => String (ascii_of_nat n) s) EmptyString l.

(** The encodings of [White_Space]. *)
Definition white_space : list string :=
  map bytes ([[9]; [10]; [11]; [12]; [13]; [32]; [194; 133]; [194; 160]; [225; 154; 128]]
             ++ map (fun n => [226; 128; n]) (seq 128 11)
             ++ [[226; 128; 168]; [226; 128; 169]; [226; 128; 175]; [226; 129; 159]; [227; 128; 128]]).

Definition ends_with (p s : string) : bool :=
  (String.length p <=? String.length s)%nat && (str_drop (String.length s - String.length p) s =? p).

(** [str::trim]: strip while an end is white space; every step shortens. *)
Fixpoint trim_start_fuel (fuel : nat) (s : string) : string :=
  match fuel, list_find (fun w => starts_with w s = true) white_space with
  | S fuel', Some (_, w) => trim_start_fuel fuel' (str_drop (String.length w) s)
  | _, _ => s
  end.
Fixpoint trim_end_fuel (fuel : nat) (s : string) : string :=
  match fuel, list_find (fun w => ends_with w s = true) white_space with
  | S fuel', Some (_, w) => trim_end_fuel fuel' (str_take (String.length s - String.length w) s)
  | _, _ => s
  end.
Definition trim (s : string) : string :=
  let s := trim_start_fuel (String.length s) s in trim_end_fuel (String.length s) s.

Definition validate_text (value : string) : bool := negb (has_control value).

Definition validate_display_name (value : string) : bool :=
  validate_text value && (trim value =? value) && (1 <=? char_count value)%nat && (char_count value <=? 80)%nat.

Definition validate_discovery_image (value : string) : bool := is_ok (parse value).

Definition validate_env_key (value : string) : bool :=
  negb (str_is_empty value) && (String.length value <=? 128)%nat
  && is_some_and (first_byte value) (fun b => is_ascii_alphabetic b || char_eqb b "_"%char)
  && str_all (fun b => is_ascii_alphanumeric b || char_eqb b "_"%char) value.

Definition newline : ascii := ascii_of_nat 10.
Definition carriage_return : ascii := ascii_of_nat 13.
Definition nul : ascii := ascii_of_nat 0.

Definition validate_env_value (value : string) : bool :=
  negb (contains_any [newline; carriage_return] value).

Definition logical_name_byte (b : ascii) : bool :=
  is_ascii_lowercase b || is_ascii_digit b || char_eqb b "."%char || char_eqb b "_"%char || char_eqb b "-"%char.

Definition validate_logical_name (value : string) : bool :=
  negb (str_is_empty value) && (String.length value <=? 64)%nat
  && negb ((value =? ".") || (value =? "..")) && str_all logical_name_byte value.

Definition BLOCKED : list string :=
  ["/proc"; "/sys"; "/dev"; "/run/docker.sock"; "/var/run/docker.sock"; "/run"; "/var/run"].

Definition has_dot_component (path : string) : bool :=
  existsb (fun c => match c with ParentDir | CurDir => true | _ => false end) (components path).

Definition validate_container_target (value : string) : bool :=
  validate_text value
  && (String.length value <=? 4096)%nat && is_absolute value && (value ≠? "/")
  && negb (contains_str "//" value) && negb (has_dot_component value)
  && negb (existsb (fun blocked => path_eqb value blocked || path_starts_with value blocked) BLOCKED).

Definition docker_name_byte (b : ascii) : bool :=
  is_ascii_alphanumeric b || char_eqb b "."%char || char_eqb b "_"%char || char_eqb b "-"%char.

Definition validate_docker_name (value : string) : bool :=
  validate_text value && negb (str_is_empty value) && (String.length value <=? 128)%nat
  && str_all docker_name_byte value.

Definition validate_content (value : string) : bool := negb (contains_char nul value).

(** ** Inputs *)

Inductive SecretOperation := OpKeep | OpReplace (value : string) | OpDelete.

Record SecretEnvInput := MkSecretEnvInput { se_key : string; se_operation : SecretOperation }.

Record EnvironmentInput := MkEnvironmentInput {
  ei_order : option (list string); ei_public : list PublicEnvInput; ei_secrets : list SecretEnvInput }.

Inductive ManagedFileContent := PublicContent (content : string) | SecretContent (operation : SecretOperation).

Record ManagedFileInput := MkManagedFileInput {
  fi_logical_name : string; fi_target_path : string; fi_sensitive : bool; fi_readonly : bool;
  fi_content : ManagedFileContent }.

Record DraftInput := MkDraftInput {
  di_security_profile : option string;
  di_display_name : string;
  di_discovery_image_ref : string;
  di_credential_ref : option Uuid;
  di_auto_deploy_enabled : bool;
  di_auto_deploy_acknowledged : bool;
  di_poll_interval_seconds : Z;
  di_stop_grace_period_seconds : Z;
  di_environment : EnvironmentInput;
  di_files : list ManagedFileInput;
  di_ports : list PortInput;
  di_volumes : list VolumeInput;
  di_binds : list BindMountInput;
  di_owned_default_network : bool;
  di_service_discovery_enabled : bool;
  di_networks : list NetworkInput;
  di_health : HealthPolicy;
}.

Record ExistingSecrets := MkExistingSecrets {
  es_environment : gmap string string;
  es_files : gmap string string;
  es_file_metadata : gmap string ManagedFileMetadata;
}.

Record NormalizedDraft := MkNormalizedDraft {
  nd_security_profile : option string;
  nd_display_name : string;
  nd_discovery_image_ref : string;
  nd_credential_ref : option Uuid;
  nd_auto_deploy_enabled : bool;
  nd_auto_deploy_acknowledged : bool;
  nd_poll_interval_seconds : Z;
  nd_stop_grace_period_seconds : Z;
  nd_public_environment : list PublicEnvInput;
  nd_secret_environment : gmap string string;
  nd_files : list ManagedFileMetadata;
  nd_public_files : gmap string string;
  nd_secret_files : gmap string string;
  nd_ports : list PortInput;
  nd_volumes : list VolumeInput;
  nd_binds : list BindMountInput;
  nd_owned_default_network : bool;
  nd_service_discovery_enabled : bool;
  nd_networks : list NetworkInput;
  nd_health : HealthPolicy;
  nd_metadata : ConfigMetadata;
}.

(** ** Environment *)

Definition MAX_ENV_ENTRIES : nat := 256.
Definition MAX_ENV_VALUE_BYTES : Z := 16 * 1024.
Definition MAX_ENV_TOTAL_BYTES : Z := 256 * 1024.

Definition len (s : string) : Z := Z.of_nat (String.length s).

Definition index_path (list_name : string) (index : nat) (field : string) : string :=
  list_name +:+ "[" +:+ digits index +:+ "]" +:+ field.

(** A value of the request: no control characters, no newline, bounded. *)
Definition check_env_value (value path : string) : checked unit :=
  map_err (fun e => At e path "INVALID_ENV_VALUE" "Must not contain control characters or newlines")
    (valid (validate_text value && validate_env_value value)) ;;
  refuse_if (MAX_ENV_VALUE_BYTES <? len value)%Z
    (At ConfigQuotaExceeded path "CONFIG_QUOTA_EXCEEDED"
      ("Must not exceed " +:+ show_Z MAX_ENV_VALUE_BYTES +:+ " bytes")).

Definition check_env_key (key path : string) : checked unit :=
  map_err (fun e => At e path "INVALID_ENV_KEY" "Must be a valid environment variable name")
    (valid (validate_env_key key)).

Fixpoint public_entries (index : nat) (entries : list PublicEnvInput) (public_keys : gset string) (total : Z)
    : checked (gset string * Z) :=
  match entries with
  | [] => Ok (public_keys, total)
  | entry :: rest =>
      check_env_key (pe_key entry) (index_path "environment.public" index ".key") ;;
      check_env_value (pe_value entry) (index_path "environment.public" index ".value") ;;
      refuse_if (bool_decide (pe_key entry ∈ public_keys))
        (At EnvDuplicate (index_path "environment.public" index ".key") "ENV_DUPLICATE"
          "Environment variable names must be unique") ;;
      public_entries (S index) rest ({[pe_key entry]} ∪ public_keys)
        (saturating_add u64_max total (len (pe_value entry)))
  end.

Definition is_delete (operation : SecretOperation) : bool :=
  match operation with OpDelete => true | _ => false end.

Record secret_state := MkSecretState {
  ss_secret : gmap string string; ss_operations : gset string; ss_total : Z }.

(** The effect of one secret operation. *)
Definition apply_secret (existing : gmap string string) (key base : string) (operation : SecretOperation)
    (secret : gmap string string) (total : Z) : checked (gmap string string * Z) :=
  match operation with
  | OpKeep =>
      value ← ok_or (existing !! key)
        (At SecretOperationRequired (base +:+ ".operation") "SECRET_OPERATION_REQUIRED"
          "The stored Secret no longer exists; provide a replacement");
      Ok (<[key := value]> secret, saturating_add u64_max total (len value))
  | OpReplace value =>
      check_env_value value (base +:+ ".value") ;;
      Ok (<[key := value]> secret, saturating_add u64_max total (len value))
  | OpDelete =>
      refuse_if (is_none (existing !! key))
        (At SecretOperationRequired (base +:+ ".operation") "SECRET_OPERATION_REQUIRED"
          "The stored Secret no longer exists") ;;
      Ok (secret, total)
  end.

Fixpoint secret_entries (existing : gmap string string) (public_keys : gset string) (index : nat)
    (entries : list SecretEnvInput) (st : secret_state) : checked secret_state :=
  match entries with
  | [] => Ok st
  | entry :: rest =>
      let base := index_path "environment.secrets" index "" in
      check_env_key (se_key entry) (base +:+ ".key") ;;
      refuse_if (bool_decide (se_key entry ∈ ss_operations st))
        (At EnvDuplicate (base +:+ ".key") "ENV_DUPLICATE" "Secret operations must be unique by key") ;;
      refuse_if (bool_decide (se_key entry ∈ public_keys) && negb (is_delete (se_operation entry)))
        (At EnvDuplicate (base +:+ ".key") "ENV_DUPLICATE"
          "A key cannot be public and secret at the same time") ;;
      '(secret, total) ←
        apply_secret existing (se_key entry) base (se_operation entry) (ss_secret st) (ss_total st);
      secret_entries existing public_keys (S index) rest
        (MkSecretState secret ({[se_key entry]} ∪ ss_operations st) total)
  end.

Definition normalize_environment (input : EnvironmentInput) (existing : ExistingSecrets)
    : checked (list PublicEnvInput * gmap string string) :=
  refuse_if (MAX_ENV_ENTRIES <? length (ei_public input) + length (ei_secrets input))%nat
    (At ConfigQuotaExceeded "environment" "CONFIG_QUOTA_EXCEEDED"
      ("At most " +:+ digits MAX_ENV_ENTRIES +:+ " environment entries are allowed")) ;;
  '(public_keys, total) ← public_entries 0 (ei_public input) ∅ 0;
  st ← secret_entries (es_environment existing) public_keys 0 (ei_secrets input) (MkSecretState ∅ ∅ total);
  refuse_if (negb (bool_decide (dom (es_environment existing) ⊆ ss_operations st)))
    (At SecretOperationRequired "environment.secrets" "SECRET_OPERATION_REQUIRED"
      "Every stored Secret requires an explicit keep, replace, or delete operation") ;;
  refuse_if (MAX_ENV_TOTAL_BYTES <? ss_total st)%Z
    (At ConfigQuotaExceeded "environment" "CONFIG_QUOTA_EXCEEDED"
      ("Environment values must not exceed " +:+ show_Z MAX_ENV_TOTAL_BYTES +:+ " bytes in total")) ;;
  Ok (sort_by (fun a b => text_leb (pe_key a) (pe_key b)) (ei_public input), ss_secret st).

(** ** Managed files *)

Definition MAX_FILES : nat := 32.
Definition MAX_FILE_BYTES : Z := 256 * 1024.
Definition MAX_FILE_TOTAL_BYTES : Z := 2 * 1024 * 1024.

Record file_state := MkFileState {
  fs_final_names : gset string;
  fs_targets : gset string;
  fs_secret_operations : gset string;
  fs_public_names : gset string;
  fs_metadata : list (ManagedFileMetadata * nat);
  fs_public : gmap string string;
  fs_secret : gmap string string;
  fs_total : Z;
}.

#[export] Instance eta_file_state : Eta file_state := fun r =>
  MkFileState (fs_final_names r) (fs_targets r) (fs_secret_operations r) (fs_public_names r)
    (fs_metadata r) (fs_public r) (fs_secret r) (fs_total r).

Definition check_file_quota (value : string) (total : Z) (path : string) : checked Z :=
  refuse_if (MAX_FILE_BYTES <? len value)%Z
    (At ConfigQuotaExceeded path "CONFIG_QUOTA_EXCEEDED"
      ("Managed files must not exceed " +:+ show_Z MAX_FILE_BYTES +:+ " bytes each")) ;;
  Ok (saturating_add u64_max total (len value)).

Definition check_file_content (value path : string) : checked unit :=
  map_err (fun e => At e path "INVALID_FILE_CONTENT" "File content must not contain NUL bytes")
    (valid (validate_content value)).

(** The name and the target of a file that is kept. *)
Definition claim_file (st : file_state) (name target base : string) (taken : bool) : checked file_state :=
  refuse_if (taken || bool_decide (name ∈ fs_final_names st))
    (At FileTargetConflict (base +:+ ".logical_name") "FILE_TARGET_CONFLICT"
      "Managed-file names must be unique") ;;
  refuse_if (bool_decide (target ∈ fs_targets st))
    (At FileTargetConflict (base +:+ ".target_path") "FILE_TARGET_CONFLICT"
      "Managed-file targets must be unique") ;;
  Ok (st <| fs_final_names := {[name]} ∪ fs_final_names st |> <| fs_targets := {[target]} ∪ fs_targets st |>).

Definition public_file (st : file_state) (descriptor : ManagedFileMetadata) (index : nat) (base content : string)
    : checked file_state :=
  let name := mf_logical_name descriptor in
  st1 ← claim_file st name (mf_target_path descriptor) base (bool_decide (name ∈ fs_public_names st));
  check_file_content content (base +:+ ".content") ;;
  total ← check_file_quota content (fs_total st1) (base +:+ ".content");
  Ok (st1 <| fs_public_names := {[name]} ∪ fs_public_names st1 |>
          <| fs_public := <[name := content]> (fs_public st1) |>
          <| fs_metadata := fs_metadata st1 ++ [(descriptor, index)] |> <| fs_total := total |>).

Definition secret_file (existing : gmap string string) (st : file_state) (descriptor : ManagedFileMetadata)
    (index : nat) (base : string) (operation : SecretOperation) : checked file_state :=
  let name := mf_logical_name descriptor in
  let keep_value (st : file_state) (value : string) :=
    total ← check_file_quota value (fs_total st) (base +:+ ".content");
    Ok (st <| fs_secret := <[name := value]> (fs_secret st) |>
           <| fs_metadata := fs_metadata st ++ [(descriptor, index)] |> <| fs_total := total |>) in
  refuse_if (bool_decide (name ∈ fs_secret_operations st))
    (At FileTargetConflict (base +:+ ".logical_name") "FILE_TARGET_CONFLICT"
      "Secret operations must be unique by file name") ;;
  let st := st <| fs_secret_operations := {[name]} ∪ fs_secret_operations st |> in
  match operation with
  | OpKeep =>
      value ← ok_or (existing !! name)
        (At SecretOperationRequired (base +:+ ".content") "SECRET_OPERATION_REQUIRED"
          "The stored Secret file no longer exists; provide a replacement");
      st1 ← claim_file st name (mf_target_path descriptor) base (bool_decide (name ∈ fs_public_names st));
      keep_value st1 value
  | OpReplace value =>
      st1 ← claim_file st name (mf_target_path descriptor) base (bool_decide (name ∈ fs_public_names st));
      check_file_content value (base +:+ ".content") ;;
      keep_value st1 value
  | OpDelete =>
      refuse_if (is_none (existing !! name))
        (At SecretOperationRequired (base +:+ ".content") "SECRET_OPERATION_REQUIRED"
          "The stored Secret file no longer exists") ;;
      Ok st
  end.

Definition file_entry (existing : gmap string string) (index : nat) (item : ManagedFileInput) (st : file_state)
    : checked file_state :=
  let base := index_path "files" index "" in
  map_err (fun e => At e (base +:+ ".logical_name") "INVALID_FILE_NAME" "Must be a valid managed-file name")
    (valid (validate_logical_name (fi_logical_name item))) ;;
  map_err (fun e => At e (base +:+ ".target_path") "INVALID_MOUNT_TARGET" "Must be a safe absolute container path")
    (valid (validate_container_target (fi_target_path item))) ;;
  refuse_if (negb (fi_readonly item))
    (At ConfigInvalid (base +:+ ".readonly") "READONLY_REQUIRED" "Managed files must be read-only") ;;
  let descriptor := MkManagedFileMetadata (fi_logical_name item) (fi_target_path item) (fi_sensitive item) true in
  match fi_sensitive item, fi_content item with
  | false, PublicContent content => public_file st descriptor index base content
  | true, SecretContent operation => secret_file existing st descriptor index base operation
  | _, _ =>
      Err (At ConfigInvalid (base +:+ ".sensitive") "FILE_SENSITIVITY_MISMATCH"
        "File content must match its sensitivity classification")
  end.

Fixpoint file_entries (existing : gmap string string) (index : nat) (items : list ManagedFileInput)
    (st : file_state) : checked file_state :=
  match items with
  | [] => Ok st
  | item :: rest => st' ← file_entry existing index item st; file_entries existing (S index) rest st'
  end.

Definition normalize_files (input : list ManagedFileInput) (existing : ExistingSecrets)
    : checked (list ManagedFileMetadata * list nat * gmap string string * gmap string string) :=
  refuse_if (MAX_FILES <? length input)%nat
    (At ConfigQuotaExceeded "files" "CONFIG_QUOTA_EXCEEDED"
      ("At most " +:+ digits MAX_FILES +:+ " managed files are allowed")) ;;
  st ← file_entries (es_files existing) 0 input (MkFileState ∅ ∅ ∅ ∅ [] ∅ ∅ 0);
  refuse_if (negb (bool_decide (dom (es_files existing) ⊆ fs_secret_operations st)))
    (At SecretOperationRequired "files" "SECRET_OPERATION_REQUIRED"
      "Every stored Secret file requires an explicit keep, replace, or delete operation") ;;
  refuse_if (MAX_FILE_TOTAL_BYTES <? fs_total st)%Z
    (At ConfigQuotaExceeded "files" "CONFIG_QUOTA_EXCEEDED"
      ("Managed files must not exceed " +:+ show_Z MAX_FILE_TOTAL_BYTES +:+ " bytes in total")) ;;
  let metadata := sort_by (fun a b => text_leb (mf_logical_name a.1) (mf_logical_name b.1)) (fs_metadata st) in
  Ok (metadata.*1, metadata.*2, fs_public st, fs_secret st).

(** ** Ports, volumes and binds *)

#[export] Instance PortProtocol_countable : Countable PortProtocol.
Proof.
  refine (inj_countable' (fun p => match p with Tcp => true | Udp => false end)
    (fun b : bool => if b then Tcp else Udp) _). by intros [].
Defined.

Definition published_port (port : PortInput) : string * Z * PortProtocol :=
  (pi_host_ip port, pi_host_port port, pi_protocol port).

Fixpoint port_entries (index : nat) (ports : list PortInput) (published : gset (string * Z * PortProtocol))
    (normalized : gset (string * Z * Z * PortProtocol)) : checked unit :=
  match ports with
  | [] => Ok tt
  | port :: rest =>
      let base := index_path "ports" index "" in
      refuse_if (negb ((pi_host_ip port =? "127.0.0.1") || (pi_host_ip port =? "::1")))
        (At ConfigInvalid (base +:+ ".host_ip") "LOOPBACK_REQUIRED" "Host IP must be 127.0.0.1 or ::1") ;;
      refuse_if (pi_host_port port =? 0%Z)
        (At ConfigInvalid (base +:+ ".host_port") "OUT_OF_RANGE" "Host port must be between 1 and 65535") ;;
      refuse_if (pi_container_port port =? 0%Z)
        (At ConfigInvalid (base +:+ ".container_port") "OUT_OF_RANGE"
          "Container port must be between 1 and 65535") ;;
      let whole := (pi_host_ip port, pi_host_port port, pi_container_port port, pi_protocol port) in
      refuse_if (bool_decide (published_port port ∈ published) || bool_decide (whole ∈ normalized))
        (At PortConflict (base +:+ ".host_port") "PORT_CONFLICT"
          "Published host IP, port, and protocol must be unique") ;;
      port_entries (S index) rest ({[published_port port]} ∪ published) ({[whole]} ∪ normalized)
  end.

Definition validate_ports (ports : list PortInput) : checked unit :=
  refuse_if (32 <? length ports)%nat
    (At ConfigQuotaExceeded "ports" "CONFIG_QUOTA_EXCEEDED" "At most 32 published ports are allowed") ;;
  port_entries 0 ports ∅ ∅.

Definition protocol_rank (p : PortProtocol) : Z := match p with Tcp => 0 | Udp => 1 end.

(** Lexicographic order of (host_ip, host_port, protocol, container_port). *)
Definition port_leb (a b : PortInput) : bool :=
  if pi_host_ip a ≠? pi_host_ip b then text_leb (pi_host_ip a) (pi_host_ip b)
  else if pi_host_port a ≠? pi_host_port b then (pi_host_port a <=? pi_host_port b)%Z
  else if pi_protocol a ≠? pi_protocol b then (protocol_rank (pi_protocol a) <=? protocol_rank (pi_protocol b))%Z
  else (pi_container_port a <=? pi_container_port b)%Z.

Definition volume_name (v : VolumeInput) : string :=
  match v with OwnedVolume name _ | ExternalVolume name _ => name end.

Definition check_volume_name (v : VolumeInput) (base : string) : checked string :=
  match v with
  | OwnedVolume name _ =>
      map_err (fun e => At e (base +:+ ".logical_name") "INVALID_VALUE" "Must be a valid managed-volume name")
        (valid (validate_logical_name name)) ;;
      Ok "logical_name"
  | ExternalVolume name _ =>
      map_err (fun e => At e (base +:+ ".name") "INVALID_VALUE" "Must be a valid Docker volume name")
        (valid (validate_docker_name name)) ;;
      Ok "name"
  end.

Fixpoint volume_entries (index : nat) (volumes : list VolumeInput) (names : gset string) : checked unit :=
  match volumes with
  | [] => Ok tt
  | volume :: rest =>
      let base := index_path "volumes" index "" in
      map_err (fun e => At e (base +:+ ".target_path") "INVALID_MOUNT_TARGET"
                          "Must be a safe absolute container path")
        (valid (validate_container_target (volume_target_path volume))) ;;
      field ← check_volume_name volume base;
      refuse_if (bool_decide (volume_name volume ∈ names))
        (At ConfigInvalid (base +:+ "." +:+ field) "VOLUME_DUPLICATE" "Volume names must be unique") ;;
      volume_entries (S index) rest ({[volume_name volume]} ∪ names)
  end.

Definition validate_volumes (volumes : list VolumeInput) : checked unit :=
  refuse_if (16 <? length volumes)%nat
    (At ConfigQuotaExceeded "volumes" "CONFIG_QUOTA_EXCEEDED" "At most 16 volumes are allowed") ;;
  volume_entries 0 volumes ∅.

Definition volume_sort_key (v : VolumeInput) : string :=
  match v with OwnedVolume name _ => "0:" +:+ name | ExternalVolume name _ => "1:" +:+ name end.

(** What the host says about paths: whether a component is a link, where a path
    leads, and what is there (a directory?, device, inode). *)
Record BindHost := MkBindHost {
  bh_is_symlink : string -> option bool;
  bh_canonicalize : string -> option string;
  bh_metadata : string -> option (bool * Z * Z);
}.

Definition SENSITIVE : list string :=
  ["/"; "/etc"; "/proc"; "/sys"; "/dev"; "/run"; "/var/run"; "/var/lib/docker"].

(** [PathBuf::push] of a component's name. *)
Definition path_push (current : string) (c : Component) : string :=
  let name := match c with Normal name => name | ParentDir => ".." | CurDir => "." | RootDir => "/" end in
  if current =? "/" then "/" +:+ name else current +:+ "/" +:+ name.

Fixpoint no_symlinks (host : BindHost) (current : string) (rest : list Component) : result DomainError unit :=
  match rest with
  | [] => Ok tt
  | c :: rest' =>
      let current := path_push current c in
      link ← ok_or (bh_is_symlink host current) ConfigInvalid;
      refuse_if link BindSymlink ;;
      no_symlinks host current rest'
  end.

Definition validate_bind_source (host : BindHost) (source : string) (allowed_roots : list string)
    : result DomainError BindIdentity :=
  refuse_if (negb (is_absolute source) || has_dot_component source) BindOutsideAllowedRoot ;;
  refuse_if (existsb (fun sensitive => path_eqb source sensitive
                        || (negb (path_eqb sensitive "/") && path_starts_with source sensitive)) SENSITIVE)
    BindOutsideAllowedRoot ;;
  root ← ok_or (snd <$> list_find (fun root => negb (path_eqb source root) && path_starts_with source root = true)
                          allowed_roots) BindOutsideAllowedRoot;
  no_symlinks host "/" (drop 1 (components source)) ;;
  canonical ← ok_or (bh_canonicalize host source) ConfigInvalid;
  canonical_root ← ok_or (bh_canonicalize host root) ConfigInvalid;
  refuse_if (path_eqb canonical canonical_root || negb (path_starts_with canonical canonical_root))
    BindOutsideAllowedRoot ;;
  '(is_dir, device, inode) ← ok_or (bh_metadata host canonical) ConfigInvalid;
  refuse_if (negb is_dir) ConfigInvalid ;;
  Ok (MkBindIdentity canonical device inode).

Definition revalidate_bind_identity (host : BindHost) (expected : BindIdentity) (allowed_roots : list string)
    : result DomainError unit :=
  current ← validate_bind_source host (bi_path expected) allowed_roots;
  refuse_if (negb (path_eqb (bi_path current) (bi_path expected) && (bi_device current =? bi_device expected)
                   && (bi_inode current =? bi_inode expected))) BindChanged.

Record BindSafetySource := MkBindSafetySource { bs_identity : BindIdentity; bs_readonly : bool }.

Definition bind_sources_conflict (left right : BindSafetySource) : bool :=
  let l := bi_path (bs_identity left) in
  let r := bi_path (bs_identity right) in
  (negb (bs_readonly left) && negb (path_eqb l r) && path_starts_with r l)
  || (negb (bs_readonly right) && negb (path_eqb l r) && path_starts_with l r).

Fixpoint validate_bind_plan (target existing : list BindSafetySource) : result DomainError unit :=
  match target with
  | [] => Ok tt
  | source :: rest =>
      refuse_if (existsb (bind_sources_conflict source) rest || existsb (bind_sources_conflict source) existing)
        BindSourceAncestorConflict ;;
      validate_bind_plan rest existing
  end.

Definition bind_source_issue (error : DomainError) : string * string :=
  match error with
  | BindDisabled => ("BIND_DISABLED", "Bind mounts are disabled until an allowed root is configured")
  | BindOutsideAllowedRoot =>
      ("BIND_OUTSIDE_ALLOWED_ROOT", "Must be an existing directory below an allowed bind root")
  | BindSymlink => ("BIND_SYMLINK", "Bind source path components must not be symbolic links")
  | _ => ("BIND_SOURCE_INVALID", "Must be an existing accessible directory")
  end.

Fixpoint bind_entries (host : BindHost) (index : nat) (binds : list BindMountInput) (allowed_roots : list string)
    : checked (list BindIdentity) :=
  match binds with
  | [] => Ok []
  | bind :: rest =>
      let base := index_path "binds" index "" in
      map_err (fun e => At e (base +:+ ".target_path") "INVALID_MOUNT_TARGET"
                          "Must be a safe absolute container path")
        (valid (validate_container_target (bm_target_path bind))) ;;
      refuse_if (negb (bm_readonly bind) && negb (bm_acknowledge_non_rollbackable bind))
        (At BindRwAckRequired (base +:+ ".acknowledge_non_rollbackable") "BIND_RW_ACK_REQUIRED"
          "Confirm that read-write bind data is not rolled back with a release") ;;
      identity ← map_err (fun e => let '(c, m) := bind_source_issue e in At e (base +:+ ".source") c m)
        (validate_bind_source host (bm_source bind) allowed_roots);
      rest ← bind_entries host (S index) rest allowed_roots;
      Ok (identity :: rest)
  end.

Definition validate_binds_detailed_with_options (host : BindHost) (binds : list BindMountInput)
    (allowed_roots : list string) (enforce_bind_plan : bool) : checked (list BindIdentity) :=
  refuse_if (16 <? length binds)%nat
    (At ConfigQuotaExceeded "binds" "CONFIG_QUOTA_EXCEEDED" "At most 16 bind mounts are allowed") ;;
  refuse_if (negb (is_nil binds) && is_nil allowed_roots)
    (At BindDisabled "binds" "BIND_DISABLED" "Bind mounts are disabled until an allowed root is configured") ;;
  identities ← bind_entries host 0 binds allowed_roots;
  (if enforce_bind_plan
   then map_err (fun e => At e "binds" "BIND_SOURCE_ANCESTOR_CONFLICT"
                            "A read-write bind source must not be an ancestor of another bind source")
          (validate_bind_plan (zip_with (fun i b => MkBindSafetySource i (bm_readonly b)) identities binds) [])
   else Ok tt) ;;
  Ok identities.

Definition targets_overlap (left right : string) : bool :=
  path_eqb left right || path_starts_with left right || path_starts_with right left.

Fixpoint target_pairs (targets : list (string * string)) : checked unit :=
  match targets with
  | [] => Ok tt
  | (_, target) :: rest =>
      (match list_find (fun t => targets_overlap target t.2 = true) rest with
       | Some (_, (path, _)) =>
           Err (At FileTargetConflict path "FILE_TARGET_CONFLICT" "Mount targets must not overlap")
       | None => Ok tt
       end) ;;
      target_pairs rest
  end.

Definition validate_mount_target_conflicts (files : list ManagedFileMetadata) (request_indexes : list nat)
    (volumes : list VolumeInput) (binds : list BindMountInput) : checked unit :=
  target_pairs
    (zip_with (fun file index => (index_path "files" index ".target_path", mf_target_path file)) files request_indexes
     ++ imap (fun index v => (index_path "volumes" index ".target_path", volume_target_path v)) volumes
     ++ imap (fun index b => (index_path "binds" index ".target_path", bm_target_path b)) binds).

(** ** Networks ([domain/networks.rs]) *)

Definition MAX_EXTERNAL_NETWORKS : nat := 8.
Definition MAX_NETWORK_ALIASES : nat := 8.
Definition PLATFORM_NETWORK_NAME : string := "solodock-services".

Definition validate_alias (value : string) : bool :=
  negb (str_is_empty value) && (String.length value <=? 63)%nat
  && is_some_and (first_byte value) (fun b => is_ascii_lowercase b || is_ascii_digit b)
  && is_some_and (last_byte value) (fun b => is_ascii_lowercase b || is_ascii_digit b)
  && str_all (fun b => is_ascii_lowercase b || is_ascii_digit b || char_eqb b "-"%char) value.

Fixpoint alias_entries (base : string) (index : nat) (aliases : list string) (seen : gset string) : checked unit :=
  match aliases with
  | [] => Ok tt
  | alias :: rest =>
      let path := base +:+ "[" +:+ digits index +:+ "]" in
      map_err (fun e => At e path "INVALID_VALUE" "Must be a valid lowercase DNS alias")
        (valid (validate_alias alias)) ;;
      refuse_if (bool_decide (alias ∈ seen))
        (At ConfigInvalid path "NETWORK_ALIAS_DUPLICATE" "Aliases must be unique within a network") ;;
      alias_entries base (S index) rest ({[alias]} ∪ seen)
  end.

Fixpoint network_entries (reserve_platform_name : bool) (index : nat) (networks : list NetworkInput)
    (names : gset string) (owned_markers : nat) : checked nat :=
  match networks with
  | [] => Ok owned_markers
  | OwnedDefault :: rest => network_entries reserve_platform_name (S index) rest names (S owned_markers)
  | External name aliases :: rest =>
      let base := index_path "networks" index "" in
      refuse_if (reserve_platform_name && (name =? PLATFORM_NETWORK_NAME))
        (At ConfigInvalid (base +:+ ".name") "NETWORK_NAME_RESERVED"
          "The platform service-discovery network name is reserved") ;;
      map_err (fun e => At e (base +:+ ".name") "INVALID_VALUE" "Must be a valid Docker network name")
        (valid (validate_docker_name name)) ;;
      refuse_if (bool_decide (name ∈ names))
        (At ConfigInvalid (base +:+ ".name") "NETWORK_DUPLICATE" "External network names must be unique") ;;
      refuse_if (MAX_NETWORK_ALIASES <? length aliases)%nat
        (At ConfigQuotaExceeded (base +:+ ".aliases") "CONFIG_QUOTA_EXCEEDED"
          ("At most " +:+ digits MAX_NETWORK_ALIASES +:+ " aliases are allowed")) ;;
      alias_entries (base +:+ ".aliases") 0 aliases ∅ ;;
      network_entries reserve_platform_name (S index) rest ({[name]} ∪ names) owned_markers
  end.

Definition validate_network_inputs (owned_default_network service_discovery_enabled : bool)
    (networks : list NetworkInput) (reserve_platform_name : bool) : checked unit :=
  owned_markers ← network_entries reserve_platform_name 0 networks ∅ 0;
  let external_count := (length networks - owned_markers)%nat in
  refuse_if (MAX_EXTERNAL_NETWORKS <? external_count)%nat
    (At ConfigQuotaExceeded "networks" "CONFIG_QUOTA_EXCEEDED"
      ("At most " +:+ digits MAX_EXTERNAL_NETWORKS +:+ " external networks are allowed")) ;;
  refuse_if ((1 <? owned_markers)%nat || (negb owned_default_network && negb (owned_markers =? 0)%nat))
    (At ConfigInvalid "networks" "NETWORK_INVALID" "The legacy owned-network marker is inconsistent") ;;
  refuse_if (negb owned_default_network && negb service_discovery_enabled && (external_count =? 0)%nat)
    (At ConfigInvalid "networks" "NETWORK_REQUIRED" "At least one network must be enabled").

Definition network_sort_key (n : NetworkInput) : Z * string :=
  match n with OwnedDefault => (0%Z, EmptyString) | External name _ => (1%Z, name) end.

Definition network_leb (a b : NetworkInput) : bool :=
  let '(ka, na) := network_sort_key a in
  let '(kb, nb) := network_sort_key b in
  if ka ≠? kb then (ka <=? kb)%Z else text_leb na nb.

Definition sort_aliases (n : NetworkInput) : NetworkInput :=
  match n with OwnedDefault => OwnedDefault | External name aliases => External name (sort_by text_leb aliases) end.

Fixpoint external_attachments (index : nat) (networks : list NetworkInput) : list ExternalNetworkAttachment :=
  match networks with
  | [] => []
  | OwnedDefault :: rest => external_attachments (S index) rest
  | External name aliases :: rest =>
      MkExternalNetworkAttachment name aliases index :: external_attachments (S index) rest
  end.

(** [None] stands for the [unreachable!] of the source. *)
Definition network_mode (owned platform no_external : bool) : option NetworkMode :=
  match owned, platform, no_external with
  | true, false, true => Some OwnedOnly
  | true, false, false => Some OwnedAndExternal
  | false, false, false => Some ExternalOnly
  | true, true, true => Some OwnedAndPlatform
  | true, true, false => Some OwnedPlatformAndExternal
  | false, true, false => Some PlatformAndExternal
  | false, true, true => Some PlatformOnly
  | false, false, true => None
  end.

Definition build_network_plan (owned_default_network service_discovery_enabled : bool)
    (networks : list NetworkInput) : option NetworkPlan :=
  let external := sort_by (fun a b => text_leb (ea_name a) (ea_name b)) (external_attachments 0 networks) in
  mode ← network_mode owned_default_network service_discovery_enabled (is_nil external);
  Some (MkNetworkPlan owned_default_network service_discovery_enabled mode external).

(** The sorted networks and the plan. *)
Definition normalize_networks_with_issues (owned_default_network service_discovery_enabled : bool)
    (networks : list NetworkInput) : checked (list NetworkInput * option NetworkPlan) :=
  validate_network_inputs owned_default_network service_discovery_enabled networks true ;;
  let networks := sort_by network_leb (map sort_aliases networks) in
  Ok (networks, build_network_plan owned_default_network service_discovery_enabled networks).

Definition network_plan (owned_default_network service_discovery_enabled : bool) (networks : list NetworkInput)
    : checked (option NetworkPlan) :=
  validate_network_inputs owned_default_network service_discovery_enabled networks false ;;
  Ok (build_network_plan owned_default_network service_discovery_enabled networks).

(** ** Health *)

Definition range_message (min max : Z) : string := "Must be between " +:+ show_Z min +:+ " and " +:+ show_Z max.

Definition check_range (value min max : Z) (path : string) : checked unit :=
  refuse_if (negb ((min <=? value)%Z && (value <=? max)%Z)) (At ConfigInvalid path "OUT_OF_RANGE" (range_message min max)).

Definition validate_health (health : HealthPolicy) : checked unit :=
  match health with
  | Healthy None | Completed => Ok tt
  | Running stable_window_seconds => check_range stable_window_seconds 5 300 "health.stable_window_seconds"
  | Disabled acknowledge_reduced_safety =>
      refuse_if (negb acknowledge_reduced_safety)
        (At ConfigInvalid "health.acknowledge_reduced_safety" "ACK_REQUIRED"
          "Confirm reduced safety before disabling health checks")
  | Healthy (Some http) =>
      refuse_if (hh_scheme http ≠? "http")
        (At ConfigInvalid "health.http.scheme" "INVALID_VALUE" "Only http is supported") ;;
      refuse_if (negb ((hh_host http =? "127.0.0.1") || (hh_host http =? "localhost") || (hh_host http =? "::1")))
        (At ConfigInvalid "health.http.host" "INVALID_VALUE" "Only loopback health hosts are allowed") ;;
      refuse_if (hh_port http =? 0%Z)
        (At ConfigInvalid "health.http.port" "OUT_OF_RANGE" "Must be between 1 and 65535") ;;
      refuse_if (negb (starts_with "/" (hh_path http)) || has_control (hh_path http))
        (At ConfigInvalid "health.http.path" "INVALID_VALUE"
          "Must be an absolute HTTP path without control characters") ;;
      check_range (hh_interval_seconds http) 1 300 "health.http.interval_seconds" ;;
      check_range (hh_timeout_seconds http) 1 60 "health.http.timeout_seconds" ;;
      check_range (hh_retries http) 1 10 "health.http.retries" ;;
      check_range (hh_start_period_seconds http) 0 300 "health.http.start_period_seconds"
  end.

(** ** Normalisation *)

Definition security_profile_bad (profile : string) : bool :=
  str_is_empty profile || (48 <? String.length profile)%nat
  || negb (is_some_and (first_byte profile) is_ascii_lowercase)
  || negb (str_all (fun b => is_ascii_lowercase b || is_ascii_digit b || char_eqb b "-"%char) profile)
  || (profile =? "unconfined").

Definition check_security_profile (profile : option string) : checked unit :=
  refuse_if (is_some_and profile security_profile_bad)
    (At ConfigInvalid "security_profile" "INVALID_VALUE"
      ("Use a preinstalled profile name: 1 to 48 lowercase letters, digits or hyphens, "
       +:+ "starting with a letter")).

Definition check_order (order : option (list string)) (public : list PublicEnvInput) (secret : gmap string string)
    : checked unit :=
  match order with
  | None => Ok tt
  | Some order =>
      let keys : gset string := list_to_set (map pe_key public) ∪ dom secret in
      refuse_if (negb (length order =? size keys)%nat || negb (bool_decide (list_to_set order = keys)))
        (At ConfigInvalid "environment.order" "INVALID_ENV_ORDER"
          "Must list every active environment variable exactly once")
  end.

#[export] Instance ManagedFileMetadata_eq_dec : EqDecision ManagedFileMetadata.
Proof. solve_decision. Defined.
#[export] Instance ConfigMetadata_eq_dec : EqDecision ConfigMetadata.
Proof. solve_decision. Defined.

Section normalize.
Context {CR : Crypto}.
(** [serde_json::to_vec] of the canonical document. *)
Context (canonical_json : ConfigMetadata -> list PublicEnvInput -> gmap string string -> string).

Definition hmac_hex (key value : string) : string := hex (hmac_sha256 key value).

(** [canonical_non_secret]: which of the three documents is printed depends on
    the schema version inside the metadata. *)
Definition canonical_non_secret (metadata : ConfigMetadata) (public_environment : list PublicEnvInput)
    (public_files : gmap string string) : result DomainError string :=
  refuse_if ((cm_schema_version metadata <? 4)%Z
             && (is_some (cm_security_profile metadata) || is_some (cm_environment_order metadata)))
    ConfigInvalid ;;
  Ok (canonical_json metadata public_environment public_files).

Definition with_hash (m : ConfigMetadata) (sha : string) : ConfigMetadata :=
  MkConfigMetadata (cm_security_profile m) (cm_schema_version m) (cm_stop_grace_period_seconds m)
    (cm_environment_order m) (cm_public_env_keys m) (cm_secret_keys m) (cm_secret_hmacs m) (cm_files m)
    (cm_public_file_sha256s m) (cm_secret_file_hmacs m) (cm_ports m) (cm_volumes m) (cm_binds m)
    (cm_owned_default_network m) (cm_service_discovery_enabled m) (cm_networks m) (cm_health m) sha.

(** [BTreeMap::keys]: in byte order. *)
Definition sorted_keys (m : gmap string string) : list string := sort_by text_leb (map fst (map_to_list m)).

Definition normalize_draft_with_options (host : BindHost) (input : DraftInput) (existing : ExistingSecrets)
    (hmac_key : string) (allowed_bind_roots : list string) (enforce_bind_plan : bool) : checked NormalizedDraft :=
  check_security_profile (di_security_profile input) ;;
  map_err (fun e => At e "display_name" "INVALID_VALUE" "Must be 1 to 80 characters without surrounding whitespace")
    (valid (validate_display_name (di_display_name input))) ;;
  map_err (fun e => At e "discovery_image_ref" "INVALID_IMAGE_REFERENCE"
                      "Must be a valid tagged OCI image reference")
    (valid (validate_discovery_image (di_discovery_image_ref input))) ;;
  refuse_if (negb ((60 <=? di_poll_interval_seconds input)%Z && (di_poll_interval_seconds input <=? 86400)%Z))
    (At ConfigInvalid "poll_interval_seconds" "OUT_OF_RANGE" "Must be between 60 and 86400") ;;
  check_range (di_stop_grace_period_seconds input) 1 MAX_STOP_GRACE_PERIOD_SECONDS "stop_grace_period_seconds" ;;
  '(public_environment, secret_environment) ← normalize_environment (di_environment input) existing;
  check_order (ei_order (di_environment input)) public_environment secret_environment ;;
  '(files, request_indexes, public_files, secret_files) ← normalize_files (di_files input) existing;
  validate_ports (di_ports input) ;;
  let ports := sort_by port_leb (di_ports input) in
  validate_volumes (di_volumes input) ;;
  validate_binds_detailed_with_options host (di_binds input) allowed_bind_roots enforce_bind_plan ;;
  validate_mount_target_conflicts files request_indexes (di_volumes input) (di_binds input) ;;
  let volumes := sort_by (fun a b => text_leb (volume_sort_key a) (volume_sort_key b)) (di_volumes input) in
  let binds := sort_by (fun a b => text_leb (bm_target_path a) (bm_target_path b)) (di_binds input) in
  '(networks, _) ← normalize_networks_with_issues (di_owned_default_network input)
                     (di_service_discovery_enabled input) (di_networks input);
  validate_health (di_health input) ;;
  let metadata := MkConfigMetadata (di_security_profile input) 4 (di_stop_grace_period_seconds input)
    (ei_order (di_environment input)) (map pe_key public_environment) (sorted_keys secret_environment)
    (hmac_hex hmac_key <$> secret_environment) files ((fun c => hex (sha256 c)) <$> public_files)
    (hmac_hex hmac_key <$> secret_files) ports volumes binds (di_owned_default_network input)
    (di_service_discovery_enabled input) networks (di_health input) EmptyString in
  canonical ← map_err (fun e => At e "draft" "CONFIG_INVALID" "The normalized configuration cannot be serialized")
    (canonical_non_secret metadata public_environment public_files);
  let metadata := with_hash metadata (hex (sha256 canonical)) in
  Ok (MkNormalizedDraft (di_security_profile input) (trim (di_display_name input))
        (di_discovery_image_ref input) (di_credential_ref input) (di_auto_deploy_enabled input)
        (di_auto_deploy_acknowledged input) (di_poll_interval_seconds input) (di_stop_grace_period_seconds input)
        public_environment secret_environment files public_files secret_files ports volumes binds
        (di_owned_default_network input) (di_service_discovery_enabled input) networks (di_health input) metadata).

Definition normalize_draft (host : BindHost) (input : DraftInput) (existing : ExistingSecrets)
    (hmac_key : string) (allowed_bind_roots : list string) : result DomainError NormalizedDraft :=
  map_err dv_error (normalize_draft_with_options host input existing hmac_key allowed_bind_roots true).

Definition normalize_existing_draft (host : BindHost) (input : DraftInput) (existing : ExistingSecrets)
    (hmac_key : string) (allowed_bind_roots : list string) : result DomainError NormalizedDraft :=
  map_err dv_error (normalize_draft_with_options host input existing hmac_key allowed_bind_roots false).

Definition verify_config_integrity (metadata : ConfigMetadata) (public_environment : list PublicEnvInput)
    (public_files : gmap string string) (secrets : ExistingSecrets) (hmac_key : string) : result DomainError unit :=
  refuse_if ((cm_secret_hmacs metadata ≠? (hmac_hex hmac_key <$> es_environment secrets))
             || (cm_secret_file_hmacs metadata ≠? (hmac_hex hmac_key <$> es_files secrets))
             || (cm_public_file_sha256s metadata ≠? ((fun c => hex (sha256 c)) <$> public_files))) ConfigInvalid ;;
  canonical ← canonical_non_secret (with_hash metadata EmptyString) public_environment public_files;
  refuse_if (cm_config_sha256 metadata ≠? hex (sha256 canonical)) ConfigInvalid.

(** ** A stored revision ([app_store/config_revision.rs]) *)

Record LoadedRevision := MkLoadedRevision {
  lv_metadata : ConfigMetadata;
  lv_public_environment : list PublicEnvInput;
  lv_public_files : gmap string string;
  lv_secrets : ExistingSecrets;
}.

Definition revision_input (self : LoadedRevision) (display_name discovery_image_ref : string)
    (credential_ref : option Uuid) (auto_deploy_enabled : bool) (poll_interval_seconds : Z) : DraftInput :=
  let m := lv_metadata self in
  MkDraftInput (cm_security_profile m) display_name discovery_image_ref credential_ref auto_deploy_enabled false
    poll_interval_seconds (cm_stop_grace_period_seconds m)
    (MkEnvironmentInput (cm_environment_order m) (lv_public_environment self)
       (map (fun key => MkSecretEnvInput key OpKeep) (cm_secret_keys m)))
    (map (fun file => MkManagedFileInput (mf_logical_name file) (mf_target_path file) (mf_sensitive file) true
            (if mf_sensitive file then SecretContent OpKeep
             else PublicContent (default EmptyString (lv_public_files self !! mf_logical_name file))))
       (cm_files m))
    (cm_ports m) (cm_volumes m) (cm_binds m) (cm_owned_default_network m) (cm_service_discovery_enabled m)
    (cm_networks m) (cm_health m).

Definition with_metadata (d : NormalizedDraft) (m : ConfigMetadata) : NormalizedDraft :=
  MkNormalizedDraft (nd_security_profile d) (nd_display_name d) (nd_discovery_image_ref d) (nd_credential_ref d)
    (nd_auto_deploy_enabled d) (nd_auto_deploy_acknowledged d) (nd_poll_interval_seconds d)
    (nd_stop_grace_period_seconds d) (nd_public_environment d) (nd_secret_environment d) (nd_files d)
    (nd_public_files d) (nd_secret_files d) (nd_ports d) (nd_volumes d) (nd_binds d)
    (nd_owned_default_network d) (nd_service_discovery_enabled d) (nd_networks d) (nd_health d) m.

(** The signed legacy metadata with the fields later schemas added. *)
Definition upgraded (self normalized : ConfigMetadata) : ConfigMetadata :=
  MkConfigMetadata (cm_security_profile self) (cm_schema_version normalized)
    (cm_stop_grace_period_seconds normalized) (cm_environment_order self) (cm_public_env_keys self)
    (cm_secret_keys self) (cm_secret_hmacs self) (cm_files self) (cm_public_file_sha256s self)
    (cm_secret_file_hmacs self) (cm_ports self) (cm_volumes self) (cm_binds self)
    (cm_owned_default_network self) (cm_service_discovery_enabled normalized) (cm_networks self)
    (cm_health self) (cm_config_sha256 normalized).

Definition normalize_verified (host : BindHost) (self : LoadedRevision) (display_name discovery_image_ref : string)
    (credential_ref : option Uuid) (auto_deploy_enabled : bool) (poll_interval_seconds : Z) (hmac_key : string)
    (allowed_bind_roots : list string) : result DomainError NormalizedDraft :=
  normalized ← normalize_existing_draft host
    (revision_input self display_name discovery_image_ref credential_ref auto_deploy_enabled poll_interval_seconds)
    (lv_secrets self) hmac_key allowed_bind_roots;
  let version := cm_schema_version (lv_metadata self) in
  if (1 <=? version)%Z && (version <=? 3)%Z && is_none (cm_security_profile (lv_metadata self))
  then refuse_if (negb (bool_decide (upgraded (lv_metadata self) (nd_metadata normalized) = nd_metadata normalized)))
         ConfigInvalid ;;
       Ok (with_metadata normalized (lv_metadata self))
  else if (version =? 4%Z) && bool_decide (nd_metadata normalized = lv_metadata self) then Ok normalized
  else Err ConfigInvalid.
End normalize.
