(* ===== verification/DraftSpec.v ===== *)
(** * DraftSpec: what the loops of the validation accept

    One lemma per loop of [Drafts]: it succeeds exactly when its entries meet
    the conditions stated here, and its result does not depend on their order.
    The conditions are invariant under permutation, which is what makes the
    normalised configuration canonical. *)

From stdpp Require Import sets gmap sorting.
From S2P Require Import Prelude Text Reference Models Codec Names Drafts.
From Stdlib Require Import Ascii.
From stdpp Require Import list.

(** ** Byte order *)

Lemma text_ltb_cons x y a b :
  text_ltb (String x a) (String y b) = true <-> (code x < code y)%N \/ (x = y /\ text_ltb a b = true).
Proof.
  cbn [text_ltb]. rewrite orb_true_iff, andb_true_iff, N.ltb_lt, N.eqb_eq. unfold code. split.
  - intros [H|[H1 H2]]; [by left|right]. split; [|done].
    by rewrite <- (ascii_N_embedding x), <- (ascii_N_embedding y), H1.
  - intros [H|[-> H]]; [by left|by right].
Qed.

Lemma text_ltb_total a b : text_ltb a b = true \/ a = b \/ text_ltb b a = true.
Proof.
  revert b. induction a as [|x a IH]; intros [|y b]; [auto..|]. rewrite !text_ltb_cons.
  destruct (N.lt_trichotomy (code x) (code y)) as [H|[H|H]]; [auto| |auto].
  assert (x = y) as -> by (rewrite <- (ascii_N_embedding x), <- (ascii_N_embedding y); unfold code in H; by rewrite H).
  destruct (IH b) as [?|[->|?]]; auto.
Qed.

Lemma text_ltb_trans a b c : text_ltb a b = true -> text_ltb b c = true -> text_ltb a c = true.
Proof.
  revert b c. induction a as [|x a IH]; intros [|y b] [|z c]; try done. rewrite !text_ltb_cons.
  intros [H1|[-> H1]] [H2|[-> H2]]; [left; lia|by left|by left|right]. split; [done|]. by eapply IH.
Qed.

Lemma text_leb_iff a b : text_leb a b = true <-> a = b \/ text_ltb a b = true.
Proof.
  unfold text_leb. rewrite negb_true_iff. split.
  - intros H. destruct (text_ltb_total a b) as [?|[?|?]]; [auto..|congruence].
  - intros [->|H]; [apply text_ltb_irrefl|by apply text_ltb_asym].
Qed.

Lemma text_leb_total a b : text_leb a b = true \/ text_leb b a = true.
Proof. rewrite !text_leb_iff. destruct (text_ltb_total a b) as [?|[->|?]]; auto. Qed.

Lemma text_leb_trans a b c : text_leb a b = true -> text_leb b c = true -> text_leb a c = true.
Proof.
  rewrite !text_leb_iff. intros [->|H1] [->|H2]; auto. right. by eapply text_ltb_trans.
Qed.

Lemma text_leb_antisym a b : text_leb a b = true -> text_leb b a = true -> a = b.
Proof.
  rewrite !text_leb_iff. intros [->|H1] [H2|H2]; auto. apply text_ltb_asym in H1. congruence.
Qed.

(** ** Sorting *)

(** What the source's comparison functions have in common. *)
Class SortOrder {A} (le : A -> A -> bool) : Prop := {
  so_total : forall x y, le x y = true \/ le y x = true;
  so_trans : forall x y z, le x y = true -> le y z = true -> le x z = true;
}.

Section sorting.
Context {A : Type} (le : A -> A -> bool) `{!SortOrder le}.
Abbreviation R := (fun x y => le x y = true).

Lemma insert_by_perm x l : insert_by le x l ≡ₚ x :: l.
Proof.
  induction l as [|y l IH]; [done|]. simpl. destruct (le x y); [done|]. rewrite IH. apply Permutation_swap.
Qed.

Lemma sort_by_perm l : sort_by le l ≡ₚ l.
Proof. induction l as [|x l IH]; [done|]. simpl. by rewrite insert_by_perm, IH. Qed.

Lemma insert_by_sorted x l : StronglySorted R l -> StronglySorted R (insert_by le x l).
Proof.
  induction 1 as [|y l Hl IH Hy]; simpl; [by repeat constructor|]. destruct (le x y) eqn:Hxy.
  - constructor; [by constructor|]. constructor; [done|]. eapply list.Forall_impl; [exact Hy|].
    intros z Hz. by eapply so_trans.
  - constructor; [done|]. apply list.Forall_forall. intros z Hz. rewrite insert_by_perm, elem_of_cons in Hz.
    destruct Hz as [->|Hz]; [destruct (so_total x y); congruence|].
    rewrite list.Forall_forall in Hy. by apply Hy.
Qed.

Lemma sort_by_sorted l : StronglySorted R (sort_by le l).
Proof. induction l as [|x l IH]; [constructor|]. by apply insert_by_sorted. Qed.

(** Elements that the order tells apart have one sorted arrangement. *)
Lemma sort_by_unique l l' :
  (forall x y, x ∈ l -> y ∈ l -> le x y = true -> le y x = true -> x = y) -> l ≡ₚ l' -> sort_by le l = sort_by le l'.
Proof.
  intros Hanti Hp. apply (StronglySorted_unique_strong R).
  - intros x y Hx Hy. rewrite sort_by_perm in Hx, Hy. apply Hanti; [done|]. by rewrite Hp.
  - apply sort_by_sorted.
  - apply sort_by_sorted.
  - by rewrite !sort_by_perm.
Qed.

Lemma sort_by_id l : StronglySorted R l -> sort_by le l = l.
Proof.
  induction 1 as [|x l Hl IH Hx]; [done|]. simpl. rewrite IH. destruct l as [|y l]; [done|]. simpl.
  inversion Hx; subst. by rewrite H1.
Qed.

Lemma sort_by_idem l : sort_by le (sort_by le l) = sort_by le l.
Proof. apply sort_by_id, sort_by_sorted. Qed.
End sorting.

#[export] Instance text_leb_order : SortOrder text_leb.
Proof. split; [apply text_leb_total|apply text_leb_trans]. Qed.

(** Sorting by a text key. *)
#[export] Instance key_order {A} (f : A -> string) : SortOrder (fun a b => text_leb (f a) (f b)).
Proof. split; [intros; apply text_leb_total|intros x y z; apply text_leb_trans]. Qed.

Lemma NoDup_map_inj {A B} (f : A -> B) l x y : NoDup (map f l) -> x ∈ l -> y ∈ l -> f x = f y -> x = y.
Proof.
  induction l as [|z l IH]; simpl; [by intros _ ?%not_elem_of_nil|]. rewrite NoDup_cons, !elem_of_cons.
  intros [Hz Hl] [->|Hx] [->|Hy] Hf; try done; [..|by apply IH]; exfalso; apply Hz; apply list_elem_of_fmap; eauto.
Qed.

Lemma sort_by_key_unique {A} (f : A -> string) l l' :
  NoDup (map f l) -> l ≡ₚ l' -> sort_by (fun a b => text_leb (f a) (f b)) l = sort_by (fun a b => text_leb (f a) (f b)) l'.
Proof.
  intros Hn Hp. apply (sort_by_unique (fun a b => text_leb (f a) (f b))); [|done].
  intros x y Hx Hy H1 H2. eapply NoDup_map_inj; [done..|]. by apply text_leb_antisym.
Qed.

(** ** Checks that succeed *)

Lemma bind_ok_iff {E A B} (r : result E A) (f : A -> result E B) b :
  (r ≫= f) = Ok b <-> exists a, r = Ok a /\ f a = Ok b.
Proof. split; [apply bind_ok_inv|]. by intros (a & -> & H). Qed.

Lemma then_ok_iff {E B} (r : result E unit) (k : result E B) b : (r ;; k) = Ok b <-> r = Ok tt /\ k = Ok b.
Proof. rewrite bind_ok_iff. split; [by intros ([] & H)|]. intros [? ?]. by exists tt. Qed.

Lemma refuse_if_iff {E} c (e : E) : refuse_if c e = Ok tt <-> c = false.
Proof. by destruct c; split. Qed.

Lemma map_err_ok_iff {E F A} (f : E -> F) (r : result E A) a : map_err f r = Ok a <-> r = Ok a.
Proof. destruct r; simpl; split; congruence. Qed.

Lemma valid_iff b : valid b = Ok tt <-> b = true.
Proof. by destruct b; split. Qed.

Lemma ok_or_iff {E A} (o : option A) (e : E) a : ok_or o e = Ok a <-> o = Some a.
Proof. destruct o; simpl; split; congruence. Qed.

Lemma Ok_inj_iff {E A} (a b : A) : @Ok E A a = Ok b <-> a = b.
Proof. split; congruence. Qed.

Create Rewrite HintDb checks.
#[export] Hint Rewrite @then_ok_iff @refuse_if_iff @map_err_ok_iff @ok_or_iff valid_iff @Ok_inj_iff
  negb_false_iff andb_true_iff orb_false_iff bool_decide_eq_true bool_decide_eq_false Z.ltb_ge : checks.

Ltac checks := autorewrite with checks.

(** ** Totals *)

Definition sum_len (l : list string) : Z := foldr (fun s => Z.add (len s)) 0%Z l.

Lemma len_nonneg s : (0 <= len s)%Z.
Proof. unfold len. lia. Qed.

Lemma sum_len_nonneg l : (0 <= sum_len l)%Z.
Proof. induction l as [|s l IH]; simpl; [lia|]. pose proof (len_nonneg s). lia. Qed.

Lemma sum_len_perm l l' : l ≡ₚ l' -> sum_len l = sum_len l'.
Proof. induction 1; simpl; lia. Qed.

(** A saturated total exceeds a small bound exactly when the exact one does. *)
Lemma saturated_total t n m :
  (0 <= t)%Z -> (0 <= n)%Z -> (0 <= m)%Z ->
  Z.min u64_max (saturating_add u64_max t n + m) = Z.min u64_max (t + (n + m)).
Proof. unfold saturating_add. lia. Qed.

Lemma total_bounds x : (0 <= x)%Z -> (0 <= Z.min u64_max (0 + x) <= u64_max)%Z.
Proof. unfold u64_max. lia. Qed.

(** ** Keys that are inserted into a set as they are met *)

Definition fresh_for {A K} `{Countable K} (f : A -> K) (l : list A) (s : gset K) : Prop :=
  NoDup (map f l) /\ forall x, x ∈ l -> f x ∉ s.

Lemma fresh_for_nil {A K} `{Countable K} (f : A -> K) (s : gset K) : fresh_for f [] s.
Proof. split; [constructor|]. by intros x ?%not_elem_of_nil. Qed.

Lemma fresh_for_cons {A K} `{Countable K} (f : A -> K) x l (s : gset K) :
  fresh_for f (x :: l) s <-> (f x ∉ s) /\ fresh_for f l ({[f x]} ∪ s).
Proof.
  unfold fresh_for. cbn [map]. rewrite NoDup_cons. setoid_rewrite elem_of_cons.
  setoid_rewrite not_elem_of_union. setoid_rewrite not_elem_of_singleton. split.
  - intros [[Hn Hd] Hf]. split; [auto|]. split; [done|]. intros y Hy. split; [|auto].
    intros Heq. apply Hn. rewrite <- Heq. by apply list_elem_of_fmap_2.
  - intros (Hx & Hd & Hf). split; [split; [|done]|].
    + intros (y & Hy & Hin)%list_elem_of_fmap. by destruct (Hf y Hin).
    + intros y [->|Hy]; [done|]. by apply Hf.
Qed.

Lemma fresh_for_empty {A K} `{Countable K} (f : A -> K) l : fresh_for f l ∅ <-> NoDup (map f l).
Proof. split; [by intros [? _]|]. intros ?. split; [done|]. set_solver. Qed.

Lemma fresh_for_head {A K} `{Countable K} (f : A -> K) x l (s : gset K) :
  fresh_for f l ({[f x]} ∪ s) -> f x ∉ map f l.
Proof.
  intros [_ Hf] (y & Hy & Hin)%list_elem_of_fmap. apply (Hf y Hin). set_solver.
Qed.

(** ** Environment *)

Definition env_value_ok (v : string) : Prop :=
  validate_text v = true /\ validate_env_value v = true /\ (len v <= MAX_ENV_VALUE_BYTES)%Z.

Lemma check_env_value_iff v p : check_env_value v p = Ok tt <-> env_value_ok v.
Proof. unfold check_env_value, env_value_ok. checks. tauto. Qed.

Definition public_ok (e : PublicEnvInput) : Prop := validate_env_key (pe_key e) = true /\ env_value_ok (pe_value e).

Lemma public_entries_iff idx es keys t r :
  (0 <= t <= u64_max)%Z ->
  public_entries idx es keys t = Ok r <->
  Forall public_ok es /\ fresh_for pe_key es keys
  /\ r = (list_to_set (map pe_key es) ∪ keys, Z.min u64_max (t + sum_len (map pe_value es))).
Proof.
  revert idx keys t. induction es as [|e es IH]; intros idx keys t Ht; cbn [public_entries map].
  - checks. unfold sum_len. simpl. rewrite Z.add_0_r, Z.min_r by lia.
    assert (∅ ∪ keys = keys) as -> by set_solver.
    split; [intros <-|by intros (_ & _ & ->)]. split; [constructor|]. split; [apply fresh_for_nil|done].
  - checks. rewrite check_env_value_iff. unfold check_env_key. checks. rewrite IH.
    2:{ pose proof (len_nonneg (pe_value e)). unfold saturating_add. lia. }
    rewrite Forall_cons, fresh_for_cons. cbn [list_to_set sum_len foldr].
    change (foldr (fun s => Z.add (len s)) 0%Z (map pe_value es)) with (sum_len (map pe_value es)).
    rewrite saturated_total by (apply len_nonneg || apply sum_len_nonneg || lia).
    assert (forall (a b : gset string) x, a ∪ ({[x]} ∪ b) = {[x]} ∪ a ∪ b) as -> by set_solver.
    unfold public_ok at 2. tauto.
Qed.

(** What an operation leaves in the secret environment. *)
Definition secret_result (existing : gmap string string) (e : SecretEnvInput) : option (string * string) :=
  match se_operation e with
  | OpKeep => pair (se_key e) <$> existing !! se_key e
  | OpReplace value => Some (se_key e, value)
  | OpDelete => None
  end.

Definition secret_op_ok (existing : gmap string string) (e : SecretEnvInput) : Prop :=
  match se_operation e with
  | OpReplace value => env_value_ok value
  | OpKeep | OpDelete => is_Some (existing !! se_key e)
  end.

Definition secret_ok (existing : gmap string string) (public_keys : gset string) (e : SecretEnvInput) : Prop :=
  validate_env_key (se_key e) = true /\ (se_key e ∈ public_keys -> se_operation e = OpDelete) /\ secret_op_ok existing e.

Lemma apply_secret_iff existing e base secret total r :
  apply_secret existing (se_key e) base (se_operation e) secret total = Ok r <->
  secret_op_ok existing e /\
  r = match secret_result existing e with
      | Some (_, v) => (<[se_key e := v]> secret, saturating_add u64_max total (len v))
      | None => (secret, total)
      end.
Proof.
  unfold apply_secret, secret_op_ok, secret_result. destruct (se_operation e) as [|v|].
  - rewrite bind_ok_iff. setoid_rewrite ok_or_iff. destruct (existing !! se_key e) as [v|]; simpl.
    + split; [intros (a & [= <-] & [= <-]); by split; [eexists|]|]. intros [_ ->]. by exists v.
    + split; [by intros (a & ? & _)|]. by intros [[? ?] _].
  - checks. rewrite check_env_value_iff. split; (intros [? <-] || intros [? ->]); done.
  - checks. destruct (existing !! se_key e) as [v|]; simpl.
    + split; (intros [? <-] || intros [? ->]); by try (split; [eexists|]).
    + split; [by intros [? _]|]. by intros [[? ?] _].
Qed.

Lemma is_delete_iff op : is_delete op = true <-> op = OpDelete.
Proof. by destruct op; split. Qed.

Lemma secret_result_key existing e k v : secret_result existing e = Some (k, v) -> k = se_key e.
Proof.
  unfold secret_result. destruct (se_operation e); [|congruence|done].
  destruct (existing !! se_key e); simpl; congruence.
Qed.

Lemma omap_secret_keys existing es k :
  k ∈ map fst (omap (secret_result existing) es) -> k ∈ map se_key es.
Proof.
  intros ([k' v] & -> & (e & He & Hr)%list_elem_of_omap)%list_elem_of_fmap. simpl.
  apply secret_result_key in Hr as ->. by apply list_elem_of_fmap_2.
Qed.

Definition secrets_of (existing : gmap string string) (es : list SecretEnvInput) : gmap string string :=
  list_to_map (omap (secret_result existing) es).

Definition secrets_total (existing : gmap string string) (es : list SecretEnvInput) : Z :=
  sum_len (map snd (omap (secret_result existing) es)).

Definition secret_next (existing : gmap string string) (e : SecretEnvInput) (st : secret_state) : secret_state :=
  match secret_result existing e with
  | Some (_, v) => MkSecretState (<[se_key e := v]> (ss_secret st)) ({[se_key e]} ∪ ss_operations st)
                     (saturating_add u64_max (ss_total st) (len v))
  | None => MkSecretState (ss_secret st) ({[se_key e]} ∪ ss_operations st) (ss_total st)
  end.

Lemma secret_entries_cons existing pk idx e es st st' :
  secret_entries existing pk idx (e :: es) st = Ok st' <->
  secret_ok existing pk e /\ (se_key e ∉ ss_operations st)
  /\ secret_entries existing pk (S idx) es (secret_next existing e st) = Ok st'.
Proof.
  cbn [secret_entries]. unfold check_env_key. checks. rewrite bind_ok_iff. unfold secret_ok, secret_next.
  setoid_rewrite apply_secret_iff.
  assert ((bool_decide (se_key e ∈ pk) && negb (is_delete (se_operation e))) = false <->
          (se_key e ∈ pk -> se_operation e = OpDelete)) as ->.
  { rewrite andb_false_iff, negb_false_iff, bool_decide_eq_false, is_delete_iff.
    destruct (decide (se_key e ∈ pk)); tauto. }
  split.
  - intros (Hk & Hop & Hdel & r & [Hok ->] & Hrest). split; [done|]. split; [done|].
    by destruct (secret_result existing e) as [[? v]|].
  - intros ((Hk & Hdel & Hok) & Hop & Hrest). split; [done|]. split; [done|]. split; [done|].
    eexists. split; [by split|]. by destruct (secret_result existing e) as [[? v]|].
Qed.

Definition secret_final (existing : gmap string string) (es : list SecretEnvInput) (st : secret_state) : secret_state :=
  MkSecretState (secrets_of existing es ∪ ss_secret st) (list_to_set (map se_key es) ∪ ss_operations st)
    (Z.min u64_max (ss_total st + secrets_total existing es)).

Lemma secret_final_cons existing e es st :
  (0 <= ss_total st <= u64_max)%Z -> se_key e ∉ map se_key es ->
  secret_final existing es (secret_next existing e st) = secret_final existing (e :: es) st.
Proof.
  intros Ht Hnin. unfold secret_final, secret_next, secrets_of, secrets_total. simpl.
  destruct (secret_result existing e) as [[k v]|] eqn:Hr; simpl.
  - apply secret_result_key in Hr as ->. f_equal; [|set_solver|].
    + rewrite <- insert_union_l. symmetry. apply insert_union_r. apply not_elem_of_list_to_map.
      intros Hin. by apply omap_secret_keys in Hin.
    + change (foldr _ _ _) with (sum_len (map snd (omap (secret_result existing) es))).
      apply saturated_total; [lia|apply len_nonneg|apply sum_len_nonneg].
  - f_equal. set_solver.
Qed.

Lemma secret_next_bounds existing e st :
  (0 <= ss_total st <= u64_max)%Z -> (0 <= ss_total (secret_next existing e st) <= u64_max)%Z.
Proof.
  intros Ht. unfold secret_next. destruct (secret_result existing e) as [[k v]|]; simpl; [|done].
  pose proof (len_nonneg v). unfold saturating_add. lia.
Qed.

Lemma secret_next_operations existing e st : ss_operations (secret_next existing e st) = {[se_key e]} ∪ ss_operations st.
Proof. unfold secret_next. by destruct (secret_result existing e) as [[k v]|]. Qed.

Lemma secret_entries_iff existing pk idx es st st' :
  (0 <= ss_total st <= u64_max)%Z ->
  secret_entries existing pk idx es st = Ok st' <->
  Forall (secret_ok existing pk) es /\ fresh_for se_key es (ss_operations st) /\ st' = secret_final existing es st.
Proof.
  revert idx st. induction es as [|e es IH]; intros idx st Ht.
  - cbn [secret_entries map]. checks. unfold secret_final, secrets_of, secrets_total, sum_len. simpl.
    rewrite Z.add_0_r, Z.min_r, map_empty_union by lia.
    assert (∅ ∪ ss_operations st = ss_operations st) as -> by set_solver. destruct st; simpl.
    split; [intros <-|by intros (_ & _ & ->)]. split; [constructor|]. split; [apply fresh_for_nil|done].
  - rewrite secret_entries_cons, IH by by apply secret_next_bounds.
    rewrite Forall_cons, fresh_for_cons, secret_next_operations. split.
    + intros (Hok & Hop & Hall & Hf & ->). pose proof (fresh_for_head _ _ _ _ Hf). by rewrite secret_final_cons.
    + intros ([Hok Hall] & [Hop Hf] & ->). pose proof (fresh_for_head _ _ _ _ Hf). by rewrite secret_final_cons.
Qed.

Record environment_ok (input : EnvironmentInput) (existing : gmap string string) : Prop := {
  eo_count : length (ei_public input) + length (ei_secrets input) <= MAX_ENV_ENTRIES;
  eo_public : Forall public_ok (ei_public input);
  eo_public_nodup : NoDup (map pe_key (ei_public input));
  eo_secrets : Forall (secret_ok existing (list_to_set (map pe_key (ei_public input)))) (ei_secrets input);
  eo_secrets_nodup : NoDup (map se_key (ei_secrets input));
  eo_covered : dom existing ⊆ (list_to_set (map se_key (ei_secrets input)) : gset string);
  eo_total : (sum_len (map pe_value (ei_public input)) + secrets_total existing (ei_secrets input)
              <= MAX_ENV_TOTAL_BYTES)%Z;
}.

Definition public_leb (a b : PublicEnvInput) : bool := text_leb (pe_key a) (pe_key b).

Lemma normalize_environment_iff input existing r :
  normalize_environment input existing = Ok r <->
  environment_ok input (es_environment existing)
  /\ r = (sort_by public_leb (ei_public input), secrets_of (es_environment existing) (ei_secrets input)).
Proof.
  pose proof (sum_len_nonneg (map pe_value (ei_public input))) as Hp.
  pose proof (sum_len_nonneg (map snd (omap (secret_result (es_environment existing)) (ei_secrets input)))) as Hs.
  unfold normalize_environment. checks. rewrite Nat.ltb_ge, bind_ok_iff. setoid_rewrite public_entries_iff; [|done].
  split.
  - intros (Hc & [pk t] & (Hpub & Hpn%fresh_for_empty & Hpk) & H). simplify_eq. rewrite bind_ok_iff in H.
    destruct H as (st & Hst & H). apply secret_entries_iff in Hst; [|by apply total_bounds].
    destruct Hst as (Hsec & Hsn%fresh_for_empty & ->). revert H. checks. unfold secret_final. simpl.
    rewrite !union_empty_r_L, map_union_empty. intros (Hcov & Htot & <-). split; [|done].
    rewrite union_empty_r_L in Hsec. split; try done. unfold secrets_total in *. unfold u64_max, MAX_ENV_TOTAL_BYTES in *. lia.
  - intros ([Hc Hpub Hpn Hsec Hsn Hcov Htot] & ->). split; [done|]. eexists (_, _).
    split; [split; [done|]; split; [by apply fresh_for_empty|done]|].
    rewrite bind_ok_iff. eexists. split.
    + apply secret_entries_iff; [by apply total_bounds|]. rewrite union_empty_r_L.
      split; [done|]. split; [by apply fresh_for_empty|done].
    + checks. unfold secret_final. simpl. rewrite !union_empty_r_L, map_union_empty. split; [done|]. split; [|done].
      unfold secrets_total in *. unfold u64_max, MAX_ENV_TOTAL_BYTES in *. lia.
Qed.

(** ** Managed files *)

Definition file_descriptor (item : ManagedFileInput) : ManagedFileMetadata :=
  MkManagedFileMetadata (fi_logical_name item) (fi_target_path item) (fi_sensitive item) true.

(** The content a file ends up with; [None] for one that is deleted. *)
Definition file_value (existing : gmap string string) (item : ManagedFileInput) : option string :=
  match fi_content item with
  | PublicContent content => Some content
  | SecretContent OpKeep => existing !! fi_logical_name item
  | SecretContent (OpReplace value) => Some value
  | SecretContent OpDelete => None
  end.

Definition content_ok (c : string) : Prop := validate_content c = true /\ (len c <= MAX_FILE_BYTES)%Z.

Definition file_content_ok (existing : gmap string string) (item : ManagedFileInput) : Prop :=
  match fi_sensitive item, fi_content item with
  | false, PublicContent content => content_ok content
  | true, SecretContent OpKeep => exists v, existing !! fi_logical_name item = Some v /\ (len v <= MAX_FILE_BYTES)%Z
  | true, SecretContent (OpReplace value) => content_ok value
  | true, SecretContent OpDelete => is_Some (existing !! fi_logical_name item)
  | _, _ => False
  end.

Definition file_ok (existing : gmap string string) (item : ManagedFileInput) : Prop :=
  validate_logical_name (fi_logical_name item) = true /\ validate_container_target (fi_target_path item) = true
  /\ fi_readonly item = true /\ file_content_ok existing item.

Lemma claim_file_iff st name target base taken st' :
  (taken = true -> name ∈ fs_final_names st) ->
  claim_file st name target base taken = Ok st' <->
  (name ∉ fs_final_names st) /\ (target ∉ fs_targets st)
  /\ st' = st <| fs_final_names := {[name]} ∪ fs_final_names st |> <| fs_targets := {[target]} ∪ fs_targets st |>.
Proof.
  intros Ht. unfold claim_file. checks. split.
  - by intros ([_ ?] & ? & <-).
  - intros (Hn & ? & ->). split; [|done]. split; [|done]. destruct taken; [by exfalso; apply Hn, Ht|done].
Qed.

Lemma check_file_quota_iff v t p r :
  check_file_quota v t p = Ok r <-> (len v <= MAX_FILE_BYTES)%Z /\ r = saturating_add u64_max t (len v).
Proof. unfold check_file_quota. checks. split; intros [? ?]; by subst. Qed.

(** A name is taken when a file of this draft has it. *)
Definition names_recorded (st : file_state) : Prop := fs_public_names st ⊆ fs_final_names st.

Definition claimed (st : file_state) (item : ManagedFileInput) : file_state :=
  st <| fs_final_names := {[fi_logical_name item]} ∪ fs_final_names st |>
     <| fs_targets := {[fi_target_path item]} ∪ fs_targets st |>.

Definition unclaimed (st : file_state) (item : ManagedFileInput) : Prop :=
  (fi_logical_name item ∉ fs_final_names st) /\ (fi_target_path item ∉ fs_targets st).

Lemma claim_item st item base st' :
  names_recorded st ->
  claim_file st (fi_logical_name item) (fi_target_path item) base
    (bool_decide (fi_logical_name item ∈ fs_public_names st)) = Ok st' <->
  unclaimed st item /\ st' = claimed st item.
Proof.
  intros Hrec. rewrite claim_file_iff by (intros ?%bool_decide_eq_true; by apply Hrec).
  unfold unclaimed, claimed. tauto.
Qed.

Definition with_secret (st : file_state) (item : ManagedFileInput) (index : nat) (v : string) : file_state :=
  st <| fs_secret := <[fi_logical_name item := v]> (fs_secret st) |>
     <| fs_metadata := fs_metadata st ++ [(file_descriptor item, index)] |>
     <| fs_total := saturating_add u64_max (fs_total st) (len v) |>.

Definition with_operation (st : file_state) (item : ManagedFileInput) : file_state :=
  st <| fs_secret_operations := {[fi_logical_name item]} ∪ fs_secret_operations st |>.

Lemma secret_file_iff existing st item index base op st' :
  names_recorded st ->
  secret_file existing st (file_descriptor item) index base op = Ok st' <->
  (fi_logical_name item ∉ fs_secret_operations st) /\
  match op with
  | OpKeep => exists v, existing !! fi_logical_name item = Some v /\ unclaimed st item
      /\ (len v <= MAX_FILE_BYTES)%Z /\ st' = with_secret (claimed (with_operation st item) item) item index v
  | OpReplace v => unclaimed st item /\ content_ok v
      /\ st' = with_secret (claimed (with_operation st item) item) item index v
  | OpDelete => is_Some (existing !! fi_logical_name item) /\ st' = with_operation st item
  end.
Proof.
  intros Hrec. unfold secret_file. checks. apply and_iff_compat_l.
  change (names_recorded (with_operation st item)) in Hrec. fold (with_operation st item).
  change (unclaimed st item) with (unclaimed (with_operation st item) item).
  destruct op as [|v|]; cbn [file_descriptor mf_logical_name mf_target_path].
  - rewrite bind_ok_iff. split.
    + intros (v & Hv%ok_or_iff & H). rewrite bind_ok_iff in H. destruct H as (st1 & Hc & H).
      apply claim_item in Hc as [Hu ->]; [|done]. rewrite bind_ok_iff in H. destruct H as (t & Hq & H).
      apply check_file_quota_iff in Hq as [Hl ->]. injection H as <-. by exists v.
    + intros (v & Hv & Hu & Hl & ->). exists v. split; [by apply ok_or_iff|]. rewrite bind_ok_iff.
      eexists. split; [by apply claim_item|]. rewrite bind_ok_iff. eexists. split; [by apply check_file_quota_iff|done].
  - rewrite bind_ok_iff. split.
    + intros (st1 & Hc & H). apply claim_item in Hc as [Hu ->]; [|done]. revert H. unfold check_file_content. checks.
      rewrite bind_ok_iff. intros (Hv & t & Hq & H). apply check_file_quota_iff in Hq as [Hl ->]. injection H as <-. done.
    + intros (Hu & [Hv Hl] & ->). eexists. split; [by apply claim_item|]. unfold check_file_content. checks.
      split; [done|]. rewrite bind_ok_iff. eexists. split; [by apply check_file_quota_iff|done].
  - checks. destruct (existing !! fi_logical_name item) as [v|]; simpl.
    + split; [intros [_ <-]|intros [_ ->]]; [|done]. by split; [eexists|].
    + split; [by intros [? _]|]. by intros [[? ?] _].
Qed.

Definition with_public (st : file_state) (item : ManagedFileInput) (index : nat) (v : string) : file_state :=
  st <| fs_public_names := {[fi_logical_name item]} ∪ fs_public_names st |>
     <| fs_public := <[fi_logical_name item := v]> (fs_public st) |>
     <| fs_metadata := fs_metadata st ++ [(file_descriptor item, index)] |>
     <| fs_total := saturating_add u64_max (fs_total st) (len v) |>.

Lemma public_file_iff st item index base c st' :
  names_recorded st ->
  public_file st (file_descriptor item) index base c = Ok st' <->
  unclaimed st item /\ content_ok c /\ st' = with_public (claimed st item) item index c.
Proof.
  intros Hrec. unfold public_file. cbn [file_descriptor mf_logical_name mf_target_path]. rewrite bind_ok_iff. split.
  - intros (st1 & Hc & H). apply claim_item in Hc as [Hu ->]; [|done]. revert H. unfold check_file_content. checks.
    rewrite bind_ok_iff. intros (Hv & t & Hq & H). apply check_file_quota_iff in Hq as [Hl ->]. by injection H as <-.
  - intros (Hu & [Hv Hl] & ->). eexists. split; [by apply claim_item|]. unfold check_file_content. checks.
    split; [done|]. rewrite bind_ok_iff. eexists. split; [by apply check_file_quota_iff|done].
Qed.

(** The state after a file that is accepted. *)
Definition file_next (existing : gmap string string) (index : nat) (item : ManagedFileInput) (st : file_state)
    : file_state :=
  match fi_sensitive item, file_value existing item with
  | true, Some v => with_secret (claimed (with_operation st item) item) item index v
  | true, None => with_operation st item
  | false, Some v => with_public (claimed st item) item index v
  | false, None => st
  end.

Lemma file_entry_iff existing index item st st' :
  names_recorded st ->
  file_entry existing index item st = Ok st' <->
  file_ok existing item
  /\ (fi_sensitive item = true -> fi_logical_name item ∉ fs_secret_operations st)
  /\ (is_Some (file_value existing item) -> unclaimed st item)
  /\ st' = file_next existing index item st.
Proof.
  intros Hrec. unfold file_entry, file_ok, file_content_ok, file_next, file_value. checks.
  change (MkManagedFileMetadata _ _ _ true) with (file_descriptor item).
  destruct (fi_sensitive item) eqn:Hsen, (fi_content item) as [c|op] eqn:Hcon.
  - split; [by intros (_ & _ & _ & [=])|by intros ((_ & _ & _ & []) & _)].
  - rewrite secret_file_iff by done. destruct op as [|v|].
    + split.
      * intros (? & ? & ? & ? & v & Hv & Hu & Hl & ->). rewrite Hv. split; [by eauto 6|]. done.
      * intros ((? & ? & ? & v & Hv & Hl) & Ho & Hu & ->). rewrite Hv in *. split; [done|]. split; [done|].
        split; [done|]. split; [by apply Ho|]. exists v. split; [done|]. split; [apply Hu; by eexists|done].
    + split.
      * intros (? & ? & ? & ? & Hu & Hc & ->). done.
      * intros ((? & ? & ? & Hc) & Ho & Hu & ->). split; [done|]. split; [done|]. split; [done|].
        split; [by apply Ho|]. split; [apply Hu; by eexists|done].
    + split.
      * intros (? & ? & ? & ? & Hs & ->). split; [done|]. split; [done|]. split; [by intros [? ?]|done].
      * intros ((? & ? & ? & Hs) & Ho & _ & ->). split; [done|]. split; [done|]. split; [done|]. split; [by apply Ho|done].
  - rewrite public_file_iff by done. split.
    + intros (? & ? & ? & Hu & Hc & ->). done.
    + intros ((? & ? & ? & Hc) & _ & Hu & ->). split; [done|]. split; [done|]. split; [done|].
      split; [apply Hu; by eexists|done].
  - split; [by intros (_ & _ & _ & [=])|by intros ((_ & _ & _ & []) & _)].
Qed.

Fixpoint file_fold (existing : gmap string string) (index : nat) (items : list ManagedFileInput) (st : file_state)
    : file_state :=
  match items with
  | [] => st
  | item :: rest => file_fold existing (S index) rest (file_next existing index item st)
  end.

Definition active_files (existing : gmap string string) (items : list ManagedFileInput) : list ManagedFileInput :=
  filter (fun item => is_Some (file_value existing item)) items.

Definition secret_items (items : list ManagedFileInput) : list ManagedFileInput :=
  filter (fun item => fi_sensitive item = true) items.

Lemma file_next_recorded existing index item st : names_recorded st -> names_recorded (file_next existing index item st).
Proof.
  unfold file_next, names_recorded. intros H.
  destruct (fi_sensitive item), (file_value existing item); simpl; set_solver.
Qed.

Lemma fresh_for_if {A K} `{Countable K} (f : A -> K) (P : Prop) `{Decision P} x l (s : gset K) :
  fresh_for f (if decide P then x :: l else l) s <->
  (P -> f x ∉ s) /\ fresh_for f l ((if decide P then {[f x]} else ∅) ∪ s).
Proof.
  destruct (decide P) as [HP|HP]; [rewrite fresh_for_cons; tauto|]. rewrite union_empty_l_L. tauto.
Qed.

Lemma file_next_sets existing index item st :
  file_content_ok existing item ->
  let st' := file_next existing index item st in
  fs_secret_operations st' = (if decide (fi_sensitive item = true) then {[fi_logical_name item]} else ∅)
                             ∪ fs_secret_operations st
  /\ fs_final_names st' = (if decide (is_Some (file_value existing item)) then {[fi_logical_name item]} else ∅)
                          ∪ fs_final_names st
  /\ fs_targets st' = (if decide (is_Some (file_value existing item)) then {[fi_target_path item]} else ∅)
                      ∪ fs_targets st.
Proof.
  unfold file_content_ok, file_next. intros H.
  destruct (fi_sensitive item), (file_value existing item) as [v|] eqn:Hv; simpl;
    rewrite ?decide_True by (done || by eexists); rewrite ?decide_False by (done || by intros [? ?]);
    rewrite ?union_empty_l_L; try done.
Qed.

Lemma file_entries_iff existing index items st st' :
  names_recorded st ->
  file_entries existing index items st = Ok st' <->
  Forall (file_ok existing) items
  /\ fresh_for fi_logical_name (secret_items items) (fs_secret_operations st)
  /\ fresh_for fi_logical_name (active_files existing items) (fs_final_names st)
  /\ fresh_for fi_target_path (active_files existing items) (fs_targets st)
  /\ st' = file_fold existing index items st.
Proof.
  revert index st. induction items as [|item items IH]; intros index st Hrec; cbn [file_entries file_fold].
  - checks. unfold secret_items, active_files. rewrite !filter_nil.
    split; [intros <-|by intros (_ & _ & _ & _ & ->)]. split; [constructor|].
    by do 3 (split; [apply fresh_for_nil|]).
  - rewrite bind_ok_iff, Forall_cons. unfold secret_items, active_files. rewrite !filter_cons, !fresh_for_if. split.
    + intros (st1 & H1 & H2). apply file_entry_iff in H1 as (Hok & Hop & Hun & ->); [|done].
      apply IH in H2; [|by apply file_next_recorded].
      destruct (file_next_sets existing index item st) as (-> & -> & ->) in H2; [apply Hok|].
      destruct H2 as (Hall & Hs & Hn & Ht & ->). unfold unclaimed in Hun. tauto.
    + intros ([Hok Hall] & [Ho Hs] & [Hn1 Hn] & [Ht1 Ht] & ->). exists (file_next existing index item st).
      rewrite file_entry_iff, IH by first [done|by apply file_next_recorded].
      destruct (file_next_sets existing index item st) as (-> & -> & ->); [apply Hok|]. unfold unclaimed. tauto.
Qed.

Definition file_result (sensitive : bool) (existing : gmap string string) (item : ManagedFileInput)
    : option (string * string) :=
  if Bool.eqb (fi_sensitive item) sensitive then pair (fi_logical_name item) <$> file_value existing item else None.

Definition files_of (sensitive : bool) (existing : gmap string string) (items : list ManagedFileInput)
    : gmap string string :=
  list_to_map (omap (file_result sensitive existing) items).

Fixpoint described (existing : gmap string string) (index : nat) (items : list ManagedFileInput)
    : list (ManagedFileMetadata * nat) :=
  match items with
  | [] => []
  | item :: rest =>
      (if is_some (file_value existing item) then [(file_descriptor item, index)] else []) ++ described existing (S index) rest
  end.

Lemma described_fst existing index items :
  map fst (described existing index items) = map file_descriptor (active_files existing items).
Proof.
  revert index. induction items as [|item items IH]; intros index; [done|]. cbn [described]. unfold active_files.
  rewrite filter_cons, map_app, IH. destruct (file_value existing item) as [v|].
  - by rewrite decide_True by by eexists.
  - by rewrite decide_False by by intros [? ?].
Qed.

Lemma file_fold_metadata existing index items st :
  fs_metadata (file_fold existing index items st) = fs_metadata st ++ described existing index items.
Proof.
  revert index st. induction items as [|item items IH]; intros index st; cbn [file_fold described];
    [by rewrite app_nil_r|]. rewrite IH. unfold file_next.
  destruct (fi_sensitive item), (file_value existing item); simpl; by rewrite <- ?app_assoc.
Qed.

Lemma file_fold_operations existing index items st :
  fs_secret_operations (file_fold existing index items st)
  = list_to_set (map fi_logical_name (secret_items items)) ∪ fs_secret_operations st.
Proof.
  revert index st. induction items as [|item items IH]; intros index st; cbn [file_fold]; [set_solver|].
  rewrite IH. unfold secret_items. rewrite filter_cons. unfold file_next.
  destruct (fi_sensitive item), (file_value existing item); simpl; set_solver.
Qed.

Lemma file_fold_total existing index items st :
  (0 <= fs_total st <= u64_max)%Z ->
  fs_total (file_fold existing index items st)
  = Z.min u64_max (fs_total st + sum_len (omap (file_value existing) items)).
Proof.
  revert index st. induction items as [|item items IH]; intros index st Ht; cbn [file_fold].
  { unfold sum_len. simpl. lia. }
  assert (fs_total (file_next existing index item st)
          = match file_value existing item with
            | Some v => saturating_add u64_max (fs_total st) (len v) | None => fs_total st end) as E
    by (unfold file_next; by destruct (fi_sensitive item), (file_value existing item)).
  rewrite IH; rewrite E; cbn [omap list_omap]; destruct (file_value existing item) as [v|]; try done.
  - rewrite saturated_total by (apply len_nonneg || apply sum_len_nonneg || lia). done.
  - pose proof (len_nonneg v). unfold saturating_add. lia.
Qed.

Lemma file_result_key b existing item k v :
  file_result b existing item = Some (k, v) -> k = fi_logical_name item /\ is_Some (file_value existing item).
Proof.
  unfold file_result. destruct (Bool.eqb _ _); [|done]. destruct (file_value existing item); simpl; [|done].
  intros [= <- <-]. by split; [|eexists].
Qed.

Lemma file_result_names b existing items k :
  k ∈ map fst (omap (file_result b existing) items) -> k ∈ map fi_logical_name (active_files existing items).
Proof.
  intros ([k' v] & -> & (e & He & Hr)%list_elem_of_omap)%list_elem_of_fmap. simpl.
  apply file_result_key in Hr as [-> Hs]. apply list_elem_of_fmap_2. by apply list_elem_of_filter.
Qed.

(** Both maps collect their files whatever the order. *)
Lemma file_fold_maps existing index items st :
  NoDup (map fi_logical_name (active_files existing items)) ->
  fs_public (file_fold existing index items st) = files_of false existing items ∪ fs_public st
  /\ fs_secret (file_fold existing index items st) = files_of true existing items ∪ fs_secret st.
Proof.
  revert index st. induction items as [|item items IH]; intros index st Hnd; cbn [file_fold].
  { unfold files_of. simpl. by rewrite !map_empty_union. }
  unfold active_files in Hnd. rewrite filter_cons in Hnd.
  assert (NoDup (map fi_logical_name (active_files existing items))
    /\ (is_Some (file_value existing item) -> fi_logical_name item ∉ map fi_logical_name (active_files existing items)))
    as [Hnd' Hnin].
  { destruct (decide (is_Some (file_value existing item))); [|done]. cbn [map] in Hnd. by apply NoDup_cons in Hnd as []. }
  destruct (IH (S index) (file_next existing index item st) Hnd') as [-> ->]. unfold files_of. cbn [omap list_omap].
  assert (forall b, file_result b existing item = if Bool.eqb (fi_sensitive item) b
            then pair (fi_logical_name item) <$> file_value existing item else None) as E by done.
  rewrite !E. unfold file_next. clear E. destruct (fi_sensitive item), (file_value existing item) as [v|]; simpl;
    split; try done; rewrite <- insert_union_l; symmetry; apply insert_union_r, not_elem_of_list_to_map;
    intros Hin%file_result_names; by apply Hnin.
Qed.

Definition file_leb (a b : ManagedFileMetadata * nat) : bool := text_leb (mf_logical_name a.1) (mf_logical_name b.1).

Record files_ok (items : list ManagedFileInput) (existing : gmap string string) : Prop := {
  fo_count : length items <= MAX_FILES;
  fo_items : Forall (file_ok existing) items;
  fo_operations : NoDup (map fi_logical_name (secret_items items));
  fo_names : NoDup (map fi_logical_name (active_files existing items));
  fo_targets : NoDup (map fi_target_path (active_files existing items));
  fo_covered : dom existing ⊆ (list_to_set (map fi_logical_name (secret_items items)) : gset string);
  fo_total : (sum_len (omap (file_value existing) items) <= MAX_FILE_TOTAL_BYTES)%Z;
}.

Lemma normalize_files_iff items existing r :
  normalize_files items existing = Ok r <->
  files_ok items (es_files existing)
  /\ r = (map fst (sort_by file_leb (described (es_files existing) 0 items)),
          map snd (sort_by file_leb (described (es_files existing) 0 items)),
          files_of false (es_files existing) items, files_of true (es_files existing) items).
Proof.
  pose proof (sum_len_nonneg (omap (file_value (es_files existing)) items)) as Hs.
  unfold normalize_files. checks. rewrite Nat.ltb_ge, bind_ok_iff.
  set (st0 := MkFileState ∅ ∅ ∅ ∅ [] ∅ ∅ 0). assert (names_recorded st0) as Hrec by done.
  setoid_rewrite file_entries_iff; [|done]. split.
  - intros (Hc & st & (Hall & Ho%fresh_for_empty & Hn%fresh_for_empty & Ht%fresh_for_empty & ->) & H). revert H. checks.
    destruct (file_fold_maps (es_files existing) 0 items st0 Hn) as [-> ->].
    rewrite file_fold_metadata, file_fold_operations, file_fold_total by done. unfold st0. simpl.
    rewrite !map_union_empty, union_empty_r_L. intros (Hcov & Htot & <-). split; [|done]. split; try done.
    unfold u64_max, MAX_FILE_TOTAL_BYTES in *. lia.
  - intros ([Hc Hall Ho Hn Ht Hcov Htot] & ->). split; [done|]. eexists.
    split; [do 4 (split; [try done; by apply fresh_for_empty|]); done|]. checks.
    destruct (file_fold_maps (es_files existing) 0 items st0 Hn) as [-> ->].
    rewrite file_fold_metadata, file_fold_operations, file_fold_total by done. unfold st0. simpl.
    rewrite !map_union_empty, union_empty_r_L. split; [done|]. split; [|done].
    unfold u64_max, MAX_FILE_TOTAL_BYTES in *. lia.
Qed.
