(* ===== verification/DraftResources.v ===== *)
(** * DraftResources: what the validation of ports, mounts and networks accepts *)

From stdpp Require Import sets gmap sorting.
From S2P Require Import Prelude Text Reference Models Codec Names Drafts DraftSpec.
From stdpp Require Import list.

(** ** Pairs *)

Fixpoint pairwise {A} (R : A -> A -> Prop) (l : list A) : Prop :=
  match l with [] => True | x :: l' => Forall (R x) l' /\ pairwise R l' end.

Lemma pairwise_perm {A} (R : A -> A -> Prop) l l' :
  (forall x y, R x y -> R y x) -> l ≡ₚ l' -> pairwise R l -> pairwise R l'.
Proof.
  intros Hsym. induction 1 as [|x l l' Hp IH|x y l|l1 l2 l3 H1 IH1 H2 IH2]; simpl; [done|..|auto].
  - intros [Hx Hl]. split; [by rewrite <- Hp|auto].
  - rewrite !Forall_cons. intros [[Hyx Hy] [Hx Hl]]. auto.
Qed.

Lemma pairwise_lookup {A} (R : A -> A -> Prop) l (i j : nat) x y :
  pairwise R l -> l !! i = Some x -> l !! j = Some y -> i < j -> R x y.
Proof.
  revert i j. induction l as [|z l IH]; intros [|i] [|j] Hp Hi Hj Hlt; simplify_eq/=; try lia;
    destruct Hp as [Hz Hl].
  - rewrite Forall_forall in Hz. by eapply Hz, list_elem_of_lookup_2.
  - eapply IH; [done..|lia].
Qed.

Lemma existsb_false {A} (f : A -> bool) l : existsb f l = false <-> Forall (fun x => f x = false) l.
Proof.
  induction l as [|x l IH]; simpl; [by split; [constructor|]|]. by rewrite orb_false_iff, Forall_cons, IH.
Qed.

(** ** Ports *)

Definition port_ok (p : PortInput) : Prop :=
  (pi_host_ip p = "127.0.0.1" \/ pi_host_ip p = "::1") /\ pi_host_port p <> 0%Z /\ pi_container_port p <> 0%Z.

Lemma port_entries_iff idx ps published normalized :
  (forall ip hp cp pr, (ip, hp, cp, pr) ∈ normalized -> (ip, hp, pr) ∈ published) ->
  port_entries idx ps published normalized = Ok tt <-> Forall port_ok ps /\ fresh_for published_port ps published.
Proof.
  revert idx published normalized. induction ps as [|p ps IH]; intros idx published normalized Hn; cbn [port_entries].
  { split; [split; [constructor|apply fresh_for_nil]|done]. }
  checks. rewrite IH, Forall_cons, fresh_for_cons.
  2:{ intros ip hp cp pr. rewrite !elem_of_union, !elem_of_singleton.
      intros [[= -> -> -> ->]|Hin]; [by left|right; by eapply Hn]. }
  unfold port_ok at 2. rewrite orb_true_iff, !bool_decide_eq_true. split.
  - intros (Hip & Hhp & Hcp & [Hpub _] & Hall & Hf). done.
  - intros ([(Hip & Hhp & Hcp) Hall] & Hpub & Hf). split; [done|]. split; [done|]. split; [done|].
    split; [|done]. split; [done|]. intros Hin. apply Hpub. by eapply Hn.
Qed.

Definition ports_ok (ps : list PortInput) : Prop :=
  length ps <= 32 /\ Forall port_ok ps /\ NoDup (map published_port ps).

Lemma validate_ports_iff ps : validate_ports ps = Ok tt <-> ports_ok ps.
Proof.
  unfold validate_ports, ports_ok. checks. rewrite Nat.ltb_ge, port_entries_iff, fresh_for_empty; [done|]. set_solver.
Qed.

(** ** Volumes *)

Definition volume_ok (v : VolumeInput) : Prop :=
  validate_container_target (volume_target_path v) = true
  /\ match v with
     | OwnedVolume name _ => validate_logical_name name = true
     | ExternalVolume name _ => validate_docker_name name = true
     end.

Lemma volume_entries_iff idx vs names :
  volume_entries idx vs names = Ok tt <-> Forall volume_ok vs /\ fresh_for volume_name vs names.
Proof.
  revert idx names. induction vs as [|v vs IH]; intros idx names; cbn [volume_entries].
  { split; [split; [constructor|apply fresh_for_nil]|done]. }
  checks. rewrite bind_ok_iff, Forall_cons, fresh_for_cons. unfold volume_ok at 1.
  assert (forall base field, check_volume_name v base = Ok field <->
    match v with OwnedVolume name _ => validate_logical_name name = true
               | ExternalVolume name _ => validate_docker_name name = true end
    /\ field = match v with OwnedVolume _ _ => "logical_name" | ExternalVolume _ _ => "name" end) as Hc.
  { intros base field. unfold check_volume_name. destruct v; checks; split; intros [? ?]; by subst. }
  split.
  - intros (Ht & field & [Hn _]%Hc & H). revert H. checks. rewrite IH. by intros (? & ? & ?).
  - intros ([[Ht Hn] Hall] & Hf & Hfr). split; [done|]. eexists. split; [by apply Hc|]. checks. by rewrite IH.
Qed.

Definition volumes_ok (vs : list VolumeInput) : Prop :=
  length vs <= 16 /\ Forall volume_ok vs /\ NoDup (map volume_name vs).

Lemma validate_volumes_iff vs : validate_volumes vs = Ok tt <-> volumes_ok vs.
Proof. unfold validate_volumes, volumes_ok. checks. by rewrite Nat.ltb_ge, volume_entries_iff, fresh_for_empty. Qed.

(** ** Binds *)

Definition bind_ok_as (host : BindHost) (roots : list string) (b : BindMountInput) (identity : BindIdentity) : Prop :=
  validate_container_target (bm_target_path b) = true
  /\ (bm_readonly b = true \/ bm_acknowledge_non_rollbackable b = true)
  /\ validate_bind_source host (bm_source b) roots = Ok identity.

Lemma bind_entries_iff host idx bs roots ids :
  bind_entries host idx bs roots = Ok ids <-> Forall2 (bind_ok_as host roots) bs ids.
Proof.
  revert idx ids. induction bs as [|b bs IH]; intros idx ids; cbn [bind_entries].
  { split; [by intros [= <-]|]. by intros ->%Forall2_nil_inv_l. }
  checks. rewrite bind_ok_iff. setoid_rewrite bind_ok_iff. setoid_rewrite IH. setoid_rewrite Ok_inj_iff.
  setoid_rewrite map_err_ok_iff. rewrite andb_false_iff, !negb_false_iff. split.
  - intros (Ht & Hr & i & Hi & rest & Hrest & <-). by constructor.
  - intros (i & rest & (Ht & Hr & Hi) & Hrest & ->)%Forall2_cons_inv_l. split; [done|]. split; [done|]. eauto.
Qed.

Definition sources_apart (l r : BindSafetySource) : Prop := bind_sources_conflict l r = false.

Lemma sources_apart_sym l r : sources_apart l r -> sources_apart r l.
Proof.
  unfold sources_apart, bind_sources_conflict. rewrite orb_comm.
  assert (path_eqb (bi_path (bs_identity l)) (bi_path (bs_identity r))
          = path_eqb (bi_path (bs_identity r)) (bi_path (bs_identity l))) as ->; [|done].
  unfold path_eqb. apply bool_decide_ext. by split.
Qed.

Lemma validate_bind_plan_iff target existing :
  validate_bind_plan target existing = Ok tt <->
  pairwise sources_apart target /\ Forall (fun l => Forall (sources_apart l) existing) target.
Proof.
  induction target as [|t target IH]; cbn [validate_bind_plan pairwise]; [by repeat split|].
  checks. rewrite IH, Forall_cons, !existsb_false. unfold sources_apart at 3 4. tauto.
Qed.

(** ** Mount targets *)

Definition targets_apart (a b : string) : Prop := targets_overlap a b = false.

Lemma targets_apart_sym a b : targets_apart a b -> targets_apart b a.
Proof.
  unfold targets_apart, targets_overlap. rewrite !orb_false_iff. intros [[H1 H2] H3]. split; [split|]; [|done..].
  unfold path_eqb in *. rewrite bool_decide_eq_false in *. congruence.
Qed.

Lemma target_pairs_iff ts : target_pairs ts = Ok tt <-> pairwise targets_apart (map snd ts).
Proof.
  induction ts as [|[path t] ts IH]; cbn [target_pairs map pairwise snd]; [done|]. rewrite then_ok_iff, IH.
  apply and_iff_compat_r. rewrite Forall_fmap. destruct (list_find _ ts) as [[i [q r]]|] eqn:Hf.
  - apply list_find_Some in Hf as (Hl & Ho & _). split; [done|]. rewrite Forall_forall.
    intros Hall. specialize (Hall (q, r) (list_elem_of_lookup_2 _ _ _ Hl)). unfold targets_apart in Hall. simpl in *. congruence.
  - apply list_find_None in Hf. split; [|done]. intros _. eapply Forall_impl; [exact Hf|]. intros x Hx.
    by apply not_true_is_false.
Qed.

(** ** Networks *)

Lemma alias_entries_iff base idx aliases seen :
  alias_entries base idx aliases seen = Ok tt <->
  Forall (fun a => validate_alias a = true) aliases /\ fresh_for id aliases seen.
Proof.
  revert idx seen. induction aliases as [|a aliases IH]; intros idx seen; cbn [alias_entries].
  { split; [split; [constructor|apply fresh_for_nil]|done]. }
  checks. rewrite IH, Forall_cons, fresh_for_cons. unfold id at 2 4. tauto.
Qed.

Definition external_name (n : NetworkInput) : option string :=
  match n with OwnedDefault => None | External name _ => Some name end.

Definition external_names (ns : list NetworkInput) : list string := omap external_name ns.

Definition network_ok (reserve : bool) (n : NetworkInput) : Prop :=
  match n with
  | OwnedDefault => True
  | External name aliases =>
      (reserve = true -> name <> PLATFORM_NETWORK_NAME) /\ validate_docker_name name = true
      /\ length aliases <= MAX_NETWORK_ALIASES
      /\ Forall (fun a => validate_alias a = true) aliases /\ NoDup aliases
  end.

Definition is_marker (n : NetworkInput) : bool := match n with OwnedDefault => true | External _ _ => false end.
Definition markers (ns : list NetworkInput) : nat := length (filter (fun n => is_marker n = true) ns).

Lemma network_entries_iff reserve idx ns names m r :
  network_entries reserve idx ns names m = Ok r <->
  Forall (network_ok reserve) ns /\ fresh_for id (external_names ns) names /\ r = m + markers ns.
Proof.
  revert idx names m. induction ns as [|n ns IH]; intros idx names m; cbn [network_entries].
  { checks. unfold markers. simpl. rewrite Nat.add_0_r.
    split; [intros <-|by intros (_ & _ & ->)]. split; [constructor|]. split; [apply fresh_for_nil|done]. }
  unfold markers, external_names. cbn [omap list_omap]. rewrite filter_cons. destruct n as [|name aliases]; simpl.
  - rewrite IH, Forall_cons. unfold markers, external_names. rewrite <- plus_n_Sm. simpl. tauto.
  - checks. rewrite IH, Forall_cons, alias_entries_iff, fresh_for_cons, fresh_for_empty, Nat.ltb_ge.
    rewrite list_fmap_id. unfold id at 1 2. cbn [network_ok]. unfold markers, external_names.
    rewrite andb_false_iff, bool_decide_eq_false.
    assert (reserve = false \/ name <> PLATFORM_NETWORK_NAME <-> (reserve = true -> name <> PLATFORM_NETWORK_NAME)) as ->.
    { destruct reserve; [|by split; auto]. split; [by intros [|]|auto]. }
    tauto.
Qed.

Lemma markers_externals ns : length ns = markers ns + length (external_names ns).
Proof.
  unfold markers, external_names. induction ns as [|[|name aliases] ns IH]; [done|..];
    rewrite filter_cons; simpl; rewrite IH; unfold omap; lia.
Qed.

Record networks_ok (owned discovery reserve : bool) (ns : list NetworkInput) : Prop := {
  no_each : Forall (network_ok reserve) ns;
  no_nodup : NoDup (external_names ns);
  no_count : length (external_names ns) <= MAX_EXTERNAL_NETWORKS;
  no_markers : markers ns <= 1 /\ (owned = false -> markers ns = 0);
  no_some : owned = true \/ discovery = true \/ external_names ns <> [];
}.

Lemma validate_network_inputs_iff owned discovery ns reserve :
  validate_network_inputs owned discovery ns reserve = Ok tt <-> networks_ok owned discovery reserve ns.
Proof.
  unfold validate_network_inputs. rewrite bind_ok_iff. setoid_rewrite network_entries_iff.
  assert (length ns - markers ns = length (external_names ns)) as Hlen by (rewrite (markers_externals ns); lia).
  assert (length (external_names ns) = 0 <-> external_names ns = []) as Hnil by by rewrite length_zero_iff_nil.
  split.
  - intros (m & (Hall & Hf%fresh_for_empty & ->) & H). rewrite list_fmap_id in Hf. simpl in H. rewrite Hlen in H.
    revert H. checks. rewrite !Nat.ltb_ge, !andb_false_iff, !negb_false_iff, Nat.eqb_eq, Nat.eqb_neq.
    intros (Hc & [Hm1 Hm2] & Hs). split; try done.
    + split; [done|]. intros ->. by destruct Hm2.
    + destruct owned; [auto|]. destruct discovery; [auto|]. right. right. destruct Hs as [[|]|]; try done. tauto.
  - intros [Hall Hn Hc [Hm1 Hm2] Hs]. eexists. split; [split; [done|]; split; [|done]|].
    { apply fresh_for_empty. by rewrite list_fmap_id. }
    simpl. rewrite Hlen. checks. rewrite !Nat.ltb_ge, !andb_false_iff, !negb_false_iff, Nat.eqb_eq, Nat.eqb_neq.
    split; [done|]. split; [split; [done|]; destruct owned; auto|].
    destruct owned; [auto|]. destruct discovery; [auto|]. right. destruct Hs as [|[|]]; try done. tauto.
Qed.

(** The order of aliases does not matter. *)
Lemma network_ok_sorted reserve n : network_ok reserve (sort_aliases n) <-> network_ok reserve n.
Proof.
  destruct n as [|name aliases]; [done|]. simpl. pose proof (sort_by_perm text_leb aliases) as Hp. by rewrite Hp.
Qed.

Lemma networks_ok_sorted owned discovery reserve ns :
  networks_ok owned discovery reserve (map sort_aliases ns) <-> networks_ok owned discovery reserve ns.
Proof.
  assert (external_names (map sort_aliases ns) = external_names ns) as He.
  { unfold external_names. induction ns as [|[|name aliases] ns IH]; [done|done|].
    cbn [map omap list_omap external_name sort_aliases]. f_equal. apply IH. }
  assert (markers (map sort_aliases ns) = markers ns) as Hm.
  { unfold markers. clear He. induction ns as [|[|name aliases] ns IH]; [done|..]; cbn [map]; rewrite !filter_cons; simpl; lia. }
  assert (Forall (network_ok reserve) (map sort_aliases ns) <-> Forall (network_ok reserve) ns) as Ha.
  { rewrite Forall_fmap. apply Forall_proper; [|done]. intros n. apply network_ok_sorted. }
  split; intros [H1 H2 H3 H4 H5]; split; rewrite ?He, ?Hm, ?Ha in *; done.
Qed.

Lemma networks_ok_perm owned discovery reserve ns ns' :
  ns ≡ₚ ns' -> networks_ok owned discovery reserve ns -> networks_ok owned discovery reserve ns'.
Proof.
  intros Hp. assert (external_names ns ≡ₚ external_names ns') as He by (unfold external_names; by rewrite Hp).
  assert (markers ns = markers ns') as Hm by (unfold markers; by rewrite Hp).
  intros [H1 H2 H3 H4 H5]. split.
  - by rewrite <- Hp.
  - by rewrite <- He.
  - by rewrite <- He.
  - by rewrite <- Hm.
  - destruct H5 as [?|[?|Hne]]; [auto..|]. right. right. intros Heq. apply Hne. rewrite Heq in He.
    by apply Permutation_nil_r in He.
Qed.
