(* ===== verification/DraftCanonical.v ===== *)
(** * DraftCanonical: normalisation as a condition and a form

    [normalize_iff]: the whole of [normalize_draft_with_options] succeeds exactly
    on the inputs that satisfy [draft_ok], with [normalized] as its result. Both
    are invariant under reordering the request. *)

From stdpp Require Import sets gmap sorting.
From S2P Require Import Prelude Text Reference Models Codec Names Drafts DraftSpec DraftResources.
From stdpp Require Import list.

Definition volume_leb (a b : VolumeInput) : bool := text_leb (volume_sort_key a) (volume_sort_key b).
Definition bind_leb (a b : BindMountInput) : bool := text_leb (bm_target_path a) (bm_target_path b).
Definition descriptor_leb (a b : ManagedFileMetadata) : bool := text_leb (mf_logical_name a) (mf_logical_name b).

(** The targets of every mount of a draft. *)
Definition mount_targets (files : list ManagedFileMetadata) (volumes : list VolumeInput) (binds : list BindMountInput)
    : list string :=
  map mf_target_path files ++ map volume_target_path volumes ++ map bm_target_path binds.

Definition draft_files (input : DraftInput) (existing : ExistingSecrets) : list ManagedFileMetadata :=
  sort_by descriptor_leb (map file_descriptor (active_files (es_files existing) (di_files input))).

Record binds_ok (host : BindHost) (roots : list string) (enforce : bool) (binds : list BindMountInput) : Prop := {
  bo_count : length binds <= 16;
  bo_roots : binds = [] \/ roots <> [];
  bo_each : exists ids, Forall2 (bind_ok_as host roots) binds ids
    /\ (enforce = true -> pairwise sources_apart (zip_with (fun i b => MkBindSafetySource i (bm_readonly b)) ids binds));
}.

Record draft_ok (host : BindHost) (roots : list string) (enforce : bool) (input : DraftInput)
    (existing : ExistingSecrets) : Prop := {
  do_profile : is_some_and (di_security_profile input) security_profile_bad = false;
  do_display : validate_display_name (di_display_name input) = true;
  do_discovery : validate_discovery_image (di_discovery_image_ref input) = true;
  do_poll : (60 <= di_poll_interval_seconds input <= 86400)%Z;
  do_stop : (1 <= di_stop_grace_period_seconds input <= MAX_STOP_GRACE_PERIOD_SECONDS)%Z;
  do_environment : environment_ok (di_environment input) (es_environment existing);
  do_order : check_order (ei_order (di_environment input)) (ei_public (di_environment input))
               (secrets_of (es_environment existing) (ei_secrets (di_environment input))) = Ok tt;
  do_files : files_ok (di_files input) (es_files existing);
  do_ports : ports_ok (di_ports input);
  do_volumes : volumes_ok (di_volumes input);
  do_binds : binds_ok host roots enforce (di_binds input);
  do_targets : pairwise targets_apart
                 (mount_targets (draft_files input existing) (di_volumes input) (di_binds input));
  do_networks : networks_ok (di_owned_default_network input) (di_service_discovery_enabled input) true
                  (di_networks input);
  do_health : validate_health (di_health input) = Ok tt;
}.

Section canonical.
Context {CR : Crypto}.
Context (canonical_json : ConfigMetadata -> list PublicEnvInput -> gmap string string -> string).

Definition normalized (input : DraftInput) (existing : ExistingSecrets) (hmac_key : string) : NormalizedDraft :=
  let public_environment := sort_by public_leb (ei_public (di_environment input)) in
  let secret_environment := secrets_of (es_environment existing) (ei_secrets (di_environment input)) in
  let files := draft_files input existing in
  let public_files := files_of false (es_files existing) (di_files input) in
  let secret_files := files_of true (es_files existing) (di_files input) in
  let ports := sort_by port_leb (di_ports input) in
  let volumes := sort_by volume_leb (di_volumes input) in
  let binds := sort_by bind_leb (di_binds input) in
  let networks := sort_by network_leb (map sort_aliases (di_networks input)) in
  let metadata := MkConfigMetadata (di_security_profile input) 4 (di_stop_grace_period_seconds input)
    (ei_order (di_environment input)) (map pe_key public_environment) (sorted_keys secret_environment)
    (hmac_hex hmac_key <$> secret_environment) files ((fun c => hex (sha256 c)) <$> public_files)
    (hmac_hex hmac_key <$> secret_files) ports volumes binds (di_owned_default_network input)
    (di_service_discovery_enabled input) networks (di_health input) EmptyString in
  MkNormalizedDraft (di_security_profile input) (trim (di_display_name input))
    (di_discovery_image_ref input) (di_credential_ref input) (di_auto_deploy_enabled input)
    (di_auto_deploy_acknowledged input) (di_poll_interval_seconds input) (di_stop_grace_period_seconds input)
    public_environment secret_environment files public_files secret_files ports volumes binds
    (di_owned_default_network input) (di_service_discovery_enabled input) networks (di_health input)
    (with_hash metadata (hex (sha256 (canonical_json metadata public_environment public_files)))).

(** ** Pieces *)

Lemma insert_by_fst {A B} (le : A -> A -> bool) (x : A * B) l :
  map fst (insert_by (fun a b => le a.1 b.1) x l) = insert_by le x.1 (map fst l).
Proof. induction l as [|y l IH]; [done|]. simpl. destruct (le x.1 y.1); simpl; [done|]. by rewrite IH. Qed.

Lemma sort_by_fst {A B} (le : A -> A -> bool) (l : list (A * B)) :
  map fst (sort_by (fun a b => le a.1 b.1) l) = sort_by le (map fst l).
Proof. induction l as [|x l IH]; [done|]. simpl. by rewrite insert_by_fst, IH. Qed.

Lemma file_leb_fst l : map fst (sort_by file_leb l) = sort_by descriptor_leb (map fst l).
Proof. apply (sort_by_fst descriptor_leb). Qed.

Lemma map_snd_imap {A} (f : nat -> A -> string) (g : A -> string) l :
  map snd (imap (fun i x => (f i x, g x)) l) = map g l.
Proof.
  change (snd <$> imap (fun i x => (f i x, g x)) l = g <$> l). rewrite fmap_imap.
  apply list_eq. intros k. rewrite list_lookup_imap, list_lookup_fmap. by destruct (l !! k).
Qed.

Lemma map_snd_zip_with {A B} (f : A -> B -> string) (g : A -> string) (l : list A) (k : list B) :
  length l = length k -> map snd (zip_with (fun x y => (f x y, g x)) l k) = map g l.
Proof.
  revert k. induction l as [|x l IH]; intros [|y k] Hlen; simplify_eq/=; [done|]. by rewrite IH.
Qed.

Lemma mount_conflicts_iff files idxs volumes binds :
  length files = length idxs ->
  validate_mount_target_conflicts files idxs volumes binds = Ok tt <->
  pairwise targets_apart (mount_targets files volumes binds).
Proof.
  intros Hlen. unfold validate_mount_target_conflicts, mount_targets. rewrite target_pairs_iff, !map_app.
  rewrite (map_snd_zip_with (fun file index => index_path "files" index ".target_path") mf_target_path) by done.
  rewrite (map_snd_imap (fun index _ => index_path "volumes" index ".target_path") volume_target_path).
  by rewrite (map_snd_imap (fun index _ => index_path "binds" index ".target_path") bm_target_path).
Qed.

Lemma validate_binds_iff host binds roots enforce :
  (exists ids, validate_binds_detailed_with_options host binds roots enforce = Ok ids) <->
  binds_ok host roots enforce binds.
Proof.
  unfold validate_binds_detailed_with_options. split.
  - intros (ids & H). revert H. checks. rewrite Nat.ltb_ge, bind_ok_iff, andb_false_iff, negb_false_iff.
    intros (Hc & Hr & ids' & Hb%bind_entries_iff & H). revert H. checks. intros [Hp <-]. split; [done|..].
    + destruct binds; [by left|right]. destruct Hr as [?|Hr]; [done|]. by destruct roots.
    + exists ids'. split; [done|]. intros ->. apply map_err_ok_iff, validate_bind_plan_iff in Hp. apply Hp.
  - intros [Hc Hr (ids & Hb & Hp)]. exists ids. checks. rewrite Nat.ltb_ge, bind_ok_iff, andb_false_iff, negb_false_iff.
    split; [done|]. split; [destruct Hr as [->|]; [by left|right; by destruct roots]|].
    exists ids. split; [by apply bind_entries_iff|]. checks. split; [|done]. destruct enforce; [|done].
    apply map_err_ok_iff, validate_bind_plan_iff. split; [by apply Hp|]. apply Forall_forall. by constructor.
Qed.

Lemma check_order_perm order public public' secret :
  public ≡ₚ public' -> check_order order public secret = Ok tt -> check_order order public' secret = Ok tt.
Proof.
  intros Hp. unfold check_order. destruct order as [order|]; [|done].
  assert (list_to_set (map pe_key public) = (list_to_set (map pe_key public') : gset string)) as ->; [|done].
  apply leibniz_equiv. by rewrite Hp.
Qed.

(** ** The whole *)

Lemma check_range_iff v lo hi path : check_range v lo hi path = Ok tt <-> (lo <= v <= hi)%Z.
Proof. unfold check_range. checks. lia. Qed.

Lemma normalize_iff host input existing hmac_key roots enforce d :
  normalize_draft_with_options canonical_json host input existing hmac_key roots enforce = Ok d <->
  draft_ok host roots enforce input existing /\ d = normalized input existing hmac_key.
Proof.
  unfold normalize_draft_with_options, check_security_profile. checks. rewrite check_range_iff, bind_ok_iff. split.
  - intros (H1 & H2 & H3 & H4 & H5 & [pub sec] & He & H). apply normalize_environment_iff in He as [He [= -> ->]].
    revert H. checks. rewrite bind_ok_iff. intros (Ho & [[[files idxs] pf] sf] & Hf & H).
    apply normalize_files_iff in Hf as [Hf [= -> -> -> ->]]. revert H. checks.
    rewrite validate_ports_iff, validate_volumes_iff, bind_ok_iff. intros (Hp & Hv & ids & Hb & H).
    assert (binds_ok host roots enforce (di_binds input)) as Hb' by (apply validate_binds_iff; eauto). clear Hb.
    revert H. checks. rewrite mount_conflicts_iff by by rewrite !length_map.
    rewrite file_leb_fst, described_fst. unfold normalize_networks_with_issues. rewrite bind_ok_iff.
    intros (Ht & [ns plan] & Hn & H). revert Hn. checks. rewrite validate_network_inputs_iff.
    intros [Hn [= <- <-]]. revert H. checks. rewrite bind_ok_iff. unfold canonical_non_secret. simpl.
    intros (Hh & c & [= <-] & [= <-]). split; [|done]. split; try done; [lia|].
    eapply check_order_perm; [|exact Ho]. apply sort_by_perm.
  - intros ([H1 H2 H3 H4 H5 He Ho Hf Hp Hv Hb Ht Hn Hh] & ->). do 3 (split; [done|]). split; [lia|]. split; [done|].
    eexists (_, _). split; [by apply normalize_environment_iff|]. checks.
    split; [eapply check_order_perm; [|exact Ho]; symmetry; apply sort_by_perm|]. rewrite bind_ok_iff.
    eexists (_, _, _, _). split; [by apply normalize_files_iff|]. checks.
    rewrite validate_ports_iff, validate_volumes_iff, bind_ok_iff. split; [done|]. split; [done|].
    apply validate_binds_iff in Hb as [ids Hb]. exists ids. split; [done|]. checks.
    rewrite mount_conflicts_iff by by rewrite !length_map. rewrite file_leb_fst, described_fst. split; [done|].
    rewrite bind_ok_iff. unfold normalize_networks_with_issues. eexists (_, _).
    split; [checks; rewrite validate_network_inputs_iff; by split|]. checks. split; [done|].
    rewrite bind_ok_iff. by eexists.
Qed.
End canonical.
