(* ===== verification/DraftOrder.v ===== *)
(** * DraftOrder: the order of a request's entries does not matter

    [same_request] relates requests that differ only in how their lists are
    ordered; the condition [draft_ok] and the result [normalized] respect it. *)

From stdpp Require Import sets gmap sorting.
From S2P Require Import Prelude Text Reference Models Codec Names Drafts DraftSpec DraftResources DraftCanonical.
From stdpp Require Import list.

(** ** Lexicographic orders *)

Class Antisymmetric {A} (le : A -> A -> bool) : Prop :=
  le_antisym : forall x y, le x y = true -> le y x = true -> x = y.

#[export] Instance text_leb_anti : Antisymmetric text_leb.
Proof. intros x y. apply text_leb_antisym. Qed.

#[export] Instance Zleb_order : SortOrder Z.leb.
Proof. split; intros; rewrite ?Z.leb_le in *; lia. Qed.

#[export] Instance Zleb_anti : Antisymmetric Z.leb.
Proof. intros x y. rewrite !Z.leb_le. lia. Qed.

Lemma order_on {A K} (f : A -> K) (le : K -> K -> bool) `{!SortOrder le} : SortOrder (fun a b => le (f a) (f b)).
Proof. split; [intros; apply so_total|intros x y z; apply so_trans]. Qed.

(** First by the key [f], then by [rest]. *)
Definition lex {A K} `{EqDecision K} (f : A -> K) (le : K -> K -> bool) (rest : A -> A -> bool) (a b : A) : bool :=
  if f a ≠? f b then le (f a) (f b) else rest a b.

Section lex.
Context {A K : Type} `{EqDecision K} (f : A -> K) (le : K -> K -> bool) (rest : A -> A -> bool).
Context `{!SortOrder le, !Antisymmetric le, !SortOrder rest}.

Lemma lex_iff a b : lex f le rest a b = true <-> (f a <> f b /\ le (f a) (f b) = true) \/ (f a = f b /\ rest a b = true).
Proof. unfold lex. destruct (bool_decide_reflect (f a = f b)); simpl; tauto. Qed.

#[export] Instance lex_order : SortOrder (lex f le rest).
Proof.
  split.
  - intros x y. rewrite !lex_iff. destruct (decide (f x = f y)).
    + destruct (so_total (le := rest) x y); [left|right]; right; auto.
    + destruct (so_total (le := le) (f x) (f y)); [left|right]; left; auto.
  - intros x y z. rewrite !lex_iff. intros [[N1 L1]|[E1 R1]] [[N2 L2]|[E2 R2]].
    + left. split; [|by eapply so_trans]. intros E. apply N1. apply le_antisym; [done|]. by rewrite E.
    + left. rewrite <- E2. done.
    + left. rewrite E1. done.
    + right. split; [congruence|]. by eapply so_trans.
Qed.

Lemma lex_tie a b :
  lex f le rest a b = true -> lex f le rest b a = true -> f a = f b /\ rest a b = true /\ rest b a = true.
Proof.
  rewrite !lex_iff. intros [[N1 L1]|[E1 R1]] [[N2 L2]|[E2 R2]]; try done.
  destruct N1. by apply le_antisym.
Qed.
End lex.

Lemma port_leb_lex :
  port_leb = lex pi_host_ip text_leb (lex pi_host_port Z.leb
    (lex pi_protocol (fun p q => protocol_rank p <=? protocol_rank q)%Z
       (fun a b => pi_container_port a <=? pi_container_port b)%Z)).
Proof. reflexivity. Qed.

#[local] Instance protocol_order : SortOrder (fun p q => protocol_rank p <=? protocol_rank q)%Z.
Proof. apply (order_on protocol_rank Z.leb). Qed.
#[local] Instance protocol_anti : Antisymmetric (fun p q => protocol_rank p <=? protocol_rank q)%Z.
Proof. by intros [] []. Qed.
#[local] Instance container_port_order : SortOrder (fun a b => pi_container_port a <=? pi_container_port b)%Z.
Proof. apply (order_on pi_container_port Z.leb). Qed.

#[export] Instance port_leb_order : SortOrder port_leb.
Proof. rewrite port_leb_lex. apply _. Qed.

Lemma port_leb_tie a b : port_leb a b = true -> port_leb b a = true -> published_port a = published_port b.
Proof.
  rewrite port_leb_lex. intros H1 H2. destruct (lex_tie _ _ _ _ _ H1 H2) as (E1 & H3 & H4).
  destruct (lex_tie _ _ _ _ _ H3 H4) as (E2 & H5 & H6). destruct (lex_tie _ _ _ _ _ H5 H6) as (E3 & _ & _).
  unfold published_port. congruence.
Qed.

Lemma network_leb_lex :
  forall a b, network_leb a b = lex (fun n => (network_sort_key n).1) Z.leb
                (fun a b => text_leb (network_sort_key a).2 (network_sort_key b).2) a b.
Proof. by intros [|] [|]. Qed.

#[export] Instance network_leb_order : SortOrder network_leb.
Proof.
  destruct (lex_order (fun n => (network_sort_key n).1) Z.leb
              (fun a b => text_leb (network_sort_key a).2 (network_sort_key b).2)) as [Ht Htr].
  split; intros *; rewrite !network_leb_lex; [apply Ht|apply Htr].
Qed.

Lemma network_leb_tie a b :
  network_leb a b = true -> network_leb b a = true -> external_name a = external_name b.
Proof.
  destruct a as [|n aliases], b as [|m aliases']; try done. unfold network_leb. simpl. intros H1 H2.
  f_equal. by apply text_leb_antisym.
Qed.

#[export] Instance volume_leb_order : SortOrder volume_leb := key_order volume_sort_key.
#[export] Instance bind_leb_order : SortOrder bind_leb := key_order bm_target_path.
#[export] Instance descriptor_leb_order : SortOrder descriptor_leb := key_order mf_logical_name.
#[export] Instance public_leb_order : SortOrder public_leb := key_order pe_key.

(** ** Conditions *)

Lemma pairwise_NoDup {A} (R : A -> A -> Prop) l : (forall x, ~ R x x) -> pairwise R l -> NoDup l.
Proof.
  intros Hi. induction l as [|x l IH]; simpl; [constructor|]. intros [Hx Hl]. constructor; [|auto].
  intros Hin. rewrite Forall_forall in Hx. by eapply Hi, Hx.
Qed.

Lemma path_eqb_refl p : path_eqb p p = true.
Proof. unfold path_eqb. by apply bool_decide_eq_true. Qed.

Lemma targets_apart_irrefl t : ~ targets_apart t t.
Proof. unfold targets_apart, targets_overlap. by rewrite path_eqb_refl. Qed.

Lemma Forall2_perm_l {A B} (P : A -> B -> Prop) l l' k :
  l ≡ₚ l' -> Forall2 P l k -> exists k', Forall2 P l' k' /\ zip l k ≡ₚ zip l' k'.
Proof.
  intros Hp. revert k. induction Hp as [|x l l' Hp IH|x y l|l1 l2 l3 H1 IH1 H2 IH2]; intros k H.
  - by exists k.
  - apply Forall2_cons_inv_l in H as (b & k1 & Hx & Hl & ->). destruct (IH k1 Hl) as (k' & Hf & Hz).
    exists (b :: k'). split; [by constructor|]. simpl. by rewrite Hz.
  - apply Forall2_cons_inv_l in H as (b & k1 & Hx & Hl & ->). apply Forall2_cons_inv_l in Hl as (c & k2 & Hy & Hl & ->).
    exists (c :: b :: k2). split; [by repeat constructor|]. simpl. apply Permutation_swap.
  - destruct (IH1 k H) as (k1 & Hf1 & Hz1). destruct (IH2 k1 Hf1) as (k2 & Hf2 & Hz2).
    exists k2. split; [done|]. by rewrite Hz1.
Qed.

Lemma zip_with_zip_flip {A B C} (f : B -> A -> C) (l : list A) (k : list B) :
  zip_with f k l = map (fun p => f p.2 p.1) (zip l k).
Proof. revert k. induction l as [|x l IH]; intros [|y k]; try done. simpl. by rewrite IH. Qed.

Lemma binds_ok_perm host roots enforce bs bs' : bs ≡ₚ bs' -> binds_ok host roots enforce bs -> binds_ok host roots enforce bs'.
Proof.
  intros Hp [Hc Hr (ids & Hf & Hpl)]. split; [by rewrite <- Hp|..].
  - destruct Hr as [->|Hr]; [left; by apply Permutation_nil_l in Hp|by right].
  - destruct (Forall2_perm_l _ _ _ _ Hp Hf) as (ids' & Hf' & Hz). exists ids'. split; [done|]. intros He.
    specialize (Hpl He). rewrite zip_with_zip_flip in Hpl |- *.
    eapply pairwise_perm; [apply sources_apart_sym| |exact Hpl]. by rewrite Hz.
Qed.

Lemma ports_ok_perm ps ps' : ps ≡ₚ ps' -> ports_ok ps -> ports_ok ps'.
Proof. intros Hp (H1 & H2 & H3). unfold ports_ok. by rewrite <- Hp. Qed.

Lemma volumes_ok_perm vs vs' : vs ≡ₚ vs' -> volumes_ok vs -> volumes_ok vs'.
Proof. intros Hp (H1 & H2 & H3). unfold volumes_ok. by rewrite <- Hp. Qed.

Lemma list_to_set_perm (l l' : list string) : l ≡ₚ l' -> list_to_set l = (list_to_set l' : gset string).
Proof. intros Hp. apply leibniz_equiv. by rewrite Hp. Qed.

(** Requests with the same entries. *)
Record same_environment (a b : EnvironmentInput) : Prop := {
  sm_order : ei_order a = ei_order b;
  sm_public : ei_public a ≡ₚ ei_public b;
  sm_secrets : ei_secrets a ≡ₚ ei_secrets b;
}.

Lemma environment_ok_same a b existing : same_environment a b -> environment_ok a existing -> environment_ok b existing.
Proof.
  intros [_ Hp Hs] [H1 H2 H3 H4 H5 H6 H7]. split; unfold secrets_total.
  - by rewrite <- Hp, <- Hs.
  - by rewrite <- Hp.
  - by rewrite <- Hp.
  - rewrite <- Hs, <- (list_to_set_perm (map pe_key (ei_public a))) by by rewrite Hp. done.
  - by rewrite <- Hs.
  - rewrite <- (list_to_set_perm (map se_key (ei_secrets a))) by by rewrite Hs. done.
  - rewrite <- (sum_len_perm (map pe_value (ei_public a))) by by rewrite Hp.
    by rewrite <- (sum_len_perm (map snd (omap (secret_result existing) (ei_secrets a)))
                 (map snd (omap (secret_result existing) (ei_secrets b)))) by by rewrite Hs.
Qed.

Lemma secrets_keys_nodup existing es : NoDup (map se_key es) -> NoDup (omap (secret_result existing) es).*1.
Proof.
  induction es as [|e es IH]; simpl; [constructor|]. rewrite NoDup_cons. intros [Hn Hd].
  destruct (secret_result existing e) as [[k v]|] eqn:Hr; [|by apply IH]. apply secret_result_key in Hr as ->.
  simpl. constructor; [|by apply IH]. intros Hin. apply Hn. by eapply omap_secret_keys.
Qed.

Lemma secrets_of_perm existing es es' :
  NoDup (map se_key es) -> es ≡ₚ es' -> secrets_of existing es = secrets_of existing es'.
Proof. intros Hn Hp. apply list_to_map_proper; [by apply secrets_keys_nodup|by rewrite Hp]. Qed.

Lemma files_ok_perm items items' existing : items ≡ₚ items' -> files_ok items existing -> files_ok items' existing.
Proof.
  intros Hp [H1 H2 H3 H4 H5 H6 H7]. unfold secret_items, active_files in *. split; unfold secret_items, active_files.
  - by rewrite <- Hp.
  - by rewrite <- Hp.
  - by rewrite <- Hp.
  - by rewrite <- Hp.
  - by rewrite <- Hp.
  - rewrite <- (list_to_set_perm (map fi_logical_name (filter (fun item => fi_sensitive item = true) items)))
      by by rewrite Hp. done.
  - by rewrite <- (sum_len_perm (omap (file_value existing) items)) by by rewrite Hp.
Qed.

Lemma file_names_nodup b existing items :
  NoDup (map fi_logical_name (active_files existing items)) -> NoDup (omap (file_result b existing) items).*1.
Proof.
  induction items as [|i items IH]; [constructor|]. unfold active_files. rewrite filter_cons. intros Hn.
  cbn [omap list_omap]. destruct (file_result b existing i) as [[k v]|] eqn:Hr.
  - apply file_result_key in Hr as [-> Hs]. rewrite decide_True in Hn by done. cbn [map] in Hn.
    apply NoDup_cons in Hn as [Hni Hd]. simpl. constructor; [|by apply IH].
    intros Hin. by eapply Hni, file_result_names.
  - apply IH. destruct (decide _); [|done]. by apply NoDup_cons in Hn as [].
Qed.

Lemma files_of_perm b existing items items' :
  NoDup (map fi_logical_name (active_files existing items)) -> items ≡ₚ items' ->
  files_of b existing items = files_of b existing items'.
Proof. intros Hn Hp. apply list_to_map_proper; [by apply file_names_nodup|by rewrite Hp]. Qed.

Record same_request (a b : DraftInput) : Prop := {
  sr_environment : same_environment (di_environment a) (di_environment b);
  sr_files : di_files a ≡ₚ di_files b;
  sr_ports : di_ports a ≡ₚ di_ports b;
  sr_volumes : di_volumes a ≡ₚ di_volumes b;
  sr_binds : di_binds a ≡ₚ di_binds b;
  sr_networks : map sort_aliases (di_networks a) ≡ₚ map sort_aliases (di_networks b);
  sr_rest :
    (di_security_profile a, di_display_name a, di_discovery_image_ref a, di_credential_ref a,
     di_auto_deploy_enabled a, di_auto_deploy_acknowledged a, di_poll_interval_seconds a,
     di_stop_grace_period_seconds a, di_owned_default_network a, di_service_discovery_enabled a, di_health a)
    = (di_security_profile b, di_display_name b, di_discovery_image_ref b, di_credential_ref b,
     di_auto_deploy_enabled b, di_auto_deploy_acknowledged b, di_poll_interval_seconds b,
     di_stop_grace_period_seconds b, di_owned_default_network b, di_service_discovery_enabled b, di_health b);
}.

#[export] Instance same_request_symmetric : Symmetric same_request.
Proof. intros a b [[? ? ?] ? ? ? ? ? ?]. by repeat split. Qed.

Lemma files_sorted_same files files' existing :
  NoDup (map fi_logical_name (active_files existing files)) -> files ≡ₚ files' ->
  sort_by descriptor_leb (map file_descriptor (active_files existing files))
  = sort_by descriptor_leb (map file_descriptor (active_files existing files')).
Proof.
  intros Hn Hp. apply (sort_by_key_unique mf_logical_name).
  - by rewrite map_map.
  - unfold active_files. by rewrite Hp.
Qed.

Lemma draft_ok_same host roots enforce a b existing :
  same_request a b -> draft_ok host roots enforce a existing -> draft_ok host roots enforce b existing.
Proof.
  intros [He Hf Hp Hv Hb Hn Hr] [O1 O2 O3 O4 O5 O6 O7 O8 O9 O10 O11 O12 O13 O14].
  injection Hr as R1 R2 R3 R4 R5 R6 R7 R8 R9 R10 R11.
  split; try congruence.
  - by eapply environment_ok_same.
  - rewrite <- (sm_order _ _ He), <- (secrets_of_perm _ (ei_secrets (di_environment a))).
    + eapply check_order_perm; [by apply sm_public|done].
    + apply O6.
    + apply He.
  - by eapply files_ok_perm.
  - by eapply ports_ok_perm.
  - by eapply volumes_ok_perm.
  - by eapply binds_ok_perm.
  - unfold draft_files, mount_targets in *. rewrite <- (files_sorted_same (di_files a)) by (apply O8 || done).
    eapply pairwise_perm; [apply targets_apart_sym|by rewrite <- Hv, <- Hb|done].
  - apply networks_ok_sorted. apply networks_ok_sorted in O13. rewrite <- R9, <- R10. by eapply networks_ok_perm.
Qed.

(** ** Results *)

Lemma NoDup_omap_inj {A B} (f : A -> option B) l x y k :
  NoDup (omap f l) -> x ∈ l -> y ∈ l -> f x = Some k -> f y = Some k -> x = y.
Proof.
  induction l as [|z l IH]; [by intros _ ?%not_elem_of_nil|]. rewrite !elem_of_cons. cbn [omap list_omap].
  intros Hn Hx Hy Ex Ey. assert (NoDup (omap f l)) as Hn'.
  { destruct (f z); [by apply NoDup_cons in Hn as []|done]. }
  assert (f z = Some k -> forall w, w ∈ l -> f w = Some k -> False) as Hz.
  { intros Ez w Hw Ew. rewrite Ez in Hn. apply NoDup_cons in Hn as [Hni _]. apply Hni. apply list_elem_of_omap. eauto. }
  destruct Hx as [->|Hx], Hy as [->|Hy]; [done|by edestruct Hz|by edestruct Hz|]. by apply IH.
Qed.

Lemma ports_sorted_same ps ps' : ports_ok ps -> ps ≡ₚ ps' -> sort_by port_leb ps = sort_by port_leb ps'.
Proof.
  intros (_ & _ & Hn) Hp. apply (sort_by_unique port_leb); [|done]. intros x y Hx Hy H1 H2.
  eapply NoDup_map_inj; [done..|]. by apply port_leb_tie.
Qed.

Lemma volume_key_name v w : volume_sort_key v = volume_sort_key w -> volume_name v = volume_name w.
Proof. destruct v, w; simpl; congruence. Qed.

Lemma volumes_sorted_same vs vs' : volumes_ok vs -> vs ≡ₚ vs' -> sort_by volume_leb vs = sort_by volume_leb vs'.
Proof.
  intros (_ & _ & Hn) Hp. apply (sort_by_unique volume_leb); [|done]. intros x y Hx Hy H1 H2.
  eapply NoDup_map_inj; [done..|]. by apply volume_key_name, text_leb_antisym.
Qed.

Lemma networks_sorted_same owned discovery reserve ns ns' :
  networks_ok owned discovery reserve ns -> ns ≡ₚ ns' -> sort_by network_leb ns = sort_by network_leb ns'.
Proof.
  intros Hok Hp. apply (sort_by_unique network_leb); [|done]. intros x y Hx Hy H1 H2.
  pose proof (network_leb_tie _ _ H1 H2) as E. destruct (external_name x) as [k|] eqn:Ex.
  - eapply (NoDup_omap_inj external_name); [apply (no_nodup _ _ _ _ Hok)|done..].
  - by destruct x, y.
Qed.

Lemma bind_targets_nodup files volumes binds :
  pairwise targets_apart (mount_targets files volumes binds) -> NoDup (map bm_target_path binds).
Proof.
  intros H. apply (pairwise_NoDup _ _ targets_apart_irrefl) in H. unfold mount_targets in H.
  apply NoDup_app in H as (_ & _ & H). by apply NoDup_app in H as (_ & _ & H).
Qed.

Lemma normalized_same {CR : Crypto} canonical_json host roots enforce a b existing key :
  same_request a b -> draft_ok host roots enforce a existing ->
  normalized canonical_json a existing key = normalized canonical_json b existing key.
Proof.
  intros [He Hf Hp Hv Hb Hn Hr] [O1 O2 O3 O4 O5 O6 O7 O8 O9 O10 O11 O12 O13 O14].
  injection Hr as R1 R2 R3 R4 R5 R6 R7 R8 R9 R10 R11. unfold normalized, draft_files.
  rewrite <- R1, <- R2, <- R3, <- R4, <- R5, <- R6, <- R7, <- R8, <- R9, <- R10, <- R11.
  rewrite <- (sm_order _ _ He).
  rewrite <- (secrets_of_perm (es_environment existing) _ _ (eo_secrets_nodup _ _ O6) (sm_secrets _ _ He)).
  rewrite <- (files_sorted_same _ _ _ (fo_names _ _ O8) Hf).
  rewrite <- !(files_of_perm _ _ _ _ (fo_names _ _ O8) Hf).
  rewrite <- (ports_sorted_same _ _ O9 Hp), <- (volumes_sorted_same _ _ O10 Hv).
  assert (sort_by public_leb (ei_public (di_environment b)) = sort_by public_leb (ei_public (di_environment a))) as ->.
  { symmetry. apply (sort_by_key_unique pe_key); [apply O6|apply He]. }
  assert (sort_by bind_leb (di_binds b) = sort_by bind_leb (di_binds a)) as ->.
  { symmetry. apply (sort_by_key_unique bm_target_path); [by eapply bind_targets_nodup|done]. }
  rewrite <- (networks_sorted_same _ _ _ (map sort_aliases (di_networks a)) (map sort_aliases (di_networks b))
                (proj2 (networks_ok_sorted _ _ _ _) O13) Hn).
  done.
Qed.
