(* ===== verification/DraftStored.v ===== *)
(** * DraftStored: a normalised draft survives being stored and read back

    [stored] is the [LoadedRevision] that holds a draft's files. Its own request
    ([revision_input]: keep every secret) satisfies [draft_ok] again, and
    normalises to the draft it came from. *)

From stdpp Require Import sets gmap sorting.
From S2P Require Import Prelude Text Reference Models Codec Names Drafts DraftSpec DraftResources DraftCanonical DraftOrder.
From stdpp Require Import list.

(** ** Secrets *)

Definition keep (key : string) : SecretEnvInput := MkSecretEnvInput key OpKeep.

Lemma omap_length {A B} (f : A -> option B) l : length (omap f l) <= length l.
Proof. induction l as [|x l IH]; [done|]. cbn [omap list_omap]. destruct (f x); simpl; unfold omap in *; lia. Qed.

Lemma secrets_list existing es :
  NoDup (map se_key es) -> map_to_list (secrets_of existing es) ≡ₚ omap (secret_result existing) es.
Proof. intros H. by apply map_to_list_to_map, secrets_keys_nodup. Qed.

Lemma secrets_lookup existing es k v :
  NoDup (map se_key es) ->
  secrets_of existing es !! k = Some v <-> exists e, e ∈ es /\ secret_result existing e = Some (k, v).
Proof. intros H. by rewrite <- elem_of_map_to_list, secrets_list, list_elem_of_omap. Qed.

Lemma keep_all (m : gmap string string) l :
  Forall (fun p => m !! p.1 = Some p.2) l -> omap (secret_result m) (map keep (map fst l)) = l.
Proof.
  induction 1 as [|[k v] l Hk Hl IH]; [done|]. cbn [map omap list_omap fst]. unfold secret_result at 1, keep at 1. simpl in *.
  by rewrite Hk, IH.
Qed.

Lemma sorted_keys_perm (m : gmap string string) : sorted_keys m ≡ₚ map fst (map_to_list m).
Proof. apply sort_by_perm. Qed.

Lemma sorted_keys_nodup (m : gmap string string) : NoDup (sorted_keys m).
Proof. rewrite sorted_keys_perm. apply NoDup_fst_map_to_list. Qed.

Lemma elem_of_sorted_keys (m : gmap string string) k : k ∈ sorted_keys m <-> is_Some (m !! k).
Proof.
  rewrite sorted_keys_perm. split.
  - intros ([k' v] & -> & Hin%elem_of_map_to_list)%list_elem_of_fmap. by eexists.
  - intros [v Hv]. apply list_elem_of_fmap. exists (k, v). by rewrite elem_of_map_to_list.
Qed.

Lemma kept_list (m : gmap string string) : omap (secret_result m) (map keep (sorted_keys m)) ≡ₚ map_to_list m.
Proof.
  rewrite sorted_keys_perm, keep_all; [done|]. apply Forall_forall. intros [k v]. apply elem_of_map_to_list.
Qed.

Lemma map_se_key_keep ks : map se_key (map keep ks) = ks.
Proof. rewrite map_map. by apply map_id. Qed.

Lemma kept_secrets (m : gmap string string) : secrets_of m (map keep (sorted_keys m)) = m.
Proof.
  transitivity (list_to_map (map_to_list m) : gmap string string); [|apply list_to_map_to_list].
  apply list_to_map_proper; [|apply kept_list].
  apply secrets_keys_nodup. rewrite map_se_key_keep. apply sorted_keys_nodup.
Qed.

Lemma environment_stored input existing order :
  environment_ok input existing ->
  let m := secrets_of existing (ei_secrets input) in
  environment_ok (MkEnvironmentInput order (sort_by public_leb (ei_public input)) (map keep (sorted_keys m))) m.
Proof.
  intros [H1 H2 H3 H4 H5 H6 H7] m. pose proof (sort_by_perm public_leb (ei_public input)) as Hp.
  pose proof (secrets_list existing _ H5) as Hl. fold m in Hl.
  assert (length (sorted_keys m) <= length (ei_secrets input)) as Hlen.
  { rewrite sorted_keys_perm, length_map, Hl. apply omap_length. }
  split; unfold secrets_total; simpl; rewrite ?map_se_key_keep.
  - rewrite length_map, Hp. lia.
  - by rewrite Hp.
  - by rewrite Hp.
  - rewrite (list_to_set_perm _ (map pe_key (ei_public input))) by by rewrite Hp.
    apply Forall_fmap, Forall_forall. intros k [v Hk]%elem_of_sorted_keys. unfold compose, keep. pose proof Hk as Hin.
    apply secrets_lookup in Hin as (e & He & Hr); [|done]. pose proof (secret_result_key _ _ _ _ Hr) as ->.
    rewrite Forall_forall in H4. destruct (H4 e He) as (Hv & Hd & _). split; [done|]. split; [|by eexists].
    intros Hpub. unfold secret_result in Hr. by rewrite (Hd Hpub) in Hr.
  - apply sorted_keys_nodup.
  - intros k [v Hk]%elem_of_dom. rewrite elem_of_list_to_set. apply elem_of_sorted_keys. by eexists.
  - rewrite (sum_len_perm _ (map pe_value (ei_public input))) by by rewrite Hp.
    by rewrite (sum_len_perm (map snd (omap (secret_result m) (map keep (sorted_keys m))))
                 (map snd (omap (secret_result existing) (ei_secrets input)))) by by rewrite kept_list, Hl.
Qed.

(** ** Files *)

Definition stored_item (public secret : gmap string string) (file : ManagedFileMetadata) : ManagedFileInput :=
  MkManagedFileInput (mf_logical_name file) (mf_target_path file) (mf_sensitive file) true
    (if mf_sensitive file then SecretContent OpKeep
     else PublicContent (default EmptyString (public !! mf_logical_name file))).

Lemma active_values existing items : omap (file_value existing) (active_files existing items) = omap (file_value existing) items.
Proof.
  unfold active_files. induction items as [|i l IH]; [done|]. rewrite filter_cons. cbn [omap list_omap].
  destruct (file_value existing i) as [v|] eqn:Hv.
  - rewrite decide_True by by eexists. cbn [omap list_omap]. by rewrite Hv, IH.
  - rewrite decide_False by by intros [? ?]. done.
Qed.

Lemma active_result b existing items :
  omap (file_result b existing) (active_files existing items) = omap (file_result b existing) items.
Proof.
  unfold active_files. induction items as [|i l IH]; [done|]. rewrite filter_cons. cbn [omap list_omap].
  destruct (decide (is_Some (file_value existing i))) as [Hs|Hs].
  - cbn [omap list_omap]. by rewrite IH.
  - rewrite IH. unfold file_result at 2. destruct (file_value existing i); [by destruct Hs|]. by destruct (Bool.eqb _ _).
Qed.

Section files.
Context (items : list ManagedFileInput) (existing : gmap string string).
Hypothesis Hok : files_ok items existing.
Abbreviation public := (files_of false existing items).
Abbreviation secret := (files_of true existing items).
Abbreviation active := (active_files existing items).
Abbreviation again := (fun item => stored_item public secret (file_descriptor item)).

Lemma files_lookup b k v :
  files_of b existing items !! k = Some v <->
  exists item, item ∈ items /\ fi_sensitive item = b /\ fi_logical_name item = k /\ file_value existing item = Some v.
Proof.
  unfold files_of. rewrite <- elem_of_list_to_map by by apply file_names_nodup, Hok.
  rewrite list_elem_of_omap. apply exist_proper. intros item. apply and_iff_compat_l. unfold file_result.
  destruct (Bool.eqb _ _) eqn:Hb.
  - apply eqb_prop in Hb. destruct (file_value existing item) as [w|]; simpl; [|naive_solver]. split; [|naive_solver].
    by intros [= <- <-].
  - apply eqb_false_iff in Hb. naive_solver.
Qed.

Lemma active_iff item : item ∈ active <-> item ∈ items /\ is_Some (file_value existing item).
Proof. unfold active_files. rewrite list_elem_of_filter. tauto. Qed.

Lemma again_value item : item ∈ active -> file_value secret (again item) = file_value existing item.
Proof.
  intros [Hin [v Hv]]%active_iff. unfold file_value at 1. simpl.
  destruct (fi_sensitive item) eqn:Hs.
  - rewrite Hv. apply files_lookup. by exists item.
  - assert (public !! fi_logical_name item = Some v) as ->; [apply files_lookup; by exists item|]. done.
Qed.

Lemma again_descriptor item : file_descriptor (again item) = file_descriptor item.
Proof. done. Qed.

Lemma again_ok item : item ∈ active -> file_ok secret (again item).
Proof.
  intros Ha. pose proof (again_value item Ha) as Hval. apply active_iff in Ha as [Hin [v Hv]].
  pose proof (fo_items _ _ Hok) as Hall. rewrite Forall_forall in Hall.
  destruct (Hall item Hin) as (Hn & Ht & Hr & Hc). unfold file_ok. split; [done|]. split; [done|]. split; [done|].
  rewrite Hv in Hval. unfold file_content_ok, file_value in *. simpl in *.
  destruct (fi_sensitive item); destruct (fi_content item) as [c|op]; try done.
  - exists v. split; [done|]. destruct op as [|w|]; [|by simplify_eq; apply Hc|done].
    destruct Hc as (w & Hw & Hl). by simplify_eq.
  - injection Hval as ->. by injection Hv as ->.
Qed.

Lemma again_all l : Forall (fun i => i ∈ active) l -> active_files secret (map again l) = map again l.
Proof.
  induction 1 as [|i l Hi Hl IH]; [done|]. cbn [map]. unfold active_files in *. rewrite filter_cons, decide_True.
  - by rewrite IH.
  - rewrite again_value by done. apply active_iff in Hi. apply Hi.
Qed.

Lemma active_all : Forall (fun i => i ∈ active) active.
Proof. by apply Forall_forall. Qed.

Lemma again_values l :
  Forall (fun i => i ∈ active) l -> omap (file_value secret) (map again l) = omap (file_value existing) l.
Proof.
  induction 1 as [|i l Hi Hl IH]; [done|]. cbn [map omap list_omap]. rewrite again_value by done. by rewrite IH.
Qed.

Lemma again_result b l :
  Forall (fun i => i ∈ active) l -> omap (file_result b secret) (map again l) = omap (file_result b existing) l.
Proof.
  induction 1 as [|i l Hi Hl IH]; [done|]. cbn [map omap list_omap]. rewrite IH. unfold file_result at 1 3.
  rewrite again_value by done. done.
Qed.

(** The stored files, as a request. *)
Abbreviation stored_items := (map (stored_item public secret) (sort_by descriptor_leb (map file_descriptor active))).

Lemma stored_items_perm : stored_items ≡ₚ map again active.
Proof. by rewrite (sort_by_perm descriptor_leb), map_map. Qed.

Lemma again_files_ok : files_ok (map again active) secret.
Proof.
  pose proof (active_all) as Hall. split.
  - rewrite length_map. unfold active_files. etransitivity; [apply length_filter|apply Hok].
  - apply Forall_fmap, Forall_forall. intros i Hi. by apply again_ok.
  - assert (map fi_logical_name (map again active) = map fi_logical_name active) as E by by rewrite map_map.
    assert (NoDup (map fi_logical_name (map again active))) as Hn by (rewrite E; apply Hok).
    eapply sublist_NoDup; [exact Hn|]. apply (fmap_sublist fi_logical_name), sublist_filter.
  - rewrite again_all by done. rewrite map_map. apply Hok.
  - rewrite again_all by done. rewrite map_map. apply Hok.
  - intros k [v Hv]%elem_of_dom. apply files_lookup in Hv as (item & Hin & Hs & <- & Hv).
    rewrite elem_of_list_to_set. apply list_elem_of_fmap. exists (again item). split; [done|].
    apply list_elem_of_filter. split; [done|]. apply (list_elem_of_fmap_2 again), active_iff. by split; [|eexists].
  - rewrite again_values, active_values by done. apply Hok.
Qed.

Lemma stored_files_ok : files_ok stored_items secret.
Proof. eapply files_ok_perm; [symmetry; apply stored_items_perm|apply again_files_ok]. Qed.

Lemma stored_files_of b : files_of b secret stored_items = files_of b existing items.
Proof.
  rewrite (files_of_perm _ _ _ _ (fo_names _ _ stored_files_ok) stored_items_perm).
  unfold files_of at 1. by rewrite again_result, active_result by apply active_all.
Qed.

Lemma stored_descriptors :
  sort_by descriptor_leb (map file_descriptor (active_files secret stored_items))
  = sort_by descriptor_leb (map file_descriptor active).
Proof.
  rewrite (files_sorted_same _ _ _ (fo_names _ _ stored_files_ok) stored_items_perm), again_all by apply active_all.
  by rewrite map_map.
Qed.
End files.

(** ** The whole revision *)

Definition stored (d : NormalizedDraft) : LoadedRevision :=
  MkLoadedRevision (nd_metadata d) (nd_public_environment d) (nd_public_files d)
    (MkExistingSecrets (nd_secret_environment d) (nd_secret_files d)
       (list_to_map (map (fun f => (mf_logical_name f, f)) (nd_files d)))).

(** The draft without the acknowledgement a request carries. *)
Definition unacknowledged (d : NormalizedDraft) : NormalizedDraft :=
  MkNormalizedDraft (nd_security_profile d) (nd_display_name d) (nd_discovery_image_ref d) (nd_credential_ref d)
    (nd_auto_deploy_enabled d) false (nd_poll_interval_seconds d)
    (nd_stop_grace_period_seconds d) (nd_public_environment d) (nd_secret_environment d) (nd_files d)
    (nd_public_files d) (nd_secret_files d) (nd_ports d) (nd_volumes d) (nd_binds d)
    (nd_owned_default_network d) (nd_service_discovery_enabled d) (nd_networks d) (nd_health d) (nd_metadata d).

Section stored.
Context {CR : Crypto}.
Context (canonical_json : ConfigMetadata -> list PublicEnvInput -> gmap string string -> string).

Lemma stored_integrity input existing key :
  let d := normalized canonical_json input existing key in
  verify_config_integrity canonical_json (nd_metadata d) (nd_public_environment d) (nd_public_files d)
    (lv_secrets (stored d)) key = Ok tt.
Proof.
  unfold verify_config_integrity, canonical_non_secret, normalized. simpl. checks.
  by repeat split.
Qed.

Lemma draft_ok_enforce host roots enforce input existing :
  draft_ok host roots enforce input existing -> draft_ok host roots false input existing.
Proof. intros [? ? ? ? ? ? ? ? ? ? [? ? (ids & ? & _)] ? ? ?]. split; try done. split; try done. by exists ids. Qed.

Lemma sort_aliases_idem n : sort_aliases (sort_aliases n) = sort_aliases n.
Proof. destruct n; [done|]. simpl. by rewrite (sort_by_idem text_leb). Qed.

Lemma sorted_networks_aliases ns :
  map sort_aliases (sort_by network_leb (map sort_aliases ns)) = sort_by network_leb (map sort_aliases ns).
Proof.
  etransitivity; [|apply map_id]. apply map_ext_in. intros n Hn%list_elem_of_In. rewrite (sort_by_perm network_leb) in Hn.
  apply list_elem_of_fmap in Hn as (m & -> & _). apply sort_aliases_idem.
Qed.

Section input.
Context (host : BindHost) (roots : list string) (enforce : bool) (input : DraftInput) (existing : ExistingSecrets).
Context (key : string).
Hypothesis Hok : draft_ok host roots enforce input existing.
Abbreviation d := (normalized canonical_json input existing key).
Abbreviation again := (revision_input (stored d) (nd_display_name d) (nd_discovery_image_ref d)
                         (nd_credential_ref d) (nd_auto_deploy_enabled d) (nd_poll_interval_seconds d)).

Lemma display_name_trimmed : trim (di_display_name input) = di_display_name input.
Proof.
  pose proof (do_display _ _ _ _ _ Hok) as H. unfold validate_display_name in H.
  rewrite !andb_true_iff, bool_decide_eq_true in H. tauto.
Qed.

Lemma stored_draft_files : draft_files again (lv_secrets (stored d)) = draft_files input existing.
Proof. exact (stored_descriptors _ _ (do_files _ _ _ _ _ Hok)). Qed.

Lemma stored_draft_ok : draft_ok host roots false again (lv_secrets (stored d)).
Proof.
  destruct (draft_ok_enforce _ _ _ _ _ Hok) as [O1 O2 O3 O4 O5 O6 O7 O8 O9 O10 O11 O12 O13 O14].
  split; try done.
  - simpl. by rewrite display_name_trimmed.
  - by apply environment_stored.
  - simpl. change (map _ (sorted_keys ?m)) with (map keep (sorted_keys m)). rewrite kept_secrets.
    eapply check_order_perm; [|exact O7]. symmetry. apply sort_by_perm.
  - by apply stored_files_ok.
  - eapply ports_ok_perm; [|exact O9]. symmetry. apply sort_by_perm.
  - eapply volumes_ok_perm; [|exact O10]. symmetry. apply sort_by_perm.
  - eapply binds_ok_perm; [|exact O11]. symmetry. apply sort_by_perm.
  - rewrite stored_draft_files. unfold mount_targets in *. simpl. eapply pairwise_perm; [apply targets_apart_sym| |exact O12].
    by rewrite (sort_by_perm volume_leb), (sort_by_perm bind_leb).
  - simpl. eapply networks_ok_perm; [symmetry; apply sort_by_perm|]. by apply networks_ok_sorted.
Qed.

Lemma stored_normalized : normalized canonical_json again (lv_secrets (stored d)) key = unacknowledged d.
Proof.
  pose proof (do_files _ _ _ _ _ Hok) as Hf. unfold normalized at 1. unfold draft_files.
  cbn [revision_input di_security_profile di_display_name di_discovery_image_ref di_credential_ref
    di_auto_deploy_enabled di_auto_deploy_acknowledged di_poll_interval_seconds di_stop_grace_period_seconds
    di_environment di_files di_ports di_volumes di_binds di_owned_default_network di_service_discovery_enabled
    di_networks di_health ei_order ei_public ei_secrets lv_secrets stored lv_metadata lv_public_environment
    lv_public_files es_environment es_files].
  unfold normalized.
  cbn [nd_metadata nd_public_environment nd_secret_environment nd_files nd_public_files nd_secret_files
    nd_display_name nd_discovery_image_ref nd_credential_ref nd_auto_deploy_enabled nd_poll_interval_seconds
    with_hash cm_security_profile cm_stop_grace_period_seconds cm_environment_order cm_secret_keys cm_files cm_ports
    cm_volumes cm_binds cm_owned_default_network cm_service_discovery_enabled cm_networks cm_health].
  change (map (fun k => MkSecretEnvInput k OpKeep)) with (map keep).
  change (map (fun file => MkManagedFileInput _ _ _ true _))
    with (map (stored_item (files_of false (es_files existing) (di_files input))
                           (files_of true (es_files existing) (di_files input)))).
  unfold draft_files. rewrite (stored_descriptors _ _ Hf), !(stored_files_of _ _ Hf), kept_secrets.
  rewrite !sort_by_idem by apply _. rewrite sorted_networks_aliases, sort_by_idem by apply _.
  by rewrite display_name_trimmed, display_name_trimmed.
Qed.
End input.
End stored.
