(* ===== verification/DraftTheorems.v ===== *)
(** * DraftTheorems: what a normalised configuration guarantees

    The claims about [normalize_draft_with_options], each read off
    [normalize_iff] and the lemmas of [DraftOrder] and [DraftStored], with the
    concrete request on which their hypotheses are seen to hold. *)

From stdpp Require Import sets gmap sorting.
From S2P Require Import Prelude Text Reference Models Codec Names Drafts DraftSpec DraftResources DraftCanonical DraftOrder DraftStored.
From Stdlib Require Import Ascii.
From stdpp Require Import list.

(** ** The invariant of stored configurations *)

(** A managed file has content in the map of its class, and only there. *)
Definition file_has_content (d : NormalizedDraft) (f : ManagedFileMetadata) : Prop :=
  validate_logical_name (mf_logical_name f) = true /\ validate_container_target (mf_target_path f) = true
  /\ mf_readonly f = true
  /\ is_Some ((if mf_sensitive f then nd_secret_files d else nd_public_files d) !! mf_logical_name f)
  /\ (if mf_sensitive f then nd_public_files d else nd_secret_files d) !! mf_logical_name f = None.

(** The name of a preinstalled profile; it never switches the confinement off. *)
Definition profile_ok (profile : string) : Prop :=
  1 <= String.length profile <= 48 /\ is_some_and (first_byte profile) is_ascii_lowercase = true
  /\ str_all (fun b => is_ascii_lowercase b || is_ascii_digit b || char_eqb b "-"%char) profile = true
  /\ profile <> "unconfined".

(** A health policy within its bounds: a check only asks the container itself. *)
Definition health_ok (policy : HealthPolicy) : Prop :=
  match policy with
  | Healthy None | Completed => True
  | Running stable_window_seconds => (5 <= stable_window_seconds <= 300)%Z
  | Disabled acknowledge_reduced_safety => acknowledge_reduced_safety = true
  | Healthy (Some http) =>
      hh_scheme http = "http" /\ hh_host http ∈ ["127.0.0.1"; "localhost"; "::1"] /\ hh_port http <> 0%Z
      /\ (exists rest, hh_path http = String "/" rest) /\ has_control (hh_path http) = false
      /\ (1 <= hh_interval_seconds http <= 300)%Z /\ (1 <= hh_timeout_seconds http <= 60)%Z
      /\ (1 <= hh_retries http <= 10)%Z /\ (0 <= hh_start_period_seconds http <= 300)%Z
  end.

Record well_formed (d : NormalizedDraft) : Prop := {
  wf_ranges : (60 <= nd_poll_interval_seconds d <= 86400)%Z
              /\ (1 <= nd_stop_grace_period_seconds d <= MAX_STOP_GRACE_PERIOD_SECONDS)%Z
              /\ 1 <= char_count (nd_display_name d) <= 80;
  wf_public : Forall public_ok (nd_public_environment d);
  wf_public_sorted : StronglySorted (fun a b => text_ltb (pe_key a) (pe_key b) = true) (nd_public_environment d);
  wf_secret_keys : forall k, is_Some (nd_secret_environment d !! k) ->
                     validate_env_key k = true /\ k ∉ map pe_key (nd_public_environment d);
  wf_environment_count : length (nd_public_environment d) + size (nd_secret_environment d) <= MAX_ENV_ENTRIES;
  wf_order : forall order, cm_environment_order (nd_metadata d) = Some order ->
               order ≡ₚ map pe_key (nd_public_environment d) ++ sorted_keys (nd_secret_environment d);
  wf_files : Forall (file_has_content d) (nd_files d);
  wf_files_sorted : StronglySorted (fun a b => text_ltb (mf_logical_name a) (mf_logical_name b) = true) (nd_files d);
  wf_contents : forall name content, nd_public_files d !! name = Some content \/ nd_secret_files d !! name = Some content ->
                  name ∈ map mf_logical_name (nd_files d) /\ (len content <= MAX_FILE_BYTES)%Z;
  wf_ports : ports_ok (nd_ports d);
  wf_volumes : volumes_ok (nd_volumes d);
  wf_binds : Forall (fun b => validate_container_target (bm_target_path b) = true
                      /\ (bm_readonly b = true \/ bm_acknowledge_non_rollbackable b = true)) (nd_binds d);
  wf_mounts : pairwise targets_apart (mount_targets (nd_files d) (nd_volumes d) (nd_binds d));
  wf_networks : networks_ok (nd_owned_default_network d) (nd_service_discovery_enabled d) true (nd_networks d);
  wf_health : health_ok (nd_health d);
  wf_profile : forall profile, nd_security_profile d = Some profile -> profile_ok profile;
}.

(** ** Lemmas *)

Lemma starts_with_slash s : starts_with "/" s = true -> exists rest, s = String "/" rest.
Proof. destruct s as [|c s]; [done|]. unfold starts_with, String.prefix. destruct (ascii_dec _ c) as [<-|]; [eauto|done]. Qed.

Lemma validate_health_ok policy : validate_health policy = Ok tt -> health_ok policy.
Proof.
  destruct policy as [[http|]|window| |acknowledged]; simpl; try done.
  - checks. rewrite !check_range_iff. intros (H1 & H2 & H3 & H4 & H5 & H6 & H7 & H8). destruct H4 as [H4 H4'].
    rewrite !orb_true_iff, !bool_decide_eq_true in H2. split; [done|]. split; [set_solver|]. split; [done|].
    split; [by apply starts_with_slash|]. done.
  - by rewrite check_range_iff.
  - checks. by destruct acknowledged.
Qed.

Lemma security_profile_ok profile : security_profile_bad profile = false -> profile_ok profile.
Proof.
  unfold security_profile_bad, profile_ok. intros H. bools. rewrite Nat.ltb_ge in *.
  split; [|done]. destruct profile; [done|]. simpl in *. lia.
Qed.

Lemma strictly_sorted {A} (f : A -> string) l :
  StronglySorted (fun a b => text_leb (f a) (f b) = true) l -> NoDup (map f l) ->
  StronglySorted (fun a b => text_ltb (f a) (f b) = true) l.
Proof.
  induction 1 as [|x l Hl IH Hx]; [constructor|]. cbn [map]. rewrite NoDup_cons. intros [Hn Hd]. constructor; [auto|].
  rewrite Forall_forall in Hx |- *. intros y Hy. specialize (Hx y Hy). apply text_leb_iff in Hx as [E|]; [|done].
  destruct Hn. rewrite E. by apply list_elem_of_fmap_2.
Qed.

Lemma sort_by_strict {A} (f : A -> string) l :
  NoDup (map f l) ->
  StronglySorted (fun a b => text_ltb (f a) (f b) = true) (sort_by (fun a b => text_leb (f a) (f b)) l).
Proof.
  intros Hn. apply strictly_sorted; [apply (sort_by_sorted (fun a b => text_leb (f a) (f b)))|].
  by rewrite (sort_by_perm (fun a b => text_leb (f a) (f b))).
Qed.

(** A list as long as the set of its elements repeats nothing. *)
Lemma NoDup_by_size (l : list string) : length l <= size (list_to_set l : gset string) -> NoDup l.
Proof.
  induction l as [|x l IH]; simpl; [constructor|]. intros Hs.
  assert (size (list_to_set l : gset string) <= length l) as Hl.
  { clear. induction l as [|y l IH]; [done|]; cbn [list_to_set length].
    rewrite size_union_alt, size_singleton.
    assert (size (list_to_set l ∖ {[y]} : gset string) <= size (list_to_set l : gset string)); [|lia].
    apply subseteq_size. set_solver. }
  destruct (decide (x ∈ l)) as [Hin|Hnin].
  - exfalso. assert ({[x]} ∪ list_to_set l = (list_to_set l : gset string)) as E by set_solver. rewrite E in Hs. lia.
  - constructor; [done|]. apply IH. rewrite size_union, size_singleton in Hs by set_solver. lia.
Qed.

Lemma check_order_iff order public secret :
  NoDup (map pe_key public) -> (forall k, is_Some (secret !! k) -> k ∉ map pe_key public) ->
  check_order (Some order) public secret = Ok tt -> order ≡ₚ map pe_key public ++ sorted_keys secret.
Proof.
  intros Hp Hd. unfold check_order. checks. rewrite Nat.eqb_eq. intros [Hlen Hset].
  apply NoDup_Permutation.
  - apply NoDup_by_size. rewrite Hset. lia.
  - apply NoDup_app. split; [done|]. split; [|apply sorted_keys_nodup].
    intros k Hk Hs%elem_of_sorted_keys. by apply (Hd k).
  - intros k. rewrite elem_of_app, elem_of_sorted_keys, <- elem_of_dom, <- (elem_of_list_to_set (C := gset string)), Hset.
    by rewrite elem_of_union, elem_of_list_to_set.
Qed.

Section claims.
Context {CR : Crypto}.
Context (canonical_json : ConfigMetadata -> list PublicEnvInput -> gmap string string -> string).
Context (host : BindHost) (roots : list string) (enforce : bool) (input : DraftInput) (existing : ExistingSecrets).
Context (key : string).
Hypothesis Hok : draft_ok host roots enforce input existing.
Abbreviation d := (normalized canonical_json input existing key).
Abbreviation env := (do_environment _ _ _ _ _ Hok).
Abbreviation fil := (do_files _ _ _ _ _ Hok).

Lemma public_perm : nd_public_environment d ≡ₚ ei_public (di_environment input).
Proof. apply sort_by_perm. Qed.

Lemma secret_keys_valid k :
  is_Some (nd_secret_environment d !! k) -> validate_env_key k = true /\ k ∉ map pe_key (nd_public_environment d).
Proof.
  intros [v Hv]. apply secrets_lookup in Hv as (e & He & Hr); [|apply env].
  pose proof (secret_result_key _ _ _ _ Hr) as ->. pose proof (eo_secrets _ _ env) as Hs. rewrite Forall_forall in Hs.
  destruct (Hs e He) as (Hk & Hd & _). split; [done|]. rewrite public_perm, <- (elem_of_list_to_set (C := gset string)).
  intros Hin. unfold secret_result in Hr. by rewrite (Hd Hin) in Hr.
Qed.

Lemma secret_size : size (nd_secret_environment d) <= length (ei_secrets (di_environment input)).
Proof.
  rewrite <- length_map_to_list. simpl. rewrite secrets_list by apply env. apply omap_length.
Qed.

Lemma draft_file_item f :
  f ∈ nd_files d ->
  exists item, item ∈ di_files input /\ f = file_descriptor item /\ is_Some (file_value (es_files existing) item).
Proof.
  simpl. unfold draft_files. rewrite (sort_by_perm descriptor_leb). intros (item & -> & Hin)%list_elem_of_fmap.
  apply active_iff in Hin as [? ?]. eauto.
Qed.

Lemma item_file_ok item : item ∈ di_files input -> file_ok (es_files existing) item.
Proof. pose proof (fo_items _ _ fil) as Hall. rewrite Forall_forall in Hall. apply Hall. Qed.

Lemma other_map_empty item b :
  item ∈ di_files input -> is_Some (file_value (es_files existing) item) -> fi_sensitive item <> b ->
  files_of b (es_files existing) (di_files input) !! fi_logical_name item = None.
Proof.
  intros Hin Hs Hb. apply eq_None_not_Some. intros [v (item' & Hin' & Hb' & Hn & Hv)%files_lookup]; [|apply fil].
  assert (item' = item) as ->; [|done].
  eapply NoDup_map_inj; [apply (fo_names _ _ fil)|by apply active_iff; eauto..|done].
Qed.

Lemma draft_file_content f : f ∈ nd_files d -> file_has_content d f.
Proof.
  intros (item & Hin & -> & Hs)%draft_file_item. destruct (item_file_ok item Hin) as (Hn & Ht & _ & _).
  split; [done|]. split; [done|]. split; [done|]. cbn [file_descriptor mf_sensitive mf_logical_name].
  pose proof Hs as [v Hv].
  destruct (fi_sensitive item) eqn:Hb; (split; [exists v; apply files_lookup; [apply fil|by exists item]|]);
    apply other_map_empty; try done; congruence.
Qed.

Lemma file_value_bounded item v :
  item ∈ di_files input -> file_value (es_files existing) item = Some v -> (len v <= MAX_FILE_BYTES)%Z.
Proof.
  intros (_ & _ & _ & Hc)%item_file_ok. unfold file_value, file_content_ok in *.
  destruct (fi_sensitive item), (fi_content item) as [c|[|w|]]; try done.
  - destruct Hc as (w & -> & Hl). by intros [= ->].
  - intros [= ->]. apply Hc.
  - intros [= ->]. apply Hc.
Qed.

Lemma draft_contents name content :
  nd_public_files d !! name = Some content \/ nd_secret_files d !! name = Some content ->
  name ∈ map mf_logical_name (nd_files d) /\ (len content <= MAX_FILE_BYTES)%Z.
Proof.
  assert (forall b, files_of b (es_files existing) (di_files input) !! name = Some content ->
            name ∈ map mf_logical_name (nd_files d) /\ (len content <= MAX_FILE_BYTES)%Z) as H.
  2:{ intros [Hp|Hs]; [by apply (H false)|by apply (H true)]. }
  intros b (item & Hin & _ & <- & Hv)%files_lookup; [|apply fil]. split; [|by eapply file_value_bounded].
  simpl. unfold draft_files. rewrite (sort_by_perm descriptor_leb), map_map.
  apply (list_elem_of_fmap_2 fi_logical_name). apply active_iff. by split; [|eexists].
Qed.

Lemma draft_binds :
  Forall (fun b => validate_container_target (bm_target_path b) = true
            /\ (bm_readonly b = true \/ bm_acknowledge_non_rollbackable b = true)) (nd_binds d).
Proof.
  destruct (do_binds _ _ _ _ _ Hok) as [_ _ (ids & Hf & _)]. simpl. rewrite (sort_by_perm bind_leb).
  apply Forall_forall. intros b [i Hb]%list_elem_of_lookup_1. destruct (Forall2_lookup_l _ _ _ _ _ Hf Hb) as (x & _ & H).
  destruct H as (? & ? & _). done.
Qed.

Lemma normalized_well_formed : well_formed d.
Proof.
  destruct Hok as [O1 O2 O3 O4 O5 O6 O7 O8 O9 O10 O11 O12 O13 O14]. split.
  - split; [done|]. split; [done|]. simpl. rewrite (display_name_trimmed _ _ _ _ _ Hok).
    unfold validate_display_name in O2. rewrite !andb_true_iff, !Nat.leb_le in O2. tauto.
  - rewrite public_perm. apply O6.
  - apply (sort_by_strict pe_key), O6.
  - apply secret_keys_valid.
  - rewrite public_perm. pose proof secret_size. pose proof (eo_count _ _ O6). lia.
  - intros order Ho. apply check_order_iff.
    + rewrite public_perm. apply O6.
    + intros k Hk. by apply secret_keys_valid.
    + rewrite <- Ho. eapply check_order_perm; [symmetry; apply public_perm|exact O7].
  - apply Forall_forall. apply draft_file_content.
  - apply (sort_by_strict mf_logical_name). rewrite map_map. apply O8.
  - apply draft_contents.
  - eapply ports_ok_perm; [symmetry; apply sort_by_perm|done].
  - eapply volumes_ok_perm; [symmetry; apply sort_by_perm|done].
  - apply draft_binds.
  - eapply pairwise_perm; [apply targets_apart_sym| |exact O12]. unfold mount_targets. simpl.
    by rewrite (sort_by_perm volume_leb), (sort_by_perm bind_leb).
  - simpl. eapply networks_ok_perm; [symmetry; apply sort_by_perm|]. by apply networks_ok_sorted.
  - by apply validate_health_ok.
  - simpl. intros profile Hp. apply security_profile_ok. by rewrite Hp in O1.
Qed.
End claims.

(** ** Binds *)

(** Every path that [no_symlinks] asks about. *)
Fixpoint ancestors (current : string) (rest : list Component) : list string :=
  match rest with [] => [] | c :: rest' => path_push current c :: ancestors (path_push current c) rest' end.

Lemma no_symlinks_iff host current rest :
  no_symlinks host current rest = Ok tt <-> Forall (fun p => bh_is_symlink host p = Some false) (ancestors current rest).
Proof.
  revert current. induction rest as [|c rest IH]; intros current; simpl; [by split|].
  rewrite bind_ok_iff, Forall_cons. setoid_rewrite ok_or_iff. setoid_rewrite then_ok_iff. setoid_rewrite refuse_if_iff.
  setoid_rewrite IH. naive_solver.
Qed.

(** The source is strictly below an allowed root, as written and once resolved;
    no component of it is a link; it is none of the host's own directories. *)
Record confined (host : BindHost) (roots : list string) (source : string) (identity : BindIdentity) : Prop := {
  cf_root : exists root canonical_root, root ∈ roots
    /\ components root `prefix_of` components source /\ components root <> components source
    /\ bh_canonicalize host root = Some canonical_root
    /\ components canonical_root `prefix_of` components (bi_path identity)
    /\ components canonical_root <> components (bi_path identity);
  cf_absolute : is_absolute source = true /\ ParentDir ∉ components source;
  cf_links : Forall (fun p => bh_is_symlink host p = Some false) (ancestors "/" (drop 1 (components source)));
  cf_resolved : bh_canonicalize host source = Some (bi_path identity)
    /\ bh_metadata host (bi_path identity) = Some (true, bi_device identity, bi_inode identity);
  cf_sensitive : Forall (fun s => components s <> components source
                   /\ (components s <> components "/" -> ~ components s `prefix_of` components source)) SENSITIVE;
}.

Lemma has_dot_parent p : has_dot_component p = false -> ParentDir ∉ components p.
Proof.
  unfold has_dot_component. rewrite existsb_false, Forall_forall. intros H Hin. by specialize (H _ Hin).
Qed.

Lemma sensitive_apart source :
  existsb (fun sensitive => path_eqb source sensitive
             || (negb (path_eqb sensitive "/") && path_starts_with source sensitive)) SENSITIVE = false ->
  Forall (fun s => components s <> components source
    /\ (components s <> components "/" -> ~ components s `prefix_of` components source)) SENSITIVE.
Proof.
  rewrite existsb_false. intros H. eapply Forall_impl; [exact H|]. intros s. unfold path_eqb, path_starts_with.
  rewrite orb_false_iff, andb_false_iff, negb_false_iff, bool_decide_eq_true, !bool_decide_eq_false. naive_solver.
Qed.

Lemma validate_bind_source_confined host source roots identity :
  validate_bind_source host source roots = Ok identity -> confined host roots source identity.
Proof.
  unfold validate_bind_source. checks. rewrite bind_ok_iff. intros ([Ha Hd] & Hs & root & Hroot & H).
  apply ok_or_iff, fmap_Some in Hroot as ([i r] & (Hi & Hr & _)%list_find_Some & ->). simpl in *.
  revert H. checks. rewrite bind_ok_iff. intros (Hl & canonical & Hc & H). apply ok_or_iff in Hc.
  apply bind_ok_iff in H as (canonical_root & Hcr & H). apply ok_or_iff in Hcr. revert H. checks.
  rewrite bind_ok_iff. unfold path_eqb, path_starts_with in Hr |- *. rewrite bool_decide_eq_true, bool_decide_eq_false.
  intros ([Hne Hpre] & [[dir dev] ino] & Hm & H). apply ok_or_iff in Hm. revert H. checks. intros [-> <-].
  rewrite andb_true_iff, negb_true_iff, bool_decide_eq_false, bool_decide_eq_true in Hr. destruct Hr as [Hrn Hrp].
  split; simpl.
  - exists r, canonical_root. apply list_elem_of_lookup_2 in Hi. repeat (split; [done || congruence|]). congruence.
  - split; [done|]. by apply has_dot_parent.
  - by apply no_symlinks_iff.
  - done.
  - by apply sensitive_apart.
Qed.

(** ** Secrets *)

Definition operation_gives (existing : gmap string string) (key : string) (operation : SecretOperation) (v : string) : Prop :=
  operation = OpReplace v \/ (operation = OpKeep /\ existing !! key = Some v).

Lemma secret_result_gives existing e k v :
  secret_result existing e = Some (k, v) <-> se_key e = k /\ operation_gives existing k (se_operation e) v.
Proof.
  unfold secret_result, operation_gives. destruct (se_operation e); [|naive_solver..].
  destruct (existing !! se_key e) eqn:E; simpl; naive_solver.
Qed.

Lemma file_value_gives existing item v :
  file_ok existing item -> fi_sensitive item = true ->
  file_value existing item = Some v <->
  exists op, fi_content item = SecretContent op /\ operation_gives existing (fi_logical_name item) op v.
Proof.
  intros (_ & _ & _ & Hc) Hs. unfold file_content_ok, file_value, operation_gives in *. rewrite Hs in Hc.
  destruct (fi_content item) as [c|[|w|]]; naive_solver.
Qed.

(** ** Claims *)

Section theorems.
Context {CR : Crypto}.
Context (canonical_json : ConfigMetadata -> list PublicEnvInput -> gmap string string -> string).
Abbreviation normalize := (normalize_draft_with_options canonical_json).

(** C25: a draft that is accepted is well formed: intervals and names in range,
    environment keys valid, unique, sorted and not both public and secret, an
    explicit order listing each active key once, every managed file with valid
    name and target and content in exactly the map of its class, ports on
    loopback and published once, no two mounts at overlapping targets, networks
    and health policy valid. *)
Theorem normalized_draft_well_formed host input existing key roots enforce d :
  normalize host input existing key roots enforce = Ok d -> well_formed d.
Proof. intros [Hok ->]%normalize_iff. by eapply normalized_well_formed. Qed.

(** C26: the order of a request's entries does not matter: requests with the
    same environment entries, files, ports, volumes, binds and networks (and
    aliases) in any order are accepted alike and give the same draft, with the
    same hash. *)
Theorem normalization_order_insensitive host a b existing key roots enforce d :
  same_request a b ->
  normalize host a existing key roots enforce = Ok d <-> normalize host b existing key roots enforce = Ok d.
Proof.
  intros Hs. rewrite !normalize_iff. split; intros [Hok ->].
  - split; [by eapply draft_ok_same|by eapply normalized_same].
  - symmetry in Hs. split; [by eapply draft_ok_same|by eapply normalized_same].
Qed.

(** C27: secrets change only as the request says: a secret of an accepted draft
    is the replacement the request gives or the stored value it keeps, every
    such operation takes effect, and no stored secret is left without an
    operation (likewise for secret files). *)
Theorem secret_operations_applied host input existing key roots enforce d :
  normalize host input existing key roots enforce = Ok d ->
  (forall k v, nd_secret_environment d !! k = Some v <->
     exists e, e ∈ ei_secrets (di_environment input) /\ se_key e = k
       /\ operation_gives (es_environment existing) k (se_operation e) v)
  /\ (forall k v, nd_secret_files d !! k = Some v <->
     exists item op, item ∈ di_files input /\ fi_sensitive item = true /\ fi_logical_name item = k
       /\ fi_content item = SecretContent op /\ operation_gives (es_files existing) k op v)
  /\ (forall k, is_Some (es_environment existing !! k) -> exists e, e ∈ ei_secrets (di_environment input) /\ se_key e = k)
  /\ (forall k, is_Some (es_files existing !! k) ->
        exists item, item ∈ di_files input /\ fi_sensitive item = true /\ fi_logical_name item = k).
Proof.
  intros [Hok ->]%normalize_iff. pose proof (do_environment _ _ _ _ _ Hok) as He. pose proof (do_files _ _ _ _ _ Hok) as Hf.
  split; [|split; [|split]]; simpl.
  - intros k v. rewrite secrets_lookup by apply He. by setoid_rewrite secret_result_gives.
  - intros k v. rewrite files_lookup by done. split.
    + intros (item & Hin & Hs & <- & Hv). pose proof (item_file_ok _ _ _ _ _ Hok item Hin) as Hi.
      apply file_value_gives in Hv as (op & Hc & Hg); eauto 8.
    + intros (item & op & Hin & Hs & <- & Hc & Hg). exists item.
      rewrite file_value_gives by (done || by eapply item_file_ok). eauto 8.
  - intros k Hk%elem_of_dom. apply (eo_covered _ _ He), elem_of_list_to_set, list_elem_of_fmap in Hk. naive_solver.
  - intros k Hk%elem_of_dom. apply (fo_covered _ _ Hf), elem_of_list_to_set, list_elem_of_fmap in Hk as (item & -> & Hin).
    apply list_elem_of_filter in Hin as [? ?]. eauto.
Qed.

Lemma stored_round_trip host input existing key roots enforce :
  draft_ok host roots enforce input existing ->
  let d := normalized canonical_json input existing key in
  normalize_verified canonical_json host (stored d) (nd_display_name d) (nd_discovery_image_ref d)
    (nd_credential_ref d) (nd_auto_deploy_enabled d) (nd_poll_interval_seconds d) key roots = Ok (unacknowledged d).
Proof.
  intros Hok. cbv zeta. unfold normalize_verified, normalize_existing_draft.
  rewrite (proj2 (normalize_iff _ _ _ _ _ _ _ _) (conj (stored_draft_ok _ _ _ _ _ _ key Hok) eq_refl)).
  rewrite (stored_normalized _ _ _ _ _ _ _ Hok). simpl. by rewrite bool_decide_eq_true_2.
Qed.

(** A draft survives storage: the revision that holds an accepted draft
    passes the integrity check, and normalising it again as stored, keeping
    every secret, gives back the same draft, hash included, without the
    acknowledgement, which is not stored. *)
Theorem stored_draft_round_trip host input existing key roots enforce d :
  normalize host input existing key roots enforce = Ok d ->
  verify_config_integrity canonical_json (nd_metadata d) (nd_public_environment d) (nd_public_files d)
    (lv_secrets (stored d)) key = Ok tt
  /\ normalize_verified canonical_json host (stored d) (nd_display_name d) (nd_discovery_image_ref d)
       (nd_credential_ref d) (nd_auto_deploy_enabled d) (nd_poll_interval_seconds d) key roots = Ok (unacknowledged d).
Proof.
  intros [Hok ->]%normalize_iff. split; [apply stored_integrity|]. by eapply stored_round_trip.
Qed.

(** Every bind mount of an accepted draft is confined: its source is
    strictly below an allowed root both as written and resolved, no component
    is a symbolic link, it is a directory, none of the host's own directories;
    and where the plan is enforced, a writable source is never an ancestor of
    another. *)
Theorem binds_confined host input existing key roots enforce d :
  normalize host input existing key roots enforce = Ok d ->
  exists identities, Forall2 (fun b i => confined host roots (bm_source b) i) (di_binds input) identities
    /\ nd_binds d ≡ₚ di_binds input
    /\ (enforce = true -> pairwise sources_apart
          (zip_with (fun i b => MkBindSafetySource i (bm_readonly b)) identities (di_binds input))).
Proof.
  intros [Hok ->]%normalize_iff. destruct (do_binds _ _ _ _ _ Hok) as [_ _ (ids & Hf & Hp)]. exists ids.
  split; [|split; [apply sort_by_perm|done]]. eapply Forall2_impl; [exact Hf|].
  intros b i (_ & _ & Hs). by apply validate_bind_source_confined.
Qed.
End theorems.

(** ** A concrete request *)

Definition sample_host : BindHost := {|
  bh_is_symlink p := Some (bool_decide (p = "/srv/link"));
  bh_canonicalize p := Some p;
  bh_metadata p := if path_eqb p "/srv/solodock/media" then Some (true, 1%Z, 42%Z) else None;
|}.

Definition sample_existing : ExistingSecrets :=
  MkExistingSecrets {["API_KEY" := "old"; "DB_PASSWORD" := "hunter2"; "UNUSED" := "x"]} {["tls.key" := "pem"]} ∅.

Definition sample_public : list PublicEnvInput :=
  [MkPublicEnvInput "PORT" "8080"; MkPublicEnvInput "LOG_LEVEL" "info"].
Definition sample_secrets : list SecretEnvInput :=
  [MkSecretEnvInput "UNUSED" OpDelete; MkSecretEnvInput "API_KEY" (OpReplace "new");
   MkSecretEnvInput "DB_PASSWORD" OpKeep].
Definition sample_files : list ManagedFileInput :=
  [MkManagedFileInput "tls.key" "/etc/app/tls.key" true true (SecretContent OpKeep);
   MkManagedFileInput "app.conf" "/etc/app/app.conf" false true (PublicContent "debug = false")].
Definition sample_networks : list NetworkInput := [External "shared" ["web"; "api"]; External "metrics" []].

Definition sample_request (public : list PublicEnvInput) (secrets : list SecretEnvInput)
    (files : list ManagedFileInput) (networks : list NetworkInput) : DraftInput :=
  MkDraftInput (Some "hardened") "Blog" "ghcr.io/acme/blog:stable" None true false 300 30
    (MkEnvironmentInput (Some ["PORT"; "API_KEY"; "LOG_LEVEL"; "DB_PASSWORD"]) public secrets)
    files [MkPortInput "127.0.0.1" 8080 8080 Tcp] [OwnedVolume "data" "/var/lib/app"]
    [MkBindMountInput "/srv/solodock/media" "/media" true false] true false networks (Running 10).

Definition sample_input : DraftInput := sample_request sample_public sample_secrets sample_files sample_networks.

(** The same request, listed differently. *)
Definition sample_reordered : DraftInput :=
  sample_request (reverse sample_public) (reverse sample_secrets) (reverse sample_files)
    [External "metrics" []; External "shared" ["api"; "web"]].

Definition sample_json (_ : ConfigMetadata) (_ : list PublicEnvInput) (_ : gmap string string) : string := "{}".

#[local] Instance sample_crypto : Crypto := demo_crypto.

Definition sample_draft : checked NormalizedDraft :=
  normalize_draft_with_options sample_json sample_host sample_input sample_existing "key" ["/srv/solodock"] true.

Definition sample_normal : NormalizedDraft := normalized sample_json sample_input sample_existing "key".

Lemma sample_accepted : sample_draft = Ok sample_normal.
Proof. by vm_compute. Qed.

Lemma normalized_draft_well_formed_witness : sample_draft = Ok sample_normal /\ well_formed sample_normal.
Proof.
  split; [exact sample_accepted|]. exact (normalized_draft_well_formed _ _ _ _ _ _ _ _ sample_accepted).
Defined.

Lemma sample_same : same_request sample_input sample_reordered.
Proof.
  split; simpl; try done.
  - split; simpl; [done|..]; symmetry; apply reverse_Permutation.
  - symmetry. apply (reverse_Permutation sample_files).
  - apply Permutation_swap.
Qed.

Lemma normalization_order_insensitive_witness :
  normalize_draft_with_options sample_json sample_host sample_reordered sample_existing "key" ["/srv/solodock"] true
  = Ok sample_normal.
Proof.
  exact (proj1 (normalization_order_insensitive sample_json sample_host _ _ sample_existing "key" ["/srv/solodock"] true
                  sample_normal sample_same) sample_accepted).
Defined.

Lemma secret_operations_applied_witness :
  nd_secret_environment sample_normal !! "API_KEY" = Some "new"
  /\ exists e, e ∈ ei_secrets (di_environment sample_input) /\ se_key e = "UNUSED".
Proof.
  destruct (secret_operations_applied _ _ _ _ _ _ _ _ sample_accepted) as (H & _ & Hc & _).
  split; [|apply Hc; by eexists]. apply H. exists (MkSecretEnvInput "API_KEY" (OpReplace "new")).
  split; [apply list_elem_of_In; simpl; auto|]. split; [done|]. by left.
Defined.

Lemma stored_draft_round_trip_witness :
  normalize_verified sample_json sample_host (stored sample_normal) "Blog" "ghcr.io/acme/blog:stable" None true 300
    "key" ["/srv/solodock"] = Ok sample_normal.
Proof. exact (proj2 (stored_draft_round_trip _ _ _ _ _ _ _ _ sample_accepted)). Defined.

Lemma binds_confined_witness :
  exists identities, Forall2 (fun b i => confined sample_host ["/srv/solodock"] (bm_source b) i) (di_binds sample_input) identities
    /\ length identities = 1.
Proof.
  destruct (binds_confined _ _ _ _ _ _ _ _ sample_accepted) as (ids & Hf & _). exists ids. split; [done|].
  by rewrite <- (Forall2_length _ _ _ Hf).
Defined.

(** Inputs the rules refuse, with the issue that is reported. *)
Example link_refused :
  validate_bind_source sample_host "/srv/link/x" ["/srv"] = Err BindSymlink.
Proof. by vm_compute. Qed.

Example duplicate_port_refused :
  validate_ports [MkPortInput "127.0.0.1" 80 1 Tcp; MkPortInput "127.0.0.1" 80 2 Tcp]
  = Err (At PortConflict "ports[1].host_port" "PORT_CONFLICT" "Published host IP, port, and protocol must be unique").
Proof. by vm_compute. Qed.

(** An absolute path never has a [CurDir] component, so the tests for one in
    targets and bind sources refuse nothing. *)
Lemma absolute_has_no_curdir path : is_absolute path = true -> CurDir ∉ components path.
Proof.
  intros Ha. unfold components. rewrite Ha. simpl. intros [H|H]%elem_of_cons; [done|].
  apply list_elem_of_fmap in H as (part & H & _). unfold component_of in H. by case_match.
Qed.

Example interior_dot_accepted : validate_container_target "/data/./x" = true.
Proof. by vm_compute. Qed.
