(* ===== verification/Compose.v ===== *)
(** * Compose: the generated Compose document

    [src/compose/{generate,model}.rs], [NetworkPlan::expected_networks] of
    [src/domain/networks.rs] and [stable_resource_token] of
    [src/domain/application.rs]. The document is a value; printing it as YAML
    and reading YAML back are parameters ([ComposeText]). *)

From stdpp Require Import sets gmap sorting.
From S2P Require Import Prelude Text Reference Models Codec Ownership Names Drafts.
From Stdlib Require Import Ascii.

(** ** The document ([model.rs]) *)

Record EnvFile := MkEnvFile { ef_path : string; ef_required : bool }.

Record ServiceMount := MkServiceMount {
  mt_kind : string; mt_source : string; mt_target : string; mt_read_only : bool }.

Record ServicePort := MkServicePort {
  sp_name : string; sp_target : Z; sp_published : string; sp_host_ip : string; sp_protocol : string }.

Record Healthcheck := MkHealthcheck {
  hc_test : list string; hc_interval : option string; hc_timeout : option string;
  hc_retries : option Z; hc_start_period : option string; hc_disable : bool }.

Record VolumeDefinition := MkVolumeDefinition {
  vd_external : bool; vd_name : string; vd_labels : gmap string string }.

Record NetworkDefinition := MkNetworkDefinition {
  nw_external : bool; nw_driver : option string; nw_driver_opts : gmap string string;
  nw_name : string; nw_labels : gmap string string }.

(** [ServiceNetworkAttachment] is its list of aliases. *)
Inductive ServiceNetworks :=
| Short (keys : list string)
| Long (attachments : gmap string (list string)).

Definition service_networks_len (networks : ServiceNetworks) : nat :=
  match networks with Short keys => length keys | Long attachments => size attachments end.

Record Service := MkService {
  sv_security_opt : list string;
  sv_image : string;
  sv_labels : gmap string string;
  sv_env_file : list EnvFile;
  sv_volumes : list ServiceMount;
  sv_ports : list ServicePort;
  sv_networks : ServiceNetworks;
  sv_restart : string;
  sv_stop_grace_period : option string;
  sv_healthcheck : option Healthcheck;
}.

Record ComposeDocument := MkComposeDocument {
  cd_services : gmap string Service;
  cd_volumes : gmap string VolumeDefinition;
  cd_networks : gmap string NetworkDefinition;
}.

Record OwnedDefaultNetworkIdentity := MkOwnedDefaultNetworkIdentity {
  od_docker_name : string; od_bridge_name : string }.

Record ComposePlan := MkComposePlan {
  cp_service : string;
  cp_image_ref : string;
  cp_runnable : bool;
  cp_stop_grace_period_seconds : Z;
  cp_ports : nat;
  cp_mounts : nat;
  cp_networks : nat;
  cp_network_mode : NetworkMode;
  cp_owned_default_network : option OwnedDefaultNetworkIdentity;
  cp_external_networks : list ExternalNetworkAttachment;
  cp_warnings : list string;
}.

Record AppResourceIdentity := MkAppResourceIdentity {
  ri_app_id : Uuid; ri_slug : string; ri_schema_version : Z }.

Record ComposeInput := MkComposeInput {
  ci_resource_identity : AppResourceIdentity;
  ci_release_id : Uuid;
  ci_image_ref : string;
  ci_revision_directory : string;
  ci_draft : NormalizedDraft;
  ci_include_stop_grace_period : bool;
}.

(** ** Text *)

(** [value.replace('$', "$$")]: Compose reads a doubled dollar as one. *)
Fixpoint literal (value : string) : string :=
  match value with
  | EmptyString => EmptyString
  | String c value' =>
      if char_eqb c "$"%char then String "$" (String "$" (literal value')) else String c (literal value')
  end.

(** [Path::join] of a directory and a relative path. *)
Definition path_join (directory name : string) : string :=
  if is_absolute name then name
  else if str_is_empty directory || ends_with "/" directory then directory +:+ name
  else directory +:+ "/" +:+ name.

(** [BTreeMap] filled by inserting in order. *)
Definition collect {V} (entries : list (string * V)) : gmap string V :=
  foldl (fun m e => <[e.1 := e.2]> m) ∅ entries.

Definition protocol_text (p : PortProtocol) : string := match p with Tcp => "tcp" | Udp => "udp" end.

(** The sixteen bytes of an identifier, most significant first. *)
Fixpoint be_bytes (n : nat) (u : N) : string :=
  match n with
  | O => EmptyString
  | S n' => String (ascii_of_N (N.shiftr u (8 * N.of_nat n') mod 256)) (be_bytes n' u)
  end.

(** ** Generation *)

(** The printer and the reader of YAML. *)
Class ComposeText := {
  yaml_to_string : ComposeDocument -> option string;
  yaml_value : Type;
  yaml_value_eq :: EqDecision yaml_value;
  yaml_from_slice : string -> option yaml_value;
}.

Section compose.
Context {UT : UuidText} {CR : Crypto} {CT : ComposeText}.

Definition stable_resource_token (app_id : Uuid) : string := hex (str_take 6 (sha256 (be_bytes 16 app_id))).

Definition service_labels (app_id release_id : Uuid) : gmap string string :=
  collect [(MANAGED_LABEL, "true"); (SCHEMA_LABEL, "1"); (APP_ID_LABEL, uuid_to_string app_id);
           (RELEASE_ID_LABEL, uuid_to_string release_id)].

Definition PROJECT_NAME_LABEL : string := "com.solodock.project-name".

Definition resource_labels (app_id : Uuid) (project_name : string) : gmap string string :=
  collect [(MANAGED_LABEL, "true"); (SCHEMA_LABEL, "1"); (APP_ID_LABEL, uuid_to_string app_id);
           (PROJECT_NAME_LABEL, project_name)].

Definition seconds_text (n : Z) : string := show_Z n +:+ "s".

Definition health_url (http : HttpHealthcheck) : string :=
  let host := if hh_host http =? "::1" then "[::1]" else hh_host http in
  "http://" +:+ host +:+ ":" +:+ show_Z (hh_port http) +:+ hh_path http.

Definition health (policy : HealthPolicy) : string * option Healthcheck :=
  match policy with
  | Healthy None => ("unless-stopped", None)
  | Healthy (Some http) =>
      let url := literal (health_url http) in
      let test := match hh_client http with
                  | Curl => ["CMD"; "curl"; "--fail"; "--silent"; url]
                  | Wget => ["CMD"; "wget"; "--quiet"; "--spider"; url]
                  end in
      ("unless-stopped",
       Some (MkHealthcheck test (Some (seconds_text (hh_interval_seconds http)))
               (Some (seconds_text (hh_timeout_seconds http))) (Some (hh_retries http))
               (Some (seconds_text (hh_start_period_seconds http))) false))
  | Completed => ("no", None)
  | Running _ => ("unless-stopped", None)
  | Disabled _ => ("unless-stopped", Some (MkHealthcheck [] None None None None true))
  end.

Definition volume_key (index : nat) : string := "solodock-volume-" +:+ digits index.
Definition network_key (index : nat) : string := "solodock-network-" +:+ digits index.

Definition volume_definition (identity : AppResourceIdentity) (labels : gmap string string) (volume : VolumeInput)
    : VolumeDefinition :=
  match volume with
  | OwnedVolume logical_name _ =>
      MkVolumeDefinition false (owned_volume_name (ri_slug identity) logical_name) labels
  | ExternalVolume name _ => MkVolumeDefinition true (literal name) ∅
  end.

Definition volume_mount (index : nat) (volume : VolumeInput) : ServiceMount :=
  MkServiceMount "volume" (volume_key index) (literal (volume_target_path volume)) false.

Definition bind_mount (bind : BindMountInput) : ServiceMount :=
  MkServiceMount "bind" (literal (bm_source bind)) (literal (bm_target_path bind)) (bm_readonly bind).

Definition file_source (revision_directory : string) (file : ManagedFileMetadata) : string :=
  path_join (path_join (path_join revision_directory "files") (if mf_sensitive file then "secret" else "public"))
    (mf_logical_name file).

Definition file_mount (revision_directory : string) (file : ManagedFileMetadata) : ServiceMount :=
  MkServiceMount "bind" (literal (file_source revision_directory file)) (literal (mf_target_path file)) true.

Definition mount_leb (a b : ServiceMount) : bool := text_leb (mt_target a) (mt_target b).

Definition service_mounts (input : ComposeInput) : list ServiceMount :=
  let draft := ci_draft input in
  sort_by mount_leb
    (imap volume_mount (nd_volumes draft) ++ map bind_mount (nd_binds draft)
     ++ map (file_mount (ci_revision_directory input)) (nd_files draft)).

Definition owned_network (names : AppResourceNames) (labels : gmap string string) : NetworkDefinition :=
  MkNetworkDefinition false (Some "bridge") {["com.docker.network.bridge.name" := rn_bridge_name names]}
    (rn_owned_default_network_name names) labels.

Definition external_network (name : string) : NetworkDefinition := MkNetworkDefinition true None ∅ name ∅.

(** The networks of the document, in the order in which they are inserted. *)
Definition network_definitions (plan : NetworkPlan) (names : AppResourceNames) (labels : gmap string string)
    : list (string * NetworkDefinition) :=
  (if np_owned_default_network plan then [("default", owned_network names labels)] else [])
  ++ (if np_service_discovery_enabled plan then [("solodock-services", external_network PLATFORM_NETWORK_NAME)] else [])
  ++ map (fun n => (network_key (ea_source_index n), external_network (literal (ea_name n)))) (np_external plan).

Definition service_networks (plan : NetworkPlan) (definitions : list (string * NetworkDefinition)) (slug : string)
    : ServiceNetworks :=
  if forallb (fun n => is_nil (ea_aliases n)) (np_external plan) && negb (np_service_discovery_enabled plan)
  then Short (map fst definitions)
  else Long (collect
    ((if np_owned_default_network plan then [("default", [])] else [])
     ++ (if np_service_discovery_enabled plan then [("solodock-services", [slug])] else [])
     ++ map (fun n => (network_key (ea_source_index n), ea_aliases n)) (np_external plan))).

Definition service_port (index : nat) (port : PortInput) : ServicePort :=
  MkServicePort ("port-" +:+ digits index) (pi_container_port port) (show_Z (pi_host_port port)) (pi_host_ip port)
    (protocol_text (pi_protocol port)).

Definition security_opt (profile : option string) : list string :=
  match profile with
  | Some profile => ["seccomp=/etc/solodock/security-profiles/" +:+ profile +:+ "/seccomp.json";
                     "apparmor=solodock-" +:+ profile]
  | None => []
  end.

Definition env_files (revision_directory : string) : list EnvFile :=
  [MkEnvFile (literal (path_join revision_directory "env/public.env")) true;
   MkEnvFile (literal (path_join revision_directory "secrets/runtime.env")) true].

(** The document and the network plan. [None] stands for the panics of the
    source: an unknown naming schema, or a draft without a network plan. *)
Definition generate_document (input : ComposeInput) : option (ComposeDocument * AppResourceNames * NetworkPlan) :=
  let identity := ci_resource_identity input in
  let draft := ci_draft input in
  names ← resource_names stable_resource_token (ri_app_id identity) (ri_slug identity) (ri_schema_version identity);
  let labels := resource_labels (ri_app_id identity) (rn_project_name names) in
  let volumes := collect (imap (fun i v => (volume_key i, volume_definition identity labels v)) (nd_volumes draft)) in
  plan ← match network_plan (nd_owned_default_network draft) (nd_service_discovery_enabled draft) (nd_networks draft) with
         | Ok plan => plan | Err _ => None end;
  let definitions := network_definitions plan names labels in
  let '(restart, healthcheck) := health (nd_health draft) in
  let service := MkService (security_opt (nd_security_profile draft)) (literal (ci_image_ref input))
    (service_labels (ri_app_id identity) (ci_release_id input)) (env_files (ci_revision_directory input))
    (service_mounts input) (imap service_port (nd_ports draft)) (service_networks plan definitions (ri_slug identity))
    restart
    (if ci_include_stop_grace_period input then Some (seconds_text (nd_stop_grace_period_seconds draft)) else None)
    healthcheck in
  Some (MkComposeDocument {["app" := service]} volumes (collect definitions), names, plan).

Definition plan_warnings (runnable : bool) (draft : NormalizedDraft) (plan : NetworkPlan) : list string :=
  (if negb runnable then ["PREVIEW_IMAGE_NOT_PINNED"] else [])
  ++ (if existsb (fun b => negb (bm_readonly b)) (nd_binds draft) || negb (is_nil (nd_volumes draft))
      then ["DATA_NOT_ROLLED_BACK"] else [])
  ++ (match nd_health draft with Healthy (Some _) => ["HEALTHCHECK_CLIENT_REQUIRED"] | _ => [] end)
  ++ (if negb (is_nil (np_external plan)) then ["EXTERNAL_NETWORK_UNMANAGED"] else []).

(** [Err tt] is a YAML error. *)
Definition generate (input : ComposeInput) (runnable : bool) : option (result unit (string * ComposePlan)) :=
  '(document, names, plan) ← generate_document input;
  service ← cd_services document !! "app";
  match yaml_to_string document with
  | None => Some (Err tt)
  | Some yaml =>
      let draft := ci_draft input in
      Some (Ok (yaml, MkComposePlan "app" (ci_image_ref input) runnable (nd_stop_grace_period_seconds draft)
        (length (sv_ports service)) (length (sv_volumes service)) (service_networks_len (sv_networks service))
        (np_mode plan)
        (if np_owned_default_network plan
         then Some (MkOwnedDefaultNetworkIdentity (rn_owned_default_network_name names) (rn_bridge_name names))
         else None)
        (np_external plan) (plan_warnings runnable draft plan)))
  end.

Definition matches_canonical (input : ComposeInput) (runnable : bool) (compose_schema_version : Z)
    (expected_sha256 actual : string) : option (result unit bool) :=
  if hex (sha256 actual) ≠? expected_sha256 then Some (Ok false)
  else
    generated ← generate input runnable;
    match generated with
    | Err e => Some (Err e)
    | Ok (canonical, _) =>
        if compose_schema_version =? CURRENT_COMPOSE_SCHEMA_VERSION then Some (Ok (actual =? canonical))
        else if negb ((2 <=? compose_schema_version)%Z && (compose_schema_version <? CURRENT_COMPOSE_SCHEMA_VERSION)%Z)
        then Some (Ok false)
        else match yaml_from_slice actual with
             | None => Some (Ok false)
             | Some actual =>
                 match yaml_from_slice canonical with
                 | None => Some (Err tt)
                 | Some canonical => Some (Ok (bool_decide (actual = canonical)))
                 end
             end
    end.
End compose.

(** ** The networks Docker is expected to show ([networks.rs]) *)

Inductive ExpectedNetworkKind := KindOwnedDefault | KindPlatform | KindExternal.

Record ExpectedNetwork := MkExpectedNetwork {
  en_name : string; en_kind : ExpectedNetworkKind; en_aliases : list string }.

Definition expected_networks (plan : NetworkPlan) (names : AppResourceNames) (service_alias : string)
    : list ExpectedNetwork :=
  sort_by (fun a b => text_leb (en_name a) (en_name b))
    ((if np_owned_default_network plan
      then [MkExpectedNetwork (rn_owned_default_network_name names) KindOwnedDefault []] else [])
     ++ (if np_service_discovery_enabled plan
         then [MkExpectedNetwork PLATFORM_NETWORK_NAME KindPlatform [service_alias]] else [])
     ++ map (fun a => MkExpectedNetwork (ea_name a) KindExternal (ea_aliases a)) (np_external plan)).
