(* ===== verification/ComposeTheorems.v ===== *)
(** * ComposeTheorems: what the generated document means to Compose

    Generation never panics on a well-formed draft, its document is closed
    (every reference is defined), and once Compose has interpolated it, it
    says exactly what the draft says. The labels it gives the container are
    those [Ownership] accepts, its networks those [expected_networks] lists. *)

From stdpp Require Import sets gmap sorting.
From S2P Require Import Prelude Text Reference Models Codec Ownership Names Drafts DraftSpec DraftResources DraftCanonical DraftOrder DraftStored DraftTheorems Compose.
From Stdlib Require Import Ascii.
From stdpp Require Import list.

(** ** Interpolation *)

(** What Compose documents about interpolation: text without a dollar stands for
    itself and a doubled dollar for one; other uses of the dollar are left open
    ([None] is an invalid template). *)
Class Interpolation := {
  interpolate : string -> option string;
  interpolate_nil : interpolate EmptyString = Some EmptyString;
  interpolate_plain : forall c s, char_eqb c "$" = false -> interpolate (String c s) = String c <$> interpolate s;
  interpolate_dollar : forall s, interpolate (String "$" (String "$" s)) = String "$" <$> interpolate s;
}.

(** An environment without variables: any other use of the dollar is refused. *)
Fixpoint closed_interpolate (s : string) : option string :=
  match s with
  | EmptyString => Some EmptyString
  | String c s' =>
      if char_eqb c "$"
      then match s' with
           | String d s'' => if char_eqb d "$" then String "$" <$> closed_interpolate s'' else None
           | EmptyString => None
           end
      else String c <$> closed_interpolate s'
  end.

Definition closed_interpolation : Interpolation.
Proof.
  refine {| interpolate := closed_interpolate |}; [done| |done]. intros c s Hc. simpl. by rewrite Hc.
Defined.

Lemma interpolate_literal `{Interpolation} s : interpolate (literal s) = Some s.
Proof.
  induction s as [|c s IH]; [apply interpolate_nil|]. simpl. destruct (char_eqb c "$") eqn:Hc.
  - rewrite interpolate_dollar, IH. apply char_eqb_eq in Hc as ->. done.
  - rewrite interpolate_plain, IH by done. done.
Qed.

Lemma literal_plain s : contains_char "$" s = false -> literal s = s.
Proof.
  unfold contains_char. induction s as [|c s IH]; [done|]. simpl. rewrite orb_false_iff. intros [Hc Hs].
  destruct (char_eqb c "$") eqn:E; [apply char_eqb_eq in E as ->; done|]. by rewrite IH.
Qed.

Lemma interpolate_id `{Interpolation} s : contains_char "$" s = false -> interpolate s = Some s.
Proof. intros Hs. rewrite <- (literal_plain s Hs) at 1. apply interpolate_literal. Qed.

Lemma literal_inj a b : literal a = literal b -> a = b.
Proof.
  intros E. pose proof (interpolate_literal (H := closed_interpolation) a) as H.
  rewrite E, interpolate_literal in H. by injection H.
Qed.

Lemma code_inj x y : code x = code y -> x = y.
Proof. unfold code. intros H. by rewrite <- (ascii_N_embedding x), <- (ascii_N_embedding y), H. Qed.

(** Escaping keeps the byte order. *)
Lemma literal_ltb a b : text_ltb (literal a) (literal b) = text_ltb a b.
Proof.
  revert b. induction a as [|x a IH]; intros [|y b]; simpl; [done| | |].
  - by destruct (char_eqb y "$").
  - by destruct (char_eqb x "$").
  - destruct (char_eqb x "$") eqn:Ex, (char_eqb y "$") eqn:Ey; cbn [text_ltb]; rewrite ?IH; [..|done].
    + rewrite (proj1 (char_eqb_eq _ _) Ex), (proj1 (char_eqb_eq _ _) Ey). done.
    + destruct (N.eqb_spec (code x) (code y)) as [E%code_inj|E]; [congruence|].
      rewrite (proj1 (char_eqb_eq _ _) Ex) in *. by rewrite (proj2 (N.eqb_neq _ _) E).
    + destruct (N.eqb_spec (code x) (code y)) as [E%code_inj|E]; [congruence|].
      rewrite (proj1 (char_eqb_eq _ _) Ey) in *. by rewrite (proj2 (N.eqb_neq _ _) E).
Qed.

Lemma literal_leb a b : text_leb (literal a) (literal b) = text_leb a b.
Proof. unfold text_leb. by rewrite literal_ltb. Qed.

(** ** Maps filled in order *)

Lemma collect_snoc {V} (l : list (string * V)) k v : collect (l ++ [(k, v)]) = <[k := v]> (collect l).
Proof. unfold collect. by rewrite foldl_app. Qed.

Lemma collect_list_to_map {V} (l : list (string * V)) : NoDup l.*1 -> collect l = list_to_map l.
Proof.
  induction l as [|[k v] l IH] using rev_ind; [done|]. rewrite fmap_app. simpl. intros Hn. rewrite collect_snoc.
  apply NoDup_app in Hn as (Hl & Hk & _). rewrite IH by done. symmetry.
  assert (k ∉ l.*1) as Hnin by (intros Hin; apply (Hk k Hin); by left).
  rewrite list_to_map_app. simpl. rewrite insert_empty. rewrite <- insert_union_singleton_r; [done|].
  by apply not_elem_of_list_to_map.
Qed.

Lemma collect_lookup {V} (l : list (string * V)) k v : NoDup l.*1 -> collect l !! k = Some v <-> (k, v) ∈ l.
Proof. intros Hn. rewrite collect_list_to_map by done. symmetry. by apply elem_of_list_to_map. Qed.

Lemma collect_dom {V} (l : list (string * V)) : dom (collect l) = list_to_set l.*1.
Proof.
  induction l as [|[k v] l IH] using rev_ind; [set_solver|].
  rewrite collect_snoc, dom_insert_L, IH, fmap_app, list_to_set_app_L. set_solver.
Qed.

(** ** Keys *)

Lemma digits_inj i j : digits i = digits j -> i = j.
Proof. unfold digits. intros H. by apply (inj pretty) in H as ?%(inj N.of_nat). Qed.

Lemma volume_key_inj i j : volume_key i = volume_key j -> i = j.
Proof. unfold volume_key. intros H. apply digits_inj. by simplify_eq/=. Qed.

Lemma network_key_inj i j : network_key i = network_key j -> i = j.
Proof. unfold network_key. intros H. apply digits_inj. by simplify_eq/=. Qed.

Lemma imap_keys_nodup {A B} (f : nat -> string) (g : nat -> A -> B) (l : list A) :
  (forall i j, f i = f j -> i = j) -> NoDup (imap (fun i x => (f i, g i x)) l).*1.
Proof.
  intros Hinj. rewrite fmap_imap. apply NoDup_alt. intros i j x. rewrite !list_lookup_imap. intros Hi Hj.
  apply fmap_Some in Hi as (a & _ & ->), Hj as (b & _ & Hb). by apply Hinj.
Qed.

(** ** Networks *)

Lemma external_attachments_index i ns a : a ∈ external_attachments i ns -> i <= ea_source_index a.
Proof.
  revert i. induction ns as [|[|name aliases] ns IH]; intros i; simpl.
  - by intros ?%not_elem_of_nil.
  - intros H%IH. lia.
  - rewrite elem_of_cons. intros [->|H%IH]; simpl; lia.
Qed.

Lemma external_attachments_nodup i ns : NoDup (map ea_source_index (external_attachments i ns)).
Proof.
  revert i. induction ns as [|[|name aliases] ns IH]; intros i; simpl; [constructor|done|]. constructor; [|done].
  intros (a & Ha & Hin%external_attachments_index)%list_elem_of_fmap. simpl in *. lia.
Qed.

Definition attachment_leb (a b : ExternalNetworkAttachment) : bool := text_leb (ea_name a) (ea_name b).

Lemma build_network_plan_inv owned discovery ns plan :
  build_network_plan owned discovery ns = Some plan ->
  np_owned_default_network plan = owned /\ np_service_discovery_enabled plan = discovery
  /\ np_external plan ≡ₚ external_attachments 0 ns.
Proof.
  unfold build_network_plan. destruct (network_mode _ _ _) as [mode|]; [|done]. intros [= <-]. simpl.
  split; [done|]. split; [done|]. apply (sort_by_perm attachment_leb).
Qed.

Lemma external_attachments_names i ns : map ea_name (external_attachments i ns) = external_names ns.
Proof.
  revert i. induction ns as [|[|name aliases] ns IH]; intros i; [done|apply IH|]. simpl. f_equal. apply IH.
Qed.

(** What [network_mode] cannot answer is what validation excludes. *)
Lemma network_plan_some owned discovery reserve ns :
  networks_ok owned discovery reserve ns ->
  exists plan, network_plan owned discovery ns = Ok (Some plan)
    /\ np_owned_default_network plan = owned /\ np_service_discovery_enabled plan = discovery
    /\ np_external plan ≡ₚ external_attachments 0 ns.
Proof.
  intros Hok. assert (networks_ok owned discovery false ns) as Hok'.
  { destruct Hok as [H1 H2 H3 H4 H5]. split; try done. eapply Forall_impl; [exact H1|]. by intros [|n a]; simpl; [|intros (_ & ?)]. }
  apply validate_network_inputs_iff in Hok' as Hv. unfold network_plan. rewrite Hv. simpl.
  destruct (build_network_plan owned discovery ns) as [plan|] eqn:Hp.
  - exists plan. split; [done|]. by apply build_network_plan_inv.
  - exfalso. unfold build_network_plan in Hp. change (fun a b => text_leb (ea_name a) (ea_name b)) with attachment_leb in Hp.
    destruct (sort_by attachment_leb (external_attachments 0 ns)) as [|a l] eqn:Hs.
    + pose proof (sort_by_perm attachment_leb (external_attachments 0 ns)) as Hperm. rewrite Hs in Hperm.
      apply Permutation_nil_l in Hperm. pose proof (external_attachments_names 0 ns) as Hn. rewrite <- Hperm in Hn. simpl in Hn.
      destruct (no_some _ _ _ _ Hok) as [->|[->|Hne]]; [by destruct discovery|by destruct owned|by destruct Hne].
    + by destruct owned, discovery.
Qed.

(** ** Text without a dollar *)

Lemma no_dollar (f : ascii -> bool) s :
  str_all f s = true -> (forall c, f c = true -> char_eqb "$" c = false) -> contains_char "$" s = false.
Proof. intros Hs Hf. unfold contains_char. by eapply str_all_not_any. Qed.

Lemma digits_plain n : contains_char "$" (digits n) = false.
Proof. eapply no_dollar; [apply pretty_N_digits|]. by_bytes. Qed.

Lemma show_Z_plain z : contains_char "$" (show_Z z) = false.
Proof.
  unfold show_Z, pretty, pretty_Z.
  destruct z as [|p|p]; [done| |]; [|rewrite contains_char_append; simpl]; (eapply no_dollar; [apply pretty_N_digits|]; by_bytes).
Qed.

Lemma profile_plain profile : profile_ok profile -> contains_char "$" profile = false.
Proof. intros (_ & _ & H & _). eapply no_dollar; [done|]. by_bytes. Qed.

Lemma key_plain prefix n : contains_char "$" prefix = false -> contains_char "$" (prefix +:+ digits n) = false.
Proof. intros H. by rewrite contains_char_append, H, digits_plain. Qed.

Lemma slug_plain slug version :
  validate_slug_for_resource_schema slug version = true -> contains_char "$" slug = false.
Proof.
  unfold validate_slug_for_resource_schema. case_match; [|done]. intros Hs. bools. eapply no_dollar; [done|]. by_bytes.
Qed.

Lemma slug_schema slug version :
  validate_slug_for_resource_schema slug version = true ->
  version = RESOURCE_NAME_SCHEMA_LEGACY \/ version = RESOURCE_NAME_SCHEMA_CURRENT.
Proof. unfold validate_slug_for_resource_schema. repeat case_bool_decide; auto. by intros [=]. Qed.

Lemma logical_name_plain name : validate_logical_name name = true -> contains_char "$" name = false.
Proof.
  unfold validate_logical_name. intros H. bools. eapply no_dollar; [done|]. unfold logical_name_byte. by_bytes.
Qed.

(** ** Mounts *)

Definition interpolate_mount `{Interpolation} (m : ServiceMount) : option ServiceMount :=
  kind ← interpolate (mt_kind m); source ← interpolate (mt_source m); target ← interpolate (mt_target m);
  Some (MkServiceMount kind source target (mt_read_only m)).

Definition escape_mount (m : ServiceMount) : ServiceMount :=
  MkServiceMount (literal (mt_kind m)) (literal (mt_source m)) (literal (mt_target m)) (mt_read_only m).

Lemma interpolate_escaped_mount `{Interpolation} m : interpolate_mount (escape_mount m) = Some m.
Proof.
  destruct m as [kind source target ro]. unfold interpolate_mount, escape_mount. simpl. by rewrite !interpolate_literal.
Qed.

Lemma interpolate_escaped `{Interpolation} l : mapM interpolate_mount (map escape_mount l) = Some l.
Proof. induction l as [|m l IH]; [done|]. cbn [map mapM]. rewrite interpolate_escaped_mount. simpl. by rewrite IH. Qed.

Lemma sort_by_map {A B} (f : A -> B) (le : B -> B -> bool) (le' : A -> A -> bool) l :
  (forall x y, le (f x) (f y) = le' x y) -> sort_by le (map f l) = map f (sort_by le' l).
Proof.
  intros Hf. assert (forall x k, insert_by le (f x) (map f k) = map f (insert_by le' x k)) as Hi.
  { intros x k. induction k as [|y k IH]; [done|]. simpl. rewrite Hf. destruct (le' x y); [done|]. simpl. by rewrite IH. }
  induction l as [|x l IH]; [done|]. simpl. by rewrite IH, Hi.
Qed.

(** The mounts a draft asks for, before escaping. *)
Definition raw_mounts (revision_directory : string) (d : NormalizedDraft) : list ServiceMount :=
  imap (fun i v => MkServiceMount "volume" (volume_key i) (volume_target_path v) false) (nd_volumes d)
  ++ map (fun b => MkServiceMount "bind" (bm_source b) (bm_target_path b) (bm_readonly b)) (nd_binds d)
  ++ map (fun f => MkServiceMount "bind"
      (path_join (path_join (path_join revision_directory "files") (if mf_sensitive f then "secret" else "public"))
         (mf_logical_name f)) (mf_target_path f) true) (nd_files d).

Lemma mount_leb_order : SortOrder mount_leb.
Proof. apply (key_order mt_target). Qed.

Lemma map_imap {A B C} (f : nat -> A -> B) (g : B -> C) l : map g (imap f l) = imap (fun i x => g (f i x)) l.
Proof. change (g <$> imap f l = imap (fun i x => g (f i x)) l). by rewrite fmap_imap. Qed.

Lemma service_mounts_escaped input :
  service_mounts input
  = map escape_mount (sort_by mount_leb (raw_mounts (ci_revision_directory input) (ci_draft input))).
Proof.
  rewrite <- (sort_by_map escape_mount mount_leb mount_leb) by (intros x y; apply literal_leb).
  unfold service_mounts, raw_mounts. rewrite !map_app, !map_map, map_imap. f_equal. f_equal.
  apply imap_ext. intros i v _. unfold escape_mount, volume_mount. cbn [mt_kind mt_source mt_target mt_read_only].
  by rewrite (literal_plain (volume_key i)) by by apply key_plain.
Qed.

(** ** The document of a well-formed draft *)

(** The aliases under which a service is attached to the network of a key. *)
Definition attachment (networks : ServiceNetworks) (key : string) : option (list string) :=
  match networks with
  | Short keys => if bool_decide (key ∈ keys) then Some [] else None
  | Long attachments => attachments !! key
  end.

(** A network of the plan: its key, its Docker name, its aliases, and whether
    SoloDock owns it. *)
Record planned := MkPlanned { pn_key : string; pn_name : string; pn_aliases : list string; pn_owned : bool }.

Definition planned_networks (plan : NetworkPlan) (names : AppResourceNames) (slug : string) : list planned :=
  (if np_owned_default_network plan then [MkPlanned "default" (rn_owned_default_network_name names) [] true] else [])
  ++ (if np_service_discovery_enabled plan then [MkPlanned "solodock-services" PLATFORM_NETWORK_NAME [slug] false] else [])
  ++ map (fun n => MkPlanned (network_key (ea_source_index n)) (ea_name n) (ea_aliases n) false) (np_external plan).

Lemma planned_keys_nodup plan names slug ns :
  np_external plan ≡ₚ external_attachments 0 ns -> NoDup (map pn_key (planned_networks plan names slug)).
Proof.
  intros Hp. unfold planned_networks. rewrite !map_app, map_map.
  assert (NoDup (map (fun n => network_key (ea_source_index n)) (np_external plan))) as Hn.
  { rewrite Hp. rewrite <- (map_map ea_source_index network_key). apply NoDup_fmap_2_strong; [|apply external_attachments_nodup].
    intros i j _ _. apply network_key_inj. }
  assert (forall k, (forall i, k <> network_key i) -> k ∉ map (fun n => network_key (ea_source_index n)) (np_external plan)) as Hk.
  { intros k Hk (n & -> & _)%list_elem_of_fmap. by apply (Hk (ea_source_index n)). }
  assert ("default" ∉ map (fun n => network_key (ea_source_index n)) (np_external plan)) as H1 by by apply Hk.
  assert ("solodock-services" ∉ map (fun n => network_key (ea_source_index n)) (np_external plan)) as H2 by by apply Hk.
  destruct (np_owned_default_network plan), (np_service_discovery_enabled plan); simpl;
    rewrite ?NoDup_cons, ?not_elem_of_cons; auto 10.
Qed.

Definition definition_of (names : AppResourceNames) (labels : gmap string string) (p : planned) : NetworkDefinition :=
  if pn_owned p then owned_network names labels else external_network (literal (pn_name p)).

Lemma network_definitions_planned plan names labels slug :
  network_definitions plan names labels
  = map (fun p => (pn_key p, definition_of names labels p)) (planned_networks plan names slug).
Proof.
  unfold network_definitions, planned_networks. rewrite !map_app, map_map. f_equal; [|f_equal].
  - by destruct (np_owned_default_network plan).
  - by destruct (np_service_discovery_enabled plan).
Qed.

Lemma attachment_planned plan names labels slug ns key aliases :
  np_external plan ≡ₚ external_attachments 0 ns ->
  attachment (service_networks plan (network_definitions plan names labels) slug) key = Some aliases <->
  exists p, p ∈ planned_networks plan names slug /\ pn_key p = key /\ pn_aliases p = aliases.
Proof.
  intros Hp. pose proof (planned_keys_nodup plan names slug ns Hp) as Hn.
  unfold service_networks. destruct (_ && _) eqn:Hshort; simpl.
  - rewrite (network_definitions_planned plan names labels slug), map_map.
    apply andb_true_iff in Hshort as [Hall Hd]. rewrite forallb_forall in Hall. apply negb_true_iff in Hd.
    assert (forall p, p ∈ planned_networks plan names slug -> pn_aliases p = []) as Hnil.
    { intros p. unfold planned_networks. rewrite Hd. rewrite !elem_of_app. intros [Hin|[Hin|Hin]].
      - destruct (np_owned_default_network plan); [by apply list_elem_of_singleton in Hin as ->|by apply not_elem_of_nil in Hin].
      - by apply not_elem_of_nil in Hin.
      - apply list_elem_of_fmap in Hin as (n & -> & Hin%list_elem_of_In). specialize (Hall n Hin). simpl.
        by destruct (ea_aliases n). }
    case_bool_decide as Hin.
    + apply list_elem_of_fmap in Hin as (p & -> & Hin). split.
      * intros [= <-]. exists p. by rewrite Hnil.
      * intros (q & Hq & _ & <-). by rewrite Hnil.
    + split; [done|]. intros (p & Hq & <- & _). destruct Hin. by apply (list_elem_of_fmap_2 pn_key).
  - assert ((if np_owned_default_network plan then [("default", [])] else [])
      ++ (if np_service_discovery_enabled plan then [("solodock-services", [slug])] else [])
      ++ map (fun n => (network_key (ea_source_index n), ea_aliases n)) (np_external plan)
      = map (fun p => (pn_key p, pn_aliases p)) (planned_networks plan names slug)) as ->.
    { unfold planned_networks. rewrite !map_app, map_map. f_equal; [|f_equal];
        [by destruct (np_owned_default_network plan)|by destruct (np_service_discovery_enabled plan)]. }
    rewrite collect_lookup by (rewrite <- list_fmap_compose; exact Hn).
    split.
    + intros (p & [= -> ->] & Hin)%list_elem_of_fmap. eauto.
    + intros (p & Hin & <- & <-). by apply (list_elem_of_fmap_2 (fun p => (pn_key p, pn_aliases p))).
Qed.

Lemma networks_planned plan names labels slug ns key nd :
  np_external plan ≡ₚ external_attachments 0 ns ->
  collect (network_definitions plan names labels) !! key = Some nd <->
  exists p, p ∈ planned_networks plan names slug /\ pn_key p = key /\ nd = definition_of names labels p.
Proof.
  intros Hp. rewrite (network_definitions_planned _ _ _ slug). rewrite collect_lookup.
  - split; [intros (p & [= -> ->] & Hin)%list_elem_of_fmap; eauto|]. intros (p & Hin & <- & ->).
    by apply (list_elem_of_fmap_2 (fun p => (pn_key p, definition_of names labels p))).
  - rewrite <- list_fmap_compose. by eapply planned_keys_nodup.
Qed.

Definition planned_kind (p : planned) : ExpectedNetworkKind :=
  if pn_owned p then KindOwnedDefault
  else if (pn_key p =? "solodock-services")%string then KindPlatform else KindExternal.

Lemma expected_networks_planned plan names slug :
  expected_networks plan names slug
  ≡ₚ map (fun p => MkExpectedNetwork (pn_name p) (planned_kind p) (pn_aliases p)) (planned_networks plan names slug).
Proof.
  unfold expected_networks, planned_networks. rewrite (sort_by_perm (fun a b => text_leb (en_name a) (en_name b))).
  rewrite !map_app, map_map. apply Permutation_app; [by destruct (np_owned_default_network plan)|].
  apply Permutation_app; [by destruct (np_service_discovery_enabled plan)|done].
Qed.

Lemma filter_keeps {A} (P : A -> Prop) `{!forall x, Decision (P x)} l : Forall P l -> filter P l = l.
Proof. induction 1 as [|x l Hx Hl IH]; [done|]. rewrite filter_cons, decide_True by done. by rewrite IH. Qed.

Lemma filter_drops {A} (P : A -> Prop) `{!forall x, Decision (P x)} l : Forall (fun x => ~ P x) l -> filter P l = [].
Proof. induction 1 as [|x l Hx Hl IH]; [done|]. by rewrite filter_cons, decide_False. Qed.

Section generation.
Context {UT : UuidText} {CR : Crypto} {CT : ComposeText} {IN : Interpolation}.
Context (input : ComposeInput).
Abbreviation draft := (ci_draft input).
Abbreviation identity := (ci_resource_identity input).
Abbreviation slug := (ri_slug (ci_resource_identity input)).

(** The parts of a generated document. *)
Record generated (document : ComposeDocument) (names : AppResourceNames) (plan : NetworkPlan) (service : Service) : Prop := {
  gn_names : resource_names stable_resource_token (ri_app_id identity) slug (ri_schema_version identity) = Some names;
  gn_owned : np_owned_default_network plan = nd_owned_default_network draft;
  gn_discovery : np_service_discovery_enabled plan = nd_service_discovery_enabled draft;
  gn_external : np_external plan ≡ₚ external_attachments 0 (nd_networks draft);
  gn_services : cd_services document = {["app" := service]};
  gn_volumes : cd_volumes document = collect (imap (fun i v => (volume_key i, volume_definition identity
                 (resource_labels (ri_app_id identity) (rn_project_name names)) v)) (nd_volumes draft));
  gn_networks : cd_networks document
                = collect (network_definitions plan names (resource_labels (ri_app_id identity) (rn_project_name names)));
  gn_service : service = MkService (security_opt (nd_security_profile draft)) (literal (ci_image_ref input))
    (service_labels (ri_app_id identity) (ci_release_id input)) (env_files (ci_revision_directory input))
    (service_mounts input) (imap service_port (nd_ports draft))
    (service_networks plan (network_definitions plan names
       (resource_labels (ri_app_id identity) (rn_project_name names))) slug)
    (health (nd_health draft)).1
    (if ci_include_stop_grace_period input then Some (seconds_text (nd_stop_grace_period_seconds draft)) else None)
    (health (nd_health draft)).2;
}.

Lemma resource_names_some :
  validate_slug_for_resource_schema slug (ri_schema_version identity) = true ->
  exists names, resource_names stable_resource_token (ri_app_id identity) slug (ri_schema_version identity) = Some names.
Proof. unfold resource_names. intros [-> | ->]%slug_schema; simpl; eauto. Qed.

Lemma generate_document_generated document names plan :
  generate_document input = Some (document, names, plan) -> exists service, generated document names plan service.
Proof.
  unfold generate_document. intros (names' & Hn & H)%bind_Some. apply bind_Some in H as (plan' & Hp & H).
  destruct (health (nd_health draft)) as [restart check] eqn:Hh. simplify_eq. eexists.
  destruct (network_plan _ _ _) as [o|e] eqn:Hnp; [|done]. subst o. unfold network_plan in Hnp.
  apply then_ok_iff in Hnp as [_ Hb]. injection Hb as Hb. apply build_network_plan_inv in Hb as (H1 & H2 & H3).
  split; try done. by rewrite Hh.
Qed.

Lemma generate_document_some :
  well_formed draft -> validate_slug_for_resource_schema slug (ri_schema_version identity) = true ->
  exists document names plan, generate_document input = Some (document, names, plan).
Proof.
  intros Hwf [names Hn]%resource_names_some. destruct (network_plan_some _ _ _ _ (wf_networks _ Hwf)) as (plan & Hp & _).
  unfold generate_document. rewrite Hn. simpl. rewrite Hp. simpl. destruct (health (nd_health draft)). eauto.
Qed.

Lemma owned_name_plain names :
  resource_names stable_resource_token (ri_app_id identity) slug (ri_schema_version identity) = Some names ->
  validate_slug_for_resource_schema slug (ri_schema_version identity) = true ->
  contains_char "$" (rn_owned_default_network_name names) = false.
Proof.
  intros (b & _ & [= <-])%bind_Some Hs%slug_plain.
  change (contains_char "$" ("solodock-" +:+ slug +:+ "-default") = false). by rewrite !contains_char_append, Hs.
Qed.

Lemma definition_name names labels plan p :
  resource_names stable_resource_token (ri_app_id identity) slug (ri_schema_version identity) = Some names ->
  validate_slug_for_resource_schema slug (ri_schema_version identity) = true ->
  p ∈ planned_networks plan names slug ->
  interpolate (nw_name (definition_of names labels p)) = Some (pn_name p)
  /\ nw_external (definition_of names labels p) = negb (pn_owned p).
Proof.
  intros Hn Hs Hp. unfold definition_of. destruct (pn_owned p) eqn:Ho; simpl; [|by rewrite interpolate_literal].
  split; [|done]. rewrite interpolate_id by by eapply owned_name_plain. f_equal.
  unfold planned_networks in Hp. rewrite !elem_of_app in Hp. destruct Hp as [Hp|[Hp|Hp]].
  - destruct (np_owned_default_network plan); [by apply list_elem_of_singleton in Hp as ->|by apply not_elem_of_nil in Hp].
  - destruct (np_service_discovery_enabled plan); [by apply list_elem_of_singleton in Hp as ->|by apply not_elem_of_nil in Hp].
  - by apply list_elem_of_fmap in Hp as (n & -> & _).
Qed.

(** ** Claims *)

Definition is_volume_mount (m : ServiceMount) : bool := bool_decide (mt_kind m = "volume").

Lemma volume_mount_keys :
  map mt_source (filter (fun m => is_volume_mount m = true) (service_mounts input))
  ≡ₚ imap (fun i _ => volume_key i) (nd_volumes draft).
Proof.
  unfold service_mounts. rewrite (sort_by_perm mount_leb), !filter_app.
  rewrite (filter_drops (fun m => is_volume_mount m = true) (map bind_mount _)).
  2:{ apply Forall_fmap, Forall_forall. by intros b _. }
  rewrite (filter_drops (fun m => is_volume_mount m = true) (map (file_mount _) _)).
  2:{ apply Forall_fmap, Forall_forall. by intros b _. }
  rewrite !app_nil_r, (filter_keeps (fun m => is_volume_mount m = true) (imap volume_mount _)).
  - by rewrite map_imap.
  - apply Forall_forall. intros m (i & v & -> & _)%elem_of_lookup_imap_1. done.
Qed.

Lemma mount_target_list :
  map mt_target (service_mounts input)
  ≡ₚ map literal (mount_targets (nd_files draft) (nd_volumes draft) (nd_binds draft)).
Proof.
  unfold service_mounts, mount_targets. rewrite (sort_by_perm mount_leb), !map_app, !map_map, map_imap.
  change (imap (fun i v => mt_target (volume_mount i v)) (nd_volumes draft))
    with (imap (const (fun v => literal (volume_target_path v))) (nd_volumes draft)). rewrite imap_const. simpl.
  rewrite (Permutation_app_comm (map (fun f => literal (mf_target_path f)) _)).
  by rewrite <- app_assoc.
Qed.

Lemma service_mounts_strict :
  well_formed draft -> StronglySorted (fun a b => text_ltb (mt_target a) (mt_target b) = true) (service_mounts input).
Proof.
  intros Hwf. apply (strictly_sorted mt_target); [apply (sort_by_sorted mount_leb)|].
  rewrite mount_target_list. apply (NoDup_fmap_2_strong literal); [intros a b _ _; apply literal_inj|].
  apply (pairwise_NoDup _ _ targets_apart_irrefl), Hwf.
Qed.

(** The generated document is complete: on a well-formed draft and a valid
    identity generation does not panic; the volumes mounted are exactly the
    volumes defined, each once; the service is attached to exactly the networks
    defined; and mounts are listed by target without repetition. *)
Theorem generated_document_closed :
  well_formed draft -> validate_slug_for_resource_schema slug (ri_schema_version identity) = true ->
  exists document names plan service, generate_document input = Some (document, names, plan)
    /\ cd_services document = {["app" := service]}
    /\ map mt_source (filter (fun m => is_volume_mount m = true) (sv_volumes service))
       ≡ₚ map fst (map_to_list (cd_volumes document))
    /\ (forall key, is_Some (attachment (sv_networks service) key) <-> is_Some (cd_networks document !! key))
    /\ StronglySorted (fun a b => text_ltb (mt_target a) (mt_target b) = true) (sv_volumes service)
    /\ length (sv_volumes service) = length (nd_volumes draft) + length (nd_binds draft) + length (nd_files draft).
Proof.
  intros Hwf Hs. destruct (generate_document_some Hwf Hs) as (document & names & plan & Hg).
  destruct (generate_document_generated _ _ _ Hg) as (service & [G1 G2 G3 G4 G5 G6 G7 ->]).
  exists document, names, plan. eexists. split; [done|]. split; [done|]. rewrite G6, G7. simpl. split; [|split; [|split]].
  - rewrite volume_mount_keys. pose proof (imap_keys_nodup volume_key (fun _ v => volume_definition identity
      (resource_labels (ri_app_id identity) (rn_project_name names)) v) (nd_volumes draft) volume_key_inj) as Hn.
    rewrite collect_list_to_map by exact Hn. rewrite map_to_list_to_map by exact Hn. by rewrite map_imap.
  - intros key. split.
    + intros [aliases (p & Hp & Hk & _)%(attachment_planned _ _ _ _ _ _ _ G4)]. eexists.
      apply (networks_planned _ _ _ slug _ _ _ G4). eauto.
    + intros [nd (p & Hp & Hk & _)%(networks_planned _ _ _ slug _ _ _ G4)]. eexists.
      apply (attachment_planned _ _ _ _ _ _ _ G4). eauto.
  - by apply service_mounts_strict.
  - unfold service_mounts. rewrite (sort_by_perm mount_leb), !length_app, !length_map, length_imap. lia.
Qed.

(** The name Docker is to give a volume. *)
Definition docker_volume_name (v : VolumeInput) : string :=
  match v with OwnedVolume logical_name _ => "solodock-" +:+ slug +:+ "." +:+ logical_name | ExternalVolume name _ => name end.

Lemma owned_volume_plain name :
  validate_slug_for_resource_schema slug (ri_schema_version identity) = true -> validate_logical_name name = true ->
  contains_char "$" (owned_volume_name slug name) = false.
Proof.
  intros Hs%slug_plain Hn%logical_name_plain. unfold owned_volume_name. by rewrite !contains_char_append, Hs, Hn.
Qed.

Lemma volume_definition_name labels v :
  validate_slug_for_resource_schema slug (ri_schema_version identity) = true -> volume_ok v ->
  interpolate (vd_name (volume_definition identity labels v)) = Some (docker_volume_name v).
Proof.
  intros Hs [_ Hv]. destruct v as [name t|name t]; simpl; [|apply interpolate_literal].
  apply interpolate_id. by apply owned_volume_plain.
Qed.

(** The published port Compose reads for a port of the draft. *)
Definition port_read (port : PortInput) (published : ServicePort) : Prop :=
  sp_target published = pi_container_port port
  /\ interpolate (sp_published published) = Some (show_Z (pi_host_port port))
  /\ interpolate (sp_host_ip published) = Some (pi_host_ip port) /\ pi_host_ip port ∈ ["127.0.0.1"; "::1"]
  /\ interpolate (sp_protocol published) = Some (match pi_protocol port with Tcp => "tcp" | Udp => "udp" end).

(** The options by which the container is confined to a profile. *)
Definition profile_options (profile : option string) : list string :=
  match profile with
  | None => []
  | Some name => ["seccomp=/etc/solodock/security-profiles/" +:+ name +:+ "/seccomp.json"; "apparmor=solodock-" +:+ name]
  end.

(** The health check Compose reads for a policy, as its command and its four
    settings; [None] leaves the image's own check, a disabled check has no
    command. *)
Definition check_read (policy : HealthPolicy) (check : option Healthcheck) : Prop :=
  match policy, check with
  | Healthy (Some http), Some check =>
      mapM interpolate (hc_test check)
      = Some (match hh_client http with
              | Curl => ["CMD"; "curl"; "--fail"; "--silent"]
              | Wget => ["CMD"; "wget"; "--quiet"; "--spider"]
              end
              ++ ["http://" +:+ (if bool_decide (hh_host http = "::1") then "[::1]" else hh_host http) +:+ ":"
                  +:+ show_Z (hh_port http) +:+ hh_path http])
      /\ hc_interval check = Some (show_Z (hh_interval_seconds http) +:+ "s")
      /\ hc_timeout check = Some (show_Z (hh_timeout_seconds http) +:+ "s")
      /\ hc_retries check = Some (hh_retries http)
      /\ hc_start_period check = Some (show_Z (hh_start_period_seconds http) +:+ "s")
      /\ hc_disable check = false
  | Disabled _, Some check => hc_disable check = true /\ hc_test check = []
  | Healthy None, None | Running _, None | Completed, None => True
  | _, _ => False
  end.

Lemma ports_read : well_formed draft -> Forall2 port_read (nd_ports draft) (imap service_port (nd_ports draft)).
Proof.
  intros Hwf. apply Forall2_same_length_lookup_2; [by rewrite length_imap|]. intros i port published Hp.
  rewrite list_lookup_imap, Hp. intros [= <-]. destruct (wf_ports _ Hwf) as (_ & Hall & _).
  rewrite Forall_forall in Hall. destruct (Hall port (list_elem_of_lookup_2 _ _ _ Hp)) as [Hip _].
  split; [done|]. simpl. rewrite interpolate_id by apply show_Z_plain. split; [done|].
  split; [apply interpolate_id; by destruct Hip as [-> | ->]|]. split; [destruct Hip as [-> | ->]; set_solver|].
  apply interpolate_id. by destruct (pi_protocol port).
Qed.

Lemma options_read : well_formed draft ->
  mapM interpolate (security_opt (nd_security_profile draft)) = Some (profile_options (nd_security_profile draft)).
Proof.
  intros Hwf. destruct (nd_security_profile draft) as [name|] eqn:Hn; [|done].
  pose proof (profile_plain _ (wf_profile _ Hwf _ Hn)) as Hp. unfold security_opt, profile_options. cbn [mapM].
  rewrite !interpolate_id; [done|by rewrite !contains_char_append, Hp..].
Qed.

Lemma command_read words url : Forall (fun word => contains_char "$" word = false) words ->
  mapM interpolate (words ++ [literal url]) = Some (words ++ [url]).
Proof.
  induction 1 as [|word words Hw _ IH]; cbn [app mapM]; [by rewrite interpolate_literal|].
  rewrite interpolate_id by done. cbn [mbind option_bind]. by rewrite IH.
Qed.

Lemma health_read policy : check_read policy (health policy).2.
Proof.
  destruct policy as [[http|]| | |]; try done. split; [|done].
  destruct http as [client ? ? ? ? ? ? ? ?]. destruct client.
  - refine (command_read ["CMD"; "curl"; "--fail"; "--silent"] _ _). by repeat constructor.
  - refine (command_read ["CMD"; "wget"; "--quiet"; "--spider"] _ _). by repeat constructor.
Qed.

Lemma restart_read policy :
  interpolate (health policy).1 = Some (match policy with Completed => "no" | _ => "unless-stopped" end).
Proof. by destruct policy as [[http|]| | |]; apply interpolate_id. Qed.

(** C40: Compose reads back what the draft says, whatever the environment holds.
    After interpolation: the image is the one given; the mounts of the service
    are exactly those the draft asks for, in order, with their sources, targets
    and read-only flags; the ports are exactly its ports, on the same loopback
    address, with their numbers and protocols; the two environment files of the
    revision are required; the security options are the two of its profile, or
    none; the restart policy is [no] for a task that is to complete and
    [unless-stopped] for all others; the grace period is the draft's where the
    schema has one; the health check has the command, the URL and the settings
    of the policy; and each volume has its Docker name, external or not. *)
Theorem compose_reads_the_draft document names plan :
  generate_document input = Some (document, names, plan) ->
  well_formed draft -> validate_slug_for_resource_schema slug (ri_schema_version identity) = true ->
  exists service, cd_services document = {["app" := service]}
    /\ mapM interpolate_mount (sv_volumes service)
       = Some (sort_by mount_leb (raw_mounts (ci_revision_directory input) draft))
    /\ interpolate (sv_image service) = Some (ci_image_ref input)
    /\ Forall2 port_read (nd_ports draft) (sv_ports service)
    /\ mapM interpolate (sv_security_opt service) = Some (profile_options (nd_security_profile draft))
    /\ interpolate (sv_restart service) = Some (match nd_health draft with Completed => "no" | _ => "unless-stopped" end)
    /\ sv_stop_grace_period service
       = (if ci_include_stop_grace_period input then Some (show_Z (nd_stop_grace_period_seconds draft) +:+ "s") else None)
    /\ check_read (nd_health draft) (sv_healthcheck service)
    /\ Forall (fun f => ef_required f = true) (sv_env_file service)
    /\ mapM (fun f => interpolate (ef_path f)) (sv_env_file service)
       = Some [path_join (ci_revision_directory input) "env/public.env"; path_join (ci_revision_directory input) "secrets/runtime.env"]
    /\ (forall i v, nd_volumes draft !! i = Some v -> exists definition,
          cd_volumes document !! volume_key i = Some definition
          /\ interpolate (vd_name definition) = Some (docker_volume_name v)
          /\ vd_external definition = match v with OwnedVolume _ _ => false | ExternalVolume _ _ => true end).
Proof.
  intros Hg Hwf Hs. destruct (generate_document_generated _ _ _ Hg) as (service & [G1 G2 G3 G4 G5 G6 G7 ->]).
  eexists. split; [exact G5|]. simpl. rewrite service_mounts_escaped, interpolate_escaped, !interpolate_literal.
  do 2 (split; [done|]). split; [by apply ports_read|]. split; [by apply options_read|].
  split; [apply restart_read|]. split; [done|]. split; [apply health_read|].
  split; [by repeat constructor|]. split; [done|]. intros i v Hv. rewrite G6.
  exists (volume_definition identity (resource_labels (ri_app_id identity) (rn_project_name names)) v). split.
  - apply collect_lookup; [apply imap_keys_nodup, volume_key_inj|]. apply elem_of_lookup_imap. by exists i, v.
  - destruct (wf_volumes _ Hwf) as (_ & Hall & _). rewrite Forall_forall in Hall.
    split; [apply volume_definition_name; [done|]; by eapply Hall, list_elem_of_lookup_2|]. by destruct v.
Qed.

(** The networks of the generated document are the networks Docker is later
    expected to show: the service is attached, under the same aliases, to a
    network whose name Compose reads as [name] exactly when [expected_networks]
    lists that name, and it is external exactly when SoloDock does not own it. *)
Theorem expected_networks_agree document names plan service name aliases external :
  generate_document input = Some (document, names, plan) ->
  cd_services document = {["app" := service]} ->
  validate_slug_for_resource_schema slug (ri_schema_version identity) = true ->
  (exists key definition, attachment (sv_networks service) key = Some aliases
     /\ cd_networks document !! key = Some definition
     /\ interpolate (nw_name definition) = Some name /\ nw_external definition = external)
  <-> (exists kind, MkExpectedNetwork name kind aliases ∈ expected_networks plan names slug
     /\ external = match kind with KindOwnedDefault => false | _ => true end).
Proof.
  intros Hg Hc Hs. destruct (generate_document_generated _ _ _ Hg) as (service' & [G1 G2 G3 G4 G5 G6 G7 G8]).
  assert (service' = service) as ->.
  { rewrite Hc in G5. apply (f_equal (lookup "app")) in G5. rewrite !lookup_singleton_eq in G5. by injection G5. }
  clear Hc G5.
  rewrite G8, G7. simpl. trans (exists p, p ∈ planned_networks plan names slug /\ pn_name p = name
    /\ pn_aliases p = aliases /\ external = negb (pn_owned p)).
  - split.
    + intros (key & nd & Ha & Hn & Hi & He). apply (networks_planned _ _ _ slug _ _ _ G4) in Hn as (p & Hp & Hk & ->).
      apply (attachment_planned _ _ _ _ _ _ _ G4) in Ha as (q & Hq & Hkq & Hal).
      assert (q = p) as ->. { eapply NoDup_map_inj; [by eapply planned_keys_nodup|done..|congruence]. }
      destruct (definition_name names (resource_labels (ri_app_id identity) (rn_project_name names)) plan p G1 Hs Hp) as [Hd Hx].
      exists p. rewrite Hd in Hi. rewrite Hx in He. injection Hi as ->. by subst.
    + intros (p & Hp & <- & <- & ->). exists (pn_key p). eexists.
      split; [apply (attachment_planned _ _ _ _ _ _ _ G4); eauto|].
      split; [apply (networks_planned _ _ _ slug _ _ _ G4); eauto|]. by eapply definition_name.
  - setoid_rewrite expected_networks_planned. setoid_rewrite list_elem_of_fmap. split.
    + intros (p & Hp & <- & <- & ->). exists (planned_kind p). split; [by exists p|].
      unfold planned_kind. by destruct (pn_owned p), (pn_key p =? "solodock-services")%string.
    + intros (kind & (p & [= -> -> ->] & Hp) & ->). exists p. repeat split; [done|].
      unfold planned_kind. by destruct (pn_owned p), (pn_key p =? "solodock-services")%string.
Qed.

Lemma service_labels_lookup app_id release_id :
  let labels := service_labels app_id release_id in
  labels !! MANAGED_LABEL = Some "true" /\ labels !! SCHEMA_LABEL = Some "1"
  /\ labels !! APP_ID_LABEL = Some (uuid_to_string app_id) /\ labels !! RELEASE_ID_LABEL = Some (uuid_to_string release_id).
Proof. done. Qed.

(** The container Compose creates from the generated document is the one the
    ownership test recognises: given the labels Compose reads from the document
    and the project, service and one-off labels it adds itself, the test accepts
    the container for exactly the application and project it was generated for,
    and reports exactly the release. *)
Theorem generated_container_owned document names plan service labels project entry id :
  (forall u, contains_char "$" (uuid_to_string u) = false) ->
  generate_document input = Some (document, names, plan) ->
  cd_services document = {["app" := service]} ->
  (forall k v, sv_labels service !! k = Some v -> labels !! k = interpolate v) ->
  labels !! PROJECT_LABEL = Some project -> labels !! SERVICE_LABEL = Some "app" ->
  labels !! ONEOFF_LABEL = Some "False" ->
  validate_syntactic_identity labels entry = Some id <->
  ce_id entry = ri_app_id identity /\ ce_project_name entry = project
  /\ id = MkOwnedIdentity (ri_app_id identity) (ci_release_id input).
Proof.
  intros Hu Hg Hc Hl Hp Hv Ho. destruct (generate_document_generated _ _ _ Hg) as (service' & [_ _ _ _ G5 _ _ G8]).
  assert (service' = service) as ->.
  { rewrite Hc in G5. apply (f_equal (lookup "app")) in G5. rewrite !lookup_singleton_eq in G5. by injection G5. }
  rewrite G8 in Hl. simpl in Hl. destruct (service_labels_lookup (ri_app_id identity) (ci_release_id input)) as (L1 & L2 & L3 & L4).
  apply Hl in L1, L2, L3, L4. rewrite interpolate_id in L1, L2, L3, L4 by (done || apply Hu).
  rewrite validate_syntactic_identity_spec. unfold carries_labels. rewrite L1, L2, L3, L4, Hp, Hv, Ho. split.
  - intros (Hid & _ & _ & [= Ha%uuid_to_string_inj] & [= Hr%uuid_to_string_inj] & [= ->] & _).
    split; [done|]. split; [done|]. destruct id; simpl in *. congruence.
  - intros (-> & -> & ->). by repeat split.
Qed.

Lemma matches_current actual runnable :
  matches_canonical input runnable CURRENT_COMPOSE_SCHEMA_VERSION (hex (sha256 actual)) actual = Some (Ok true) <->
  exists plan, generate input runnable = Some (Ok (actual, plan)).
Proof.
  unfold matches_canonical. rewrite bool_decide_eq_true_2 by done. simpl. split.
  - destruct (generate input runnable) as [[[canonical plan]|e]|]; simpl; [|done..].
    intros [= ->%bool_decide_eq_true]. by exists plan.
  - intros [plan ->]. simpl. by rewrite bool_decide_eq_true_2.
Qed.
End generation.

(** ** The stored document *)

Section stored.
Context {UT : UuidText} {CR : Crypto} {CT : ComposeText}.

(** The Compose file of a release is the one its draft generates: the very text
    for the current schema, the same YAML value for an older one. *)
Definition canonical_compose (input : ComposeInput) (schema : Z) (compose : string) : Prop :=
  exists canonical plan, generate input true = Some (Ok (canonical, plan))
    /\ if decide (schema = CURRENT_COMPOSE_SCHEMA_VERSION) then compose = canonical
       else exists value, yaml_from_slice compose = Some value /\ yaml_from_slice canonical = Some value.

Lemma matches_canonical_inv input schema sha compose :
  matches_canonical input true schema sha compose = Some (Ok true) ->
  hex (sha256 compose) = sha /\ canonical_compose input schema compose.
Proof.
  unfold matches_canonical. destruct (decide (hex (sha256 compose) = sha)) as [Hs|Hs];
    [rewrite bool_decide_eq_true_2 by done; simpl|rewrite bool_decide_eq_false_2 by done; done].
  destruct (generate input true) as [[[canonical plan]|e]|] eqn:Hg; simpl; [|done..]. intros H. split; [done|].
  exists canonical, plan. split; [done|]. unfold CURRENT_COMPOSE_SCHEMA_VERSION in *.
  destruct (decide _) as [->|Hv]; [by injection H as ?%bool_decide_eq_true|].
  rewrite bool_decide_eq_false_2 in H by done. destruct (negb _); [done|].
  destruct (yaml_from_slice compose) as [v|]; [|done]. destruct (yaml_from_slice canonical) as [v'|]; [|done].
  injection H as ->%bool_decide_eq_true. eauto.
Qed.
End stored.

(** ** A concrete document *)

#[local] Instance sample_uuid_text : UuidText := binary_uuid_text.
#[local] Instance sample_hashes : Crypto := demo_crypto.
#[local] Instance sample_compose_text : ComposeText :=
  {| yaml_to_string _ := Some "services: {}"; yaml_value := string; yaml_from_slice := Some |}.
#[local] Instance sample_interpolation : Interpolation := closed_interpolation.

Definition sample_compose : ComposeInput :=
  MkComposeInput (MkAppResourceIdentity 7 "blog" 2) 20 "ghcr.io/acme/blog@sha256:00" "/data/apps/7/config-revisions/9"
    sample_normal true.

Lemma sample_well_formed : well_formed sample_normal.
Proof. destruct (proj1 (normalize_iff _ _ _ _ _ _ _ _) sample_accepted) as [Hok _]. by eapply normalized_well_formed. Qed.

Definition sample_document : option (ComposeDocument * AppResourceNames * NetworkPlan) := generate_document sample_compose.

Lemma generated_document_closed_witness :
  exists document names plan service, sample_document = Some (document, names, plan)
    /\ cd_services document = {["app" := service]} /\ length (sv_volumes service) = 4.
Proof.
  destruct (generated_document_closed sample_compose sample_well_formed eq_refl)
    as (document & names & plan & service & Hg & Hc & _ & _ & _ & Hl). exists document, names, plan, service. done.
Defined.

Lemma compose_reads_the_draft_witness :
  exists document names plan service, sample_document = Some (document, names, plan)
    /\ cd_services document = {["app" := service]}
    /\ interpolate (sv_image service) = Some "ghcr.io/acme/blog@sha256:00"
    /\ Forall2 port_read (nd_ports sample_normal) (sv_ports service)
    /\ sv_stop_grace_period service = Some (show_Z (nd_stop_grace_period_seconds sample_normal) +:+ "s").
Proof.
  destruct (generate_document_some sample_compose sample_well_formed eq_refl) as (document & names & plan & Hg).
  destruct (compose_reads_the_draft sample_compose document names plan Hg sample_well_formed eq_refl)
    as (service & Hc & _ & Hi & Hp & _ & _ & Hs & _). exists document, names, plan, service. done.
Defined.

Lemma expected_networks_agree_witness :
  exists document names plan service, sample_document = Some (document, names, plan)
    /\ cd_services document = {["app" := service]}
    /\ ((exists key definition, attachment (sv_networks service) key = Some ["api"; "web"]
           /\ cd_networks document !! key = Some definition /\ interpolate (nw_name definition) = Some "shared"
           /\ nw_external definition = true)
        <-> exists kind, MkExpectedNetwork "shared" kind ["api"; "web"] ∈ expected_networks plan names "blog"
           /\ true = match kind with KindOwnedDefault => false | _ => true end).
Proof.
  destruct (generate_document_some sample_compose sample_well_formed eq_refl) as (document & names & plan & Hg).
  destruct (generate_document_generated _ _ _ _ Hg) as (service & Hgen). pose proof (gn_services _ _ _ _ _ Hgen) as Hc.
  exists document, names, plan, service. split; [done|]. split; [done|].
  exact (expected_networks_agree sample_compose document names plan service "shared" ["api"; "web"] true Hg Hc eq_refl).
Defined.

Lemma generated_container_owned_witness :
  exists document names plan service, sample_document = Some (document, names, plan)
    /\ cd_services document = {["app" := service]}
    /\ forall labels entry,
       (forall k v, sv_labels service !! k = Some v -> labels !! k = interpolate v) ->
       labels !! PROJECT_LABEL = Some "solodock-blog" -> labels !! SERVICE_LABEL = Some "app" ->
       labels !! ONEOFF_LABEL = Some "False" -> ce_id entry = 7%N -> ce_project_name entry = "solodock-blog" ->
       validate_syntactic_identity labels entry = Some (MkOwnedIdentity 7 20).
Proof.
  destruct (generate_document_some sample_compose sample_well_formed eq_refl) as (document & names & plan & Hg).
  destruct (generate_document_generated _ _ _ _ Hg) as (service & Hgen). pose proof (gn_services _ _ _ _ _ Hgen) as Hc.
  exists document, names, plan, service. split; [done|]. split; [done|].
  intros labels entry Hl Hp Hv Ho Hi Hn.
  apply (generated_container_owned sample_compose document names plan service labels "solodock-blog" entry
    (MkOwnedIdentity 7 20)); try done. intros [|p]; [done|]. change (contains_char "$" (positive_digits p) = false).
  unfold contains_char. by induction p.
Defined.
