(* ===== verification/FileSystem.v ===== *)
(** * FileSystem: directories, durability and crashes

    The calls of [std::fs] that [src/app_store/{mod,atomic,releases}.rs] and
    [src/security/permissions.rs] make, and a file system that answers them.

    A directory holds its entries and the older versions of its entries that
    are not yet overwritten on disk: every change of a directory keeps the
    previous version, an [fsync] of the directory drops them all, and a crash
    returns a directory to one of its versions (the metadata of one directory
    reaches the disk in order). The content of a file is unspecified after a
    crash unless the file itself was synchronised.

    - [answer], [change]: what a call answers and does when nothing fails.
    - [possible]: the answers a call may give; besides the correct one, any call
      may fail with an I/O error, and a failed call has no effect except that a
      failed write leaves the file's content unspecified and a failed removal of
      a directory tree has removed any part of it.
    - [step]: the file system after an answered call.
    - [crash]: the file systems a machine may restart with. *)

From S2P Require Import Prelude Text Reference Models Effects Codec Names Drafts.

Inductive FileKind := KindFile | KindDirectory | KindSymlink.

#[export] Instance FileKind_eq_dec : EqDecision FileKind.
Proof. solve_decision. Defined.

(** [std::fs::Metadata] of an entry, without following a link. *)
Record Stat := MkStat { st_kind : FileKind; st_uid : Z; st_mode : Z }.

(** What identifies a file-system object. Directories have their number; files
    are not told apart here, so that any number is possible for them. *)
Record FileId := MkFileId { fi_kind : FileKind; fi_number : N }.

#[export] Instance FileId_eq_dec : EqDecision FileId.
Proof. solve_decision. Defined.

(** A path below the managed root, one component per element. *)
Abbreviation path := (list string) (only parsing).

Inductive entry :=
| EFile (uid mode : Z) (content : option string) (synced : bool)
| ELink (target : string)
| EDir (ino : N).

#[export] Instance entry_eq_dec : EqDecision entry.
Proof. solve_decision. Defined.

Abbreviation entries := (gmap string entry) (only parsing).

Record dir := MkDir {
  d_uid : Z;
  d_mode : Z;
  d_entries : entries;
  d_older : list entries;
}.

Abbreviation fs := (gmap N dir) (only parsing).

(** Everything a restart may find in a directory. *)
Definition versions (d : dir) : list entries := d_entries d :: d_older d.

(** ** Calls *)

Inductive fsev : Type -> Type :=
| FsSymlinkMetadata (p : path) : fsev (result IoKind Stat)
| FsReadLink (p : path) (name : string) : fsev (result IoKind string)
| FsReadToString (p : path) (name : string) : fsev (result IoKind string)
| FsCreateNew (p : path) (name : string) (mode : Z) : fsev (result IoKind unit)
| FsWriteAll (p : path) (name contents : string) : fsev (result IoKind unit)
| FsSetPermissions (p : path) (name : string) (mode : Z) : fsev (result IoKind unit)
| FsSyncAll (p : path) (name : string) : fsev (result IoKind unit)
| FsRename (p : path) (source target : string) : fsev (result IoKind unit)
| FsRenameNoReplace (p : path) (source : string) (q : path) (target : string) : fsev (result IoKind unit)
| FsSymlink (target : string) (p : path) (name : string) : fsev (result IoKind unit)
| FsRemoveFile (p : path) (name : string) : fsev (result IoKind unit)
| FsCreateDir (p : path) (name : string) (mode : Z) : fsev (result IoKind unit)
(** How a removal went, and what is left. *)
| FsRemoveDirAll (p : path) (name : string) : fsev (result IoKind unit * fs)
| FsRemoveDir (p : path) (name : string) : fsev (result IoKind unit)
(** [metadata.len()] and what identifies an object: device, inode and type. *)
| FsLength (p : path) : fsev (result IoKind Z)
| FsIdentity (p : path) : fsev (result IoKind FileId)
| FsReadDir (p : path) : fsev (result IoKind (list string))
| FsNow : fsev Time
| FsSyncDirectory (p : path) : fsev (result IoKind unit)
| FsNewV4 : fsev Uuid
(** What the rest of the host answers to one validation of bind sources, and the
    allowed roots in force then. *)
| FsBindHost : fsev (BindHost * list string).

(** The host: the service's user, the directory at the root, the source of
    fresh identifiers, the clock, and what is outside the managed root. *)
Record Host := MkHost {
  h_euid : Z;
  h_root : N;
  h_new_v4 : fs -> Uuid;
  h_now : fs -> Time;
  h_binds : BindHost * list string;
}.

(** ** Looking up and changing directories *)

Section fs.
Context (h : Host).

Fixpoint walk (w : fs) (e : entry) (p : path) : option entry :=
  match p with
  | [] => Some e
  | c :: p' =>
      match e with
      | EDir i => d ← w !! i; e' ← d_entries d !! c; walk w e' p'
      | _ => None
      end
  end.

Definition resolve (w : fs) (p : path) : option N :=
  match walk w (EDir (h_root h)) p with Some (EDir i) => Some i | _ => None end.

Definition dir_at (w : fs) (p : path) : option (N * dir) :=
  i ← resolve w p; d ← w !! i; Some (i, d).

Definition stat (w : fs) (e : entry) : option Stat :=
  match e with
  | EFile uid mode _ _ => Some (MkStat KindFile uid mode)
  | ELink _ => Some (MkStat KindSymlink (h_euid h) 511)
  | EDir i => d ← w !! i; Some (MkStat KindDirectory (d_uid d) (d_mode d))
  end.

(** A directory operation keeps the previous version; writing to a file is not
    one. *)
Definition put (d : dir) (m : entries) : dir := MkDir (d_uid d) (d_mode d) m (d_entries d :: d_older d).
Definition put_file (d : dir) (name : string) (e : entry) : dir :=
  MkDir (d_uid d) (d_mode d) (<[name := e]> (d_entries d)) (d_older d).
Definition synced (d : dir) : dir := MkDir (d_uid d) (d_mode d) (d_entries d) [].

Definition update_at (w : fs) (p : path) (f : dir -> dir) : fs :=
  match dir_at w p with Some (i, d) => <[i := f d]> w | None => w end.

(** What a call on a name of a directory answers. *)
Definition on_name {A} (w : fs) (p : path) (name : string)
    (f : option entry -> result IoKind A) : result IoKind A :=
  match dir_at w p with Some (_, d) => f (d_entries d !! name) | None => Err NotFound end.

Definition length_of (e : entry) : Z :=
  match e with
  | EFile _ _ (Some content) _ => Z.of_nat (String.length content)
  | ELink target => Z.of_nat (String.length target)
  | _ => 0
  end.

Definition identity_of (e : entry) : FileId :=
  match e with
  | EFile _ _ _ _ => MkFileId KindFile 0
  | ELink _ => MkFileId KindSymlink 0
  | EDir j => MkFileId KindDirectory j
  end.

Definition answer {X} (e : fsev X) (w : fs) : X :=
  match e in fsev X return X with
  | FsSymlinkMetadata p => ok_or (walk w (EDir (h_root h)) p ≫= stat w) NotFound
  | FsReadLink p name => on_name w p name (fun o => match o with
      | Some (ELink target) => Ok target | Some _ => Err OtherIo | None => Err NotFound end)
  | FsReadToString p name => on_name w p name (fun o => match o with
      | Some (EFile _ _ (Some c) _) => Ok c
      | Some _ => Err InvalidData | None => Err NotFound end)
  | FsCreateNew p name _ => on_name w p name (fun o => match o with
      | Some _ => Err AlreadyExists | None => Ok tt end)
  | FsWriteAll p name _ | FsSyncAll p name | FsSetPermissions p name _ => on_name w p name (fun o => match o with
      | Some (EFile _ _ _ _) => Ok tt | Some _ => Err OtherIo | None => Err NotFound end)
  | FsRename p source target => on_name w p source (fun o => match o with
      | None => Err NotFound
      | Some _ => on_name w p target (fun t => match t with
          | Some (EDir _) => Err OtherIo | _ => Ok tt end)
      end)
  | FsRenameNoReplace p source q target => on_name w p source (fun o => match o with
      | None => Err NotFound
      | Some _ => on_name w q target (fun t => match t with Some _ => Err AlreadyExists | None => Ok tt end)
      end)
  | FsCreateDir p name _ => on_name w p name (fun o => match o with
      | Some _ => Err AlreadyExists | None => Ok tt end)
  | FsRemoveDirAll p name =>
      match dir_at w p with
      | Some (_, d) =>
          match d_entries d !! name with
          | Some (EDir _) => (Ok tt, update_at w p (fun d => put d (delete name (d_entries d))))
          | Some _ => (Err OtherIo, w)
          | None => (Err NotFound, w)
          end
      | None => (Err NotFound, w)
      end
  | FsRemoveDir p name => on_name w p name (fun o => match o with
      | Some (EDir j) =>
          match w !! j with
          | Some d => if bool_decide (d_entries d = ∅) then Ok tt else Err OtherIo
          | None => Err OtherIo
          end
      | Some _ => Err OtherIo | None => Err NotFound end)
  | FsLength p => ok_or (length_of <$> walk w (EDir (h_root h)) p) NotFound
  | FsIdentity p => ok_or (identity_of <$> walk w (EDir (h_root h)) p) NotFound
  | FsReadDir p =>
      match dir_at w p with
      | Some (_, d) => Ok (map_to_list (d_entries d)).*1
      | None => Err NotFound
      end
  | FsSymlink _ p name => on_name w p name (fun o => match o with
      | Some _ => Err AlreadyExists | None => Ok tt end)
  | FsRemoveFile p name => on_name w p name (fun o => match o with
      | Some (EDir _) => Err OtherIo | Some _ => Ok tt | None => Err NotFound end)
  | FsSyncDirectory p => match dir_at w p with Some _ => Ok tt | None => Err NotFound end
  | FsNewV4 => h_new_v4 h w
  | FsNow => h_now h w
  | FsBindHost => h_binds h
  end.

Definition change (d : dir) {X} (e : fsev X) : dir :=
  match e with
  | FsCreateNew _ name mode => put d (<[name := EFile (h_euid h) mode (Some EmptyString) false]> (d_entries d))
  | FsWriteAll _ name contents =>
      match d_entries d !! name with
      | Some (EFile uid mode _ _) => put_file d name (EFile uid mode (Some contents) false)
      | _ => d
      end
  | FsSyncAll _ name =>
      match d_entries d !! name with
      | Some (EFile uid mode c _) => put_file d name (EFile uid mode c true)
      | _ => d
      end
  | FsSetPermissions _ name mode =>
      match d_entries d !! name with
      | Some (EFile uid _ c _) => put_file d name (EFile uid mode c false)
      | _ => d
      end
  | FsRename _ source target =>
      match d_entries d !! source with
      | Some f => put d (<[target := f]> (delete source (d_entries d)))
      | None => d
      end
  | FsSymlink target _ name => put d (<[name := ELink target]> (d_entries d))
  | FsRemoveFile _ name | FsRemoveDir _ name => put d (delete name (d_entries d))
  | FsSyncDirectory _ => synced d
  | _ => d
  end.

(** A write that failed half way. *)
Definition clobber (d : dir) {X} (e : fsev X) : dir :=
  match e with
  | FsWriteAll _ name _ =>
      match d_entries d !! name with
      | Some (EFile uid mode _ _) => put_file d name (EFile uid mode None false)
      | _ => d
      end
  | _ => d
  end.

(** The directory a call changes, for calls that change one directory. *)
Definition target_of {X} (e : fsev X) : option path :=
  match e with
  | FsCreateNew p _ _ | FsWriteAll p _ _ | FsSetPermissions p _ _ | FsSyncAll p _ | FsRename p _ _
  | FsSymlink _ p _ | FsRemoveFile p _ | FsRemoveDir p _ | FsSyncDirectory p => Some p
  | _ => None
  end.

(** Calls that change nothing. *)
Definition reads {X} (e : fsev X) : bool :=
  match e with
  | FsSymlinkMetadata _ | FsReadLink _ _ | FsReadToString _ _ | FsReadDir _ | FsLength _ | FsIdentity _ | FsNewV4 | FsNow | FsBindHost => true
  | _ => false
  end.

Definition succeeded {X} (e : fsev X) : X -> bool :=
  match e in fsev X return X -> bool with
  | FsSymlinkMetadata _ => is_ok
  | FsReadLink _ _ | FsReadToString _ _ => is_ok
  | FsCreateNew _ _ _ | FsWriteAll _ _ _ | FsSetPermissions _ _ _ | FsSyncAll _ _ | FsRename _ _ _
  | FsRenameNoReplace _ _ _ _ | FsSymlink _ _ _ | FsRemoveFile _ _ | FsCreateDir _ _ _ | FsSyncDirectory _ => is_ok
  | FsRemoveDirAll _ _ => fun x => is_ok x.1
  | FsRemoveDir _ _ => is_ok
  | FsLength _ => is_ok
  | FsIdentity _ => is_ok
  | FsReadDir _ => is_ok
  | FsNewV4 => fun _ => true
  | FsNow => fun _ => true
  | FsBindHost => fun _ => true
  end.

(** A new directory, empty, and its entry. *)
Definition make_dir (w : fs) (p : path) (name : string) (mode : Z) : fs :=
  match dir_at w p with
  | Some (i, d) =>
      let j := fresh (dom w) in
      <[j := MkDir (h_euid h) mode ∅ []]> (<[i := put d (<[name := EDir j]> (d_entries d))]> w)
  | None => w
  end.

(** Within a directory a rename is one change; between two, each of them changes
    on its own. *)
Definition move (w : fs) (p : path) (source : string) (q : path) (target : string) : fs :=
  match dir_at w p with
  | Some (_, d) =>
      match d_entries d !! source with
      | Some f =>
          if bool_decide (p = q) then update_at w p (fun d => put d (<[target := f]> (delete source (d_entries d))))
          else update_at (update_at w p (fun d => put d (delete source (d_entries d)))) q
                 (fun d => put d (<[target := f]> (d_entries d)))
      | None => w
      end
  | None => w
  end.

(** Calls that may change more than one directory. *)
Definition spread {X} (e : fsev X) : X -> fs -> fs :=
  match e in fsev X return X -> fs -> fs with
  | FsCreateDir p name mode => fun x w => if is_ok x then make_dir w p name mode else w
  | FsRenameNoReplace p source q target => fun x w => if is_ok x then move w p source q target else w
  | FsRemoveDirAll p name => fun x _ => x.2
  | _ => fun _ w => w
  end.

Definition step (w : fs) (o : obs fsev) : fs :=
  match o with
  | Obs e x =>
      match target_of e with
      | Some p => update_at w p (fun d => if succeeded e x then change d e else clobber d e)
      | None => spread e x w
      end
  end.

(** Any fresh name, any time and any answer about the rest of the host are
    possible; the content of a file that is unspecified reads as anything; a
    directory is listed in any order. *)
Definition unspecified (w : fs) {X} (e : fsev X) : X -> Prop :=
  match e in fsev X return X -> Prop with
  | FsNewV4 => fun _ => True
  | FsNow => fun _ => True
  | FsBindHost => fun _ => True
  | FsReadToString p name => fun _ =>
      exists i d uid mode b, dir_at w p = Some (i, d) /\ d_entries d !! name = Some (EFile uid mode None b)
  | FsReadDir p => fun x =>
      exists i d l, dir_at w p = Some (i, d) /\ x = Ok l /\ l ≡ₚ (map_to_list (d_entries d)).*1
  | FsLength p => fun x =>
      match walk w (EDir (h_root h)) p with
      | Some (EFile _ _ None _) | Some (EDir _) => is_ok x = true
      | _ => False
      end
  | FsIdentity p => fun x =>
      match walk w (EDir (h_root h)) p with
      | Some (EFile _ _ _ _) => exists n, x = Ok (MkFileId KindFile n)
      | Some (ELink _) => exists n, x = Ok (MkFileId KindSymlink n)
      | _ => False
      end
  | _ => fun _ => False
  end.

(** The directories below an entry. *)
Inductive below (w : fs) : entry -> N -> Prop :=
| BelowHere j : below w (EDir j) j
| BelowStep j d name e k : w !! j = Some d -> d_entries d !! name = Some e -> below w e k -> below w (EDir j) k.

(** Some entries of a directory are gone. *)
Definition emptied (o o' : option dir) : Prop :=
  match o, o' with
  | Some d, Some d' =>
      d_uid d' = d_uid d /\ d_mode d' = d_mode d
      /\ forall m', m' ∈ versions d' -> exists m, m ∈ versions d /\ m' ⊆ m
  | None, None => True
  | _, _ => False
  end.

(** What the removal of a tree may leave: any part of the tree, and nothing else
    has changed but, on success, the entry of the tree. *)
Definition partly_removed (w : fs) (p : path) (name : string) (x : result IoKind unit * fs) : Prop :=
  match dir_at w p with
  | Some (i, d) =>
      match d_entries d !! name with
      | Some (EDir j) =>
          let w1 := if is_ok x.1 then update_at w p (fun d => put d (delete name (d_entries d))) else w in
          (forall k, emptied (w1 !! k) (x.2 !! k)) /\ (forall k, ~ below w (EDir j) k -> x.2 !! k = w1 !! k)
      | Some _ => x.2 = w /\ is_ok x.1 = false
      | None => x.2 = w /\ is_ok x.1 = false
      end
  | None => x.2 = w /\ is_ok x.1 = false
  end.

Definition failed (w : fs) {X} (e : fsev X) : X -> Prop :=
  match e in fsev X return X -> Prop with
  | FsSymlinkMetadata _ => fun r => r = Err OtherIo
  | FsReadLink _ _ | FsReadToString _ _ => fun r => r = Err OtherIo
  | FsCreateNew _ _ _ | FsWriteAll _ _ _ | FsSetPermissions _ _ _ | FsSyncAll _ _ | FsRename _ _ _
  | FsRenameNoReplace _ _ _ _ | FsSymlink _ _ _ | FsRemoveFile _ _ | FsCreateDir _ _ _ | FsSyncDirectory _ =>
      fun r => r = Err OtherIo
  | FsRemoveDirAll p name => partly_removed w p name
  | FsReadDir _ => fun r => r = Err OtherIo
  | FsRemoveDir _ _ => fun r => r = Err OtherIo
  | FsLength _ => fun r => r = Err OtherIo
  | FsIdentity _ => fun r => r = Err OtherIo
  | _ => fun _ => False
  end.

Definition possible X (w : fs) (e : fsev X) (x : X) : Prop :=
  x = answer e w \/ failed w e x \/ unspecified w e x.

(** Nothing fails. *)
Definition serve (X : Type) (e : fsev X) (w : fs) : X * fs :=
  (answer e w, step w (Obs e (answer e w))).

(** ** Crashes *)

Definition torn (e : entry) : entry :=
  match e with EFile uid mode _ false => EFile uid mode None false | _ => e end.

Definition crashed_dir (d d' : dir) : Prop :=
  d_uid d' = d_uid d /\ d_mode d' = d_mode d /\ d_older d' = []
  /\ exists m, m ∈ versions d /\ d_entries d' = torn <$> m.

Definition crash (w w' : fs) : Prop :=
  forall i, match w !! i, w' !! i with
            | Some d, Some d' => crashed_dir d d'
            | None, None => True
            | _, _ => False
            end.

(** ** Frame

    A directory whose subdirectories stay as they are can change without
    moving any path. *)

Definition is_dir (o : option entry) : option N :=
  match o with Some (EDir i) => Some i | _ => None end.

Definition same_dirs (d d' : dir) : Prop :=
  forall name, is_dir (d_entries d' !! name) = is_dir (d_entries d !! name).

Lemma walk_app w e p q : walk w e (p ++ q) = walk w e p ≫= fun e' => walk w e' q.
Proof.
  revert e. induction p as [|c p IH]; intros e; [done|]. destruct e as [| |k]; [done..|]. simpl.
  destruct (w !! k) as [d|]; [|done]. simpl. destruct (d_entries d !! c) as [e'|]; [|done]. apply IH.
Qed.

Lemma walk_insert w i d d' k p :
  w !! i = Some d -> same_dirs d d' ->
  is_dir (walk (<[i := d']> w) (EDir k) p) = is_dir (walk w (EDir k) p).
Proof.
  intros Hi Hs. revert k. induction p as [|c p IH]; intros k; [done|]. simpl.
  destruct (decide (k = i)) as [->|Hk].
  - rewrite lookup_insert_eq, Hi. simpl. specialize (Hs c).
    destruct (d_entries d' !! c) as [[| |j']|], (d_entries d !! c) as [[| |j]|]; simpl in *;
      simplify_eq; try (by destruct p); try done; apply IH.
  - rewrite lookup_insert_ne by done. destruct (w !! k) as [dk|]; simpl; [|done].
    destruct (d_entries dk !! c) as [[| |j]|]; simpl; try (by destruct p); apply IH.
Qed.

Lemma resolve_insert w i d d' p :
  w !! i = Some d -> same_dirs d d' -> resolve (<[i := d']> w) p = resolve w p.
Proof. intros. by apply walk_insert with d. Qed.

Lemma dir_at_insert w i d d' p :
  w !! i = Some d -> same_dirs d d' -> resolve w p = Some i ->
  dir_at (<[i := d']> w) p = Some (i, d').
Proof.
  intros Hi Hs Hp. unfold dir_at. rewrite resolve_insert with (d := d) by done.
  rewrite Hp. simpl. by rewrite lookup_insert_eq.
Qed.
End fs.
