(* ===== verification/StoreBase.v ===== *)
(** * StoreBase: what the files of the directory store share

    The text formats of its documents, the permission checks of
    [src/security/permissions.rs] and [sync_directory] of
    [src/app_store/mod.rs], over the calls of [FileSystem]. *)

From S2P Require Import Prelude Text Reference Models Effects Codec Names Drafts FileSystem.
From Stdlib Require Import Ascii.

(** ** Text formats

    [uuid] and [toml] are third-party: the short spelling of an identifier, and
    the printers and parsers of the three documents of the store. *)

(** The document schemas 3 and 4 were signed as: [LegacyRelease] of
    [releases::sign]. *)
Record LegacyRelease := MkLegacyRelease {
  lr_schema_version : Z;
  lr_compose_schema_version : Z;
  lr_id : Uuid;
  lr_app_id : Uuid;
  lr_config_revision : Uuid;
  lr_config_sha256 : string;
  lr_stop_grace_period_seconds : option Z;
  lr_source_image_ref : string;
  lr_logical_registry : string;
  lr_repository : string;
  lr_source_tag : string;
  lr_source_descriptor_digest : string;
  lr_index_digest : option string;
  lr_manifest_digest : string;
  lr_runnable_image_ref : string;
  lr_platform_os : string;
  lr_platform_architecture : string;
  lr_platform_variant : option string;
  lr_local_image_id : string;
  lr_compose_sha256 : string;
  lr_credential_ref : option Uuid;
  lr_trigger : ReleaseTrigger;
  lr_source_release_id : option Uuid;
  lr_created_at : Time;
  lr_integrity_hmac : string;
}.

Class StoreText := {
  uuid_simple : Uuid -> string;
  metadata_to_toml : AppMetadata -> string;
  metadata_of_toml : string -> option AppMetadata;
  metadata_round_trip : forall m, metadata_of_toml (metadata_to_toml m) = Some m;
  release_to_toml : ReleaseV2 -> string;
  legacy_to_toml : LegacyRelease -> string;
  release_of_toml : string -> option ReleaseV2;
  config_to_toml : ConfigMetadata -> string;
  config_of_toml : string -> option ConfigMetadata;
  (** [serde_json::to_vec] of the document that is hashed *)
  canonical_json : ConfigMetadata -> list PublicEnvInput -> gmap string string -> string;
}.

Definition TEMP_PREFIX : string := ".solodock-tmp-".
Definition link_name (link : ReleaseLink) : string :=
  match link with LinkActive => "active" | LinkPending => "pending" end.

Section store.
Context {UT : UuidText} {ST : StoreText}.
(** The effective user. *)
Context (euid : Z).

Abbreviation store A := (eprog fsev StoreError A).

Definition io {X} (e : fsev (result IoKind X)) : store X := try_call e SeIo.
Definition perm {X} (e : fsev (result IoKind X)) : store X := try_call e (fun kind => SePermission (PeIo kind)).

(** ** Permissions *)

Definition check_private (p : path) (directory : bool) : store unit :=
  st <- perm (FsSymlinkMetadata p) ;;
  lift (refuse_if ((st_kind st =? KindSymlink) || (directory && (st_kind st ≠? KindDirectory))
                   || (negb directory && (st_kind st ≠? KindFile))) (SePermission PeUnexpectedType)) ;;;
  lift (refuse_if (st_uid st ≠? euid) (SePermission PeOwner)) ;;;
  lift (refuse_if (Z.land (st_mode st) 63 ≠? 0%Z) (SePermission PeMode)).

Fixpoint check_components (current relative : path) (directory : bool) : store unit :=
  match relative with
  | [] => eret tt
  | c :: rest =>
      check_private (current ++ [c]) (negb (is_nil rest) || directory) ;;;
      check_components (current ++ [c]) rest directory
  end.

(** [check_private_tree(root, root/relative, directory)]. *)
Definition check_private_tree (root relative : path) (directory : bool) : store unit :=
  check_private root true ;;; check_components root relative directory.

Definition temp_name (u : Uuid) : string := TEMP_PREFIX +:+ uuid_simple u.

Definition sync_directory (p : path) : store unit := io (FsSyncDirectory p).

(** [if result.is_err() { let _ = fs::remove_file(&temp); } result] *)
Definition removing_on_error {A} (result : store A) (p : path) (temp : string) : store A :=
  prog_bind result (fun r => match r with
    | Ok a => Ret (Ok a)
    | Err e => Vis (FsRemoveFile p temp) (fun _ => Ret (Err e))
    end).

End store.
