(* ===== verification/AtomicTree.v ===== *)
(** * AtomicTree: directories published by one rename

    The store publishes a revision, a release or an application by building a
    directory tree under a temporary name and renaming it once everything in it
    is on disk. This file proves, for any such tree, that a restart never finds
    a part of it under its final name: [inv] holds wherever the process or the
    machine stops, and a tree visible under the final name in any version of
    the parent directory meets its specification. *)

From S2P Require Import Prelude Text Reference Models Effects Codec Names Drafts FileSystem StoreBase.

(** Directories by their path. *)
Abbreviation view := (@gmap (list string) _ (@list_countable string _ _) (N * dir)) (only parsing).

(** ** Reachability over all versions *)

Definition edge (d : dir) (k : N) : Prop := exists m name, m ∈ versions d /\ m !! name = Some (EDir k).

Inductive reach (w : fs) : N -> N -> Prop :=
| ReachHere j : reach w j j
| ReachStep j d l k : w !! j = Some d -> edge d l -> reach w l k -> reach w j k.

Lemma below_reach w j k : below w (EDir j) k -> reach w j k.
Proof.
  remember (EDir j) as e eqn:He. intros H. revert j He. induction H as [j'|j' d name e k Hw He Hb IH]; intros j [= ->].
  - constructor.
  - destruct e as [| |l]; try by inversion Hb. econstructor; [exact Hw| |by apply IH].
    exists (d_entries d), name. split; [apply list_elem_of_In; by left|done].
Qed.

(** Fewer edges, less reachable. *)
Lemma reach_shrink w w' j k :
  (forall j d', w' !! j = Some d' -> exists d, w !! j = Some d /\ forall l, edge d' l -> edge d l) ->
  reach w' j k -> reach w j k.
Proof.
  intros Hs. induction 1 as [j|j d' l k Hw He _ IH]; [constructor|].
  destruct (Hs j d' Hw) as (d & Hd & Hsub). econstructor; [done|by apply Hsub|done].
Qed.

(** One new, empty directory. *)
Lemma reach_fresh w w' n j k :
  w !! n = None -> (forall d', w' !! n = Some d' -> forall l, ~ edge d' l) ->
  (forall j d', j <> n -> w' !! j = Some d' -> exists d, w !! j = Some d /\ forall l, edge d' l -> edge d l \/ l = n) ->
  reach w' j k -> j <> n -> reach w j k \/ k = n.
Proof.
  intros Hn He Hs. induction 1 as [j|j d' l k Hw Hl Hr IH]; intros Hj; [by left; constructor|].
  destruct (Hs j d' Hj Hw) as (d & Hd & Hsub). destruct (Hsub l Hl) as [Hl'| ->].
  - destruct (decide (l = n)) as [->|Hne].
    + right. clear -Hr He. inversion Hr as [|? d l ? Hw He']; subst; [done|]. by destruct (He d Hw l).
    + destruct (IH Hne) as [?| ->]; [left; by econstructor|by right].
  - right. clear -Hr He. inversion Hr as [|? d l ? Hw He']; subst; [done|]. by destruct (He d Hw l).
Qed.

Lemma reach_new w n k : (forall d, w !! n = Some d -> forall l, ~ edge d l) -> reach w n k -> k = n.
Proof. intros He Hr. inversion Hr as [|? d l ? Hw He']; subst; [done|]. by destruct (He d Hw l). Qed.

Definition closed (w : fs) : Prop := forall j d k, w !! j = Some d -> edge d k -> is_Some (w !! k).

(** A file operation adds no directory. *)
Lemma edge_same d d' k :
  (forall m', m' ∈ versions d' -> exists m, m ∈ versions d /\ forall name, is_dir (m' !! name) = is_dir (m !! name)
     \/ is_dir (m' !! name) = None) ->
  edge d' k -> edge d k.
Proof.
  intros Hs (m' & name & Hm & Hk). destruct (Hs m' Hm) as (m & Hm' & Hd). exists m, name. split; [done|].
  destruct (Hd name) as [Hn|Hn]; rewrite Hk in Hn; simpl in Hn; [|done]. by destruct (m !! name) as [[| |]|]; simplify_eq/=.
Qed.

Section atomic.
Context (h : Host) (os : list N) (base : list string) (r : N) (temp target : string).
(** What a complete tree looks like: its directories by their path. *)
Context (spec : view -> Prop).

(** ** The way to the parent directory *)

Fixpoint leads (w : fs) (os : list N) (q : list string) : Prop :=
  match os, q with
  | [], [] => True
  | j :: os', c :: q' =>
      (exists d, w !! j = Some d /\ forall m, m ∈ versions d -> m !! c = Some (EDir (default r (head os'))))
      /\ leads w os' q'
  | _, _ => False
  end.

Lemma leads_walk w os' q rest :
  leads w os' q -> walk w (EDir (default r (head os'))) (q ++ rest) = walk w (EDir r) rest.
Proof.
  revert q. induction os' as [|j os' IH]; intros [|c q] Hl; try done. destruct Hl as [(d & Hd & Hm) Hl].
  change (walk w (EDir j) (c :: (q ++ rest)) = walk w (EDir r) rest). cbn [walk]. rewrite Hd. cbn [mbind option_bind].
  rewrite (Hm (d_entries d)) by (apply list_elem_of_In; by left). by apply IH.
Qed.

Lemma leads_agree w w' os' q : leads w os' q -> (forall j, j ∈ os' -> w' !! j = w !! j) -> leads w' os' q.
Proof.
  revert q. induction os' as [|j os' IH]; intros [|c q] Hl Ha; try done. destruct Hl as [Hd Hl].
  split; [by rewrite Ha by set_solver|]. apply IH; [done|]. intros k Hk. apply Ha. set_solver.
Qed.

Lemma leads_some w os' q k dr : leads w os' q -> w !! r = Some dr -> k ∈ r :: os' -> is_Some (w !! k).
Proof.
  intros Hl Hr [->|Hk]%elem_of_cons; [by rewrite Hr|]. revert q Hl. induction os' as [|j os' IH]; intros [|c q] Hl; try done.
  - by apply elem_of_nil in Hk.
  - destruct Hl as [(d & Hd & _) Hl]. apply elem_of_cons in Hk as [->|Hk]; [by rewrite Hd|by eapply IH].
Qed.

(** ** The invariant *)

Definition apart (w : fs) (m : entries) (k : N) : Prop := forall j, m !! temp = Some (EDir j) -> ~ reach w j k.

Definition holds (w : fs) (tr : view) : Prop :=
  forall q k d, tr !! q = Some (k, d) -> w !! k = Some d.

Definition clean (d : dir) : Prop := d_older d = [] /\ torn <$> d_entries d = d_entries d.

(** The tree that the target names: complete and on disk. *)
Record whole (w : fs) (j : N) (tr : view) : Prop := {
  wh_root : exists d, tr !! [] = Some (j, d);
  wh_holds : holds w tr;
  wh_clean : forall q k d, tr !! q = Some (k, d) -> clean d;
  wh_spec : spec tr;
  wh_outside : forall q k d, tr !! q = Some (k, d) -> k ∉ r :: os;
}.

Definition visible (w : fs) (dr : dir) : Prop :=
  exists tr j, whole w j tr /\ d_entries dr !! target = Some (EDir j)
    /\ forall m, m ∈ versions dr ->
         m !! target = None
         \/ m !! target = Some (EDir j) /\ forall q k d, tr !! q = Some (k, d) -> apart w m k.

Record inv (w : fs) (dr : dir) : Prop := {
  inv_leads : leads w os base;
  inv_parent : w !! r = Some dr;
  inv_closed : closed w;
  inv_apart : forall m k, m ∈ versions dr -> k ∈ r :: os -> apart w m k;
  inv_target : (forall m, m ∈ versions dr -> m !! target = None) \/ visible w dr;
}.

Context (Hroot : h_root h = default r (head os)) (Hos : r ∉ os).
Set Default Proof Using "Type".

Lemma inv_walk w dr q : inv w dr -> walk w (EDir (h_root h)) (base ++ q) = walk w (EDir r) q.
Proof using Hroot. intros I. rewrite Hroot. apply leads_walk, I. Qed.

Lemma inv_dir_at w dr : inv w dr -> dir_at h w base = Some (r, dr).
Proof using Hroot.
  intros I. unfold dir_at, resolve. rewrite <- (app_nil_r base), (inv_walk w dr) by done. simpl. by rewrite (inv_parent _ _ I).
Qed.

Lemma version_here (d : dir) : d_entries d ∈ versions d.
Proof. apply list_elem_of_In. by left. Qed.
Lemma version_older (d : dir) m : m ∈ d_older d -> m ∈ versions d.
Proof. intros H. apply elem_of_cons. by right. Qed.
(** What [m'] makes reachable by the temporary name was so by that of [m], and
    both have the same target. *)
Definition follows (w w' : fs) (m m' : entries) : Prop :=
  (forall j k, m' !! temp = Some (EDir j) -> is_Some (w !! k) -> reach w' j k ->
     m !! temp = Some (EDir j) /\ reach w j k)
  /\ (m !! target = None -> m' !! target = None)
  /\ (forall j, m !! target = Some (EDir j) -> m' !! target = Some (EDir j)).

(** Nothing new is reachable. *)
Definition no_new_reach (w w' : fs) : Prop :=
  forall j k, is_Some (w !! j) -> is_Some (w !! k) -> reach w' j k -> reach w j k.

Lemma follows_old w w' dr m m' :
  closed w -> w !! r = Some dr -> no_new_reach w w' -> m ∈ versions dr ->
  (forall j, m' !! temp = Some (EDir j) -> m !! temp = Some (EDir j)) ->
  (m !! target = None -> m' !! target = None) ->
  (forall j, m !! target = Some (EDir j) -> m' !! target = Some (EDir j)) -> follows w w' m m'.
Proof.
  intros Hc Hr Hn Hm Ht H1 H2. split; [|done]. intros j k Hj%Ht Hk Hrch. split; [done|].
  apply Hn; [|done..]. apply (Hc r dr j Hr). by exists m, temp.
Qed.

(** The common part of all steps: every version of the parent follows an earlier
    one, and the visible tree is as it was. *)
Lemma inv_step w dr w' dr' :
  inv w dr -> leads w' os base -> w' !! r = Some dr' -> closed w' ->
  (forall m', m' ∈ versions dr' -> exists m, m ∈ versions dr /\ follows w w' m m') ->
  ((forall m', m' ∈ versions dr' -> m' !! target = None)
   \/ forall j, d_entries dr !! target = Some (EDir j) -> d_entries dr' !! target = Some (EDir j)) ->
  (forall tr j, whole w j tr -> (forall q k d, tr !! q = Some (k, d) -> apart w (d_entries dr) k) -> holds w' tr) ->
  inv w' dr'.
Proof.
  intros I Hl Hr Hc Hv Ht Hh. assert (forall m m' k, follows w w' m m' -> is_Some (w !! k) ->
    apart w m k -> apart w' m' k) as Hap.
  { intros m m' k Hf Hk Ha j Hj Hrch. destruct (proj1 Hf j k Hj Hk Hrch) as [Hj' Hr']. by apply (Ha j Hj'). }
  split; try done.
  - intros m' k Hm' Hk. destruct (Hv m' Hm') as (m & Hm & Hf). apply (Hap m); [done| |by apply I].
    apply (leads_some _ _ _ _ _ (inv_leads _ _ I) (inv_parent _ _ I) Hk).
  - destruct (inv_target _ _ I) as [Hn|(tr & j & Hw & Hcur & Hvis)].
    + left. intros m' Hm'. destruct (Hv m' Hm') as (m & Hm & _ & Hf & _). auto.
    + destruct Ht as [Ht|Hcf]; [by left|]. right. exists tr, j.
      assert (forall q k d, tr !! q = Some (k, d) -> apart w (d_entries dr) k) as Hac.
      { intros q k d Hq. destruct (Hvis (d_entries dr) (version_here dr)) as [Hno|[_ Ha]]; [by rewrite Hcur in Hno|eauto]. }
      pose proof (Hh tr j Hw Hac) as Hh'. split; [|split; [by apply Hcf|]].
      * split; [apply Hw|done|apply Hw|apply Hw|apply Hw].
      * intros m' Hm'. destruct (Hv m' Hm') as (m & Hm & Hf). destruct (Hvis m Hm) as [Hno|[Hyes Ha]].
        -- left. by apply Hf.
        -- right. split; [by apply Hf|]. intros q k d Hq. apply (Hap m); [done| |by eapply Ha].
           by rewrite (wh_holds _ _ _ Hw q k d Hq).
Qed.

(** ** Crashes *)

Lemma torn_dir (m : entries) name j : (torn <$> m) !! name = Some (EDir j) <-> m !! name = Some (EDir j).
Proof. rewrite lookup_fmap. destruct (m !! name) as [[? ? ? []| |]|]; simpl; naive_solver. Qed.

Lemma crashed_versions d d' : crashed_dir d d' -> forall m', m' ∈ versions d' -> exists m, m ∈ versions d /\ m' = torn <$> m.
Proof.
  intros (_ & _ & Ho & m & Hm & He) m' Hm'. unfold versions in Hm'. rewrite Ho in Hm'. apply list_elem_of_singleton in Hm' as ->.
  by exists m.
Qed.

Lemma crashed_edge d d' k : crashed_dir d d' -> edge d' k -> edge d k.
Proof.
  intros Hc (m' & name & Hm' & Hk). destruct (crashed_versions _ _ Hc m' Hm') as (m & Hm & ->).
  exists m, name. split; [done|]. by apply torn_dir.
Qed.

Lemma crashed_clean d d' : crashed_dir d d' -> clean d -> d' = d.
Proof.
  intros (Hu & Hm & Ho & m & Hin & He) [Hold Ht]. unfold versions in Hin. rewrite Hold in Hin.
  apply list_elem_of_singleton in Hin as ->. destruct d, d'; simpl in *. congruence.
Qed.

Lemma crash_lookup w w' j d' : crash w w' -> w' !! j = Some d' -> exists d, w !! j = Some d /\ crashed_dir d d'.
Proof. intros Hc Hj. specialize (Hc j). rewrite Hj in Hc. destruct (w !! j) as [d|]; [by exists d|done]. Qed.

Lemma crash_lookup_fwd w w' j d : crash w w' -> w !! j = Some d -> exists d', w' !! j = Some d' /\ crashed_dir d d'.
Proof. intros Hc Hj. specialize (Hc j). rewrite Hj in Hc. destruct (w' !! j) as [d'|]; [by exists d'|done]. Qed.

Lemma leads_crash w w' os' q : crash w w' -> leads w os' q -> leads w' os' q.
Proof.
  intros Hc. revert q. induction os' as [|j os' IH]; intros [|c q] Hl; try done. destruct Hl as [(d & Hd & Hm) Hl].
  split; [|by apply IH]. destruct (crash_lookup_fwd _ _ _ _ Hc Hd) as (d' & Hd' & Hcd). exists d'. split; [done|].
  intros m' Hm'. destruct (crashed_versions _ _ Hcd m' Hm') as (m & Hmm & ->). by apply torn_dir, Hm.
Qed.

Lemma inv_crash w dr w' : inv w dr -> crash w w' -> exists dr', inv w' dr' /\ crashed_dir dr dr'.
Proof.
  intros I Hc. destruct (crash_lookup_fwd _ _ _ _ Hc (inv_parent _ _ I)) as (dr' & Hr & Hcd). exists dr'. split; [|done].
  apply (inv_step w dr); [done|by eapply leads_crash, inv_leads|done|..].
  - intros j d' k Hj Hk. destruct (crash_lookup _ _ _ _ Hc Hj) as (d & Hd & Hcj).
    destruct (inv_closed _ _ I j d k Hd (crashed_edge _ _ _ Hcj Hk)) as [dk Hdk].
    destruct (crash_lookup_fwd _ _ _ _ Hc Hdk) as (? & -> & _). done.
  - intros m' Hm'. destruct (crashed_versions _ _ Hcd m' Hm') as (m & Hm & ->). exists m. split; [done|].
    apply (follows_old w w' dr); [apply I|apply I| |done|..].
    + intros j k _ _. apply reach_shrink. intros j' d' Hj. destruct (crash_lookup _ _ _ _ Hc Hj) as (d & Hd & Hcj).
      exists d. split; [done|]. intros l. by apply crashed_edge.
    + intros j. by rewrite torn_dir.
    + intros Hn. by rewrite lookup_fmap, Hn.
    + intros j. by rewrite torn_dir.
  - pose proof Hcd as (_ & _ & Ho & m & Hm & He). destruct (inv_target _ _ I) as [Hn|(tr & j & _ & Hcur & Hvis)].
    + left. intros m' Hm'. destruct (crashed_versions _ _ Hcd m' Hm') as (m1 & Hm1 & ->). by rewrite lookup_fmap, Hn.
    + destruct (Hvis m Hm) as [Hno|[Hyes _]].
      * left. intros m' Hm'. unfold versions in Hm'. rewrite Ho in Hm'. apply list_elem_of_singleton in Hm' as ->.
        by rewrite He, lookup_fmap, Hno.
      * right. intros j' Hj'. rewrite Hcur in Hj'. injection Hj' as <-. rewrite He. by apply torn_dir.
  - intros tr j Hw _ q k d Hq. destruct (crash_lookup_fwd _ _ _ _ Hc (wh_holds _ _ _ Hw q k d Hq)) as (d' & Hd' & Hcd').
    rewrite Hd'. f_equal. by apply crashed_clean; [|eapply wh_clean].
Qed.

(** ** Changes below the temporary name *)

(** [j] is reachable from the temporary name. *)
Definition private (w : fs) (dr : dir) (j : N) : Prop := exists t, d_entries dr !! temp = Some (EDir t) /\ reach w t j.

Lemma private_outside w dr j : inv w dr -> private w dr j -> j ∉ r :: os.
Proof. intros I (t & Ht & Hr) Hj. by apply (inv_apart _ _ I _ _ (version_here dr) Hj t Ht). Qed.

Lemma private_not_visible (w : fs) (dr : dir) (tr : view) (j : N) (q : list string) (k : N) (d : dir) :
  private w dr j -> (forall q k d, tr !! q = Some (k, d) -> apart w (d_entries dr) k) -> tr !! q = Some (k, d) -> k <> j.
Proof. intros (t & Ht & Hr) Ha Hq ->. by apply (Ha q j d Hq t Ht). Qed.

Lemma inv_private w dr j d d' :
  inv w dr -> private w dr j -> w !! j = Some d -> (forall k, edge d' k -> edge d k) -> inv (<[j := d']> w) dr.
Proof.
  intros I Hp Hj He. pose proof (private_outside _ _ _ I Hp) as Ho.
  assert (forall j' d1, <[j:=d']> w !! j' = Some d1 -> exists d0, w !! j' = Some d0 /\ forall l, edge d1 l -> edge d0 l) as Hs.
  { intros j' d1 Hd1. destruct (decide (j = j')) as [->|Hne].
    - rewrite lookup_insert_eq in Hd1. injection Hd1 as <-. eauto.
    - rewrite lookup_insert_ne in Hd1 by done. eauto. }
  apply (inv_step w dr); [done|..].
  - apply (leads_agree w); [apply I|]. intros k Hk. apply lookup_insert_ne. intros ->. apply Ho. by right.
  - rewrite lookup_insert_ne; [apply I|]. intros ->. apply Ho. by left.
  - intros j' d1 k Hd1 Hk. destruct (Hs j' d1 Hd1) as (d0 & Hd0 & Hsub).
    destruct (inv_closed _ _ I j' d0 k Hd0 (Hsub k Hk)) as [dk Hdk]. apply lookup_insert_is_Some'. by right.
  - intros m Hm. exists m. split; [done|]. apply (follows_old w _ dr); try done; [apply I|apply I|].
    intros j' k _ _. by apply reach_shrink.
  - by right.
  - intros tr j' Hw Ha q k dk Hq. rewrite lookup_insert_ne; [by eapply wh_holds|].
    intros <-. by apply (private_not_visible w dr tr j q j dk Hp Ha Hq).
Qed.

(** ** A new directory *)

Definition with_new (w : fs) (j : N) (d : dir) (name : string) (mode : Z) (n : N) : fs :=
  <[n := MkDir (h_euid h) mode ∅ []]> (<[j := put d (<[name := EDir n]> (d_entries d))]> w).

Lemma edge_new_empty mode l : ~ edge (MkDir (h_euid h) mode ∅ []) l.
Proof. intros (m & name & Hm & Hl). apply list_elem_of_singleton in Hm as ->. done. Qed.

Lemma edge_put d name n l : edge (put d (<[name := EDir n]> (d_entries d))) l -> edge d l \/ l = n.
Proof.
  intros (m & nm & [->|Hm]%elem_of_cons & Hl); [cbn [put d_entries] in Hl|left; by exists m, nm].
  destruct (decide (name = nm)) as [->|Hne].
  - rewrite lookup_insert_eq in Hl. injection Hl as ->. by right.
  - rewrite lookup_insert_ne in Hl by done. left. exists (d_entries d), nm. split; [apply version_here|done].
Qed.

Section new_dir.
Context (w : fs) (j : N) (d : dir) (name : string) (mode : Z) (n : N).
Context (Hj : w !! j = Some d) (Hn : w !! n = None).

Lemma with_new_edges j' d' :
  j' <> n -> with_new w j d name mode n !! j' = Some d' ->
  exists d0, w !! j' = Some d0 /\ forall l, edge d' l -> edge d0 l \/ l = n.
Proof using Hj.
  intros Hne Hd'. unfold with_new in Hd'. rewrite lookup_insert_ne in Hd' by done.
  destruct (decide (j = j')) as [->|Hjj].
  - rewrite lookup_insert_eq in Hd'. injection Hd' as <-. exists d. split; [done|]. apply edge_put.
  - rewrite lookup_insert_ne in Hd' by done. exists d'. split; [done|]. by left.
Qed.

Lemma with_new_reach : no_new_reach w (with_new w j d name mode n).
Proof using Hj Hn.
  intros a k Ha Hk Hr. destruct (reach_fresh w (with_new w j d name mode n) n a k Hn) as [?| ->]; try done.
  - intros d'. unfold with_new. rewrite lookup_insert_eq. intros [= <-] l. apply edge_new_empty.
  - apply with_new_edges.
  - intros ->. by rewrite Hn in Ha; destruct Ha.
  - by rewrite Hn in Hk; destruct Hk.
Qed.

Lemma with_new_closed : closed w -> closed (with_new w j d name mode n).
Proof using Hj.
  intros Hc j' d' k Hd' Hk. destruct (decide (j' = n)) as [->|Hne].
  - unfold with_new in Hd'. rewrite lookup_insert_eq in Hd'. injection Hd' as <-. by apply edge_new_empty in Hk.
  - destruct (with_new_edges j' d' Hne Hd') as (d0 & Hd0 & Hsub). unfold with_new.
    destruct (Hsub k Hk) as [Hk'| ->]; [|by rewrite lookup_insert_eq].
    rewrite !lookup_insert_is_Some'. right. right. by eapply Hc.
Qed.

Lemma with_new_other k : is_Some (w !! k) -> k <> j -> with_new w j d name mode n !! k = w !! k.
Proof using Hn.
  intros Hk Hne. unfold with_new. rewrite !lookup_insert_ne; [done|done|]. intros <-. by rewrite Hn in Hk; destruct Hk.
Qed.
End new_dir.

Lemma inv_mkdir w dr j d name mode n :
  inv w dr -> private w dr j -> w !! j = Some d -> w !! n = None -> inv (with_new w j d name mode n) dr.
Proof.
  intros I Hp Hj Hn. pose proof (private_outside _ _ _ I Hp) as Ho.
  assert (forall k, k ∈ r :: os -> with_new w j d name mode n !! k = w !! k) as Hsame.
  { intros k Hk. apply with_new_other; [done|by eapply leads_some; [apply I|apply I|]|]. by intros ->. }
  apply (inv_step w dr); [done|..].
  - apply (leads_agree w); [apply I|]. intros k Hk. apply Hsame. by right.
  - rewrite Hsame by (by left). apply I.
  - apply with_new_closed; done || apply I.
  - intros m Hm. exists m. split; [done|]. apply (follows_old w _ dr); try done; [apply I|apply I|]. by apply with_new_reach.
  - by right.
  - intros tr j' Hw Ha q k dk Hq. pose proof (wh_holds _ _ _ Hw q k dk Hq) as Hk.
    rewrite with_new_other; [done|done|by rewrite Hk|]. by eapply private_not_visible.
Qed.

(** The temporary name is taken. *)
Lemma inv_mkdir_temp w dr mode n :
  inv w dr -> w !! n = None -> temp <> target -> d_entries dr !! temp = None ->
  inv (with_new w r dr temp mode n) (put dr (<[temp := EDir n]> (d_entries dr))).
Proof using Hos.
  intros I Hn Hne Hno. assert (forall k, is_Some (w !! k) -> k <> n) as Hkn by (intros k Hk ->; rewrite Hn in Hk; by destruct Hk).
  pose proof (inv_parent _ _ I) as Hr.
  assert (r <> n) as Hrn by (apply Hkn; by rewrite Hr).
  apply (inv_step w dr); [done|..].
  - apply (leads_agree w); [apply I|]. intros k Hk. apply with_new_other; [done| |].
    + eapply leads_some; [apply I|done|by right].
    + intros Hrk; rewrite Hrk in Hk; by apply Hos.
  - unfold with_new. rewrite lookup_insert_ne by done. apply lookup_insert_eq.
  - apply with_new_closed; done || apply I.
  - intros m' [->|Hm]%elem_of_cons.
    + exists (d_entries dr). split; [apply version_here|].
      unfold follows. cbn [put d_entries]. rewrite (lookup_insert_ne _ temp target) by done. split; [|done]. intros j k Hj Hk Hrch. exfalso. rewrite lookup_insert_eq in Hj. injection Hj as <-.
      apply (Hkn k Hk). eapply reach_new; [|exact Hrch]. unfold with_new. rewrite lookup_insert_eq. intros ? [= <-] l.
      apply edge_new_empty.
    + exists m'. split; [done|]. apply (follows_old w _ dr); try done; [apply I|]. by apply with_new_reach.
  - right. intros j. cbn [put d_entries]. by rewrite lookup_insert_ne.
  - intros tr j' Hw Ha q k dk Hq. pose proof (wh_holds _ _ _ Hw q k dk Hq) as Hk.
    rewrite with_new_other; [done|done|by rewrite Hk|]. intros ->. by apply (wh_outside _ _ _ Hw q r dk Hq); left.
Qed.

(** ** Changes of the parent *)

(** A change of the parent that only drops names or versions. *)
Lemma inv_parent_change w dr dr' :
  inv w dr -> (forall k, edge dr' k -> edge dr k) ->
  (forall m', m' ∈ versions dr' -> exists m, m ∈ versions dr
     /\ (forall j, m' !! temp = Some (EDir j) -> m !! temp = Some (EDir j)) /\ m' !! target = m !! target) ->
  d_entries dr' !! target = d_entries dr !! target ->
  inv (<[r := dr']> w) dr'.
Proof using Hos.
  intros I He Hv Hcur. pose proof (inv_parent _ _ I) as Hr.
  assert (forall j' d1, <[r:=dr']> w !! j' = Some d1 -> exists d0, w !! j' = Some d0 /\ forall l, edge d1 l -> edge d0 l) as Hs.
  { intros j' d1 Hd1. destruct (decide (r = j')) as [<-|Hne].
    - rewrite lookup_insert_eq in Hd1. injection Hd1 as <-. eauto.
    - rewrite lookup_insert_ne in Hd1 by done. eauto. }
  apply (inv_step w dr); [done|..].
  - apply (leads_agree w); [apply I|]. intros k Hk. apply lookup_insert_ne. intros Hrk; rewrite <- Hrk in Hk; by apply Hos.
  - apply lookup_insert_eq.
  - intros j' d1 k Hd1 Hk. destruct (Hs j' d1 Hd1) as (d0 & Hd0 & Hsub).
    apply lookup_insert_is_Some'. right. by eapply (inv_closed _ _ I); [|apply Hsub].
  - intros m' Hm'. destruct (Hv m' Hm') as (m & Hm & Ht & Hg). exists m. split; [done|].
    apply (follows_old w _ dr); try done; [apply I| |by rewrite Hg|by rewrite Hg].
    intros j k _ _. by apply reach_shrink.
  - right. intros j. by rewrite Hcur.
  - intros tr j Hw _ q k d Hq. rewrite lookup_insert_ne; [by eapply wh_holds|]. intros <-.
    by apply (wh_outside _ _ _ Hw q r d Hq); left.
Qed.

Lemma inv_sync w dr : inv w dr -> inv (<[r := synced dr]> w) (synced dr).
Proof using Hos.
  intros I. apply (inv_parent_change w dr); try done.
  - intros k (m & name & Hm & Hk). apply list_elem_of_singleton in Hm as ->. exists (d_entries dr), name.
    split; [apply version_here|done].
  - intros m' Hm'. apply list_elem_of_singleton in Hm' as ->. exists (d_entries dr). split; [apply version_here|done].
Qed.

(** The complete tree gets its name. *)
Lemma inv_publish w dr t tr :
  inv w dr -> d_entries dr !! temp = Some (EDir t) -> d_entries dr !! target = None -> temp <> target ->
  (exists d, tr !! [] = Some (t, d)) -> holds w tr -> (forall q k d, tr !! q = Some (k, d) -> clean d) -> spec tr ->
  (forall q k d, tr !! q = Some (k, d) -> reach w t k) ->
  let dr' := put dr (<[target := EDir t]> (delete temp (d_entries dr))) in
  inv (<[r := dr']> w) dr'.
Proof using Hos.
  intros I Ht Hno Hne Hrt Hh Hcl Hsp Hrch dr'. pose proof (inv_parent _ _ I) as Hr.
  assert (forall q k d, tr !! q = Some (k, d) -> k ∉ r :: os) as Hout.
  { intros q k d Hq. apply (private_outside w dr); [done|]. exists t. split; [done|by eapply Hrch]. }
  assert (forall k, edge dr' k -> edge dr k) as He.
  { intros k (m & name & [->|Hm]%elem_of_cons & Hk); [|by exists m, name]. cbn [put d_entries dr'] in Hk.
    destruct (decide (target = name)) as [<-|Hnt].
    - rewrite lookup_insert_eq in Hk. injection Hk as <-. exists (d_entries dr), temp. split; [apply version_here|done].
    - rewrite lookup_insert_ne in Hk by done. apply lookup_delete_Some in Hk as [_ Hk].
      exists (d_entries dr), name. split; [apply version_here|done]. }
  assert (no_new_reach w (<[r:=dr']> w)) as Hnr.
  { intros a k _ _. apply reach_shrink. intros j' d1 Hd1. destruct (decide (r = j')) as [<-|Hnj].
    - rewrite lookup_insert_eq in Hd1. injection Hd1 as <-. eauto.
    - rewrite lookup_insert_ne in Hd1 by done. eauto. }
  assert (forall m, m ∈ versions dr -> m !! target = None) as Hall.
  { destruct (inv_target _ _ I) as [?|(tr' & j & _ & Hcur & _)]; [done|]. by rewrite Hno in Hcur. }
  assert (forall m k, m ∈ versions dr' -> k ∈ r :: os -> apart (<[r:=dr']> w) m k) as Hap.
  { intros m k [->|Hm]%elem_of_cons Hk j Hj Hrj.
    - cbn [put d_entries dr'] in Hj. by rewrite lookup_insert_ne, lookup_delete_eq in Hj.
    - apply (inv_apart _ _ I m k Hm Hk j Hj). apply Hnr; [|by eapply leads_some; [apply I|apply I|]|done].
      apply (inv_closed _ _ I r dr j Hr). by exists m, temp. }
  split; [|apply lookup_insert_eq| |done|].
  - apply (leads_agree w); [apply I|]. intros k Hk. apply lookup_insert_ne. intros Hrk; rewrite <- Hrk in Hk; by apply Hos.
  - intros j' d1 k Hd1 Hk. apply lookup_insert_is_Some'. right. destruct (decide (r = j')) as [<-|Hnj].
    + rewrite lookup_insert_eq in Hd1. injection Hd1 as <-. by eapply (inv_closed _ _ I); [|apply He].
    + rewrite lookup_insert_ne in Hd1 by done. by eapply (inv_closed _ _ I).
  - right. exists tr, t. split; [|split].
    + split; try done. intros q k d Hq. rewrite lookup_insert_ne; [by eapply Hh|]. intros <-.
      by apply (Hout q r d Hq); left.
    + apply lookup_insert_eq.
    + intros m [->|Hm]%elem_of_cons; [right|by left; apply Hall]. split; [apply lookup_insert_eq|].
      intros q k d Hq j Hj. cbn [put d_entries dr'] in Hj. by rewrite lookup_insert_ne, lookup_delete_eq in Hj.
Qed.

Lemma emptied_edge o d' k : emptied o (Some d') -> edge d' k -> exists d, o = Some d /\ edge d k.
Proof.
  destruct o as [d|]; [|done]. intros (_ & _ & Hv) (m' & name & Hm' & Hk). destruct (Hv m' Hm') as (m & Hm & Hsub).
  exists d. split; [done|]. exists m, name. split; [done|]. by eapply lookup_weaken.
Qed.

Definition untemp (ok : bool) (dr : dir) : dir := if ok then put dr (delete temp (d_entries dr)) else dr.

Lemma untemp_edge ok dr k : edge (untemp ok dr) k -> edge dr k.
Proof.
  destruct ok; [|done]. intros (m & name & [->|Hm]%elem_of_cons & Hk); [|by exists m, name]. cbn [untemp put d_entries] in Hk.
  apply lookup_delete_Some in Hk as [_ Hk]. exists (d_entries dr), name. split; [apply version_here|done].
Qed.

Lemma untemp_versions ok dr m' :
  temp <> target -> m' ∈ versions (untemp ok dr) ->
  exists m, m ∈ versions dr /\ (forall j, m' !! temp = Some (EDir j) -> m !! temp = Some (EDir j))
    /\ m' !! target = m !! target.
Proof.
  intros Hne. destruct ok; [|by exists m']. intros [->|Hm]%elem_of_cons; [|by exists m'].
  exists (d_entries dr). split; [apply version_here|]. cbn [untemp put d_entries].
  by rewrite lookup_delete_eq, lookup_delete_ne.
Qed.

(** The temporary tree is removed, in part or as a whole. *)
Lemma inv_remove w dr x :
  inv w dr -> temp <> target -> partly_removed h w base temp x -> exists dr', inv x.2 dr'.
Proof using Hroot Hos.
  intros I Hne Hp. unfold partly_removed in Hp. rewrite (inv_dir_at w dr) in Hp by done.
  destruct (d_entries dr !! temp) as [[| |t]|] eqn:Ht; try (destruct Hp as [-> _]; by exists dr).
  destruct x as [res w']. cbn [fst snd] in *. set (ok := is_ok res) in *. clearbody ok.
  assert ((if ok then update_at h w base (fun d => put d (delete temp (d_entries d))) else w)
    = <[r := untemp ok dr]> w) as Hw1.
  { destruct ok; [|by rewrite insert_id by apply I]. unfold update_at. by rewrite (inv_dir_at w dr). }
  cbv zeta in Hp. rewrite Hw1 in Hp. clear Hw1. destruct Hp as [Hin Hout].
  assert (forall k, ~ reach w t k -> w' !! k = <[r := untemp ok dr]> w !! k) as Hsame.
  { intros k Hk. apply Hout. intros Hb. by apply Hk, below_reach. }
  assert (forall k, k ∈ r :: os -> ~ reach w t k) as Hro
    by (intros k Hk; by apply (inv_apart _ _ I _ _ (version_here dr) Hk t Ht)).
  assert (forall j d', w' !! j = Some d' -> exists d, w !! j = Some d /\ forall l, edge d' l -> edge d l) as Hs.
  { intros j d' Hd'. pose proof (Hin j) as Hj. rewrite Hd' in Hj. destruct (decide (r = j)) as [<-|Hnj].
    - rewrite lookup_insert_eq in Hj. exists dr. split; [apply I|]. intros l Hl.
      destruct (emptied_edge _ _ _ Hj Hl) as (d & [= <-] & He). by eapply untemp_edge.
    - rewrite lookup_insert_ne in Hj by done. destruct (w !! j) as [d|] eqn:Hwj; [|done]. exists d. split; [done|].
      intros l Hl. by destruct (emptied_edge _ _ _ Hj Hl) as (? & [= <-] & He). }
  exists (untemp ok dr). apply (inv_step w dr); [done|..].
  - apply (leads_agree w); [apply I|]. intros k Hk. rewrite Hsame by (apply Hro; by right).
    apply lookup_insert_ne. intros Hrk; rewrite <- Hrk in Hk; by apply Hos.
  - rewrite Hsame by (apply Hro; by left). apply lookup_insert_eq.
  - intros j d' k Hd' Hk. destruct (Hs j d' Hd') as (d & Hd & Hsub).
    destruct (inv_closed _ _ I j d k Hd (Hsub k Hk)) as [dk Hdk]. pose proof (Hin k) as Hek.
    destruct (w' !! k); [done|]. destruct (decide (r = k)) as [<-|Hnk].
    + by rewrite lookup_insert_eq in Hek.
    + by rewrite lookup_insert_ne, Hdk in Hek by done.
  - intros m' Hm'. destruct (untemp_versions ok dr m' Hne Hm') as (m & Hm & Hmt & Hmg). exists m. split; [done|].
    apply (follows_old w w' dr); try done; [apply I|apply I| |by rewrite Hmg|by rewrite Hmg].
    intros j k _ _. by apply reach_shrink.
  - right. destruct ok; [|done]. intros j. cbn [untemp put d_entries]. by rewrite lookup_delete_ne.
  - intros tr j Hw Ha q k d Hq. rewrite Hsame by (by apply (Ha q k d Hq t Ht)).
    rewrite lookup_insert_ne; [by eapply wh_holds|]. intros <-. by apply (wh_outside _ _ _ Hw q r d Hq); left.
Qed.
End atomic.
