(* ===== verification/ConfigRevision.v ===== *)
(** * ConfigRevision: the files of a configuration revision

    [src/app_store/config_revision.rs]: the environment file format, reading a
    revision with its checks, and publishing one. A revision is a directory of
    [config-revisions], written under a temporary name and renamed once
    everything below it is on disk. *)

From stdpp Require Import sets gmap.
From S2P Require Import Prelude Text Reference Models Effects Codec Names Drafts Compose FileSystem StoreBase.
From Stdlib Require Import Ascii.

(** ** Environment files *)

Definition backslash : ascii := "\"%char.
Definition quote : ascii := "'"%char.

(** [value.replace(c, by)] *)
Fixpoint replace_char (c : ascii) (by_ value : string) : string :=
  match value with
  | EmptyString => EmptyString
  | String a value' => if char_eqb a c then by_ +:+ replace_char c by_ value' else String a (replace_char c by_ value')
  end.

Definition escape_value (value : string) : string :=
  replace_char quote "\'" (replace_char backslash "\\" value).

Definition line_feed : string := String newline EmptyString.

Fixpoint serialize_environment (entries : list (string * string)) : string :=
  match entries with
  | [] => EmptyString
  | (key, value) :: rest => key +:+ "='" +:+ escape_value value +:+ "'" +:+ line_feed +:+ serialize_environment rest
  end.

(** [str::lines]: the parts before each line feed, without a carriage return at
    their end, and what is left after the last one if anything is. *)
Definition strip_carriage_return (line : string) : string :=
  if is_some_and (last_byte line) (char_eqb carriage_return) then str_take (String.length line - 1) line else line.

Fixpoint lines_of (parts : list string) : list string :=
  match parts with
  | [] => []
  | [last] => if str_is_empty last then [] else [last]
  | part :: rest => strip_carriage_return part :: lines_of rest
  end.

Definition lines (contents : string) : list string := lines_of (split newline contents).

Fixpoint unescape (escaped : bool) (inner : string) : option string :=
  match inner with
  | EmptyString => if escaped then None else Some EmptyString
  | String c inner' =>
      if escaped
      then if char_eqb c backslash || char_eqb c quote then String c <$> unescape false inner' else None
      else if char_eqb c backslash then unescape true inner'
      else String c <$> unescape false inner'
  end.

(** [strip_prefix('\'').and_then(strip_suffix('\''))] *)
Definition strip_quotes (quoted : string) : option string :=
  inner ← strip_prefix "'" quoted;
  if is_some_and (last_byte inner) (char_eqb quote) then Some (str_take (String.length inner - 1) inner) else None.

Definition parse_line (line : string) : option PublicEnvInput :=
  '(key, quoted) ← split_once "=" line;
  inner ← strip_quotes quoted;
  MkPublicEnvInput key <$> unescape false inner.

Definition parse_environment (contents : string) (expected : list string) : result StoreError (list PublicEnvInput) :=
  result ← ok_or (mapM parse_line (lines contents)) SeContentInvalid;
  refuse_if (negb (bool_decide (map pe_key result = expected))) SeContentInvalid ;;
  Ok result.

(** ** Reading a revision *)

Definition MANAGED_FILE_MODE : Z := 292.
Definition REVISION_TEMP_PREFIX : string := ".solodock-config-tmp-".

(** [BTreeMap] entries in order. *)
Definition sorted_entries (m : gmap string string) : list (string * string) :=
  sort_by (fun a b => text_leb a.1 b.1) (map_to_list m).

Section revision.
Context {UT : UuidText} {ST : StoreText} {CR : Crypto}.
Context (euid : Z).

Abbreviation store A := (eprog fsev StoreError A).

Definition read_file (p : path) (name : string) : store string :=
  try_call (FsReadToString p name) (fun kind => match kind with InvalidData => SeContentInvalid | _ => SeIo kind end).

Definition read_environment (app_directory relative : path) (name : string) (expected : list string)
    : store (list PublicEnvInput) :=
  check_private_tree euid app_directory (relative ++ [name]) false ;;;
  contents <- read_file (app_directory ++ relative) name ;;
  lift (parse_environment contents expected).

Definition check_managed_file (app_directory parent : path) (name : string) : store unit :=
  check_private_tree euid app_directory parent true ;;;
  st <- try_call (FsSymlinkMetadata (app_directory ++ parent ++ [name])) (fun _ => SeManagedFilePermissionInvalid) ;;
  lift (refuse_if ((st_kind st ≠? KindFile) || (st_uid st ≠? euid)
                   || (Z.land (st_mode st) 4095 ≠? MANAGED_FILE_MODE)) SeManagedFilePermissionInvalid).

(** The three maps [load] fills. *)
Record loaded_files := MkLoadedFiles {
  lf_public : gmap string string; lf_secret : gmap string string; lf_metadata : gmap string ManagedFileMetadata }.

Fixpoint load_files (app_directory relative : path) (files : list ManagedFileMetadata) (acc : loaded_files)
    : store loaded_files :=
  match files with
  | [] => eret acc
  | item :: rest =>
      let parent := relative ++ ["files"; if mf_sensitive item then "secret" else "public"] in
      let name := mf_logical_name item in
      check_managed_file app_directory parent name ;;;
      value <- read_file (app_directory ++ parent) name ;;
      let metadata := <[name := item]> (lf_metadata acc) in
      load_files app_directory relative rest
        (if mf_sensitive item then MkLoadedFiles (lf_public acc) (<[name := value]> (lf_secret acc)) metadata
         else MkLoadedFiles (<[name := value]> (lf_public acc)) (lf_secret acc) metadata)
  end.

(** Fields the signature of an old schema does not cover are not read. *)
Definition legacy_defaults (m : ConfigMetadata) : ConfigMetadata :=
  let version := cm_schema_version m in
  MkConfigMetadata (cm_security_profile m) version
    (if version =? 1%Z then default_stop_grace_period_seconds else cm_stop_grace_period_seconds m)
    (cm_environment_order m) (cm_public_env_keys m) (cm_secret_keys m) (cm_secret_hmacs m) (cm_files m)
    (cm_public_file_sha256s m) (cm_secret_file_hmacs m) (cm_ports m) (cm_volumes m) (cm_binds m)
    (cm_owned_default_network m)
    (if (version =? 1%Z) || (version =? 2%Z) then false else cm_service_discovery_enabled m)
    (cm_networks m) (cm_health m) (cm_config_sha256 m).

Definition load (app_directory : path) (revision_id : Uuid) : store LoadedRevision :=
  let relative := ["config-revisions"; uuid_to_string revision_id] in
  check_private_tree euid app_directory relative true ;;;
  check_private_tree euid app_directory (relative ++ ["config.toml"]) false ;;;
  config <- read_file (app_directory ++ relative) "config.toml" ;;
  parsed <- lift (ok_or (config_of_toml config) SeContentInvalid) ;;
  lift (refuse_if (negb ((1 <=? cm_schema_version parsed)%Z && (cm_schema_version parsed <=? 4)%Z)
                   || existsb (fun file => negb (validate_logical_name (mf_logical_name file))) (cm_files parsed))
          SeContentInvalid) ;;;
  let metadata := legacy_defaults parsed in
  public_environment <- read_environment app_directory (relative ++ ["env"]) "public.env" (cm_public_env_keys metadata) ;;
  secret_environment <- read_environment app_directory (relative ++ ["secrets"]) "runtime.env" (cm_secret_keys metadata) ;;
  files <- load_files app_directory relative (cm_files metadata) (MkLoadedFiles ∅ ∅ ∅) ;;
  eret (MkLoadedRevision metadata public_environment (lf_public files)
          (MkExistingSecrets (collect (map (fun e => (pe_key e, pe_value e)) secret_environment))
             (lf_secret files) (lf_metadata files))).

Definition load_verified (app_directory : path) (revision_id : Uuid) (hmac_key : string) : store LoadedRevision :=
  loaded <- load app_directory revision_id ;;
  lift (map_err (fun _ => SeContentInvalid)
          (verify_config_integrity canonical_json (lv_metadata loaded) (lv_public_environment loaded)
             (lv_public_files loaded) (lv_secrets loaded) hmac_key)) ;;;
  eret loaded.

(** ** Publishing a revision *)

Definition create_dir (p : path) (name : string) : store unit := io (FsCreateDir p name 448).

Definition ensure_dir (p : path) (name : string) : store unit :=
  Vis (FsSymlinkMetadata (p ++ [name])) (fun r => match r with
    | Ok _ => check_private euid (p ++ [name]) true
    | Err NotFound => create_dir p name ;;; sync_directory p
    | Err kind => fail (SeIo kind)
    end).

Definition write_new (p : path) (name contents : string) (final_mode : Z) : store unit :=
  io (FsCreateNew p name 384) ;;;
  io (FsWriteAll p name contents) ;;;
  io (FsSetPermissions p name final_mode) ;;;
  io (FsSyncAll p name).

Fixpoint write_files (p : path) (files : list (string * string)) : store unit :=
  match files with
  | [] => eret tt
  | (name, content) :: rest => write_new p name content MANAGED_FILE_MODE ;;; write_files p rest
  end.

Definition rename_no_replace (p : path) (source : string) (q : path) (target : string) : store unit :=
  try_call (FsRenameNoReplace p source q target)
    (fun kind => match kind with AlreadyExists => SeReleaseConflict | _ => SeIo kind end).

(** [if result.is_err() { let _ = fs::remove_dir_all(&temp); } result] *)
Definition removing_tree_on_error {A} (result : store A) (p : path) (temp : string) : store A :=
  prog_bind result (fun r => match r with
    | Ok a => Ret (Ok a)
    | Err e => Vis (FsRemoveDirAll p temp) (fun _ => Ret (Err e))
    end).

(** [map_err] of the last step. *)
Definition conflict_as_revision {A} (q : store A) : store A :=
  prog_bind q (fun r => match r with
    | Err SeReleaseConflict => Ret (Err SeConfigRevisionConflict)
    | r => Ret r
    end).

Definition build_revision (revisions : path) (temp : string) (draft : NormalizedDraft) : store unit :=
  let root := revisions ++ [temp] in
  create_dir revisions temp ;;;
  create_dir root "env" ;;;
  create_dir root "secrets" ;;;
  create_dir root "files" ;;;
  create_dir (root ++ ["files"]) "public" ;;;
  create_dir (root ++ ["files"]) "secret" ;;;
  write_new root "config.toml" (config_to_toml (nd_metadata draft)) 384 ;;;
  write_new (root ++ ["env"]) "public.env"
    (serialize_environment (map (fun e => (pe_key e, pe_value e)) (nd_public_environment draft))) 384 ;;;
  write_new (root ++ ["secrets"]) "runtime.env"
    (serialize_environment (sorted_entries (nd_secret_environment draft))) 384 ;;;
  write_files (root ++ ["files"; "public"]) (sorted_entries (nd_public_files draft)) ;;;
  write_files (root ++ ["files"; "secret"]) (sorted_entries (nd_secret_files draft)) ;;;
  sync_directory (root ++ ["env"]) ;;;
  sync_directory (root ++ ["secrets"]) ;;;
  sync_directory (root ++ ["files"; "public"]) ;;;
  sync_directory (root ++ ["files"; "secret"]) ;;;
  sync_directory (root ++ ["files"]) ;;;
  sync_directory root.

Definition publish (app_directory : path) (revision_id : Uuid) (draft : NormalizedDraft) : store unit :=
  let revisions := app_directory ++ ["config-revisions"] in
  ensure_dir app_directory "config-revisions" ;;;
  let temp := REVISION_TEMP_PREFIX +:+ uuid_simple revision_id in
  removing_tree_on_error
    (build_revision revisions temp draft ;;;
     conflict_as_revision (rename_no_replace revisions temp revisions (uuid_to_string revision_id)) ;;;
     sync_directory revisions)
    revisions temp.
End revision.

(** ** Programs that change nothing

    The checks and loads of the store only read: whatever they are answered,
    the file system stays as it is. *)

Definition read_only (X : Type) (e : fsev X) : Prop := reads e = true.

Fixpoint reads_only {A} (q : prog fsev A) : Prop :=
  match q with
  | Ret _ => True
  | Vis e k => read_only _ e /\ forall x, reads_only (k x)
  | OutOfFuel => False
  end.

Lemma step_none (h : Host) {X} w (e : fsev X) x : reads e = true -> step h w (Obs e x) = w.
Proof. by destruct e. Qed.

Lemma reads_only_bind {A B} (q : prog fsev A) (f : A -> prog fsev B) :
  reads_only q -> (forall a, reads_only (f a)) -> reads_only (prog_bind q f).
Proof.
  intros Hq Hf. induction q as [a|X e k IH|]; simpl in *; [auto| |done].
  destruct Hq as [He Hk]. split; [done|]. intros x. by apply IH, Hk.
Qed.

Lemma reads_only_ebind {A B} (q : eprog fsev StoreError A) (f : A -> eprog fsev StoreError B) :
  reads_only q -> (forall a, reads_only (f a)) -> reads_only (ebind q f).
Proof. intros Hq Hf. apply reads_only_bind; [done|]. by intros [a|e]. Qed.

Lemma reads_only_try {F X} (e : fsev (result F X)) (f : F -> StoreError) :
  read_only _ e -> reads_only (try_call e f).
Proof. intros He. split; [done|]. by intros [x|r]. Qed.

Lemma reads_only_lift {A} (r : result StoreError A) : reads_only (lift (E := fsev) r).
Proof. done. Qed.

(** Such a program keeps what holds of the file system. *)
Lemma reads_only_safe (h : Host) (pre : forall X, fs -> fsev X -> Prop) {A} (q : prog fsev A) w :
  (forall X (e : fsev X), pre X w e) -> reads_only q ->
  safe (step h) pre (possible h) False q w (fun w' _ => w' = w).
Proof.
  intros Hpre. induction q as [a|X e k IH|]; simpl; [done| |done]. intros [He Hk]. split; [done|].
  intros x _. change (safe (step h) pre (possible h) False (k x) (step h w (Obs e x)) (fun w' _ => w' = w)).
  rewrite step_none by done. by apply IH.
Qed.

Section checks.
Context {UT : UuidText} {ST : StoreText} {CR : Crypto}.
Context (euid : Z).

Lemma reads_only_check_private q b : reads_only (check_private euid q b).
Proof.
  apply reads_only_ebind; [by apply reads_only_try|]. intros st.
  repeat (apply reads_only_ebind; [apply reads_only_lift|intros _]). apply reads_only_lift.
Qed.

Lemma reads_only_check_components q rel b : reads_only (check_components euid q rel b).
Proof.
  revert q. induction rel as [|c rel IH]; intros q; [done|].
  apply reads_only_ebind; [apply reads_only_check_private|]. intros _. apply IH.
Qed.

Lemma reads_only_check_private_tree q rel b : reads_only (check_private_tree euid q rel b).
Proof.
  apply reads_only_ebind; [apply reads_only_check_private|]. intros _. apply reads_only_check_components.
Qed.

Lemma reads_only_read_environment q rel name expected_keys :
  reads_only (read_environment euid q rel name expected_keys).
Proof.
  apply reads_only_ebind; [apply reads_only_check_private_tree|intros _].
  apply reads_only_ebind; [by apply reads_only_try|intros c; apply reads_only_lift].
Qed.

Lemma reads_only_load_files q rel files acc : reads_only (load_files euid q rel files acc).
Proof.
  revert acc. induction files as [|item files IH]; intros acc; [done|].
  apply reads_only_ebind; [|intros _; apply reads_only_ebind; [by apply reads_only_try|intros v; apply IH]].
  apply reads_only_ebind; [apply reads_only_check_private_tree|intros _].
  apply reads_only_ebind; [by apply reads_only_try|intros st; apply reads_only_lift].
Qed.

Lemma reads_only_load_verified q revision hmac_key : reads_only (load_verified euid q revision hmac_key).
Proof.
  apply reads_only_ebind; [|intros loaded; by apply reads_only_ebind; [apply reads_only_lift|]].
  repeat (apply reads_only_ebind;
    [first [apply reads_only_check_private_tree | apply reads_only_read_environment | apply reads_only_load_files
           | by apply reads_only_try | apply reads_only_lift]|intros ?]).
  done.
Qed.
End checks.
