(* ===== verification/TreeBuilder.v ===== *)
(** * TreeBuilder: what a program builds under a temporary name

    A program logic for the steps between the creation of the temporary
    directory of [AtomicTree] and the rename: [builds] says which directories
    the tree has once the program succeeds, and that the invariant holds
    wherever it stops. *)

From S2P Require Import Prelude Text Reference Models Effects Codec Names Drafts DraftSpec FileSystem StoreBase AtomicTree ConfigRevision.

(** No directory appears or disappears. *)
Definition tame (d d' : dir) : Prop := same_dirs d d' /\ forall k, edge d' k -> edge d k.

Lemma tame_refl d : tame d d.
Proof. done. Qed.

Lemma tame_insert d m name e :
  is_dir (Some e) = None -> is_dir (d_entries d !! name) = None -> m = <[name := e]> (d_entries d) ->
  forall older, (forall m', m' ∈ older -> m' ∈ versions d) -> tame d (MkDir (d_uid d) (d_mode d) m older).
Proof.
  intros He Hn -> older Ho. split.
  - intros nm. cbn [d_entries]. destruct (decide (name = nm)) as [<-|Hne]; [by rewrite lookup_insert_eq, Hn|].
    by rewrite lookup_insert_ne.
  - intros k (m & nm & [->|Hm]%elem_of_cons & Hk); [|exists m, nm; auto]. cbn [d_entries] in Hk.
    destruct (decide (name = nm)) as [<-|Hne].
    + rewrite lookup_insert_eq in Hk. by destruct e; simplify_eq.
    + rewrite lookup_insert_ne in Hk by done. exists (d_entries d), nm. split; [apply version_here|done].
Qed.

Lemma tame_synced d : tame d (synced d).
Proof.
  split; [done|]. intros k (m & nm & Hm & Hk). apply list_elem_of_singleton in Hm as ->.
  exists (d_entries d), nm. split; [apply version_here|done].
Qed.

Section builder.
Context (h : Host) (os : list N) (base : list string) (r : N) (temp target : string).
Context (spec : view -> Prop).
Context (Hroot : h_root h = default r (head os)) (Hos : r ∉ os) (Hne : temp <> target).

Set Default Proof Using "Type".

Abbreviation inv := (inv os base r temp target spec).

Record build (w : fs) (dr : dir) (t : N) (tr : view) : Prop := {
  bu_inv : inv w dr;
  bu_temp : d_entries dr !! temp = Some (EDir t);
  bu_walk : forall q k d, tr !! q = Some (k, d) -> is_dir (walk w (EDir t) q) = Some k;
  bu_holds : holds w tr;
  bu_inj : forall q q' k d d', tr !! q = Some (k, d) -> tr !! q' = Some (k, d') -> q = q';
}.

Lemma is_dir_some o k : is_dir o = Some k -> o = Some (EDir k).
Proof. destruct o as [[| |]|]; simpl; congruence. Qed.

Lemma walk_reach w t q k : is_dir (walk w (EDir t) q) = Some k -> reach w t k.
Proof.
  revert t. induction q as [|c q IH]; intros t; simpl; [intros [= ->]; constructor|].
  destruct (w !! t) as [d|] eqn:Hd; [|done]. simpl. destruct (d_entries d !! c) as [[| |l]|] eqn:Hc; simpl; try by destruct q.
  intros Hw%IH. eapply ReachStep; [exact Hd| |exact Hw]. exists (d_entries d), c. split; [apply version_here|done].
Qed.

Lemma build_private w dr t tr q k d : build w dr t tr -> tr !! q = Some (k, d) -> private temp w dr k.
Proof. intros B Hq. exists t. split; [apply B|]. by eapply walk_reach, bu_walk. Qed.

Lemma build_dir_at w dr t tr q j d :
  build w dr t tr -> tr !! q = Some (j, d) -> dir_at h w (base ++ temp :: q) = Some (j, d).
Proof using Hroot.
  intros B Hq. unfold dir_at, resolve. rewrite (inv_walk h os base r temp target spec Hroot w dr) by apply B.
  cbn [walk]. rewrite (inv_parent _ _ _ _ _ _ _ _ (bu_inv _ _ _ _ B)). cbn [mbind option_bind].
  rewrite (bu_temp _ _ _ _ B). cbn [mbind option_bind].
  rewrite (is_dir_some _ _ (bu_walk _ _ _ _ B q j d Hq)). cbn [mbind option_bind].
  by rewrite (bu_holds _ _ _ _ B q j d Hq).
Qed.

Lemma build_file w dr t tr q j d d' :
  build w dr t tr -> tr !! q = Some (j, d) -> tame d d' -> build (<[j := d']> w) dr t (<[q := (j, d')]> tr).
Proof.
  intros B Hq [Hs He]. pose proof (bu_holds _ _ _ _ B q j d Hq) as Hj. split.
  - eapply inv_private; [apply B|by eapply build_private|done|done].
  - apply B.
  - intros q' k d1 Hq'. rewrite (walk_insert _ _ d) by done. destruct (decide (q = q')) as [<-|Hnq].
    + rewrite lookup_insert_eq in Hq'. injection Hq' as <- <-. by eapply bu_walk.
    + rewrite lookup_insert_ne in Hq' by done. by eapply bu_walk.
  - intros q' k d1 Hq'. destruct (decide (q = q')) as [<-|Hnq].
    + rewrite lookup_insert_eq in Hq'. injection Hq' as <- <-. apply lookup_insert_eq.
    + rewrite lookup_insert_ne in Hq' by done. rewrite lookup_insert_ne; [by eapply bu_holds|]. intros <-.
      by apply Hnq, (bu_inj _ _ _ _ B q q' j d d1).
  - intros q1 q2 k d1 d2. rewrite !lookup_insert_Some. intros [[<- [= <- <-]]|[Hn1 H1]] [[<- [= <-]]|[Hn2 H2]]; try done.
    + by eapply (bu_inj _ _ _ _ B q q2).
    + by eapply (bu_inj _ _ _ _ B q1 q).
    + by eapply bu_inj.
Qed.

(** Lookups that succeeded still do when directories only gain names. *)
Lemma walk_grow w w' t q k :
  (forall j d, w !! j = Some d -> exists d', w' !! j = Some d'
     /\ forall name l, d_entries d !! name = Some (EDir l) -> d_entries d' !! name = Some (EDir l)) ->
  is_dir (walk w (EDir t) q) = Some k -> is_dir (walk w' (EDir t) q) = Some k.
Proof.
  intros Hg. revert t. induction q as [|c q IH]; intros t; [done|]. simpl.
  destruct (w !! t) as [d|] eqn:Hd; [|done]. simpl. destruct (Hg t d Hd) as (d' & -> & Hn). simpl.
  destruct (d_entries d !! c) as [[| |l]|] eqn:Hc; simpl; try by destruct q. rewrite (Hn c l Hc). simpl. apply IH.
Qed.

Lemma build_mkdir w dr t tr q j d name mode n :
  build w dr t tr -> tr !! q = Some (j, d) -> d_entries d !! name = None -> w !! n = None ->
  build (with_new h w j d name mode n) dr t
    (<[q ++ [name] := (n, MkDir (h_euid h) mode ∅ [])]> (<[q := (j, put d (<[name := EDir n]> (d_entries d)))]> tr)).
Proof using Hroot.
  intros B Hq Hno Hn. pose proof (bu_holds _ _ _ _ B q j d Hq) as Hj.
  assert (j <> n) as Hjn by (intros <-; congruence).
  assert (with_new h w j d name mode n !! j = Some (put d (<[name := EDir n]> (d_entries d)))) as Hwj
    by (unfold with_new; by rewrite lookup_insert_ne, lookup_insert_eq).
  assert (forall q' k, is_dir (walk w (EDir t) q') = Some k -> is_dir (walk (with_new h w j d name mode n) (EDir t) q') = Some k)
    as Hgrow.
  { intros q' k. apply walk_grow. intros j' d0 Hd0. destruct (decide (j' = j)) as [->|Hjj].
    - rewrite Hj in Hd0. injection Hd0 as <-. eexists. split; [exact Hwj|]. cbn [put d_entries]. intros nm l Hl.
      rewrite lookup_insert_ne; [done|]. by intros <-; congruence.
    - exists d0. split; [|done]. rewrite with_new_other; [done|done|by rewrite Hd0|done]. }
  assert (q ++ [name] <> q) as Hqq by (intros Heq%(f_equal length); rewrite length_app in Heq; simpl in Heq; lia).
  assert (forall q' k d1, q' <> q -> tr !! q' = Some (k, d1) -> k <> j /\ k <> n) as Hother.
  { intros q' k d1 Hq' Hk. split; intros ->.
    - by apply Hq', (bu_inj _ _ _ _ B q' q j d1 d).
    - apply (bu_holds _ _ _ _ B) in Hk. congruence. }
  split.
  - apply inv_mkdir; [apply B|by eapply build_private|done|done].
  - apply B.
  - intros q' k d1. rewrite !lookup_insert_Some. intros [[<- [= <- <-]]|[_ [[<- [= <- <-]]|[_ Hk]]]].
    + rewrite walk_app. rewrite (is_dir_some _ _ (Hgrow q j (bu_walk _ _ _ _ B q j d Hq))). cbn [mbind option_bind walk].
      rewrite Hwj. cbn [mbind option_bind put d_entries]. by rewrite lookup_insert_eq.
    + apply Hgrow. by eapply bu_walk.
    + apply Hgrow. by eapply bu_walk.
  - intros q' k d1. rewrite !lookup_insert_Some. intros [[<- [= <- <-]]|[_ [[<- [= <- <-]]|[Hnq Hk]]]].
    + unfold with_new. apply lookup_insert_eq.
    + done.
    + destruct (Hother q' k d1 (not_eq_sym Hnq) Hk) as [? ?]. pose proof (bu_holds _ _ _ _ B q' k d1 Hk) as Hd1.
      by rewrite with_new_other by (done || by rewrite Hd1).
  - intros q1 q2 k d1 d2. rewrite !lookup_insert_Some.
    intros [[<- [= <- <-]]|[Hn1 [[<- [= <- <-]]|[Hm1 H1]]]] [[<- [= <-]]|[Hn2 [[<- [= <-]]|[Hm2 H2]]]]; try done.
    + by destruct (Hother q2 n d2 (not_eq_sym Hm2) H2).
    + by destruct (Hother q2 j d2 (not_eq_sym Hm2) H2).
    + by destruct (Hother q1 n d1 (not_eq_sym Hm1) H1).
    + by destruct (Hother q1 j d1 (not_eq_sym Hm1) H1).
    + by eapply bu_inj.
Qed.

(** ** Programs *)

Definition kept (X : Type) (w : fs) (e : fsev X) : Prop := exists dr, inv w dr.

Abbreviation keeps := (safe (step h) kept (possible h) False).

(** From a tree [tr] the program makes a tree that meets [Q]. *)
Definition builds {A} (dr : dir) (t : N) (tr : view) (q : eprog fsev StoreError A) (Q : A -> view -> Prop) : Prop :=
  forall w, build w dr t tr ->
    keeps q w (fun w' x => match x with
      | Ok a => exists tr', build w' dr t tr' /\ Q a tr'
      | Err _ => exists dr', inv w' dr'
      end).

Lemma builds_ret {A} dr t tr (a : A) (Q : A -> view -> Prop) : Q a tr -> builds dr t tr (eret a) Q.
Proof. intros HQ w B. by exists tr. Qed.

Lemma builds_bind {A B} dr t tr (q : eprog fsev StoreError A) (f : A -> eprog fsev StoreError B) P Q :
  builds dr t tr q P -> (forall a tr', P a tr' -> builds dr t tr' (f a) Q) -> builds dr t tr (ebind q f) Q.
Proof.
  intros Hq Hf w Bu. eapply safe_ebind_use; [by apply Hq|..].
  - intros w' a (tr' & B' & HP). by apply (Hf a tr').
  - intros w' e He. exact He.
Qed.

Lemma builds_mono {A} dr t tr (q : eprog fsev StoreError A) (P Q : A -> view -> Prop) :
  builds dr t tr q P -> (forall a tr', P a tr' -> Q a tr') -> builds dr t tr q Q.
Proof.
  intros Hq HPQ w B. eapply safe_mono; [by apply Hq|]. intros w' [a|e]; [|done]. intros (tr' & B' & HP). eauto.
Qed.

(** A call on a directory of the tree that touches files only. *)
Lemma builds_file {X} dr t tr (e : fsev (result IoKind X)) q j d :
  target_of e = Some (base ++ temp :: q) -> tr !! q = Some (j, d) ->
  (forall x, succeeded e (Ok x) = true) -> tame d (change h d e) ->
  (forall x, succeeded e (Err x) = false) -> tame d (clobber d e) ->
  builds dr t tr (io e) (fun _ tr' => tr' = <[q := (j, change h d e)]> tr).
Proof using Hroot.
  intros He Hq Hs Hc Hs' Hc' w B. split; [exists dr; apply B|]. intros x Hx.
  assert (step h w (Obs e x) = <[j := if succeeded e x then change h d e else clobber d e]> w) as Hstep.
  { simpl. rewrite He. unfold update_at. by rewrite (build_dir_at w dr t tr q j d). }
  rewrite Hstep. destruct x as [x|x]; simpl.
  - rewrite Hs. exists (<[q := (j, change h d e)]> tr). split; [by eapply build_file|done].
  - rewrite Hs'. exists dr. by eapply bu_inv, build_file.
Qed.

Lemma builds_sync dr t tr q j d :
  tr !! q = Some (j, d) ->
  builds dr t tr (sync_directory (base ++ temp :: q)) (fun _ tr' => tr' = <[q := (j, synced d)]> tr).
Proof using Hroot. intros Hq. apply (builds_file dr t tr (FsSyncDirectory (base ++ temp :: q)) q j d); try done. apply tame_synced. Qed.

Lemma builds_create_dir dr t tr q j d name :
  tr !! q = Some (j, d) -> d_entries d !! name = None ->
  builds dr t tr (create_dir (base ++ temp :: q) name) (fun _ tr' => exists n,
    tr' = <[q ++ [name] := (n, MkDir (h_euid h) 448 ∅ [])]> (<[q := (j, put d (<[name := EDir n]> (d_entries d)))]> tr)).
Proof using Hroot.
  intros Hq Hno w B. split; [exists dr; apply B|]. intros x Hx.
  assert (w !! fresh (dom w) = None) as Hn by (apply not_elem_of_dom; apply is_fresh).
  simpl. unfold make_dir. rewrite (build_dir_at w dr t tr q j d) by done. destruct x as [x|x]; simpl.
  - eexists. split; [|by eexists]. by apply build_mkdir.
  - exists dr. apply B.
Qed.

(** ** Files *)

Definition with_file (d : dir) (name : string) (mode : Z) (content : string) (older : list (gmap string entry)) : dir :=
  MkDir (d_uid d) (d_mode d) (<[name := EFile (h_euid h) mode (Some content) true]> (d_entries d)) older.

Lemma builds_write_new dr t tr q j d name content mode :
  tr !! q = Some (j, d) -> d_entries d !! name = None ->
  builds dr t tr (write_new (base ++ temp :: q) name content mode) (fun _ tr' => exists older,
    tr' = <[q := (j, with_file d name mode content older)]> tr).
Proof using Hroot.
  intros Hq Hno. set (p := base ++ temp :: q). set (euid := h_euid h). set (older := d_entries d :: d_older d).
  pose (file := fun m c b => MkDir (d_uid d) (d_mode d) (<[name := EFile euid m (Some c) b]> (d_entries d)) older).
  assert (forall m c b, d_entries (file m c b) !! name = Some (EFile euid m (Some c) b)) as Hf
    by (intros; apply lookup_insert_eq).
  assert (forall m c b m' c' b', put_file (file m c b) name (EFile euid m' c' b')
    = MkDir (d_uid d) (d_mode d) (<[name := EFile euid m' c' b']> (d_entries d)) older) as Hpf
    by (intros; unfold put_file; cbn [file d_entries d_uid d_mode d_older]; by rewrite insert_insert_eq).
  assert (forall m c b m' c' b', tame (file m c b) (put_file (file m c b) name (EFile euid m' c' b'))) as Htame.
  { intros m c b m' c' b'. apply (tame_insert (file m c b) _ name (EFile euid m' c' b')); [done|by rewrite Hf|done|].
    intros m0 H0. apply version_older. exact H0. }
  unfold write_new. eapply builds_bind.
  { apply (builds_file dr t tr (FsCreateNew p name 384) q j d); try done.
    apply (tame_insert d _ name (EFile euid 384 (Some EmptyString) false)); [done|by rewrite Hno|done|].
    intros m [->|Hm]%elem_of_cons; [apply version_here|by apply version_older]. }
  intros _ ? ->. change (change h d (FsCreateNew p name 384)) with (file 384%Z EmptyString false).
  eapply builds_bind.
  { apply (builds_file _ _ _ (FsWriteAll p name content) q j (file 384%Z EmptyString false)); try done.
    - apply lookup_insert_eq.
    - cbn [change]. rewrite Hf. apply Htame.
    - cbn [clobber]. rewrite Hf. apply Htame. }
  intros _ ? ->. cbn [change]. rewrite Hf, Hpf, insert_insert_eq.
  fold (file 384%Z content false). eapply builds_bind.
  { apply (builds_file _ _ _ (FsSetPermissions p name mode) q j (file 384%Z content false)); try done.
    - apply lookup_insert_eq.
    - cbn [change]. rewrite Hf. apply Htame. }
  intros _ ? ->. cbn [change]. rewrite Hf, Hpf, insert_insert_eq. fold (file mode content false).
  eapply builds_mono.
  { apply (builds_file _ _ _ (FsSyncAll p name) q j (file mode content false)); try done.
    - apply lookup_insert_eq.
    - cbn [change]. rewrite Hf. apply Htame. }
  intros _ ? ->. cbn [change]. rewrite Hf, Hpf, insert_insert_eq. by exists older.
Qed.

Definition file_entry (mode : Z) (content : string) : entry := EFile (h_euid h) mode (Some content) true.

Definition with_files (d : dir) (mode : Z) (files : gmap string string) (older : list (gmap string entry)) : dir :=
  MkDir (d_uid d) (d_mode d) ((file_entry mode <$> files) ∪ d_entries d) older.

Lemma builds_write_list dr t tr q j d files :
  tr !! q = Some (j, d) -> NoDup files.*1 -> (forall name, name ∈ files.*1 -> d_entries d !! name = None) ->
  builds dr t tr (write_files (base ++ temp :: q) files) (fun _ tr' => exists older,
    tr' = <[q := (j, with_files d MANAGED_FILE_MODE (list_to_map files) older)]> tr).
Proof using Hroot.
  revert tr d. induction files as [|[name content] files IH]; intros tr d Hq Hnd Hno.
  - apply builds_ret. exists (d_older d). unfold with_files. rewrite list_to_map_nil, fmap_empty, map_empty_union.
    rewrite insert_id; [done|]. rewrite Hq. by destruct d.
  - cbn [fmap list_fmap fst] in Hnd, Hno. apply list.NoDup_cons in Hnd as [Hni Hnd]. cbn [write_files]. eapply builds_bind.
    { apply (builds_write_new dr t tr q j d name content MANAGED_FILE_MODE); [done|]. apply Hno. by left. }
    intros _ ? [older ->]. eapply builds_mono.
    { apply (IH _ (with_file d name MANAGED_FILE_MODE content older)); [apply lookup_insert_eq|done|].
      intros nm Hnm. cbn [with_file d_entries]. rewrite lookup_insert_ne by (intros <-; done). apply Hno. by right. }
    intros _ ? [older' ->]. exists older'. rewrite insert_insert_eq. unfold with_files, with_file.
    rewrite list_to_map_cons. cbn [d_entries d_uid d_mode]. do 3 f_equal.
    rewrite fmap_insert, <- insert_union_l. symmetry. apply insert_union_r. rewrite lookup_fmap.
    by rewrite not_elem_of_list_to_map_1.
Qed.

Lemma sorted_entries_perm (m : gmap string string) : sorted_entries m ≡ₚ map_to_list m.
Proof. apply sort_by_perm. Qed.

Lemma builds_write_files dr t tr q j d (files : gmap string string) :
  tr !! q = Some (j, d) -> d_entries d = ∅ ->
  builds dr t tr (write_files (base ++ temp :: q) (sorted_entries files)) (fun _ tr' => exists older,
    tr' = <[q := (j, MkDir (d_uid d) (d_mode d) (file_entry MANAGED_FILE_MODE <$> files) older)]> tr).
Proof using Hroot.
  intros Hq He. assert (NoDup (sorted_entries files).*1) as Hnd.
  { rewrite sorted_entries_perm. apply NoDup_fst_map_to_list. }
  eapply builds_mono; [apply (builds_write_list dr t tr q j d); [done|done|by rewrite He]|].
  intros _ ? [older ->]. exists older. unfold with_files. rewrite He, map_union_empty.
  rewrite (list_to_map_proper _ (map_to_list files)) by (done || apply sorted_entries_perm). by rewrite list_to_map_to_list.
Qed.

(** ** Publication *)

(** Part of the tree is what the target asks for, and it is on disk. *)
Definition complete_tree (t : N) (tr : view) : Prop :=
  exists fin : view, (exists d, fin !! [] = Some (t, d)) /\ (forall q x, fin !! q = Some x -> tr !! q = Some x)
    /\ (forall q k d, fin !! q = Some (k, d) -> clean d) /\ spec fin.

Definition makes_tree {A} (q : eprog fsev StoreError A) : Prop :=
  forall w dr, inv w dr -> keeps q w (fun w' x => match x with
    | Ok _ => exists dr' t tr, build w' dr' t tr /\ complete_tree t tr
    | Err _ => exists dr', inv w' dr'
    end).

Lemma makes_tree_intro {A} (q : eprog fsev StoreError A) :
  (forall dr t, builds dr t {[ [] := (t, MkDir (h_euid h) 448 ∅ []) ]} q (fun _ tr => complete_tree t tr)) ->
  makes_tree (create_dir base temp ;;; q).
Proof using Hroot Hos Hne.
  intros Hq w dr I. assert (w !! fresh (dom w) = None) as Hn by (apply not_elem_of_dom; apply is_fresh).
  set (n := fresh (dom w)) in *. split; [by exists dr|]. intros x Hx.
  destruct x as [[]|x]; [|simpl; by exists dr].
  assert (d_entries dr !! temp = None) as Hno.
  { destruct Hx as [Hx|[Hx|[]]]; [|done]. cbn [answer] in Hx. unfold on_name in Hx.
    rewrite (inv_dir_at h os base r temp target spec Hroot w dr I) in Hx. by destruct (d_entries dr !! temp). }
  cbn [map_err step target_of spread is_ok]. unfold make_dir.
  rewrite (inv_dir_at h os base r temp target spec Hroot w dr I). fold n.
  change (<[n := _]> (<[r := _]> w)) with (with_new h w r dr temp 448 n).
  set (dr' := put dr (<[temp := EDir n]> (d_entries dr))).
  eapply safe_mono.
  { apply (Hq dr' n). split.
    - by apply inv_mkdir_temp.
    - apply lookup_insert_eq.
    - intros q' k d [<- [= <- <-]]%lookup_singleton_Some. done.
    - intros q' k d [<- [= <- <-]]%lookup_singleton_Some. apply lookup_insert_eq.
    - intros q1 q2 k d1 d2 [<- _]%lookup_singleton_Some [<- _]%lookup_singleton_Some. done. }
  intros w' [a|e]; [|done]. intros (tr & B & Hc). eauto 6.
Qed.

Lemma emptied_refl o : emptied o o.
Proof. destruct o as [d|]; [|done]. split; [done|]. split; [done|]. intros m Hm. by exists m. Qed.

Lemma removal_possible w x : possible h _ w (FsRemoveDirAll base temp) x -> partly_removed h w base temp x.
Proof.
  intros [->|[Hx|[]]]; [|done]. cbn [answer]. unfold partly_removed.
  destruct (dir_at h w base) as [[i d]|]; [|done]. destruct (d_entries d !! temp) as [[| |j]|]; try done.
  split; [intros k; apply emptied_refl|done].
Qed.

Definition published_to (w : fs) (x : result StoreError unit) : Prop :=
  exists dr, inv w dr /\ forall u, x = Ok u -> d_older dr = [] /\ is_Some (d_entries dr !! target).

Lemma keeps_removing (q : eprog fsev StoreError unit) w :
  keeps q w published_to -> keeps (removing_tree_on_error q base temp) w published_to.
Proof using Hroot Hos Hne.
  intros Hq. apply safe_bind. eapply safe_mono; [exact Hq|]. intros w' [a|e] (dr & I & HQ).
  - by exists dr.
  - split; [by exists dr|]. intros x Hx. simpl.
    destruct (inv_remove h os base r temp target spec Hroot Hos w' dr x I Hne (removal_possible _ _ Hx)) as [dr' I'].
    by exists dr'.
Qed.

(** The rename, whatever its errors are mapped to. *)
Definition renames (q : eprog fsev StoreError unit) : Prop :=
  exists k, q = Vis (FsRenameNoReplace base temp base target) k /\ forall x, exists y, k x = Ret y /\ is_ok y = is_ok x.

Lemma keeps_rename q w dr t tr (Q : fs -> result StoreError unit -> Prop) :
  renames q -> build w dr t tr -> complete_tree t tr ->
  (forall e, Q w (Err e)) ->
  (forall w' dr', inv w' dr' -> d_entries dr' !! target = Some (EDir t) -> Q w' (Ok tt)) ->
  keeps q w Q.
Proof using Hroot Hos Hne.
  intros (k & -> & Hk) B (fin & [d Hd] & Hsub & Hcl & Hsp) Herr Hok. pose proof (bu_inv _ _ _ _ B) as I.
  split; [by exists dr|]. intros x Hx. destruct (Hk x) as (y & -> & Hy). cbn [step target_of spread].
  destruct x as [[]|x], y as [[]|y]; try done; cbn [is_ok]; [|apply Herr]. unfold move.
  rewrite (inv_dir_at h os base r temp target spec Hroot w dr I), (bu_temp _ _ _ _ B). cbn [bool_decide].
  rewrite bool_decide_eq_true_2 by done. unfold update_at. rewrite (inv_dir_at h os base r temp target spec Hroot w dr I).
  assert (d_entries dr !! target = None) as Hno.
  { destruct Hx as [Hx|[Hx|[]]]; [|done]. cbn [answer] in Hx. unfold on_name in Hx.
    rewrite (inv_dir_at h os base r temp target spec Hroot w dr I), (bu_temp _ _ _ _ B) in Hx.
    by destruct (d_entries dr !! target). }
  apply (Hok _ (put dr (<[target := EDir t]> (delete temp (d_entries dr))))); [|apply lookup_insert_eq].
  eapply (inv_publish os base r temp target spec Hos w dr t fin I (bu_temp _ _ _ _ B) Hno Hne); [by exists d| |done|done|].
  - intros q k' d' Hq. apply (bu_holds _ _ _ _ B q). by apply Hsub.
  - intros q k' d' Hq. eapply walk_reach, (bu_walk _ _ _ _ B q). by apply Hsub.
Qed.

Lemma keeps_sync_parent w dr t :
  inv w dr -> d_entries dr !! target = Some (EDir t) -> keeps (sync_directory base) w published_to.
Proof using Hroot Hos.
  intros I Ht. split; [by exists dr|]. intros x Hx. cbn [step target_of]. unfold update_at.
  rewrite (inv_dir_at h os base r temp target spec Hroot w dr I). destruct x as [[]|x]; simpl.
  - exists (synced dr). split; [by apply inv_sync|]. intros _ _. split; [done|]. simpl. by rewrite Ht.
  - exists dr. rewrite insert_id by apply I. by split.
Qed.

Lemma keeps_publication {A} (q : eprog fsev StoreError A) (rename : eprog fsev StoreError unit) w dr :
  makes_tree q -> renames rename -> inv w dr ->
  keeps (removing_tree_on_error (q ;;; rename ;;; sync_directory base) base temp) w published_to.
Proof using Hroot Hos Hne.
  intros Hq Hr I. apply keeps_removing. eapply safe_ebind_use; [by apply (Hq w dr)|..].
  - intros w1 a (dr1 & t & tr & B & Hc). apply safe_ebind. eapply keeps_rename; [done..| |].
    + intros e. exists dr1. split; [apply B|done].
    + intros w2 dr2 I2 Ht. by eapply keeps_sync_parent.
  - intros w1 e [dr1 I1]. by exists dr1.
Qed.
End builder.
