(* ===== verification/RevisionFormat.v ===== *)
(** * RevisionFormat: the environment files of a revision are read back

    [serialize_environment] and [parse_environment] of [ConfigRevision] are
    inverse on the entries a draft can hold. *)

From stdpp Require Import sets gmap.
From S2P Require Import Prelude Text Reference Models Effects Codec Names Drafts DraftSpec Compose FileSystem StoreBase ConfigRevision.
From Stdlib Require Import Ascii.

(** ** Values *)

Lemma escape_value_cons c value :
  escape_value (String c value)
  = (if char_eqb c backslash then "\\" else if char_eqb c quote then "\'" else String c EmptyString)
    +:+ escape_value value.
Proof.
  unfold escape_value. cbn [replace_char]. destruct (char_eqb c backslash) eqn:Hb; [done|]. cbn [replace_char].
  by destruct (char_eqb c quote).
Qed.

Lemma unescape_escape value : unescape false (escape_value value) = Some value.
Proof.
  induction value as [|c value IH]; [done|]. rewrite escape_value_cons.
  destruct (char_eqb c backslash) eqn:Hb; [|destruct (char_eqb c quote) eqn:Hq]; cbn [String.append unescape].
  - apply char_eqb_eq in Hb as ->. by rewrite IH.
  - apply char_eqb_eq in Hq as ->. by rewrite IH.
  - by rewrite Hb, IH.
Qed.

Lemma escape_no_newline value :
  contains_char newline value = false -> contains_char newline (escape_value value) = false.
Proof.
  unfold contains_char. induction value as [|c value IH]; [done|]. cbn [str_any]. intros [Hc Hv]%orb_false_iff.
  rewrite escape_value_cons. destruct (char_eqb c backslash), (char_eqb c quote); cbn [String.append str_any];
    rewrite ?Hc, IH by done; done.
Qed.

Lemma last_byte_snoc s c : last_byte (s +:+ String c EmptyString) = Some c.
Proof. induction s as [|a s IH]; [done|]. simpl. rewrite IH. by destruct s. Qed.

Lemma length_snoc s c : String.length (s +:+ String c EmptyString) - 1 = String.length s.
Proof. rewrite length_append. simpl. lia. Qed.

Lemma strip_quotes_quoted s : strip_quotes ("'" +:+ s +:+ "'") = Some s.
Proof.
  unfold strip_quotes. rewrite strip_prefix_append. cbn [mbind option_bind]. rewrite last_byte_snoc. cbn [is_some_and].
  rewrite length_snoc. by rewrite str_take_append.
Qed.

(** ** Lines *)

Definition entry_line (e : PublicEnvInput) : string := pe_key e +:+ "='" +:+ escape_value (pe_value e) +:+ "'".

(** What a line can hold. *)
Definition entry_fits (e : PublicEnvInput) : Prop :=
  contains_char "=" (pe_key e) = false /\ contains_char newline (pe_key e) = false
  /\ contains_char newline (pe_value e) = false.

Lemma split_once_append c l r : contains_char c l = false -> split_once c (l +:+ String c r) = Some (l, r).
Proof.
  unfold contains_char. induction l as [|a l IH]; cbn [String.append split_once str_any].
  - intros _. by rewrite (proj2 (char_eqb_eq c c)).
  - intros [Ha Hl]%orb_false_iff. rewrite Ha. by rewrite IH.
Qed.

Lemma parse_entry_line e : entry_fits e -> parse_line (entry_line e) = Some e.
Proof.
  intros (Hk & _). unfold parse_line, entry_line.
  change ("='" +:+ escape_value (pe_value e) +:+ "'") with (String "="%char ("'" +:+ escape_value (pe_value e) +:+ "'")).
  rewrite split_once_append by done. cbn [mbind option_bind]. rewrite strip_quotes_quoted. cbn [mbind option_bind].
  rewrite unescape_escape. by destruct e.
Qed.

Lemma entry_line_one_line e : entry_fits e -> contains_char newline (entry_line e) = false.
Proof.
  intros (_ & Hk & Hv). unfold entry_line. rewrite !contains_char_append, Hk, escape_no_newline by done. done.
Qed.

Lemma entry_line_kept e : strip_carriage_return (entry_line e) = entry_line e.
Proof.
  unfold strip_carriage_return, entry_line. rewrite <- !append_assoc. by rewrite last_byte_snoc.
Qed.

Definition as_pair (e : PublicEnvInput) : string * string := (pe_key e, pe_value e).

Lemma serialize_cons e entries :
  serialize_environment (map as_pair (e :: entries))
  = entry_line e +:+ String newline (serialize_environment (map as_pair entries)).
Proof. unfold entry_line. rewrite !append_assoc. done. Qed.

Lemma lines_of_cons x r : r <> [] -> lines_of (x :: r) = strip_carriage_return x :: lines_of r.
Proof. by destruct r. Qed.

Lemma serialize_lines entries :
  Forall entry_fits entries -> lines (serialize_environment (map as_pair entries)) = map entry_line entries.
Proof.
  unfold lines. induction 1 as [|e entries He _ IH]; [done|]. rewrite serialize_cons.
  rewrite split_append by (by apply entry_line_one_line). rewrite lines_of_cons by apply split_ne.
  by rewrite entry_line_kept, IH.
Qed.

Lemma environment_read_back entries :
  Forall entry_fits entries ->
  parse_environment (serialize_environment (map as_pair entries)) (map pe_key entries) = Ok entries.
Proof.
  intros Hf. unfold parse_environment. rewrite serialize_lines by done.
  assert (mapM parse_line (map entry_line entries) = Some entries) as ->.
  { apply mapM_Some. induction Hf; constructor; [by apply parse_entry_line|done]. }
  simpl. by rewrite bool_decide_eq_true_2.
Qed.
