(* ===== verification/RevisionSafety.v ===== *)
(** * RevisionSafety: a configuration revision is published as a whole

    [publish] of [ConfigRevision] as an instance of [AtomicTree] and
    [TreeBuilder]: whatever fails and wherever the process or the machine
    stops, a revision that is visible is complete and on disk; and what is
    published is read back. *)

From stdpp Require Import sets gmap.
From S2P Require Import Prelude Text Reference Models Effects Codec Names Drafts DraftSpec DraftStored Compose FileSystem StoreBase AtomicTree ConfigRevision TreeBuilder RevisionFormat.
From Stdlib Require Import Ascii.

Section revision.
Context {UT : UuidText} {ST : StoreText} {CR : Crypto}.
Context (h : Host).

Definition private_clean (m : gmap string entry) : dir := MkDir (h_euid h) 448 m [].

Abbreviation file := (file_entry h).

(** The directories of a revision that holds [draft]. *)
Definition revision_tree (draft : NormalizedDraft) (tr : view) : Prop :=
  exists t e s f p q : N, tr =
    {[ [] := (t, private_clean {[ "config.toml" := file 384 (config_to_toml (nd_metadata draft));
                                  "files" := EDir f; "secrets" := EDir s; "env" := EDir e ]});
       ["env"] := (e, private_clean {[ "public.env" := file 384
         (serialize_environment (map as_pair (nd_public_environment draft))) ]});
       ["secrets"] := (s, private_clean {[ "runtime.env" := file 384
         (serialize_environment (sorted_entries (nd_secret_environment draft))) ]});
       ["files"] := (f, private_clean {[ "secret" := EDir q; "public" := EDir p ]});
       ["files"; "public"] := (p, private_clean (file MANAGED_FILE_MODE <$> nd_public_files draft));
       ["files"; "secret"] := (q, private_clean (file MANAGED_FILE_MODE <$> nd_secret_files draft)) ]}.

Lemma torn_file mode (m : gmap string string) : torn <$> (file mode <$> m) = file mode <$> m.
Proof. apply map_eq. intros k. rewrite !lookup_fmap. by destruct (m !! k). Qed.

Lemma private_clean_clean m : torn <$> m = m -> clean (private_clean m).
Proof. intros Hm. by split. Qed.

Section build.
Context (os : list N) (base : list string) (r : N) (temp target : string) (draft : NormalizedDraft).
Context (Hroot : h_root h = default r (head os)) (Hos : r ∉ os) (Hne : temp <> target).

Abbreviation builds := (builds h os base r temp target (revision_tree draft)).

Ltac find_dir := repeat (rewrite lookup_insert_eq || rewrite lookup_insert_ne by done); try reflexivity.

(** One step of the program: create a directory, write a file, write managed
    files, or synchronise a directory, in the directory [q] of the tree. *)
Ltac make q := eapply builds_bind; [eapply (builds_create_dir h os base r temp target _ Hroot _ _ _ q); find_dir|];
  let n := fresh "n" in intros _ ? [n ->]; cbn [app put d_entries d_older d_uid d_mode].
Ltac write q := eapply builds_bind; [eapply (builds_write_new h os base r temp target _ Hroot _ _ _ q); find_dir|];
  let older := fresh "older" in intros _ ? [older ->]; cbn [with_file d_entries d_older d_uid d_mode].
Ltac write_all q := eapply builds_bind; [eapply (builds_write_files h os base r temp target _ Hroot _ _ _ q); find_dir|];
  let older := fresh "older" in intros _ ? [older ->]; cbn [d_entries d_older d_uid d_mode].
Ltac sync q := eapply (builds_sync h os base r temp target _ Hroot _ _ _ q); find_dir.

Lemma build_revision_makes_tree :
  makes_tree h os base r temp target (revision_tree draft) (build_revision base temp draft).
Proof using All.
  unfold build_revision. apply makes_tree_intro; [done..|]. intros dr t.
  rewrite <- !app_assoc. cbn [app].
  make (@nil string). make (@nil string). make (@nil string). make ["files"]. make ["files"].
  write (@nil string). write ["env"]. write ["secrets"]. write_all ["files"; "public"]. write_all ["files"; "secret"].
  eapply builds_bind; [sync ["env"]|]. intros _ ? ->. eapply builds_bind; [sync ["secrets"]|]. intros _ ? ->.
  eapply builds_bind; [sync ["files"; "public"]|]. intros _ ? ->. eapply builds_bind; [sync ["files"; "secret"]|].
  intros _ ? ->. eapply builds_bind; [sync ["files"]|]. intros _ ? ->. eapply builds_mono; [sync (@nil string)|].
  intros _ ? ->. cbn [synced d_entries d_uid d_mode]. rewrite !insert_empty.
  eexists. split; [|split; [|split; [|do 6 eexists; reflexivity]]].
  - eexists. find_dir.
  - intros q x Hq. repeat (apply lookup_insert_Some in Hq as [[<- <-]|[_ Hq]]; [find_dir|]).
    apply lookup_singleton_Some in Hq as [<- <-]. find_dir.
  - intros q k d Hq. repeat (apply lookup_insert_Some in Hq as [[<- [= <- <-]]|[_ Hq]];
      [apply private_clean_clean; first [apply torn_file | by rewrite ?fmap_insert, map_fmap_singleton]|]).
    apply lookup_singleton_Some in Hq as [<- [= <- <-]]. apply private_clean_clean, torn_file.
Qed.
End build.

(** ** The directory of an application

    [a] is the name of the application's directory below the root, [i] the
    directory, [r] its [config-revisions]. *)

Section publication.
Context (a : string) (i r : N) (revision_id : Uuid) (draft : NormalizedDraft).

Abbreviation app := [a].
Abbreviation base := [a; "config-revisions"].
Abbreviation os := [h_root h; i].
Abbreviation temp := (REVISION_TEMP_PREFIX +:+ uuid_simple revision_id).
Abbreviation target := (uuid_to_string revision_id).
Abbreviation inv := (inv os base r temp target (revision_tree draft)).

(** The revision's identifier is new. *)
Record ready (w0 : fs) : Prop := {
  rd_distinct : r <> h_root h /\ r <> i;
  rd_names : temp <> target;
  rd_path : leads r w0 os base;
  rd_closed : closed w0;
  rd_new : exists dr, w0 !! r = Some dr /\ forall m, m ∈ versions dr -> m !! target = None /\ m !! temp = None;
}.

(** The revision in [config-revisions] is complete and on disk. *)
Definition revision_at (w : fs) (j : N) : Prop :=
  exists tr, revision_tree draft tr /\ (exists d, tr !! [] = Some (j, d)) /\ holds w tr
    /\ forall q k d, tr !! q = Some (k, d) -> clean d.

(** Attempts that stop anywhere, whatever failed in them, and crashes. *)
Inductive attempts (w0 : fs) : fs -> Prop :=
| AttemptsStart : attempts w0 w0
| AttemptsPublish w tr o : attempts w0 w -> trace (publish (h_euid h) app revision_id draft) tr o ->
    relied (step h) (possible h) w tr -> attempts w0 (foldl (step h) w tr)
| AttemptsCrash w w' : attempts w0 w -> crash w w' -> attempts w0 w'.

Section attempts.
Context (w0 : fs) (R : ready w0).

Lemma os_outside : r ∉ os.
Proof using CR R. destruct (rd_distinct _ R). set_solver. Qed.

Lemma ready_inv : exists dr, inv w0 dr.
Proof using CR R.
  destruct (rd_new _ R) as (dr & Hr & Hn). exists dr. split; [apply R|done|apply R| |].
  - intros m k Hm _ j Hj. destruct (Hn m Hm) as [_ Ht]. by rewrite Ht in Hj.
  - left. intros m Hm. by apply Hn.
Qed.

Abbreviation keeps := (safe (step h) (kept os base r temp target (revision_tree draft)) (possible h) False).

Lemma keeps_ensure_dir w dr :
  inv w dr -> keeps (ensure_dir (h_euid h) app "config-revisions") w (fun w' _ => w' = w).
Proof.
  intros I. split; [by exists dr|]. intros x Hx.
  change (step h w (Obs (FsSymlinkMetadata base) x)) with w.
  assert (x <> Err NotFound) as Hnf.
  { intros ->. destruct Hx as [Hx|[Hx|[]]]; [|done]. cbn [answer] in Hx.
    change (app ++ ["config-revisions"]) with (base ++ []) in Hx.
    rewrite (inv_walk h os base r temp target (revision_tree draft) eq_refl w dr [] I) in Hx.
    cbn [walk mbind option_bind stat] in Hx. rewrite (inv_parent _ _ _ _ _ _ _ _ I) in Hx. done. }
  destruct x as [st|[]]; try done. apply reads_only_safe; [|apply reads_only_check_private]. by exists dr.
Qed.

Lemma keeps_publish w dr :
  inv w dr -> keeps (publish (h_euid h) app revision_id draft) w
    (published_to os base r temp target (revision_tree draft)).
Proof using CR R.
  intros I. eapply safe_ebind_use; [by apply (keeps_ensure_dir w dr)|..].
  - intros w' u ->. apply (keeps_publication h os base r temp target _ eq_refl os_outside (rd_names _ R) _ _ w dr); [| |done].
    + apply build_revision_makes_tree; [done|apply os_outside|apply R].
    + eexists. split; [reflexivity|]. intros [[]|[]]; by eexists.
  - intros w' e ->. by exists dr.
Qed.

Lemma attempts_inv w : attempts w0 w -> exists dr, inv w dr.
Proof using CR R.
  induction 1 as [|w tr o _ [dr I] Ht Hr|w w' _ [dr I] Hc]; [apply ready_inv| |].
  - refine (proj1 (safe_everywhere _ _ _ _ (fun w => exists dr, inv w dr) _ _ _ _ _ _ _ _ (keeps_publish w dr I) Ht Hr));
      [done| |done]. intros g x (dr' & ? & _). by exists dr'.
  - destruct (inv_crash _ _ _ _ _ _ _ _ _ I Hc) as (dr' & I' & _). by exists dr'.
Qed.

Lemma inv_revision w dr m e : inv w dr -> m ∈ versions dr -> m !! target = Some e -> exists j, e = EDir j /\ revision_at w j.
Proof.
  intros I Hm He. destruct (inv_target _ _ _ _ _ _ _ _ I) as [Hn|(tr & j & Hw & _ & Hv)]; [by rewrite Hn in He|].
  destruct (Hv m Hm) as [Hn|[Hj _]]; [by rewrite Hn in He|]. rewrite He in Hj. injection Hj as ->. exists j. split; [done|].
  exists tr. split; [apply Hw|]. split; [apply Hw|]. split; [apply Hw|]. by intros q k d Hq; eapply wh_clean.
Qed.
End attempts.
End publication.
End revision.
