(* ===== verification/RevisionLoad.v ===== *)
(** * RevisionLoad: a published revision is read back

    [load] and [load_verified] of [ConfigRevision] on a file system that holds
    the tree [RevisionSafety] shows [publish] to leave. *)

From stdpp Require Import sets gmap.
From S2P Require Import Prelude Text Reference Models Effects Codec Names Drafts DraftSpec DraftCanonical DraftStored DraftTheorems Compose ComposeTheorems FileSystem StoreBase AtomicTree ConfigRevision TreeBuilder RevisionFormat RevisionSafety.
From Stdlib Require Import Ascii.

Section load.
Context {UT : UuidText} {ST : StoreText} {CR : Crypto}.
Context (h : Host).

Abbreviation euid := (h_euid h).
Abbreviation run := (run (serve h)).
(** [q] reads [a] and leaves the file system as it is. *)
Definition yields {A} (w : fs) (q : eprog fsev StoreError A) (a : A) : Prop := run q w = (Some (Ok a), w).

Lemma yields_bind {A B} w (q : eprog fsev StoreError A) (f : A -> eprog fsev StoreError B) a b :
  yields w q a -> yields w (f a) b -> yields w (ebind q f) b.
Proof. unfold yields. intros Hq Hf. unfold ebind. by rewrite run_bind, Hq. Qed.

Lemma yields_lift {A} w (r : result StoreError A) a : r = Ok a -> yields w (lift r) a.
Proof. by intros ->. Qed.

Lemma yields_read {F X} w (e : fsev (result F X)) (f : F -> StoreError) x :
  reads e = true -> answer h e w = Ok x -> yields w (try_call e f) x.
Proof.
  intros He Ha. unfold yields, try_call. cbn [Effects.run]. unfold serve. rewrite step_none by done. by rewrite Ha.
Qed.

(** ** Permission checks *)

Definition private_entry (w : fs) (e : entry) (directory : bool) : Prop :=
  exists mode, stat h w e = Some (MkStat (if directory then KindDirectory else KindFile) euid mode) /\ Z.land mode 63 = 0%Z.

Lemma yields_check_private w p e b :
  walk w (EDir (h_root h)) p = Some e -> private_entry w e b -> yields w (check_private euid p b) tt.
Proof.
  intros Hw (mode & Hs & Hm). eapply yields_bind.
  { apply yields_read; [done|]. cbn [answer]. rewrite Hw. cbn [mbind option_bind]. by rewrite Hs. }
  cbn [st_kind st_uid st_mode]. eapply yields_bind; [apply yields_lift; by destruct b|].
  eapply yields_bind; [apply yields_lift; by rewrite bool_decide_eq_true_2|].
  apply yields_lift. by rewrite Hm.
Qed.

Fixpoint private_along (w : fs) (e : entry) (rel : list string) (b : bool) : Prop :=
  match rel with
  | [] => True
  | c :: rest => exists e', walk w e [c] = Some e' /\ private_entry w e' (negb (is_nil rest) || b) /\ private_along w e' rest b
  end.

Lemma yields_check_components w current rel b e :
  walk w (EDir (h_root h)) current = Some e -> private_along w e rel b ->
  yields w (check_components euid current rel b) tt.
Proof.
  revert current e. induction rel as [|c rel IH]; intros current e Hw Ha; [done|].
  destruct Ha as (e' & Hc & Hp & Ha). assert (walk w (EDir (h_root h)) (current ++ [c]) = Some e') as Hw'.
  { rewrite walk_app, Hw. exact Hc. }
  eapply yields_bind; [by eapply yields_check_private|]. by eapply IH.
Qed.

Lemma yields_check_tree w root rel b e :
  walk w (EDir (h_root h)) root = Some e -> private_entry w e true -> private_along w e rel b ->
  yields w (check_private_tree euid root rel b) tt.
Proof.
  intros Hw Hp Ha. eapply yields_bind; [by eapply yields_check_private|]. by eapply yields_check_components.
Qed.

(** ** The revision in its place *)

Section revision.
Context (a : string) (i r j : N) (revision_id : Uuid) (draft : NormalizedDraft) (w : fs).

Definition private_dir_at (k : N) : Prop := exists d, w !! k = Some d /\ d_uid d = euid /\ Z.land (d_mode d) 63 = 0%Z.

(** The application's directories are private and lead to the revision. *)
Record placed : Prop := {
  pl_app : exists d, w !! h_root h = Some d /\ d_entries d !! a = Some (EDir i);
  pl_revisions : exists d, w !! i = Some d /\ d_entries d !! "config-revisions" = Some (EDir r);
  pl_revision : exists d, w !! r = Some d /\ d_entries d !! uuid_to_string revision_id = Some (EDir j);
  pl_private : private_dir_at i /\ private_dir_at r;
  pl_whole : revision_at h draft w j;
}.

Abbreviation app := [a].
Abbreviation relative := ["config-revisions"; uuid_to_string revision_id].

Context (P : placed).

Lemma walk_one k d c e : w !! k = Some d -> d_entries d !! c = Some e -> walk w (EDir k) [c] = Some e.
Proof. intros Hk Hc. cbn [walk]. rewrite Hk. cbn [mbind option_bind]. by rewrite Hc. Qed.

Lemma private_dir_entry k : private_dir_at k -> private_entry w (EDir k) true.
Proof. intros (d & Hd & Hu & Hm). exists (d_mode d). simpl. rewrite Hd. simpl. by rewrite Hu. Qed.

Lemma private_clean_entry k m : w !! k = Some (private_clean h m) -> private_entry w (EDir k) true.
Proof. intros Hk. apply private_dir_entry. by exists (private_clean h m). Qed.

Lemma private_file_entry mode content : Z.land mode 63 = 0%Z -> private_entry w (file_entry h mode content) false.
Proof. intros Hm. by exists mode. Qed.

Lemma walk_app_directory : walk w (EDir (h_root h)) app = Some (EDir i).
Proof using P. destruct (pl_app P) as (d & Hd & Ha). by eapply walk_one. Qed.

(** The directories of the revision. *)
Lemma placed_tree : exists e s f p q,
  w !! j = Some (private_clean h {[ "config.toml" := file_entry h 384 (config_to_toml (nd_metadata draft));
                                    "files" := EDir f; "secrets" := EDir s; "env" := EDir e ]})
  /\ w !! e = Some (private_clean h {[ "public.env" := file_entry h 384
       (serialize_environment (map as_pair (nd_public_environment draft))) ]})
  /\ w !! s = Some (private_clean h {[ "runtime.env" := file_entry h 384
       (serialize_environment (sorted_entries (nd_secret_environment draft))) ]})
  /\ w !! f = Some (private_clean h {[ "secret" := EDir q; "public" := EDir p ]})
  /\ w !! p = Some (private_clean h (file_entry h MANAGED_FILE_MODE <$> nd_public_files draft))
  /\ w !! q = Some (private_clean h (file_entry h MANAGED_FILE_MODE <$> nd_secret_files draft)).
Proof using P.
  destruct (pl_whole P) as (tr & (t & e & s & f & p & q & ->) & [d Hd] & Hh & _).
  rewrite lookup_insert_eq in Hd. injection Hd as -> <-. exists e, s, f, p, q.
  split; [apply (Hh []); by rewrite lookup_insert_eq|].
  split; [apply (Hh ["env"]); by rewrite lookup_insert_ne, lookup_insert_eq by done|].
  split; [apply (Hh ["secrets"]); by rewrite !lookup_insert_ne, lookup_insert_eq by done|].
  split; [apply (Hh ["files"]); by rewrite !lookup_insert_ne, lookup_insert_eq by done|].
  split; [apply (Hh ["files"; "public"]); by rewrite !lookup_insert_ne, lookup_insert_eq by done|].
  apply (Hh ["files"; "secret"]). by rewrite !lookup_insert_ne, lookup_singleton_eq by done.
Qed.

(** Below the application's directory, [q] leads through private directories to
    directory [k]. *)
Definition leads_to (q : list string) (k : N) : Prop :=
  private_along w (EDir i) q true /\ walk w (EDir i) q = Some (EDir k).

Lemma private_along_snoc e q c b e' e'' :
  private_along w e q true -> walk w e q = Some e' -> walk w e' [c] = Some e'' -> private_entry w e'' b ->
  private_along w e (q ++ [c]) b /\ walk w e (q ++ [c]) = Some e''.
Proof.
  revert e. induction q as [|x q IH]; intros e Ha Hw Hc Hp.
  - injection Hw as ->. split; [|done]. exists e''. by repeat split.
  - destruct Ha as (e1 & H1 & Hp1 & Ha). change (x :: q) with ([x] ++ q) in Hw. rewrite walk_app, H1 in Hw. cbn [mbind option_bind] in Hw.
    destruct (IH e1 Ha Hw Hc Hp) as [IHa IHw]. change ((x :: q) ++ [c]) with ([x] ++ (q ++ [c])). split.
    + exists e1. split; [done|]. split; [|done]. by destruct q; cbn in *; rewrite ?orb_true_r in *.
    + rewrite walk_app, H1. exact IHw.
Qed.

Lemma leads_to_snoc q k d c k' :
  leads_to q k -> w !! k = Some d -> d_entries d !! c = Some (EDir k') -> private_entry w (EDir k') true -> leads_to (q ++ [c]) k'.
Proof. intros [Ha Hw] Hk Hc Hp. eapply private_along_snoc; [done|done|by eapply walk_one|done]. Qed.

Lemma leads_to_revision : leads_to relative j.
Proof using P.
  destruct (pl_revisions P) as (di & Hdi & Hr), (pl_revision P) as (dr & Hdr & Hj), (pl_private P) as [Hpi Hpr].
  destruct placed_tree as (e & s & f & p & q & Ht & _). change relative with (([] ++ ["config-revisions"]) ++ [uuid_to_string revision_id]).
  apply (leads_to_snoc _ r dr); [|done|done|by eapply private_clean_entry].
  apply (leads_to_snoc _ i di); [done|done|done|by apply private_dir_entry].
Qed.

Lemma yields_check_file q k d c mode content :
  leads_to q k -> w !! k = Some d -> d_entries d !! c = Some (file_entry h mode content) -> Z.land mode 63 = 0%Z ->
  yields w (check_private_tree euid app (q ++ [c]) false) tt.
Proof using P.
  intros [Ha Hw] Hk Hc Hm. eapply yields_check_tree; [apply walk_app_directory|by apply private_dir_entry, P|].
  eapply private_along_snoc; [done|done|by eapply walk_one|by apply private_file_entry].
Qed.

Lemma yields_check_dir q k : leads_to q k -> yields w (check_private_tree euid app q true) tt.
Proof using P. intros [Ha Hw]. eapply yields_check_tree; [apply walk_app_directory|by apply private_dir_entry, P|done]. Qed.

Lemma leads_to_dir_at q k d : leads_to q k -> w !! k = Some d -> dir_at h w (app ++ q) = Some (k, d).
Proof using P.
  intros [_ Hw] Hk. unfold dir_at, resolve. rewrite walk_app, walk_app_directory. cbn [mbind option_bind]. rewrite Hw.
  cbn [mbind option_bind]. by rewrite Hk.
Qed.

Lemma yields_read_file q k d c mode content :
  leads_to q k -> w !! k = Some d -> d_entries d !! c = Some (file_entry h mode content) ->
  yields w (read_file (app ++ q) c) content.
Proof using P.
  intros Hl Hk Hc. apply yields_read; [done|]. cbn [answer]. unfold on_name. rewrite (leads_to_dir_at q k d) by done. by rewrite Hc.
Qed.

(** ** Loading *)

Record storable : Prop := {
  sb_schema : cm_schema_version (nd_metadata draft) = 4%Z;
  sb_public_keys : cm_public_env_keys (nd_metadata draft) = map pe_key (nd_public_environment draft);
  sb_secret_keys : cm_secret_keys (nd_metadata draft) = sorted_keys (nd_secret_environment draft);
  sb_files : cm_files (nd_metadata draft) = nd_files draft;
  sb_public_fits : Forall entry_fits (nd_public_environment draft);
  sb_secret_fits : forall k v, nd_secret_environment draft !! k = Some v -> entry_fits (MkPublicEnvInput k v);
  sb_contents : Forall (file_has_content draft) (nd_files draft);
  sb_names : NoDup (map mf_logical_name (nd_files draft));
  sb_all : forall name, is_Some (nd_public_files draft !! name) \/ is_Some (nd_secret_files draft !! name) ->
             name ∈ map mf_logical_name (nd_files draft);
  sb_codec : config_of_toml (config_to_toml (nd_metadata draft)) = Some (nd_metadata draft);
}.

Context (S : storable).

Lemma legacy_defaults_current m : cm_schema_version m = 4%Z -> legacy_defaults m = m.
Proof. destruct m. simpl. by intros ->. Qed.

Definition as_entry (e : string * string) : PublicEnvInput := MkPublicEnvInput e.1 e.2.

Lemma secret_lines :
  parse_environment (serialize_environment (sorted_entries (nd_secret_environment draft)))
    (sorted_keys (nd_secret_environment draft)) = Ok (map as_entry (sorted_entries (nd_secret_environment draft))).
Proof using S.
  assert (map as_pair (map as_entry (sorted_entries (nd_secret_environment draft)))
    = sorted_entries (nd_secret_environment draft)) as Hp.
  { rewrite map_map. etransitivity; [|apply map_id]. apply map_ext. by intros [k v]. }
  assert (sorted_keys (nd_secret_environment draft) = map pe_key (map as_entry (sorted_entries (nd_secret_environment draft)))) as ->.
  { rewrite map_map. unfold sorted_keys, sorted_entries. symmetry. apply (sort_by_fst text_leb). }
  rewrite <- Hp at 1. apply environment_read_back, Forall_fmap, Forall_forall. intros [k v] Hkv%list_elem_of_In.
  apply (sb_secret_fits S). apply elem_of_map_to_list. by rewrite <- sorted_entries_perm.
Qed.

Lemma secret_collected :
  collect (map (fun e => (pe_key e, pe_value e)) (map as_entry (sorted_entries (nd_secret_environment draft))))
  = nd_secret_environment draft.
Proof.
  rewrite map_map. replace (map _ (sorted_entries _)) with (sorted_entries (nd_secret_environment draft))
    by (symmetry; etransitivity; [|apply map_id]; apply map_ext; by intros [k v]).
  assert (NoDup (sorted_entries (nd_secret_environment draft)).*1) as Hn
    by (rewrite sorted_entries_perm; apply NoDup_fst_map_to_list).
  rewrite collect_list_to_map by done.
  rewrite (list_to_map_proper _ (map_to_list (nd_secret_environment draft))) by (done || apply sorted_entries_perm).
  apply list_to_map_to_list.
Qed.

(** Managed files. *)
Definition content_of (item : ManagedFileMetadata) : string :=
  default EmptyString ((if mf_sensitive item then nd_secret_files draft else nd_public_files draft) !! mf_logical_name item).

Definition add_file (acc : loaded_files) (item : ManagedFileMetadata) : loaded_files :=
  let name := mf_logical_name item in
  let metadata := <[name := item]> (lf_metadata acc) in
  if mf_sensitive item
  then MkLoadedFiles (lf_public acc) (<[name := content_of item]> (lf_secret acc)) metadata
  else MkLoadedFiles (<[name := content_of item]> (lf_public acc)) (lf_secret acc) metadata.

Lemma yields_check_managed q k d c content :
  leads_to q k -> w !! k = Some d -> d_entries d !! c = Some (file_entry h MANAGED_FILE_MODE content) ->
  yields w (check_managed_file euid app q c) tt.
Proof using P.
  intros Hl Hk Hc. eapply yields_bind; [by eapply yields_check_dir|]. eapply yields_bind.
  { apply yields_read with (x := MkStat KindFile euid MANAGED_FILE_MODE); [done|]. cbn [answer].
    rewrite walk_app, walk_app_directory. cbn [mbind option_bind]. rewrite walk_app, (proj2 Hl). cbn [mbind option_bind].
    rewrite (walk_one k d c _ Hk Hc). done. }
  apply yields_lift. cbn [st_kind st_uid st_mode]. by rewrite !bool_decide_eq_true_2.
Qed.

Lemma yields_load_files files acc :
  Forall (file_has_content draft) files ->
  yields w (load_files euid app relative files acc) (foldl add_file acc files).
Proof using P.
  destruct placed_tree as (e & s & f & p & q & Ht & He & Hs & Hf & Hp & Hq).
  assert (leads_to (relative ++ ["files"]) f) as Lf.
  { eapply leads_to_snoc; [apply leads_to_revision|exact Ht|by simpl_map|by eapply private_clean_entry]. }
  assert (leads_to (relative ++ ["files"; "public"]) p) as Lp.
  { change (relative ++ ["files"; "public"]) with ((relative ++ ["files"]) ++ ["public"]).
    eapply leads_to_snoc; [exact Lf|exact Hf|by simpl_map|by eapply private_clean_entry]. }
  assert (leads_to (relative ++ ["files"; "secret"]) q) as Lq.
  { change (relative ++ ["files"; "secret"]) with ((relative ++ ["files"]) ++ ["secret"]).
    eapply leads_to_snoc; [exact Lf|exact Hf|by simpl_map|by eapply private_clean_entry]. }
  intros Hall. revert acc. induction Hall as [|item files (_ & _ & _ & [v Hv] & _) _ IH]; intros acc; [done|].
  cbn [load_files foldl].
  assert (exists k m, leads_to (relative ++ ["files"; if mf_sensitive item then "secret" else "public"]) k
    /\ w !! k = Some (private_clean h m) /\ m !! mf_logical_name item = Some (file_entry h MANAGED_FILE_MODE v))
    as (k & m & Hl & Hk & Hm).
  { destruct (mf_sensitive item).
    - exists q, (file_entry h MANAGED_FILE_MODE <$> nd_secret_files draft). by rewrite lookup_fmap, Hv.
    - exists p, (file_entry h MANAGED_FILE_MODE <$> nd_public_files draft). by rewrite lookup_fmap, Hv. }
  eapply yields_bind; [by eapply yields_check_managed|]. eapply yields_bind; [by eapply yields_read_file|].
  assert (content_of item = v) as Hc by (unfold content_of; by rewrite Hv).
  unfold add_file at 2. rewrite Hc. apply IH.
Qed.

(** What a loop that fills a map by name has filled it with. *)
Definition fill {V} (f : ManagedFileMetadata -> option V) (m : gmap string V) (item : ManagedFileMetadata) : gmap string V :=
  match f item with Some v => <[mf_logical_name item := v]> m | None => m end.

Lemma fill_lookup {V} (f : ManagedFileMetadata -> option V) files m k v :
  NoDup (map mf_logical_name files) ->
  foldl (fill f) m files !! k = Some v <->
  (exists item, item ∈ files /\ mf_logical_name item = k /\ f item = Some v)
  \/ (m !! k = Some v /\ forall item, item ∈ files -> mf_logical_name item = k -> f item = None).
Proof.
  revert m. induction files as [|x files IH]; intros m Hn; cbn [foldl map] in *.
  - split; [right; split; [done|]; by intros ? ?%elem_of_nil|]. by intros [(? & ?%elem_of_nil & _)|[? _]].
  - apply list.NoDup_cons in Hn as [Hx Hn]. rewrite IH by done. clear IH.
    assert (forall item, item ∈ files -> mf_logical_name item <> mf_logical_name x) as Hne.
    { intros item Hi Heq. apply Hx. rewrite <- Heq. by apply (list_elem_of_fmap_2 mf_logical_name). }
    unfold fill. setoid_rewrite elem_of_cons. destruct (f x) as [vx|] eqn:Hfx.
    + rewrite lookup_insert_Some. split.
      * intros [(item & Hi & Hk & Hf)|[[[Hk <-]|[Hk Hm]] Hno]]; [naive_solver|left; exists x; auto|].
        right. split; [done|]. intros item [->|Hi] Hk'; [done|auto].
      * intros [(item & [->|Hi] & Hk & Hf)|[Hm Hno]].
        -- right. split; [left; split; congruence|]. intros item Hi Hk'. by destruct (Hne item Hi); congruence.
        -- left. eauto.
        -- right. split; [right; split; [|done]|auto]. intros Hk. by rewrite (Hno x) in Hfx by auto.
    + naive_solver.
Qed.

Lemma add_file_public files acc :
  lf_public (foldl add_file acc files)
  = foldl (fill (fun item => if Bool.eqb (mf_sensitive item) false then Some (content_of item) else None)) (lf_public acc) files.
Proof. revert acc. induction files as [|x files IH]; intros acc; [done|]. cbn [foldl]. rewrite IH. unfold add_file, fill. by destruct (mf_sensitive x). Qed.

Lemma add_file_secret files acc :
  lf_secret (foldl add_file acc files)
  = foldl (fill (fun item => if Bool.eqb (mf_sensitive item) true then Some (content_of item) else None)) (lf_secret acc) files.
Proof. revert acc. induction files as [|x files IH]; intros acc; [done|]. cbn [foldl]. rewrite IH. unfold add_file, fill. by destruct (mf_sensitive x). Qed.

Lemma add_file_metadata files acc :
  lf_metadata (foldl add_file acc files) = foldl (fill Some) (lf_metadata acc) files.
Proof. revert acc. induction files as [|x files IH]; intros acc; [done|]. cbn [foldl]. rewrite IH. unfold add_file, fill. by destruct (mf_sensitive x). Qed.

Lemma filled_contents (b : bool) :
  foldl (fill (fun item => if Bool.eqb (mf_sensitive item) b then Some (content_of item) else None)) ∅ (nd_files draft)
  = (if b then nd_secret_files draft else nd_public_files draft).
Proof using S.
  apply map_eq. intros k. apply option_eq. intros v. rewrite fill_lookup by apply S.
  pose proof (sb_contents S) as Hall. rewrite Forall_forall in Hall. split.
  - intros [(item & Hi%list_elem_of_In & <- & Hf)|[Hm _]]; [|done]. destruct (Hall item Hi) as (_ & _ & _ & [c Hc] & _).
    unfold content_of in Hf. destruct (mf_sensitive item), b; cbn [Bool.eqb] in Hf; try done; rewrite Hc in Hf; by simplify_eq/=.
  - intros Hv. left. assert (k ∈ map mf_logical_name (nd_files draft)) as Hin.
    { apply (sb_all S). destruct b; [right|left]; by rewrite Hv. }
    apply list_elem_of_fmap in Hin as (item & -> & Hi). exists item. split; [done|]. split; [done|].
    apply list_elem_of_In in Hi. destruct (Hall item Hi) as (_ & _ & _ & _ & Hno). unfold content_of.
    destruct (mf_sensitive item), b; cbn [Bool.eqb]; by rewrite ?Hv in *.
Qed.

Lemma files_filled :
  foldl add_file (MkLoadedFiles ∅ ∅ ∅) (nd_files draft)
  = MkLoadedFiles (nd_public_files draft) (nd_secret_files draft)
      (list_to_map (map (fun f => (mf_logical_name f, f)) (nd_files draft))).
Proof using S.
  assert (forall l : loaded_files, l = MkLoadedFiles (lf_public l) (lf_secret l) (lf_metadata l)) as Heta by (by intros []).
  rewrite (Heta (foldl _ _ _)), add_file_public, add_file_secret, add_file_metadata. cbn [lf_public lf_secret lf_metadata]. f_equal.
  - apply (filled_contents false).
  - apply (filled_contents true).
  - apply map_eq. intros k. apply option_eq. intros v. rewrite fill_lookup by apply S.
    rewrite <- elem_of_list_to_map by (rewrite <- list_fmap_compose; apply (sb_names S)).
    rewrite list_elem_of_fmap. split.
    + intros [(item & Hi & <- & [= ->])|[? _]]; [by exists v|done].
    + intros (item & [= -> ->] & Hi). left. by exists item.
Qed.

Lemma yields_read_environment q k d name content keys entries :
  leads_to q k -> w !! k = Some d -> d_entries d !! name = Some (file_entry h 384 content) ->
  parse_environment content keys = Ok entries -> yields w (read_environment euid app q name keys) entries.
Proof using P.
  intros Hl Hk Hc Hp. eapply yields_bind; [by eapply yields_check_file|]. eapply yields_bind; [by eapply yields_read_file|].
  by apply yields_lift.
Qed.

Lemma revision_loads : yields w (load euid app revision_id) (stored draft).
Proof using P S.
  destruct placed_tree as (e & s & f & p & q & Ht & He & Hs & Hf & _). pose proof leads_to_revision as Lr.
  assert (leads_to (relative ++ ["env"]) e) as Le
    by (eapply leads_to_snoc; [exact Lr|exact Ht|by simpl_map|by eapply private_clean_entry]).
  assert (leads_to (relative ++ ["secrets"]) s) as Ls
    by (eapply leads_to_snoc; [exact Lr|exact Ht|by simpl_map|by eapply private_clean_entry]).
  unfold load. eapply yields_bind; [by eapply yields_check_dir|].
  eapply yields_bind; [eapply yields_check_file; [exact Lr|exact Ht|by simpl_map|done]|].
  eapply yields_bind; [eapply yields_read_file; [exact Lr|exact Ht|by simpl_map]|].
  eapply yields_bind; [apply yields_lift; by rewrite (sb_codec S)|].
  eapply yields_bind.
  { apply yields_lift. rewrite (sb_schema S), (sb_files S). cbn [negb orb Z.leb andb]. 
    replace (existsb _ _) with false; [done|]. symmetry. apply not_true_iff_false. rewrite existsb_exists.
    intros (file & Hi & Hv). pose proof (sb_contents S) as Hall. rewrite Forall_forall in Hall.
    destruct (Hall file Hi) as (Hn & _). by rewrite Hn in Hv. }
  rewrite (legacy_defaults_current _ (sb_schema S)), (sb_public_keys S), (sb_secret_keys S), (sb_files S).
  eapply yields_bind; [eapply yields_read_environment; [exact Le|exact He|by simpl_map|apply environment_read_back, S]|].
  eapply yields_bind; [eapply yields_read_environment; [exact Ls|exact Hs|by simpl_map|apply secret_lines]|].
  eapply yields_bind; [apply yields_load_files, S|]. rewrite files_filled, secret_collected. done.
Qed.

Lemma revision_loads_verified key :
  verify_config_integrity canonical_json (nd_metadata draft) (nd_public_environment draft) (nd_public_files draft)
    (lv_secrets (stored draft)) key = Ok tt ->
  yields w (load_verified euid app revision_id key) (stored draft).
Proof using P S.
  intros Hv. eapply yields_bind; [apply revision_loads|]. eapply yields_bind; [apply yields_lift; cbn [stored lv_metadata lv_public_environment lv_public_files]; by rewrite Hv|].
  done.
Qed.
End revision.
End load.
