(* ===== verification/RevisionTheorems.v ===== *)
(** * RevisionTheorems: what publishing a configuration revision guarantees *)

From stdpp Require Import sets gmap.
From S2P Require Import Prelude Text Reference Models Effects Codec Names Drafts DraftSpec DraftCanonical DraftStored DraftTheorems Compose FileSystem StoreBase AtomicTree ConfigRevision TreeBuilder RevisionFormat RevisionSafety RevisionLoad.
From Stdlib Require Import Ascii.

(** ** Owners and modes of directories never change *)

Definition owners_kept (w w' : fs) : Prop :=
  forall k d, w !! k = Some d -> exists d', w' !! k = Some d' /\ d_uid d' = d_uid d /\ d_mode d' = d_mode d.

Lemma owners_refl w : owners_kept w w.
Proof. intros k d Hk. by exists d. Qed.

Lemma owners_trans w1 w2 w3 : owners_kept w1 w2 -> owners_kept w2 w3 -> owners_kept w1 w3.
Proof.
  intros H12 H23 k d Hk. destruct (H12 k d Hk) as (d2 & H2 & Hu2 & Hm2). destruct (H23 k d2 H2) as (d3 & H3 & Hu3 & Hm3).
  exists d3. by rewrite Hu3, Hm3.
Qed.

Lemma owners_update h w p f :
  (forall d, d_uid (f d) = d_uid d /\ d_mode (f d) = d_mode d) -> owners_kept w (update_at h w p f).
Proof.
  intros Hf. unfold update_at, dir_at. destruct (resolve h w p) as [i|]; [|apply owners_refl]. cbn [mbind option_bind].
  destruct (w !! i) as [d|] eqn:Hi; [|apply owners_refl]. cbn [mbind option_bind]. intros k dk Hk.
  destruct (decide (i = k)) as [<-|Hne].
  - rewrite Hi in Hk. injection Hk as <-. exists (f d). rewrite lookup_insert_eq. split; [done|apply Hf].
  - exists dk. by rewrite lookup_insert_ne.
Qed.

Lemma owners_change h X (e : fsev X) (b : bool) d :
  d_uid (if b then change h d e else clobber d e) = d_uid d /\ d_mode (if b then change h d e else clobber d e) = d_mode d.
Proof.
  destruct e; destruct b; simpl; try done; by repeat match goal with |- context [match ?m !! ?k with _ => _ end] =>
    destruct (m !! k) as [[]|] end.
Qed.

Lemma owners_emptied w w1 w' :
  owners_kept w w1 -> (forall k, emptied (w1 !! k) (w' !! k)) -> owners_kept w w'.
Proof.
  intros H1 He. eapply owners_trans; [exact H1|]. intros k d Hk. specialize (He k). rewrite Hk in He.
  destruct (w' !! k) as [d'|]; [|done]. exists d'. split; [done|]. by destruct He as (? & ? & _).
Qed.

Lemma owners_step h X w (e : fsev X) x : possible h X w e x -> owners_kept w (step h w (Obs e x)).
Proof.
  intros Hp. simpl. destruct (target_of e) as [p|] eqn:Ht; [apply owners_update, owners_change|].
  destruct e; try done; try apply owners_refl; cbn [spread].
  - destruct (is_ok x); [|apply owners_refl]. unfold move. destruct (dir_at h w p) as [[i d]|]; [|apply owners_refl].
    destruct (d_entries d !! source); [|apply owners_refl]. case_bool_decide; [by apply owners_update|].
    eapply owners_trans; by apply owners_update.
  - destruct (is_ok x); [|apply owners_refl]. unfold make_dir. destruct (dir_at h w p) as [[i d]|] eqn:Hd; [|apply owners_refl].
    intros k dk Hk. assert (k <> fresh (dom w)) as Hf by (intros ->; apply (is_fresh (dom w)), elem_of_dom; by eexists).
    rewrite lookup_insert_ne by done. destruct (decide (i = k)) as [<-|Hne].
    + rewrite lookup_insert_eq. eexists. split; [done|]. unfold dir_at in Hd. destruct (resolve h w p) as [i'|]; [|done].
      cbn [mbind option_bind] in Hd. destruct (w !! i') eqn:Hi; [|done]. cbn in Hd. injection Hd as -> ->.
      rewrite Hk in Hi. by injection Hi as <-.
    + rewrite lookup_insert_ne by done. by exists dk.
  - apply removal_possible in Hp. unfold partly_removed in Hp. destruct (dir_at h w p) as [[i d]|]; [|destruct Hp as [-> _]; apply owners_refl].
    destruct (d_entries d !! name) as [[| |j]|]; try (destruct Hp as [-> _]; apply owners_refl). destruct Hp as [He _].
    eapply owners_emptied; [|exact He]. destruct (is_ok x.1); [by apply owners_update|apply owners_refl].
Qed.

Lemma owners_trace h w tr : relied (step h) (possible h) w tr -> owners_kept w (foldl (step h) w tr).
Proof.
  revert w. induction tr as [|[X e x] tr IH]; intros w Hr; [apply owners_refl|]. destruct Hr as [Hx Hr].
  eapply owners_trans; [by apply owners_step|]. by apply IH.
Qed.

Lemma owners_crash w w' : crash w w' -> owners_kept w w'.
Proof.
  intros Hc k d Hk. destruct (crash_lookup_fwd _ _ _ _ Hc Hk) as (d' & Hd' & Hu & Hm & _). by exists d'.
Qed.

(** ** Accepted drafts can be stored *)

Lemma str_all_excludes (f : ascii -> bool) c s : f c = false -> str_all f s = true -> contains_char c s = false.
Proof.
  intros Hc. unfold contains_char. induction s as [|a s IH]; [done|]. cbn [str_all str_any]. intros [Ha Hs]%andb_true_iff.
  rewrite IH by done. rewrite orb_false_r. destruct (char_eqb c a) eqn:Heq; [|done]. apply char_eqb_eq in Heq as <-. congruence.
Qed.

Lemma any_excludes cs c s : c ∈ cs -> contains_any cs s = false -> contains_char c s = false.
Proof.
  intros Hc. unfold contains_any, contains_char. induction s as [|a s IH]; [done|]. cbn [str_any].
  intros [Ha Hs]%orb_false_iff. rewrite IH by done. rewrite orb_false_r. destruct (char_eqb c a) eqn:Heq; [|done].
  apply char_eqb_eq in Heq as <-. exfalso. apply not_true_iff_false in Ha. apply Ha, existsb_exists. exists c.
  split; [by apply list_elem_of_In|apply char_eqb_refl].
Qed.

Lemma env_key_fits k v :
  validate_env_key k = true -> contains_char newline v = false -> entry_fits (MkPublicEnvInput k v).
Proof.
  unfold validate_env_key. intros [_ Hk]%andb_true_iff Hv. split; [|split; [|done]]; (eapply str_all_excludes; [|exact Hk]); done.
Qed.

Lemma env_value_one_line v : env_value_ok v -> contains_char newline v = false.
Proof.
  intros (_ & Hv & _). unfold validate_env_value in Hv. apply negb_true_iff in Hv. eapply any_excludes; [|exact Hv]. by left.
Qed.

(** Secrets that were stored before are single lines. *)
Definition one_line (m : gmap string string) : Prop := forall k v, m !! k = Some v -> contains_char newline v = false.

Lemma take_excludes f n s : str_any f s = false -> str_any f (str_take n s) = false.
Proof.
  revert n. induction s as [|c s IH]; intros [|n] H; try done. simpl in *. apply orb_false_iff in H as [-> H]. by apply IH.
Qed.

Lemma lines_excludes contents : Forall (fun line => contains_char newline line = false) (lines contents).
Proof.
  unfold lines. pose proof (split_parts newline contents) as H. induction H as [|part parts Hp H IH]; [constructor|].
  destruct parts as [|part' parts]; cbn [lines_of].
  - destruct (str_is_empty part); by repeat constructor.
  - constructor; [|exact IH]. unfold strip_carriage_return. destruct (is_some_and _ _); [by apply take_excludes|done].
Qed.

Lemma split_once_excludes f c s l r : split_once c s = Some (l, r) -> str_any f s = false -> str_any f r = false.
Proof.
  revert l. induction s as [|a s IH]; intros l H Hs; [done|]. simpl in *. apply orb_false_iff in Hs as [_ Hs].
  destruct (char_eqb c a); [by simplify_eq|]. destruct (split_once c s) as [[l' r']|]; [|done]. simplify_eq. by eapply IH.
Qed.

Lemma unescape_excludes f escaped s v : unescape escaped s = Some v -> str_any f s = false -> str_any f v = false.
Proof.
  revert escaped v. induction s as [|c s IH]; intros escaped v H Hs; simpl in *; [by destruct escaped; simplify_eq|].
  apply orb_false_iff in Hs as [Hc Hs].
  destruct escaped; case_match; try done; try (by eapply IH); apply fmap_Some in H as (v' & Hv & ->); simpl; rewrite Hc; by eapply IH.
Qed.

Lemma parse_line_excludes line e :
  parse_line line = Some e -> contains_char newline line = false -> contains_char newline (pe_value e) = false.
Proof.
  unfold parse_line. intros H Hl. apply bind_Some in H as ([k quoted] & Hq & H). apply bind_Some in H as (inner & Hi & H).
  apply fmap_Some in H as (v & Hv & ->). cbn [pe_value]. eapply unescape_excludes; [exact Hv|].
  eapply split_once_excludes in Hq; [|exact Hl]. unfold strip_quotes in Hi. apply bind_Some in Hi as (rest & Hr & Hi).
  destruct (is_some_and _ _); [|done]. injection Hi as <-. apply take_excludes.
  destruct quoted as [|c quoted]; [done|]. cbn [strip_prefix] in Hr. destruct (char_eqb _ c); [|done]. injection Hr as <-.
  cbn [str_any] in Hq. by apply orb_false_iff in Hq as [_ Hq].
Qed.

Lemma collect_elem (l : list (string * string)) k v : collect l !! k = Some v -> (k, v) ∈ l.
Proof.
  induction l as [|[k' v'] l IH] using rev_ind; [done|].
  unfold collect in *. rewrite foldl_snoc. cbn [fst snd]. rewrite elem_of_app. intros [[-> ->]|[_ H]]%lookup_insert_Some.
  - right. by apply list_elem_of_singleton.
  - left. by apply IH.
Qed.

Lemma parsed_one_line contents keys entries :
  parse_environment contents keys = Ok entries -> one_line (collect (map (fun e => (pe_key e, pe_value e)) entries)).
Proof.
  unfold parse_environment. intros H. apply bind_ok_inv in H as (result & Hr & H). apply ok_or_ok_inv in Hr.
  apply bind_ok_inv in H as (_ & _ & H). injection H as ->. intros k v Hk. apply collect_elem in Hk.
  apply list_elem_of_fmap in Hk as (e & [= -> ->] & He). apply mapM_Some in Hr. apply list_elem_of_lookup in He as [i He].
  destruct (Forall2_lookup_r _ _ _ _ _ Hr He) as (line & Hl & Hp). eapply parse_line_excludes; [exact Hp|].
  pose proof (lines_excludes contents) as Hall. rewrite Forall_forall in Hall.
  apply Hall, list_elem_of_In. by eapply list_elem_of_lookup_2.
Qed.

Section storable.
Context {ST : StoreText} {CR : Crypto}.

Lemma normalized_storable host roots enforce input existing key :
  draft_ok host roots enforce input existing -> one_line (es_environment existing) ->
  let d := normalized canonical_json input existing key in
  config_of_toml (config_to_toml (nd_metadata d)) = Some (nd_metadata d) -> storable d.
Proof.
  intros Hok Hex d Hcodec. assert (well_formed d) as Hwf by (by eapply normalized_well_formed).
  pose proof (do_environment _ _ _ _ _ Hok) as He. split; try done.
  - eapply list.Forall_impl; [apply (wf_public _ Hwf)|]. intros [k v] [Hk Hv]. apply env_key_fits; [done|]. by apply env_value_one_line.
  - intros k v Hkv. apply env_key_fits; [by apply (wf_secret_keys _ Hwf); rewrite Hkv|].
    simpl in Hkv. rewrite secrets_lookup in Hkv by apply He. destruct Hkv as (e & Hin & Hr).
    pose proof (eo_secrets _ _ He) as Hs. rewrite Forall_forall in Hs. apply list_elem_of_In in Hin.
    destruct (Hs e Hin) as (_ & _ & Hop). unfold secret_result in Hr. unfold secret_op_ok in Hop.
    destruct (se_operation e) as [|value|]; [|simplify_eq; by apply env_value_one_line|done].
    destruct (es_environment existing !! se_key e) as [v'|] eqn:Hv'; [|done]. simpl in Hr. injection Hr as <- <-. by eapply Hex.
  - apply Hwf.
  - pose proof (wf_files_sorted _ Hwf) as Hsrt. clear -Hsrt. induction Hsrt as [|x l _ IH Hx]; [constructor|]. cbn [map].
    apply list.NoDup_cons. split; [|done]. intros (y & Hy & Hin)%list_elem_of_fmap. rewrite Forall_forall in Hx.
    apply list_elem_of_In in Hin. specialize (Hx y Hin). rewrite Hy in Hx. by rewrite text_ltb_irrefl in Hx.
  - intros name [[c Hc]|[c Hc]]; apply (wf_contents _ Hwf name c); auto.
Qed.
End storable.

(** ** The theorems *)

Section theorems.
Context {UT : UuidText} {ST : StoreText} {CR : Crypto}.

(** Whatever the files hold, the secrets of a revision that loads are single
    lines. *)
Lemma loaded_one_line euid app revision_id tr loaded :
  trace (load euid app revision_id) tr (Some (Ok loaded)) -> one_line (es_environment (lv_secrets loaded)).
Proof.
  unfold load. intros (? & ? & ? & _ & _ & Ht)%trace_ebind_inv. apply trace_ebind_inv in Ht as (? & ? & ? & _ & _ & Ht).
  apply trace_ebind_inv in Ht as (? & ? & ? & _ & _ & Ht). apply trace_lift_inv in Ht as (? & _ & Ht).
  apply trace_lift_inv in Ht as (? & _ & Ht). cbv zeta in Ht. apply trace_ebind_inv in Ht as (? & ? & ? & _ & _ & Ht).
  apply trace_ebind_inv in Ht as (? & ? & secrets & _ & Hs & Ht). apply trace_ebind_inv in Ht as (? & ? & ? & _ & _ & Ht).
  apply trace_ret_inv in Ht as [_ [= <-]]. cbn [lv_secrets es_environment]. unfold read_environment in Hs.
  apply trace_ebind_inv in Hs as (? & ? & ? & _ & _ & Hs).
  apply trace_ebind_inv in Hs as (? & ? & contents & _ & _ & Hs). apply trace_ret_inv in Hs as [_ Hs]. by eapply parsed_one_line.
Qed.

(** A restart finds a published revision. *)
Lemma publish_durable h a i r revision_id draft w0 w tr w' :
  ready h a i r revision_id w0 -> attempts h a revision_id draft w0 w ->
  trace (publish (h_euid h) [a] revision_id draft) tr (Some (Ok tt)) -> relied (step h) (possible h) w tr ->
  crash (foldl (step h) w tr) w' ->
  exists dr j, w' !! r = Some dr /\ d_entries dr !! uuid_to_string revision_id = Some (EDir j) /\ revision_at h draft w' j
    /\ leads r w' [h_root h; i] [a; "config-revisions"].
Proof.
  intros R Hw Ht Hr Hc. destruct (attempts_inv h a i r revision_id draft w0 R w Hw) as [dr I].
  pose proof (keeps_publish h a i r revision_id draft w0 R w dr I) as Hk.
  destruct (safe_sound _ _ _ _ _ _ _ _ _ Hk Ht Hr) as [_ Hp]. destruct (Hp _ eq_refl) as (dr1 & I1 & Hok).
  destruct (Hok tt eq_refl) as [Hold [e He]]. destruct (inv_crash _ _ _ _ _ _ _ _ _ I1 Hc) as (dr2 & I2 & Hcd).
  assert (exists j, e = EDir j) as [j ->].
  { destruct (inv_revision h a i r revision_id draft _ dr1 _ e I1 (version_here dr1) He) as (j & -> & _). by exists j. }
  assert (d_entries dr2 !! uuid_to_string revision_id = Some (EDir j)) as H2.
  { destruct Hcd as (_ & _ & _ & m & Hm & ->). apply torn_dir. unfold versions in Hm. rewrite Hold in Hm.
    by apply list_elem_of_singleton in Hm as ->. }
  destruct (inv_revision h a i r revision_id draft _ dr2 _ _ I2 (version_here dr2) H2) as (j' & [= <-] & Hrev).
  exists dr2, j. split; [apply I2|]. split; [done|]. split; [done|apply I2].
Qed.

(** A configuration revision is published as a whole: after any history of
    attempts that stopped anywhere with any failures, and of crashes, a
    revision that is visible under its name in any version of the directory a
    restart may find is complete: every directory of it holds exactly the files
    of the draft with their final contents and modes, all on disk; and once an
    attempt has returned success, a crash leaves the revision visible. *)
Theorem revision_publication_atomic h a i r revision_id draft w0 w :
  ready h a i r revision_id w0 -> attempts h a revision_id draft w0 w ->
  (exists dr, w !! r = Some dr
     /\ forall m e, m ∈ versions dr -> m !! uuid_to_string revision_id = Some e ->
          exists j, e = EDir j /\ revision_at h draft w j)
  /\ forall tr w', trace (publish (h_euid h) [a] revision_id draft) tr (Some (Ok tt)) ->
       relied (step h) (possible h) w tr -> crash (foldl (step h) w tr) w' ->
       exists dr j, w' !! r = Some dr /\ d_entries dr !! uuid_to_string revision_id = Some (EDir j)
         /\ revision_at h draft w' j.
Proof.
  intros R Hw. split.
  - destruct (attempts_inv h a i r revision_id draft w0 R w Hw) as [dr I]. exists dr. split; [apply I|].
    intros m e Hm He. by apply (inv_revision h a i r revision_id draft w dr m e).
  - intros tr w' Ht Hr Hc. destruct (publish_durable h a i r revision_id draft w0 w tr w' R Hw Ht Hr Hc)
      as (dr & j & Hd & Hj & Hrev & _). by exists dr, j.
Qed.

Lemma private_kept h w w' k : owners_kept w w' -> private_dir_at h w k -> private_dir_at h w' k.
Proof. intros Ho (d & Hd & Hu & Hm). destruct (Ho k d Hd) as (d' & Hd' & Hu' & Hm'). exists d'. by rewrite Hu', Hm'. Qed.

Lemma attempts_owners h a revision_id draft w0 w : attempts h a revision_id draft w0 w -> owners_kept w0 w.
Proof.
  induction 1 as [|w tr o _ IH _ Hr|w w' _ IH Hc]; [apply owners_refl| |].
  - eapply owners_trans; [exact IH|]. by apply owners_trace.
  - eapply owners_trans; [exact IH|]. by apply owners_crash.
Qed.

(** C24: A draft survives publication, a crash and loading: once an accepted draft
    was published, whatever failed before, a restart loads the revision,
    integrity check included, as what the draft stores, and normalising it with
    the application's settings gives back the draft, hash included, without the
    acknowledgement of automatic deployment, which belongs to the request and is
    not stored. The secrets the draft keeps are assumed to be single lines, which
    whatever [load] read is ([loaded_one_line]), and the metadata to be read back
    from its own TOML. *)
Theorem published_draft_read_back h a i r revision_id host input existing key roots enforce draft w0 w tr w' :
  normalize_draft_with_options canonical_json host input existing key roots enforce = Ok draft ->
  one_line (es_environment existing) ->
  config_of_toml (config_to_toml (nd_metadata draft)) = Some (nd_metadata draft) ->
  ready h a i r revision_id w0 -> private_dir_at h w0 i -> private_dir_at h w0 r ->
  attempts h a revision_id draft w0 w ->
  trace (publish (h_euid h) [a] revision_id draft) tr (Some (Ok tt)) -> relied (step h) (possible h) w tr ->
  crash (foldl (step h) w tr) w' ->
  run (serve h) (load_verified (h_euid h) [a] revision_id key) w' = (Some (Ok (stored draft)), w')
  /\ normalize_verified canonical_json host (stored draft) (nd_display_name draft) (nd_discovery_image_ref draft)
       (nd_credential_ref draft) (nd_auto_deploy_enabled draft) (nd_poll_interval_seconds draft) key roots
     = Ok (unacknowledged draft).
Proof.
  intros [Hok ->]%normalize_iff Hone Hcodec R Hpi Hpr Hw Ht Hr Hc. split; [|by eapply stored_round_trip].
  destruct (publish_durable h a i r revision_id _ w0 w tr w' R Hw Ht Hr Hc) as (dr & j & Hd & Hj & Hrev & Hl).
  assert (owners_kept w0 w') as Ho.
  { eapply owners_trans; [by eapply attempts_owners|]. eapply owners_trans; [by apply owners_trace|]. by apply owners_crash. }
  apply (revision_loads_verified h a i r j revision_id _ w').
  - destruct Hl as ((dR & HdR & Ha) & (dA & HdA & Hca) & _). split; [| |by exists dr| |done].
    + exists dR. split; [done|]. apply Ha, version_here.
    + exists dA. split; [done|]. apply Hca, version_here.
    + split; by eapply private_kept.
  - by eapply normalized_storable.
  - apply stored_integrity.
Qed.

(** The environment files of a revision are read back: entries whose keys are
    valid and whose values are single lines, quotes, backslashes and all other
    bytes included, are parsed from what is written for them, in order. *)
Theorem environment_file_round_trip (entries : list PublicEnvInput) :
  Forall (fun e => validate_env_key (pe_key e) = true /\ contains_char newline (pe_value e) = false) entries ->
  parse_environment (serialize_environment (map as_pair entries)) (map pe_key entries) = Ok entries.
Proof.
  intros He. apply environment_read_back. eapply list.Forall_impl; [exact He|]. intros [k v] [Hk Hv]. by apply env_key_fits.
Qed.
End theorems.

Lemma environment_file_round_trip_witness :
  parse_environment (serialize_environment [("QUOTED", "it's \ ok"); ("EMPTY", "")]) ["QUOTED"; "EMPTY"]
  = Ok [MkPublicEnvInput "QUOTED" "it's \ ok"; MkPublicEnvInput "EMPTY" ""].
Proof.
  apply (environment_file_round_trip [MkPublicEnvInput "QUOTED" "it's \ ok"; MkPublicEnvInput "EMPTY" ""]).
  by repeat constructor.
Defined.
