(* ===== verification/ReleaseStore.v ===== *)
(** * ReleaseStore: release links and metadata of an application directory

    [src/app_store/releases.rs], [src/app_store/atomic.rs] and the metadata half
    of [src/app_store/mod.rs], call by call over the file system of
    [FileSystem]. *)

From S2P Require Import Prelude Text Reference Models Effects Codec Names Drafts Compose FileSystem StoreBase ConfigRevision.
From Stdlib Require Import Ascii.

(** [AppStore]: the apps directory is the root of the file system; the
    canonical path is what Compose files mention. *)
Record AppStore := MkAppStore {
  as_canonical_apps_directory : string;
  as_integrity_key : option string;
}.

Section store.
Context {UT : UuidText} {ST : StoreText} {CR : Crypto} {CT : ComposeText}.
Context (euid : Z) (self : AppStore).

Abbreviation store A := (eprog fsev StoreError A).

(** ** Atomic writes ([atomic.rs]) *)

Definition atomic_write (parent : path) (name contents : string) (mode : Z) : store unit :=
  u <- ask FsNewV4 ;;
  removing_on_error
    (io (FsCreateNew parent (temp_name u) mode) ;;;
     io (FsWriteAll parent (temp_name u) contents) ;;;
     io (FsSyncAll parent (temp_name u)) ;;;
     io (FsRename parent (temp_name u) name) ;;;
     sync_directory parent)
    parent (temp_name u).

Definition release_target (release_id : Uuid) : string := "releases/" +:+ uuid_to_string release_id.

Definition switch_release_link (app_directory : path) (name : string) (release_id : Uuid) : store unit :=
  lift (refuse_if ((name ≠? "active") && (name ≠? "pending")) SeSymlinkBoundary) ;;;
  check_private euid app_directory true ;;;
  check_private euid (app_directory ++ ["releases"]) true ;;;
  check_private euid (app_directory ++ ["releases"; uuid_to_string release_id]) true ;;;
  u <- ask FsNewV4 ;;
  removing_on_error
    (io (FsSymlink (release_target release_id) app_directory (temp_name u)) ;;;
     io (FsRename app_directory (temp_name u) name) ;;;
     sync_directory app_directory)
    app_directory (temp_name u).

Definition remove_release_link (app_directory : path) (name : string) : store unit :=
  lift (refuse_if ((name ≠? "active") && (name ≠? "pending")) SeSymlinkBoundary) ;;;
  Vis (FsRemoveFile app_directory name) (fun r => match r with
    | Ok _ => sync_directory app_directory
    | Err NotFound => eret tt
    | Err kind => fail (SeIo kind)
    end).

(** ** Links *)

Definition parse_link (target : string) : result StoreError (option Uuid) :=
  match strip_prefix "releases/" target with
  | None => Err SeSymlinkBoundary
  | Some id_text =>
      match uuid_parse id_text with
      | None => Err SeContentInvalid
      | Some id => if target =? release_target id then Ok (Some id) else Err SeSymlinkBoundary
      end
  end.

Definition read_release_link_at (directory : path) (name : string) : store (option Uuid) :=
  Vis (FsReadLink directory name) (fun r => match r with
    | Ok target => Ret (parse_link target)
    | Err NotFound => eret None
    | Err kind => fail (SeIo kind)
    end).

Definition app_directory (app_id : Uuid) : path := [uuid_to_string app_id].

Definition read_release_link (app_id : Uuid) (name : string) : store (option Uuid) :=
  read_release_link_at (app_directory app_id) name.

(** ** Metadata ([mod.rs]) *)

Definition read_metadata_at (directory : path) : store AppMetadata :=
  check_private euid directory true ;;;
  check_private euid (directory ++ ["app.toml"]) false ;;;
  contents <- try_call (FsReadToString directory "app.toml")
                (fun kind => match kind with InvalidData => SeContentInvalid | _ => SeIo kind end) ;;
  metadata <- lift (ok_or (metadata_of_toml contents) SeContentInvalid) ;;
  lift (refuse_if (negb (metadata_valid metadata)) SeContentInvalid) ;;;
  eret metadata.

Definition read_metadata (app_id : Uuid) : store AppMetadata := read_metadata_at (app_directory app_id).

Definition write_metadata (directory : path) (metadata : AppMetadata) : store unit :=
  atomic_write directory "app.toml" (metadata_to_toml metadata) 384.

Definition set_desired_state (app_id : Uuid) (desired_state : DesiredState) (operation_id : Uuid)
    (now : Time) : store AppMetadata :=
  metadata <- read_metadata app_id ;;
  let metadata := metadata <| am_desired_state := desired_state |>
                           <| am_last_operation_id := operation_id |> <| am_updated_at := now |> in
  write_metadata (app_directory app_id) metadata ;;;
  eret metadata.

Definition repair_app_durability (app_id : Uuid) : store unit :=
  let app := app_directory app_id in
  let revisions := app ++ ["config-revisions"] in
  check_private euid app true ;;;
  Vis (FsSymlinkMetadata revisions) (fun r => match r with
    | Ok _ => check_private euid revisions true ;;; sync_directory revisions
    | Err NotFound => eret tt
    | Err kind => fail (SeIo kind)
    end) ;;;
  sync_directory app ;;;
  sync_directory [].

(** ** Releases *)

Definition legacy_release (release : ReleaseV2) : LegacyRelease :=
  MkLegacyRelease (rl_schema_version release) (rl_compose_schema_version release) (rl_id release)
    (rl_app_id release) (rl_config_revision release) (rl_config_sha256 release)
    (if rl_schema_version release =? 4%Z then Some (rl_stop_grace_period_seconds release) else None)
    (rl_source_image_ref release) (rl_logical_registry release) (rl_repository release)
    (rl_source_tag release) (rl_source_descriptor_digest release) (rl_index_digest release)
    (rl_manifest_digest release) (rl_runnable_image_ref release) (rl_platform_os release)
    (rl_platform_architecture release) (rl_platform_variant release) (rl_local_image_id release)
    (rl_compose_sha256 release) (rl_credential_ref release) (rl_trigger release)
    (rl_source_release_id release) (rl_created_at release) EmptyString.

Definition sign_domain : string := "solodock/release/v2" +:+ String (ascii_of_nat 0) EmptyString.

Definition sign (release : ReleaseV2) (key : string) : string :=
  let encoded :=
    if (rl_schema_version release =? 3%Z) || (rl_schema_version release =? 4%Z)
    then legacy_to_toml (legacy_release release)
    else release_to_toml (release <| rl_integrity_hmac := EmptyString |>) in
  hex (hmac_sha256 key (sign_domain +:+ encoded)).

Definition release_schema_supported (schema compose_schema : Z) : bool :=
  ((schema =? 3%Z) && (compose_schema =? 2%Z)) || ((schema =? 4%Z) && (compose_schema =? 3%Z))
  || ((schema =? 5%Z) && (compose_schema =? 4%Z))
  || ((schema =? 6%Z) && (compose_schema =? CURRENT_COMPOSE_SCHEMA_VERSION)).

(** What [matches_canonical] compares the file of a release with. *)
Definition release_compose_input (app : AppMetadata) (app_id release_id : Uuid) (release : ReleaseV2)
    (draft : NormalizedDraft) : ComposeInput :=
  MkComposeInput (MkAppResourceIdentity (am_id app) (am_slug app) (am_resource_name_schema_version app)) release_id
    (rl_runnable_image_ref release)
    (path_join (path_join (path_join (as_canonical_apps_directory self) (uuid_to_string app_id)) "config-revisions")
       (uuid_to_string (rl_config_revision release)))
    draft (3 <=? rl_compose_schema_version release)%Z.

(** [load_v2_release_at] once [app.toml] is read. A panic of [generate] (which
    [ComposeTheorems] excludes for normalised drafts) is listed with the errors. *)
Definition load_release (app : AppMetadata) (app_id release_id : Uuid) (app_directory : path) : store ReleaseV2 :=
  let relative := ["releases"; uuid_to_string release_id] in
  let directory := app_directory ++ relative in
  check_private_tree euid app_directory (relative ++ ["release.toml"]) false ;;;
  check_private_tree euid app_directory (relative ++ ["compose.yaml"]) false ;;;
  header <- io (FsReadToString directory "release.toml") ;;
  parsed <- lift (ok_or (release_of_toml header) SeContentInvalid) ;;
  let release := apply_schema_defaults parsed in
  integrity_key <- lift (ok_or (as_integrity_key self) SeContentInvalid) ;;
  lift (refuse_if (negb (release_schema_supported (rl_schema_version release)
                           (rl_compose_schema_version release))
                   || (rl_id release ≠? release_id) || (rl_app_id release ≠? app_id)
                   || (sign release integrity_key ≠? rl_integrity_hmac release)) SeContentInvalid) ;;;
  lift (refuse_if (negb (validate_runnable_image (rl_runnable_image_ref release))) SeContentInvalid) ;;;
  compose <- io (FsReadToString directory "compose.yaml") ;;
  loaded <- load_verified euid app_directory (rl_config_revision release) integrity_key ;;
  lift (refuse_if (cm_config_sha256 (lv_metadata loaded) ≠? rl_config_sha256 release) SeContentInvalid) ;;;
  binds <- ask FsBindHost ;;
  draft <- lift (map_err (fun _ => SeContentInvalid)
             (normalize_verified canonical_json binds.1 loaded (am_display_name app) (rl_source_image_ref release)
                (rl_credential_ref release) (am_auto_deploy_enabled app) (am_poll_interval_seconds app)
                integrity_key binds.2)) ;;
  lift (refuse_if (rl_stop_grace_period_seconds release ≠? cm_stop_grace_period_seconds (lv_metadata loaded))
          SeContentInvalid) ;;;
  lift (refuse_if (rl_service_discovery_enabled release ≠? cm_service_discovery_enabled (lv_metadata loaded))
          SeContentInvalid) ;;;
  canonical <- lift (match matches_canonical (release_compose_input app app_id release_id release draft) true
                             (rl_compose_schema_version release) (rl_compose_sha256 release) compose with
                     | Some (Ok canonical) => Ok canonical
                     | Some (Err _) | None => Err SeContentInvalid
                     end) ;;
  lift (refuse_if (negb canonical) SeContentInvalid) ;;;
  eret release.

Definition load_v2_release_at (app_id release_id : Uuid) (app_directory : path) : store ReleaseV2 :=
  app <- read_metadata_at app_directory ;;
  load_release app app_id release_id app_directory.

Definition load_v2_release (app_id release_id : Uuid) : store ReleaseV2 :=
  load_v2_release_at app_id release_id (app_directory app_id).

(** ** Publication of a release *)

Definition set_pending (app_id release_id : Uuid) : store unit :=
  load_v2_release app_id release_id ;;;
  switch_release_link (app_directory app_id) "pending" release_id.

(** [if let Err(error) = p { handler(error)? }] *)
Definition on_error {A} (p : store A) (handler : StoreError -> store unit) : store unit :=
  prog_bind p (fun r => match r with Ok _ => eret tt | Err e => handler e end).

Definition remove_release_link_if (app_id : Uuid) (name : string) (expected : Uuid) : store unit :=
  current <- read_release_link app_id name ;;
  if current =? Some expected
  then on_error (remove_release_link (app_directory app_id) name) (fun error =>
         current <- read_release_link app_id name ;;
         if current =? Some expected then fail error
         else sync_directory (app_directory app_id))
  else eret tt.

Definition commit_active (app_id : Uuid) (expected_active : option Uuid) (candidate : Uuid) : store unit :=
  active <- read_release_link app_id "active" ;;
  (if active ≠? expected_active then fail SeRevisionStale
   else pending <- read_release_link app_id "pending" ;;
        if pending ≠? Some candidate then fail SeRevisionStale else eret tt) ;;;
  load_v2_release app_id candidate ;;;
  on_error (switch_release_link (app_directory app_id) "active" candidate) (fun error =>
    active <- read_release_link app_id "active" ;;
    if active ≠? Some candidate then fail error else sync_directory (app_directory app_id)) ;;;
  on_error (remove_release_link_if app_id "pending" candidate) (fun error =>
    pending <- read_release_link app_id "pending" ;;
    if pending =? Some candidate then fail error else sync_directory (app_directory app_id)).

Definition finalize_active (app_id : Uuid) (expected_active : option Uuid) (candidate : Uuid)
    (desired_state : DesiredState) (operation_id : Uuid) (now : Time) : store unit :=
  active <- read_release_link app_id "active" ;;
  (if active =? Some candidate
   then load_v2_release app_id candidate ;;;
        remove_release_link_if app_id "pending" candidate ;;;
        repair_app_durability app_id
   else if active =? expected_active then commit_active app_id expected_active candidate
   else fail SeRevisionStale) ;;;
  metadata <- read_metadata app_id ;;
  (if (am_desired_state metadata ≠? desired_state) || (am_last_operation_id metadata ≠? operation_id)
   then on_error (set_desired_state app_id desired_state operation_id now) (fun error =>
          visible <- read_metadata app_id ;;
          if (am_desired_state visible ≠? desired_state) || (am_last_operation_id visible ≠? operation_id)
          then fail error else eret tt)
   else eret tt) ;;;
  repair_app_durability app_id.
End store.
