(* ===== verification/AppDirectories.v ===== *)
(** * AppDirectories: applications and releases as directories

    The operations of [src/app_store/mod.rs] and [src/app_store/releases.rs]
    that create, update, publish and delete whole directories: [create_app],
    [update_draft], [publish_v2_release] with [AtomicWriter::publish_release],
    and the tombstones of deleted applications. *)

From S2P Require Import Prelude Text Reference Models Effects Codec Names Drafts Compose FileSystem StoreBase ConfigRevision ReleaseStore.
From Stdlib Require Import Ascii.

(** The file that marks a deleted application. *)
Record DeletionMarker := MkDeletionMarker {
  dm_schema_version : Z;
  dm_app_id : Uuid;
  dm_operation_id : Uuid;
}.

(** [deletion.toml] is written as text and read with [toml]. *)
Definition deletion_marker {UT : UuidText} (app_id operation_id : Uuid) : string :=
  "schema_version=1" +:+ line_feed +:+ "app_id='" +:+ uuid_to_string app_id +:+ "'" +:+ line_feed
  +:+ "operation_id='" +:+ uuid_to_string operation_id +:+ "'" +:+ line_feed.

Class TombstoneText {UT : UuidText} := {
  marker_of_toml : string -> option DeletionMarker;
  marker_round_trip app_id operation_id :
    marker_of_toml (deletion_marker app_id operation_id) = Some (MkDeletionMarker 1 app_id operation_id);
}.

Definition TRASH : string := ".trash".

Section directories.
Context {UT : UuidText} {ST : StoreText} {CR : Crypto} {CT : ComposeText} {TT : TombstoneText}.
Context (euid : Z) (self : AppStore).

Abbreviation store A := (eprog fsev StoreError A).

(** [map_err] of a rename whose target is an application. *)
Definition conflict_as_app {A} (q : store A) : store A :=
  prog_bind q (fun r => match r with
    | Err SeReleaseConflict => Ret (Err SeAppConflict)
    | r => Ret r
    end).

(** ** Creating an application *)

Definition new_metadata (app_id : Uuid) (slug : string) (operation_id : Uuid)
    (initial_draft : option (Uuid * NormalizedDraft)) (now : Time) : AppMetadata :=
  match initial_draft with
  | Some (revision_id, draft) =>
      MkAppMetadata APP_METADATA_SCHEMA_VERSION app_id slug (nd_display_name draft) RESOURCE_NAME_SCHEMA_CURRENT
        (Some (nd_discovery_image_ref draft)) (nd_credential_ref draft) (Some revision_id)
        (Some (cm_config_sha256 (nd_metadata draft))) Stopped (nd_auto_deploy_enabled draft)
        (nd_poll_interval_seconds draft) operation_id now now
  | None =>
      MkAppMetadata APP_METADATA_SCHEMA_VERSION app_id slug slug RESOURCE_NAME_SCHEMA_CURRENT
        None None None None Stopped false default_poll_interval operation_id now now
  end.

Definition create_app (app_id : Uuid) (slug : string) (operation_id : Uuid)
    (initial_draft : option (Uuid * NormalizedDraft)) (now : Time) : store AppMetadata :=
  let temporary := ".solodock-tmp-app-" +:+ uuid_simple operation_id in
  removing_tree_on_error
    (create_dir [] temporary ;;;
     create_dir [temporary] "releases" ;;;
     match initial_draft with
     | Some (revision_id, draft) => publish euid [temporary] revision_id draft
     | None => eret tt
     end ;;;
     let metadata := new_metadata app_id slug operation_id initial_draft now in
     write_metadata [temporary] metadata ;;;
     sync_directory [temporary] ;;;
     conflict_as_app (rename_no_replace [] temporary [] (uuid_to_string app_id)) ;;;
     sync_directory [] ;;;
     eret metadata)
    [] temporary.

(** ** Updating the draft *)

Definition with_draft (metadata : AppMetadata) (revision_id operation_id : Uuid) (draft : NormalizedDraft) (now : Time)
    : AppMetadata :=
  metadata <| am_display_name := nd_display_name draft |>
           <| am_discovery_image_ref := Some (nd_discovery_image_ref draft) |>
           <| am_credential_ref := nd_credential_ref draft |>
           <| am_auto_deploy_enabled := nd_auto_deploy_enabled draft |>
           <| am_draft_revision := Some revision_id |>
           <| am_draft_config_sha256 := Some (cm_config_sha256 (nd_metadata draft)) |>
           <| am_poll_interval_seconds := nd_poll_interval_seconds draft |>
           <| am_last_operation_id := operation_id |> <| am_updated_at := now |>.

(** A revision that is already there counts as published when it is intact and
    the same. *)
Definition publish_or_adopt (directory : path) (revision_id : Uuid) (draft : NormalizedDraft) : store unit :=
  prog_bind (publish euid directory revision_id draft) (fun r => match r with
    | Ok _ => eret tt
    | Err SeConfigRevisionConflict =>
        key <- lift (ok_or (as_integrity_key self) SeContentInvalid) ;;
        existing <- load_verified euid directory revision_id key ;;
        lift (refuse_if (negb (bool_decide (lv_metadata existing = nd_metadata draft))) SeConfigRevisionConflict)
    | Err error => fail error
    end).

Definition update_draft (app_id : Uuid) (expected_revision : option Uuid) (revision_id operation_id : Uuid)
    (draft : NormalizedDraft) (now : Time) : store AppMetadata :=
  let directory := app_directory app_id in
  metadata <- read_metadata_at euid directory ;;
  lift (refuse_if (am_id metadata ≠? app_id) SeContentInvalid) ;;;
  lift (refuse_if (am_draft_revision metadata ≠? expected_revision) SeRevisionStale) ;;;
  publish_or_adopt directory revision_id draft ;;;
  let metadata := with_draft metadata revision_id operation_id draft now in
  write_metadata directory metadata ;;;
  eret metadata.

(** ** Publishing a release *)

Definition publish_release (releases : path) (release_id : Uuid) (release_toml compose_yaml : string) : store unit :=
  u <- ask FsNewV4 ;;
  let temp := temp_name u in
  removing_tree_on_error
    (create_dir releases temp ;;;
     atomic_write (releases ++ [temp]) "release.toml" release_toml 384 ;;;
     atomic_write (releases ++ [temp]) "compose.yaml" compose_yaml 384 ;;;
     sync_directory (releases ++ [temp]) ;;;
     rename_no_replace releases temp releases (uuid_to_string release_id) ;;;
     sync_directory releases)
    releases temp.

Definition new_release (app : AppMetadata) (release_id draft_revision : Uuid) (draft_config_sha256 compose_sha256 : string)
    (draft : NormalizedDraft) (resolved : ResolvedImage) (trigger : ReleaseTrigger) (source_release_id : option Uuid)
    (now : Time) : ReleaseV2 :=
  MkReleaseV2 6 CURRENT_COMPOSE_SCHEMA_VERSION release_id (am_id app) draft_revision draft_config_sha256
    (nd_stop_grace_period_seconds draft) (nd_service_discovery_enabled draft) (ri_source_image_ref resolved)
    (ri_logical_registry resolved) (ri_repository resolved) (ri_source_tag resolved)
    (ri_source_descriptor_digest resolved) (ri_index_digest resolved) (ri_manifest_digest resolved)
    (ri_runnable_image_ref resolved) (os (ri_platform resolved)) (architecture (ri_platform resolved))
    (variant (ri_platform resolved)) (ri_local_image_id resolved) compose_sha256 (am_credential_ref app) trigger
    source_release_id now EmptyString.

Definition publish_v2_release (app : AppMetadata) (release_id : Uuid) (resolved : ResolvedImage)
    (trigger : ReleaseTrigger) (source_release_id : option Uuid) : store ReleaseV2 :=
  let directory := app_directory (am_id app) in
  draft_revision <- lift (ok_or (am_draft_revision app) SeContentInvalid) ;;
  draft_config_sha256 <- lift (ok_or (am_draft_config_sha256 app) SeContentInvalid) ;;
  discovery_image_ref <- lift (ok_or (am_discovery_image_ref app) SeContentInvalid) ;;
  integrity_key <- lift (ok_or (as_integrity_key self) SeContentInvalid) ;;
  loaded <- load_verified euid directory draft_revision integrity_key ;;
  binds <- ask FsBindHost ;;
  draft <- lift (map_err (fun _ => SeContentInvalid)
             (normalize_verified canonical_json binds.1 loaded (am_display_name app) discovery_image_ref
                (am_credential_ref app) (am_auto_deploy_enabled app) (am_poll_interval_seconds app)
                integrity_key binds.2)) ;;
  lift (refuse_if (cm_config_sha256 (nd_metadata draft) ≠? draft_config_sha256) SeContentInvalid) ;;;
  let input := MkComposeInput
    (MkAppResourceIdentity (am_id app) (am_slug app) (am_resource_name_schema_version app)) release_id
    (ri_runnable_image_ref resolved)
    (path_join (path_join (path_join (as_canonical_apps_directory self) (uuid_to_string (am_id app))) "config-revisions")
       (uuid_to_string draft_revision))
    draft true in
  compose <- lift (match generate input true with
                   | Some (Ok (compose, _)) => Ok compose
                   | Some (Err _) | None => Err SeContentInvalid
                   end) ;;
  now <- ask FsNow ;;
  let release := new_release app release_id draft_revision draft_config_sha256 (hex (sha256 compose)) draft resolved
                   trigger source_release_id now in
  let release := release <| rl_integrity_hmac := sign release integrity_key |> in
  publish_release (directory ++ ["releases"]) release_id (release_to_toml release) compose ;;;
  eret release.

(** ** Private directories ([security/permissions.rs]) *)

Fixpoint reject_symlink_components (current rest : path) : store unit :=
  Vis (FsSymlinkMetadata current) (fun r => match r with
    | Ok st => if st_kind st =? KindSymlink then fail (SePermission PeUnexpectedType)
               else match rest with
                    | [] => eret tt
                    | c :: rest' => reject_symlink_components (current ++ [c]) rest'
                    end
    | Err NotFound => eret tt
    | Err kind => fail (SePermission (PeIo kind))
    end).

(** [DirBuilder::recursive]: a directory that is there already is no error. The
    parent is the root of the store, which exists. *)
Definition create_recursive (p : path) (name : string) : store unit :=
  Vis (FsCreateDir p name 448) (fun r => match r with
    | Ok _ => eret tt
    | Err kind => Vis (FsSymlinkMetadata (p ++ [name])) (fun r => match r with
        | Ok st => if st_kind st =? KindDirectory then eret tt else fail (SePermission (PeIo kind))
        | Err _ => fail (SePermission (PeIo kind))
        end)
    end).

Definition ensure_private_directory (p : path) (name : string) : store unit :=
  reject_symlink_components [] (p ++ [name]) ;;;
  Vis (FsSymlinkMetadata (p ++ [name])) (fun r => if is_ok r then eret tt else create_recursive p name) ;;;
  reject_symlink_components [] (p ++ [name]) ;;;
  check_private euid (p ++ [name]) true.

(** ** Tombstones *)

Definition tombstone_name (app_id operation_id : Uuid) : string :=
  uuid_to_string app_id +:+ "-" +:+ uuid_to_string operation_id.

Definition tombstone_path (app_id operation_id : Uuid) : path := [TRASH; tombstone_name app_id operation_id].

Definition tombstone (app_id operation_id : Uuid) : store unit :=
  let source := app_directory app_id in
  metadata <- read_metadata_at euid source ;;
  lift (refuse_if (am_id metadata ≠? app_id) SeContentInvalid) ;;;
  now <- ask FsNow ;;
  write_metadata source (metadata <| am_last_operation_id := operation_id |> <| am_updated_at := now |>) ;;;
  atomic_write source "deletion.toml" (deletion_marker app_id operation_id) 384 ;;;
  ensure_private_directory [] TRASH ;;;
  conflict_as_app (rename_no_replace [] (uuid_to_string app_id) [TRASH] (tombstone_name app_id operation_id)) ;;;
  sync_directory [TRASH] ;;;
  sync_directory [].

Definition read_tombstone_metadata (app_id operation_id : Uuid) : store AppMetadata :=
  let p := tombstone_path app_id operation_id in
  check_private_tree euid [] p true ;;;
  check_private euid (p ++ ["deletion.toml"]) false ;;;
  contents <- io (FsReadToString p "deletion.toml") ;;
  marker <- lift (ok_or (marker_of_toml contents) SeContentInvalid) ;;
  lift (refuse_if ((dm_schema_version marker ≠? 1%Z) || (dm_app_id marker ≠? app_id)
                   || (dm_operation_id marker ≠? operation_id)) SeContentInvalid) ;;;
  metadata <- read_metadata_at euid p ;;
  lift (refuse_if ((am_id metadata ≠? app_id) || (am_last_operation_id metadata ≠? operation_id)) SeContentInvalid) ;;;
  eret metadata.

Definition remove_dir_all (p : path) (name : string) : store unit :=
  Vis (FsRemoveDirAll p name) (fun r => match r with (Ok _, _) => eret tt | (Err kind, _) => fail (SeIo kind) end).

Definition finalize_tombstone (app_id operation_id : Uuid) : store unit :=
  read_tombstone_metadata app_id operation_id ;;;
  check_private_tree euid [] (tombstone_path app_id operation_id) true ;;;
  remove_dir_all [TRASH] (tombstone_name app_id operation_id) ;;;
  sync_directory [TRASH].

Definition sync_unregistered_app (app_id : Uuid) : store unit :=
  Vis (FsSymlinkMetadata (app_directory app_id)) (fun r => match r with
    | Err NotFound => eret tt
    | _ => fail SeAppConflict
    end) ;;;
  Vis (FsSymlinkMetadata [TRASH]) (fun r => match r with
    | Ok _ => check_private euid [TRASH] true ;;; sync_directory [TRASH]
    | Err NotFound => eret tt
    | Err kind => fail (SeIo kind)
    end) ;;;
  check_private euid [] true ;;;
  sync_directory [].

Definition sync_tombstone (app_id operation_id : Uuid) : store unit :=
  read_tombstone_metadata app_id operation_id ;;;
  sync_unregistered_app app_id.

(** The two identifiers of a canonical name. *)
Definition parse_tombstone_name (name : string) : result StoreError (Uuid * Uuid) :=
  refuse_if (negb (String.length name =? 73)%nat || negb (is_some_and (String.get 36 name) (char_eqb "-"%char)))
    SeContentInvalid ;;
  app_id ← ok_or (uuid_parse (str_take 36 name)) SeContentInvalid;
  operation_id ← ok_or (uuid_parse (str_drop 37 name)) SeContentInvalid;
  refuse_if (name ≠? tombstone_name app_id operation_id) SeContentInvalid ;;
  Ok (app_id, operation_id).

Fixpoint tombstone_entries (names : list string) : store (list (Uuid * Uuid)) :=
  match names with
  | [] => eret []
  | name :: rest =>
      ids <- lift (parse_tombstone_name name) ;;
      read_tombstone_metadata ids.1 ids.2 ;;;
      found <- tombstone_entries rest ;;
      eret (ids :: found)
  end.

Definition pair_leb (a b : Uuid * Uuid) : bool :=
  (a.1 <? b.1)%N || ((a.1 =? b.1)%N && (a.2 <=? b.2)%N).

Definition tombstones : store (list (Uuid * Uuid)) :=
  Vis (FsReadDir [TRASH]) (fun r => match r with
    | Ok names => result <- tombstone_entries names ;; eret (sort_by pair_leb result)
    | Err NotFound => eret []
    | Err kind => fail (SeIo kind)
    end).
End directories.
