(* ===== verification/WebhookStore.v ===== *)
(** * WebhookStore: webhook secrets as immutable revisions

    [src/webhook/store.rs]: [webhook.toml] names the current secret of an
    application, [webhook-secret-revisions] holds every secret with a signed
    record. One definition per method, over the calls of [FileSystem]. *)

From S2P Require Import Prelude Text WebhookProtocol Ingress Reference Models Effects Codec Names Drafts Compose FileSystem StoreBase ConfigRevision ReleaseStore AppDirectories.
From Stdlib Require Import Ascii.

Record SecretRevision := MkSecretRevision {
  sr_schema_version : Z;
  sr_app_id : Uuid;
  sr_secret_revision : Uuid;
  sr_operation_id : Uuid;
  sr_created_at : Time;
  sr_secret_hmac : string;
  sr_integrity_hmac : string;
}.

Record WebhookStatus := MkWebhookStatus {
  ws_configured : bool;
  ws_degraded : bool;
  ws_metadata_revision : option Uuid;
  ws_secret_revision : option Uuid;
  ws_created_at : option Time;
  ws_rotated_at : option Time;
}.

Record WebhookRecoveryRevision := MkWebhookRecoveryRevision {
  wr_revision_id : Uuid; wr_operation_id : Uuid; wr_current : bool }.

Record WebhookRecoveryApp := MkWebhookRecoveryApp {
  wa_app_id : Uuid;
  wa_metadata : option WebhookMetadata;
  wa_revisions : list WebhookRecoveryRevision;
  wa_operation_temps : list Uuid;
}.

(** The documents are printed and read by [toml]. *)
Class WebhookText := {
  webhook_to_toml : WebhookMetadata -> string;
  webhook_of_toml : string -> option WebhookMetadata;
  webhook_round_trip m : webhook_of_toml (webhook_to_toml m) = Some m;
  secret_to_toml : SecretRevision -> string;
  secret_of_toml : string -> option SecretRevision;
  secret_round_trip r : secret_of_toml (secret_to_toml r) = Some r;
}.

Definition WEBHOOK_REVISIONS : string := "webhook-secret-revisions".
Definition WEBHOOK_TEMP_PREFIX : string := ".solodock-webhook-tmp-".

Definition domain (text : string) : string := text +:+ String (ascii_of_nat 0) EmptyString.
Definition METADATA_DOMAIN : string := domain "solodock/webhook-metadata/v1".
Definition SECRET_DOMAIN : string := domain "solodock/webhook-secret-value/v1".
Definition REVISION_DOMAIN : string := domain "solodock/webhook-secret-revision/v1".

(** [map_err] of results whose error is a missing or unreadable file. *)
Definition is_absent (e : StoreError) : bool :=
  match e with SeIo NotFound => true | _ => false end.
Definition is_unreadable (e : StoreError) : bool :=
  match e with
  | SeIo NotFound | SeIo InvalidData | SePermission (PeIo NotFound) | SePermission (PeIo InvalidData) => true
  | _ => false
  end.

Section webhook.
Context {UT : UuidText} {ST : StoreText} {CR : Crypto} {WT : WebhookText}.
Context (euid : Z) (key : string).

Abbreviation store A := (eprog fsev StoreError A).

(** What a call returned, as a value. *)
Definition attempt {A} (q : store A) : prog fsev (result StoreError (result StoreError A)) :=
  prog_bind q (fun r => Ret (Ok r)).

(** [path.exists()]; what the store manages has no links here, and the checks
    that follow refuse one. *)
Definition exists_ (p : path) : store bool := Vis (FsSymlinkMetadata p) (fun r => eret (is_ok r)).

(** ** Signatures *)

Definition sign_secret (text data : string) : string := hex (hmac_sha256 key (text +:+ data)).

Definition sign_metadata (value : WebhookMetadata) : string :=
  sign_secret METADATA_DOMAIN (webhook_to_toml
    (MkWebhookMetadata (wm_schema_version value) (wm_app_id value) (wm_enabled value) (wm_metadata_revision value)
       (wm_secret_revision value) (wm_last_operation_id value) (wm_created_at value) (wm_updated_at value)
       (wm_rotated_at value) EmptyString)).

Definition with_hmac (value : SecretRevision) (hmac : string) : SecretRevision :=
  MkSecretRevision (sr_schema_version value) (sr_app_id value) (sr_secret_revision value) (sr_operation_id value)
    (sr_created_at value) (sr_secret_hmac value) hmac.

Definition sign_revision (value : SecretRevision) : SecretRevision :=
  with_hmac value (sign_secret REVISION_DOMAIN (secret_to_toml (with_hmac value EmptyString))).

(** ** Reading *)

Definition webhook_revisions (app_id : Uuid) : path := app_directory app_id ++ [WEBHOOK_REVISIONS].

Fixpoint revision_entry_names (directory : path) (names : list string) : store unit :=
  match names with
  | [] => eret tt
  | name :: rest =>
      st <- io (FsSymlinkMetadata (directory ++ [name])) ;;
      lift (refuse_if (st_kind st ≠? KindFile) SeSymlinkBoundary) ;;;
      check_private_tree euid [] (directory ++ [name]) false ;;;
      lift (refuse_if (negb (bool_decide (name ∈ ["secret"; "revision.toml"]))) SeContentInvalid) ;;;
      revision_entry_names directory rest
  end.

Definition validate_revision_directory_entries (directory : path) (partial : bool) : store unit :=
  names <- io (FsReadDir directory) ;;
  revision_entry_names directory names ;;;
  lift (refuse_if (negb partial
                   && negb (bool_decide (list_to_set (C := gset string) names = {["revision.toml"; "secret"]})))
          SeContentInvalid).

Definition load_revision_record (app_id revision_id : Uuid) (metadata : option WebhookMetadata)
    : store (SecretRevision * string) :=
  let directory := webhook_revisions app_id ++ [uuid_to_string revision_id] in
  check_private_tree euid [] directory true ;;;
  validate_revision_directory_entries directory false ;;;
  check_private_tree euid [] (directory ++ ["revision.toml"]) false ;;;
  text <- io (FsReadToString directory "revision.toml") ;;
  revision <- lift (ok_or (secret_of_toml text) SeContentInvalid) ;;
  lift (refuse_if ((sr_schema_version revision ≠? 1%Z) || (sr_app_id revision ≠? app_id)
                   || (sr_secret_revision revision ≠? revision_id)
                   || (sr_integrity_hmac (sign_revision revision) ≠? sr_integrity_hmac revision)) SeContentInvalid) ;;;
  lift (refuse_if (is_some_and metadata (fun v => wm_secret_revision v ≠? Some revision_id)) SeContentInvalid) ;;;
  check_private_tree euid [] (directory ++ ["secret"]) false ;;;
  raw <- io (FsReadToString directory "secret") ;;
  lift (refuse_if ((String.length raw ≠? 32) || (sign_secret SECRET_DOMAIN raw ≠? sr_secret_hmac revision))
          SeContentInvalid) ;;;
  eret (revision, base64_encode raw).

Definition load_webhook_revision (app_id revision_id : Uuid) (metadata : option WebhookMetadata) : store string :=
  record <- load_revision_record app_id revision_id metadata ;; eret record.2.

Definition load_metadata (app_id : Uuid) : store WebhookMetadata :=
  let directory := app_directory app_id in
  io (FsSymlinkMetadata (directory ++ ["webhook.toml"])) ;;;
  check_private_tree euid [] (directory ++ ["webhook.toml"]) false ;;;
  text <- io (FsReadToString directory "webhook.toml") ;;
  value <- lift (ok_or (webhook_of_toml text) SeContentInvalid) ;;
  lift (refuse_if ((wm_schema_version value ≠? 1%Z) || (wm_app_id value ≠? app_id)
                   || (String.length (wm_integrity_hmac value) ≠? 64)) SeContentInvalid) ;;;
  lift (refuse_if (sign_metadata value ≠? wm_integrity_hmac value) SeContentInvalid) ;;;
  lift (refuse_if (wm_enabled value ≠? is_some (wm_secret_revision value)) SeContentInvalid) ;;;
  eret value.

Definition load_current_webhook (app_id : Uuid) : store LoadedWebhook :=
  app <- read_metadata euid app_id ;;
  lift (refuse_if (negb (is_configured app)) SeContentInvalid) ;;;
  metadata <- load_metadata app_id ;;
  lift (refuse_if (negb (wm_enabled metadata)) SeContentInvalid) ;;;
  revision <- lift (ok_or (wm_secret_revision metadata) SeContentInvalid) ;;
  secret <- load_webhook_revision app_id revision (Some metadata) ;;
  eret (MkLoadedWebhook metadata secret).

(** Whether the current secret cannot be used although it is configured. *)
Definition secret_degraded (app_id : Uuid) (value : WebhookMetadata) : store bool :=
  match wm_secret_revision value with
  | None => eret false
  | Some revision =>
      outcome <- attempt (load_webhook_revision app_id revision (Some value)) ;;
      match outcome with
      | Ok _ => eret false
      | Err SeContentInvalid => eret true
      | Err error => if is_unreadable error then eret true else fail error
      end
  end.

Definition unconfigured_status (degraded : bool) : WebhookStatus := MkWebhookStatus false degraded None None None None.

Definition status (app_id : Uuid) : store WebhookStatus :=
  outcome <- attempt (load_metadata app_id) ;;
  match outcome with
  | Ok value =>
      degraded <- secret_degraded app_id value ;;
      eret (MkWebhookStatus (wm_enabled value) degraded (Some (wm_metadata_revision value)) (wm_secret_revision value)
              (Some (wm_created_at value)) (wm_rotated_at value))
  | Err (SeIo NotFound) =>
      degraded <- Vis (FsSymlinkMetadata (webhook_revisions app_id)) (fun r => match r with
        | Ok _ => check_private_tree euid [] (webhook_revisions app_id) true ;;; eret true
        | Err NotFound => eret false
        | Err kind => fail (SeIo kind)
        end) ;;
      eret (unconfigured_status degraded)
  | Err SeContentInvalid => eret (unconfigured_status true)
  | Err error => fail error
  end.

(** ** Writing *)

Definition write_secret_file (p : path) (name contents : string) : store unit :=
  io (FsCreateNew p name 384) ;;;
  io (FsWriteAll p name contents) ;;;
  io (FsSyncAll p name).

Definition repair_durability (app_id : Uuid) (secret_revision : option Uuid) : store unit :=
  let app := app_directory app_id in
  let revisions := webhook_revisions app_id in
  check_private_tree euid [] app true ;;;
  match secret_revision with
  | Some revision =>
      check_private_tree euid [] (revisions ++ [uuid_to_string revision]) true ;;;
      sync_directory (revisions ++ [uuid_to_string revision])
  | None => eret tt
  end ;;;
  Vis (FsSymlinkMetadata revisions) (fun r => match r with
    | Ok _ => check_private_tree euid [] revisions true ;;; sync_directory revisions
    | Err NotFound => eret tt
    | Err kind => fail (SeIo kind)
    end) ;;;
  sync_directory app.

(** The expected revision against what is configured. *)
Definition check_expected (existing : option WebhookMetadata) (expected : option Uuid) : result StoreError unit :=
  match existing with
  | Some value =>
      refuse_if (wm_enabled value && (expected ≠? Some (wm_metadata_revision value))) SeRevisionStale ;;
      refuse_if (negb (wm_enabled value) && is_some expected) SeRevisionStale
  | None => refuse_if (is_some expected) SeRevisionStale
  end.

Definition temp_of (operation_id : Uuid) : string := WEBHOOK_TEMP_PREFIX +:+ uuid_simple operation_id.

(** A partial write of the same operation is removed. *)
Definition discard_partial (revisions : path) (temporary : string) : store unit :=
  Vis (FsSymlinkMetadata (revisions ++ [temporary])) (fun r => match r with
    | Ok st =>
        lift (refuse_if (st_kind st ≠? KindDirectory) SeSymlinkBoundary) ;;;
        check_private_tree euid [] (revisions ++ [temporary]) true ;;;
        remove_dir_all revisions temporary ;;;
        sync_directory revisions
    | Err NotFound => eret tt
    | Err kind => fail (SeIo kind)
    end).

Definition publish_secret (app_id operation_id : Uuid) (decoded_secret : string) : store unit :=
  let revisions := webhook_revisions app_id in
  let temporary := temp_of operation_id in
  discard_partial revisions temporary ;;;
  create_dir revisions temporary ;;;
  write_secret_file (revisions ++ [temporary]) "secret" decoded_secret ;;;
  now <- ask FsNow ;;
  let revision := sign_revision (MkSecretRevision 1 app_id operation_id operation_id now
                                   (sign_secret SECRET_DOMAIN decoded_secret) EmptyString) in
  write_secret_file (revisions ++ [temporary]) "revision.toml" (secret_to_toml revision) ;;;
  sync_directory (revisions ++ [temporary]) ;;;
  try_call (FsRenameNoReplace revisions temporary revisions (uuid_to_string operation_id))
    (fun _ => SeConfigRevisionConflict) ;;;
  sync_directory revisions.

(** The operation's identifier is the revision's: a revision that is already
    there must hold the same secret. *)
Definition publish_or_adopt_secret (app_id operation_id : Uuid) (secret decoded_secret : string) : store unit :=
  present <- exists_ (webhook_revisions app_id ++ [uuid_to_string operation_id]) ;;
  if present
  then existing_secret <- load_webhook_revision app_id operation_id None ;;
       lift (refuse_if (existing_secret ≠? secret) SeConfigRevisionConflict)
  else publish_secret app_id operation_id decoded_secret.

Definition write_webhook (app_id : Uuid) (metadata : WebhookMetadata) : store unit :=
  atomic_write (app_directory app_id) "webhook.toml" (webhook_to_toml metadata) 384.

Definition signed (metadata : WebhookMetadata) : WebhookMetadata :=
  MkWebhookMetadata (wm_schema_version metadata) (wm_app_id metadata) (wm_enabled metadata)
    (wm_metadata_revision metadata) (wm_secret_revision metadata) (wm_last_operation_id metadata)
    (wm_created_at metadata) (wm_updated_at metadata) (wm_rotated_at metadata) (sign_metadata metadata).

Definition ensure_revisions (app_id : Uuid) : store unit :=
  present <- exists_ (webhook_revisions app_id) ;;
  (if present : bool then eret tt
   else create_dir (app_directory app_id) WEBHOOK_REVISIONS ;;; sync_directory (app_directory app_id)) ;;;
  check_private_tree euid [] (webhook_revisions app_id) true.

(** What [configure] finds in place of [webhook.toml]. *)
Definition existing_webhook (app_id : Uuid) (expected : option Uuid) : store (option WebhookMetadata) :=
  outcome <- attempt (load_metadata app_id) ;;
  match outcome with
  | Ok value => eret (Some value)
  | Err (SeIo NotFound) => eret None
  | Err SeContentInvalid => if is_none expected then eret None else fail SeContentInvalid
  | Err error => fail error
  end.

(** The rest of [configure], once it is not a repetition. *)
Definition rotate (app_id : Uuid) (existing : option WebhookMetadata) (expected : option Uuid) (operation_id : Uuid)
    (secret decoded_secret : string) : store WebhookMetadata :=
  lift (check_expected existing expected) ;;;
  ensure_revisions app_id ;;;
  publish_or_adopt_secret app_id operation_id secret decoded_secret ;;;
  now <- ask FsNow ;;
  revision <- ask FsNewV4 ;;
  let metadata := signed (MkWebhookMetadata 1 app_id true revision (Some operation_id) operation_id
                            (from_option wm_created_at now existing) now (existing ≫= fun _ => Some now) EmptyString) in
  write_webhook app_id metadata ;;;
  eret metadata.

Definition configure (app_id : Uuid) (expected : option Uuid) (operation_id : Uuid) (secret : string)
    : store WebhookMetadata :=
  app <- read_metadata euid app_id ;;
  lift (refuse_if (negb (is_configured app)) SeContentInvalid) ;;;
  decoded_secret <- lift (map_err (fun _ => SeContentInvalid) (decode_secret secret)) ;;
  existing <- existing_webhook app_id expected ;;
  match existing with
  | Some value =>
      if wm_last_operation_id value =? operation_id
      then repair_durability app_id (wm_secret_revision value) ;;; eret value
      else rotate app_id existing expected operation_id secret decoded_secret
  | None => rotate app_id existing expected operation_id secret decoded_secret
  end.

Definition revoke (app_id expected operation_id : Uuid) : store WebhookMetadata :=
  app <- read_metadata euid app_id ;;
  lift (refuse_if (negb (is_configured app)) SeContentInvalid) ;;;
  metadata <- load_metadata app_id ;;
  if wm_last_operation_id metadata =? operation_id
  then repair_durability app_id (wm_secret_revision metadata) ;;; eret metadata
  else
    lift (refuse_if (negb (wm_enabled metadata) || (wm_metadata_revision metadata ≠? expected)) SeRevisionStale) ;;;
    revision <- ask FsNewV4 ;;
    now <- ask FsNow ;;
    let metadata := signed (MkWebhookMetadata (wm_schema_version metadata) (wm_app_id metadata) false revision None
                              operation_id (wm_created_at metadata) now (wm_rotated_at metadata) EmptyString) in
    write_webhook app_id metadata ;;;
    eret metadata.

(** ** Inventories *)

(** The application a directory entry names in its one spelling. *)
Definition canonical_uuid (name : string) : option Uuid :=
  id ← uuid_parse name; if name =? uuid_to_string id then Some id else None.

(** The operation of a temporary name, after its prefix. *)
Definition temp_operation (simple : string) : result StoreError Uuid :=
  operation ← ok_or (uuid_parse simple) SeContentInvalid;
  refuse_if (simple ≠? uuid_simple operation) SeContentInvalid ;;
  Ok operation.

(** [file_type.is_symlink() || !file_type.is_dir()] of an entry. *)
Definition require_directory (p : path) : store unit :=
  st <- io (FsSymlinkMetadata p) ;;
  lift (refuse_if (st_kind st ≠? KindDirectory) SeSymlinkBoundary).

(** Which secret is current, for redaction. *)
Definition redacted_current (app_id : Uuid) : store (option Uuid) :=
  outcome <- attempt (load_metadata app_id) ;;
  match outcome with
  | Ok metadata => eret (if wm_enabled metadata then wm_secret_revision metadata else None)
  | Err (SeIo NotFound) | Err SeContentInvalid => eret None
  | Err error => fail error
  end.

Fixpoint revision_secrets (app_id : Uuid) (names : list string) (expected_current : option Uuid) (found_current : bool)
    : store (bool * list string) :=
  match names with
  | [] => eret (found_current, [])
  | name :: rest =>
      match uuid_parse name with
      | None => if starts_with WEBHOOK_TEMP_PREFIX name then revision_secrets app_id rest expected_current found_current
                else fail SeContentInvalid
      | Some id =>
          secret <- load_webhook_revision app_id id None ;;
          decoded <- lift (map_err (fun _ => SeContentInvalid) (decode_secret secret)) ;;
          found <- revision_secrets app_id rest expected_current (found_current || (expected_current =? Some id)) ;;
          eret (found.1, secret :: decoded :: found.2)
      end
  end.

Fixpoint app_secrets (names : list string) : store (list string) :=
  match names with
  | [] => eret []
  | name :: rest =>
      match canonical_uuid name with
      | None => app_secrets rest
      | Some app_id =>
          require_directory [name] ;;;
          check_private_tree euid [] [name] true ;;;
          expected_current <- redacted_current app_id ;;
          secrets <- Vis (FsReadDir (webhook_revisions app_id)) (fun r => match r with
            | Err NotFound => if is_some expected_current then fail SeContentInvalid else eret []
            | Err kind => fail (SeIo kind)
            | Ok revisions =>
                found <- revision_secrets app_id revisions expected_current (is_none expected_current) ;;
                lift (refuse_if (negb found.1) SeContentInvalid) ;;;
                eret found.2
            end) ;;
          others <- app_secrets rest ;;
          eret (secrets ++ others)
      end
  end.

Definition all_secret_bytes : store (list string) :=
  names <- io (FsReadDir []) ;;
  app_secrets names.

Fixpoint remove_unreferenced (app_id : Uuid) (current : option Uuid) (names : list string) : store unit :=
  match names with
  | [] => eret tt
  | name :: rest =>
      remove <- lift (match uuid_parse name with
        | Some id => refuse_if (name ≠? uuid_to_string id) SeContentInvalid ;; Ok (Some id ≠? current)
        | None =>
            match strip_prefix WEBHOOK_TEMP_PREFIX name with
            | Some simple => temp_operation simple ;; Ok false
            | None => Err SeContentInvalid
            end
        end) ;;
      (if remove : bool
       then check_private_tree euid [] (webhook_revisions app_id ++ [name]) true ;;;
            remove_dir_all (webhook_revisions app_id) name
       else eret tt) ;;;
      remove_unreferenced app_id current rest
  end.

Definition cleanup_unreferenced (app_id : Uuid) : store unit :=
  outcome <- attempt (load_metadata app_id) ;;
  current <- lift (match outcome with
    | Ok value => Ok (wm_secret_revision value)
    | Err (SeIo NotFound) => Ok None
    | Err error => Err error
    end) ;;
  Vis (FsReadDir (webhook_revisions app_id)) (fun r => match r with
    | Err NotFound => eret tt
    | Err kind => fail (SeIo kind)
    | Ok names =>
        remove_unreferenced app_id current names ;;;
        sync_directory (webhook_revisions app_id)
    end).

(** What a list of revision entries contributes. *)
Fixpoint inventory_revisions (app_id : Uuid) (current : option Uuid) (names : list string)
    : store (list WebhookRecoveryRevision * list Uuid) :=
  match names with
  | [] => eret ([], [])
  | name :: rest =>
      let p := webhook_revisions app_id ++ [name] in
      require_directory p ;;;
      match strip_prefix WEBHOOK_TEMP_PREFIX name with
      | Some simple =>
          check_private_tree euid [] p true ;;;
          operation <- lift (temp_operation simple) ;;
          validate_revision_directory_entries p true ;;;
          others <- inventory_revisions app_id current rest ;;
          eret (others.1, operation :: others.2)
      | None =>
          revision_id <- lift (ok_or (canonical_uuid name) SeContentInvalid) ;;
          record <- load_revision_record app_id revision_id None ;;
          others <- inventory_revisions app_id current rest ;;
          eret (MkWebhookRecoveryRevision revision_id (sr_operation_id record.1) (current =? Some revision_id)
                  :: others.1, others.2)
      end
  end.

Fixpoint inventory_apps (names : list string) : store (list WebhookRecoveryApp) :=
  match names with
  | [] => eret []
  | name :: rest =>
      match canonical_uuid name with
      | None => inventory_apps rest
      | Some app_id =>
          require_directory [name] ;;;
          check_private_tree euid [] [name] true ;;;
          outcome <- attempt (load_metadata app_id) ;;
          metadata <- lift (match outcome with
            | Ok value => Ok (Some value)
            | Err (SeIo NotFound) => Ok None
            | Err error => Err error
            end) ;;
          let current := metadata ≫= wm_secret_revision in
          found <- Vis (FsReadDir (webhook_revisions app_id)) (fun r => match r with
            | Err NotFound => if is_some current then fail SeContentInvalid else eret None
            | Err kind => fail (SeIo kind)
            | Ok entries =>
                check_private_tree euid [] (webhook_revisions app_id) true ;;;
                found <- inventory_revisions app_id current entries ;;
                lift (refuse_if (is_some current && negb (existsb wr_current found.1)) SeContentInvalid) ;;;
                eret (Some (MkWebhookRecoveryApp app_id metadata
                        (sort_by (fun a b => (wr_revision_id a <=? wr_revision_id b)%N) found.1)
                        (sort_by N.leb found.2)))
            end) ;;
          others <- inventory_apps rest ;;
          eret (match found with Some app => app :: others | None => others end)
      end
  end.

Definition recovery_inventory : store (list WebhookRecoveryApp) :=
  names <- io (FsReadDir []) ;;
  apps <- inventory_apps names ;;
  eret (sort_by (fun a b => (wa_app_id a <=? wa_app_id b)%N) apps).

Definition discard_operation_temp (app_id operation_id : Uuid) : store unit :=
  let revisions := webhook_revisions app_id in
  let temporary := temp_of operation_id in
  Vis (FsSymlinkMetadata (revisions ++ [temporary])) (fun r => match r with
    | Ok st =>
        lift (refuse_if (st_kind st ≠? KindDirectory) SeSymlinkBoundary) ;;;
        check_private_tree euid [] (revisions ++ [temporary]) true ;;;
        validate_revision_directory_entries (revisions ++ [temporary]) true ;;;
        remove_dir_all revisions temporary ;;;
        sync_directory revisions
    | Err NotFound => eret tt
    | Err kind => fail (SeIo kind)
    end).

(** ** Validation at recovery *)

(** Whether an entry is there, without following it. *)
Definition entry_exists (p : path) : store bool :=
  Vis (FsSymlinkMetadata p) (fun r => match r with
    | Ok _ => eret true
    | Err NotFound => eret false
    | Err kind => fail (SeIo kind)
    end).

Definition validate_secret_revision (app_id revision_id : Uuid) (directory : path) : store unit :=
  check_private_tree euid [] directory true ;;;
  validate_revision_directory_entries directory false ;;;
  check_private_tree euid [] (directory ++ ["revision.toml"]) false ;;;
  check_private_tree euid [] (directory ++ ["secret"]) false ;;;
  text <- io (FsReadToString directory "revision.toml") ;;
  revision <- lift (ok_or (secret_of_toml text) SeContentInvalid) ;;
  raw <- io (FsReadToString directory "secret") ;;
  lift (refuse_if ((sr_schema_version revision ≠? 1%Z) || (sr_app_id revision ≠? app_id)
                   || (sr_secret_revision revision ≠? revision_id)
                   || (sr_integrity_hmac revision ≠? sr_integrity_hmac (sign_revision revision))
                   || (String.length raw ≠? 32) || (sign_secret SECRET_DOMAIN raw ≠? sr_secret_hmac revision))
          SeContentInvalid).

Fixpoint validate_secret_entries (app_id : Uuid) (current : option Uuid) (names : list string) (found_current : bool)
    : store bool :=
  match names with
  | [] => eret found_current
  | name :: rest =>
      let p := webhook_revisions app_id ++ [name] in
      require_directory p ;;;
      match strip_prefix WEBHOOK_TEMP_PREFIX name with
      | Some simple =>
          lift (temp_operation simple) ;;;
          check_private_tree euid [] p true ;;;
          validate_revision_directory_entries p true ;;;
          validate_secret_entries app_id current rest found_current
      | None =>
          revision_id <- lift (ok_or (canonical_uuid name) SeContentInvalid) ;;
          validate_secret_revision app_id revision_id p ;;;
          validate_secret_entries app_id current rest (found_current || (current =? Some revision_id))
      end
  end.

Definition validate_app_directory (app_id : Uuid) : store bool :=
  let directory := app_directory app_id in
  metadata_exists <- entry_exists (directory ++ ["webhook.toml"]) ;;
  revisions_exist <- entry_exists (webhook_revisions app_id) ;;
  if negb metadata_exists && negb revisions_exist then eret false
  else if negb metadata_exists || negb revisions_exist then fail SeContentInvalid
  else
    check_private_tree euid [] (directory ++ ["webhook.toml"]) false ;;;
    check_private_tree euid [] (webhook_revisions app_id) true ;;;
    text <- io (FsReadToString directory "webhook.toml") ;;
    metadata <- lift (ok_or (webhook_of_toml text) SeContentInvalid) ;;
    lift (refuse_if ((wm_schema_version metadata ≠? 1%Z) || (wm_app_id metadata ≠? app_id)
                     || (wm_enabled metadata ≠? is_some (wm_secret_revision metadata))) SeContentInvalid) ;;;
    lift (refuse_if (sign_metadata metadata ≠? wm_integrity_hmac metadata) SeContentInvalid) ;;;
    names <- io (FsReadDir (webhook_revisions app_id)) ;;
    found_current <- validate_secret_entries app_id (wm_secret_revision metadata) names (negb (wm_enabled metadata)) ;;
    lift (refuse_if (negb found_current) SeContentInvalid) ;;;
    eret (wm_enabled metadata).
End webhook.
