(* ===== verification/Recovery.v ===== *)
(** * Recovery: the scan of the directory store

    [scan_store] of [src/app_store/recovery.rs]: every entry of the store is
    validated, applications that pass are projected to the catalog, and what
    does not is reported as an issue or stops the scan. One definition per
    function. [Result<Result<A, &'static str>, StoreError>] is
    [store (result string A)]: an inner error is the code of an issue. *)

From S2P Require Import Prelude Text WebhookProtocol Ingress Reference Models Effects Codec Names Drafts Compose FileSystem StoreBase ConfigRevision ReleaseStore AppDirectories WebhookStore.
From Stdlib Require Import Ascii.

Record RecoveredApp := MkRecoveredApp {
  ra_app_id : Uuid;
  ra_slug : string;
  ra_display_name : string;
  ra_resource_name_schema_version : Z;
  ra_project_name : string;
  ra_active_release_id : option Uuid;
  ra_active_image_ref : option string;
  ra_active_config_revision : option Uuid;
  ra_active_config_sha256 : option string;
  ra_active_network_plan : option NetworkPlan;
  ra_pending_release_id : option Uuid;
  ra_pending_image_ref : option string;
  ra_pending_config_revision : option Uuid;
  ra_pending_network_plan : option NetworkPlan;
  ra_discovery_image_ref : option string;
  ra_draft_revision : option Uuid;
  ra_draft_config_sha256 : option string;
  ra_desired_state : DesiredState;
  ra_auto_deploy_enabled : bool;
  ra_poll_interval_seconds : Z;
  ra_last_operation_id : option Uuid;
  ra_draft : option DraftResponse;
  ra_source_updated_at : Time;
}.

Record RecoveryIssue := MkRecoveryIssue { is_code : string; is_app_id : option Uuid }.

Record RecoveryReport := MkRecoveryReport { rr_valid_apps : list RecoveredApp; rr_issues : list RecoveryIssue }.

Record ReleaseHeader := MkReleaseHeader {
  rh_schema_version : Z;
  rh_compose_schema_version : Z;
  rh_id : Uuid;
  rh_app_id : Uuid;
  rh_runnable_image_ref : string;
  rh_config_revision : option Uuid;
  rh_config_sha256 : option string;
  rh_compose_sha256 : string;
  rh_created_at : Time;
}.

(** The scan reads some documents by a part of their fields. *)
Definition header_of (r : ReleaseV2) : ReleaseHeader :=
  MkReleaseHeader (rl_schema_version r) (rl_compose_schema_version r) (rl_id r) (rl_app_id r) (rl_runnable_image_ref r)
    (Some (rl_config_revision r)) (Some (rl_config_sha256 r)) (rl_compose_sha256 r) (rl_created_at r).

Class RecoveryText {ST : StoreText} := {
  app_schema_of_toml : string -> option Z;
  release_header_of_toml : string -> option ReleaseHeader;
  app_schema_agrees s version m :
    app_schema_of_toml s = Some version -> metadata_of_toml s = Some m -> version = am_schema_version m;
  release_header_agrees s header r :
    release_header_of_toml s = Some header -> release_of_toml s = Some r -> header = header_of r;
}.

Inductive ManagedTreePolicy := Strict | DisposableAppTemp.
Inductive ManagedFilePathKind := Canonical | Temporary.

(** ** Names *)

Definition exact_hex_suffix (prefix name : string) : bool :=
  match strip_prefix prefix name with
  | Some suffix => (String.length suffix =? 32)%nat && str_all is_lower_hex suffix
  | None => false
  end.

Definition exact_internal_temp_name (name : string) : bool := exact_hex_suffix ".solodock-tmp-" name.
Definition is_app_temp_name (name : string) : bool := exact_hex_suffix ".solodock-tmp-app-" name.

(** What a managed file is, by its path below the application. *)
Definition managed_file_path_kind {UT : UuidText} (relative : path) : option ManagedFilePathKind :=
  match relative with
  | [first; revision; files; kind; name] =>
      if negb ((first =? "config-revisions") && (files =? "files")) then None
      else if str_is_empty name || negb ((kind =? "public") || (kind =? "secret")) then None
      else if is_some (canonical_uuid revision) then Some Canonical
      else if exact_hex_suffix REVISION_TEMP_PREFIX revision then Some Temporary
      else None
  | _ => None
  end.

Definition draft_response (self : LoadedRevision) (discovery_image_ref : string) (credential_ref : option Uuid)
    (auto_deploy_enabled : bool) (poll_interval_seconds : Z) : DraftResponse :=
  let m := lv_metadata self in
  MkDraftResponse (cm_security_profile m) discovery_image_ref credential_ref auto_deploy_enabled poll_interval_seconds
    (cm_stop_grace_period_seconds m) (cm_environment_order m) (lv_public_environment self) (cm_secret_keys m)
    (map (fun metadata => MkManagedFileResponse metadata
            (if mf_sensitive metadata then None else lv_public_files self !! mf_logical_name metadata)) (cm_files m))
    (cm_ports m) (cm_volumes m) (cm_binds m) (cm_owned_default_network m) (cm_service_discovery_enabled m)
    (cm_networks m) (cm_health m).

Section scan.
Context {UT : UuidText} {ST : StoreText} {CR : Crypto} {CT : ComposeText} {WT : WebhookText} {RT : RecoveryText}.
Context (euid : Z) (self : AppStore).
(** How many directories one tree may have. *)
Context (tree_fuel : nat).

Abbreviation store A := (eprog fsev StoreError A).

(** [match p? { Ok(a) => a, Err(code) => return Ok(Err(code)) }] *)
Definition cbind {A B} (p : store (result string A)) (f : A -> store (result string B)) : store (result string B) :=
  r <- p ;; match r with Ok a => f a | Err code => eret (Err code) end.

Definition cret {A} (a : A) : store (result string A) := eret (Ok a).
Definition issue {A} (code : string) : store (result string A) := eret (Err code).

(** ** Trees *)

Definition check_service_owned_file_mode (p : path) (expected_mode : Z) : store unit :=
  st <- perm (FsSymlinkMetadata p) ;;
  lift (refuse_if (st_kind st ≠? KindFile) (SePermission PeUnexpectedType)) ;;;
  lift (refuse_if (st_uid st ≠? euid) (SePermission PeOwner)) ;;;
  lift (refuse_if (Z.land (st_mode st) 4095 ≠? expected_mode) (SePermission PeMode)).

Fixpoint check_allowed_managed_file_modes (p : path) (allowed : list Z) : store unit :=
  match allowed with
  | [] => fail SeManagedFilePermissionInvalid
  | mode :: rest =>
      prog_bind (check_service_owned_file_mode p mode) (fun r => match r with
        | Ok _ => eret tt
        | Err _ => check_allowed_managed_file_modes p rest
        end)
  end.

Definition check_managed_tree_file (p logical : path) (disposable_app_temp : bool) : store unit :=
  match disposable_app_temp, managed_file_path_kind logical with
  | true, Some _ => check_allowed_managed_file_modes p [MANAGED_FILE_MODE; 256%Z; 384%Z]
  | false, Some Canonical => check_allowed_managed_file_modes p [MANAGED_FILE_MODE]
  | false, Some Temporary => check_allowed_managed_file_modes p [MANAGED_FILE_MODE; 384%Z]
  | _, None => check_private euid p false
  end.

(** The entries of one directory of a tree: the directories among them, and how
    many entries are temporary. [relative] is the path below the application. *)
Fixpoint managed_entries (tree_root relative : path) (at_root : bool) (policy : ManagedTreePolicy)
    (names : list string) : store (list path * nat) :=
  match names with
  | [] => eret ([], 0)
  | name :: rest =>
      let p := tree_root ++ [name] in
      st <- io (FsSymlinkMetadata p) ;;
      let is_release_link := at_root && ((name =? "active") || (name =? "pending")) in
      let is_webhook_artifact := at_root && ((name =? "webhook.toml") || (name =? WEBHOOK_REVISIONS)) in
      if st_kind st =? KindSymlink
      then if is_release_link then managed_entries tree_root relative at_root policy rest else fail SeSymlinkBoundary
      else if is_webhook_artifact then managed_entries tree_root relative at_root policy rest
      else
        let temporary := if exact_internal_temp_name name then 1 else 0 in
        match st_kind st with
        | KindDirectory =>
            check_private euid p true ;;;
            others <- managed_entries tree_root relative at_root policy rest ;;
            eret (p :: others.1, temporary + others.2)
        | _ =>
            check_managed_tree_file p (relative ++ [name]) (match policy with DisposableAppTemp => true | Strict => false end) ;;;
            others <- managed_entries tree_root relative at_root policy rest ;;
            eret (others.1, temporary + others.2)
        end
  end.

(** [while let Some(directory) = pending.pop()]: the stack has its top first. *)
Fixpoint managed_tree (fuel : nat) (tree_root : path) (app_depth : nat) (policy : ManagedTreePolicy)
    (pending : list path) (temporary_artifacts : nat) : store nat :=
  match pending with
  | [] => eret temporary_artifacts
  | directory :: rest =>
      match fuel with
      | 0 => OutOfFuel
      | S fuel' =>
          names <- io (FsReadDir directory) ;;
          found <- managed_entries directory (drop app_depth directory) (bool_decide (directory = tree_root)) policy names ;;
          managed_tree fuel' tree_root app_depth policy (reverse found.1 ++ rest) (temporary_artifacts + found.2)
      end
  end.

Definition validate_managed_tree (tree_root : path) (app_depth : nat) (policy : ManagedTreePolicy) : store nat :=
  managed_tree tree_fuel tree_root app_depth policy [tree_root] 0.

(** ** Documents *)

Definition read_toml_contents (directory : path) (name : string) (missing_code invalid_code : string)
    : store (result string string) :=
  Vis (FsSymlinkMetadata (directory ++ [name])) (fun r => match r with
    | Err NotFound => issue missing_code
    | Err kind => fail (SeIo kind)
    | Ok _ =>
        check_private euid (directory ++ [name]) false ;;;
        Vis (FsReadToString directory name) (fun r => match r with
          | Ok contents => cret contents
          | Err NotFound => issue missing_code
          | Err InvalidData => issue invalid_code
          | Err kind => fail (SeIo kind)
          end)
    end).

Definition read_toml {A} (from_toml : string -> option A) (directory : path) (name : string)
    (missing_code invalid_code : string) : store (result string A) :=
  cbind (read_toml_contents directory name missing_code invalid_code) (fun contents =>
  match from_toml contents with Some value => cret value | None => issue invalid_code end).

Definition read_release_toml (directory : path) : store (result string ReleaseV2) :=
  read_toml release_of_toml directory "release.toml" "RELEASE_HEADER_MISSING" "RELEASE_HEADER_INVALID".

(** The directory of a release, by the application's. *)
Definition release_directory (app : path) (release_id : Uuid) : path := app ++ ["releases"; uuid_to_string release_id].

Definition supported_schema (version : Z) : bool := (3 <=? version)%Z && (version <=? 6)%Z.

Definition read_release_header (app : path) (release_id app_id : Uuid) : store (result string ReleaseHeader) :=
  let directory := release_directory app release_id in
  cbind (read_toml release_header_of_toml directory "release.toml" "RELEASE_HEADER_MISSING" "RELEASE_HEADER_INVALID")
    (fun release =>
  if (rh_id release ≠? release_id) || (rh_app_id release ≠? app_id)
     || negb (validate_runnable_image (rh_runnable_image_ref release))
  then issue "RELEASE_HEADER_INVALID"
  else if negb (supported_schema (rh_schema_version release)) then issue "RELEASE_SCHEMA_UNSUPPORTED"
  else match as_integrity_key self with
       | None => issue "RELEASE_INTEGRITY_UNVERIFIED"
       | Some key =>
           cbind (read_release_toml directory) (fun value =>
           let value := apply_schema_defaults value in
           if sign value key ≠? rl_integrity_hmac value then issue "RELEASE_INTEGRITY_INVALID" else cret release)
       end).

Definition load_revision (app : path) (revision : Uuid) : store LoadedRevision :=
  match as_integrity_key self with
  | Some key => load_verified euid app revision key
  | None => load euid app revision
  end.

(** [match load_revision(..)] where a revision that is damaged, or has another
    digest than expected, is an issue. *)
Definition expect_revision {A} (app : path) (revision : Uuid) (expected_hash : string) (invalid : string)
    (missing : option string) (k : LoadedRevision -> store (result string A)) : store (result string A) :=
  outcome <- attempt (load_revision app revision) ;;
  match outcome with
  | Ok loaded => if cm_config_sha256 (lv_metadata loaded) =? expected_hash then k loaded else issue invalid
  | Err SeContentInvalid => issue invalid
  | Err (SeIo NotFound) => match missing with Some code => issue code | None => fail (SeIo NotFound) end
  | Err error => fail error
  end.

(** ** Links *)

Definition validate_release_link_path (app : path) (name : string) : store (result string (option Uuid)) :=
  Vis (FsSymlinkMetadata (app ++ [name])) (fun r => match r with
    | Err NotFound => cret None
    | Err kind => fail (SeIo kind)
    | Ok st =>
        lift (refuse_if (st_kind st ≠? KindSymlink) SeSymlinkBoundary) ;;;
        target <- io (FsReadLink app name) ;;
        release_id <- lift (match components target with
          | [Normal releases; Normal id] =>
              if releases =? "releases" then ok_or (uuid_parse id) SeSymlinkBoundary else Err SeSymlinkBoundary
          | _ => Err SeSymlinkBoundary
          end) ;;
        lift (refuse_if (target ≠? release_target release_id) SeSymlinkBoundary) ;;;
        Vis (FsSymlinkMetadata (release_directory app release_id)) (fun r => match r with
          | Ok st =>
              match st_kind st with
              | KindSymlink => fail SeSymlinkBoundary
              | KindDirectory => check_private euid (release_directory app release_id) true ;;; cret (Some release_id)
              | KindFile => issue "RELEASE_TARGET_INVALID"
              end
          | Err NotFound => issue "RELEASE_TARGET_MISSING"
          | Err kind => fail (SeIo kind)
          end)
    end).

(** ** Releases *)

(** What a panic of [generate] or an error of [matches_canonical] leads to. *)
Definition canonical_or_invalid (outcome : option (result unit bool)) : result StoreError bool :=
  match outcome with Some (Ok canonical) => Ok canonical | Some (Err _) | None => Err SeContentInvalid end.

Definition validate_v2_release (app : path) (app_id release_id : Uuid) : store (result string unit) :=
  match as_integrity_key self with
  | None => issue "RELEASE_INTEGRITY_UNVERIFIED"
  | Some key =>
      let directory := release_directory app release_id in
      cbind (read_release_toml directory) (fun value =>
      let release := apply_schema_defaults value in
      if negb (release_schema_supported (rl_schema_version release) (rl_compose_schema_version release))
         || (rl_app_id release ≠? app_id) || (rl_id release ≠? release_id)
         || (sign release key ≠? rl_integrity_hmac release)
      then issue "RELEASE_INTEGRITY_INVALID"
      else expect_revision app (rl_config_revision release) (rl_config_sha256 release)
             "RELEASE_CONFIG_REVISION_INVALID" None (fun loaded =>
      cbind (read_toml metadata_of_toml app "app.toml" "APP_HEADER_MISSING" "APP_HEADER_INVALID") (fun header =>
      binds <- ask FsBindHost ;;
      match normalize_verified canonical_json binds.1 loaded (am_display_name header) (rl_source_image_ref release)
              (rl_credential_ref release) (am_auto_deploy_enabled header) (am_poll_interval_seconds header) key binds.2 with
      | Err _ => issue "RELEASE_CONFIG_REVISION_INVALID"
      | Ok draft =>
          if rl_stop_grace_period_seconds release ≠? cm_stop_grace_period_seconds (lv_metadata loaded)
          then issue "RELEASE_CONFIG_REVISION_INVALID"
          else Vis (FsReadToString directory "compose.yaml") (fun r => match r with
            | Err NotFound => issue "RELEASE_COMPOSE_MISSING"
            | Err kind => fail (SeIo kind)
            | Ok compose =>
                canonical <- lift (canonical_or_invalid
                  (matches_canonical (release_compose_input self header app_id release_id release draft) true
                     (rl_compose_schema_version release) (rl_compose_sha256 release) compose)) ;;
                if canonical : bool then cret tt else issue "RELEASE_COMPOSE_INVALID"
            end)
      end)))
  end.

(** One entry of [releases]: the revision it refers to, with its digest. *)
Definition collect_release (app : path) (app_id : Uuid) (name : string)
    : store (result string (option (Uuid * string))) :=
  let p := app ++ ["releases"; name] in
  st <- io (FsSymlinkMetadata p) ;;
  if exact_internal_temp_name name then
    lift (refuse_if (st_kind st ≠? KindDirectory) SeSymlinkBoundary) ;;;
    check_private euid p true ;;;
    validate_managed_tree p (length app) Strict ;;;
    cret None
  else if st_kind st =? KindSymlink then fail SeSymlinkBoundary
  else if st_kind st ≠? KindDirectory then issue "RELEASE_DIRECTORY_INVALID"
  else match uuid_parse name with
  | None => issue "RELEASE_DIRECTORY_ID_INVALID"
  | Some release_id =>
      if name ≠? uuid_to_string release_id then issue "RELEASE_DIRECTORY_ID_NON_CANONICAL"
      else
        check_private euid p true ;;;
        validate_managed_tree p (length app) Strict ;;;
        cbind (read_release_header app release_id app_id) (fun release =>
        if negb (supported_schema (rh_schema_version release)) then issue "RELEASE_SCHEMA_UNSUPPORTED"
        else cbind (validate_v2_release app app_id release_id) (fun _ =>
        match rh_config_revision release, rh_config_sha256 release with
        | Some revision, Some hash => cret (Some (revision, hash))
        | None, None => cret None
        | _, _ => issue "RELEASE_HEADER_INVALID"
        end))
  end.

Fixpoint collect_releases (app : path) (app_id : Uuid) (names : list string) (references : gmap Uuid string)
    : store (result string (gmap Uuid string)) :=
  match names with
  | [] => cret references
  | name :: rest =>
      cbind (collect_release app app_id name) (fun found =>
      match found with
      | Some (revision, hash) =>
          if is_some_and (references !! revision) (fun previous => previous ≠? hash)
          then issue "RELEASE_CONFIG_REVISION_INVALID"
          else collect_releases app app_id rest (<[revision := hash]> references)
      | None => collect_releases app app_id rest references
      end)
  end.

Definition collect_release_revisions (app : path) (app_id : Uuid) : store (result string (gmap Uuid string)) :=
  names <- io (FsReadDir (app ++ ["releases"])) ;;
  collect_releases app app_id names ∅.

(** ** Applications *)

(** The consistency the scan requires of [app.toml]. *)
Definition header_valid (schema_version : Z) (header : AppMetadata) : bool :=
  valid_metadata_identity_versions schema_version (am_resource_name_schema_version header)
  && validate_slug_for_resource_schema (am_slug header) (am_resource_name_schema_version header)
  && negb (str_is_empty (trim (am_display_name header)))
  && (60 <=? am_poll_interval_seconds header)%Z && (am_poll_interval_seconds header <=? 86400)%Z
  && (am_created_at header <=? am_updated_at header)%Z.

Definition draft_fields_valid (header : AppMetadata) (active pending : option Uuid) : bool :=
  Bool.eqb (is_none (am_draft_revision header)) (is_none (am_draft_config_sha256 header))
  && negb (is_none (am_draft_revision header)
           && (is_some (am_discovery_image_ref header) || is_some (am_credential_ref header)
               || (am_desired_state header ≠? Stopped) || am_auto_deploy_enabled header
               || is_some active || is_some pending)).

Definition scan_draft (app : path) (header : AppMetadata) : store (result string (option DraftResponse)) :=
  match am_draft_revision header, am_draft_config_sha256 header, am_discovery_image_ref header with
  | None, None, None => cret None
  | Some revision, Some expected_hash, Some image_ref =>
      expect_revision app revision expected_hash "CONFIG_REVISION_INVALID" (Some "CONFIG_REVISION_MISSING")
        (fun loaded =>
      let response := draft_response loaded image_ref (am_credential_ref header) (am_auto_deploy_enabled header)
                        (am_poll_interval_seconds header) in
      match as_integrity_key self with
      | None => cret (Some response)
      | Some key =>
          binds <- ask FsBindHost ;;
          match normalize_verified canonical_json binds.1 loaded (am_display_name header) image_ref
                  (am_credential_ref header) (am_auto_deploy_enabled header) (am_poll_interval_seconds header) key binds.2 with
          | Ok _ => cret (Some response)
          | Err _ => issue "CONFIG_REVISION_INVALID"
          end
      end)
  | _, _, _ => issue "APP_HEADER_INVALID"
  end.

Definition scan_releases (app : path) : store (result string unit) :=
  Vis (FsSymlinkMetadata (app ++ ["releases"])) (fun r => match r with
    | Ok st => if st_kind st =? KindDirectory then check_private euid (app ++ ["releases"]) true ;;; cret tt
               else issue "RELEASES_DIRECTORY_INVALID"
    | Err NotFound => issue "RELEASES_DIRECTORY_MISSING"
    | Err kind => fail (SeIo kind)
    end).

(** Every revision a release refers to. The source walks a hash map; the order
    is that of the identifiers here. *)
Fixpoint check_release_revisions (app : path) (revisions : list (Uuid * string)) : store (result string unit) :=
  match revisions with
  | [] => cret tt
  | (revision, expected_hash) :: rest =>
      expect_revision app revision expected_hash "RELEASE_CONFIG_REVISION_INVALID"
        (Some "RELEASE_CONFIG_REVISION_MISSING") (fun _ => check_release_revisions app rest)
  end.

Definition scan_link (app : path) (app_id : Uuid) (link : option Uuid) : store (result string (option ReleaseHeader)) :=
  match link with
  | Some release_id => cbind (read_release_header app release_id app_id) (fun release => cret (Some release))
  | None => cret None
  end.

Definition load_network_plan (app : path) (revision : option Uuid) : store (option NetworkPlan) :=
  match revision with
  | None => eret None
  | Some revision =>
      loaded <- load_revision app revision ;;
      let m := lv_metadata loaded in
      lift (match network_plan (cm_owned_default_network m) (cm_service_discovery_enabled m) (cm_networks m) with
            | Ok (Some plan) => Ok (Some plan)
            | Ok None | Err _ => Err SeContentInvalid
            end)
  end.

Definition validate_active_compose (app_directory : path) (app : AppMetadata) (release : ReleaseHeader)
    (revision_id : Uuid) (expected_hash : string) : store (result string unit) :=
  if negb (validate_runnable_image (rh_runnable_image_ref release)) then issue "ACTIVE_RELEASE_IMAGE_INVALID"
  else match as_integrity_key self with
  | None => cret tt
  | Some key =>
      expect_revision app_directory revision_id expected_hash "ACTIVE_CONFIG_REVISION_INVALID"
        (Some "ACTIVE_CONFIG_REVISION_MISSING") (fun loaded =>
      discovery_image_ref <- lift (ok_or (am_discovery_image_ref app) SeContentInvalid) ;;
      binds <- ask FsBindHost ;;
      match normalize_verified canonical_json binds.1 loaded (am_display_name app) discovery_image_ref
              (am_credential_ref app) (am_auto_deploy_enabled app) (am_poll_interval_seconds app) key binds.2 with
      | Err _ => issue "ACTIVE_CONFIG_REVISION_INVALID"
      | Ok draft =>
          Vis (FsReadToString (release_directory app_directory (rh_id release)) "compose.yaml") (fun r => match r with
            | Err NotFound => issue "ACTIVE_COMPOSE_MISSING"
            | Err kind => fail (SeIo kind)
            | Ok actual =>
                let input := MkComposeInput
                  (MkAppResourceIdentity (am_id app) (am_slug app) (am_resource_name_schema_version app)) (rh_id release)
                  (rh_runnable_image_ref release)
                  (path_join (path_join (path_join (as_canonical_apps_directory self) (uuid_to_string (am_id app)))
                                "config-revisions") (uuid_to_string revision_id))
                  draft (3 <=? rh_compose_schema_version release)%Z in
                canonical <- lift (canonical_or_invalid
                  (matches_canonical input true (rh_compose_schema_version release) (rh_compose_sha256 release) actual)) ;;
                if canonical : bool then cret tt else issue "ACTIVE_COMPOSE_INVALID"
            end)
      end)
  end.

(** The active release's revision, and its document. *)
Definition scan_active (app : path) (header : AppMetadata) (active : option ReleaseHeader) : store (result string unit) :=
  match active ≫= rh_config_revision, active ≫= rh_config_sha256, active with
  | Some revision, Some hash, Some release => validate_active_compose app header release revision hash
  | _, _, _ => cret tt
  end.

Definition scan_active_revision (app : path) (active : option ReleaseHeader) : store (result string unit) :=
  match active ≫= rh_config_revision with
  | None => cret tt
  | Some revision =>
      match active ≫= rh_config_sha256 with
      | Some hash => expect_revision app revision hash "ACTIVE_CONFIG_REVISION_INVALID"
                       (Some "ACTIVE_CONFIG_REVISION_MISSING") (fun _ => cret tt)
      | None =>
          outcome <- attempt (load_revision app revision) ;;
          match outcome with
          | Ok _ | Err SeContentInvalid => issue "ACTIVE_CONFIG_REVISION_INVALID"
          | Err (SeIo NotFound) => issue "ACTIVE_CONFIG_REVISION_MISSING"
          | Err error => fail error
          end
      end
  end.

Definition recovered (header : AppMetadata) (active pending : option ReleaseHeader)
    (active_network_plan pending_network_plan : option NetworkPlan) (draft : option DraftResponse) : RecoveredApp :=
  MkRecoveredApp (am_id header) (am_slug header) (am_display_name header) (am_resource_name_schema_version header)
    (project_name_of header) (rh_id <$> active) (rh_runnable_image_ref <$> active) (active ≫= rh_config_revision)
    (active ≫= rh_config_sha256) active_network_plan (rh_id <$> pending) (rh_runnable_image_ref <$> pending)
    (pending ≫= rh_config_revision) pending_network_plan (am_discovery_image_ref header) (am_draft_revision header)
    (am_draft_config_sha256 header) (am_desired_state header) (am_auto_deploy_enabled header)
    (am_poll_interval_seconds header) (Some (am_last_operation_id header)) draft (am_updated_at header).

Definition scan_app (app : path) (directory_id : Uuid) (active pending : option Uuid)
    : store (result string RecoveredApp) :=
  cbind (read_toml_contents app "app.toml" "APP_HEADER_MISSING" "APP_HEADER_INVALID") (fun contents =>
  match app_schema_of_toml contents with
  | None => issue "APP_HEADER_INVALID"
  | Some schema_version =>
  if negb ((schema_version =? 2%Z) || (schema_version =? 3%Z)) then issue "APP_SCHEMA_UNSUPPORTED"
  else match metadata_of_toml contents with
  | None => issue "APP_HEADER_INVALID"
  | Some header =>
  if am_id header ≠? directory_id then issue "APP_ID_MISMATCH"
  else if negb (header_valid schema_version header) then issue "APP_HEADER_INVALID"
  else if negb (draft_fields_valid header active pending) then issue "APP_HEADER_INVALID"
  else
    cbind (scan_draft app header) (fun draft =>
    cbind (scan_releases app) (fun _ =>
    cbind (collect_release_revisions app directory_id) (fun release_revisions =>
    cbind (check_release_revisions app (map_to_list release_revisions)) (fun _ =>
    cbind (scan_link app directory_id active) (fun active =>
    cbind (scan_link app directory_id pending) (fun pending =>
    cbind (scan_active_revision app active) (fun _ =>
    active_network_plan <- load_network_plan app (active ≫= rh_config_revision) ;;
    pending_network_plan <- load_network_plan app (pending ≫= rh_config_revision) ;;
    cbind (scan_active app header active) (fun _ =>
    cret (recovered header active pending active_network_plan pending_network_plan draft)))))))))
  end
  end).
End scan.
