(* ===== verification/CleanupStore.v ===== *)
(** * CleanupStore: artifacts set aside for removal

    [src/app_store/cleanup.rs]: a cleanup operation owns a directory below
    [.cleanup-trash] with a signed marker of what it may take; artifacts are
    renamed into its payload and removed once the operation is recorded as
    complete. One definition per function, over the calls of [FileSystem]. *)

From S2P Require Import Prelude Text WebhookProtocol Ingress Reference Models Effects Codec Names Drafts Compose FileSystem StoreBase ConfigRevision ReleaseStore AppDirectories WebhookStore Recovery.
From Stdlib Require Import Ascii.

Inductive CleanupTempLocation := AppsRoot | AppRoot | Releases | ConfigRevisions.

Inductive CleanupArtifact :=
| CaRelease (app_id release_id config_revision_id : Uuid)
| CaConfigRevision (app_id revision_id : Uuid)
| CaTemporary (app_id : option Uuid) (location : CleanupTempLocation) (name : string).

#[export] Instance CleanupTempLocation_eq_dec : EqDecision CleanupTempLocation.
Proof. solve_decision. Defined.
#[export] Instance CleanupArtifact_eq_dec : EqDecision CleanupArtifact.
Proof. solve_decision. Defined.

Definition artifact_app_id (a : CleanupArtifact) : option Uuid :=
  match a with
  | CaRelease app_id _ _ | CaConfigRevision app_id _ => Some app_id
  | CaTemporary app_id _ _ => app_id
  end.

Definition public_id {UT : UuidText} (a : CleanupArtifact) : string :=
  match a with
  | CaRelease _ release_id _ => uuid_to_string release_id
  | CaConfigRevision _ revision_id => uuid_to_string revision_id
  | CaTemporary _ _ name => name
  end.

Definition kind_name (a : CleanupArtifact) : string :=
  match a with CaRelease _ _ _ => "release" | CaConfigRevision _ _ => "config_revision" | CaTemporary _ _ _ => "temporary" end.

(** The derived order: variants, then fields. *)
Definition location_rank (l : CleanupTempLocation) : N :=
  match l with AppsRoot => 0 | AppRoot => 1 | Releases => 2 | ConfigRevisions => 3 end.

Record CleanupMarker := MkCleanupMarker {
  mk_schema_version : Z;
  mk_operation_id : Uuid;
  mk_plan_hash : string;
  mk_items : list CleanupArtifact;
  mk_integrity_hmac : string;
}.

(** The marker as a document, and the document its signature covers. *)
Class CleanupText := {
  cleanup_marker_to_toml : CleanupMarker -> string;
  cleanup_marker_of_toml : string -> option CleanupMarker;
  marker_text_round_trip m : cleanup_marker_of_toml (cleanup_marker_to_toml m) = Some m;
  signed_marker_toml : Z -> Uuid -> string -> list CleanupArtifact -> string;
}.

Inductive DetachResult := Detached | AlreadyDetached | ConfirmedMissing | ConfirmedRetained.

#[export] Instance DetachResult_eq_dec : EqDecision DetachResult.
Proof. solve_decision. Defined.

Definition CLEANUP_TRASH_DIRECTORY : string := ".cleanup-trash".
Definition MAX_CLEANUP_ITEMS : nat := 100.

Definition valid_temp_name (location : CleanupTempLocation) (name : string) : bool :=
  match location with
  | AppsRoot => exact_hex_suffix ".solodock-tmp-app-" name || exact_internal_temp_name name
  | AppRoot | Releases => exact_internal_temp_name name
  | ConfigRevisions => exact_hex_suffix ".solodock-config-tmp-" name || exact_internal_temp_name name
  end.

Definition strip_suffix (suffix s : string) : option string :=
  let n := String.length s - String.length suffix in
  if (String.length suffix <=? String.length s)%nat && (str_drop n s =? suffix) then Some (str_take n s) else None.

Definition u64_max : Z := 18446744073709551615.

Section cleanup.
Context {UT : UuidText} {ST : StoreText} {CR : Crypto} {CT : CleanupText}.
Context (euid : Z) (self : AppStore).
(** How many objects one artifact may have. *)
Context (tree_fuel : nat).

Abbreviation store A := (eprog fsev StoreError A).

Definition sign_marker (marker : CleanupMarker) (key : string) : string :=
  hex (hmac_sha256 key (signed_marker_toml (mk_schema_version marker) (mk_operation_id marker) (mk_plan_hash marker)
                          (mk_items marker))).

Definition integrity_key : store string := lift (ok_or (as_integrity_key self) SeContentInvalid).

(** ** Paths *)

Definition trash_root : path := [CLEANUP_TRASH_DIRECTORY].
Definition retired_name (operation_id : Uuid) : string := uuid_to_string operation_id +:+ ".retired.toml".
Definition cleanup_retired_marker_path (operation_id : Uuid) : path := trash_root ++ [retired_name operation_id].
Definition cleanup_tombstone_path (operation_id : Uuid) : path := trash_root ++ [uuid_to_string operation_id].
Definition payload_path (operation_id : Uuid) : path := cleanup_tombstone_path operation_id ++ ["payload"].

Definition retired_marker_operation (name : string) : option Uuid :=
  raw ← strip_suffix ".retired.toml" name; canonical_uuid raw.

(** The directory of an artifact and its name there. *)
Definition artifact_location (a : CleanupArtifact) : result StoreError (path * string) :=
  match a with
  | CaRelease app_id release_id _ => Ok (app_directory app_id ++ ["releases"], uuid_to_string release_id)
  | CaConfigRevision app_id revision_id => Ok (app_directory app_id ++ ["config-revisions"], uuid_to_string revision_id)
  | CaTemporary app_id location name =>
      refuse_if (negb (valid_temp_name location name)) SeContentInvalid ;;
      match app_id, location with
      | None, AppsRoot => Ok ([], name)
      | Some app_id, AppRoot => Ok (app_directory app_id, name)
      | Some app_id, Releases => Ok (app_directory app_id ++ ["releases"], name)
      | Some app_id, ConfigRevisions => Ok (app_directory app_id ++ ["config-revisions"], name)
      | _, _ => Err SeContentInvalid
      end
  end.

Definition cleanup_source_path (a : CleanupArtifact) : store (path * string) :=
  source <- lift (artifact_location a) ;;
  check_private_tree euid [] source.1 true ;;;
  eret source.

(** ** Trees *)

(** [validate_cleanup_source]: a tree of private directories and files. *)
Fixpoint private_entries (directory : path) (names : list string) : store (list path) :=
  match names with
  | [] => eret []
  | name :: rest =>
      let p := directory ++ [name] in
      st <- io (FsSymlinkMetadata p) ;;
      match st_kind st with
      | KindSymlink => fail SeSymlinkBoundary
      | KindDirectory => check_private euid p true ;;; others <- private_entries directory rest ;; eret (p :: others)
      | KindFile => check_private euid p false ;;; private_entries directory rest
      end
  end.

Fixpoint private_tree (fuel : nat) (pending : list path) : store unit :=
  match pending with
  | [] => eret tt
  | directory :: rest =>
      match fuel with
      | 0 => OutOfFuel
      | S fuel' =>
          names <- io (FsReadDir directory) ;;
          found <- private_entries directory names ;;
          private_tree fuel' (reverse found ++ rest)
      end
  end.

Definition validate_cleanup_source (p : path) : store unit :=
  st <- io (FsSymlinkMetadata p) ;;
  match st_kind st with
  | KindSymlink => fail SeSymlinkBoundary
  | KindDirectory => check_private euid p true ;;; private_tree tree_fuel [p]
  | KindFile => check_private euid p false
  end.

(** The path a tree is classified by, and whether it is disposable. *)
Definition logical_root (a : CleanupArtifact) : path * bool :=
  match a with
  | CaConfigRevision _ revision_id => (["config-revisions"; uuid_to_string revision_id], false)
  | CaTemporary _ ConfigRevisions name => (["config-revisions"; name], false)
  | CaTemporary _ AppsRoot name =>
      if starts_with ".solodock-tmp-app-" name then ([], true) else (["private-artifact"], false)
  | _ => (["private-artifact"], false)
  end.

Fixpoint artifact_bytes (fuel : nat) (disposable : bool) (pending : list (path * path)) (total : Z) : store Z :=
  match pending with
  | [] => eret total
  | (physical, logical) :: rest =>
      match fuel with
      | 0 => OutOfFuel
      | S fuel' =>
          st <- io (FsSymlinkMetadata physical) ;;
          match st_kind st with
          | KindSymlink => fail SeSymlinkBoundary
          | KindDirectory =>
              check_private euid physical true ;;;
              names <- io (FsReadDir physical) ;;
              artifact_bytes fuel' disposable
                (reverse (map (fun name => (physical ++ [name], logical ++ [name])) names) ++ rest) total
          | KindFile =>
              check_managed_tree_file euid physical logical disposable ;;;
              len <- io (FsLength physical) ;;
              lift (refuse_if (u64_max <? total + len)%Z SeContentInvalid) ;;;
              artifact_bytes fuel' disposable rest (total + len)%Z
          end
      end
  end.

Definition logical_artifact_bytes (p : path) (a : CleanupArtifact) : store Z :=
  artifact_bytes tree_fuel (logical_root a).2 [(p, (logical_root a).1)] 0.

(** ** Markers *)

(** The item a payload entry stands for: its name is the ordinal as printed. *)
Definition payload_item (items : list CleanupArtifact) (name : string) : option CleanupArtifact :=
  ordinal ← parse_unsigned u64_max name;
  if pretty ordinal =? name then items !! Z.to_nat ordinal else None.

Fixpoint check_payload_entries (payload : path) (items : list CleanupArtifact) (names : list string) : store unit :=
  match names with
  | [] => eret tt
  | name :: rest =>
      item <- lift (ok_or (payload_item items name) SeContentInvalid) ;;
      logical_artifact_bytes (payload ++ [name]) item ;;;
      check_payload_entries payload items rest
  end.

Fixpoint check_payload_items (payload : path) (ordinal : nat) (items : list CleanupArtifact) : store unit :=
  match items with
  | [] => eret tt
  | item :: rest =>
      let p := payload ++ [pretty (Z.of_nat ordinal)] in
      Vis (FsSymlinkMetadata p) (fun r => match r with
        | Ok _ => logical_artifact_bytes p item ;;; eret tt
        | Err NotFound => eret tt
        | Err kind => fail (SeIo kind)
        end) ;;;
      check_payload_items payload (S ordinal) rest
  end.

Definition check_payload (operation_id : Uuid) (items : list CleanupArtifact) : store unit :=
  let payload := payload_path operation_id in
  Vis (FsSymlinkMetadata payload) (fun r => match r with
    | Err NotFound => eret tt
    | Err kind => fail (SeIo kind)
    | Ok _ =>
        check_private euid payload true ;;;
        names <- io (FsReadDir payload) ;;
        check_payload_entries payload items names ;;;
        check_payload_items payload 0 items
    end).

(** What is left of an operation whose marker is retired: nothing, or an empty
    directory. *)
Definition check_retired (operation_id : Uuid) : store unit :=
  let operation := cleanup_tombstone_path operation_id in
  Vis (FsSymlinkMetadata operation) (fun r => match r with
    | Err NotFound => eret tt
    | Err kind => fail (SeIo kind)
    | Ok _ =>
        check_private euid operation true ;;;
        names <- io (FsReadDir operation) ;;
        lift (refuse_if (negb (is_nil names)) SeContentInvalid)
    end).

Definition read_cleanup_marker (operation_id : Uuid) : store CleanupMarker :=
  let operation := cleanup_tombstone_path operation_id in
  check_private euid trash_root true ;;;
  is_retired <- exists_ (cleanup_retired_marker_path operation_id) ;;
  let '(directory, name) := if is_retired : bool then (trash_root, retired_name operation_id)
                            else (operation, "marker.toml") in
  check_private euid (directory ++ [name]) false ;;;
  text <- io (FsReadToString directory name) ;;
  marker <- lift (ok_or (cleanup_marker_of_toml text) SeContentInvalid) ;;
  key <- integrity_key ;;
  lift (refuse_if ((mk_schema_version marker ≠? 1%Z) || (mk_operation_id marker ≠? operation_id)
                   || (MAX_CLEANUP_ITEMS <? length (mk_items marker))%nat
                   || (mk_integrity_hmac marker ≠? sign_marker marker key)) SeContentInvalid) ;;;
  (if is_retired then check_retired operation_id
   else
     check_private euid operation true ;;;
     names <- io (FsReadDir operation) ;;
     lift (refuse_if (existsb (fun name => negb ((name =? "marker.toml") || (name =? "payload"))) names)
             SeContentInvalid) ;;;
     check_payload operation_id (mk_items marker)) ;;;
  eret marker.

(** ** Preparation *)

Definition remove_incomplete_preparation (temporary : string) : store unit :=
  Vis (FsSymlinkMetadata (trash_root ++ [temporary])) (fun r => match r with
    | Ok st =>
        lift (refuse_if (st_kind st ≠? KindDirectory) SeSymlinkBoundary) ;;;
        validate_cleanup_source (trash_root ++ [temporary]) ;;;
        remove_dir_all trash_root temporary ;;;
        sync_directory trash_root
    | Err NotFound => eret tt
    | Err kind => fail (SeIo kind)
    end).

Definition ensure_trash_root : store unit :=
  Vis (FsSymlinkMetadata trash_root) (fun r => match r with
    | Ok st => if st_kind st =? KindDirectory then check_private euid trash_root true else fail SeSymlinkBoundary
    | Err NotFound => create_dir [] CLEANUP_TRASH_DIRECTORY ;;; sync_directory []
    | Err kind => fail (SeIo kind)
    end).

Definition new_marker (operation_id : Uuid) (plan_hash : string) (items : list CleanupArtifact) (key : string)
    : CleanupMarker :=
  let marker := MkCleanupMarker 1 operation_id (hex plan_hash) items EmptyString in
  MkCleanupMarker 1 operation_id (hex plan_hash) items (sign_marker marker key).

(** [if result.is_err() { let _ = remove_dir_all(..); let _ = sync_directory(..); } result] *)
Definition undoing_preparation (result : store unit) (temporary : string) : store unit :=
  prog_bind result (fun r => match r with
    | Ok _ => eret tt
    | Err e => Vis (FsRemoveDirAll trash_root temporary) (fun _ => Vis (FsSyncDirectory trash_root) (fun _ => fail e))
    end).

Definition build_tombstone (operation_id : Uuid) (plan_hash : string) (items : list CleanupArtifact) (temporary : string)
    : store unit :=
  create_dir trash_root temporary ;;;
  create_dir (trash_root ++ [temporary]) "payload" ;;;
  key <- integrity_key ;;
  atomic_write (trash_root ++ [temporary]) "marker.toml"
    (cleanup_marker_to_toml (new_marker operation_id plan_hash items key)) 384 ;;;
  sync_directory (trash_root ++ [temporary]) ;;;
  rename_no_replace trash_root temporary trash_root (uuid_to_string operation_id) ;;;
  sync_directory trash_root.

Definition prepare_cleanup_tombstone (operation_id : Uuid) (plan_hash : string) (items : list CleanupArtifact) : store unit :=
  lift (refuse_if (MAX_CLEANUP_ITEMS <? length items)%nat SeContentInvalid) ;;;
  ensure_trash_root ;;;
  let operation := cleanup_tombstone_path operation_id in
  let temporary := temp_name operation_id in
  Vis (FsSymlinkMetadata operation) (fun r => match r with
    | Ok _ =>
        remove_incomplete_preparation temporary ;;;
        marker <- read_cleanup_marker operation_id ;;
        lift (refuse_if ((mk_plan_hash marker ≠? hex plan_hash) || (mk_items marker ≠? items)) SeContentInvalid) ;;;
        sync_directory (payload_path operation_id) ;;;
        sync_directory operation ;;;
        sync_directory trash_root ;;;
        sync_directory []
    | Err NotFound =>
        remove_incomplete_preparation temporary ;;;
        undoing_preparation (build_tombstone operation_id plan_hash items temporary) temporary
    | Err kind => fail (SeIo kind)
    end).

(** ** Detaching an artifact *)

Definition file_identity_if_exists (p : path) : store (option FileId) :=
  Vis (FsIdentity p) (fun r => match r with
    | Ok id => eret (Some id)
    | Err NotFound => eret None
    | Err kind => fail (SeIo kind)
    end).

Definition sync_cleanup_rename (source destination : path) : store unit :=
  sync_directory source ;;; sync_directory destination.

Definition detach_cleanup_artifact (operation_id : Uuid) (ordinal : nat) (a : CleanupArtifact) : store DetachResult :=
  marker <- read_cleanup_marker operation_id ;;
  lift (refuse_if (mk_items marker !! ordinal ≠? Some a) SeContentInvalid) ;;;
  source <- cleanup_source_path a ;;
  let source_path := source.1 ++ [source.2] in
  let payload := payload_path operation_id in
  let name := pretty (Z.of_nat ordinal) in
  source_before <- file_identity_if_exists source_path ;;
  destination_before <- file_identity_if_exists (payload ++ [name]) ;;
  match source_before, destination_before with
  | None, Some _ =>
      logical_artifact_bytes (payload ++ [name]) a ;;;
      sync_cleanup_rename source.1 payload ;;;
      eret AlreadyDetached
  | None, None => eret ConfirmedMissing
  | Some _, Some _ => fail SeContentInvalid
  | Some source_identity, None =>
      logical_artifact_bytes source_path a ;;;
      identity <- io (FsIdentity source_path) ;;
      lift (refuse_if (identity ≠? source_identity) SeContentInvalid) ;;;
      prog_bind (rename_no_replace source.1 source.2 payload name) (fun r => match r with
        | Err error =>
            after_source <- file_identity_if_exists source_path ;;
            after_destination <- file_identity_if_exists (payload ++ [name]) ;;
            if (after_source =? Some source_identity) && is_none after_destination then eret ConfirmedRetained
            else if is_none after_source && (after_destination =? Some source_identity)
            then sync_cleanup_rename source.1 payload ;;; eret Detached
            else fail error
        | Ok _ =>
            after_source <- file_identity_if_exists source_path ;;
            lift (refuse_if (is_some after_source) SeContentInvalid) ;;;
            after_destination <- file_identity_if_exists (payload ++ [name]) ;;
            lift (refuse_if (after_destination ≠? Some source_identity) SeContentInvalid) ;;;
            sync_cleanup_rename source.1 payload ;;;
            eret Detached
        end)
  end.

Definition cleanup_artifact_is_detached (operation_id : Uuid) (ordinal : nat) (a : CleanupArtifact) : store bool :=
  marker <- read_cleanup_marker operation_id ;;
  lift (refuse_if (mk_items marker !! ordinal ≠? Some a) SeContentInvalid) ;;;
  source <- cleanup_source_path a ;;
  let destination := payload_path operation_id ++ [pretty (Z.of_nat ordinal)] in
  source_identity <- file_identity_if_exists (source.1 ++ [source.2]) ;;
  destination_identity <- file_identity_if_exists destination ;;
  match source_identity, destination_identity with
  | None, Some _ => logical_artifact_bytes destination a ;;; eret true
  | Some _, None => eret false
  | _, _ => fail SeContentInvalid
  end.

(** ** Retirement *)

(** [Err(NotFound) => {}] of a removal. *)
Definition unless_missing (r : result IoKind unit) : store unit :=
  match r with Ok _ | Err NotFound => eret tt | Err kind => fail (SeIo kind) end.

Definition retire_marker (operation_id : Uuid) : store unit :=
  let operation := cleanup_tombstone_path operation_id in
  Vis (FsRemoveDirAll operation "payload") (fun r => unless_missing r.1) ;;;
  sync_directory operation ;;;
  rename_no_replace operation "marker.toml" trash_root (retired_name operation_id).

Definition finalize_cleanup_tombstone (operation_id : Uuid) : store unit :=
  let operation := cleanup_tombstone_path operation_id in
  read_cleanup_marker operation_id ;;;
  retired <- exists_ (cleanup_retired_marker_path operation_id) ;;
  (if retired : bool then eret tt else retire_marker operation_id) ;;;
  sync_directory trash_root ;;;
  present <- exists_ operation ;;
  (if present : bool then sync_directory operation else eret tt) ;;;
  Vis (FsRemoveDir trash_root (uuid_to_string operation_id)) unless_missing ;;;
  sync_directory trash_root ;;;
  io (FsRemoveFile trash_root (retired_name operation_id)) ;;;
  sync_directory trash_root.

(** Nothing of the operation is left. *)
Definition require_missing (p : path) : store unit :=
  Vis (FsSymlinkMetadata p) (fun r => match r with Err NotFound => eret tt | _ => fail SeContentInvalid end).

Definition sync_cleanup_retirement (operation_id : Uuid) : store unit :=
  check_private euid trash_root true ;;;
  require_missing (cleanup_tombstone_path operation_id) ;;;
  require_missing (cleanup_retired_marker_path operation_id) ;;;
  sync_directory trash_root.

(** ** Listings *)

Fixpoint tombstone_operations (names : list string) : store (list Uuid) :=
  match names with
  | [] => eret []
  | name :: rest =>
      if exact_internal_temp_name name then
        st <- io (FsSymlinkMetadata (trash_root ++ [name])) ;;
        lift (refuse_if (st_kind st ≠? KindDirectory) SeSymlinkBoundary) ;;;
        validate_cleanup_source (trash_root ++ [name]) ;;;
        tombstone_operations rest
      else match retired_marker_operation name with
      | Some operation =>
          read_cleanup_marker operation ;;;
          others <- tombstone_operations rest ;;
          eret (operation :: others)
      | None =>
          st <- io (FsSymlinkMetadata (trash_root ++ [name])) ;;
          lift (refuse_if (st_kind st ≠? KindDirectory) SeSymlinkBoundary) ;;;
          operation <- lift (ok_or (canonical_uuid name) SeContentInvalid) ;;
          read_cleanup_marker operation ;;;
          others <- tombstone_operations rest ;;
          eret (operation :: others)
      end
  end.

(** A listing of the trash; nothing when there is none. *)
Definition list_trash (walk : list string -> store (list Uuid)) : store (list Uuid) :=
  Vis (FsReadDir trash_root) (fun r => match r with
    | Err NotFound => eret []
    | Err kind => fail (SeIo kind)
    | Ok names =>
        check_private euid trash_root true ;;;
        operations <- walk names ;;
        eret (sort_by N.leb operations)
    end).

(** [operations.dedup()] of the sorted list. *)
Fixpoint dedup (l : list Uuid) : list Uuid :=
  match l with
  | x :: (y :: _) as l' => if x =? y then dedup l' else x :: dedup l'
  | l => l
  end.

Definition cleanup_tombstones : store (list Uuid) :=
  operations <- list_trash tombstone_operations ;; eret (dedup operations).

Fixpoint preparation_operations (names : list string) : store (list Uuid) :=
  match names with
  | [] => eret []
  | name :: rest =>
      if negb (exact_internal_temp_name name) then preparation_operations rest
      else
        st <- io (FsSymlinkMetadata (trash_root ++ [name])) ;;
        lift (refuse_if (st_kind st ≠? KindDirectory) SeSymlinkBoundary) ;;;
        validate_cleanup_source (trash_root ++ [name]) ;;;
        operation <- lift (raw ← ok_or (strip_prefix ".solodock-tmp-" name) SeContentInvalid;
                           operation ← ok_or (uuid_parse raw) SeContentInvalid;
                           refuse_if (uuid_simple operation ≠? raw) SeContentInvalid ;;
                           Ok operation) ;;
        others <- preparation_operations rest ;;
        eret (operation :: others)
  end.

Definition cleanup_preparations : store (list Uuid) := list_trash preparation_operations.
End cleanup.
