(* ===== verification/Maintenance.v ===== *)
(** * Maintenance: tables and calls of cleanup, retention and unregistration

    [migrations/202609050001], [202609060001], [202609070001] and
    [202609090001], the statements of [src/storage_cleanup.rs],
    [src/cleanup_execution.rs], [src/retention.rs] and
    [src/app_unregistration.rs] on them, and programs that make file system
    calls and database calls. Columns that hold identifiers and instants are
    identifiers and instants, as in [Database]: every statement of the source
    writes the printed form of one. *)

From S2P Require Import Prelude Text Reference Models Effects Codec Names Drafts Database Ledger PollStates Idempotency FileSystem StoreBase CleanupStore.

(** ** Rows *)

Inductive UnregistrationSource := UsDeletion | UsOperatorRepair.
Inductive CleanupStatus := CsPlanned | CsRunning | CsCompletedWithFailures | CsCompleted.
Inductive ItemStatus := ItPlanned | ItDetached | ItFailed.
Inductive CleanupKind := CkArtifacts | CkImages.

#[export] Instance UnregistrationSource_eq_dec : EqDecision UnregistrationSource.
Proof. solve_decision. Defined.
#[export] Instance CleanupStatus_eq_dec : EqDecision CleanupStatus.
Proof. solve_decision. Defined.
#[export] Instance ItemStatus_eq_dec : EqDecision ItemStatus.
Proof. solve_decision. Defined.
#[export] Instance CleanupKind_eq_dec : EqDecision CleanupKind.
Proof. solve_decision. Defined.

Record UnregistrationRow := MkUnregistrationRow {
  un_app_id : Uuid;
  un_operation_id : Uuid;
  un_source : UnregistrationSource;
  un_completed_at : Time;
  un_finalized : bool;
}.

Record RetentionPolicy := MkRetentionPolicy {
  rt_enabled : bool;
  rt_keep_versions : Z;
  rt_revision : Uuid;
  rt_last_checked_at : option Time;
  rt_last_status : option string;
  rt_last_error_code : option string;
}.

Record CleanedReleaseRecord := MkCleanedReleaseRecord {
  cl_manifest_digest : string;
  cl_local_image_id : string;
  cl_platform_os : string;
  cl_platform_architecture : string;
  cl_platform_variant : option string;
}.

Record CleanupCandidate := MkCleanupCandidate {
  cc_artifact : CleanupArtifact;
  cc_estimated_logical_bytes : Z;
  cc_release_created_at : option Time;
  cc_release_record : option CleanedReleaseRecord;
}.

Inductive ProtectionReason :=
| PrActive | PrPending | PrCurrentDraft | PrRecentRollback | PrDeploymentRecovery | PrCleanupInProgress.

Record ProtectedArtifact := MkProtectedArtifact {
  pa_app_id : option Uuid;
  pa_artifact_kind : string;
  pa_artifact_id : string;
  pa_reason : ProtectionReason;
}.

Record CleanupPlan := MkCleanupPlan {
  cp_candidates : list CleanupCandidate;
  cp_protected : list ProtectedArtifact;
  cp_estimated_logical_bytes : Z;
}.

#[export] Instance RetentionPolicy_eq_dec : EqDecision RetentionPolicy.
Proof. solve_decision. Defined.
#[export] Instance CleanedReleaseRecord_eq_dec : EqDecision CleanedReleaseRecord.
Proof. solve_decision. Defined.
#[export] Instance ProtectionReason_eq_dec : EqDecision ProtectionReason.
Proof. solve_decision. Defined.

Record OperationRow := MkOperationRow {
  so_operation_id : Uuid;
  so_plan_hash : string;
  so_plan_json : string;
  so_status : CleanupStatus;
  so_created_at : Time;
  so_completed_at : option Time;
  so_retirement_pending : bool;
}.

#[export] Instance eta_OperationRow : Eta OperationRow := fun r =>
  MkOperationRow (so_operation_id r) (so_plan_hash r) (so_plan_json r) (so_status r) (so_created_at r)
    (so_completed_at r) (so_retirement_pending r).

Record ItemRow := MkItemRow {
  si_ordinal : Z;
  si_app_id : option Uuid;
  si_artifact_kind : string;
  si_artifact_id : string;
  si_config_revision_id : option Uuid;
  si_status : ItemStatus;
  si_error_code : option string;
}.

#[export] Instance eta_ItemRow : Eta ItemRow := fun r =>
  MkItemRow (si_ordinal r) (si_app_id r) (si_artifact_kind r) (si_artifact_id r) (si_config_revision_id r)
    (si_status r) (si_error_code r).

Record AuthorizationRow := MkAuthorizationRow {
  au_operation_id : Uuid;
  au_app_id : Uuid;
  au_policy_json : string;
  au_cleanup_kind : CleanupKind;
  au_plan_hash : string;
  au_result_json : option string;
  au_created_at : Time;
}.

#[export] Instance eta_AuthorizationRow : Eta AuthorizationRow := fun r =>
  MkAuthorizationRow (au_operation_id r) (au_app_id r) (au_policy_json r) (au_cleanup_kind r) (au_plan_hash r)
    (au_result_json r) (au_created_at r).

Record CleanedRow := MkCleanedRow {
  cd_operation_id : Uuid; cd_removed_at : Time; cd_record : CleanedReleaseRecord }.

(** The columns of [idempotency_records] a proof is read from. *)
Record ProofRow := MkProofRow {
  pf_route : string;
  pf_status : IdemStatus;
  pf_response_status : option Z;
  pf_response_body : option string;
  pf_updated_at : Time;
}.

(** ** Documents

    Plans, policies and answers are JSON. *)

(** [ApplyResponse] and one of its items. *)
Record ApplyItem := MkApplyItem {
  ai_app_id : option Uuid;
  ai_artifact_kind : string;
  ai_artifact_id : string;
  ai_retained : bool;
  ai_error_code : option string;
}.

Record ApplyResponse := MkApplyResponse {
  ar_operation_id : Uuid;
  ar_plan_hash : string;
  ar_status : CleanupStatus;
  ar_items : list ApplyItem;
}.

Class MaintenanceJson := {
  json : Type;
  #[global] json_eq_dec :: EqDecision json;
  json_parse : string -> option json;
  json_print : json -> string;
  json_round_trip j : json_parse (json_print j) = Some j;
  json_bool : string -> json -> option bool;
  json_text : string -> json -> option string;
  response_value : ApplyResponse -> json;
  plan_to_json : CleanupPlan -> string;
  plan_of_json : string -> option CleanupPlan;
  plan_round_trip p : plan_of_json (plan_to_json p) = Some p;
  policy_to_json : RetentionPolicy -> string;
  policy_of_json : string -> option RetentionPolicy;
  policy_round_trip p : policy_of_json (policy_to_json p) = Some p;
}.

(** ** Tables *)

Record Tables := MkTables {
  tb_records : gmap IdemKey IdemRow;
  tb_database : Database;
  tb_unregistrations : gmap Uuid UnregistrationRow;
  tb_retention : gmap Uuid RetentionPolicy;
  tb_operations : gmap Uuid OperationRow;
  tb_items : gmap Uuid (list ItemRow);
  tb_cleaned : gmap (Uuid * Uuid) CleanedRow;
  tb_authorizations : gmap Uuid AuthorizationRow;
}.

#[export] Instance eta_Tables : Eta Tables := fun r =>
  MkTables (tb_records r) (tb_database r) (tb_unregistrations r) (tb_retention r) (tb_operations r) (tb_items r)
    (tb_cleaned r) (tb_authorizations r).

Definition empty_tables : Tables := MkTables ∅ empty_database ∅ ∅ ∅ ∅ ∅ ∅.

(** ** Calls *)

Inductive dbev : Type -> Type :=
(** Proofs and receipts of deletions. *)
| DbProof (route : string) (operation_id : Uuid) : dbev (option ProofRow)
| DbAppProofs : dbev (list (string * Uuid * option string))
| DbPreserve (app_id operation_id : Uuid) : dbev (result IdempotencyError unit)
| DbMarkFinalized (app_id operation_id : Uuid) : dbev nat
| DbUnfinalized : dbev (list UnregistrationRow)
| DbUnregistrations : dbev (list UnregistrationRow)
| DbRepairAudits (app_id operation_id : Uuid) : dbev nat
(** What protects an artifact. *)
| DbDeployments : dbev (list DeploymentRecord)
| DbEnabledApps : dbev (list Uuid)
| DbRetention (app_id : Uuid) : dbev (option RetentionPolicy)
| DbOperations : dbev (list OperationRow)
| DbOperation (operation_id : Uuid) : dbev (option OperationRow)
| DbItems (operation_id : Uuid) : dbev (list ItemRow)
| DbOperationProof (operation_id : Uuid) : dbev (option ProofRow)
| DbRetiring : dbev (list Uuid)
| DbPendingOperations : dbev (list Uuid)
| DbAuthorization (operation_id : Uuid) : dbev (option AuthorizationRow)
(** Progress of an operation. *)
| DbSetRunning (operation_id : Uuid) : dbev unit
| DbItemStatus (operation_id : Uuid) (ordinal : nat) : dbev ItemStatus
| DbRecordDetached (operation_id : Uuid) (ordinal : nat) (candidate : CleanupCandidate) (now : Time) : dbev unit
| DbRecordFailure (operation_id : Uuid) (ordinal : nat) (code : string) : dbev nat
| DbFinish (operation_id : Uuid) (status : CleanupStatus) (now : Time) : dbev unit
| DbSetRetiring (operation_id : Uuid) (retiring : bool) : dbev unit
(** Automatic operations. *)
| DbPublishArtifacts (operation_id app_id : Uuid) (policy : RetentionPolicy) (plan : CleanupPlan) (plan_json plan_hash : string)
    (now : Time) : dbev unit
| DbPendingAuthorization (app_id : Uuid) (kind : CleanupKind) : dbev (option Uuid)
| DbCompleteAuthorization (operation_id : Uuid) (body : string) : dbev unit.

(** A file system call, or a database call that may fail. *)
Inductive mev : Type -> Type :=
| OnFiles {X} (e : fsev X) : mev X
| OnDb {X} (e : dbev X) : mev (option X).

(** A program of the store as part of one that also uses the database. *)
Fixpoint embed {A} (q : prog fsev A) : prog mev A :=
  match q with
  | Ret a => Ret a
  | Vis e k => Vis (OnFiles e) (fun x => embed (k x))
  | OutOfFuel => OutOfFuel
  end.

Definition files {E A} (f : StoreError -> E) (q : eprog fsev StoreError A) : eprog mev E A :=
  prog_bind (embed q) (fun r => Ret (map_err f r)).

(** [sqlx::query(..).await?] *)
Definition query {E X} (e : dbev X) (failed : E) : eprog mev E X :=
  Vis (OnDb e) (fun r => Ret (ok_or r failed)).

(** The file system calls of a trace. *)
Definition file_obs (o : obs mev) : option (obs fsev) :=
  match o with Obs e x => match e in mev X return X -> _ with OnFiles e => fun x => Some (Obs e x) | OnDb _ => fun _ => None end x end.

Definition files_of (tr : list (obs mev)) : list (obs fsev) := omap file_obs tr.

(** ** What the statements do *)

Section semantics.
Context {UT : UuidText} {TM : SqlTime} {MJ : MaintenanceJson}.

Definition valid_response (body : string) (app_id : Uuid) : bool :=
  match json_parse body with
  | Some value => (json_bool "unregistered" value =? Some true) && (json_text "app_id" value =? Some (uuid_to_string app_id))
  | None => false
  end.

Definition APP_ROUTES : string := "/api/v1/apps/".
Definition app_route (app_id : Uuid) : string := APP_ROUTES +:+ uuid_to_string app_id.

Definition proof_row (kv : IdemKey * IdemRow) : ProofRow :=
  MkProofRow kv.1.1.2 (ir_status kv.2) (ir_response_status kv.2) (ir_response_body kv.2) (ir_updated_at kv.2).

(** The records in the order of their row numbers. *)
Definition records_in_order (t : Tables) : list (IdemKey * IdemRow) :=
  sort_by (fun a b => (ir_rowid a.2 <=? ir_rowid b.2)%Z) (map_to_list (tb_records t)).

Definition admin_proof (route : string) (operation_id : Uuid) (t : Tables) : option ProofRow :=
  head (map proof_row (filter (fun kv => kv.1.1.1 = "admin" /\ kv.1.1.2 = route /\ ir_operation_id kv.2 = operation_id)
                         (records_in_order t))).

Definition exact_deletion (app_id : Uuid) (proof : ProofRow) : bool :=
  (pf_status proof =? IsSucceeded) && (pf_response_status proof =? Some 200%Z)
  && is_some_and (pf_response_body proof) (fun body => valid_response body app_id).

(** The receipt transaction of [preserve_proof]. *)
Definition preserve_tx (app_id operation_id : Uuid) (t : Tables) : result IdempotencyError Tables :=
  proof ← ok_or (admin_proof (app_route app_id) operation_id t) IeRecordInvalid;
  refuse_if (negb (exact_deletion app_id proof)) IeRecordInvalid ;;
  match tb_unregistrations t !! app_id with
  | Some row =>
      refuse_if ((un_operation_id row ≠? operation_id) || (un_source row ≠? UsDeletion)) IeRecordInvalid ;; Ok t
  | None =>
      (* [operation_id] is unique *)
      refuse_if (existsb (fun row => un_operation_id row =? operation_id) (map_to_list (tb_unregistrations t)).*2) IeDatabase ;;
      Ok (t <| tb_unregistrations :=
                 <[app_id := MkUnregistrationRow app_id operation_id UsDeletion (pf_updated_at proof) false]>
                   (tb_unregistrations t) |>)
  end.

Definition mark_finalized_row (app_id operation_id : Uuid) (t : Tables) : nat * Tables :=
  match tb_unregistrations t !! app_id with
  | Some row =>
      if (un_operation_id row =? operation_id) && (un_source row =? UsDeletion)
      then (1, t <| tb_unregistrations := <[app_id := MkUnregistrationRow (un_app_id row) (un_operation_id row)
                                                        (un_source row) (un_completed_at row) true]>
                                            (tb_unregistrations t) |>)
      else (0, t)
  | None => (0, t)
  end.

(** [ORDER BY created_at DESC, id DESC]. *)
Definition newest_first (a b : DeploymentRecord) : bool :=
  if text_before (dp_created_at b) (dp_created_at a) then true
  else if text_before (dp_created_at a) (dp_created_at b) then false
  else (dp_id b <=? dp_id a)%N.

Definition set_operation (operation_id : Uuid) (f : OperationRow -> OperationRow) (t : Tables) : Tables :=
  t <| tb_operations := alter f operation_id (tb_operations t) |>.

(** [UPDATE storage_cleanup_items .. WHERE operation_id=? AND ordinal=? AND status='planned']. *)
Definition is_planned_item (ordinal : nat) (row : ItemRow) : bool :=
  (si_ordinal row =? Z.of_nat ordinal)%Z && (si_status row =? ItPlanned).

Definition set_item (operation_id : Uuid) (ordinal : nat) (status : ItemStatus) (code : option string) (t : Tables)
    : nat * Tables :=
  let rows := tb_items t !!! operation_id in
  (length (filter (fun row => is_planned_item ordinal row = true) rows),
   t <| tb_items := <[operation_id := map (fun row => if is_planned_item ordinal row
          then row <| si_status := status |> <| si_error_code := code |> else row) rows]> (tb_items t) |>).

(** The transaction of [record_detached]. *)
Definition record_detached_tx (operation_id : Uuid) (ordinal : nat) (candidate : CleanupCandidate) (now : Time) (t : Tables)
    : option Tables :=
  let '(changed, t) := set_item operation_id ordinal ItDetached None t in
  if negb (changed =? 1)%nat then None
  else match cc_artifact candidate, cc_release_record candidate with
  | CaRelease app_id release_id _, Some record =>
      if is_some (tb_cleaned t !! (app_id, release_id)) then None
      else Some (t <| tb_cleaned := <[(app_id, release_id) := MkCleanedRow operation_id now record]> (tb_cleaned t) |>)
  | _, _ => Some t
  end.

Definition item_revision (a : CleanupArtifact) : option Uuid :=
  match a with
  | CaRelease _ _ revision_id | CaConfigRevision _ revision_id => Some revision_id
  | CaTemporary _ _ _ => None
  end.

Definition planned_item (app_id : option Uuid) (ordinal : nat) (candidate : CleanupCandidate) : ItemRow :=
  MkItemRow (Z.of_nat ordinal) app_id (kind_name (cc_artifact candidate)) (public_id (cc_artifact candidate))
    (item_revision (cc_artifact candidate)) ItPlanned None.

Definition kind_text (kind : CleanupKind) : string :=
  match kind with CkArtifacts => "artifacts" | CkImages => "images" end.

Definition automatic_audit (operation_id app_id : Uuid) (kind : CleanupKind) (policy : RetentionPolicy) (now : Time) : AuditEvent :=
  MkAuditEvent "system" operation_id "automatic_cleanup" (Some "app") (Some app_id) "planned"
    [("operation_id", Some (uuid_to_string operation_id)); ("kind", Some (kind_text kind));
     ("policy_revision", Some (uuid_to_string (rt_revision policy))); ("keep_versions", Some (pretty (rt_keep_versions policy)))] now.

(** The transaction of [publish] for artifacts. *)
Definition publish_tx (operation_id app_id : Uuid) (policy : RetentionPolicy) (plan : CleanupPlan)
    (plan_json plan_hash : string) (now : Time) (t : Tables) : Tables :=
  t <| tb_authorizations := <[operation_id := MkAuthorizationRow operation_id app_id (policy_to_json policy) CkArtifacts
                                                plan_hash None now]> (tb_authorizations t) |>
    <| tb_operations := <[operation_id := MkOperationRow operation_id plan_hash plan_json CsPlanned now None false]>
                          (tb_operations t) |>
    <| tb_items := <[operation_id := imap (planned_item (Some app_id)) (cp_candidates plan)]> (tb_items t) |>
    <| tb_database := insert_audit_event (automatic_audit operation_id app_id CkArtifacts policy now) (tb_database t) |>.

Definition oldest_authorization (a b : AuthorizationRow) : bool :=
  if text_before (au_created_at a) (au_created_at b) then true
  else if text_before (au_created_at b) (au_created_at a) then false
  else (au_operation_id a <=? au_operation_id b)%N.

Definition values_by_key {A} (m : gmap Uuid A) : list A :=
  map snd (sort_by (fun a b => (a.1 <=? b.1)%N) (map_to_list m)).

(** One statement or transaction; [None] when it fails. *)
Definition db_exec {X} (e : dbev X) (t : Tables) : option X * Tables :=
  match e in dbev X return option X * Tables with
  | DbProof route operation_id => (Some (admin_proof route operation_id t), t)
  | DbAppProofs =>
      (Some (map (fun kv => (kv.1.1.2, ir_operation_id kv.2, ir_response_body kv.2))
               (filter (fun kv => kv.1.1.1 = "admin" /\ ir_status kv.2 = IsSucceeded /\ ir_response_status kv.2 = Some 200%Z
                          /\ starts_with APP_ROUTES kv.1.1.2 = true) (records_in_order t))), t)
  | DbPreserve app_id operation_id =>
      match preserve_tx app_id operation_id t with Ok t' => (Some (Ok tt), t') | Err e => (Some (Err e), t) end
  | DbMarkFinalized app_id operation_id => let '(n, t) := mark_finalized_row app_id operation_id t in (Some n, t)
  | DbUnfinalized => (Some (filter (fun row => un_finalized row = false) (values_by_key (tb_unregistrations t))), t)
  | DbUnregistrations => (Some (values_by_key (tb_unregistrations t)), t)
  | DbRepairAudits app_id operation_id =>
      (Some (length (filter (fun e => ae_actor e = "admin" /\ ae_action e = "app_unregistration_repair"
                /\ ae_target_type e = Some "app" /\ ae_target_id e = Some app_id /\ ae_request_id e = operation_id
                /\ ae_result e = "succeeded") (audit_events (tb_database t)))), t)
  | DbDeployments => (Some (sort_by newest_first (map row_record (map_to_list (deployments (tb_database t))).*2)), t)
  | DbEnabledApps =>
      (Some (map fst (sort_by (fun a b => text_leb (uuid_to_string a.1) (uuid_to_string b.1))
               (filter (fun kv => rt_enabled kv.2 = true) (map_to_list (tb_retention t))))), t)
  | DbRetention app_id => (Some (tb_retention t !! app_id), t)
  | DbOperations => (Some (values_by_key (tb_operations t)), t)
  | DbOperation operation_id => (Some (tb_operations t !! operation_id), t)
  | DbItems operation_id => (Some (sort_by (fun a b => (si_ordinal a <=? si_ordinal b)%Z) (tb_items t !!! operation_id)), t)
  | DbOperationProof operation_id =>
      (Some (head (map proof_row (filter (fun kv => ir_operation_id kv.2 = operation_id) (records_in_order t)))), t)
  | DbRetiring => (Some (map so_operation_id (filter (fun row => so_retirement_pending row = true) (values_by_key (tb_operations t)))), t)
  | DbPendingOperations =>
      (Some (map so_operation_id (filter (fun row => so_status row = CsPlanned \/ so_status row = CsRunning
               \/ so_retirement_pending row = true) (values_by_key (tb_operations t)))), t)
  | DbAuthorization operation_id => (Some (tb_authorizations t !! operation_id), t)
  | DbSetRunning operation_id =>
      (Some tt, set_operation operation_id (fun row => if so_status row =? CsPlanned then row <| so_status := CsRunning |> else row) t)
  | DbItemStatus operation_id ordinal =>
      (head (map si_status (filter (fun row => si_ordinal row = Z.of_nat ordinal) (tb_items t !!! operation_id))), t)
  | DbRecordDetached operation_id ordinal candidate now =>
      match record_detached_tx operation_id ordinal candidate now t with Some t' => (Some tt, t') | None => (None, t) end
  | DbRecordFailure operation_id ordinal code =>
      let '(n, t) := set_item operation_id ordinal ItFailed (Some code) t in (Some n, t)
  | DbFinish operation_id status now =>
      (Some tt, set_operation operation_id (fun row => if (so_status row =? CsPlanned) || (so_status row =? CsRunning)
         then row <| so_status := status |> <| so_completed_at := Some now |> else row) t)
  | DbSetRetiring operation_id retiring =>
      (Some tt, set_operation operation_id (fun row => row <| so_retirement_pending := retiring |>) t)
  | DbPublishArtifacts operation_id app_id policy plan plan_json plan_hash now =>
      (Some tt, publish_tx operation_id app_id policy plan plan_json plan_hash now t)
  | DbPendingAuthorization app_id kind =>
      (Some (head (map au_operation_id (sort_by oldest_authorization (filter (fun row => au_app_id row = app_id
               /\ au_cleanup_kind row = kind /\ au_result_json row = None) (values_by_key (tb_authorizations t)))))), t)
  | DbCompleteAuthorization operation_id body =>
      (Some tt, t <| tb_authorizations := alter (fun row => if is_none (au_result_json row)
                         then row <| au_result_json := Some body |> else row) operation_id (tb_authorizations t) |>)
  end.
End semantics.
