(* ===== verification/Lifecycle.v ===== *)
(** * Lifecycle: completed deletions of applications

    [src/app_unregistration.rs] and the application finalizers of
    [src/mutation/idempotency.rs]: a deletion that answered its request leaves
    a receipt in [app_unregistrations] before its last file is removed. *)

From S2P Require Import Prelude Text Reference Models Effects Codec Names Drafts Database Ledger PollStates Idempotency FileSystem StoreBase ConfigRevision ReleaseStore AppDirectories CleanupStore Maintenance.

Section lifecycle.
Context {UT : UuidText} {ST : StoreText} {TT : TombstoneText} {MJ : MaintenanceJson}.
Context (euid : Z).

Abbreviation service A := (eprog mev IdempotencyError A).

Definition on_store {A} (q : eprog fsev StoreError A) : service A := files (fun _ => IeStore) q.
Definition select {X} (e : dbev X) : service X := query e IeDatabase.

(** ** Receipts *)

Definition preserve_proof (app_id operation_id : Uuid) : service unit :=
  on_store (sync_unregistered_app euid app_id) ;;;
  outcome <- select (DbPreserve app_id operation_id) ;;
  lift outcome.

Definition mark_finalized (app_id operation_id : Uuid) : service unit :=
  on_store (sync_unregistered_app euid app_id) ;;;
  left <- on_store (tombstones euid) ;;
  lift (refuse_if (existsb (fun ids => ids.1 =? app_id) left) IeRecordInvalid) ;;;
  changed <- select (DbMarkFinalized app_id operation_id) ;;
  lift (refuse_if (negb (changed =? 1)%nat) IeRecordInvalid).

Fixpoint pending_rows (rows : list UnregistrationRow) : service (list (Uuid * Uuid)) :=
  match rows with
  | [] => eret []
  | row :: rest =>
      lift (refuse_if (un_source row ≠? UsDeletion) IeRecordInvalid) ;;;
      proof <- select (DbProof (app_route (un_app_id row)) (un_operation_id row)) ;;
      lift (refuse_if (negb (is_some_and proof (exact_deletion (un_app_id row)))) IeRecordInvalid) ;;;
      found <- pending_rows rest ;;
      eret ((un_app_id row, un_operation_id row) :: found)
  end.

Definition pending : service (list (Uuid * Uuid)) :=
  rows <- select DbUnfinalized ;;
  pending_rows rows.

(** ** Tombstones *)

Fixpoint succeeded_of (ids : list (Uuid * Uuid)) : service (list (Uuid * Uuid)) :=
  match ids with
  | [] => eret []
  | (app_id, operation_id) :: rest =>
      row <- select (DbProof (app_route app_id) operation_id) ;;
      proof <- lift (ok_or row IeRecordInvalid) ;;
      if (pf_status proof =? IsPending) || (pf_status proof =? IsInterrupted) then succeeded_of rest
      else
        lift (refuse_if (negb (exact_deletion app_id proof)) IeRecordInvalid) ;;;
        found <- succeeded_of rest ;;
        eret ((app_id, operation_id) :: found)
  end.

Definition validate_app_tombstones : service (list (Uuid * Uuid)) :=
  ids <- on_store (tombstones euid) ;;
  succeeded_of ids.

Fixpoint dedup_pairs (l : list (Uuid * Uuid)) : list (Uuid * Uuid) :=
  match l with
  | a :: ((b :: _) as rest) => if a =? b then dedup_pairs rest else a :: dedup_pairs rest
  | l => l
  end.

Definition succeeded_app_tombstones : service (list (Uuid * Uuid)) :=
  found <- validate_app_tombstones ;;
  open <- pending ;;
  eret (dedup_pairs (sort_by pair_leb (found ++ open))).

(** The receipt is durable before the last file is removed. *)
Definition finalize_app_unregistration (app_id operation_id : Uuid) : service unit :=
  succeeded <- succeeded_app_tombstones ;;
  lift (refuse_if (negb (bool_decide ((app_id, operation_id) ∈ succeeded))) IeRecordInvalid) ;;;
  left <- on_store (tombstones euid) ;;
  let has_tombstone := bool_decide ((app_id, operation_id) ∈ left) in
  (if has_tombstone then on_store (sync_tombstone euid app_id operation_id) else eret tt) ;;;
  preserve_proof app_id operation_id ;;;
  (if has_tombstone then on_store (finalize_tombstone euid app_id operation_id) else eret tt) ;;;
  mark_finalized app_id operation_id.

Definition finalize_succeeded_tombstones : service unit :=
  succeeded <- succeeded_app_tombstones ;;
  each (fun ids => finalize_app_unregistration ids.1 ids.2) succeeded.

(** ** Completed applications *)

Definition canonical_route_app (route : string) : option Uuid :=
  app ← strip_prefix APP_ROUTES route;
  id ← uuid_parse app;
  if uuid_to_string id =? app then Some id else None.

Fixpoint backfill_rows (tombstoned : list Uuid) (rows : list (string * Uuid * option string)) : service unit :=
  match rows with
  | [] => eret tt
  | (route, operation_id, body) :: rest =>
      match canonical_route_app route, body with
      | Some app_id, Some body =>
          if negb (valid_response body app_id) || bool_decide (app_id ∈ tombstoned) then backfill_rows tombstoned rest
          else
            preserve_proof app_id operation_id ;;;
            mark_finalized app_id operation_id ;;;
            backfill_rows tombstoned rest
      | _, _ => backfill_rows tombstoned rest
      end
  end.

Definition backfill : service unit :=
  ids <- on_store (tombstones euid) ;;
  rows <- select DbAppProofs ;;
  backfill_rows ids.*1 rows.

Definition check_unregistered (left : list (Uuid * Uuid)) (row : UnregistrationRow) : service unit :=
  (if un_source row =? UsOperatorRepair
   then audited <- select (DbRepairAudits (un_app_id row) (un_operation_id row)) ;;
        lift (refuse_if (negb (audited =? 1)%nat) IeRecordInvalid)
   else eret tt) ;;;
  Vis (OnFiles (FsSymlinkMetadata (app_directory (un_app_id row)))) (fun r => match r with
    | Err NotFound => eret tt
    | _ => fail IeRecordInvalid
    end) ;;;
  lift (refuse_if (existsb (fun ids => (ids.1 =? un_app_id row) && (ids.2 ≠? un_operation_id row)) left) IeRecordInvalid).

Fixpoint completed_rows (left : list (Uuid * Uuid)) (rows : list UnregistrationRow) : service (gset Uuid) :=
  match rows with
  | [] => eret ∅
  | row :: rest =>
      check_unregistered left row ;;;
      completed <- completed_rows left rest ;;
      eret (if un_finalized row && negb (existsb (fun ids => ids.1 =? un_app_id row) left)
            then {[un_app_id row]} ∪ completed else completed)
  end.

Definition completed_apps : service (gset Uuid) :=
  left <- on_store (tombstones euid) ;;
  pending ;;;
  rows <- select DbUnregistrations ;;
  completed_rows left rows.

Definition validate_completed_unregistrations : service unit :=
  validate_app_tombstones ;;;
  completed_apps ;;;
  eret tt.
End lifecycle.
