(* ===== verification/Catalog.v ===== *)
(** * Catalog: the scan as a whole

    [scan_store] of [src/app_store/recovery.rs] over the validations of
    [Recovery], [CleanupStore] and [WebhookStore], and
    [WebhookStore::configured_count], which counts over it. *)

From S2P Require Import Prelude Text WebhookProtocol Ingress Reference Models Effects Codec Names Drafts Compose FileSystem StoreBase ConfigRevision ReleaseStore AppDirectories WebhookStore Recovery CleanupStore.

Section scan.
Context {UT : UuidText} {ST : StoreText} {CR : Crypto} {CT : ComposeText} {WT : WebhookText} {RT : RecoveryText} {KT : CleanupText}.
Context (euid : Z) (self : AppStore) (tree_fuel : nat).

Abbreviation store A := (eprog fsev StoreError A).

(** What one entry adds to the report. *)
Definition found : Type := list RecoveryIssue * list RecoveredApp.
Definition nothing : found := ([], []).
Definition reported (code : string) (app_id : option Uuid) : found := ([MkRecoveryIssue code app_id], []).

Definition temporary_tree (p : path) : store unit :=
  check_private euid p true ;;;
  validate_managed_tree euid tree_fuel p (length p) DisposableAppTemp ;;;
  eret tt.

(** A damaged webhook is reported beside its application; anything that breaks
    the store's boundary stops the scan. *)
Definition webhook_issue (directory_id : Uuid) : store (list RecoveryIssue) :=
  let invalid := [MkRecoveryIssue "WEBHOOK_CONFIG_INVALID" (Some directory_id)] in
  match as_integrity_key self with
  | None => eret []
  | Some key =>
      outcome <- attempt (validate_app_directory euid key directory_id) ;;
      match outcome with
      | Ok _ => eret []
      | Err SeContentInvalid => eret invalid
      | Err (SePermission PeUnexpectedType) => fail SeSymlinkBoundary
      | Err error => if is_unreadable error then eret invalid else fail error
      end
  end.

Definition scan_app_entry (name : string) (directory_id : Uuid) : store found :=
  check_private euid [name] true ;;;
  temporary <- validate_managed_tree euid tree_fuel [name] 1 Strict ;;
  let issues := if (0 <? temporary)%nat then [MkRecoveryIssue "TEMP_ARTIFACT_IGNORED" (Some directory_id)] else [] in
  active <- validate_release_link_path euid [name] "active" ;;
  pending <- validate_release_link_path euid [name] "pending" ;;
  match active, pending with
  | Err code, _ | Ok _, Err code => eret (issues ++ [MkRecoveryIssue code (Some directory_id)], [])
  | Ok active, Ok pending =>
      recovered <- scan_app euid self tree_fuel [name] directory_id active pending ;;
      match recovered with
      | Ok app => webhook <- webhook_issue directory_id ;; eret (issues ++ webhook, [app])
      | Err code => eret (issues ++ [MkRecoveryIssue code (Some directory_id)], [])
      end
  end.

Definition scan_entry (name : string) : store found :=
  if name =? TRASH then check_private euid [name] true ;;; eret nothing
  else if name =? CLEANUP_TRASH_DIRECTORY then cleanup_tombstones euid self tree_fuel ;;; eret nothing
  else
    st <- io (FsSymlinkMetadata [name]) ;;
    if is_app_temp_name name then
      lift (refuse_if (st_kind st ≠? KindDirectory) SeSymlinkBoundary) ;;;
      temporary_tree [name] ;;;
      eret (reported "TEMP_ARTIFACT_IGNORED" None)
    else if exact_internal_temp_name name then
      match st_kind st with
      | KindSymlink => fail SeSymlinkBoundary
      | KindDirectory => temporary_tree [name]
      | KindFile => check_private euid [name] false
      end ;;;
      eret (reported "TEMP_ARTIFACT_IGNORED" None)
    else match st_kind st with
    | KindSymlink => fail SeSymlinkBoundary
    | KindFile => eret (reported "UNRECOGNIZED_APP_ENTRY" None)
    | KindDirectory =>
        match uuid_parse name with
        | None => eret (reported "APP_DIRECTORY_ID_INVALID" None)
        | Some directory_id =>
            if name ≠? uuid_to_string directory_id
            then eret (reported "APP_DIRECTORY_ID_NON_CANONICAL" (Some directory_id))
            else scan_app_entry name directory_id
        end
    end.

Fixpoint scan_entries (names : list string) : store found :=
  match names with
  | [] => eret nothing
  | name :: rest =>
      first <- scan_entry name ;;
      others <- scan_entries rest ;;
      eret (first.1 ++ others.1, first.2 ++ others.2)
  end.

(** Applications that share a slug are all refused. *)
Definition slug_count (slug : string) (apps : list RecoveredApp) : nat :=
  length (filter (fun app => ra_slug app = slug) apps).

Definition report_of (scanned : found) : RecoveryReport :=
  let candidates := scanned.2 in
  let unique := filter (fun app => slug_count (ra_slug app) candidates <= 1) candidates in
  let duplicate := filter (fun app => ~ slug_count (ra_slug app) candidates <= 1) candidates in
  MkRecoveryReport (sort_by (fun a b => (ra_app_id a <=? ra_app_id b)%N) unique)
    (scanned.1 ++ map (fun app => MkRecoveryIssue "APP_SLUG_DUPLICATE" (Some (ra_app_id app))) duplicate).

Definition scan_store : store RecoveryReport :=
  check_private euid [] true ;;;
  names <- io (FsReadDir []) ;;
  scanned <- scan_entries names ;;
  eret (report_of scanned).

(** ** The number of configured webhooks *)

Fixpoint count_configured (key : string) (apps : list RecoveredApp) (count : nat) : store nat :=
  match apps with
  | [] => eret count
  | app :: rest =>
      state <- status euid key (ra_app_id app) ;;
      lift (refuse_if (ws_degraded state) SeContentInvalid) ;;;
      count_configured key rest (count + (if ws_configured state then 1 else 0))
  end.

Definition configured_count (key : string) : store nat :=
  report <- scan_store ;;
  count_configured key (rr_valid_apps report) 0.
End scan.
