(* ===== verification/CleanupPlanner.v ===== *)
(** * CleanupPlanner: what may be removed from the store

    [src/storage_cleanup.rs] and the policies of [src/retention.rs]: the
    inventory of releases, revisions and temporary artifacts, what protects
    each of them, and the plan that is left. *)

From S2P Require Import Prelude Text WebhookProtocol Ingress Reference Models Effects Codec Names Drafts Compose Database Ledger PollStates Idempotency FileSystem StoreBase ConfigRevision ReleaseStore AppDirectories WebhookStore Recovery CleanupStore Maintenance Lifecycle Catalog.

Inductive CleanupError :=
| CeBusy
| CeStore (error : StoreError)
| CeDatabase
| CeInventoryIncomplete
| CeRecoveryReferenceMissing (app_id deployment_id : Uuid)
| CeRecordInvalid.

Definition RECENT_ROLLBACK_RELEASES : nat := 3.

#[export] Instance ProtectionReason_countable : Countable ProtectionReason.
Proof.
  refine (inj_countable'
    (fun r => match r with PrActive => 0 | PrPending => 1 | PrCurrentDraft => 2 | PrRecentRollback => 3
                         | PrDeploymentRecovery => 4 | PrCleanupInProgress => 5 end)
    (fun n => match n with 0 => PrActive | 1 => PrPending | 2 => PrCurrentDraft | 3 => PrRecentRollback
                         | 4 => PrDeploymentRecovery | _ => PrCleanupInProgress end) _).
  by intros [].
Defined.

Record ValidRelease := MkValidRelease { vr_app_id : Uuid; vr_release : ReleaseV2; vr_bytes : Z }.

(** Which releases or revisions are protected, and why. *)
Abbreviation protection := (gmap (Uuid * Uuid) (gset ProtectionReason)).

Definition protect (map : protection) (app_id : Uuid) (id : option Uuid) (reason : ProtectionReason) : protection :=
  match id with
  | Some id => <[(app_id, id) := {[reason]} ∪ map !!! (app_id, id)]> map
  | None => map
  end.

(** ** Retention policies *)

Definition default_policy : RetentionPolicy := MkRetentionPolicy false 3 0%N None None None.

Definition keep_valid (keep : Z) : bool := (1 <=? keep)%Z && (keep <=? 100)%Z.

(** The active release, then successes until enough are kept. *)
Fixpoint retain (keep : nat) (retained : gset Uuid) (successes : list Uuid) : gset Uuid :=
  match successes with
  | [] => retained
  | release :: rest => if (keep <=? size retained)%nat then retained else retain keep ({[release]} ∪ retained) rest
  end.

Definition retained_releases (active : option Uuid) (keep : nat) (successes : list Uuid) : gset Uuid :=
  retain keep (match active with Some release => {[release]} | None => ∅ end) successes.

(** ** Protection by deployments *)

Definition valid_keys (releases : list ValidRelease) : gset (Uuid * Uuid) :=
  list_to_set (map (fun item => (vr_app_id item, rl_id (vr_release item))) releases).

Definition active_release (p : protection) (app_id : Uuid) : option Uuid :=
  head (omap (fun kv => if bool_decide (kv.1.1 = app_id /\ PrActive ∈ kv.2) then Some kv.1.2 else None) (map_to_list p)).

Section planner.
Context {UT : UuidText}.

(** One successful deployment: when it ended, its identifier, its release. *)
Abbreviation success := (Time * Uuid * Uuid)%type (only parsing).

Definition success_leb (a b : success) : bool :=
  (a.1.1 <? b.1.1)%Z || ((a.1.1 =? b.1.1)%Z
    && (text_ltb (uuid_to_string a.1.2) (uuid_to_string b.1.2)
        || ((uuid_to_string a.1.2 =? uuid_to_string b.1.2) && (a.2 <=? b.2)%N))).

Fixpoint successes (app_id : Uuid) (valid : gset (Uuid * Uuid)) (rows : list DeploymentRecord)
    : result CleanupError (list success) :=
  match rows with
  | [] => Ok []
  | row :: rest =>
      if (dp_app_id row =? app_id) && (dp_status row =? StSucceeded) && (dp_phase row =? PhTerminal)
      then at_ ← ok_or (dp_completed_at row) CeRecordInvalid;
           found ← successes app_id valid rest;
           Ok match dp_candidate_release_id row with
              | Some release => if bool_decide ((app_id, release) ∈ valid) then (at_, dp_id row, release) :: found else found
              | None => found
              end
      else successes app_id valid rest
  end.

Fixpoint protect_policies (policies : list (Uuid * RetentionPolicy)) (unregistered : gset Uuid) (valid : gset (Uuid * Uuid))
    (rows : list DeploymentRecord) (p : protection) : result CleanupError protection :=
  match policies with
  | [] => Ok p
  | (app_id, policy) :: rest =>
      if bool_decide (app_id ∈ unregistered) then protect_policies rest unregistered valid rows p
      else
        found ← successes app_id valid rows;
        let selected := retained_releases (active_release p app_id) (Z.to_nat (rt_keep_versions policy))
                          (map snd (reverse (sort_by success_leb found))) in
        protect_policies rest unregistered valid rows
          (set_fold (fun release p => protect p app_id (Some release) PrRecentRollback) p selected)
  end.

Definition references (row : DeploymentRecord) : list (option Uuid) :=
  [dp_from_release_id row; dp_expected_pending_release_id row; dp_expected_actual_release_id row;
   dp_predecessor_runtime_release_id row; dp_candidate_release_id row; dp_rollback_target_release_id row].

Definition settled_status (s : DeploymentStatus) : bool :=
  bool_decide (s ∈ [StSucceeded; StNoOp; StFailed; StRolledBack]).
Definition recoverable_status (s : DeploymentStatus) : bool :=
  bool_decide (s ∈ [StQueued; StRunning; StInterrupted; StNeedsAttention]).

(** What the loop over the deployments accumulates. *)
Record Protections := MkProtections {
  pt_releases : protection; pt_revisions : protection; pt_recent : gmap Uuid (gset Uuid) }.

Definition protect_recent (policies : list (Uuid * RetentionPolicy)) (valid : gset (Uuid * Uuid)) (row : DeploymentRecord)
    (p : Protections) : Protections :=
  match dp_candidate_release_id row with
  | Some candidate =>
      let app_id := dp_app_id row in
      let reasons := pt_releases p !!! (app_id, candidate) in
      if bool_decide (app_id ∉ policies.*1) && settled_status (dp_status row) && bool_decide ((app_id, candidate) ∈ valid)
         && negb (bool_decide (PrActive ∈ reasons) || bool_decide (PrPending ∈ reasons))
         && (size (pt_recent p !!! app_id) <? RECENT_ROLLBACK_RELEASES)%nat
      then MkProtections (protect (pt_releases p) app_id (Some candidate) PrRecentRollback) (pt_revisions p)
             (<[app_id := {[candidate]} ∪ pt_recent p !!! app_id]> (pt_recent p))
      else p
  | None => p
  end.

Definition protect_recovery (valid revisions : gset (Uuid * Uuid)) (row : DeploymentRecord) (p : Protections)
    : result CleanupError Protections :=
  let app_id := dp_app_id row in
  if recoverable_status (dp_status row)
  then refuse_if (bool_decide ((app_id, dp_requested_revision row) ∉ revisions)
                  || existsb (fun r => is_some_and r (fun id => bool_decide ((app_id, id) ∉ valid))) (references row))
         (CeRecoveryReferenceMissing app_id (dp_id row)) ;;
       Ok (MkProtections (foldl (fun m r => protect m app_id r PrDeploymentRecovery) (pt_releases p) (references row))
             (protect (pt_revisions p) app_id (Some (dp_requested_revision row)) PrDeploymentRecovery) (pt_recent p))
  else Ok p.

(** A deployment of an application that is gone must have ended. *)
Definition ended (row : DeploymentRecord) : bool :=
  (dp_phase row =? PhTerminal) && is_terminal (dp_status row) && is_some (dp_completed_at row).

Fixpoint protect_rows (policies : list (Uuid * RetentionPolicy)) (unregistered : gset Uuid)
    (valid revisions : gset (Uuid * Uuid)) (rows : list DeploymentRecord) (p : Protections) : result CleanupError Protections :=
  match rows with
  | [] => Ok p
  | row :: rest =>
      if bool_decide (dp_app_id row ∈ unregistered)
      then refuse_if (negb (ended row)) CeInventoryIncomplete ;; protect_rows policies unregistered valid revisions rest p
      else
        p ← protect_recovery valid revisions row (protect_recent policies valid row p);
        protect_rows policies unregistered valid revisions rest p
  end.

(** ** The plan *)

Definition release_leb (a b : ValidRelease) : bool :=
  let ca := rl_created_at (vr_release a) in let cb := rl_created_at (vr_release b) in
  (ca <? cb)%Z || ((ca =? cb)%Z
    && pair_leb (vr_app_id a, rl_id (vr_release a)) (vr_app_id b, rl_id (vr_release b))).

Definition option_uuid_ltb (a b : option Uuid) : bool :=
  match a, b with None, Some _ => true | Some a, Some b => (a <? b)%N | _, None => false end.

(** The derived order, on temporary artifacts. *)
Definition temporary_leb (a b : CleanupCandidate) : bool :=
  match cc_artifact a, cc_artifact b with
  | CaTemporary app_a loc_a name_a, CaTemporary app_b loc_b name_b =>
      option_uuid_ltb app_a app_b || ((app_a =? app_b)
        && ((location_rank loc_a <? location_rank loc_b)%N
            || ((location_rank loc_a =? location_rank loc_b)%N && text_leb name_a name_b)))
  | _, _ => true
  end.

Definition record_of (release : ReleaseV2) : CleanedReleaseRecord :=
  MkCleanedReleaseRecord (rl_manifest_digest release) (rl_local_image_id release) (rl_platform_os release)
    (rl_platform_architecture release) (rl_platform_variant release).

Definition release_candidate (item : ValidRelease) : CleanupCandidate :=
  MkCleanupCandidate (CaRelease (vr_app_id item) (rl_id (vr_release item)) (rl_config_revision (vr_release item)))
    (vr_bytes item) (Some (rl_created_at (vr_release item))) (Some (record_of (vr_release item))).

Definition revision_candidate (entry : (Uuid * Uuid) * Z) : CleanupCandidate :=
  MkCleanupCandidate (CaConfigRevision entry.1.1 entry.1.2) entry.2 None None.

(** [for .. { if candidates.len() == MAX_CLEANUP_ITEMS { break } .. push }]. *)
Definition push_until_full (candidates more : list CleanupCandidate) : list CleanupCandidate :=
  candidates ++ take (MAX_CLEANUP_ITEMS - length candidates) more.

Definition in_scope (automatic_app : option Uuid) (app_id : Uuid) : bool :=
  match automatic_app with Some app => app =? app_id | None => true end.

Definition release_key (item : ValidRelease) : Uuid * Uuid := (vr_app_id item, rl_id (vr_release item)).

Definition selected_releases (automatic_app : option Uuid) (releases : list ValidRelease) (p : protection) : list ValidRelease :=
  take MAX_CLEANUP_ITEMS
    (filter (fun item => in_scope automatic_app (vr_app_id item) = true /\ p !! release_key item = None) releases).

(** Revisions a release that stays refers to, and protected ones. *)
Definition retained_revisions (releases selected : list ValidRelease) (p : protection) : gset (Uuid * Uuid) :=
  list_to_set (map (fun item => (vr_app_id item, rl_config_revision (vr_release item)))
                 (filter (fun item => release_key item ∉ map release_key selected) releases))
  ∪ dom p.

Definition select_candidates (automatic_app : option Uuid) (releases : list ValidRelease) (revisions : gmap (Uuid * Uuid) Z)
    (temps : list CleanupCandidate) (release_protection revision_protection : protection)
    (temporary_protection : list CleanupArtifact) : list CleanupCandidate :=
  let selected := selected_releases automatic_app releases release_protection in
  let retained := retained_revisions releases selected revision_protection in
  let candidates := map release_candidate selected in
  let candidates := push_until_full candidates (map revision_candidate
    (filter (fun entry => in_scope automatic_app entry.1.1 = true /\ entry.1 ∉ retained)
       (sort_by (fun a b => pair_leb a.1 b.1) (map_to_list revisions)))) in
  push_until_full candidates
    (filter (fun temp => automatic_app = None /\ cc_artifact temp ∉ temporary_protection) temps).

Definition reason_rank (r : ProtectionReason) : N :=
  match r with PrActive => 0 | PrPending => 1 | PrCurrentDraft => 2 | PrRecentRollback => 3 | PrDeploymentRecovery => 4
             | PrCleanupInProgress => 5 end.

Definition protected_leb (a b : ProtectedArtifact) : bool :=
  option_uuid_ltb (pa_app_id a) (pa_app_id b) || ((pa_app_id a =? pa_app_id b)
    && (text_ltb (pa_artifact_kind a) (pa_artifact_kind b) || ((pa_artifact_kind a =? pa_artifact_kind b)
        && (text_ltb (pa_artifact_id a) (pa_artifact_id b) || ((pa_artifact_id a =? pa_artifact_id b)
            && (reason_rank (pa_reason a) <=? reason_rank (pa_reason b))%N))))).

Definition protected_of (kind : string) (p : protection) : list ProtectedArtifact :=
  '(key, reasons) ← map_to_list p;
  map (MkProtectedArtifact (Some key.1) kind (uuid_to_string key.2)) (elements reasons).

Definition protected_list (releases revisions : protection) (temporaries : list CleanupArtifact) : list ProtectedArtifact :=
  sort_by protected_leb (protected_of "release" releases ++ protected_of "config_revision" revisions
    ++ map (fun a => MkProtectedArtifact (artifact_app_id a) (kind_name a) (public_id a) PrCleanupInProgress) temporaries).

(** A sum of 64-bit numbers, in release mode. *)
Definition total_bytes (candidates : list CleanupCandidate) : Z :=
  (foldl (fun total c => total + cc_estimated_logical_bytes c) 0 candidates mod 2 ^ 64)%Z.

Record ArtifactInventory := MkArtifactInventory {
  iv_plan : CleanupPlan; iv_app_ids : list Uuid; iv_releases : list CleanedReleaseRecord }.
End planner.

(** ** Inventory *)

Section inventory.
Context {UT : UuidText} {ST : StoreText} {CR : Crypto} {CT : ComposeText} {WT : WebhookText} {RT : RecoveryText}
  {KT : CleanupText} {TT : TombstoneText} {MJ : MaintenanceJson}.
Context (euid : Z) (self : AppStore) (tree_fuel : nat).

Abbreviation clean A := (eprog mev CleanupError A).

Definition stored {A} (q : eprog fsev StoreError A) : clean A := files CeStore q.
Definition fetch {X} (e : dbev X) : clean X := query e CeDatabase.
Definition read_dir (p : path) : clean (list string) := stored (io (FsReadDir p)).

Definition temp_bytes (p : path) (app_id : option Uuid) (location : CleanupTempLocation) (name : string) : clean Z :=
  lift (refuse_if (negb (valid_temp_name location name)) CeInventoryIncomplete) ;;;
  stored (logical_artifact_bytes euid tree_fuel p (CaTemporary app_id location name)).

Definition candidate_temp (app_id : option Uuid) (location : CleanupTempLocation) (name : string) (bytes : Z) : CleanupCandidate :=
  MkCleanupCandidate (CaTemporary app_id location name) bytes None None.

Definition temporary_candidate (directory : path) (app_id : option Uuid) (location : CleanupTempLocation) (name : string)
    : clean CleanupCandidate :=
  bytes <- temp_bytes (directory ++ [name]) app_id location name ;;
  eret (candidate_temp app_id location name bytes).

Definition parse_canonical_uuid (value : string) : result CleanupError Uuid :=
  ok_or (canonical_uuid value) CeInventoryIncomplete.

Fixpoint logical_bytes (fuel : nat) (p : path) : clean Z :=
  match fuel with
  | 0 => OutOfFuel
  | S fuel =>
      st <- stored (io (FsSymlinkMetadata p)) ;;
      match st_kind st with
      | KindSymlink => fail (CeStore SeSymlinkBoundary)
      | KindFile => stored (check_private euid p false) ;;; stored (io (FsLength p))
      | KindDirectory =>
          stored (check_private euid p true) ;;;
          names <- read_dir p ;;
          (fix sum names total :=
             match names with
             | [] => eret total
             | name :: rest =>
                 bytes <- logical_bytes fuel (p ++ [name]) ;;
                 lift (refuse_if (u64_max <? total + bytes)%Z CeInventoryIncomplete) ;;;
                 sum rest (total + bytes)%Z
             end) names 0%Z
      end
  end.

Fixpoint collect_root_temps (names : list string) : clean (list CleanupCandidate) :=
  match names with
  | [] => eret []
  | name :: rest =>
      if valid_temp_name AppsRoot name
      then temp <- temporary_candidate [] None AppsRoot name ;;
           temps <- collect_root_temps rest ;;
           eret (temp :: temps)
      else collect_root_temps rest
  end.

(** What the inventory has collected. *)
Record Collected := MkCollected {
  co_releases : list ValidRelease; co_revisions : gmap (Uuid * Uuid) Z; co_temps : list CleanupCandidate }.

Definition add_temp (temp : CleanupCandidate) (c : Collected) : Collected :=
  MkCollected (co_releases c) (co_revisions c) (co_temps c ++ [temp]).

Fixpoint inventory_releases (app_id : Uuid) (names : list string) (c : Collected) : clean Collected :=
  let directory := app_directory app_id ++ ["releases"] in
  match names with
  | [] => eret c
  | name :: rest =>
      if exact_internal_temp_name name
      then temp <- temporary_candidate directory (Some app_id) Releases name ;;
           inventory_releases app_id rest (add_temp temp c)
      else
        release_id <- lift (parse_canonical_uuid name) ;;
        release <- stored (load_v2_release euid self app_id release_id) ;;
        bytes <- logical_bytes tree_fuel (directory ++ [name]) ;;
        inventory_releases app_id rest
          (MkCollected (co_releases c ++ [MkValidRelease app_id release bytes]) (co_revisions c) (co_temps c))
  end.

Fixpoint inventory_config_revisions (app_id : Uuid) (names : list string) (c : Collected) : clean Collected :=
  let directory := app_directory app_id ++ ["config-revisions"] in
  match names with
  | [] => eret c
  | name :: rest =>
      if valid_temp_name ConfigRevisions name
      then temp <- temporary_candidate directory (Some app_id) ConfigRevisions name ;;
           inventory_config_revisions app_id rest (add_temp temp c)
      else
        revision <- lift (parse_canonical_uuid name) ;;
        key <- stored (integrity_key self) ;;
        stored (load_verified euid (app_directory app_id) revision key) ;;;
        bytes <- stored (logical_artifact_bytes euid tree_fuel (directory ++ [name]) (CaConfigRevision app_id revision)) ;;
        inventory_config_revisions app_id rest
          (MkCollected (co_releases c) (<[(app_id, revision) := bytes]> (co_revisions c)) (co_temps c))
  end.

Definition app_entry_names : list string :=
  ["app.toml"; "active"; "pending"; "releases"; "config-revisions"; "webhook.toml"; "webhook-secret-revisions"].

Fixpoint inventory_root (app_id : Uuid) (names : list string) (c : Collected) : clean Collected :=
  match names with
  | [] => eret c
  | name :: rest =>
      if valid_temp_name AppRoot name
      then temp <- temporary_candidate (app_directory app_id) (Some app_id) AppRoot name ;;
           inventory_root app_id rest (add_temp temp c)
      else
        lift (refuse_if (negb (bool_decide (name ∈ app_entry_names))) CeInventoryIncomplete) ;;;
        inventory_root app_id rest c
  end.

Definition inventory_app (app_id : Uuid) (c : Collected) : clean Collected :=
  names <- read_dir (app_directory app_id ++ ["releases"]) ;;
  c <- inventory_releases app_id names c ;;
  names <- read_dir (app_directory app_id ++ ["config-revisions"]) ;;
  c <- inventory_config_revisions app_id names c ;;
  names <- read_dir (app_directory app_id) ;;
  inventory_root app_id names c.

Fixpoint inventory_all (apps : list Uuid) (c : Collected) : clean Collected :=
  match apps with
  | [] => eret c
  | app_id :: rest => c <- inventory_app app_id c ;; inventory_all rest c
  end.

(** ** Policies and authorizations *)

Definition load_policy (app_id : Uuid) : clean RetentionPolicy :=
  row <- fetch (DbRetention app_id) ;;
  match row with
  | None => eret default_policy
  | Some policy =>
      lift (refuse_if (negb (keep_valid (rt_keep_versions policy))) CeRecordInvalid) ;;; eret policy
  end.

Fixpoint load_policies (apps : list Uuid) : clean (list (Uuid * RetentionPolicy)) :=
  match apps with
  | [] => eret []
  | app_id :: rest =>
      policy <- load_policy app_id ;;
      others <- load_policies rest ;;
      eret ((app_id, policy) :: others)
  end.

Definition enabled_policies : clean (list (Uuid * RetentionPolicy)) :=
  apps <- fetch DbEnabledApps ;;
  load_policies apps.

Definition plan_hash (plan_json : string) : string := sha256 plan_json.

Record Authorization := MkAuthorization { az_app : Uuid; az_result : option json }.

(** What an automatic plan of artifacts may contain. *)
Definition automatic_plan_valid (app_id : Uuid) (plan : CleanupPlan) : bool :=
  negb (is_nil (cp_candidates plan)) && (length (cp_candidates plan) <=? 100)%nat
  && forallb (fun item => (artifact_app_id (cc_artifact item) =? Some app_id)
                          && match cc_artifact item with CaTemporary _ _ _ => false | _ => true end) (cp_candidates plan).

(** [authorization(db, operation, "artifacts")]. *)
Definition authorization (operation_id : Uuid) : clean (option Authorization) :=
  row <- fetch (DbAuthorization operation_id) ;;
  match row with
  | None => eret None
  | Some row =>
      policy <- lift (ok_or (policy_of_json (au_policy_json row)) CeRecordInvalid) ;;
      lift (refuse_if ((au_cleanup_kind row ≠? CkArtifacts) || negb (rt_enabled policy)
                       || negb (keep_valid (rt_keep_versions policy)) || (rt_revision policy =? 0%N)) CeRecordInvalid) ;;;
      operation <- fetch (DbOperation operation_id) ;;
      operation <- lift (ok_or operation CeDatabase) ;;
      let hash := plan_hash (so_plan_json operation) in
      lift (refuse_if ((hash ≠? au_plan_hash row) || (hash ≠? so_plan_hash operation)) CeRecordInvalid) ;;;
      plan <- lift (ok_or (plan_of_json (so_plan_json operation)) CeRecordInvalid) ;;
      lift (refuse_if (negb (automatic_plan_valid (au_app_id row) plan)) CeRecordInvalid) ;;;
      match au_result_json row with
      | None => eret (Some (MkAuthorization (au_app_id row) None))
      | Some text =>
          value <- lift (ok_or (json_parse text) CeRecordInvalid) ;;
          eret (Some (MkAuthorization (au_app_id row) (Some value)))
      end
  end.

(** ** The ledger of operations *)

Definition APPLY_ROUTE : string := "/api/v1/system/storage-cleanup/apply".

Record CleanupItemState := MkCleanupItemState { is_item_status : ItemStatus; is_error_code : option string }.

Definition item_codes : list string := ["CLEANUP_ITEM_RETAINED"; "RELEASE_RETAINED"; "CLEANUP_ITEM_PROTECTED"].

Definition item_row_valid (row : ItemRow) : bool :=
  match si_status row, si_error_code row with
  | ItPlanned, None | ItDetached, None => true
  | ItFailed, Some code => bool_decide (code ∈ item_codes)
  | _, _ => false
  end.

Fixpoint item_states (ordinal : nat) (rows : list ItemRow) (candidates : list CleanupCandidate)
    : result CleanupError (list CleanupItemState) :=
  match rows, candidates with
  | row :: rows, candidate :: candidates =>
      let a := cc_artifact candidate in
      refuse_if (negb (item_row_valid row)) CeRecordInvalid ;;
      refuse_if ((si_ordinal row ≠? Z.of_nat ordinal) || (si_app_id row ≠? artifact_app_id a)
                 || (si_artifact_kind row ≠? kind_name a) || (si_artifact_id row ≠? public_id a)
                 || (si_config_revision_id row ≠? item_revision a)) CeRecordInvalid ;;
      states ← item_states (S ordinal) rows candidates;
      Ok (MkCleanupItemState (si_status row) (si_error_code row) :: states)
  | _, _ => Ok []
  end.

Definition exact_item_states (operation_id : Uuid) (plan : CleanupPlan) : clean (list CleanupItemState) :=
  rows <- fetch (DbItems operation_id) ;;
  lift (refuse_if (length rows ≠? length (cp_candidates plan)) CeRecordInvalid) ;;;
  lift (item_states 0 rows (cp_candidates plan)).

Definition public_item_id (ordinal : nat) (a : CleanupArtifact) : string :=
  match a with CaTemporary _ _ _ => "temporary-" +:+ pretty (S ordinal) | _ => public_id a end.

Fixpoint terminal_items (ordinal : nat) (states : list CleanupItemState) (candidates : list CleanupCandidate)
    : result CleanupError (list ApplyItem) :=
  match states, candidates with
  | state :: states, candidate :: candidates =>
      let a := cc_artifact candidate in
      outcome ← match is_item_status state, is_error_code state with
                | ItDetached, None => Ok (false, None)
                | ItFailed, Some code => Ok (true, Some code)
                | _, _ => Err CeRecordInvalid
                end;
      items ← terminal_items (S ordinal) states candidates;
      Ok (MkApplyItem (artifact_app_id a) (kind_name a) (public_item_id ordinal a) outcome.1 outcome.2 :: items)
  | _, _ => Ok []
  end.

Definition exact_terminal_items (operation_id : Uuid) (plan : CleanupPlan) : clean (list ApplyItem) :=
  states <- exact_item_states operation_id plan ;;
  lift (terminal_items 0 states (cp_candidates plan)).

Definition verify_terminal_proof (operation_id : Uuid) (encoded_plan_hash : string) (status : CleanupStatus)
    (items : list ApplyItem) : clean unit :=
  let expected := response_value (MkApplyResponse operation_id encoded_plan_hash status items) in
  auth <- authorization operation_id ;;
  match auth with
  | Some auth => lift (refuse_if (az_result auth ≠? Some expected) CeRecordInvalid)
  | None =>
      proof <- fetch (DbOperationProof operation_id) ;;
      proof <- lift (ok_or proof CeRecordInvalid) ;;
      body <- lift (ok_or (pf_response_body proof ≫= json_parse) CeRecordInvalid) ;;
      lift (refuse_if ((pf_route proof ≠? APPLY_ROUTE) || (pf_status proof ≠? IsSucceeded)
                       || (pf_response_status proof ≠? Some 200%Z) || (body ≠? expected)) CeRecordInvalid)
  end.

Definition proof_is_recoverable (operation_id : Uuid) : clean bool :=
  auth <- authorization operation_id ;;
  match auth with
  | Some auth => eret (is_none (az_result auth))
  | None =>
      proof <- fetch (DbOperationProof operation_id) ;;
      proof <- lift (ok_or proof CeRecordInvalid) ;;
      lift (refuse_if (pf_route proof ≠? APPLY_ROUTE) CeRecordInvalid) ;;;
      lift (match pf_status proof with
            | IsPending | IsInterrupted => Ok true
            | IsSucceeded => Ok false
            | IsFailed => Err CeRecordInvalid
            end)
  end.

Definition is_completed (s : CleanupStatus) : bool :=
  match s with CsCompleted | CsCompletedWithFailures => true | _ => false end.

Definition all_planned (states : list CleanupItemState) : bool :=
  forallb (fun state => (is_item_status state =? ItPlanned) && is_none (is_error_code state)) states.

(** The status of a row against its items. *)
Definition operation_row_valid (row : OperationRow) (has_tombstone : bool) (states : list CleanupItemState) : bool :=
  match so_status row with
  | CsPlanned => is_none (so_completed_at row) && all_planned states
  | CsRunning =>
      is_none (so_completed_at row)
      && forallb (fun state => Bool.eqb (is_item_status state =? ItFailed) (is_some (is_error_code state))) states
  | _ => (has_tombstone || so_retirement_pending row) && is_some (so_completed_at row)
  end.

Definition items_match (status : CleanupStatus) (items : list ApplyItem) : bool :=
  Bool.eqb (status =? CsCompletedWithFailures) (existsb ai_retained items).

Definition plan_artifacts (plan : CleanupPlan) : list CleanupArtifact := map cc_artifact (cp_candidates plan).

(** What an operation in progress protects. *)
Record Reserved := MkReserved {
  rv_releases : protection; rv_revisions : protection; rv_temporaries : list CleanupArtifact }.

Definition reserve_item (r : Reserved) (item : CleanupCandidate * CleanupItemState) : Reserved :=
  if is_item_status item.2 =? ItDetached then r
  else match cc_artifact item.1 with
  | CaRelease app_id release_id _ =>
      MkReserved (protect (rv_releases r) app_id (Some release_id) PrCleanupInProgress) (rv_revisions r) (rv_temporaries r)
  | CaConfigRevision app_id revision_id =>
      MkReserved (rv_releases r) (protect (rv_revisions r) app_id (Some revision_id) PrCleanupInProgress) (rv_temporaries r)
  | a => MkReserved (rv_releases r) (rv_revisions r) (if bool_decide (a ∈ rv_temporaries r) then rv_temporaries r
                                                     else rv_temporaries r ++ [a])
  end.

Definition reserve (plan : CleanupPlan) (states : list CleanupItemState) (r : Reserved) : Reserved :=
  foldl reserve_item r (zip (cp_candidates plan) states).

(** A row that still owns files or work. *)
Definition check_operation (row : OperationRow) (has_tombstone has_preparation : bool) (resuming : option Uuid)
    : clean (CleanupPlan * list CleanupItemState) :=
  let operation_id := so_operation_id row in
  plan <- lift (ok_or (plan_of_json (so_plan_json row)) CeRecordInvalid) ;;
  states <- exact_item_states operation_id plan ;;
  lift (refuse_if (plan_hash (so_plan_json row) ≠? so_plan_hash row) CeRecordInvalid) ;;;
  lift (refuse_if (negb (operation_row_valid row has_tombstone states)) CeRecordInvalid) ;;;
  (if so_retirement_pending row
   then lift (refuse_if (negb (is_completed (so_status row))) CeRecordInvalid) ;;;
        items <- exact_terminal_items operation_id plan ;;
        lift (refuse_if (negb (items_match (so_status row) items)) CeRecordInvalid) ;;;
        verify_terminal_proof operation_id (hex (so_plan_hash row)) (so_status row) items
   else eret tt) ;;;
  lift (refuse_if (has_preparation && ((so_status row ≠? CsPlanned) || negb (all_planned states))) CeRecordInvalid) ;;;
  (if is_completed (so_status row) then eret tt
   else recoverable <- proof_is_recoverable operation_id ;; lift (refuse_if (negb recoverable) CeRecordInvalid)) ;;;
  (if has_tombstone
   then marker <- stored (read_cleanup_marker euid self tree_fuel operation_id) ;;
        lift (refuse_if ((mk_plan_hash marker ≠? hex (so_plan_hash row)) || (mk_items marker ≠? plan_artifacts plan))
                CeRecordInvalid) ;;;
        (if is_completed (so_status row) && (resuming ≠? Some operation_id)
         then items <- exact_terminal_items operation_id plan ;;
              lift (refuse_if (negb (items_match (so_status row) items)) CeRecordInvalid) ;;;
              recoverable <- proof_is_recoverable operation_id ;;
              (if recoverable : bool then eret tt
               else verify_terminal_proof operation_id (mk_plan_hash marker) (so_status row) items)
         else eret tt)
   else lift (refuse_if ((so_status row =? CsRunning)
                         && existsb (fun state => is_item_status state ≠? ItPlanned) states) CeRecordInvalid)) ;;;
  eret (plan, states).

(** The rows that were matched with a tombstone and with a preparation, and
    what all rows protect. *)
Fixpoint check_operations (tombstones preparations : list Uuid) (resuming : option Uuid) (rows : list OperationRow)
    (r : Reserved) : clean (list Uuid * list Uuid * Reserved) :=
  match rows with
  | [] => eret ([], [], r)
  | row :: rest =>
      let operation_id := so_operation_id row in
      let has_tombstone := bool_decide (operation_id ∈ tombstones) in
      let has_preparation := bool_decide (operation_id ∈ preparations) in
      lift (refuse_if (has_tombstone && has_preparation) CeRecordInvalid) ;;;
      if negb has_tombstone && negb (so_retirement_pending row) && is_completed (so_status row)
      then check_operations tombstones preparations resuming rest r
      else
        checked <- check_operation row has_tombstone has_preparation resuming ;;
        r <- (if resuming =? Some operation_id
              then recoverable <- proof_is_recoverable operation_id ;;
                   lift (refuse_if (negb recoverable) CeRecordInvalid) ;;;
                   eret r
              else eret (reserve checked.1 checked.2 r)) ;;
        found <- check_operations tombstones preparations resuming rest r ;;
        eret ((if has_tombstone then operation_id :: found.1.1 else found.1.1),
              (if has_preparation then operation_id :: found.1.2 else found.1.2), found.2)
  end.

(** Every tombstone and preparation belongs to a row. *)
Definition protect_from_cleanup_operations (resuming : option Uuid) (r : Reserved) : clean Reserved :=
  tombstones <- stored (cleanup_tombstones euid self tree_fuel) ;;
  preparations <- stored (cleanup_preparations euid tree_fuel) ;;
  rows <- fetch DbOperations ;;
  found <- check_operations tombstones preparations resuming rows r ;;
  lift (refuse_if (negb (bool_decide (list_to_set (C := gset Uuid) found.1.1 = list_to_set tombstones))) CeRecordInvalid) ;;;
  lift (refuse_if (negb (bool_decide (list_to_set (C := gset Uuid) found.1.2 = list_to_set preparations))) CeRecordInvalid) ;;;
  eret found.2.

(** ** The plan *)

Definition protect_app (p : protection * protection) (app : RecoveredApp) : protection * protection :=
  (protect (protect p.1 (ra_app_id app) (ra_active_release_id app) PrActive) (ra_app_id app) (ra_pending_release_id app) PrPending,
   protect p.2 (ra_app_id app) (ra_draft_revision app) PrCurrentDraft).

Definition protect_from_deployments (releases : list ValidRelease) (revisions : gset (Uuid * Uuid)) (unregistered : gset Uuid)
    (p : protection * protection) : clean (protection * protection) :=
  rows <- fetch DbDeployments ;;
  policies <- enabled_policies ;;
  let valid := valid_keys releases in
  kept <- lift (protect_policies policies unregistered valid rows p.1) ;;
  all <- lift (protect_rows policies unregistered valid revisions rows (MkProtections kept p.2 ∅)) ;;
  eret (pt_releases all, pt_revisions all).

Definition build_plan_inner (resuming : option Uuid) (automatic_app : option Uuid) : clean ArtifactInventory :=
  report <- stored (scan_store euid self tree_fuel) ;;
  prog_bind (validate_app_tombstones euid) (fun r => lift (map_err (fun _ => CeInventoryIncomplete) r)) ;;;
  lift (refuse_if (existsb (fun issue => is_code issue ≠? "TEMP_ARTIFACT_IGNORED") (rr_issues report)) CeInventoryIncomplete) ;;;
  names <- read_dir [] ;;
  root_temps <- collect_root_temps names ;;
  collected <- inventory_all (map ra_app_id (rr_valid_apps report)) (MkCollected [] ∅ root_temps) ;;
  let releases := sort_by release_leb (co_releases collected) in
  let temps := sort_by temporary_leb (co_temps collected) in
  let protected := foldl protect_app (∅, ∅) (rr_valid_apps report) in
  unregistered <- prog_bind (completed_apps euid) (fun r => lift (map_err (fun _ => CeRecordInvalid) r)) ;;
  protected <- protect_from_deployments releases (dom (co_revisions collected)) unregistered protected ;;
  reserved <- protect_from_cleanup_operations resuming (MkReserved protected.1 protected.2 []) ;;
  lift (refuse_if (negb (bool_decide (dom (rv_releases reserved) ⊆ valid_keys releases))
                   || negb (bool_decide (dom (rv_revisions reserved) ⊆ dom (co_revisions collected)))
                   || existsb (fun a => bool_decide (a ∉ map cc_artifact temps)) (rv_temporaries reserved))
          CeInventoryIncomplete) ;;;
  let candidates := select_candidates automatic_app releases (co_revisions collected) temps (rv_releases reserved)
                      (rv_revisions reserved) (rv_temporaries reserved) in
  eret (MkArtifactInventory
    (MkCleanupPlan candidates (protected_list (rv_releases reserved) (rv_revisions reserved) (rv_temporaries reserved))
       (total_bytes candidates))
    (map ra_app_id (rr_valid_apps report)) (map (fun item => record_of (vr_release item)) releases)).

Definition build_plan : clean CleanupPlan :=
  prog_bind (build_plan_inner None None) (fun r => lift (match r with
    | Err (CeStore _) => Err CeInventoryIncomplete
    | Err error => Err error
    | Ok inventory => Ok (iv_plan inventory)
    end)).

Definition automatic_plan (app_id : Uuid) (resuming : option Uuid) : clean CleanupPlan :=
  policy <- load_policy app_id ;;
  inventory <- build_plan_inner resuming (Some app_id) ;;
  let plan := iv_plan inventory in
  eret (if rt_enabled policy then plan else MkCleanupPlan [] (cp_protected plan) 0).

Definition resume_candidates (operation_id : Uuid) : clean (list CleanupArtifact) :=
  inventory <- build_plan_inner (Some operation_id) None ;;
  eret (plan_artifacts (iv_plan inventory)).
End inventory.
