(* ===== verification/CleanupRun.v ===== *)
(** * CleanupRun: cleanup operations and automatic retention

    [src/cleanup_execution.rs] and [artifacts] of [src/retention.rs] over the
    planner and the tombstones of the store, and the finalizers of
    [src/storage_cleanup.rs]. *)

From S2P Require Import Prelude Text WebhookProtocol Ingress Reference Models Effects Codec Names Drafts Compose Database Ledger PollStates Idempotency FileSystem StoreBase ConfigRevision ReleaseStore AppDirectories WebhookStore Recovery CleanupStore Maintenance Lifecycle Catalog CleanupPlanner.

Section run.
Context {UT : UuidText} {ST : StoreText} {CR : Crypto} {CT : ComposeText} {WT : WebhookText} {RT : RecoveryText}
  {KT : CleanupText} {TT : TombstoneText} {MJ : MaintenanceJson}.
Context (euid : Z) (self : AppStore) (tree_fuel : nat).

Abbreviation clean A := (eprog mev CleanupError A).

(** Any error is [RecordInvalid]. *)
Definition or_invalid {E A} (q : eprog mev E A) : clean A :=
  prog_bind q (fun r => lift (map_err (fun _ => CeRecordInvalid) r)).

Definition now : clean Time := ask (OnFiles FsNow).

(** ** Execution of a plan *)

Definition record_detached (operation_id : Uuid) (ordinal : nat) (candidate : CleanupCandidate) : clean unit :=
  at_ <- (match cc_artifact candidate, cc_release_record candidate with
          | CaRelease _ _ _, Some _ => now
          | _, _ => eret 0%Z
          end) ;;
  fetch (DbRecordDetached operation_id ordinal candidate at_).

Definition record_item_failure (operation_id : Uuid) (ordinal : nat) (code : string) : clean unit :=
  changed <- fetch (DbRecordFailure operation_id ordinal code) ;;
  lift (refuse_if (negb (changed =? 1)%nat) CeDatabase).

(** The revision a release that stays needs. *)
Definition keep_revision (a : CleanupArtifact) (failed_revisions : gset (Uuid * Uuid)) : gset (Uuid * Uuid) :=
  match a with
  | CaRelease app_id _ config_revision_id => {[(app_id, config_revision_id)]} ∪ failed_revisions
  | _ => failed_revisions
  end.

(** An artifact may have gained a reference since the plan was made; one that
    was already renamed is resumed all the same. *)
Definition newly_protected (operation_id : Uuid) (ordinal : nat) (a : CleanupArtifact)
    (eligible : option (list CleanupArtifact)) : clean bool :=
  match eligible with
  | None => eret false
  | Some eligible =>
      if bool_decide (a ∈ eligible) then eret false
      else detached <- or_invalid (stored (cleanup_artifact_is_detached euid self tree_fuel operation_id ordinal a)) ;;
           eret (negb detached)
  end.

Definition revision_kept (a : CleanupArtifact) (failed_revisions : gset (Uuid * Uuid)) : bool :=
  match a with CaConfigRevision app_id revision_id => bool_decide ((app_id, revision_id) ∈ failed_revisions) | _ => false end.

(** One item; the revisions that must stay from here on. *)
Definition execute_item (operation_id : Uuid) (eligible : option (list CleanupArtifact)) (ordinal : nat)
    (candidate : CleanupCandidate) (failed_revisions : gset (Uuid * Uuid)) : clean (gset (Uuid * Uuid)) :=
  let a := cc_artifact candidate in
  let retain code :=
    or_invalid (record_item_failure operation_id ordinal code) ;;; eret (keep_revision a failed_revisions) in
  stored_status <- or_invalid (fetch (DbItemStatus operation_id ordinal)) ;;
  match stored_status with
  | ItDetached => eret failed_revisions
  | ItFailed => eret (keep_revision a failed_revisions)
  | ItPlanned =>
      protected <- newly_protected operation_id ordinal a eligible ;;
      if protected : bool then retain "CLEANUP_ITEM_PROTECTED"
      else if revision_kept a failed_revisions
      then or_invalid (record_item_failure operation_id ordinal "RELEASE_RETAINED") ;;; eret failed_revisions
      else
        outcome <- prog_bind (embed (detach_cleanup_artifact euid self tree_fuel operation_id ordinal a)) (fun r => eret r) ;;
        match outcome with
        | Ok Detached | Ok AlreadyDetached =>
            or_invalid (record_detached operation_id ordinal candidate) ;;; eret failed_revisions
        | Ok ConfirmedRetained | Err SeReleaseConflict => retain "CLEANUP_ITEM_RETAINED"
        | Ok ConfirmedMissing | Err _ => fail CeRecordInvalid
        end
  end.

Fixpoint execute_items (operation_id : Uuid) (eligible : option (list CleanupArtifact)) (ordinal : nat)
    (candidates : list CleanupCandidate) (failed_revisions : gset (Uuid * Uuid)) : clean unit :=
  match candidates with
  | [] => eret tt
  | candidate :: rest =>
      failed_revisions <- execute_item operation_id eligible ordinal candidate failed_revisions ;;
      execute_items operation_id eligible (S ordinal) rest failed_revisions
  end.

Definition execute_artifacts (operation_id : Uuid) (plan : CleanupPlan) (hash : string)
    (eligible : option (list CleanupArtifact)) : clean ApplyResponse :=
  or_invalid (stored (prepare_cleanup_tombstone euid self tree_fuel operation_id hash (plan_artifacts plan))) ;;;
  or_invalid (fetch (DbSetRunning operation_id)) ;;;
  execute_items operation_id eligible 0 (cp_candidates plan) ∅ ;;;
  items <- or_invalid (exact_terminal_items operation_id plan) ;;
  let status := if existsb ai_retained items then CsCompletedWithFailures else CsCompleted in
  at_ <- now ;;
  or_invalid (fetch (DbFinish operation_id status at_)) ;;;
  eret (MkApplyResponse operation_id (hex hash) status items).

(** ** Finalizers *)

(** One operation whose files remain, or whose retirement was begun. *)
Definition finalize_operation (tombstones : list Uuid) (operation_id : Uuid) : clean unit :=
  let owned := bool_decide (operation_id ∈ tombstones) in
  marker <- (if owned then marker <- stored (read_cleanup_marker euid self tree_fuel operation_id) ;; eret (Some marker)
             else eret None) ;;
  operation <- fetch (DbOperation operation_id) ;;
  operation <- lift (ok_or operation CeRecordInvalid) ;;
  plan <- lift (ok_or (plan_of_json (so_plan_json operation)) CeRecordInvalid) ;;
  let hash := so_plan_hash operation in
  let status := so_status operation in
  let retiring := so_retirement_pending operation in
  lift (refuse_if ((plan_hash (so_plan_json operation) ≠? hash)
                   || is_some_and marker (fun marker => (mk_plan_hash marker ≠? hex hash)
                                                        || (mk_items marker ≠? plan_artifacts plan))
                   || (is_none marker && negb retiring)) CeRecordInvalid) ;;;
  if negb (is_completed status) then lift (refuse_if retiring CeRecordInvalid)
  else
    lift (refuse_if (is_none (so_completed_at operation)) CeRecordInvalid) ;;;
    items <- exact_terminal_items operation_id plan ;;
    lift (refuse_if (negb (items_match status items)) CeRecordInvalid) ;;;
    recoverable <- proof_is_recoverable operation_id ;;
    if recoverable : bool then lift (refuse_if retiring CeRecordInvalid)
    else
      verify_terminal_proof operation_id (hex hash) status items ;;;
      fetch (DbSetRetiring operation_id true) ;;;
      (if is_some marker then stored (finalize_cleanup_tombstone euid self tree_fuel operation_id)
       else stored (sync_cleanup_retirement euid operation_id)) ;;;
      fetch (DbSetRetiring operation_id false).

Definition finalize_succeeded : clean unit :=
  tombstones <- stored (cleanup_tombstones euid self tree_fuel) ;;
  retiring <- fetch DbRetiring ;;
  each (finalize_operation tombstones) (tombstones ++ filter (fun op => op ∉ tombstones) retiring).

Definition pending_operation_count : clean nat :=
  protect_from_cleanup_operations euid self tree_fuel None (MkReserved ∅ ∅ []) ;;;
  tombstones <- stored (cleanup_tombstones euid self tree_fuel) ;;
  preparations <- stored (cleanup_preparations euid tree_fuel) ;;
  rows <- fetch DbPendingOperations ;;
  eret (size (list_to_set (C := gset Uuid) (tombstones ++ preparations ++ rows))).

(** ** Automatic retention *)

Definition publish_automatic (app_id : Uuid) (policy : RetentionPolicy) (plan_json : string) : clean Uuid :=
  operation_id <- ask (OnFiles FsNewV4) ;;
  at_ <- now ;;
  plan <- lift (ok_or (plan_of_json plan_json) CeRecordInvalid) ;;
  lift (refuse_if (existsb (fun c => match cc_artifact c with CaTemporary _ _ _ => true | _ => false end) (cp_candidates plan))
          CeRecordInvalid) ;;;
  fetch (DbPublishArtifacts operation_id app_id policy plan plan_json (plan_hash plan_json) at_) ;;;
  eret operation_id.

(** The plan that is resumed. *)
Definition resumed_plan (app_id operation_id : Uuid) : clean CleanupPlan :=
  auth <- authorization operation_id ;;
  auth <- lift (ok_or auth CeRecordInvalid) ;;
  lift (refuse_if (az_app auth ≠? app_id) CeRecordInvalid) ;;;
  operation <- fetch (DbOperation operation_id) ;;
  operation <- lift (ok_or operation CeDatabase) ;;
  lift (ok_or (plan_of_json (so_plan_json operation)) CeRecordInvalid).

(** [app_free]: the guard of the application could be taken. *)
Definition artifacts (app_free : bool) (app_id : Uuid) : clean bool :=
  lift (refuse_if (negb app_free) CeBusy) ;;;
  finalize_succeeded ;;;
  policy <- load_policy app_id ;;
  resumed <- fetch (DbPendingAuthorization app_id CkArtifacts) ;;
  idle <- (if is_some resumed then eret false
           else if negb (rt_enabled policy) then eret true
           else prog_bind (embed (read_metadata euid app_id)) (fun r => eret (negb (is_ok r)))) ;;
  if idle : bool then eret false
  else
    current <- automatic_plan euid self tree_fuel app_id resumed ;;
    let execute operation_id plan :=
      body <- execute_artifacts operation_id plan (plan_hash (plan_to_json plan)) (Some (plan_artifacts current)) ;;
      fetch (DbCompleteAuthorization operation_id (json_print (response_value body))) ;;;
      finalize_succeeded ;;;
      eret (ar_status body =? CsCompletedWithFailures) in
    match resumed with
    | Some operation_id => plan <- resumed_plan app_id operation_id ;; execute operation_id plan
    | None =>
        if is_nil (cp_candidates current) then eret false
        else operation_id <- publish_automatic app_id policy (plan_to_json current) ;;
             execute operation_id current
    end.
End run.
