(* ===== verification/Inspection.v ===== *)
(** * Inspection: what a program that only reads may return

    The scans, loads and validations of the store change nothing. [inspects] is
    that property, [may_return h w q x] says that [q] can return [x] on the file
    system [w] with some calls failing, and the inversion lemmas take such an
    outcome apart along the program. *)

From S2P Require Import Prelude Text WebhookProtocol Ingress Reference Models Effects Codec Names Drafts Compose FileSystem StoreBase ConfigRevision ReleaseStore AppDirectories WebhookStore Recovery CleanupStore Catalog.

Fixpoint inspects {A} (q : prog fsev A) : Prop :=
  match q with
  | Ret _ => True
  | Vis e k => reads e = true /\ forall x, inspects (k x)
  | OutOfFuel => True
  end.

Lemma reads_only_inspects {A} (q : prog fsev A) : reads_only q -> inspects q.
Proof. induction q as [a|X e k IH|]; simpl; [done| |done]. intros [He Hk]. split; [done|]. intros x. by apply IH. Qed.

Lemma inspects_bind {A B} (q : prog fsev A) (f : A -> prog fsev B) :
  inspects q -> (forall a, inspects (f a)) -> inspects (prog_bind q f).
Proof.
  intros Hq Hf. induction q as [a|X e k IH|]; simpl in *; [auto| |done].
  destruct Hq as [He Hk]. split; [done|]. intros x. by apply IH, Hk.
Qed.

Lemma inspects_ebind {A B} (q : eprog fsev StoreError A) (f : A -> eprog fsev StoreError B) :
  inspects q -> (forall a, inspects (f a)) -> inspects (ebind q f).
Proof. intros Hq Hf. apply inspects_bind; [done|]. by intros [a|e]. Qed.

Lemma inspects_cbind {A B} (q : eprog fsev StoreError (result string A)) (f : A -> eprog fsev StoreError (result string B)) :
  inspects q -> (forall a, inspects (f a)) -> inspects (cbind q f).
Proof. intros Hq Hf. apply inspects_ebind; [done|]. by intros [a|e]. Qed.

Lemma inspects_try {F X} (e : fsev (result F X)) (f : F -> StoreError) : reads e = true -> inspects (try_call e f).
Proof. intros He. split; [done|]. by intros [x|r]. Qed.

(** ** Outcomes *)

Section outcomes.
Context (h : Host) (w : fs).

Definition may_return {A} (q : prog fsev A) (x : A) : Prop :=
  exists tr, trace q tr (Some x) /\ relied (step h) (possible h) w tr.

Lemma relied_app tr1 tr2 :
  relied (step h) (possible h) w (tr1 ++ tr2) <->
  relied (step h) (possible h) w tr1 /\ relied (step h) (possible h) (foldl (step h) w tr1) tr2.
Proof.
  generalize w. induction tr1 as [|o tr1 IH]; intros w'; simpl; [tauto|]. rewrite IH. tauto.
Qed.

Lemma inspects_kept {A} (q : prog fsev A) tr o : inspects q -> trace q tr o -> foldl (step h) w tr = w.
Proof.
  intros Hq Ht. induction Ht as [q|a|X e k x tr o Ht IH]; [done..|]. destruct Hq as [He Hk]. cbn [foldl].
  rewrite step_none by done. by apply IH.
Qed.

Lemma may_ret {A} (a b : A) : may_return (Ret a) b -> a = b.
Proof. intros (tr & [_ ->]%trace_ret_inv & _). done. Qed.

Lemma may_vis {A X} (e : fsev X) (k : X -> prog fsev A) b :
  reads e = true -> may_return (Vis e k) b -> exists x, possible h X w e x /\ may_return (k x) b.
Proof.
  intros He (tr & (x & tr' & -> & Ht)%trace_vis_inv & [Hx Hr]). exists x. split; [done|]. exists tr'. split; [done|].
  by rewrite step_none in Hr.
Qed.

Lemma may_bind {A B} (q : prog fsev A) (f : A -> prog fsev B) b :
  inspects q -> may_return (prog_bind q f) b -> exists a, may_return q a /\ may_return (f a) b.
Proof.
  intros Hq (tr & (tr1 & tr2 & a & -> & H1 & H2)%trace_bind_inv & Hr). apply relied_app in Hr as [Hr1 Hr2].
  rewrite (inspects_kept q tr1 (Some a)) in Hr2 by done. exists a. split; [by exists tr1|by exists tr2].
Qed.

Lemma may_ebind {A B} (q : eprog fsev StoreError A) (f : A -> eprog fsev StoreError B) b :
  inspects q -> may_return (ebind q f) (Ok b) -> exists a, may_return q (Ok a) /\ may_return (f a) (Ok b).
Proof.
  intros Hq ([a|e] & Ha & Hb)%may_bind; [by exists a| |done]. by apply may_ret in Hb.
Qed.

Lemma may_cbind {A B} (q : eprog fsev StoreError (result string A)) (f : A -> eprog fsev StoreError (result string B)) b :
  inspects q -> may_return (cbind q f) (Ok (Ok b)) ->
  exists a, may_return q (Ok (Ok a)) /\ may_return (f a) (Ok (Ok b)).
Proof.
  intros Hq ([a|e] & Ha & Hb)%may_ebind; [by exists a| |done]. by apply may_ret in Hb.
Qed.

Lemma may_lift {A B} (r : result StoreError A) (f : A -> eprog fsev StoreError B) b :
  may_return (ebind (lift r) f) (Ok b) -> exists a, r = Ok a /\ may_return (f a) (Ok b).
Proof. intros (a & ->%may_ret & Hb)%may_ebind; [|done]. by exists a. Qed.

Lemma may_try {F X B} (e : fsev (result F X)) (g : F -> StoreError) (f : X -> eprog fsev StoreError B) b :
  reads e = true -> may_return (ebind (try_call e g) f) (Ok b) ->
  exists x, possible h _ w e (Ok x) /\ may_return (f x) (Ok b).
Proof.
  intros He (x & Hx & Hb)%may_ebind; [|by apply inspects_try]. apply may_vis in Hx as ([y|r] & Hp & Hx%may_ret); [|done|done].
  simpl in Hx. injection Hx as ->. by exists x.
Qed.

Lemma may_attempt {A B} (q : eprog fsev StoreError A) (f : result StoreError A -> eprog fsev StoreError B) b :
  inspects q -> may_return (ebind (attempt q) f) (Ok b) -> exists o, may_return q o /\ may_return (f o) (Ok b).
Proof.
  intros Hq (o & Ho & Hb)%may_ebind; [|by apply inspects_bind]. apply may_bind in Ho as (o' & Ho' & Hr%may_ret); [|done].
  injection Hr as ->. by exists o.
Qed.

(** *** Files *)

(** What a file may read as: anything when its content is unspecified. *)
Definition file_reads (p : path) (name text : string) : Prop :=
  exists i d uid mode content synced, dir_at h w p = Some (i, d)
    /\ d_entries d !! name = Some (EFile uid mode content synced) /\ (content = Some text \/ content = None).

Lemma possible_read p name text : possible h _ w (FsReadToString p name) (Ok text) -> file_reads p name text.
Proof.
  intros [Hx|[Hx|Hx]]; [|done|].
  - cbn [answer] in Hx. unfold on_name in Hx. destruct (dir_at h w p) as [[i d]|] eqn:Hd; [|done].
    destruct (d_entries d !! name) as [[uid mode [c|] b| |]|] eqn:He; try done. injection Hx as ->.
    exists i, d, uid, mode, (Some c), b. auto.
  - destruct Hx as (i & d & uid & mode & b & Hd & He). exists i, d, uid, mode, None, b. auto.
Qed.

Lemma possible_list p names : possible h _ w (FsReadDir p) (Ok names) ->
  exists i d, dir_at h w p = Some (i, d) /\ names ≡ₚ (map_to_list (d_entries d)).*1.
Proof.
  intros [Hx|[Hx|Hx]]; [|done|].
  - cbn [answer] in Hx. destruct (dir_at h w p) as [[i d]|]; [|done]. injection Hx as ->. by exists i, d.
  - destruct Hx as (i & d & l & Hd & [= ->] & Hp). by exists i, d.
Qed.

Lemma possible_stat p st : possible h _ w (FsSymlinkMetadata p) (Ok st) ->
  exists e, walk w (EDir (h_root h)) p = Some e /\ stat h w e = Some st.
Proof.
  intros [Hx|[Hx|[]]]; [|done]. cbn [answer] in Hx. destruct (walk w (EDir (h_root h)) p) as [e|]; [|done].
  cbn [mbind option_bind] in Hx. destruct (stat h w e) as [st'|] eqn:Hs; [|done]. injection Hx as ->. by exists e.
Qed.

Lemma possible_missing p : possible h _ w (FsSymlinkMetadata p) (Err NotFound) -> dir_at h w p = None.
Proof.
  intros [Hx|[Hx|[]]]; [|done]. cbn [answer] in Hx. unfold dir_at, resolve.
  destruct (walk w (EDir (h_root h)) p) as [[| |j]|]; try done. cbn [mbind option_bind stat] in *. by destruct (w !! j).
Qed.

Lemma dir_at_lookup p i d : dir_at h w p = Some (i, d) -> resolve h w p = Some i /\ w !! i = Some d.
Proof.
  unfold dir_at. destruct (resolve h w p) as [j|]; [|done]. simpl. destruct (w !! j) eqn:E; [|done]. simpl.
  intros [= <- <-]. done.
Qed.
End outcomes.

Create HintDb inspects.

(** Sequences, branches and reads; what is left are the programs called. *)
Ltac inspect1 :=
  match goal with
  | |- forall _, _ => intro
  | |- _ /\ _ => split
  | |- reads _ = true => reflexivity
  | |- True => exact I
  | |- inspects (Ret _) => exact I
  | |- inspects (eret _) => exact I
  | |- inspects (fail _) => exact I
  | |- inspects (cret _) => exact I
  | |- inspects (issue _) => exact I
  | |- inspects (lift _) => exact I
  | |- inspects OutOfFuel => exact I
  | |- inspects (ask _) => split
  | |- inspects (Vis _ _) => split
  | |- inspects _ => assumption
  | |- inspects (cbind _ _) => apply inspects_cbind
  | |- inspects (ebind _ _) => apply inspects_ebind
  | |- inspects (prog_bind _ _) => apply inspects_bind
  | |- inspects (try_call _ _) => apply inspects_try
  | |- inspects (io _) => apply inspects_try
  | |- inspects (perm _) => apply inspects_try
  | |- inspects (attempt _) => apply inspects_bind
  | |- inspects _ => solve [eauto 2 with inspects nocore]
  | |- inspects (match ?x with _ => _ end) => destruct x
  | |- inspects (let '(_, _) := ?x in _) => destruct x
  end.
Ltac inspect := repeat (cbv zeta; inspect1).

Section inspects.
Context {UT : UuidText} {ST : StoreText} {CR : Crypto} {CT : ComposeText} {WT : WebhookText} {RT : RecoveryText} {KT : CleanupText}.
Context (euid : Z) (self : AppStore) (key : string) (fuel : nat).

Lemma inspects_check_private q b : inspects (check_private euid q b).
Proof. apply reads_only_inspects, reads_only_check_private. Qed.
Lemma inspects_check_private_tree q rel b : inspects (check_private_tree euid q rel b).
Proof. apply reads_only_inspects, reads_only_check_private_tree. Qed.
Lemma inspects_load_verified q revision hmac_key : inspects (load_verified euid q revision hmac_key).
Proof. apply reads_only_inspects, reads_only_load_verified. Qed.
Hint Resolve inspects_check_private inspects_check_private_tree inspects_load_verified : inspects.

Lemma inspects_load q revision : inspects (load euid q revision).
Proof.
  apply reads_only_inspects.
  repeat (apply reads_only_ebind;
    [first [apply reads_only_check_private_tree | apply reads_only_read_environment | apply reads_only_load_files
           | by apply reads_only_try | apply reads_only_lift]|intros ?]).
  done.
Qed.
Hint Resolve inspects_load : inspects.

Lemma inspects_attempt {A} (q : eprog fsev StoreError A) : inspects q -> inspects (attempt q).
Proof. intros Hq. by apply inspects_bind. Qed.

Lemma inspects_io {X} (e : fsev (result IoKind X)) : reads e = true -> inspects (io e).
Proof. apply inspects_try. Qed.

Lemma inspects_read_metadata app_id : inspects (read_metadata euid app_id).
Proof. unfold read_metadata, read_metadata_at. inspect. Qed.
Hint Resolve inspects_attempt inspects_io inspects_read_metadata : inspects.

(** *** Webhooks *)

Lemma inspects_exists p : inspects (exists_ p).
Proof. unfold exists_. inspect. Qed.
Lemma inspects_entry_exists p : inspects (entry_exists p).
Proof. unfold entry_exists. inspect. Qed.
Lemma inspects_require_directory p : inspects (require_directory p).
Proof. unfold require_directory. inspect. Qed.
Lemma inspects_revision_entry_names d names : inspects (revision_entry_names euid d names).
Proof. induction names; cbn [revision_entry_names]; inspect. Qed.
Hint Resolve inspects_exists inspects_entry_exists inspects_require_directory inspects_revision_entry_names : inspects.

Lemma inspects_revision_directory d b : inspects (validate_revision_directory_entries euid d b).
Proof. unfold validate_revision_directory_entries. inspect. Qed.
Hint Resolve inspects_revision_directory : inspects.

Lemma inspects_load_revision_record a r m : inspects (load_revision_record euid key a r m).
Proof. unfold load_revision_record. inspect. Qed.
Lemma inspects_load_metadata a : inspects (load_metadata euid key a).
Proof. unfold load_metadata. inspect. Qed.
Hint Resolve inspects_load_revision_record inspects_load_metadata : inspects.

Lemma inspects_load_webhook_revision a r m : inspects (load_webhook_revision euid key a r m).
Proof. unfold load_webhook_revision. inspect. Qed.
Hint Resolve inspects_load_webhook_revision : inspects.

Lemma inspects_load_current a : inspects (load_current_webhook euid key a).
Proof. unfold load_current_webhook. inspect. Qed.
Lemma inspects_status a : inspects (status euid key a).
Proof. unfold status, secret_degraded. inspect. Qed.
Lemma inspects_secret_revision a r d : inspects (validate_secret_revision euid key a r d).
Proof. unfold validate_secret_revision. inspect. Qed.
Hint Resolve inspects_status inspects_secret_revision : inspects.
Lemma inspects_secret_entries a c names b : inspects (validate_secret_entries euid key a c names b).
Proof. revert b. induction names; intros b; cbn [validate_secret_entries]; inspect. Qed.
Hint Resolve inspects_secret_entries : inspects.
Lemma inspects_validate_app_directory a : inspects (validate_app_directory euid key a).
Proof. unfold validate_app_directory. inspect. Qed.

Lemma inspects_inventory_revisions a c names : inspects (inventory_revisions euid key a c names).
Proof. induction names; cbn [inventory_revisions]; inspect. Qed.
Hint Resolve inspects_inventory_revisions : inspects.
Lemma inspects_inventory_apps names : inspects (inventory_apps euid key names).
Proof. induction names; cbn [inventory_apps]; inspect. Qed.
Hint Resolve inspects_inventory_apps : inspects.
Lemma inspects_recovery_inventory : inspects (recovery_inventory euid key).
Proof. unfold recovery_inventory. inspect. Qed.

(** *** Trees and cleanup operations *)

Lemma inspects_service_owned p mode : inspects (check_service_owned_file_mode euid p mode).
Proof. unfold check_service_owned_file_mode. inspect. Qed.
Hint Resolve inspects_service_owned : inspects.
Lemma inspects_allowed_modes p modes : inspects (check_allowed_managed_file_modes euid p modes).
Proof. induction modes; cbn [check_allowed_managed_file_modes]; inspect. Qed.
Hint Resolve inspects_allowed_modes : inspects.
Lemma inspects_managed_tree_file p l b : inspects (check_managed_tree_file euid p l b).
Proof. unfold check_managed_tree_file. inspect. Qed.
Hint Resolve inspects_managed_tree_file : inspects.
Lemma inspects_managed_entries t r b policy names : inspects (managed_entries euid t r b policy names).
Proof. induction names; cbn [managed_entries]; inspect. Qed.
Hint Resolve inspects_managed_entries : inspects.
Lemma inspects_managed_tree n t depth policy pending k : inspects (managed_tree euid n t depth policy pending k).
Proof. revert pending k. induction n; intros [|d pending] k; cbn [managed_tree]; inspect. Qed.
Lemma inspects_validate_managed_tree t depth policy : inspects (validate_managed_tree euid fuel t depth policy).
Proof. apply inspects_managed_tree. Qed.
Hint Resolve inspects_validate_managed_tree : inspects.

Lemma inspects_private_entries d names : inspects (private_entries euid d names).
Proof. induction names; cbn [private_entries]; inspect. Qed.
Hint Resolve inspects_private_entries : inspects.
Lemma inspects_private_tree n pending : inspects (private_tree euid n pending).
Proof. revert pending. induction n; intros [|d pending]; cbn [private_tree]; inspect. Qed.
Hint Resolve inspects_private_tree : inspects.
Lemma inspects_cleanup_source p : inspects (validate_cleanup_source euid fuel p).
Proof. unfold validate_cleanup_source. inspect. Qed.
Lemma inspects_artifact_bytes n b pending total : inspects (artifact_bytes euid n b pending total).
Proof. revert pending total. induction n; intros [|[p l] pending] total; cbn [artifact_bytes]; inspect. Qed.
Lemma inspects_logical_bytes p a : inspects (logical_artifact_bytes euid fuel p a).
Proof. apply inspects_artifact_bytes. Qed.
Hint Resolve inspects_cleanup_source inspects_logical_bytes : inspects.
Lemma inspects_payload_entries p items names : inspects (check_payload_entries euid fuel p items names).
Proof. induction names; cbn [check_payload_entries]; inspect. Qed.
Lemma inspects_payload_items p n items : inspects (check_payload_items euid fuel p n items).
Proof. revert n. induction items; intros n; cbn [check_payload_items]; inspect. Qed.
Hint Resolve inspects_payload_entries inspects_payload_items : inspects.
Lemma inspects_cleanup_marker op : inspects (read_cleanup_marker euid self fuel op).
Proof. unfold read_cleanup_marker, check_retired, check_payload, integrity_key. inspect. Qed.
Hint Resolve inspects_cleanup_marker : inspects.
Lemma inspects_tombstone_operations names : inspects (tombstone_operations euid self fuel names).
Proof. induction names; cbn [tombstone_operations]; inspect. Qed.
Lemma inspects_preparation_operations names : inspects (preparation_operations euid fuel names).
Proof. induction names; cbn [preparation_operations]; inspect. Qed.
Hint Resolve inspects_tombstone_operations inspects_preparation_operations : inspects.
Lemma inspects_cleanup_tombstones : inspects (cleanup_tombstones euid self fuel).
Proof. unfold cleanup_tombstones, list_trash. inspect. Qed.
Lemma inspects_cleanup_preparations : inspects (cleanup_preparations euid fuel).
Proof. unfold cleanup_preparations, list_trash. inspect. Qed.
Hint Resolve inspects_cleanup_tombstones inspects_cleanup_preparations : inspects.

(** *** The scan *)

Lemma inspects_toml_contents d n m i : inspects (read_toml_contents euid d n m i).
Proof. unfold read_toml_contents. inspect. Qed.
Hint Resolve inspects_toml_contents : inspects.
Lemma inspects_toml {A} (f : string -> option A) d n m i : inspects (read_toml euid f d n m i).
Proof. unfold read_toml. inspect. Qed.
Lemma inspects_load_revision a r : inspects (load_revision euid self a r).
Proof. unfold load_revision. inspect. Qed.
Hint Resolve inspects_toml inspects_load_revision : inspects.
Lemma inspects_release_header a r i : inspects (read_release_header euid self a r i).
Proof. unfold read_release_header, read_release_toml. inspect. Qed.
Lemma inspects_link_path a n : inspects (validate_release_link_path euid a n).
Proof. unfold validate_release_link_path. inspect. Qed.
Hint Resolve inspects_release_header inspects_link_path : inspects.
Lemma inspects_expect_revision {A} a r e i m (k : LoadedRevision -> eprog fsev StoreError (result string A)) :
  (forall l, inspects (k l)) -> inspects (expect_revision euid self a r e i m k).
Proof. unfold expect_revision. inspect. Qed.
Lemma inspects_v2_release a i r : inspects (validate_v2_release euid self a i r).
Proof. unfold validate_v2_release, read_release_toml. inspect; apply inspects_expect_revision; inspect. Qed.
Hint Resolve inspects_v2_release : inspects.
Lemma inspects_collect_release a i n : inspects (collect_release euid self fuel a i n).
Proof. unfold collect_release. inspect. Qed.
Hint Resolve inspects_collect_release : inspects.
Lemma inspects_collect_releases a i names m : inspects (collect_releases euid self fuel a i names m).
Proof. revert m. induction names; intros m; cbn [collect_releases]; inspect. Qed.
Hint Resolve inspects_collect_releases : inspects.
Lemma inspects_release_revisions a l : inspects (check_release_revisions euid self a l).
Proof. induction l as [|[r e] l IH]; cbn [check_release_revisions]; inspect. apply inspects_expect_revision. inspect. Qed.
Lemma inspects_scan_draft a h : inspects (scan_draft euid self a h).
Proof. unfold scan_draft. inspect. apply inspects_expect_revision. inspect. Qed.
Lemma inspects_scan_active a h r : inspects (scan_active euid self a h r).
Proof. unfold scan_active, validate_active_compose. inspect. apply inspects_expect_revision. inspect. Qed.
Lemma inspects_active_revision a r : inspects (scan_active_revision euid self a r).
Proof. unfold scan_active_revision. inspect. apply inspects_expect_revision. inspect. Qed.
Hint Resolve inspects_release_revisions inspects_scan_draft inspects_scan_active inspects_active_revision : inspects.
Lemma inspects_scan_app a i x y : inspects (scan_app euid self fuel a i x y).
Proof. unfold scan_app, scan_releases, collect_release_revisions, scan_link, load_network_plan. inspect. Qed.
Hint Resolve inspects_scan_app inspects_validate_app_directory : inspects.
End inspects.

#[export] Hint Resolve inspects_check_private inspects_check_private_tree inspects_load_verified inspects_scan_app
  inspects_validate_app_directory inspects_validate_managed_tree inspects_link_path inspects_cleanup_tombstones
  inspects_load_revision inspects_toml inspects_toml_contents inspects_release_header inspects_v2_release
  inspects_collect_release inspects_collect_releases inspects_release_revisions inspects_scan_draft inspects_scan_active
  inspects_active_revision inspects_attempt inspects_io inspects_status inspects_cleanup_marker : inspects.

Section catalog.
Context {UT : UuidText} {ST : StoreText} {CR : Crypto} {CT : ComposeText} {WT : WebhookText} {RT : RecoveryText} {KT : CleanupText}.
Context (euid : Z) (self : AppStore) (fuel : nat).

Lemma inspects_scan_entry name : inspects (scan_entry euid self fuel name).
Proof. unfold scan_entry, scan_app_entry, temporary_tree, webhook_issue. inspect. Qed.
Hint Resolve inspects_scan_entry : inspects.
Lemma inspects_scan_entries names : inspects (scan_entries euid self fuel names).
Proof. induction names; cbn [scan_entries]; inspect. Qed.
Hint Resolve inspects_scan_entries : inspects.
Lemma inspects_scan_store : inspects (scan_store euid self fuel).
Proof. unfold scan_store. inspect. Qed.
End catalog.
