(* ===== verification/MixedInspection.v ===== *)
(** * MixedInspection: outcomes of programs over files and tables

    The counterpart of [Inspection] for programs that also query the database:
    [returns h w t q x] says that [q] can return [x] on the file system [w] and
    the tables [t], with some calls failing, when nothing else changes them. *)

From S2P Require Import Prelude Text WebhookProtocol Ingress Reference Models Effects Codec Names Drafts Compose Database Ledger PollStates Idempotency FileSystem StoreBase ConfigRevision ReleaseStore AppDirectories WebhookStore Recovery CleanupStore Maintenance Lifecycle Catalog Inspection CleanupPlanner.

Definition queries {X} (e : dbev X) : bool :=
  match e with
  | DbProof _ _ | DbAppProofs | DbUnfinalized | DbUnregistrations | DbRepairAudits _ _ | DbDeployments | DbEnabledApps
  | DbRetention _ | DbOperations | DbOperation _ | DbItems _ | DbOperationProof _ | DbRetiring | DbPendingOperations
  | DbAuthorization _ | DbItemStatus _ _ | DbPendingAuthorization _ _ => true
  | _ => false
  end.

Definition call_reads {X} (e : mev X) : bool :=
  match e with OnFiles e => reads e | OnDb e => queries e end.

Fixpoint minspects {A} (q : prog mev A) : Prop :=
  match q with
  | Ret _ => True
  | Vis e k => call_reads e = true /\ forall x, minspects (k x)
  | OutOfFuel => True
  end.

Lemma minspects_embed {A} (q : prog fsev A) : inspects q -> minspects (embed q).
Proof. induction q as [a|X e k IH|]; simpl; [done| |done]. intros [He Hk]. split; [done|]. intros x. by apply IH. Qed.

Lemma minspects_bind {A B} (q : prog mev A) (f : A -> prog mev B) :
  minspects q -> (forall a, minspects (f a)) -> minspects (prog_bind q f).
Proof.
  intros Hq Hf. induction q as [a|X e k IH|]; simpl in *; [auto| |done].
  destruct Hq as [He Hk]. split; [done|]. intros x. by apply IH, Hk.
Qed.

Lemma minspects_ebind {E A B} (q : eprog mev E A) (f : A -> eprog mev E B) :
  minspects q -> (forall a, minspects (f a)) -> minspects (ebind q f).
Proof. intros Hq Hf. apply minspects_bind; [done|]. by intros [a|e]. Qed.

Lemma minspects_files {E A} (f : StoreError -> E) (q : eprog fsev StoreError A) : inspects q -> minspects (files f q).
Proof. intros Hq. apply minspects_bind; [by apply minspects_embed|by intros]. Qed.

Lemma minspects_query {E X} (e : dbev X) (failed : E) : queries e = true -> minspects (query e failed).
Proof. intros He. by split. Qed.

(** ** Outcomes *)

Section outcomes.
Context {UT : UuidText} {TM : SqlTime} {MJ : MaintenanceJson}.
Context (h : Host).

(** A statement that fails changes nothing. *)
Definition mstep (s : fs * Tables) (o : obs mev) : fs * Tables :=
  match o with
  | Obs e x => match e in mev X return X -> fs * Tables with
               | OnFiles e => fun x => (step h s.1 (Obs e x), s.2)
               | OnDb e => fun x => (s.1, match x with Some _ => (db_exec e s.2).2 | None => s.2 end)
               end x
  end.

Definition mpossible X (s : fs * Tables) (e : mev X) : X -> Prop :=
  match e in mev X return X -> Prop with
  | OnFiles e => fun x => possible h _ s.1 e x
  | OnDb e => fun x => x = None \/ x = (db_exec e s.2).1
  end.

Definition returns (w : fs) (t : Tables) {A} (q : prog mev A) (x : A) : Prop :=
  exists tr, trace q tr (Some x) /\ relied mstep mpossible (w, t) tr.

Lemma mrelied_app s tr1 tr2 :
  relied mstep mpossible s (tr1 ++ tr2) <-> relied mstep mpossible s tr1 /\ relied mstep mpossible (foldl mstep s tr1) tr2.
Proof. revert s. induction tr1 as [|o tr1 IH]; intros s; simpl; [tauto|]. rewrite IH. tauto. Qed.

Lemma query_keeps {X} (e : dbev X) t : queries e = true -> (db_exec e t).2 = t.
Proof. by destruct e. Qed.

Lemma mstep_none {X} (e : mev X) x s : call_reads e = true -> mstep s (Obs e x) = s.
Proof.
  destruct e as [X e|X e]; simpl; intros He; destruct s as [w t]; simpl.
  - f_equal. by apply step_none.
  - rewrite query_keeps by done. by destruct x.
Qed.

Lemma minspects_kept {A} (q : prog mev A) s tr o : minspects q -> trace q tr o -> foldl mstep s tr = s.
Proof.
  intros Hq Ht. induction Ht as [q|a|X e k x tr o Ht IH]; [done..|]. destruct Hq as [He Hk]. cbn [foldl].
  rewrite mstep_none by done. by apply IH.
Qed.

Section fixed.
Context (w : fs) (t : Tables).

Lemma ret_returns {A} (a b : A) : returns w t (Ret a) b -> a = b.
Proof. intros (tr & [_ ->]%trace_ret_inv & _). done. Qed.

Lemma vis_returns {A X} (e : mev X) (k : X -> prog mev A) b :
  call_reads e = true -> returns w t (Vis e k) b -> exists x, mpossible X (w, t) e x /\ returns w t (k x) b.
Proof.
  intros He (tr & (x & tr' & -> & Ht)%trace_vis_inv & [Hx Hr]). exists x. split; [done|]. exists tr'. split; [done|].
  by rewrite mstep_none in Hr.
Qed.

Lemma bind_returns {A B} (q : prog mev A) (f : A -> prog mev B) b :
  minspects q -> returns w t (prog_bind q f) b -> exists a, returns w t q a /\ returns w t (f a) b.
Proof.
  intros Hq (tr & (tr1 & tr2 & a & -> & H1 & H2)%trace_bind_inv & Hr). apply mrelied_app in Hr as [Hr1 Hr2].
  rewrite (minspects_kept q _ tr1 (Some a)) in Hr2 by done. exists a. split; [by exists tr1|by exists tr2].
Qed.

Lemma ebind_returns {E A B} (q : eprog mev E A) (f : A -> eprog mev E B) b :
  minspects q -> returns w t (ebind q f) (Ok b) -> exists a, returns w t q (Ok a) /\ returns w t (f a) (Ok b).
Proof. intros Hq ([a|e] & Ha & Hb)%bind_returns; [by exists a| |done]. by apply ret_returns in Hb. Qed.

Lemma lift_returns {E A B} (r : result E A) (f : A -> eprog mev E B) b :
  returns w t (ebind (lift r) f) (Ok b) -> exists a, r = Ok a /\ returns w t (f a) (Ok b).
Proof. intros (a & ->%ret_returns & Hb)%ebind_returns; [|done]. by exists a. Qed.

Lemma refuse_returns {E B} (c : bool) (e : E) (f : unit -> eprog mev E B) b :
  returns w t (ebind (lift (refuse_if c e)) f) (Ok b) -> c = false /\ returns w t (f tt) (Ok b).
Proof. intros ([] & H%refuse_if_ok & Hb)%lift_returns. done. Qed.

Lemma embed_returns {A} (q : prog fsev A) a : returns w t (embed q) a -> may_return h w q a.
Proof.
  intros (tr & Ht & Hr). revert tr Ht Hr. generalize w as w'. intros w'. revert w'. induction q as [b|X e k IH|]; intros w' tr Ht Hr.
  - apply trace_ret_inv in Ht as [-> ->]. exists []. split; [constructor|done].
  - apply trace_vis_inv in Ht as (x & tr' & -> & Ht). destruct Hr as [Hx Hr]. simpl in Hr.
    destruct (IH x _ tr' Ht Hr) as (tr'' & Ht' & Hr'). exists (Obs e x :: tr''). split; [by constructor|done].
  - simpl in Ht. remember (Some a) as o eqn:Ho. remember OutOfFuel as q eqn:Hq. by destruct Ht.
Qed.

Lemma files_last {E A} (g : StoreError -> E) (q : eprog fsev StoreError A) a :
  inspects q -> returns w t (files g q) (Ok a) -> may_return h w q (Ok a).
Proof.
  intros Hq (r & Hr%embed_returns & E'%ret_returns)%bind_returns; [|by apply minspects_embed]. destruct r; [|done].
  by injection E' as ->.
Qed.

Lemma files_returns {E A B} (g : StoreError -> E) (q : eprog fsev StoreError A) (f : A -> eprog mev E B) b :
  inspects q -> returns w t (ebind (files g q) f) (Ok b) -> exists a, may_return h w q (Ok a) /\ returns w t (f a) (Ok b).
Proof.
  intros Hq (a & Ha%files_last & Hb)%ebind_returns; [by exists a|done|by apply minspects_files].
Qed.

Lemma query_returns {E X B} (e : dbev X) (failed : E) (f : X -> eprog mev E B) b :
  queries e = true -> returns w t (ebind (query e failed) f) (Ok b) ->
  exists x, (db_exec e t).1 = Some x /\ returns w t (f x) (Ok b).
Proof.
  intros He (x & Hx & Hb)%ebind_returns; [|by apply minspects_query]. exists x. split; [|done].
  apply vis_returns in Hx as (r & Hr & E'%ret_returns); [|done]. destruct Hr as [->| ->]; [done|].
  simpl in E'. destruct (db_exec e t).1; [|done]. by injection E' as ->.
Qed.
End fixed.
End outcomes.

(** ** States along a run

    [pre] says what may be called in a state; reads always may. *)

Class Lenient (pre : forall X, fs * Tables -> mev X -> Prop) : Prop :=
  lenient X s (e : mev X) : call_reads e = true -> pre X s e.

Section states.
Context {UT : UuidText} {TM : SqlTime} {MJ : MaintenanceJson}.
Context (h : Host) (pre : forall X, fs * Tables -> mev X -> Prop) {Hpre : Lenient pre}.

Abbreviation safe := (safe (mstep h) pre (mpossible h) True).

Lemma safe_reads {A} (q : prog mev A) s Q : minspects q -> (forall a, returns h s.1 s.2 q a -> Q s a) -> safe q s Q.
Proof using Hpre.
  revert s Q. induction q as [a|X e k IH|]; intros s Q; cbn [Effects.safe]; [|intros [He Hk] HQ|done].
  - intros _ HQ. apply HQ. exists []. split; [constructor|done].
  - split; [by apply Hpre|].
    intros x Hx. rewrite mstep_none by done. apply IH; [apply Hk|]. intros a (tr & Ht & Hr). apply HQ.
    exists (Obs e x :: tr). split; [by constructor|]. destruct s as [w t]. cbn [relied]. split; [done|].
    by rewrite mstep_none.
Qed.

Lemma safe_embed_bind {A B} (q : prog fsev A) (f : A -> prog fsev B) s Q :
  safe (embed q) s (fun s' a => safe (embed (f a)) s' Q) -> safe (embed (prog_bind q f)) s Q.
Proof.
  revert s. induction q as [a|X e k IH|]; intros s; cbn [embed prog_bind Effects.safe]; [done| |done]. intros [He Hk]. split; [done|].
  intros x Hx. by apply IH, Hk.
Qed.

Lemma safe_embed_ebind {A B} (q : eprog fsev StoreError A) (f : A -> eprog fsev StoreError B) s Q :
  safe (embed q) s (fun s' r => match r with Ok a => safe (embed (f a)) s' Q | Err e => Q s' (Err e) end) ->
  safe (embed (ebind q f)) s Q.
Proof. intros H. apply safe_embed_bind. eapply safe_mono; [exact H|]. by intros s' [a|e]. Qed.

Lemma safe_embed_reads {A} (q : prog fsev A) s Q :
  inspects q -> (forall a, may_return h s.1 q a -> Q s a) -> safe (embed q) s Q.
Proof using Hpre. intros Hq HQ. apply safe_reads; [by apply minspects_embed|]. intros a Ha%embed_returns. by apply HQ. Qed.

(** A read, and the rest. *)
Lemma safe_read_then {A B} (q : eprog fsev StoreError A) (f : A -> eprog fsev StoreError B) s Q :
  inspects q -> (forall e, Q s (Err e)) -> (forall a, may_return h s.1 q (Ok a) -> safe (embed (f a)) s Q) ->
  safe (embed (ebind q f)) s Q.
Proof using Hpre. intros Hq He HQ. apply safe_embed_ebind, safe_embed_reads; [done|]. intros [a|e]; auto. Qed.

(** A statement fails and changes nothing, or does what it does. *)
Lemma safe_query {E X} (e : dbev X) (failed : E) s (Q : fs * Tables -> result E X -> Prop) :
  pre _ s (OnDb e) -> Q s (Err failed) ->
  (forall x, (db_exec e s.2).1 = Some x -> Q (s.1, (db_exec e s.2).2) (Ok x)) -> safe (query e failed) s Q.
Proof.
  intros Ha He HQ. destruct s as [w t]. split; [done|]. intros [x|] Hx; cbn; [|done].
  destruct Hx as [Hx|Hx]; [done|]. by apply HQ.
Qed.
End states.

(** ** Runs without failures *)

Section serving.
Context {UT : UuidText} {TM : SqlTime} {MJ : MaintenanceJson}.
Context (h : Host).

Definition mserve (X : Type) (e : mev X) (s : fs * Tables) : X * (fs * Tables) :=
  match e in mev X return X * (fs * Tables) with
  | OnFiles e => let '(x, w) := serve h _ e s.1 in (x, (w, s.2))
  | OnDb e => let '(x, t) := db_exec e s.2 in (x, (s.1, t))
  end.

Lemma mserve_relied {A} (q : prog mev A) s :
  relied (mstep h) (mpossible h) s (run_log mserve q s)
  /\ foldl (mstep h) s (run_log mserve q s) = (run mserve q s).2.
Proof.
  revert s. induction q as [a|X e k IH|]; intros s; [done| |done]. cbn [run_log run].
  destruct (mserve X e s) as [x s'] eqn:Hs. cbn [relied foldl].
  assert (mpossible h X s e x /\ mstep h s (Obs e x) = s') as [Hp ->].
  { destruct s as [w t], e as [X e|X e]; simpl in Hs.
    - injection Hs as <- <-. by split; [left|].
    - destruct (db_exec e t) as [r t'] eqn:E. injection Hs as <- <-. cbn. rewrite E. split; [by right|].
      destruct r; [done|]. f_equal. destruct e; simpl in E; repeat case_match; by simplify_eq. }
  destruct (IH x s') as [Hr Hw]. by repeat split.
Qed.

Lemma mserve_returns {A} (q : prog mev A) w t x : (run mserve q (w, t)).1 = Some x -> returns h w t q x.
Proof.
  intros Hx. exists (run_log mserve q (w, t)). split; [|apply mserve_relied]. rewrite <- Hx. apply run_trace.
Qed.
End serving.

(** ** Automation *)

Create HintDb minspects.

Ltac minspect1 :=
  match goal with
  | |- forall _, _ => intros ?
  | |- minspects (Ret _) => exact I
  | |- minspects OutOfFuel => exact I
  | |- minspects (eret _) => exact I
  | |- minspects (fail _) => exact I
  | |- minspects (lift _) => exact I
  | |- call_reads _ = true /\ _ => split; [reflexivity|]
  | |- minspects (Vis _ _) => split; [reflexivity|]
  | |- minspects (ask _) => split; [reflexivity|]
  | |- minspects (ebind _ _) => apply minspects_ebind
  | |- minspects (prog_bind _ _) => apply minspects_bind
  | |- minspects (query _ _) => apply minspects_query; reflexivity
  | |- minspects (files _ _) => apply minspects_files; solve [inspect; eauto 2 with minspects nocore]
  | |- minspects (embed _) => apply minspects_embed; solve [inspect; eauto 2 with minspects nocore]
  | |- minspects _ => solve [eauto 2 with minspects nocore]
  | |- minspects (match ?x with _ => _ end) => destruct x
  | |- minspects (let '(_, _) := ?x in _) => destruct x
  end.
Ltac minspect := repeat (cbv zeta; minspect1).
