(* ===== verification/CatalogTheorems.v ===== *)
(** * CatalogTheorems: what the scan of the store establishes *)

From S2P Require Import Prelude Text WebhookProtocol Ingress Reference Models Effects Codec Names Drafts DraftSpec Compose ComposeTheorems FileSystem StoreBase ConfigRevision ReleaseStore AppDirectories WebhookStore Recovery CleanupStore Catalog Inspection.
From Stdlib Require Import Sorted.

Section sound.
Context {UT : UuidText} {ST : StoreText} {CR : Crypto} {CT : ComposeText} {WT : WebhookText} {RT : RecoveryText} {KT : CleanupText}.
Context (h : Host) (w : fs) (self : AppStore) (fuel : nat) (key : string).
Context (Hkey : as_integrity_key self = Some key).

Abbreviation euid := (h_euid h).
Abbreviation may := (may_return h w).
Abbreviation reads_as := (file_reads h w).

(** ** What is established *)

(** The revision is there, complete and intact, with this digest. *)
Definition revision_sound (app : path) (revision : Uuid) (hash : string) : Prop :=
  exists loaded, may (load_verified euid app revision key) (Ok loaded) /\ cm_config_sha256 (lv_metadata loaded) = hash.

(** The Compose document stored with a release: it has this hash, and it is the
    one generated, under the names of the application, for this image and this
    draft with the files of this revision. *)
Definition document_sound (directory : path) (app : AppMetadata) (app_id release_id revision : Uuid) (image hash : string)
    (schema : Z) (draft : NormalizedDraft) : Prop :=
  exists text, reads_as (release_directory directory release_id) "compose.yaml" text
    /\ hex (sha256 text) = hash
    /\ canonical_compose
         (MkComposeInput (MkAppResourceIdentity (am_id app) (am_slug app) (am_resource_name_schema_version app)) release_id image
            (path_join (path_join (path_join (as_canonical_apps_directory self) (uuid_to_string app_id)) "config-revisions")
               (uuid_to_string revision))
            draft (3 <=? schema)%Z)
         schema text.

(** The header stored in the directory of the application. *)
Definition header_stored (directory : path) (header : AppMetadata) : Prop :=
  exists text, reads_as directory "app.toml" text /\ metadata_of_toml text = Some header.

(** The release is signed, of this application and identifier; its revision is
    sound and of the signed digest and grace period; and its document has the
    signed hash and is the one that revision gives with the signed image. *)
Definition release_sound (app : path) (app_id release_id : Uuid) : Prop :=
  exists text value, reads_as (release_directory app release_id) "release.toml" text
    /\ release_of_toml text = Some value
    /\ let release := apply_schema_defaults value in
       rl_id release = release_id /\ rl_app_id release = app_id /\ sign release key = rl_integrity_hmac release
       /\ release_schema_supported (rl_schema_version release) (rl_compose_schema_version release) = true
       /\ exists header loaded binds draft, header_stored app header
            /\ may (load_verified euid app (rl_config_revision release) key) (Ok loaded)
            /\ cm_config_sha256 (lv_metadata loaded) = rl_config_sha256 release
            /\ cm_stop_grace_period_seconds (lv_metadata loaded) = rl_stop_grace_period_seconds release
            /\ normalize_verified canonical_json binds.1 loaded (am_display_name header) (rl_source_image_ref release)
                 (rl_credential_ref release) (am_auto_deploy_enabled header) (am_poll_interval_seconds header) key binds.2
               = Ok draft
            /\ document_sound app header app_id release_id (rl_config_revision release) (rl_runnable_image_ref release)
                 (rl_compose_sha256 release) (rl_compose_schema_version release) draft.

(** The header a link leads to: the fields that are projected, and a signed
    document behind them. *)
Definition linked_sound (app : path) (app_id : Uuid) (name : string) (header : ReleaseHeader) : Prop :=
  (exists i d, dir_at h w app = Some (i, d) /\ d_entries d !! name = Some (ELink (release_target (rh_id header))))
  /\ (exists i, walk w (EDir (h_root h)) (release_directory app (rh_id header)) = Some (EDir i))
  /\ rh_app_id header = app_id /\ validate_runnable_image (rh_runnable_image_ref header) = true
  /\ (exists text, reads_as (release_directory app (rh_id header)) "release.toml" text
        /\ release_header_of_toml text = Some header)
  /\ exists text value, reads_as (release_directory app (rh_id header)) "release.toml" text
       /\ release_of_toml text = Some value
       /\ sign (apply_schema_defaults value) key = rl_integrity_hmac (apply_schema_defaults value).

(** Every entry of [releases] that is not temporary. *)
Definition releases_sound (app : path) (app_id : Uuid) : Prop :=
  forall i d name e, dir_at h w (app ++ ["releases"]) = Some (i, d) -> d_entries d !! name = Some e ->
    exact_internal_temp_name name = true
    \/ exists release_id, name = uuid_to_string release_id /\ release_sound app app_id release_id.

(** The document of an active release is the canonical one of the application's
    settings, the release's image and the revision the release names. *)
Definition compose_sound (directory : path) (app : AppMetadata) (release : ReleaseHeader) (revision : Uuid) : Prop :=
  exists loaded discovery_image_ref binds draft,
    may (load_verified euid directory revision key) (Ok loaded)
    /\ Some (cm_config_sha256 (lv_metadata loaded)) = rh_config_sha256 release
    /\ am_discovery_image_ref app = Some discovery_image_ref
    /\ normalize_verified canonical_json binds.1 loaded (am_display_name app) discovery_image_ref
         (am_credential_ref app) (am_auto_deploy_enabled app) (am_poll_interval_seconds app) key binds.2 = Ok draft
    /\ document_sound directory app (am_id app) (rh_id release) revision (rh_runnable_image_ref release)
         (rh_compose_sha256 release) (rh_compose_schema_version release) draft.

Record app_sound (app : RecoveredApp) : Prop := {
  sd_header : exists text header, reads_as [uuid_to_string (ra_app_id app)] "app.toml" text
    /\ metadata_of_toml text = Some header /\ header_valid (am_schema_version header) header = true
    /\ am_id header = ra_app_id app /\ am_slug header = ra_slug app
    /\ am_draft_revision header = ra_draft_revision app /\ am_desired_state header = ra_desired_state app;
  sd_draft : forall revision, ra_draft_revision app = Some revision ->
    exists hash, ra_draft_config_sha256 app = Some hash
      /\ revision_sound [uuid_to_string (ra_app_id app)] revision hash;
  sd_active : forall release, ra_active_release_id app = Some release ->
    exists header, rh_id header = release
      /\ linked_sound [uuid_to_string (ra_app_id app)] (ra_app_id app) "active" header;
  sd_pending : forall release, ra_pending_release_id app = Some release ->
    exists header, rh_id header = release
      /\ linked_sound [uuid_to_string (ra_app_id app)] (ra_app_id app) "pending" header;
  sd_active_kept : forall i d release, dir_at h w [uuid_to_string (ra_app_id app)] = Some (i, d) ->
    d_entries d !! "active" = Some (ELink (release_target release)) -> ra_active_release_id app = Some release;
  sd_pending_kept : forall i d release, dir_at h w [uuid_to_string (ra_app_id app)] = Some (i, d) ->
    d_entries d !! "pending" = Some (ELink (release_target release)) -> ra_pending_release_id app = Some release;
  sd_releases : releases_sound [uuid_to_string (ra_app_id app)] (ra_app_id app);
  sd_compose : forall revision, ra_active_config_revision app = Some revision ->
    exists header release, header_stored [uuid_to_string (ra_app_id app)] header
      /\ am_id header = ra_app_id app /\ am_slug header = ra_slug app
      /\ ra_active_release_id app = Some (rh_id release)
      /\ linked_sound [uuid_to_string (ra_app_id app)] (ra_app_id app) "active" release
      /\ rh_config_revision release = Some revision
      /\ compose_sound [uuid_to_string (ra_app_id app)] header release revision;
}.

(** ** Documents *)

Lemma toml_contents d n m i text : may (read_toml_contents euid d n m i) (Ok (Ok text)) -> reads_as d n text.
Proof.
  unfold read_toml_contents. intros ([st|[]] & Hs & H)%may_vis; try done; try (by apply may_ret in H).
  apply may_ebind in H as (_ & _ & H); [|apply inspects_check_private].
  apply may_vis in H as ([c|[]] & Hc & H%may_ret); try done. injection H as ->. by apply possible_read.
Qed.

Lemma toml_value {A} (f : string -> option A) d n m i a :
  may (read_toml euid f d n m i) (Ok (Ok a)) -> exists text, reads_as d n text /\ f text = Some a.
Proof.
  unfold read_toml. intros (text & Ht%toml_contents & H)%may_cbind; [|apply inspects_toml_contents].
  exists text. split; [done|]. destruct (f text) as [a'|]; apply may_ret in H; [|done]. by injection H as ->.
Qed.

Lemma expected {A} app revision hash invalid missing (k : LoadedRevision -> eprog fsev StoreError (result string A)) a :
  may (expect_revision euid self app revision hash invalid missing k) (Ok (Ok a)) ->
  exists loaded, may (load_verified euid app revision key) (Ok loaded)
    /\ cm_config_sha256 (lv_metadata loaded) = hash /\ may (k loaded) (Ok (Ok a)).
Proof.
  unfold expect_revision. intros (o & Ho & H)%may_attempt; [|apply inspects_load_revision].
  unfold load_revision in Ho. rewrite Hkey in Ho. destruct o as [loaded|e].
  - case_bool_decide as Hh; [by exists loaded|]. by apply may_ret in H.
  - destruct e as [|[]| | | | | | |]; try (by apply may_ret in H). destruct missing; by apply may_ret in H.
Qed.

(** ** Releases *)

Lemma canonical_sound input schema hash text :
  canonical_or_invalid (matches_canonical input true schema hash text) = Ok true ->
  hex (sha256 text) = hash /\ canonical_compose input schema text.
Proof. intros H. apply matches_canonical_inv. by destruct (matches_canonical _ _ _ _ _) as [[[]|]|]. Qed.

Lemma v2_release_sound app app_id release_id :
  may (validate_v2_release euid self app app_id release_id) (Ok (Ok tt)) -> release_sound app app_id release_id.
Proof using Hkey.
  unfold validate_v2_release. rewrite Hkey. intros (value & Hv & H)%may_cbind; [|unfold read_release_toml; inspect].
  apply toml_value in Hv as (text & Ht & Hval). exists text, value. split; [done|]. split; [done|]. cbv zeta in *.
  destruct (negb (release_schema_supported _ _) || _ || _ || _) eqn:Hg; [by apply may_ret in H|].
  apply orb_false_iff in Hg as [[[Hs%negb_false_iff Ha]%orb_false_iff Hi]%orb_false_iff Hh].
  apply negb_false_iff, bool_decide_eq_true in Ha, Hi, Hh. do 4 (split; [done|]).
  apply expected in H as (loaded & Hl & Hhash & H). apply may_cbind in H as (header & Hhd & H); [|apply inspects_toml].
  apply toml_value in Hhd as (htext & Hht & Hheader). apply may_vis in H as (binds & _ & H); [|done].
  destruct (normalize_verified _ _ _ _ _ _ _ _ _ _) as [draft|] eqn:Hd; [|by apply may_ret in H].
  destruct (negb (bool_decide (rl_stop_grace_period_seconds _ = _))) eqn:Hgrace; [by apply may_ret in H|].
  apply negb_false_iff, bool_decide_eq_true in Hgrace.
  apply may_vis in H as ([document|[]] & Hdoc & H); [apply possible_read in Hdoc|by apply may_ret in H..|done].
  apply may_lift in H as ([] & Hc & H); [apply canonical_sound in Hc as [Hsha Hc]|by apply may_ret in H].
  exists header, loaded, binds, draft. split; [by exists htext|]. do 4 (split; [done|]). by exists document.
Qed.

Lemma collected_sound app app_id name found :
  may (collect_release euid self fuel app app_id name) (Ok (Ok found)) ->
  exact_internal_temp_name name = true
  \/ exists release_id, name = uuid_to_string release_id /\ release_sound app app_id release_id.
Proof using Hkey.
  unfold collect_release. intros (st & _ & H)%may_try; [|done].
  destruct (exact_internal_temp_name name); [by left|]. right.
  case_bool_decide; [by apply may_ret in H|]. destruct (negb (bool_decide (st_kind st = KindDirectory))); [by apply may_ret in H|].
  destruct (uuid_parse name) as [release_id|]; [|by apply may_ret in H]. exists release_id.
  destruct (negb (bool_decide (name = uuid_to_string release_id))) eqn:Hn; [by apply may_ret in H|].
  apply negb_false_iff, bool_decide_eq_true in Hn. split; [done|].
  apply may_ebind in H as (_ & _ & H); [|apply inspects_check_private].
  apply may_ebind in H as (_ & _ & H); [|apply inspects_validate_managed_tree].
  apply may_cbind in H as (release & _ & H); [|apply inspects_release_header].
  destruct (negb (supported_schema _)); [by apply may_ret in H|].
  apply may_cbind in H as ([] & H & _); [|apply inspects_v2_release]. by apply v2_release_sound.
Qed.

Lemma collect_all app app_id names references m :
  may (collect_releases euid self fuel app app_id names references) (Ok (Ok m)) ->
  forall name, name ∈ names -> exact_internal_temp_name name = true
    \/ exists release_id, name = uuid_to_string release_id /\ release_sound app app_id release_id.
Proof using Hkey.
  revert references. induction names as [|n names IH]; intros references H name Hin; [by apply elem_of_nil in Hin|].
  cbn [collect_releases] in H. apply may_cbind in H as (found & Hf & H); [|apply inspects_collect_release].
  apply elem_of_cons in Hin as [->|Hin]; [by eapply collected_sound|].
  destruct found as [[revision hash]|]; [|by eapply IH].
  destruct (is_some_and _ _); [by apply may_ret in H|]. by eapply IH.
Qed.

Lemma release_revisions_sound app app_id m :
  may (collect_release_revisions euid self fuel app app_id) (Ok (Ok m)) -> releases_sound app app_id.
Proof using Hkey.
  unfold collect_release_revisions. intros (names & Hn & H)%may_try; [|done]. intros i d name e Hd He.
  apply possible_list in Hn as (i' & d' & Hd' & Hp). rewrite Hd in Hd'. injection Hd' as <- <-.
  eapply collect_all; [exact H|]. rewrite Hp. apply list_elem_of_fmap. exists (name, e). split; [done|]. by apply elem_of_map_to_list.
Qed.

(** ** Links *)

Lemma link_path_sound app name release_id :
  may (validate_release_link_path euid app name) (Ok (Ok (Some release_id))) ->
  (exists i d, dir_at h w app = Some (i, d) /\ d_entries d !! name = Some (ELink (release_target release_id)))
  /\ exists i, walk w (EDir (h_root h)) (release_directory app release_id) = Some (EDir i).
Proof.
  unfold validate_release_link_path. intros ([st|[]] & Hs & H)%may_vis; try done; try (by apply may_ret in H).
  apply may_lift in H as (_ & _ & H). apply may_try in H as (target & Ht & H); [|done].
  apply may_lift in H as (id & _ & H). apply may_lift in H as (_ & Hid%refuse_if_ok & H).
  apply negb_false_iff, bool_decide_eq_true in Hid. subst target.
  apply may_vis in H as ([st'|[]] & Hs' & H); try done; try (by apply may_ret in H).
  destruct (st_kind st') eqn:Hk; try (by apply may_ret in H).
  apply may_ebind in H as (_ & _ & H); [|apply inspects_check_private]. apply may_ret in H. injection H as ->. split.
  - destruct Ht as [Ht|[Ht|[]]]; [|done]. cbn [answer] in Ht. unfold on_name in Ht.
    destruct (dir_at h w app) as [[i d]|]; [|done]. destruct (d_entries d !! name) as [[| target|]|] eqn:He; try done.
    injection Ht as <-. by exists i, d.
  - apply possible_stat in Hs' as (e & He & Hst). destruct e as [| |i]; simpl in Hst; [by simplify_eq..|]. by exists i.
Qed.

(** A link that is there is found. *)
Lemma link_path_complete app name link i d release :
  may (validate_release_link_path euid app name) (Ok (Ok link)) -> dir_at h w app = Some (i, d) ->
  d_entries d !! name = Some (ELink (release_target release)) -> link = Some release.
Proof.
  intros H Hd He. destruct link as [release_id|].
  - apply link_path_sound in H as [(i' & d' & Hd' & He') _]. rewrite Hd in Hd'. injection Hd' as <- <-.
    rewrite He in He'. injection He' as He'. by apply uuid_to_string_inj in He' as ->.
  - unfold validate_release_link_path in H. apply may_vis in H as ([st|[]] & Hs & H); [| |by apply may_ret in H..|done].
    + apply may_lift in H as (_ & _ & H). apply may_try in H as (target & _ & H); [|done].
      apply may_lift in H as (id & _ & H). apply may_lift in H as (_ & _ & H).
      apply may_vis in H as ([st'|[]] & _ & H); try done; try (by apply may_ret in H). destruct (st_kind st'); try (by apply may_ret in H).
      apply may_ebind in H as (_ & _ & H); [by apply may_ret in H|apply inspects_check_private].
    + exfalso. destruct Hs as [Hs|[Hs|[]]]; [|done]. cbn [answer] in Hs. rewrite walk_app in Hs. unfold dir_at, resolve in Hd.
      destruct (walk w (EDir (h_root h)) app) as [[| |j]|]; try done. cbn [mbind option_bind] in Hd, Hs. cbn [walk] in Hs.
      destruct (w !! j) as [d'|]; [|done]. injection Hd as -> ->. cbn [mbind option_bind] in Hs. rewrite He in Hs. done.
Qed.

Lemma header_sound app release_id app_id header :
  may (read_release_header euid self app release_id app_id) (Ok (Ok header)) ->
  rh_id header = release_id /\ rh_app_id header = app_id /\ validate_runnable_image (rh_runnable_image_ref header) = true
  /\ (exists text, reads_as (release_directory app release_id) "release.toml" text
        /\ release_header_of_toml text = Some header)
  /\ exists text value, reads_as (release_directory app release_id) "release.toml" text
       /\ release_of_toml text = Some value
       /\ sign (apply_schema_defaults value) key = rl_integrity_hmac (apply_schema_defaults value).
Proof using Hkey.
  unfold read_release_header. intros (hd & Hh & H)%may_cbind; [|apply inspects_toml].
  apply toml_value in Hh as (text & Ht & Hhd). destruct (_ || _ || _) eqn:Hg; [by apply may_ret in H|].
  apply orb_false_iff in Hg as [[Hi Ha]%orb_false_iff Hv%negb_false_iff]. apply negb_false_iff, bool_decide_eq_true in Hi, Ha.
  destruct (negb (supported_schema _)); [by apply may_ret in H|]. rewrite Hkey in H.
  apply may_cbind in H as (value & Hval & H); [|unfold read_release_toml; inspect].
  apply toml_value in Hval as (text' & Ht' & Hval). cbv zeta in H. destruct (negb _) eqn:Hs; apply may_ret in H; [done|].
  injection H as <-. apply negb_false_iff, bool_decide_eq_true in Hs. do 3 (split; [done|]). split; [by exists text|].
  by exists text', value.
Qed.

Lemma scanned_link app app_id name link header :
  may (validate_release_link_path euid app name) (Ok (Ok link)) ->
  may (scan_link euid self app app_id link) (Ok (Ok (Some header))) -> linked_sound app app_id name header.
Proof using Hkey.
  intros Hl H. destruct link as [release_id|]; [|by apply may_ret in H]. cbn [scan_link] in H.
  apply may_cbind in H as (hd & Hh & Hr%may_ret); [|apply inspects_release_header]. injection Hr as ->.
  apply link_path_sound in Hl as [Hl Hd]. apply header_sound in Hh as (<- & Ha & Hv & Ht & Hs). by split.
Qed.

Lemma linked_id app app_id release o :
  may (scan_link euid self app app_id (Some release)) (Ok (Ok o)) -> rh_id <$> o = Some release.
Proof using Hkey.
  cbn [scan_link]. intros (hd & Hh & Hr%may_ret)%may_cbind; [|apply inspects_release_header]. injection Hr as <-.
  apply header_sound in Hh as (<- & _). done.
Qed.

(** ** Applications *)

Lemma draft_sound app header draft :
  may (scan_draft euid self app header) (Ok (Ok draft)) ->
  forall revision, am_draft_revision header = Some revision ->
    exists hash, am_draft_config_sha256 header = Some hash /\ revision_sound app revision hash.
Proof using Hkey.
  unfold scan_draft. intros H revision Hr. rewrite Hr in H.
  destruct (am_draft_config_sha256 header) as [hash|]; [|by apply may_ret in H].
  destruct (am_discovery_image_ref header); [|by apply may_ret in H]. exists hash. split; [done|].
  apply expected in H as (loaded & Hl & Hh & _). by exists loaded.
Qed.

Lemma active_compose_sound app header release revision hash :
  rh_config_sha256 release = Some hash ->
  may (validate_active_compose euid self app header release revision hash) (Ok (Ok tt)) ->
  compose_sound app header release revision.
Proof using Hkey.
  intros Hash. unfold validate_active_compose. destruct (negb _); [by intros H%may_ret|]. rewrite Hkey.
  intros (loaded & Hl & Hh & H)%expected. apply may_lift in H as (image & Himage & H).
  destruct (am_discovery_image_ref header) as [image'|] eqn:Hi; [|done]. injection Himage as ->.
  apply may_vis in H as (binds & _ & H); [|done].
  destruct (normalize_verified _ _ _ _ _ _ _ _ _ _) as [draft|] eqn:Hd; [|by apply may_ret in H].
  apply may_vis in H as ([text|[]] & Ht & H); [apply possible_read in Ht|by apply may_ret in H..|done].
  apply may_lift in H as ([] & Hc & H); [apply canonical_sound in Hc as [Hsha Hc]|by apply may_ret in H].
  exists loaded, image, binds, draft. split; [done|]. split; [by rewrite Hash, Hh|]. do 2 (split; [done|]). by exists text.
Qed.

Lemma scanned_active_sound app header active u :
  may (scan_active_revision euid self app active) (Ok (Ok u)) -> may (scan_active euid self app header active) (Ok (Ok tt)) ->
  forall revision, active ≫= rh_config_revision = Some revision ->
    exists release, active = Some release /\ compose_sound app header release revision.
Proof using Hkey.
  intros Hr Ha revision E. unfold scan_active_revision in Hr. unfold scan_active in Ha. rewrite E in Hr, Ha.
  destruct active as [release|]; [|done]. cbn [mbind option_bind] in Hr, Ha. destruct (rh_config_sha256 release) as [hash|] eqn:Hash.
  - exists release. split; [done|]. by eapply active_compose_sound.
  - apply may_attempt in Hr as ([|[|[]| | | | | | |]] & _ & Hr); try (by apply may_ret in Hr). apply inspects_load_revision.
Qed.

Lemma scanned_app_sound app_id active pending app :
  may (validate_release_link_path euid [uuid_to_string app_id] "active") (Ok (Ok active)) ->
  may (validate_release_link_path euid [uuid_to_string app_id] "pending") (Ok (Ok pending)) ->
  may (scan_app euid self fuel [uuid_to_string app_id] app_id active pending) (Ok (Ok app)) ->
  ra_app_id app = app_id /\ app_sound app.
Proof using Hkey.
  intros Hactive Hpending. unfold scan_app. intros (text & Ht%toml_contents & H)%may_cbind; [|apply inspects_toml_contents].
  destruct (app_schema_of_toml text) as [version|] eqn:Hversion; [|by apply may_ret in H].
  destruct (negb _); [by apply may_ret in H|]. destruct (metadata_of_toml text) as [header|] eqn:Hheader; [|by apply may_ret in H].
  destruct (negb (bool_decide (am_id header = app_id))) eqn:Hid; [by apply may_ret in H|].
  apply negb_false_iff, bool_decide_eq_true in Hid. destruct (negb (header_valid _ _)) eqn:Hv; [by apply may_ret in H|].
  apply negb_false_iff in Hv. rewrite (app_schema_agrees _ _ _ Hversion Hheader) in Hv.
  destruct (negb (draft_fields_valid _ _ _)); [by apply may_ret in H|].
  apply may_cbind in H as (draft & Hdraft & H); [|apply inspects_scan_draft].
  apply may_cbind in H as (_ & _ & H); [|unfold scan_releases; inspect].
  apply may_cbind in H as (revisions & Hrev & H); [|unfold collect_release_revisions; inspect].
  apply may_cbind in H as (_ & _ & H); [|apply inspects_release_revisions].
  apply may_cbind in H as (ah & Ha & H); [|unfold scan_link; inspect].
  apply may_cbind in H as (ph & Hp & H); [|unfold scan_link; inspect].
  apply may_cbind in H as (u & Hu & H); [|apply inspects_active_revision].
  apply may_ebind in H as (plan & _ & H); [|unfold load_network_plan; inspect].
  apply may_ebind in H as (plan' & _ & H); [|unfold load_network_plan; inspect].
  apply may_cbind in H as ([] & Hc & H); [|apply inspects_scan_active]. apply may_ret in H. injection H as <-.
  split; [done|]. split; cbn [recovered ra_app_id ra_slug ra_draft_revision ra_draft_config_sha256 ra_desired_state
    ra_active_release_id ra_pending_release_id ra_active_config_revision]; rewrite ?Hid.
  - exists text, header. repeat split; try done; by rewrite Hid.
  - by eapply draft_sound.
  - intros release Hr. destruct ah as [hd|]; [|done]. injection Hr as <-. exists hd. split; [done|]. by eapply scanned_link.
  - intros release Hr. destruct ph as [hd|]; [|done]. injection Hr as <-. exists hd. split; [done|]. by eapply scanned_link.
  - intros i d release Hd He. pose proof (link_path_complete _ _ _ _ _ _ Hactive Hd He) as ->. by eapply linked_id.
  - intros i d release Hd He. pose proof (link_path_complete _ _ _ _ _ _ Hpending Hd He) as ->. by eapply linked_id.
  - by eapply release_revisions_sound.
  - intros revision Hr. destruct (scanned_active_sound _ _ _ _ Hu Hc revision Hr) as (release & -> & Hs).
    exists header, release. split; [by exists text|]. do 3 (split; [done|]). split; [by eapply scanned_link|]. done.
Qed.

Lemma entry_sound name found :
  may (scan_entry euid self fuel name) (Ok found) ->
  found.2 = [] \/ exists app, found.2 = [app] /\ name = uuid_to_string (ra_app_id app) /\ app_sound app.
Proof using Hkey.
  assert (forall issues, may (Ret (Ok (issues, []))) (Ok (E := StoreError) found) -> found.2 = []) as Hnone
    by (intros issues H; apply may_ret in H; by injection H as <-).
  unfold scan_entry. case_bool_decide as Htrash.
  { intros (_ & _ & H)%may_ebind; [|apply inspects_check_private]. left. by apply Hnone in H. }
  case_bool_decide as Hcleanup.
  { intros (_ & _ & H)%may_ebind; [|apply inspects_cleanup_tombstones]. left. by apply Hnone in H. }
  intros (st & _ & H)%may_try; [|done]. destruct (is_app_temp_name name).
  { apply may_lift in H as (_ & _ & H). apply may_ebind in H as (_ & _ & H); [|unfold temporary_tree; inspect].
    left. by apply Hnone in H. }
  destruct (exact_internal_temp_name name).
  { apply may_ebind in H as (_ & _ & H); [|unfold temporary_tree; destruct (st_kind st); inspect]. left. by apply Hnone in H. }
  destruct (st_kind st); [left; by apply Hnone in H| |by apply may_ret in H].
  destruct (uuid_parse name) as [app_id|]; [|left; by apply Hnone in H].
  destruct (negb (bool_decide (name = uuid_to_string app_id))) eqn:Hn; [left; by apply Hnone in H|].
  apply negb_false_iff, bool_decide_eq_true in Hn. subst name. unfold scan_app_entry in H.
  apply may_ebind in H as (_ & _ & H); [|apply inspects_check_private].
  apply may_ebind in H as (count & _ & H); [|apply inspects_validate_managed_tree]. cbv zeta in H.
  apply may_ebind in H as (active & Ha & H); [|apply inspects_link_path].
  apply may_ebind in H as (pending & Hp & H); [|apply inspects_link_path].
  destruct active as [active|]; [|left; by apply Hnone in H]. destruct pending as [pending|]; [|left; by apply Hnone in H].
  apply may_ebind in H as (scanned & Hs & H); [|apply inspects_scan_app].
  destruct scanned as [app|]; [|left; by apply Hnone in H].
  apply may_ebind in H as (issues & _ & H); [|unfold webhook_issue; inspect]. apply may_ret in H. injection H as <-.
  right. exists app. split; [done|]. destruct (scanned_app_sound app_id active pending app Ha Hp Hs) as [<- Hsound]. done.
Qed.

Lemma entries_sound names found :
  may (scan_entries euid self fuel names) (Ok found) -> Forall app_sound found.2
    /\ (map (fun app => uuid_to_string (ra_app_id app)) found.2) `sublist_of` names.
Proof using Hkey.
  revert found. induction names as [|name names IH]; intros found H; cbn [scan_entries] in H.
  { apply may_ret in H. injection H as <-. split; [constructor|constructor]. }
  apply may_ebind in H as (f & Hf & H); [|apply inspects_scan_entry].
  apply may_ebind in H as (o & Ho & H); [|apply inspects_scan_entries]. apply may_ret in H. injection H as <-.
  destruct (IH o Ho) as [Hs Hsub]. cbn [snd]. destruct (entry_sound name f Hf) as [->|(one & -> & -> & Happ)]; cbn [List.app].
  - split; [done|]. by apply sublist_cons.
  - split; [by constructor|]. cbn [map]. by apply sublist_skip.
Qed.

(** ** The report *)

Lemma filter_sublist_of {A} (P : A -> Prop) `{!forall x, Decision (P x)} (l : list A) : filter P l `sublist_of` l.
Proof.
  induction l as [|x l IH]; [constructor|]. rewrite filter_cons. case_decide; by constructor.
Qed.

Global Instance by_app_id : SortOrder (fun a b : RecoveredApp => (ra_app_id a <=? ra_app_id b)%N).
Proof. split; intros *; rewrite !N.leb_le; lia. Qed.

Lemma report_members issues apps :
  rr_valid_apps (report_of (issues, apps)) ≡ₚ filter (fun app => slug_count (ra_slug app) apps <= 1) apps.
Proof. apply sort_by_perm. Qed.

Lemma report_sorted issues apps : NoDup (map ra_app_id apps) ->
  StronglySorted N.lt (map ra_app_id (rr_valid_apps (report_of (issues, apps)))).
Proof.
  intros Hn. assert (NoDup (map ra_app_id (rr_valid_apps (report_of (issues, apps))))) as Hd.
  { rewrite (report_members issues apps). eapply sublist_NoDup; [exact Hn|]. by apply (fmap_sublist ra_app_id), filter_sublist_of. }
  pose proof (sort_by_sorted (fun a b => (ra_app_id a <=? ra_app_id b)%N)
    (filter (fun app => slug_count (ra_slug app) apps <= 1) apps)) as Hs.
  unfold report_of in *. cbn [rr_valid_apps snd] in *. revert Hd Hs. generalize (sort_by (fun a b => (ra_app_id a <=? ra_app_id b)%N)
    (filter (fun app => slug_count (ra_slug app) apps <= 1) apps)). intros l Hd Hs.
  induction Hs as [|a l Hs IH Hall]; [constructor|]. apply list.NoDup_cons in Hd as [Ha Hd]. constructor; [by apply IH|].
  apply List.Forall_map. rewrite list.Forall_forall in *. intros b Hb. specialize (Hall b Hb). apply N.leb_le in Hall.
  apply N.le_neq. split; [done|]. intros E. apply Ha. apply list_elem_of_fmap. by exists b.
Qed.

(** Two occurrences of a slug are two applications counted. *)
Lemma slugs_distinct apps (kept : list RecoveredApp) : kept `sublist_of` apps ->
  (forall app, app ∈ kept -> slug_count (ra_slug app) apps <= 1) -> NoDup (map ra_slug kept).
Proof.
  intros Hsub. assert (forall app, app ∈ kept -> slug_count (ra_slug app) kept <= slug_count (ra_slug app) apps) as Hle.
  { intros app _. unfold slug_count. induction Hsub as [|x l l' _ IH|x l l' _ IH]; rewrite ?filter_cons; [done| |];
      repeat case_decide; simpl; lia. }
  intros H. assert (forall app, app ∈ kept -> slug_count (ra_slug app) kept <= 1) as Hc
    by (intros app Hin; specialize (H app Hin); specialize (Hle app Hin); lia).
  clear H Hle Hsub. induction kept as [|x l IH]; [constructor|]. cbn [map]. constructor.
  - intros (y & E & Hy)%list_elem_of_fmap. pose proof (Hc x ltac:(left)) as H1. unfold slug_count in H1.
    rewrite filter_cons, decide_True in H1 by done. cbn [length] in H1.
    assert (y ∈ filter (fun app => ra_slug app = ra_slug x) l) as Hf by (apply list_elem_of_filter; by split).
    apply list_elem_of_split in Hf as (l1 & l2 & E'). rewrite E', length_app in H1. cbn [length] in H1. lia.
  - apply IH. intros app Hin. pose proof (Hc app ltac:(by right)) as H1. unfold slug_count in *.
    rewrite filter_cons in H1. case_decide; simpl in H1; lia.
Qed.

Lemma report_slugs issues apps : NoDup (map ra_slug (rr_valid_apps (report_of (issues, apps)))).
Proof.
  rewrite (report_members issues apps). eapply slugs_distinct; [apply filter_sublist_of|].
  by intros app [H _]%list_elem_of_filter.
Qed.

Lemma scanned_entries names found : NoDup names -> may (scan_entries euid self fuel names) (Ok found) ->
  Forall app_sound found.2 /\ NoDup (map ra_app_id found.2).
Proof using Hkey.
  intros Hn H. destruct (entries_sound names found H) as [Hs Hsub]. split; [done|].
  apply (NoDup_fmap_1 uuid_to_string). rewrite <- list_fmap_compose. by eapply sublist_NoDup.
Qed.

Lemma scanned_report report : may (scan_store euid self fuel) (Ok report) ->
  Forall app_sound (rr_valid_apps report) /\ StronglySorted N.lt (map ra_app_id (rr_valid_apps report))
  /\ NoDup (map ra_slug (rr_valid_apps report)).
Proof using Hkey.
  intros H. unfold scan_store in H.
  apply may_ebind in H as (_ & _ & H); [|apply inspects_check_private]. apply may_try in H as (names & Hn & H); [|done].
  apply may_ebind in H as ([issues apps] & Hs & H); [|apply inspects_scan_entries]. apply may_ret in H. injection H as <-.
  apply possible_list in Hn as (i & d & _ & Hp). apply scanned_entries in Hs as [Hs Hd].
  - split; [|split; [by apply report_sorted|apply report_slugs]]. rewrite (report_members issues apps).
    apply list.Forall_forall. intros app [_ Hin]%list_elem_of_filter. revert app Hin. by apply list.Forall_forall.
  - rewrite Hp. apply NoDup_fst_map_to_list.
Qed.

(** C20: the report of a completed scan is to be relied on: the file system is
    as it was, every application reported valid has a header of its own
    directory with its fields in range, a draft revision that is complete and
    carries its digest, active and pending links that are exactly those of its
    directory and lead to a directory of [releases] holding a signed document of
    this application; every entry of its [releases] is temporary or a signed
    release whose revision is intact, of the signed digest and grace period, and
    whose Compose document has the signed hash and is the one generated from
    that revision with the signed image; the document of its active release has
    the hash of the linked header and is the one generated, with that header's
    image, from the revision the header names; identifiers ascend strictly and no
    two applications share a slug. *)
Theorem scan_sound tr report :
  trace (scan_store euid self fuel) tr (Some (Ok report)) -> relied (step h) (possible h) w tr ->
  foldl (step h) w tr = w
  /\ Forall app_sound (rr_valid_apps report)
  /\ StronglySorted N.lt (map ra_app_id (rr_valid_apps report))
  /\ NoDup (map ra_slug (rr_valid_apps report)).
Proof using Hkey.
  intros Ht Hr. split; [eapply inspects_kept; [apply inspects_scan_store|exact Ht]|].
  apply scanned_report. by exists tr.
Qed.
End sound.

(** ** A revision that is gone *)

Section missing.
Context {UT : UuidText} {ST : StoreText} {CR : Crypto} {CT : ComposeText} {WT : WebhookText} {RT : RecoveryText} {KT : CleanupText}.
Context (h : Host) (w : fs) (self : AppStore).

Abbreviation euid := (h_euid h).
Abbreviation may := (may_return h w).

Definition permission_error {A} (r : result StoreError A) : Prop := exists error, r = Err (SePermission error).

Lemma may_error {A B} (q : eprog fsev StoreError A) (f : A -> eprog fsev StoreError B) r :
  inspects q -> may (ebind q f) r ->
  (exists a, may q (Ok a) /\ may (f a) r) \/ (exists error, may q (Err error) /\ r = Err error).
Proof.
  intros Hq ([a|error] & Ha & Hb)%may_bind; [left; by exists a| |done]. right. exists error. split; [done|].
  by apply may_ret in Hb.
Qed.

Lemma check_private_found p directory r : may (check_private euid p directory) r ->
  (r = Ok tt /\ is_Some (walk w (EDir (h_root h)) p)) \/ permission_error r.
Proof.
  unfold check_private. intros [(st & Hs & H)|(error & He & ->)]%may_error; [| |unfold perm; inspect].
  - apply may_vis in Hs as ([st'|error] & Hp & E%may_ret); [|done..]. apply possible_stat in Hp as (e & He & _).
    apply may_error in H as [(_ & _ & H)|(error & He'%may_ret & ->)]; [| |done].
    + apply may_error in H as [(_ & _ & H)|(error & He'%may_ret & ->)]; [| |done].
      * apply may_ret in H. destruct (Z.land (st_mode st) 63 ≠? 0%Z); subst r; [right; by eexists|]. left. by rewrite He.
      * destruct (st_uid st ≠? euid); [|done]. injection He' as <-. right. by eexists.
    + destruct (_ || _ || _); [|done]. injection He' as <-. right. by eexists.
  - apply may_vis in He as ([st'|k] & _ & E%may_ret); [done| |done]. injection E as <-. right. by eexists.
Qed.

Lemma check_components_found current relative directory r : relative <> [] ->
  may (check_components euid current relative directory) r ->
  (r = Ok tt /\ is_Some (walk w (EDir (h_root h)) (current ++ relative))) \/ permission_error r.
Proof.
  revert current. induction relative as [|c rest IH]; intros current Hne H; [done|]. cbn [check_components] in H.
  apply may_error in H as [([] & Hc & H)|(error & Hc & ->)]; [| |apply inspects_check_private].
  - apply check_private_found in Hc as [[_ Hc]|[? Hc]]; [|done]. destruct rest as [|c' rest].
    + apply may_ret in H. left. by subst.
    + rewrite cons_middle, (assoc (++)). by apply IH.
  - right. apply check_private_found in Hc as [[? _]|[? [= ->]]]; [done|]. by eexists.
Qed.

Lemma load_missing app revision r :
  walk w (EDir (h_root h)) (app ++ ["config-revisions"; uuid_to_string revision]) = None ->
  may (load euid app revision) r -> permission_error r.
Proof.
  intros Hw. assert (forall o, may (check_private_tree euid app ["config-revisions"; uuid_to_string revision] true) o ->
    permission_error o) as Hc.
  { intros o. unfold check_private_tree. intros [(a & _ & Hc)|(error & Hp & ->)]%may_error; [| |apply inspects_check_private].
    - apply check_components_found in Hc as [[_ Hs]|Hc]; [rewrite Hw in Hs; by destruct Hs|done|done].
    - apply check_private_found in Hp as [[? _]|Hp]; [done|]. destruct Hp as [e [= ->]]. by eexists. }
  unfold load. intros [(a & Ha & _)|(error & He & ->)]%may_error; [| |apply inspects_check_private_tree].
  - apply Hc in Ha as [? ?]. done.
  - apply Hc in He as [e [= ->]]. by eexists.
Qed.

(** A revision directory that has disappeared is not one of the reported
    issues: whichever digest is expected and whatever continuation is given, the
    check ends in a permission error, so [CONFIG_REVISION_MISSING] and its
    counterparts for releases and the active release are never reported for it
    and the scan of the whole store is abandoned. *)
Theorem missing_revision_stops_scan {A} app revision hash invalid missing
    (k : LoadedRevision -> eprog fsev StoreError (result string A)) r :
  walk w (EDir (h_root h)) (app ++ ["config-revisions"; uuid_to_string revision]) = None ->
  may (expect_revision euid self app revision hash invalid missing k) r -> permission_error r.
Proof.
  intros Hw H. unfold expect_revision in H. apply may_bind in H as (o & Ho & H); [|apply inspects_bind; [apply inspects_load_revision|by intros]].
  apply may_bind in Ho as (o' & Ho & E%may_ret); [|apply inspects_load_revision]. subst o.
  assert (permission_error o') as [error ->].
  { unfold load_revision in Ho. destruct (as_integrity_key self); [|by eapply load_missing].
    unfold load_verified in Ho. apply may_error in Ho as [(a & Ha & _)|(error & He & ->)]; [| |apply inspects_load].
    - apply load_missing in Ha as [? Ha]; done.
    - apply load_missing in He as [e [= ->]]; [by eexists|done]. }
  apply may_ret in H. subst r. by eexists.
Qed.
End missing.

(** ** The current webhook *)

Section webhook.
Context {UT : UuidText} {ST : StoreText} {CR : Crypto} {WT : WebhookText}.
Context (h : Host) (w : fs) (key : string).

Abbreviation euid := (h_euid h).
Abbreviation may := (may_return h w).
Abbreviation reads_as := (file_reads h w).

(** The secret a signed record of this revision vouches for. *)
Definition secret_sound (app_id revision : Uuid) (secret : string) : Prop :=
  exists text record raw,
    reads_as (webhook_revisions app_id ++ [uuid_to_string revision]) "revision.toml" text
    /\ secret_of_toml text = Some record /\ sr_app_id record = app_id /\ sr_secret_revision record = revision
    /\ sr_integrity_hmac (sign_revision key record) = sr_integrity_hmac record
    /\ reads_as (webhook_revisions app_id ++ [uuid_to_string revision]) "secret" raw
    /\ String.length raw = 32 /\ sign_secret key SECRET_DOMAIN raw = sr_secret_hmac record
    /\ secret = base64_encode raw.

Definition metadata_sound (app_id : Uuid) (metadata : WebhookMetadata) : Prop :=
  wm_app_id metadata = app_id /\ sign_metadata key metadata = wm_integrity_hmac metadata
  /\ wm_enabled metadata = is_some (wm_secret_revision metadata)
  /\ exists text, reads_as (app_directory app_id) "webhook.toml" text /\ webhook_of_toml text = Some metadata.

Lemma refuse_false {B} (b : bool) (e : StoreError) (f : unit -> eprog fsev StoreError B) r :
  may (ebind (lift (refuse_if b e)) f) (Ok r) -> b = false /\ may (f tt) (Ok r).
Proof. intros ([] & H%refuse_if_ok & Hf)%may_lift. done. Qed.

Lemma load_metadata_sound app_id metadata :
  may (load_metadata euid key app_id) (Ok metadata) -> metadata_sound app_id metadata.
Proof.
  unfold load_metadata. intros (_ & _ & H)%may_try; [|done].
  apply may_ebind in H as (_ & _ & H); [|apply inspects_check_private_tree].
  apply may_try in H as (text & Ht%possible_read & H); [|done]. apply may_lift in H as (value & Hv & H).
  apply refuse_false in H as [[[_ Ha]%orb_false_iff _]%orb_false_iff H]. apply refuse_false in H as [Hs H].
  apply refuse_false in H as [He H]. apply may_ret in H. injection H as <-.
  apply negb_false_iff, bool_decide_eq_true in Ha, Hs, He. destruct (webhook_of_toml text) eqn:E; [|done].
  injection Hv as ->. do 3 (split; [done|]). by exists text.
Qed.

Lemma load_secret_sound app_id revision metadata secret :
  may (load_webhook_revision euid key app_id revision metadata) (Ok secret) -> secret_sound app_id revision secret.
Proof.
  unfold load_webhook_revision. intros ([record secret'] & H & E%may_ret)%may_ebind; [|apply inspects_load_revision_record].
  injection E as ->. unfold load_revision_record in H. cbv zeta in H.
  apply may_ebind in H as (_ & _ & H); [|apply inspects_check_private_tree].
  apply may_ebind in H as (_ & _ & H); [|apply inspects_revision_directory].
  apply may_ebind in H as (_ & _ & H); [|apply inspects_check_private_tree].
  apply may_try in H as (text & Ht%possible_read & H); [|done]. apply may_lift in H as (value & Hv & H).
  apply refuse_false in H as [[[[_ Ha]%orb_false_iff Hr]%orb_false_iff Hi]%orb_false_iff H]. apply refuse_false in H as [_ H].
  apply may_ebind in H as (_ & _ & H); [|apply inspects_check_private_tree].
  apply may_try in H as (raw & Hraw%possible_read & H); [|done].
  apply refuse_false in H as [[Hl Hs]%orb_false_iff H]. apply may_ret in H. injection H as _ <-.
  apply negb_false_iff, bool_decide_eq_true in Ha, Hr, Hi, Hl, Hs. destruct (secret_of_toml text) eqn:E; [|done].
  injection Hv as ->. by exists text, value, raw.
Qed.

(** A webhook that loads is vouched for: its metadata is the signed document
    of this application and is enabled, and the secret is the 32 bytes stored
    under the revision the metadata names, with the digest the signed record of
    that revision gives. *)
Theorem current_webhook_sound app_id webhook :
  may (load_current_webhook euid key app_id) (Ok webhook) ->
  metadata_sound app_id (lw_metadata webhook) /\ wm_enabled (lw_metadata webhook) = true
  /\ exists revision, wm_secret_revision (lw_metadata webhook) = Some revision
       /\ secret_sound app_id revision (lw_secret webhook).
Proof.
  unfold load_current_webhook. intros (app & _ & H)%may_ebind; [|apply inspects_read_metadata].
  apply refuse_false in H as [_ H]. apply may_ebind in H as (metadata & Hm%load_metadata_sound & H); [|apply inspects_load_metadata].
  apply refuse_false in H as [He%negb_false_iff H]. apply may_lift in H as (revision & Hr & H).
  apply may_ebind in H as (secret & Hs%load_secret_sound & H); [|apply inspects_load_webhook_revision].
  apply may_ret in H. injection H as <-. split; [done|]. split; [done|]. exists revision. split; [|done].
  cbn [lw_metadata]. destruct (wm_secret_revision metadata); [|done]. by injection Hr as ->.
Qed.
End webhook.
