(* ===== verification/ScanTermination.v ===== *)
(** * ScanTermination: the scan of a store returns

    The walks over directories ([Recovery.managed_tree],
    [CleanupStore.private_tree], [CleanupStore.artifact_bytes]) are given a
    number of entries they may visit. On a file system whose directories form a
    tree the size of that tree is enough, so the scan always returns. *)

From S2P Require Import Prelude Text WebhookProtocol Ingress Reference Models Effects Codec Names Drafts Compose FileSystem StoreBase ConfigRevision ReleaseStore AppDirectories WebhookStore Recovery CleanupStore Catalog Inspection.

Section ends.
Context (h : Host) (w : fs).

(** It only reads, and returns whatever the file system answers. *)
Fixpoint ends {A} (q : prog fsev A) : Prop :=
  match q with
  | Ret _ => True
  | Vis e k => reads e = true /\ forall x, possible h _ w e x -> ends (k x)
  | OutOfFuel => False
  end.

Lemma reads_only_ends {A} (q : prog fsev A) : reads_only q -> ends q.
Proof. induction q as [a|X e k IH|]; simpl; [done| |done]. intros [He Hk]. split; [done|]. intros x _. by apply IH. Qed.

Lemma may_answer {A X} (e : fsev X) (k : X -> prog fsev A) x a :
  reads e = true -> possible h _ w e x -> may_return h w (k x) a -> may_return h w (Vis e k) a.
Proof.
  intros He Hx (tr & Ht & Hr). exists (Obs e x :: tr). split; [by constructor|]. split; [done|]. by rewrite step_none.
Qed.

Lemma ends_bind_may {A B} (q : prog fsev A) (f : A -> prog fsev B) :
  ends q -> (forall a, may_return h w q a -> ends (f a)) -> ends (prog_bind q f).
Proof.
  induction q as [a|X e k IH|]; simpl; intros Hq Hf; [|destruct Hq as [He Hk]; split; [done|]|done].
  - apply Hf. exists []. split; [constructor|done].
  - intros x Hx. apply IH; [by apply Hk|]. intros a Ha. apply Hf. by eapply may_answer.
Qed.

Lemma ends_bind {A B} (q : prog fsev A) (f : A -> prog fsev B) :
  ends q -> (forall a, ends (f a)) -> ends (prog_bind q f).
Proof. intros Hq Hf. apply ends_bind_may; auto. Qed.

Lemma ends_ebind {A B} (q : eprog fsev StoreError A) (f : A -> eprog fsev StoreError B) :
  ends q -> (forall a, ends (f a)) -> ends (ebind q f).
Proof. intros Hq Hf. apply ends_bind; [done|]. by intros [a|e]. Qed.

Lemma ends_ebind_may {A B} (q : eprog fsev StoreError A) (f : A -> eprog fsev StoreError B) :
  ends q -> (forall a, may_return h w q (Ok a) -> ends (f a)) -> ends (ebind q f).
Proof. intros Hq Hf. apply ends_bind_may; [done|]. intros [a|e]; [apply Hf|done]. Qed.

Lemma ends_cbind {A B} (q : eprog fsev StoreError (result string A)) (f : A -> eprog fsev StoreError (result string B)) :
  ends q -> (forall a, ends (f a)) -> ends (cbind q f).
Proof. intros Hq Hf. apply ends_ebind; [done|]. by intros [a|e]. Qed.

Lemma ends_try {F X} (e : fsev (result F X)) (f : F -> StoreError) : reads e = true -> ends (try_call e f).
Proof. intros He. split; [done|]. by intros [x|r]. Qed.

Lemma ends_try_may {F X B} (e : fsev (result F X)) (g : F -> StoreError) (f : X -> eprog fsev StoreError B) :
  reads e = true -> (forall x, possible h _ w e (Ok x) -> ends (f x)) -> ends (ebind (try_call e g) f).
Proof. intros He Hf. split; [done|]. intros [x|r] Hx; [by apply Hf|done]. Qed.

Lemma ends_attempt {A} (q : eprog fsev StoreError A) : ends q -> ends (attempt q).
Proof. intros Hq. by apply ends_bind. Qed.

(** What is stated of every trace. *)
Lemma ends_never_exhausts {A} (q : prog fsev A) tr : ends q -> relied (step h) (possible h) w tr -> ~ exhausts q tr.
Proof.
  intros Hq Hr Ht. induction Ht as [|X e k x tr Ht IH]; [done|]. destruct Hq as [He Hk], Hr as [Hx Hr].
  rewrite step_none in Hr by done. apply IH; [by apply Hk|done].
Qed.

Lemma ends_run {A} (q : prog fsev A) : ends q -> exists a, (run (serve h) q w).1 = Some a.
Proof.
  induction q as [a|X e k IH|]; intros Hq; [by eexists| |done]. destruct Hq as [He Hk]. cbn [run]. unfold serve at 1.
  rewrite step_none by done. apply IH, Hk. by left.
Qed.
End ends.

(** ** The size of a tree *)

(** No directory is below itself. *)
Definition acyclic (w : fs) : Prop :=
  exists rank : N -> nat, forall i d name j, w !! i = Some d -> d_entries d !! name = Some (EDir j) -> rank j < rank i.

(** The entries at and below a directory, through at most [n] levels. *)
Fixpoint tree_size (w : fs) (n : nat) (i : N) : nat :=
  match n, w !! i with
  | S n', Some d => 1 + sum_list_with (fun e => match e.2 with EDir j => tree_size w n' j | _ => 1 end) (map_to_list (d_entries d))
  | _, _ => 1
  end.

Section size.
Context (h : Host) (w : fs) (rank : N -> nat).
Context (Hrank : forall i d name j, w !! i = Some d -> d_entries d !! name = Some (EDir j) -> rank j < rank i).

Definition weight (i : N) : nat := tree_size w (S (rank i)) i.
Definition entry_weight (e : entry) : nat := match e with EDir j => weight j | _ => 1 end.

Lemma sum_ext {A} (f g : A -> nat) l : (forall x, x ∈ l -> f x = g x) -> sum_list_with f l = sum_list_with g l.
Proof. induction l as [|x l IH]; intros H; simpl; [done|]. rewrite H, IH; [done|set_solver..]. Qed.

Lemma sum_fmap {A B} (f : B -> nat) (g : A -> B) l : sum_list_with f (g <$> l) = sum_list_with (fun x => f (g x)) l.
Proof. induction l as [|x l IH]; [done|]. rewrite fmap_cons. simpl. by rewrite IH. Qed.

Lemma tree_size_enough n i : rank i < n -> tree_size w n i = weight i.
Proof.
  revert i. induction (lt_wf n) as [n _ IH]. intros i Hi. destruct n as [|n]; [lia|]. unfold weight. simpl.
  destruct (w !! i) as [d|] eqn:Hd; [|done]. f_equal. apply sum_ext. intros [name [| |j]] Hin%elem_of_map_to_list; simpl; try done.
  pose proof (Hrank _ _ _ _ Hd Hin). rewrite (IH n) by lia. destruct (decide (rank i = n)) as [->|Hne].
  - symmetry. apply IH; lia.
  - symmetry. apply IH; lia.
Qed.

Lemma weight_unfold i d : w !! i = Some d -> weight i = 1 + sum_list_with (fun e => entry_weight e.2) (map_to_list (d_entries d)).
Proof.
  intros Hd. unfold weight at 1. simpl. rewrite Hd. f_equal. apply sum_ext. intros [name [| |j]] Hin%elem_of_map_to_list; simpl; try done.
  apply tree_size_enough. by eapply Hrank.
Qed.

Lemma entry_weight_pos e : 1 <= entry_weight e.
Proof. destruct e as [| |j]; simpl; try lia. unfold weight. simpl. destruct (w !! j); lia. Qed.

Definition path_weight (p : path) : nat := match walk w (EDir (h_root h)) p with Some e => entry_weight e | None => 1 end.

Lemma path_weight_pos p : 1 <= path_weight p.
Proof. unfold path_weight. destruct (walk _ _ _); [apply entry_weight_pos|lia]. Qed.

Lemma path_weight_root p : path_weight p <= weight (h_root h).
Proof.
  unfold path_weight. change (weight (h_root h)) with (entry_weight (EDir (h_root h))). generalize (EDir (h_root h)).
  induction p as [|c p IH]; intros e; simpl; [done|]. destruct e as [| |i]; [apply entry_weight_pos..|].
  destruct (w !! i) as [d|] eqn:Hd; [|apply entry_weight_pos]. simpl.
  destruct (d_entries d !! c) as [e|] eqn:He; [|apply (entry_weight_pos (EDir i))]. simpl. etrans; [apply IH|].
  rewrite (weight_unfold i d Hd). apply elem_of_map_to_list in He.
  pose proof (sum_list_with_in _ (fun e => entry_weight e.2) _ He). simpl in *. lia.
Qed.

(** What is below a directory weighs less than it. *)
Lemma listed_weight p names : possible h _ w (FsReadDir p) (Ok names) ->
  S (sum_list_with (fun name => path_weight (p ++ [name])) names) <= path_weight p.
Proof.
  intros (i & d & Hdir & Hp)%possible_list. apply dir_at_lookup in Hdir as [Hr Hd].
  assert (walk w (EDir (h_root h)) p = Some (EDir i)) as Hw.
  { unfold resolve in Hr. destruct (walk _ _ p) as [[| |j]|]; try done. by injection Hr as ->. }
  unfold path_weight at 2. rewrite Hw. simpl. rewrite (weight_unfold i d Hd). apply le_n_S.
  rewrite Hp. apply Nat.eq_le_incl.
  rewrite (sum_ext (fun e => entry_weight e.2) (fun e => path_weight (p ++ [e.1]))).
  - apply (sum_fmap (fun name => path_weight (p ++ [name])) fst).
  - intros [name e] Hin%elem_of_map_to_list. simpl. unfold path_weight. rewrite walk_app, Hw. simpl. rewrite Hd. simpl. by rewrite Hin.
Qed.
End size.

(** ** Walks *)

Create HintDb ends.

(** Sequences, branches and reads, as for [inspects]. *)
Ltac end1 :=
  match goal with
  | |- forall _, _ => intro
  | |- _ /\ _ => split
  | |- reads _ = true => reflexivity
  | |- True => exact I
  | |- ends _ _ (Ret _) => exact I
  | |- ends _ _ (eret _) => exact I
  | |- ends _ _ (fail _) => exact I
  | |- ends _ _ (cret _) => exact I
  | |- ends _ _ (issue _) => exact I
  | |- ends _ _ (lift _) => exact I
  | |- ends _ _ (ask _) => split
  | |- ends _ _ (Vis _ _) => split
  | |- ends _ _ _ => assumption
  | |- ends _ _ (cbind _ _) => apply ends_cbind
  | |- ends _ _ (ebind _ _) => apply ends_ebind
  | |- ends _ _ (prog_bind _ _) => apply ends_bind
  | |- ends _ _ (try_call _ _) => apply ends_try
  | |- ends _ _ (io _) => apply ends_try
  | |- ends _ _ (perm _) => apply ends_try
  | |- ends _ _ (attempt _) => apply ends_attempt
  | |- ends _ _ _ => solve [eauto 2 with ends nocore]
  | |- ends _ _ (match ?x with _ => _ end) => destruct x
  | |- ends _ _ (let '(_, _) := ?x in _) => destruct x
  end.
Ltac ending := repeat (cbv zeta; end1).

Section walks.
Context {UT : UuidText} {ST : StoreText} {CR : Crypto} {CT : ComposeText} {WT : WebhookText} {RT : RecoveryText} {KT : CleanupText}.
Context (h : Host) (w : fs) (rank : N -> nat).
Context (Hrank : forall i d name j, w !! i = Some d -> d_entries d !! name = Some (EDir j) -> rank j < rank i).

Abbreviation euid := (h_euid h).
Abbreviation ends := (ends h w).
Abbreviation weighs := (path_weight h w rank).

Lemma ends_check_private q b : ends (check_private euid q b).
Proof. apply reads_only_ends, reads_only_check_private. Qed.
Lemma ends_check_private_tree q rel b : ends (check_private_tree euid q rel b).
Proof. apply reads_only_ends, reads_only_check_private_tree. Qed.
#[local] Hint Resolve ends_check_private ends_check_private_tree : ends.

Lemma ends_service_owned p mode : ends (check_service_owned_file_mode euid p mode).
Proof. unfold check_service_owned_file_mode. ending. Qed.
#[local] Hint Resolve ends_service_owned : ends.
Lemma ends_allowed_modes p modes : ends (check_allowed_managed_file_modes euid p modes).
Proof. induction modes; cbn [check_allowed_managed_file_modes]; ending. Qed.
#[local] Hint Resolve ends_allowed_modes : ends.
Lemma ends_managed_tree_file p l b : ends (check_managed_tree_file euid p l b).
Proof. unfold check_managed_tree_file. ending. Qed.
#[local] Hint Resolve ends_managed_tree_file : ends.
Lemma ends_managed_entries t r b policy names : ends (managed_entries euid t r b policy names).
Proof. induction names; cbn [managed_entries]; ending. Qed.
Lemma ends_private_entries d names : ends (private_entries euid d names).
Proof. induction names; cbn [private_entries]; ending. Qed.

#[local] Hint Resolve inspects_managed_tree_file inspects_managed_entries inspects_private_entries : inspects.

(** The directories found are among the entries listed. *)
Lemma managed_entries_weight t r b policy names found : may_return h w (managed_entries euid t r b policy names) (Ok found) ->
  sum_list_with weighs found.1 <= sum_list_with (fun name => weighs (t ++ [name])) names.
Proof.
  revert found. induction names as [|name names IH]; intros found H; cbn [managed_entries] in H.
  { apply may_ret in H. injection H as <-. simpl. lia. }
  apply may_try in H as (st & _ & H); [|done]. cbv zeta in H. cbn [sum_list_with].
  destruct (bool_decide (st_kind st = KindSymlink)); [destruct (_ && _); [apply IH in H; lia|by apply may_ret in H]|].
  destruct (_ && _) in H; [apply IH in H; lia|].
  destruct (st_kind st); (apply may_ebind in H as (_ & _ & H); [|solve [inspect]]);
    (apply may_ebind in H as (others & Ho & H); [|solve [inspect]]); apply may_ret in H; injection H as <-; apply IH in Ho; simpl in *; lia.
Qed.

Lemma private_entries_weight d names found : may_return h w (private_entries euid d names) (Ok found) ->
  sum_list_with weighs found <= sum_list_with (fun name => weighs (d ++ [name])) names.
Proof.
  revert found. induction names as [|name names IH]; intros found H; cbn [private_entries] in H.
  { apply may_ret in H. injection H as <-. simpl. lia. }
  apply may_try in H as (st & _ & H); [|done]. cbn [sum_list_with].
  destruct (st_kind st); [| |by apply may_ret in H]; (apply may_ebind in H as (x & _ & H); [|solve [inspect]]).
  - apply IH in H. lia.
  - apply may_ebind in H as (others & Ho & H); [|solve [inspect]]. apply may_ret in H. injection H as <-. apply IH in Ho. simpl. lia.
Qed.

Lemma ends_managed_tree n t depth policy pending k :
  sum_list_with weighs pending <= n -> ends (managed_tree euid n t depth policy pending k).
Proof.
  revert pending k. induction n as [|n IH]; intros [|d pending] k Hn; cbn [managed_tree]; try done.
  { pose proof (path_weight_pos h w rank d). simpl in Hn. lia. }
  apply ends_try_may; [done|]. intros names Hnames. apply ends_ebind_may; [apply ends_managed_entries|]. intros found Hf.
  apply IH. rewrite sum_list_with_app, sum_list_with_reverse. apply managed_entries_weight in Hf.
  pose proof (listed_weight h w rank Hrank d names Hnames). simpl in Hn. lia.
Qed.

Lemma ends_private_tree n pending : sum_list_with weighs pending <= n -> ends (private_tree euid n pending).
Proof.
  revert pending. induction n as [|n IH]; intros [|d pending] Hn; cbn [private_tree]; try done.
  { pose proof (path_weight_pos h w rank d). simpl in Hn. lia. }
  apply ends_try_may; [done|]. intros names Hnames. apply ends_ebind_may; [apply ends_private_entries|]. intros found Hf.
  apply IH. rewrite sum_list_with_app, sum_list_with_reverse. apply private_entries_weight in Hf.
  pose proof (listed_weight h w rank Hrank d names Hnames). simpl in Hn. lia.
Qed.

Lemma ends_artifact_bytes n b pending total :
  sum_list_with (fun x => weighs x.1) pending <= n -> ends (artifact_bytes euid n b pending total).
Proof.
  revert pending total. induction n as [|n IH]; intros [|[p l] pending] total Hn; cbn [artifact_bytes]; try done.
  { pose proof (path_weight_pos h w rank p). simpl in Hn. lia. }
  cbn [sum_list_with fst] in Hn. pose proof (path_weight_pos h w rank p) as Hp. apply ends_ebind; [by apply ends_try|].
  intros st. destruct (st_kind st); [| |done].
  - do 3 (apply ends_ebind; [solve [apply ends_managed_tree_file | by apply ends_try | exact I]|intros ?]). apply IH. lia.
  - apply ends_ebind; [apply ends_check_private|]. intros _. apply ends_try_may; [done|]. intros names Hnames. apply IH.
    rewrite sum_list_with_app, sum_list_with_reverse, sum_fmap. pose proof (listed_weight h w rank Hrank p names Hnames). simpl. lia.
Qed.

(** ** The scan *)

Context (self : AppStore) (fuel : nat).
Context (Hfuel : weight w rank (h_root h) <= fuel).

Lemma ends_validate_managed_tree t depth policy : ends (validate_managed_tree euid fuel t depth policy).
Proof. apply ends_managed_tree. simpl. pose proof (path_weight_root h w rank Hrank t). lia. Qed.
Lemma ends_logical_bytes p a : ends (logical_artifact_bytes euid fuel p a).
Proof. apply ends_artifact_bytes. simpl. pose proof (path_weight_root h w rank Hrank p). lia. Qed.
Lemma ends_cleanup_source p : ends (validate_cleanup_source euid fuel p).
Proof.
  unfold validate_cleanup_source. ending. apply ends_private_tree. simpl. pose proof (path_weight_root h w rank Hrank p). lia.
Qed.
#[local] Hint Resolve ends_validate_managed_tree ends_logical_bytes ends_cleanup_source : ends.

Lemma ends_load_verified q revision hmac_key : ends (load_verified euid q revision hmac_key).
Proof. apply reads_only_ends, reads_only_load_verified. Qed.
Lemma ends_read_environment q rel name keys : ends (read_environment euid q rel name keys).
Proof. apply reads_only_ends, reads_only_read_environment. Qed.
Lemma ends_load_files q rel files acc : ends (load_files euid q rel files acc).
Proof. apply reads_only_ends, reads_only_load_files. Qed.
#[local] Hint Resolve ends_load_verified ends_read_environment ends_load_files : ends.

(** The programs of the scan that call each other without recursion. *)
Ltac ends_open :=
  unfold load_revision, load, read_file, read_toml, read_toml_contents, read_release_toml, expect_revision, validate_release_link_path,
    read_release_header, validate_v2_release, collect_release, scan_draft, scan_active, validate_active_compose, scan_active_revision,
    scan_app, scan_releases, collect_release_revisions, scan_link, load_network_plan, exists_, entry_exists, require_directory,
    validate_revision_directory_entries, load_revision_record, load_webhook_revision, load_metadata, status, secret_degraded,
    validate_secret_revision, validate_app_directory, read_cleanup_marker, check_retired, check_payload, integrity_key,
    cleanup_tombstones, list_trash, scan_entry, scan_app_entry, temporary_tree, webhook_issue.
Ltac ending_open := repeat (cbv zeta; first [end1 | progress ends_open]).

Lemma ends_revision_entry_names d names : ends (revision_entry_names euid d names).
Proof. induction names; cbn [revision_entry_names]; ending. Qed.
#[local] Hint Resolve ends_revision_entry_names : ends.
Lemma ends_secret_entries key a c names b : ends (validate_secret_entries euid key a c names b).
Proof. revert b. induction names; intros b; cbn [validate_secret_entries]; ending_open. Qed.
Lemma ends_payload_entries p items names : ends (check_payload_entries euid fuel p items names).
Proof. induction names; cbn [check_payload_entries]; ending. Qed.
Lemma ends_payload_items p n items : ends (check_payload_items euid fuel p n items).
Proof. revert n. induction items; intros n; cbn [check_payload_items]; ending. Qed.
#[local] Hint Resolve ends_secret_entries ends_payload_entries ends_payload_items : ends.
Lemma ends_tombstone_operations names : ends (tombstone_operations euid self fuel names).
Proof. induction names; cbn [tombstone_operations]; ending_open. Qed.
Lemma ends_collect_releases a i names m : ends (collect_releases euid self fuel a i names m).
Proof. revert m. induction names; intros m; cbn [collect_releases]; ending_open. Qed.
Lemma ends_release_revisions a l : ends (check_release_revisions euid self a l).
Proof. induction l as [|[r e] l IH]; cbn [check_release_revisions]; ending_open. Qed.
#[local] Hint Resolve ends_tombstone_operations ends_collect_releases ends_release_revisions : ends.

Lemma ends_scan_entries names : ends (scan_entries euid self fuel names).
Proof. induction names; cbn [scan_entries]; ending_open. Qed.
#[local] Hint Resolve ends_scan_entries : ends.

Lemma ends_scan_store : ends (scan_store euid self fuel).
Proof. unfold scan_store. ending. Qed.
End walks.

(** C21: the scan always returns: on a file system whose directories form a tree
    there is a number of entries which, allowed to the walks over directories, is
    never used up, whatever the calls answer and whichever of them fail; in
    particular the scan has an outcome when nothing fails. *)
Theorem scan_returns {UT : UuidText} {ST : StoreText} {CR : Crypto} {CT : ComposeText} {WT : WebhookText} {RT : RecoveryText}
    {KT : CleanupText} (h : Host) (w : fs) (self : AppStore) :
  acyclic w -> exists n, forall fuel, n <= fuel ->
    (forall tr, relied (step h) (possible h) w tr -> ~ exhausts (scan_store (h_euid h) self fuel) tr)
    /\ exists outcome, (run (serve h) (scan_store (h_euid h) self fuel) w).1 = Some outcome.
Proof.
  intros [rank Hrank]. exists (weight w rank (h_root h)). intros fuel Hfuel. pose proof (ends_scan_store h w rank Hrank self fuel Hfuel) as He.
  split; [|by apply ends_run]. intros tr Hr. by eapply ends_never_exhausts.
Qed.

(** A way to check the hypothesis: entries have greater numbers than their
    directory, below a bound. *)
Definition ordered_below (bound : N) (w : fs) : bool :=
  forallb (fun '(i, d) => forallb (fun e => match e.2 with EDir j => (i <? j)%N && (j <? bound)%N | _ => true end) (map_to_list (d_entries d)))
    (map_to_list w).

Lemma ordered_acyclic bound w : ordered_below bound w = true -> acyclic w.
Proof.
  unfold ordered_below. rewrite forallb_forall. intros H. exists (fun i => N.to_nat (bound - i)). intros i d name j Hd Hj.
  apply elem_of_map_to_list in Hd, Hj. apply list_elem_of_In in Hd, Hj. specialize (H _ Hd). cbv beta iota in H.
  rewrite forallb_forall in H. specialize (H _ Hj). simpl in H. apply andb_prop in H as [?%N.ltb_lt ?%N.ltb_lt]. lia.
Qed.
