(* ===== verification/PlanTheorems.v ===== *)
(** * PlanTheorems: what a cleanup plan may contain *)

From S2P Require Import Prelude Text WebhookProtocol Ingress Reference Models Effects Codec Names Drafts DraftSpec Compose Database Ledger PollStates Idempotency FileSystem StoreBase ConfigRevision ReleaseStore AppDirectories WebhookStore Recovery CleanupStore Maintenance Lifecycle Catalog Inspection CleanupPlanner MixedInspection CatalogTheorems.
From Stdlib Require Import Sorted.

(** ** Retained releases *)

(** The first occurrences. *)
Fixpoint distinct (seen : gset Uuid) (l : list Uuid) : list Uuid :=
  match l with
  | [] => []
  | x :: l => if bool_decide (x ∈ seen) then distinct seen l else x :: distinct ({[x]} ∪ seen) l
  end.

Lemma retain_exact keep (retained : gset Uuid) successes :
  retain keep retained successes = retained ∪ list_to_set (take (keep - size retained) (distinct retained successes)).
Proof.
  revert retained. induction successes as [|x l IH]; intros retained; cbn [retain distinct].
  { rewrite take_nil. set_solver. }
  destruct (keep <=? size retained)%nat eqn:Hk.
  { apply Nat.leb_le in Hk. replace (keep - size retained) with 0 by lia. rewrite take_0. set_solver. }
  apply Nat.leb_gt in Hk. rewrite IH. case_bool_decide as Hx.
  - replace ({[x]} ∪ retained) with retained by set_solver. done.
  - rewrite size_union by set_solver. rewrite size_singleton.
    replace (keep - size retained) with (S (keep - (1 + size retained))) by lia. cbn [take]. set_solver.
Qed.

Lemma size_of_list (l : list Uuid) : size (list_to_set (C := gset Uuid) l) <= length l.
Proof.
  induction l as [|x l IH]; [done|]. rewrite list_to_set_cons. cbn [length].
  pose proof (size_union_alt {[x]} (list_to_set (C := gset Uuid) l)) as E. rewrite E, size_singleton.
  pose proof (subseteq_size (list_to_set l ∖ {[x]}) (list_to_set (C := gset Uuid) l) ltac:(set_solver)). lia.
Qed.

(** The releases a retention policy keeps are exactly the first
    [keep_versions] different ones of the active release followed by the
    successful releases, newest first; in particular the active release is
    among them and no more than [keep_versions] are kept. *)
Theorem retained_releases_exact active keep successes : 1 <= keep ->
  retained_releases active keep successes
  = list_to_set (take keep (distinct ∅ (option_list active ++ successes)))
  /\ size (retained_releases active keep successes) <= keep
  /\ (forall release, active = Some release -> release ∈ retained_releases active keep successes).
Proof.
  intros Hk. assert (retained_releases active keep successes
    = list_to_set (take keep (distinct ∅ (option_list active ++ successes)))) as E.
  { unfold retained_releases. rewrite retain_exact. destruct active as [release|]; cbn.
    - rewrite bool_decide_false by set_solver. rewrite size_singleton, (right_id_L ∅ (∪)).
      destruct keep as [|keep]; [lia|]. cbn [take]. rewrite list_to_set_cons. replace (S keep - 1) with keep by lia. done.
    - rewrite size_empty, Nat.sub_0_r. set_solver. }
  split; [done|]. rewrite E. split.
  - etrans; [apply size_of_list|]. rewrite length_take. lia.
  - intros release ->. destruct keep as [|keep]; [lia|]. cbn.
    rewrite bool_decide_false by set_solver. cbn [take]. set_solver.
Qed.

Lemma retained_releases_exact_witness :
  size (retained_releases (Some 4%N) 2 [4; 9; 9; 5]%N) <= 2
  /\ retained_releases (Some 4%N) 2 [4; 9; 9; 5]%N = {[4; 9]}%N.
Proof.
  split; [|by vm_compute].
  exact (proj1 (proj2 (retained_releases_exact (Some 4%N) 2 [4; 9; 9; 5]%N ltac:(lia)))).
Defined.

(** ** Selection *)

Section selection.
Context {UT : UuidText}.
Context (automatic_app : option Uuid) (releases : list ValidRelease) (revisions : gmap (Uuid * Uuid) Z)
  (temps : list CleanupCandidate) (release_protection revision_protection : protection)
  (temporary_protection : list CleanupArtifact).
Context (Htemps : Forall (fun c => exists a l n, cc_artifact c = CaTemporary a l n) temps).

Abbreviation selected := (selected_releases automatic_app releases release_protection).
Abbreviation candidates := (select_candidates automatic_app releases revisions temps release_protection
  revision_protection temporary_protection).

Lemma push_length cs more : length cs <= MAX_CLEANUP_ITEMS -> length (push_until_full cs more) <= MAX_CLEANUP_ITEMS.
Proof. intros H. unfold push_until_full. rewrite length_app, length_take. lia. Qed.

Lemma push_elem cs more c : c ∈ push_until_full cs more -> c ∈ cs \/ c ∈ more.
Proof. unfold push_until_full. intros [H|H]%elem_of_app; [by left|]. right. apply elem_of_take in H as (i & H & _). by eapply list_elem_of_lookup_2. Qed.

Lemma selected_length : length selected <= MAX_CLEANUP_ITEMS.
Proof. unfold selected_releases. rewrite length_take. lia. Qed.

Lemma candidates_length : length candidates <= MAX_CLEANUP_ITEMS.
Proof. unfold select_candidates. do 2 apply push_length. rewrite length_map. apply selected_length. Qed.

Lemma selected_elem item : item ∈ selected ->
  item ∈ releases /\ in_scope automatic_app (vr_app_id item) = true /\ release_protection !! release_key item = None.
Proof. unfold selected_releases. intros (i & H%list_elem_of_lookup_2 & _)%elem_of_take. apply list_elem_of_filter in H as [[? ?] ?]. done. Qed.

Lemma candidate_cases c : c ∈ candidates ->
  (exists item, item ∈ selected /\ c = release_candidate item)
  \/ (exists key bytes, revisions !! key = Some bytes /\ in_scope automatic_app key.1 = true
        /\ (key ∉ retained_revisions releases selected revision_protection) /\ c = revision_candidate (key, bytes))
  \/ (c ∈ temps /\ automatic_app = None /\ cc_artifact c ∉ temporary_protection).
Proof.
  unfold select_candidates. intros [[H|H]%push_elem|H]%push_elem.
  - left. apply list_elem_of_fmap in H as (item & -> & H). by exists item.
  - right. left. apply list_elem_of_fmap in H as ([key bytes] & -> & H).
    apply list_elem_of_filter in H as [[Hs Hr] H]. rewrite sort_by_perm in H. apply elem_of_map_to_list in H.
    by exists key, bytes.
  - right. right. apply list_elem_of_filter in H as [[? ?] ?]. done.
Qed.

Lemma release_candidates c app_id release_id revision_id : c ∈ candidates -> cc_artifact c = CaRelease app_id release_id revision_id ->
  in_scope automatic_app app_id = true /\ ((app_id, release_id) ∉ dom release_protection)
  /\ exists item, item ∈ releases /\ release_key item = (app_id, release_id) /\ rl_config_revision (vr_release item) = revision_id.
Proof using Htemps.
  intros Hc E. destruct (candidate_cases c Hc) as [(item & Hi & ->)|[(key & bytes & _ & _ & _ & ->)|(Ht & _)]].
  - injection E as <- <- <-. apply selected_elem in Hi as (Hr & Hs & Hp). split; [done|]. split; [|by exists item].
    apply not_elem_of_dom. exact Hp.
  - done.
  - destruct (proj1 (list.Forall_forall _ _) Htemps c Ht) as (a & l & n & E'). by rewrite E' in E.
Qed.

(** A release that stays keeps its revision. *)
Lemma revision_candidates c app_id revision_id : c ∈ candidates -> cc_artifact c = CaConfigRevision app_id revision_id ->
  in_scope automatic_app app_id = true /\ (app_id, revision_id) ∈ dom revisions /\ ((app_id, revision_id) ∉ dom revision_protection)
  /\ forall item, item ∈ releases -> vr_app_id item = app_id -> rl_config_revision (vr_release item) = revision_id ->
       exists item', item' ∈ selected /\ release_key item' = release_key item.
Proof using Htemps.
  intros Hc E. destruct (candidate_cases c Hc) as [(item & Hi & ->)|[(key & bytes & Hk & Hs & Hr & ->)|(Ht & _)]].
  - done.
  - injection E as <- <-. split; [done|]. split; [destruct key; by eapply elem_of_dom_2|].
    unfold retained_revisions in Hr. split; [destruct key; set_solver|]. intros item Hi Ha Hrev.
    destruct (decide (release_key item ∈ map release_key selected)) as [Hin|Hin].
    + apply list_elem_of_fmap in Hin as (item' & E' & Hin). by exists item'.
    + exfalso. apply Hr, elem_of_union_l, elem_of_list_to_set, list_elem_of_fmap. exists item.
      split; [destruct key; simpl in *; congruence|]. by apply list_elem_of_filter.
  - destruct (proj1 (list.Forall_forall _ _) Htemps c Ht) as (a & l & n & E'). by rewrite E' in E.
Qed.

Lemma temporary_candidates c app_id location name : c ∈ candidates -> cc_artifact c = CaTemporary app_id location name ->
  automatic_app = None /\ cc_artifact c ∉ temporary_protection.
Proof.
  intros Hc E. destruct (candidate_cases c Hc) as [(item & Hi & ->)|[(key & bytes & _ & _ & _ & ->)|(_ & Ha & Ht)]]; done.
Qed.

(** A revision is only selected when there was room for every release. *)
Lemma selected_candidate item : item ∈ selected -> release_candidate item ∈ candidates.
Proof.
  intros H. unfold select_candidates, push_until_full. rewrite !elem_of_app. left. left. apply list_elem_of_fmap. by exists item.
Qed.
End selection.

(** ** Protection only grows *)

#[local] Arguments protect : simpl never.
#[local] Arguments references : simpl never.

Section growth.
Context {UT : UuidText}.

Abbreviation grows := (fun p q : protection => dom p ⊆ dom q).

Lemma ok_inj {E A} (a b : A) : Ok (E := E) a = Ok b -> a = b.
Proof. by intros [= ->]. Qed.

Lemma protect_grows p app_id id reason : grows p (protect p app_id id reason).
Proof. destruct id; [|done]. unfold protect. rewrite dom_insert. set_solver. Qed.

Lemma protect_adds p app_id id reason : (app_id, id) ∈ dom (protect p app_id (Some id) reason).
Proof. unfold protect. rewrite dom_insert. set_solver. Qed.

Lemma fold_grows {A} (f : protection -> A -> protection) l p :
  (forall p x, grows p (f p x)) -> grows p (foldl f p l).
Proof. intros Hf. revert p. induction l as [|x l IH]; intros p; [done|]. cbn [foldl]. etrans; [apply Hf|apply IH]. Qed.

Lemma policies_grow policies unregistered valid rows p q :
  protect_policies policies unregistered valid rows p = Ok q -> grows p q.
Proof.
  revert p. induction policies as [|[app_id policy] policies IH]; intros p H; cbn [protect_policies] in H; [by injection H as ->|].
  case_bool_decide; [by apply IH|]. apply bind_ok_iff in H as (found & _ & H). cbv zeta in H.
  etrans; [|by apply IH]. unfold set_fold, compose. generalize (elements (retained_releases (active_release p app_id)
    (Z.to_nat (rt_keep_versions policy)) (map snd (reverse (sort_by success_leb found))))). intros l.
  induction l as [|x l IHl]; [done|]. cbn [foldr]. etrans; [apply IHl|].
  exact (protect_grows _ app_id (Some x) PrRecentRollback).
Qed.

Lemma recent_grows policies valid row p :
  grows (pt_releases p) (pt_releases (protect_recent policies valid row p))
  /\ pt_revisions (protect_recent policies valid row p) = pt_revisions p.
Proof.
  unfold protect_recent. destruct (dp_candidate_release_id row); [|done]. cbv zeta.
  destruct (_ && _ && _ && _ && _); [|done]. split; [apply protect_grows|done].
Qed.

Lemma recovery_grows valid revisions row p q : protect_recovery valid revisions row p = Ok q ->
  grows (pt_releases p) (pt_releases q) /\ grows (pt_revisions p) (pt_revisions q).
Proof.
  unfold protect_recovery. cbv zeta. destruct (recoverable_status _); [|by intros [= ->]].
  intros (? & _ & H)%bind_ok_iff. apply ok_inj in H. subst q. cbn [pt_releases pt_revisions]. split; [|apply protect_grows].
  apply (fold_grows (fun m r => protect m (dp_app_id row) r PrDeploymentRecovery)). intros. apply protect_grows.
Qed.

Lemma recovery_protects valid revisions row p q : protect_recovery valid revisions row p = Ok q ->
  recoverable_status (dp_status row) = true ->
  (dp_app_id row, dp_requested_revision row) ∈ dom (pt_revisions q)
  /\ forall id, Some id ∈ references row -> (dp_app_id row, id) ∈ dom (pt_releases q).
Proof.
  unfold protect_recovery. cbv zeta. intros H Hr. rewrite Hr in H. apply bind_ok_iff in H as (? & _ & H).
  apply ok_inj in H. subst q. cbn [pt_releases pt_revisions]. split; [apply protect_adds|]. intros id. generalize (pt_releases p) as m.
  induction (references row) as [|r l IH]; intros m Hin; [by apply elem_of_nil in Hin|].
  apply elem_of_cons in Hin as [<-|Hin]; [|by apply IH]. cbn [foldl].
  eapply (fold_grows (fun m r => protect m (dp_app_id row) r PrDeploymentRecovery)); [intros; apply protect_grows|].
  apply protect_adds.
Qed.

Lemma rows_grow policies unregistered valid revisions rows p q :
  protect_rows policies unregistered valid revisions rows p = Ok q ->
  grows (pt_releases p) (pt_releases q) /\ grows (pt_revisions p) (pt_revisions q).
Proof.
  revert p. induction rows as [|row rows IH]; intros p H; cbn [protect_rows] in H; [by injection H as ->|].
  case_bool_decide; [apply bind_ok_iff in H as (_ & _ & H); by apply IH|].
  apply bind_ok_iff in H as (p' & Hp & H). apply recovery_grows in Hp as [H1 H2]. apply IH in H as [H3 H4].
  destruct (recent_grows policies valid row p) as [H5 E]. rewrite E in H2. split; etrans; try done. by etrans.
Qed.

(** Every deployment that may still be recovered is protected whole. *)
Lemma rows_protect policies unregistered valid revisions rows p q row :
  protect_rows policies unregistered valid revisions rows p = Ok q -> row ∈ rows ->
  dp_app_id row ∉ unregistered -> recoverable_status (dp_status row) = true ->
  (dp_app_id row, dp_requested_revision row) ∈ dom (pt_revisions q)
  /\ forall id, Some id ∈ references row -> (dp_app_id row, id) ∈ dom (pt_releases q).
Proof.
  revert p. induction rows as [|r rows IH]; intros p H Hin Hu Hr; [by apply elem_of_nil in Hin|]. cbn [protect_rows] in H.
  apply elem_of_cons in Hin as [<-|Hin].
  - rewrite bool_decide_false in H by done. apply bind_ok_iff in H as (p' & Hp & H).
    apply recovery_protects in Hp as [H1 H2]; [|done]. apply rows_grow in H as [H3 H4]. split; [by apply H4|].
    intros id Hid. by apply H3, H2.
  - case_bool_decide; [apply bind_ok_iff in H as (_ & _ & H)|apply bind_ok_iff in H as (p' & _ & H)]; by eapply IH.
Qed.

Lemma reserve_item_grows r item :
  grows (rv_releases r) (rv_releases (reserve_item r item)) /\ grows (rv_revisions r) (rv_revisions (reserve_item r item))
  /\ rv_temporaries r ⊆ rv_temporaries (reserve_item r item).
Proof.
  unfold reserve_item. case_bool_decide; [done|]. destruct (cc_artifact item.1); cbn [rv_releases rv_revisions rv_temporaries].
  - split; [apply protect_grows|done].
  - split; [done|]. split; [apply protect_grows|done].
  - split; [done|]. split; [done|]. case_bool_decide; [done|]. by apply list_subseteq_app_l.
Qed.

Definition reserves (r : Reserved) (a : CleanupArtifact) : Prop :=
  match a with
  | CaRelease app_id release_id _ => (app_id, release_id) ∈ dom (rv_releases r)
  | CaConfigRevision app_id revision_id => (app_id, revision_id) ∈ dom (rv_revisions r)
  | CaTemporary _ _ _ => a ∈ rv_temporaries r
  end.

Definition rgrows (r r' : Reserved) : Prop :=
  grows (rv_releases r) (rv_releases r') /\ grows (rv_revisions r) (rv_revisions r') /\ rv_temporaries r ⊆ rv_temporaries r'.

Global Instance rgrows_preorder : PreOrder rgrows.
Proof. split; [done|]. intros a b c (H1 & H2 & H3) (H4 & H5 & H6). repeat split; by etrans. Qed.

Lemma reserves_grow r r' a : rgrows r r' -> reserves r a -> reserves r' a.
Proof. intros (H1 & H2 & H3). destruct a; simpl; auto. Qed.

Lemma reserve_grows plan states r : rgrows r (reserve plan states r).
Proof.
  unfold reserve. generalize (zip (cp_candidates plan) states) as l. intros l. revert r.
  induction l as [|item l IH]; intros r; [done|]. cbn [foldl]. etrans; [apply reserve_item_grows|apply IH].
Qed.

Lemma reserve_item_reserves r item : is_item_status item.2 <> ItDetached -> reserves (reserve_item r item) (cc_artifact item.1).
Proof.
  intros H. unfold reserve_item. rewrite bool_decide_false by done. destruct (cc_artifact item.1) eqn:E; cbn [reserves rv_releases rv_revisions rv_temporaries].
  - apply protect_adds.
  - apply protect_adds.
  - case_bool_decide; [done|]. set_solver.
Qed.

(** What an operation has not detached yet is reserved. *)
Lemma reserve_reserves plan states r i c state :
  cp_candidates plan !! i = Some c -> states !! i = Some state -> is_item_status state <> ItDetached ->
  reserves (reserve plan states r) (cc_artifact c).
Proof.
  intros Hc Hs Hd. unfold reserve. assert (zip (cp_candidates plan) states !! i = Some (c, state)) as Hz
    by (apply lookup_zip_with_Some; by exists c, state).
  revert Hz. generalize (zip (cp_candidates plan) states) as l. intros l. clear Hc Hs. revert i r.
  induction l as [|item l IH]; intros i r Hi; [done|]. destruct i as [|i]; cbn [foldl]; [|by eapply IH].
  injection Hi as ->. assert (rgrows (reserve_item r (c, state)) (foldl reserve_item (reserve_item r (c, state)) l)) as Hg.
  { generalize (reserve_item r (c, state)). clear. induction l as [|x l IH]; intros r; [done|]. cbn [foldl].
    etrans; [apply reserve_item_grows|apply IH]. }
  eapply reserves_grow; [exact Hg|]. by apply (reserve_item_reserves r (c, state)).
Qed.
End growth.

(** ** The planner only looks *)

Section looks.
Context {UT : UuidText} {ST : StoreText} {CR : Crypto} {CT : ComposeText} {WT : WebhookText} {RT : RecoveryText}
  {KT : CleanupText} {TT : TombstoneText} {MJ : MaintenanceJson}.
Context (euid : Z) (self : AppStore) (fuel : nat).

Lemma inspects_load_v2_release app_id release_id : inspects (load_v2_release euid self app_id release_id).
Proof.
  unfold load_v2_release, load_v2_release_at, load_release, read_metadata_at.
  pose proof (inspects_check_private euid). pose proof (inspects_check_private_tree euid). pose proof (inspects_load_verified euid).
  inspect; auto.
Qed.

Lemma inspects_tombstones : inspects (tombstones euid).
Proof.
  pose proof (inspects_check_private_tree euid). unfold tombstones. inspect. rename a into names. induction names; cbn [tombstone_entries]; [done|].
  unfold read_tombstone_metadata, read_metadata_at. inspect; auto.
Qed.

Hint Resolve inspects_load_v2_release inspects_tombstones inspects_scan_store inspects_logical_bytes inspects_check_private
  inspects_load_verified inspects_cleanup_marker inspects_cleanup_tombstones inspects_cleanup_preparations : minspects.

Lemma minspects_app_tombstones : minspects (validate_app_tombstones euid).
Proof.
  unfold validate_app_tombstones, on_store. apply minspects_ebind; [minspect|]. intros ids.
  induction ids as [|[a o] ids IH]; cbn [succeeded_of]; unfold select; minspect; done.
Qed.

Lemma minspects_completed_apps : minspects (completed_apps euid).
Proof.
  unfold completed_apps, on_store, pending, select. minspect.
  - induction a0 as [|row rows IH]; cbn [pending_rows]; unfold select; minspect; done.
  - clear a0. induction a1 as [|row rows IH]; cbn [completed_rows]; unfold check_unregistered, select; minspect; done.
Qed.

Lemma minspects_temporary d a l n : minspects (temporary_candidate euid fuel d a l n).
Proof. unfold temporary_candidate, temp_bytes, stored. minspect. Qed.
Hint Resolve minspects_temporary : minspects.

Lemma minspects_logical_bytes n p : minspects (logical_bytes euid n p).
Proof.
  revert p. induction n as [|n IH]; intros p; cbn [logical_bytes]; [done|]. unfold read_dir, stored. minspect.
  generalize 0%Z. match goal with |- forall z, minspects (_ ?l z) => induction l as [|name names IHn]; intros total; minspect; auto end.
Qed.
Hint Resolve minspects_logical_bytes : minspects.

Lemma minspects_root_temps names : minspects (collect_root_temps euid fuel names).
Proof. induction names; cbn [collect_root_temps]; minspect; done. Qed.

Lemma minspects_inventory_releases a names c : minspects (inventory_releases euid self fuel a names c).
Proof. revert c. induction names as [|name names IH]; intros c; cbn [inventory_releases]; unfold stored; minspect; auto. Qed.
Lemma minspects_inventory_config a names c : minspects (inventory_config_revisions euid self fuel a names c).
Proof.
  revert c. induction names as [|name names IH]; intros c; cbn [inventory_config_revisions]; unfold stored, integrity_key; minspect; auto.
Qed.
Lemma minspects_inventory_root a names c : minspects (inventory_root euid fuel a names c).
Proof. revert c. induction names as [|name names IH]; intros c; cbn [inventory_root]; minspect; auto. Qed.
Hint Resolve minspects_inventory_releases minspects_inventory_config minspects_inventory_root minspects_root_temps : minspects.

Lemma minspects_inventory_app a c : minspects (inventory_app euid self fuel a c).
Proof. unfold inventory_app, read_dir, stored. minspect. Qed.
Lemma minspects_inventory_all apps c : minspects (inventory_all euid self fuel apps c).
Proof. revert c. induction apps as [|a apps IH]; intros c; cbn [inventory_all]; [done|]. apply minspects_ebind; [apply minspects_inventory_app|auto]. Qed.
Hint Resolve minspects_inventory_app minspects_inventory_all : minspects.

Lemma minspects_load_policy a : minspects (load_policy a).
Proof. unfold load_policy, fetch. minspect. Qed.
Lemma minspects_policies : minspects enabled_policies.
Proof.
  unfold enabled_policies, fetch. minspect. induction a as [|x l IH]; cbn [load_policies]; [done|].
  apply minspects_ebind; [apply minspects_load_policy|]. minspect; done.
Qed.
Lemma minspects_authorization op : minspects (authorization op).
Proof. unfold authorization, fetch. minspect. Qed.
Lemma minspects_item_states op plan : minspects (exact_item_states op plan).
Proof. unfold exact_item_states, fetch. minspect. Qed.
Hint Resolve minspects_load_policy minspects_policies minspects_authorization minspects_item_states : minspects.

Lemma minspects_terminal_items op plan : minspects (exact_terminal_items op plan).
Proof. unfold exact_terminal_items. minspect. Qed.
Lemma minspects_terminal_proof op hash status items : minspects (verify_terminal_proof op hash status items).
Proof. unfold verify_terminal_proof, fetch. minspect. Qed.
Lemma minspects_recoverable op : minspects (proof_is_recoverable op).
Proof. unfold proof_is_recoverable, fetch. minspect. Qed.
Hint Resolve minspects_terminal_items minspects_terminal_proof minspects_recoverable : minspects.

Lemma minspects_check_operation row b b' resuming : minspects (check_operation euid self fuel row b b' resuming).
Proof. unfold check_operation, stored. minspect. Qed.
Hint Resolve minspects_check_operation : minspects.

Lemma minspects_check_operations ts ps resuming rows r : minspects (check_operations euid self fuel ts ps resuming rows r).
Proof. revert r. induction rows as [|row rows IH]; intros r; cbn [check_operations]; minspect; auto. Qed.
Hint Resolve minspects_check_operations : minspects.

Lemma minspects_cleanup_operations resuming r : minspects (protect_from_cleanup_operations euid self fuel resuming r).
Proof. unfold protect_from_cleanup_operations, stored, fetch. minspect. Qed.
Lemma minspects_from_deployments releases revisions u p : minspects (protect_from_deployments releases revisions u p).
Proof. unfold protect_from_deployments, fetch. minspect. Qed.

Lemma minspects_build_plan resuming automatic_app : minspects (build_plan_inner euid self fuel resuming automatic_app).
Proof.
  pose proof minspects_app_tombstones. pose proof minspects_completed_apps. pose proof minspects_cleanup_operations.
  pose proof minspects_from_deployments. unfold build_plan_inner, read_dir, stored. minspect; auto.
Qed.
End looks.

(** ** What a plan leaves alone *)

Section spares.
Context {UT : UuidText} {ST : StoreText} {CR : Crypto} {CT : ComposeText} {WT : WebhookText} {RT : RecoveryText}
  {KT : CleanupText} {TT : TombstoneText} {TM : SqlTime} {MJ : MaintenanceJson}.
Context (h : Host) (w : fs) (t : Tables) (self : AppStore) (fuel : nat) (key : string).
Context (Hkey : as_integrity_key self = Some key).

Abbreviation euid := (h_euid h).
Abbreviation may := (may_return h w).
Abbreviation can := (returns h w t).

(** *** The inventory *)

Definition is_temporary (c : CleanupCandidate) : Prop := exists a l n, cc_artifact c = CaTemporary a l n.

(** What the inventory of [apps] adds to what was there. *)
Record collects (apps : list Uuid) (c c' : Collected) : Prop := {
  cl_releases : forall item, item ∈ co_releases c' -> item ∈ co_releases c \/ vr_app_id item ∈ apps;
  cl_revisions : forall k, k ∈ dom (co_revisions c') -> k ∈ dom (co_revisions c) \/ k.1 ∈ apps;
  cl_temps : Forall is_temporary (co_temps c) -> Forall is_temporary (co_temps c');
  cl_kept : co_releases c ⊆ co_releases c';
}.

Lemma collects_refl apps c : collects apps c c.
Proof. split; auto; done. Qed.

Lemma collects_trans apps c1 c2 c3 : collects apps c1 c2 -> collects apps c2 c3 -> collects apps c1 c3.
Proof.
  intros [a1 a2 a3 a4] [b1 b2 b3 b4]. split; [|
    |by auto|by etrans].
  - intros item [H|H]%b1; auto.
  - intros k [H|H]%b2; auto.
Qed.

Lemma collects_more apps apps' c c' : apps ⊆ apps' -> collects apps c c' -> collects apps' c c'.
Proof.
  intros Hs [a1 a2 a3 a4]. split; [| |done|done].
  - intros item [H|H]%a1; auto.
  - intros k [H|H]%a2; auto.
Qed.

Lemma collects_temp apps c d a l n temp : can (temporary_candidate euid fuel d a l n) (Ok temp) -> collects apps c (add_temp temp c).
Proof.
  unfold temporary_candidate. intros (bytes & _ & E%ret_returns)%ebind_returns; [|unfold temp_bytes, stored].
  - injection E as <-. split; [by left|by left| |done]. intros H. apply list.Forall_app. split; [done|]. constructor; [|done].
    by exists a, l, n.
  - apply minspects_ebind; [done|]. intros _. apply minspects_files, inspects_logical_bytes.
Qed.

Lemma loaded_id app_id release_id release :
  may (load_v2_release euid self app_id release_id) (Ok release) -> rl_id release = release_id /\ rl_app_id release = app_id.
Proof.
  unfold load_v2_release, load_v2_release_at. intros (app & _ & H)%may_ebind; [|unfold read_metadata_at; inspect].
  unfold load_release in H. cbv zeta in H.
  apply may_ebind in H as (_ & _ & H); [|apply inspects_check_private_tree].
  apply may_ebind in H as (_ & _ & H); [|apply inspects_check_private_tree].
  apply may_try in H as (header & _ & H); [|done]. apply may_lift in H as (parsed & _ & H).
  apply may_lift in H as (k & _ & H). apply refuse_false in H as [Hg H].
  apply orb_false_iff in Hg as [[[_ Hi]%orb_false_iff Ha]%orb_false_iff _]. apply negb_false_iff, bool_decide_eq_true in Hi, Ha.
  apply refuse_false in H as [_ H]. apply may_try in H as (compose & _ & H); [|done].
  apply may_ebind in H as (loaded & _ & H); [|apply inspects_load_verified]. apply refuse_false in H as [_ H].
  apply may_vis in H as (binds & _ & H); [|done]. apply may_lift in H as (draft & _ & H).
  apply refuse_false in H as [_ H]. apply refuse_false in H as [_ H]. apply may_lift in H as (canonical & _ & H).
  apply refuse_false in H as [_ H]. apply may_ret in H. by injection H as <-.
Qed.

(** The releases of an application as they were loaded. *)
Definition inventoried (app_id : Uuid) (names : list string) (c : Collected) : Prop :=
  forall name, name ∈ names -> exact_internal_temp_name name = true
    \/ exists release bytes, name = uuid_to_string (rl_id release)
         /\ may (load_v2_release euid self app_id (rl_id release)) (Ok release)
         /\ MkValidRelease app_id release bytes ∈ co_releases c.

Lemma canonical_name value u : parse_canonical_uuid value = Ok u -> value = uuid_to_string u.
Proof.
  unfold parse_canonical_uuid, canonical_uuid. destruct (uuid_parse value) as [v|]; [|done]. simpl.
  case_bool_decide; [|done]. intros E. simpl in E. by injection E as <-.
Qed.

Lemma releases_collected app_id names c c' : can (inventory_releases euid self fuel app_id names c) (Ok c') ->
  collects [app_id] c c' /\ inventoried app_id names c'.
Proof.
  revert c. induction names as [|name names IH]; intros c H; cbn [inventory_releases] in H.
  { apply ret_returns in H. injection H as <-. split; [apply collects_refl|]. intros name []%elem_of_nil. }
  cbv zeta in H. destruct (exact_internal_temp_name name) eqn:Htemp.
  - apply ebind_returns in H as (temp & Ht & H); [|apply minspects_temporary]. apply IH in H as [Hc Hi]. split.
    + eapply collects_trans; [by eapply collects_temp|done].
    + intros n [->|Hn]%elem_of_cons; [by left|by apply Hi].
  - apply lift_returns in H as (release_id & Hn%canonical_name & H).
    apply files_returns in H as (release & Hl & H); [|apply inspects_load_v2_release].
    apply ebind_returns in H as (bytes & _ & H); [|apply minspects_logical_bytes]. apply IH in H as [Hc Hi].
    destruct (loaded_id _ _ _ Hl) as [<- _]. split.
    + eapply collects_trans; [|done]. split; [|by left|done|].
      * intros item [H|H]%elem_of_app; [by left|]. apply list_elem_of_singleton in H as ->. right. by left.
      * intros item Hitem. by apply elem_of_app; left.
    + intros n [->|Hin]%elem_of_cons; [|by apply Hi]. right. exists release, bytes. split; [done|]. split; [done|].
      apply (cl_kept _ _ _ Hc). cbn [co_releases]. apply elem_of_app. right. by apply list_elem_of_singleton.
Qed.

Lemma config_collected app_id names c c' : can (inventory_config_revisions euid self fuel app_id names c) (Ok c') ->
  collects [app_id] c c'.
Proof.
  revert c. induction names as [|name names IH]; intros c H; cbn [inventory_config_revisions] in H.
  { apply ret_returns in H. injection H as <-. apply collects_refl. }
  cbv zeta in H. destruct (valid_temp_name ConfigRevisions name).
  - apply ebind_returns in H as (temp & Ht & H); [|apply minspects_temporary]. apply IH in H.
    eapply collects_trans; [by eapply collects_temp|done].
  - apply lift_returns in H as (revision & _ & H). apply files_returns in H as (k & _ & H); [|done].
    apply files_returns in H as (loaded & _ & H); [|apply inspects_load_verified].
    apply files_returns in H as (bytes & _ & H); [|apply inspects_logical_bytes]. apply IH in H.
    eapply collects_trans; [|done]. split; [by left| |done|done]. cbn [co_revisions]. intros k'. rewrite dom_insert.
    intros [->%elem_of_singleton|Hk]%elem_of_union; [right; by left|by left].
Qed.

Lemma root_collected app_id names c c' : can (inventory_root euid fuel app_id names c) (Ok c') -> collects [app_id] c c'.
Proof.
  revert c. induction names as [|name names IH]; intros c H; cbn [inventory_root] in H.
  { apply ret_returns in H. injection H as <-. apply collects_refl. }
  destruct (valid_temp_name AppRoot name).
  - apply ebind_returns in H as (temp & Ht & H); [|apply minspects_temporary]. apply IH in H.
    eapply collects_trans; [by eapply collects_temp|done].
  - apply refuse_returns in H as [_ H]. by apply IH.
Qed.

Lemma app_collected app_id c c' : can (inventory_app euid self fuel app_id c) (Ok c') ->
  collects [app_id] c c'
  /\ forall i d name e, dir_at h w (app_directory app_id ++ ["releases"]) = Some (i, d) -> d_entries d !! name = Some e ->
       inventoried app_id [name] c'.
Proof.
  unfold inventory_app, read_dir, stored.
  intros (names & Hn & H)%files_returns; [|by apply inspects_io].
  apply ebind_returns in H as (c1 & [H1 Hi]%releases_collected & H); [|apply minspects_inventory_releases].
  apply files_returns in H as (names2 & _ & H); [|by apply inspects_io].
  apply ebind_returns in H as (c2 & H2%config_collected & H); [|apply minspects_inventory_config].
  apply files_returns in H as (names3 & _ & H3%root_collected); [|by apply inspects_io].
  pose proof (collects_trans _ _ _ _ H2 H3) as H23. split; [by eapply collects_trans|]. intros i d name e Hd He n ->%list_elem_of_singleton.
  apply may_vis in Hn as ([names'|k] & Hp & E%may_ret); [|done|done]. injection E as ->.
  apply possible_list in Hp as (i' & d' & Hd' & Hp). rewrite Hd in Hd'. injection Hd' as <- <-.
  destruct (Hi name) as [Ht|(release & bytes & Hname & Hl & Hin)].
  - rewrite Hp. apply list_elem_of_fmap. exists (name, e). split; [done|]. by apply elem_of_map_to_list.
  - by left.
  - right. exists release, bytes. split; [done|]. split; [done|]. by apply (cl_kept _ _ _ H23).
Qed.

Lemma all_collected apps c c' : can (inventory_all euid self fuel apps c) (Ok c') ->
  collects apps c c'
  /\ forall app_id i d name e, app_id ∈ apps -> dir_at h w (app_directory app_id ++ ["releases"]) = Some (i, d) ->
       d_entries d !! name = Some e -> inventoried app_id [name] c'.
Proof.
  revert c. induction apps as [|app_id apps IH]; intros c H; cbn [inventory_all] in H.
  { apply ret_returns in H. injection H as <-. split; [apply collects_refl|]. intros app_id i d name e []%elem_of_nil. }
  apply ebind_returns in H as (c1 & [H1 Hi]%app_collected & H); [|apply minspects_inventory_app]. apply IH in H as [H2 Hi2]. split.
  - eapply collects_trans; (eapply collects_more; [|done]); set_solver.
  - intros a i d name e [->|Ha]%elem_of_cons Hd He; [|by eapply Hi2]. intros n Hn.
    destruct (Hi i d name e Hd He n Hn) as [Ht|(release & bytes & Hname & Hl & Hin)]; [by left|].
    right. exists release, bytes. split; [done|]. split; [done|]. by apply (cl_kept _ _ _ H2).
Qed.

(** *** Completed deletions *)

Lemma completed_missing left rows (u : gset Uuid) app_id : can (completed_rows left rows) (Ok u) -> app_id ∈ u ->
  dir_at h w [uuid_to_string app_id] = None.
Proof.
  assert (forall row, minspects (check_unregistered left row)) as Hm
    by (intros row; unfold check_unregistered, select; minspect).
  revert u. induction rows as [|row rows IH]; intros u H Hin; cbn [completed_rows] in H.
  { apply ret_returns in H. injection H as <-. set_solver. }
  apply ebind_returns in H as ([] & Hc & H); [|done].
  apply ebind_returns in H as (u' & Hu & H);
    [|clear - Hm; induction rows; cbn [completed_rows]; minspect; auto].
  apply ret_returns in H. injection H as <-. destruct (un_finalized row && _); [|by eapply IH].
  apply elem_of_union in Hin as [->%elem_of_singleton|Hin]; [|by eapply IH].
  unfold check_unregistered in Hc. apply ebind_returns in Hc as (_ & _ & Hc); [|unfold select; minspect].
  apply ebind_returns in Hc as (v & Hs & _); [|minspect].
  apply vis_returns in Hs as ([st|[]] & Hp & Hs); try done; try (by apply ret_returns in Hs).
  by apply possible_missing in Hp.
Qed.

Lemma completed_apps_missing (u : gset Uuid) app_id : can (completed_apps euid) (Ok u) -> app_id ∈ u ->
  dir_at h w [uuid_to_string app_id] = None.
Proof.
  unfold completed_apps, on_store. intros (left & _ & H)%files_returns; [|apply inspects_tombstones].
  apply ebind_returns in H as (_ & _ & H).
  - unfold select in H. apply query_returns in H as (rows & _ & H); [|done]. by eapply completed_missing.
  - unfold pending, select. minspect. induction a as [|row rows IH]; cbn [pending_rows]; unfold select; minspect; done.
Qed.

(** *** Operations in progress *)

Lemma item_state_at ordinal rows candidates states i row c :
  item_states ordinal rows candidates = Ok states -> rows !! i = Some row -> candidates !! i = Some c ->
  exists state, states !! i = Some state /\ is_item_status state = si_status row.
Proof.
  revert ordinal candidates states i. induction rows as [|r rows IH]; intros ordinal candidates states i H Hr Hc; [done|].
  destruct candidates as [|c0 candidates]; [done|]. cbn [item_states] in H. cbv zeta in H.
  apply bind_ok_iff in H as (_ & _ & H). apply bind_ok_iff in H as (_ & _ & H). apply bind_ok_iff in H as (states' & Hs & H).
  apply ok_inj in H. subst states. destruct i as [|i].
  - injection Hr as ->. by eexists.
  - exact (IH _ _ _ _ Hs Hr Hc).
Qed.

(** The items of an operation, in their order. *)
Definition items_of (operation_id : Uuid) : list ItemRow :=
  sort_by (fun a b => (si_ordinal a <=? si_ordinal b)%Z) (tb_items t !!! operation_id).

Lemma states_of operation_id plan states i row c :
  can (exact_item_states operation_id plan) (Ok states) -> items_of operation_id !! i = Some row ->
  cp_candidates plan !! i = Some c -> exists state, states !! i = Some state /\ is_item_status state = si_status row.
Proof.
  unfold exact_item_states, fetch. intros (rows & Hq & H)%query_returns Hr Hc; [|done]. simpl in Hq. injection Hq as <-.
  apply refuse_returns in H as [_ H]. apply ret_returns in H. by eapply item_state_at.
Qed.

Lemma operations_reserve ts ps resuming rows r found :
  can (check_operations euid self fuel ts ps resuming rows r) (Ok found) ->
  rgrows r found.2
  /\ forall row plan i item c, row ∈ rows -> is_completed (so_status row) = false -> resuming <> Some (so_operation_id row) ->
       plan_of_json (so_plan_json row) = Some plan -> items_of (so_operation_id row) !! i = Some item ->
       cp_candidates plan !! i = Some c -> si_status item <> ItDetached -> reserves found.2 (cc_artifact c).
Proof.
  revert r found. induction rows as [|row0 rows IH]; intros r found H; cbn [check_operations] in H.
  { apply ret_returns in H. injection H as <-. split; [done|]. intros row plan i item c []%elem_of_nil. }
  cbv zeta in H. apply refuse_returns in H as [_ H].
  destruct (negb _ && negb (so_retirement_pending row0) && is_completed (so_status row0)) eqn:Hskip.
  { apply IH in H as [Hg Hr]. split; [done|]. intros row plan i item c [->|Hin]%elem_of_cons Hopen; [|by eapply Hr].
    rewrite Hopen, andb_false_r in Hskip. done. }
  apply ebind_returns in H as ([plan0 states] & Hchk & H); [|apply minspects_check_operation].
  apply ebind_returns in H as (r1 & Hr1 & H);
    [|case_bool_decide; [apply minspects_ebind; [apply minspects_recoverable|by minspect]|done]].
  apply ebind_returns in H as (found' & Hf & H); [|apply minspects_check_operations].
  apply IH in Hf as [Hg Hr]. apply ret_returns in H. injection H as <-. cbn [snd].
  assert (rgrows r r1) as Hg1.
  { case_bool_decide.
    - apply ebind_returns in Hr1 as (b & _ & Hr1); [|apply minspects_recoverable]. apply refuse_returns in Hr1 as [_ Hr1].
      apply ret_returns in Hr1. injection Hr1 as <-. done.
    - apply ret_returns in Hr1. injection Hr1 as <-. apply reserve_grows. }
  split; [by etrans|]. intros row plan i item c [->|Hin]%elem_of_cons Hopen Hres Hplan Hitem Hc Hd; [|by eapply Hr].
  rewrite bool_decide_false in Hr1 by done. apply ret_returns in Hr1. injection Hr1 as <-.
  unfold check_operation in Hchk. apply lift_returns in Hchk as (plan1 & Hp1 & Hchk). rewrite Hplan in Hp1. injection Hp1 as <-.
  apply ebind_returns in Hchk as (states1 & Hst & Hchk); [|apply minspects_item_states].
  destruct (states_of _ _ _ _ _ _ Hst Hitem Hc) as (state & Hs & E).
  assert (plan0 = plan /\ states = states1) as [-> ->].
  { revert Hchk. intros H. apply refuse_returns in H as [_ H]. apply refuse_returns in H as [_ H].
    apply ebind_returns in H as (_ & _ & H).
    2: { destruct (so_retirement_pending _); [|done]. pose proof minspects_terminal_items. pose proof minspects_terminal_proof. minspect; auto. }
    apply refuse_returns in H as [_ H]. apply ebind_returns in H as (_ & _ & H).
    2: { destruct (is_completed _); [done|]. pose proof minspects_recoverable. minspect; auto. }
    apply ebind_returns in H as (_ & _ & H); [by apply ret_returns in H; injection H as -> ->|].
    pose proof minspects_terminal_items. pose proof minspects_terminal_proof. pose proof minspects_recoverable.
    case_bool_decide; [|done]. apply minspects_ebind; [apply minspects_files, inspects_cleanup_marker|]. minspect; auto. }
  cbn [fst snd] in Hg. eapply reserves_grow; [exact Hg|]. eapply reserve_reserves; [done..|]. congruence.
Qed.

(** *** Applications *)

Lemma apps_protected apps p : let q := foldl protect_app p apps in
  dom p.1 ⊆ dom q.1 /\ dom p.2 ⊆ dom q.2
  /\ forall app, app ∈ apps ->
       (forall r, ra_active_release_id app = Some r \/ ra_pending_release_id app = Some r -> (ra_app_id app, r) ∈ dom q.1)
       /\ (forall r, ra_draft_revision app = Some r -> (ra_app_id app, r) ∈ dom q.2).
Proof.
  cbv zeta. revert p. induction apps as [|a apps IH]; intros p; cbn [foldl].
  { split; [done|]. split; [done|]. intros app []%elem_of_nil. }
  destruct (IH (protect_app p a)) as (H1 & H2 & H3).
  assert (dom p.1 ⊆ dom (protect_app p a).1) as G1 by (etrans; apply protect_grows).
  assert (dom p.2 ⊆ dom (protect_app p a).2) as G2 by apply protect_grows.
  split; [by etrans|]. split; [by etrans|]. intros app [->|Hin]%elem_of_cons; [|by apply H3]. split.
  - intros r Hr. apply H1. unfold protect_app. cbn [fst]. destruct Hr as [E|E]; rewrite E.
    + apply protect_grows, protect_adds.
    + apply protect_adds.
  - intros r E. apply H2. unfold protect_app. cbn [snd]. rewrite E. apply protect_adds.
Qed.

(** *** The plan *)

Definition links_to (app_id : Uuid) (name : string) (release_id : Uuid) : Prop :=
  exists i d, dir_at h w [uuid_to_string app_id] = Some (i, d)
    /\ d_entries d !! name = Some (ELink (release_target release_id)).

Definition open_deployment (app_id : Uuid) (record : DeploymentRecord) : Prop :=
  exists id row, deployments (tb_database t) !! id = Some row /\ row_record row = record
    /\ dp_app_id record = app_id /\ recoverable_status (dp_status record) = true.

(** An item another operation has not detached yet. *)
Definition in_progress (resuming : option Uuid) (a : CleanupArtifact) : Prop :=
  exists id row plan i item c, tb_operations t !! id = Some row /\ is_completed (so_status row) = false
    /\ resuming <> Some (so_operation_id row) /\ plan_of_json (so_plan_json row) = Some plan
    /\ items_of (so_operation_id row) !! i = Some item /\ cp_candidates plan !! i = Some c
    /\ si_status item <> ItDetached /\ cc_artifact c = a.

Record plan_safe (resuming automatic_app : option Uuid) (chosen : list CleanupArtifact) : Prop := {
  ps_bounded : length chosen <= MAX_CLEANUP_ITEMS;
  ps_scope : forall a app_id, a ∈ chosen -> automatic_app = Some app_id ->
    artifact_app_id a = Some app_id /\ kind_name a <> "temporary";
  ps_links : forall app_id release_id revision_id, CaRelease app_id release_id revision_id ∈ chosen ->
    ~ links_to app_id "active" release_id /\ ~ links_to app_id "pending" release_id;
  ps_deployments : forall app_id record, open_deployment app_id record ->
    (forall release_id revision_id, CaRelease app_id release_id revision_id ∈ chosen -> Some release_id ∉ references record)
    /\ CaConfigRevision app_id (dp_requested_revision record) ∉ chosen;
  ps_draft : forall app_id revision_id, CaConfigRevision app_id revision_id ∈ chosen ->
    exists text header, file_reads h w [uuid_to_string app_id] "app.toml" text /\ metadata_of_toml text = Some header
      /\ am_draft_revision header <> Some revision_id;
  ps_revisions : forall app_id revision_id, CaConfigRevision app_id revision_id ∈ chosen ->
    forall i d name e, dir_at h w (app_directory app_id ++ ["releases"]) = Some (i, d) -> d_entries d !! name = Some e ->
      exact_internal_temp_name name = true
      \/ exists release, name = uuid_to_string (rl_id release)
           /\ may (load_v2_release euid self app_id (rl_id release)) (Ok release)
           /\ (rl_config_revision release = revision_id ->
               exists used, CaRelease app_id (rl_id release) used ∈ chosen);
  ps_in_progress : forall a, in_progress resuming a -> a ∉ chosen;
}.

Lemma values_elem {A} (m : gmap Uuid A) k a : m !! k = Some a -> a ∈ values_by_key m.
Proof.
  intros H. unfold values_by_key. apply list_elem_of_fmap. exists (k, a). split; [done|]. rewrite sort_by_perm.
  by apply elem_of_map_to_list.
Qed.

Lemma deployment_elem id row : deployments (tb_database t) !! id = Some row ->
  row_record row ∈ sort_by newest_first (map row_record (map_to_list (deployments (tb_database t))).*2).
Proof.
  intros H. rewrite sort_by_perm. apply list_elem_of_fmap. exists row. split; [done|]. apply list_elem_of_fmap.
  exists (id, row). split; [done|]. by apply elem_of_map_to_list.
Qed.

Lemma from_deployments releases revisions (u : gset Uuid) p q :
  can (protect_from_deployments releases revisions u p) (Ok q) ->
  dom p.1 ⊆ dom q.1 /\ dom p.2 ⊆ dom q.2
  /\ forall app_id record, open_deployment app_id record -> app_id ∉ u ->
       (app_id, dp_requested_revision record) ∈ dom q.2
       /\ forall id, Some id ∈ references record -> (app_id, id) ∈ dom q.1.
Proof.
  unfold protect_from_deployments, fetch. intros (rows & Hrows & H)%query_returns; [|done]. simpl in Hrows. injection Hrows as <-.
  apply ebind_returns in H as (policies & _ & H); [|apply minspects_policies]. cbv zeta in H.
  apply lift_returns in H as (kept & Hk & H). apply lift_returns in H as (all & Ha & H). apply ret_returns in H. injection H as <-.
  apply policies_grow in Hk. pose proof (rows_grow _ _ _ _ _ _ _ Ha) as [H1 H2]. cbn [pt_releases pt_revisions fst snd] in *.
  split; [by etrans|]. split; [done|]. intros app_id record (id & row & Hrow & <- & <- & Hs) Hu.
  eapply rows_protect; [exact Ha|by eapply deployment_elem|done|done].
Qed.

Lemma from_operations resuming r r' : can (protect_from_cleanup_operations euid self fuel resuming r) (Ok r') ->
  rgrows r r' /\ forall a, in_progress resuming a -> reserves r' a.
Proof.
  unfold protect_from_cleanup_operations, stored, fetch. intros (ts & _ & H)%files_returns; [|apply inspects_cleanup_tombstones].
  apply files_returns in H as (ps & _ & H); [|apply inspects_cleanup_preparations].
  apply query_returns in H as (rows & Hrows & H); [|done]. simpl in Hrows. injection Hrows as <-.
  apply ebind_returns in H as (found & Hf & H); [|apply minspects_check_operations]. apply operations_reserve in Hf as [Hg Hr].
  apply refuse_returns in H as [_ H]. apply refuse_returns in H as [_ H]. apply ret_returns in H. injection H as <-.
  split; [done|]. intros a (id & row & plan & i & item & c & Hrow & Hopen & Hres & Hplan & Hitem & Hc & Hd & <-).
  eapply Hr; [by eapply values_elem|done..].
Qed.

Lemma app_present app : app_sound h w self key app -> exists i d, dir_at h w [uuid_to_string (ra_app_id app)] = Some (i, d).
Proof. intros Hs. destruct (sd_header _ _ _ _ _ Hs) as (text & header & (i & d & uid & mode & content & synced & Hd & _) & _). by exists i, d. Qed.

(** What the planner has established when it selects. *)
Record planned (resuming automatic_app : option Uuid) (chosen : list CleanupCandidate) (apps : list RecoveredApp)
    (c : Collected) (u : gset Uuid) (r : Reserved) : Prop := {
  pl_apps : Forall (app_sound h w self key) apps;
  pl_collected : collects (map ra_app_id apps) (MkCollected [] ∅ []) (MkCollected (co_releases c) (co_revisions c) []);
  pl_temps : Forall is_temporary (co_temps c);
  pl_complete : forall app_id i d name e, app_id ∈ map ra_app_id apps ->
    dir_at h w (app_directory app_id ++ ["releases"]) = Some (i, d) -> d_entries d !! name = Some e -> inventoried app_id [name] c;
  pl_current : forall app, app ∈ apps ->
    (forall x, ra_active_release_id app = Some x \/ ra_pending_release_id app = Some x -> (ra_app_id app, x) ∈ dom (rv_releases r))
    /\ (forall x, ra_draft_revision app = Some x -> (ra_app_id app, x) ∈ dom (rv_revisions r));
  pl_unregistered : forall app_id, app_id ∈ u -> dir_at h w [uuid_to_string app_id] = None;
  pl_deployments : forall app_id record, open_deployment app_id record -> app_id ∉ u ->
    (app_id, dp_requested_revision record) ∈ dom (rv_revisions r)
    /\ forall id, Some id ∈ references record -> (app_id, id) ∈ dom (rv_releases r);
  pl_progress : forall a, in_progress resuming a -> reserves r a;
  pl_chosen : chosen = select_candidates automatic_app (sort_by release_leb (co_releases c)) (co_revisions c)
    (sort_by temporary_leb (co_temps c)) (rv_releases r) (rv_revisions r) (rv_temporaries r);
}.

Lemma root_temps names temps : can (collect_root_temps euid fuel names) (Ok temps) -> Forall is_temporary temps.
Proof.
  revert temps. induction names as [|name names IH]; intros temps H; cbn [collect_root_temps] in H.
  { apply ret_returns in H. injection H as <-. constructor. }
  destruct (valid_temp_name AppsRoot name); [|by apply IH].
  apply ebind_returns in H as (temp & Ht & H); [|apply minspects_temporary].
  apply ebind_returns in H as (others & Ho & H); [|apply minspects_root_temps]. apply ret_returns in H. injection H as <-.
  constructor; [|by apply IH]. unfold temporary_candidate in Ht.
  apply ebind_returns in Ht as (bytes & _ & E%ret_returns); [injection E as <-; by eexists _, _, _|].
  unfold temp_bytes, stored. apply minspects_ebind; [done|]. intros _. apply minspects_files, inspects_logical_bytes.
Qed.

Lemma plan_established resuming automatic_app inventory :
  can (build_plan_inner euid self fuel resuming automatic_app) (Ok inventory) ->
  exists apps c u r, planned resuming automatic_app (cp_candidates (iv_plan inventory)) apps c u r.
Proof using Hkey.
  unfold build_plan_inner, read_dir, stored. intros (report & Hs & H)%files_returns; [|apply inspects_scan_store].
  apply (scanned_report h w self fuel key Hkey) in Hs as (Hsound & _).
  apply ebind_returns in H as (_ & _ & H); [|apply minspects_bind; [apply minspects_app_tombstones|done]].
  apply refuse_returns in H as [_ H]. apply files_returns in H as (names & _ & H); [|by apply inspects_io].
  apply ebind_returns in H as (temps & Ht%root_temps & H); [|apply minspects_root_temps].
  apply ebind_returns in H as (c & [Hc Hi]%all_collected & H); [|apply minspects_inventory_all]. cbv zeta in H.
  apply ebind_returns in H as (u & Hu & H); [|apply minspects_bind; [apply minspects_completed_apps|done]].
  apply bind_returns in Hu as (u' & Hu & E%ret_returns); [|apply minspects_completed_apps].
  destruct u' as [u'|]; [|done]. apply ok_inj in E. subst u'.
  apply ebind_returns in H as (q & Hq%from_deployments & H); [|apply minspects_from_deployments].
  apply ebind_returns in H as (r & Hr%from_operations & H); [|apply minspects_cleanup_operations].
  apply refuse_returns in H as [_ H]. apply ret_returns in H. injection H as <-. cbn [iv_plan cp_candidates].
  destruct Hq as (Q1 & Q2 & Q3), Hr as [(R1 & R2 & _) R4]. cbn [rv_releases rv_revisions] in R1, R2.
  destruct (apps_protected (rr_valid_apps report) (∅, ∅)) as (_ & _ & P).
  exists (rr_valid_apps report), c, u, r. split; [done| |by apply (cl_temps _ _ _ Hc)|done| | | |done|done].
  - destruct Hc as [c1 c2 _ _]. split; [done|done|done|set_solver].
  - intros app [P1 P2]%P. split; intros x Hx; [apply R1, Q1; by apply P1|apply R2, Q2; by apply P2].
  - intros app_id. by apply completed_apps_missing.
  - intros app_id record Ho Hn. destruct (Q3 app_id record Ho Hn) as [H1 H2]. split; [by apply R2|]. intros id Hid. by apply R1, H2.
Qed.

Section established.
Context (resuming automatic_app : option Uuid) (chosen : list CleanupCandidate) (apps : list RecoveredApp)
  (c : Collected) (u : gset Uuid) (r : Reserved) (Hp : planned resuming automatic_app chosen apps c u r).

Lemma sorted_temps : Forall is_temporary (sort_by temporary_leb (co_temps c)).
Proof using Hkey Hp. rewrite sort_by_perm. apply Hp. Qed.

Lemma chosen_release app_id release_id revision_id : CaRelease app_id release_id revision_id ∈ map cc_artifact chosen ->
  in_scope automatic_app app_id = true /\ ((app_id, release_id) ∉ dom (rv_releases r))
  /\ exists app, app ∈ apps /\ ra_app_id app = app_id.
Proof using Hkey Hp.
  intros (x & E & Hx)%list_elem_of_fmap. rewrite (pl_chosen _ _ _ _ _ _ _ Hp) in Hx. symmetry in E.
  eapply release_candidates in Hx as (Hs & Hn & item & Hi & Hk & _); [|apply sorted_temps|exact E].
  split; [done|]. split; [done|]. rewrite sort_by_perm in Hi.
  destruct (cl_releases _ _ _ (pl_collected _ _ _ _ _ _ _ Hp) item Hi) as [Hi'|Hi']; [by apply elem_of_nil in Hi'|].
  apply list_elem_of_fmap in Hi' as (app & Ha & Hin). exists app. split; [done|]. unfold release_key in Hk. congruence.
Qed.

Lemma chosen_revision app_id revision_id : CaConfigRevision app_id revision_id ∈ map cc_artifact chosen ->
  in_scope automatic_app app_id = true /\ ((app_id, revision_id) ∉ dom (rv_revisions r))
  /\ (exists app, app ∈ apps /\ ra_app_id app = app_id)
  /\ forall item, item ∈ co_releases c -> vr_app_id item = app_id -> rl_config_revision (vr_release item) = revision_id ->
       exists used, CaRelease app_id (rl_id (vr_release item)) used ∈ map cc_artifact chosen.
Proof using Hkey Hp.
  intros (x & E & Hx)%list_elem_of_fmap. rewrite (pl_chosen _ _ _ _ _ _ _ Hp) in Hx. symmetry in E.
  eapply revision_candidates in Hx as (Hs & Hd & Hn & Hr); [|apply sorted_temps|exact E].
  split; [done|]. split; [done|]. split.
  - destruct (cl_revisions _ _ _ (pl_collected _ _ _ _ _ _ _ Hp) _ Hd) as [Hi'|Hi']; [set_solver|].
    apply list_elem_of_fmap in Hi' as (app & Ha & Hin). by exists app.
  - intros item Hi Ha Hrev. destruct (Hr item) as (item' & Hsel & Hk); [by rewrite sort_by_perm|done|done|].
    exists (rl_config_revision (vr_release item')). apply list_elem_of_fmap. exists (release_candidate item').
    rewrite (pl_chosen _ _ _ _ _ _ _ Hp). split; [|by apply selected_candidate].
    unfold release_key in Hk. injection Hk as Hk1 Hk2. unfold release_candidate. cbn [cc_artifact]. congruence.
Qed.

Lemma app_of app_id : (exists app, app ∈ apps /\ ra_app_id app = app_id) ->
  exists app, app ∈ apps /\ ra_app_id app = app_id /\ app_sound h w self key app /\ app_id ∉ u.
Proof using Hkey Hp.
  intros (app & Hin & <-). assert (app_sound h w self key app) as Hs
    by (revert app Hin; apply list.Forall_forall, (pl_apps _ _ _ _ _ _ _ Hp)).
  exists app. split; [done|]. split; [done|]. split; [done|]. intros Hu. apply (pl_unregistered _ _ _ _ _ _ _ Hp) in Hu.
  destruct (app_present app Hs) as (i & d & Hd). congruence.
Qed.

Lemma planned_safe : plan_safe resuming automatic_app (map cc_artifact chosen).
Proof using Hkey Hp.
  split.
  - rewrite length_map, (pl_chosen _ _ _ _ _ _ _ Hp). apply candidates_length.
  - intros a app_id Ha E. destruct a as [x r' v|x v|x l n].
    + apply chosen_release in Ha as (Hs & _). rewrite E in Hs. unfold in_scope in Hs. apply bool_decide_eq_true in Hs as ->. done.
    + apply chosen_revision in Ha as (Hs & _). rewrite E in Hs. unfold in_scope in Hs. apply bool_decide_eq_true in Hs as ->. done.
    + apply list_elem_of_fmap in Ha as (y & Hy & Hin). rewrite (pl_chosen _ _ _ _ _ _ _ Hp) in Hin.
      apply temporary_candidates with (app_id := x) (location := l) (name := n) in Hin as [Hn _]; [congruence|done].
  - intros app_id release_id revision_id (_ & Hn & Happ)%chosen_release. apply app_of in Happ as (app & Hin & <- & Hs & _).
    destruct (pl_current _ _ _ _ _ _ _ Hp app Hin) as [Hc _].
    split; intros (i & d & Hd & He); apply Hn, Hc; [left; by eapply sd_active_kept|right; by eapply sd_pending_kept].
  - intros app_id record Ho. split.
    + intros release_id revision_id (_ & Hn & Happ)%chosen_release Href. apply app_of in Happ as (_ & _ & _ & _ & Hu).
      by apply Hn, (pl_deployments _ _ _ _ _ _ _ Hp app_id record Ho Hu).
    + intros (_ & Hn & Happ & _)%chosen_revision. apply app_of in Happ as (_ & _ & _ & _ & Hu).
      by apply Hn, (pl_deployments _ _ _ _ _ _ _ Hp app_id record Ho Hu).
  - intros app_id revision_id (_ & Hn & Happ & _)%chosen_revision. apply app_of in Happ as (app & Hin & <- & Hs & _).
    destruct (sd_header _ _ _ _ _ Hs) as (text & header & Hr & Hm & _ & _ & _ & Hd & _). exists text, header.
    split; [done|]. split; [done|]. rewrite Hd. intros E. by apply Hn, (pl_current _ _ _ _ _ _ _ Hp app Hin).
  - intros app_id revision_id (_ & _ & (app & Hin & <-) & Hr)%chosen_revision i d name e Hd He.
    destruct (pl_complete _ _ _ _ _ _ _ Hp (ra_app_id app) i d name e) with name as [Ht|(release & bytes & Hname & Hl & Hitem)];
      [apply list_elem_of_fmap; by exists app|done|done|by left|by left|].
    right. exists release. split; [done|]. split; [done|]. intros Hrev. by apply (Hr (MkValidRelease (ra_app_id app) release bytes)).
  - intros a Ha%(pl_progress _ _ _ _ _ _ _ Hp) Hin. destruct a as [x r' v|x v|x l n]; simpl in Ha.
    + by apply chosen_release in Hin as (_ & Hn & _).
    + by apply chosen_revision in Hin as (_ & Hn & _).
    + apply list_elem_of_fmap in Hin as (y & Hy & Hin). rewrite (pl_chosen _ _ _ _ _ _ _ Hp) in Hin.
      apply temporary_candidates with (app_id := x) (location := l) (name := n) in Hin as [_ Hn]; [|done]. by rewrite <- Hy in Hn.
Qed.
End established.

(** C17: a cleanup plan never touches what is in use. Whatever the file system
    and the tables hold and whichever calls fail, the plan has at most 100
    items; no release in it is the target of the [active] or [pending] link of
    its application or named by a deployment that is open or may be recovered;
    no revision in it is the current draft, requested by such a deployment, or
    used by a release that is not in the plan too; nothing another operation
    has reserved is in it; and an automatic plan holds only releases and
    revisions of its application. *)
Theorem plan_spares_references resuming automatic_app inventory :
  can (build_plan_inner euid self fuel resuming automatic_app) (Ok inventory) ->
  plan_safe resuming automatic_app (plan_artifacts (iv_plan inventory)).
Proof using Hkey. intros (apps & c & u & r & Hp)%plan_established. by eapply planned_safe. Qed.
End spares.
