(* ===== verification/StoreSafety.v ===== *)
(** * StoreSafety: publication of a release survives failures and crashes

    [finalize_active] moves an application directory through four phases: the
    candidate pending, active, no longer pending, and its metadata published.
    This file proves that every version a restart may find is in one of them,
    whatever calls fail and wherever the process or the machine stops, and
    that a later attempt completes what an earlier one began. *)

From S2P Require Import Prelude Text Reference Models Effects Codec Names Drafts Compose FileSystem StoreBase ConfigRevision ReleaseStore.

Section publication.
Context {UT : UuidText} {ST : StoreText} {CR : Crypto} {CT : ComposeText}.
Context (h : Host) (self : AppStore) (app_id candidate operation_id : Uuid) (expected : option Uuid)
  (desired : DesiredState).
(** The file system before the first attempt, the application's directory in
    it and the metadata it holds. *)
Context (w0 : fs) (i : N) (d0 : dir) (md0 : AppMetadata).

Abbreviation p := (app_directory app_id).

Definition world (d : dir) : fs := <[i := d]> w0.

(** ** Phases *)

Definition link_entry (o : option Uuid) : option entry :=
  (fun u => ELink (release_target u)) <$> o.

Definition metadata_entry (md : AppMetadata) (o : option entry) : Prop :=
  exists mode, o = Some (EFile (h_euid h) mode (Some (metadata_to_toml md)) true) /\ Z.land mode 63 = 0%Z.

Definition published (md : AppMetadata) (now : Time) : AppMetadata :=
  md <| am_desired_state := desired |> <| am_last_operation_id := operation_id |> <| am_updated_at := now |>.

Inductive phase (m : entries) : Prop :=
| Before : m !! "active" = link_entry expected -> m !! "pending" = link_entry (Some candidate) ->
    metadata_entry md0 (m !! "app.toml") -> phase m
| Switched : m !! "active" = link_entry (Some candidate) -> m !! "pending" = link_entry (Some candidate) ->
    metadata_entry md0 (m !! "app.toml") -> phase m
| Committed : m !! "active" = link_entry (Some candidate) -> m !! "pending" = None ->
    metadata_entry md0 (m !! "app.toml") -> phase m
| Finalized now : m !! "active" = link_entry (Some candidate) -> m !! "pending" = None ->
    metadata_entry (published md0 now) (m !! "app.toml") -> phase m.

(** Names a publication may change. *)
Definition is_temp (name : string) : bool := starts_with TEMP_PREFIX name.
Definition managed (name : string) : bool :=
  (name =? "active") || (name =? "pending") || (name =? "app.toml") || is_temp name.

Definition version_ok (m : entries) : Prop :=
  phase m
  /\ (forall name, managed name = false -> m !! name = d_entries d0 !! name)
  /\ (forall name, is_temp name = true -> is_dir (m !! name) = None).

Definition good (d : dir) : Prop :=
  d_uid d = d_uid d0 /\ d_mode d = d_mode d0 /\ Forall version_ok (versions d).

(** Done, and nothing left that a restart could undo. *)
Definition complete (m : entries) : Prop :=
  m !! "active" = link_entry (Some candidate) /\ m !! "pending" = None
  /\ exists md, metadata_entry md (m !! "app.toml")
       /\ am_desired_state md = desired /\ am_last_operation_id md = operation_id.

Lemma temp_name_is_temp u : is_temp (temp_name u) = true.
Proof. unfold is_temp, temp_name, TEMP_PREFIX, starts_with. simpl. by destruct (uuid_simple u). Qed.

Lemma is_temp_ne name : is_temp name = true -> name <> "active" /\ name <> "pending" /\ name <> "app.toml".
Proof. intros H. split; [|split]; by intros ->. Qed.

Lemma phase_agree m m' :
  m' !! "active" = m !! "active" -> m' !! "pending" = m !! "pending" ->
  m' !! "app.toml" = m !! "app.toml" -> phase m -> phase m'.
Proof.
  intros Ha Hp Ht [H1 H2 H3|H1 H2 H3|H1 H2 H3|now H1 H2 H3].
  - apply Before; by rewrite ?Ha, ?Hp, ?Ht.
  - apply Switched; by rewrite ?Ha, ?Hp, ?Ht.
  - apply Committed; by rewrite ?Ha, ?Hp, ?Ht.
  - apply (Finalized _ now); by rewrite ?Ha, ?Hp, ?Ht.
Qed.

(** The links and the metadata are no directories. *)
Lemma phase_no_dir m name : phase m -> name ∈ ["active"; "pending"; "app.toml"] -> is_dir (m !! name) = None.
Proof.
  intros Hm Hn. set_unfold in Hn.
  destruct Hm as [H1 H2 [mo [H3 _]]|H1 H2 [mo [H3 _]]|H1 H2 [mo [H3 _]]|now H1 H2 [mo [H3 _]]];
    destruct Hn as [->|[->|[->|[]]]]; rewrite ?H1, ?H2, ?H3; try done; by destruct expected.
Qed.

Lemma version_ok_no_dir m name : version_ok m -> managed name = true -> is_dir (m !! name) = None.
Proof.
  intros (Hph & _ & Ht) Hm. unfold managed in Hm. destruct (is_temp name) eqn:Hn; [by apply Ht|].
  rewrite orb_false_r in Hm. apply phase_no_dir; [done|]. rewrite !orb_true_iff, !bool_decide_eq_true in Hm.
  set_unfold. naive_solver.
Qed.

(** ** What each change does to a version *)

Lemma version_ok_change m m' :
  version_ok m -> phase m' ->
  (forall name, managed name = false -> m' !! name = m !! name) ->
  (forall name, is_temp name = true -> m' !! name = m !! name \/ is_dir (m' !! name) = None) ->
  version_ok m'.
Proof.
  intros (_ & Ho & Ht) Hp Hs Htm. split; [done|]. split.
  - intros name Hn. by rewrite Hs, Ho.
  - intros name Hn. destruct (Htm name Hn) as [->|]; [by apply Ht|done].
Qed.

Lemma managed_ne a b : managed a = true -> managed b = false -> a <> b.
Proof. intros Ha Hb ->. by rewrite Ha in Hb. Qed.

Lemma managed_temp t : is_temp t = true -> managed t = true.
Proof. intros Ht. unfold managed. rewrite Ht. apply orb_true_r. Qed.

Lemma version_ok_temp_insert m t e :
  is_temp t = true -> is_dir (Some e) = None -> version_ok m -> version_ok (<[t := e]> m).
Proof.
  intros Ht He Hm. destruct (is_temp_ne _ Ht) as (H1 & H2 & H3). apply version_ok_change with m; [done|..].
  - eapply phase_agree; [..|apply Hm]; by rewrite lookup_insert_ne.
  - intros name Hn. apply lookup_insert_ne, managed_ne; [by apply managed_temp|done].
  - intros name _. destruct (decide (t = name)) as [->|]; [right; by rewrite lookup_insert_eq|left].
    by rewrite lookup_insert_ne.
Qed.

Lemma version_ok_temp_delete m t : is_temp t = true -> version_ok m -> version_ok (delete t m).
Proof.
  intros Ht Hm. destruct (is_temp_ne _ Ht) as (H1 & H2 & H3). apply version_ok_change with m; [done|..].
  - eapply phase_agree; [..|apply Hm]; by rewrite lookup_delete_ne.
  - intros name Hn. apply lookup_delete_ne, managed_ne; [by apply managed_temp|done].
  - intros name _. destruct (decide (t = name)) as [->|]; [right; by rewrite lookup_delete_eq|left].
    by rewrite lookup_delete_ne.
Qed.

Lemma version_ok_insert m name e :
  name ∈ ["active"; "pending"; "app.toml"] -> version_ok m -> phase (<[name := e]> m) ->
  version_ok (<[name := e]> m).
Proof.
  intros Hn Hm Hp. apply version_ok_change with m; [done|done|..].
  - intros n Hne. apply lookup_insert_ne, managed_ne; [|done]. set_unfold in Hn. by destruct Hn as [->|[->|[->|[]]]].
  - intros n (H1 & H2 & H3)%is_temp_ne. left. apply lookup_insert_ne. set_unfold in Hn.
    by destruct Hn as [->|[->|[->|[]]]].
Qed.

(** The candidate's link becomes active. *)
Lemma version_ok_activate m :
  version_ok m -> version_ok (<["active" := ELink (release_target candidate)]> m).
Proof.
  intros Hm. apply version_ok_insert; [set_solver|done|].
  destruct Hm as ([H1 H2 H3|H1 H2 H3|H1 H2 H3|now H1 H2 H3] & _).
  1-2: apply Switched; by rewrite ?lookup_insert_eq, ?lookup_insert_ne.
  - apply Committed; by rewrite ?lookup_insert_eq, ?lookup_insert_ne.
  - apply (Finalized _ now); by rewrite ?lookup_insert_eq, ?lookup_insert_ne.
Qed.

(** The pending link goes once the candidate is active. *)
Lemma version_ok_unpend m :
  m !! "active" = link_entry (Some candidate) -> version_ok m -> version_ok (delete "pending" m).
Proof.
  intros Ha Hm. apply version_ok_change with m; [done|..].
  - destruct Hm as ([H1 H2 H3|H1 H2 H3|H1 H2 H3|now H1 H2 H3] & _).
    1-3: apply Committed; by rewrite ?lookup_delete_eq, ?lookup_delete_ne.
    apply (Finalized _ now); by rewrite ?lookup_delete_eq, ?lookup_delete_ne.
  - intros n Hne. apply lookup_delete_ne. by apply managed_ne.
  - intros n (H1 & H2 & H3)%is_temp_ne. left. by rewrite lookup_delete_ne.
Qed.

(** The metadata is published once the links are in place. *)
Lemma version_ok_publish m mode now :
  m !! "active" = link_entry (Some candidate) -> m !! "pending" = None -> Z.land mode 63 = 0%Z ->
  version_ok m ->
  version_ok (<["app.toml" := EFile (h_euid h) mode (Some (metadata_to_toml (published md0 now))) true]> m).
Proof.
  intros Ha Hpe Hmode Hm. apply version_ok_insert; [set_solver|done|].
  apply (Finalized _ now); rewrite ?lookup_insert_eq, ?lookup_insert_ne by done; [done|done|]. by exists mode.
Qed.

(** A crash keeps synchronised files. *)
Lemma version_ok_torn m :
  (forall name e, d_entries d0 !! name = Some e -> managed name = false -> torn e = e) ->
  version_ok m -> version_ok (torn <$> m).
Proof.
  intros Hclean Hm. pose proof Hm as (Hph & Ho & Ht). split; [|split].
  - apply (phase_agree m); [..|exact Hph]; rewrite lookup_fmap;
      destruct Hph as [H1 H2 [mo [H3 _]]|H1 H2 [mo [H3 _]]|H1 H2 [mo [H3 _]]|now H1 H2 [mo [H3 _]]];
      rewrite ?H1, ?H2, ?H3; try done; by destruct expected.
  - intros name Hn. rewrite lookup_fmap, Ho by done. destruct (d_entries d0 !! name) as [e|] eqn:He; [|done].
    simpl. by rewrite (Hclean name).
  - intros name Hn. rewrite lookup_fmap. specialize (Ht name Hn). by destruct (m !! name) as [[? ? ? []| |]|].
Qed.

(** Losing older versions, and crashing, keep a directory good. *)
Lemma good_synced d : good d -> good (synced d).
Proof. intros (Hu & Hm & Hv). split; [done|]. split; [done|]. inversion Hv; subst. constructor; [done|constructor]. Qed.

Lemma good_put d m : good d -> version_ok m -> good (put d m).
Proof. intros (Hu & Hmo & Hv) Hm. split; [done|]. split; [done|]. by constructor. Qed.

Lemma good_entries d : good d -> version_ok (d_entries d).
Proof. intros (_ & _ & Hv). by inversion Hv. Qed.

Lemma good_put_file d t e :
  is_temp t = true -> is_dir (Some e) = None -> good d -> good (put_file d t e).
Proof.
  intros Ht He (Hu & Hmo & Hv). split; [done|]. split; [done|]. inversion Hv; subst.
  constructor; [by apply version_ok_temp_insert|done].
Qed.

(** ** The world around the directory *)

(** The application's directory is where its path leads, the candidate is
    pending in it, and every other directory is on disk. *)
Record initial : Prop := {
  in_path : resolve h w0 p = Some i;
  in_dir : w0 !! i = Some d0;
  in_good : good d0;
  in_quiet : forall j d, j <> i -> w0 !! j = Some d -> d_older d = [] /\ torn <$> d_entries d = d_entries d;
  in_clean : forall name e, d_entries d0 !! name = Some e -> managed name = false -> torn e = e;
}.

Section attempt.
Context (I : initial).
Set Default Proof Using "All".

Lemma good_same_dirs d : good d -> same_dirs d0 d.
Proof.
  intros Hd%good_entries name. pose proof (good_entries _ (in_good I)) as H0.
  destruct (managed name) eqn:Hm; [by rewrite !version_ok_no_dir|].
  destruct Hd as (_ & -> & _); done.
Qed.

Lemma world_dir d : good d -> dir_at h (world d) p = Some (i, d).
Proof. intros Hd. eapply dir_at_insert; [apply I|by apply good_same_dirs|apply I]. Qed.

Lemma world_name {A} d name (f : option entry -> result IoKind A) :
  good d -> on_name h (world d) p name f = f (d_entries d !! name).
Proof. intros Hd. unfold on_name. by rewrite world_dir. Qed.

Lemma step_here {X} d (e : fsev X) x :
  good d -> target_of e = Some p ->
  step h (world d) (Obs e x) = world (if succeeded e x then change h d e else clobber d e).
Proof.
  intros Hd He. simpl. rewrite He. unfold update_at. rewrite world_dir by done. unfold world.
  by rewrite insert_insert_eq.
Qed.

(** Synchronising any directory leaves the application's as it is or drops its
    older versions. *)
Lemma step_sync d q x :
  good d -> exists d', step h (world d) (Obs (FsSyncDirectory q) x) = world d' /\ (d' = d \/ d' = synced d).
Proof.
  intros Hd. simpl. unfold update_at, dir_at. unfold world at 2.
  rewrite (resolve_insert h _ i d0) by (apply I || by apply good_same_dirs).
  destruct (resolve h w0 q) as [j|]; simpl; [|by exists d; auto].
  destruct (decide (j = i)) as [->|Hj].
  - unfold world. rewrite lookup_insert_eq. simpl. rewrite insert_insert_eq.
    destruct (is_ok x); eauto.
  - unfold world. rewrite lookup_insert_ne by done. destruct (w0 !! j) as [dj|] eqn:Hw; simpl; [|by exists d; auto].
    exists d. split; [|by left]. destruct (in_quiet I j dj Hj Hw) as [Hold _].
    replace (if is_ok x then synced dj else dj) with dj
      by (destruct dj; simpl in *; subst; by destruct (is_ok x)).
    apply insert_id. by rewrite lookup_insert_ne.
Qed.

(** ** Programs that keep the directory good *)

Definition held (X : Type) (w : fs) (e : fsev X) : Prop := exists d, w = world d /\ good d.

Definition ok_from {A} (d : dir) (q : prog fsev A) (Q : dir -> A -> Prop) : Prop :=
  safe (step h) held (possible h) False q (world d) (fun w r => exists d', w = world d' /\ good d' /\ Q d' r).

Lemma ok_ret {A} d (a : A) (Q : dir -> A -> Prop) : good d -> Q d a -> ok_from d (Ret a) Q.
Proof. intros Hd HQ. by exists d. Qed.

Lemma ok_mono {A} d (q : prog fsev A) (P Q : dir -> A -> Prop) :
  ok_from d q P -> (forall d' a, good d' -> P d' a -> Q d' a) -> ok_from d q Q.
Proof.
  intros Hq HPQ. eapply safe_mono; [exact Hq|]. intros w a (d' & -> & Hd & HP). exists d'. auto.
Qed.

Lemma ok_prog_bind {A B} d (q : prog fsev A) (f : A -> prog fsev B) P Q :
  ok_from d q P -> (forall d' a, good d' -> P d' a -> ok_from d' (f a) Q) -> ok_from d (prog_bind q f) Q.
Proof.
  intros Hq Hf. apply safe_bind. eapply safe_mono; [exact Hq|]. intros w a (d' & -> & Hd & HP). by apply Hf.
Qed.

Lemma ok_ebind {A B} d (q : eprog fsev StoreError A) (f : A -> eprog fsev StoreError B) P Q :
  ok_from d q P ->
  (forall d' a, good d' -> P d' (Ok a) -> ok_from d' (f a) Q) ->
  (forall d' e, good d' -> P d' (Err e) -> Q d' (Err e)) ->
  ok_from d (ebind q f) Q.
Proof.
  intros Hq Hok Herr. eapply ok_prog_bind; [exact Hq|]. intros d' [a|e] Hd HP; [by apply Hok|].
  apply ok_ret; auto.
Qed.

Lemma ok_lift {A B} d (r : result StoreError A) (f : A -> eprog fsev StoreError B) Q :
  good d -> (forall e, Q d (Err e)) -> (forall a, r = Ok a -> ok_from d (f a) Q) ->
  ok_from d (ebind (lift r) f) Q.
Proof. intros Hd Herr Hok. destruct r as [a|e]; [by apply Hok|]. by apply ok_ret. Qed.

(** A call on the application's directory, and one that changes nothing. *)
Lemma ok_here {X B} d (e : fsev X) (k : X -> prog fsev B) Q :
  good d -> target_of e = Some p ->
  (forall x, possible h X (world d) e x ->
     ok_from (if succeeded e x then change h d e else clobber d e) (k x) Q) ->
  ok_from d (Vis e k) Q.
Proof.
  intros Hd He Hk. split; [by exists d|]. intros x Hx. rewrite step_here by done. by apply Hk.
Qed.

Lemma ok_read {X B} d (e : fsev X) (k : X -> prog fsev B) Q :
  good d -> read_only X e -> (forall x, possible h X (world d) e x -> ok_from d (k x) Q) ->
  ok_from d (Vis e k) Q.
Proof.
  intros Hd He Hk. split; [by exists d|]. intros x Hx. rewrite step_none by done. by apply Hk.
Qed.

Lemma ok_reads_only {A} d (q : prog fsev A) :
  good d -> reads_only q -> ok_from d q (fun d' _ => d' = d).
Proof.
  intros Hd. induction q as [a|X e k IH|]; simpl; [by intros _; apply ok_ret| |done].
  intros [He Hk]. apply ok_read; [done..|]. intros x _. by apply IH.
Qed.

Lemma reads_only_read_metadata_at q : reads_only (read_metadata_at (h_euid h) q).
Proof.
  repeat (apply reads_only_ebind;
    [first [apply reads_only_check_private | by apply reads_only_try | apply reads_only_lift]|intros ?]).
  done.
Qed.

Lemma reads_only_load_release app u : reads_only (load_release (h_euid h) self app app_id u p).
Proof.
  repeat (apply reads_only_ebind;
    [first [apply reads_only_check_private_tree | apply reads_only_load_verified | by apply reads_only_try
           | apply reads_only_lift | done]|intros ?]).
  done.
Qed.

Lemma reads_only_load u : reads_only (load_v2_release (h_euid h) self app_id u).
Proof. apply reads_only_ebind; [apply reads_only_read_metadata_at|intros app; apply reads_only_load_release]. Qed.

(** ** The operations *)

Lemma ok_io {X B} d (e : fsev (result IoKind X)) (k : X -> eprog fsev StoreError B) Q :
  good d -> target_of e = Some p ->
  (forall r, succeeded e (Err r) = false) -> (forall x, succeeded e (Ok x) = true) ->
  good (clobber d e) -> (forall r, Q (clobber d e) (Err r)) ->
  (forall x, possible h _ (world d) e (Ok x) -> ok_from (change h d e) (k x) Q) ->
  ok_from d (ebind (io e) k) Q.
Proof.
  intros Hd He Hs0 Hs1 Hc Herr Hok. apply ok_here; [done..|]. intros [x|r] Hx; simpl.
  - rewrite Hs1. by apply Hok.
  - rewrite Hs0. by apply ok_ret.
Qed.

Lemma parse_link_ok target v : parse_link target = Ok v -> exists u, v = Some u /\ target = release_target u.
Proof.
  unfold parse_link. destruct (strip_prefix _ _) as [t|]; [|done]. destruct (uuid_parse t) as [u|]; [|done].
  case_bool_decide; [|done]. intros [= <-]. eauto.
Qed.

Lemma ok_read_link d name :
  good d -> ok_from d (read_release_link app_id name)
    (fun d' r => d' = d /\ forall v, r = Ok v -> d_entries d !! name = link_entry v).
Proof.
  intros Hd. apply ok_read; [done..|]. intros x Hx.
  assert (forall t, x = Ok t -> d_entries d !! name = Some (ELink t)) as Ht.
  { intros t ->. destruct Hx as [Hx|[Hx|[]]]; [|done]. simpl in Hx. rewrite world_name in Hx by done.
    destruct (d_entries d !! name) as [[]|]; by simplify_eq. }
  assert (x = Err NotFound -> d_entries d !! name = None) as Hn.
  { intros ->. destruct Hx as [Hx|[Hx|[]]]; [|done]. simpl in Hx. rewrite world_name in Hx by done.
    by destruct (d_entries d !! name) as [[]|]. }
  destruct x as [t|[]]; apply ok_ret; try done; (split; [done|]); intros v Hv; simplify_eq.
  - apply parse_link_ok in Hv as (u & -> & ->). by apply Ht.
  - by apply Hn.
Qed.

Lemma ok_sync d q :
  good d -> ok_from d (sync_directory q) (fun d' r => d_entries d' = d_entries d).
Proof.
  intros Hd. split; [by exists d|]. intros x _. destruct (step_sync d q x Hd) as (d' & -> & Hd').
  assert (good d') by (destruct Hd' as [->| ->]; [done|by apply good_synced]).
  destruct x; exists d'; destruct Hd' as [->| ->]; done.
Qed.

Lemma ok_sync_older d q :
  good d -> d_older d = [] ->
  ok_from d (sync_directory q) (fun d' _ => d_entries d' = d_entries d /\ d_older d' = []).
Proof.
  intros Hd Ho. split; [by exists d|]. intros x _. destruct (step_sync d q x Hd) as (d' & -> & Hd').
  assert (good d') by (destruct Hd' as [->| ->]; [done|by apply good_synced]).
  destruct x; exists d'; destruct Hd' as [->| ->]; done.
Qed.

Lemma ok_sync_here d :
  good d ->
  ok_from d (sync_directory p)
    (fun d' r => d_entries d' = d_entries d /\ (r = Ok tt -> d_older d' = [])).
Proof.
  intros Hd. apply ok_here; [done..|]. intros [[]|e] _; simpl.
  - apply ok_ret; [by apply good_synced|done].
  - by apply ok_ret.
Qed.

(** A failed write removes its temporary file. *)
Lemma ok_removing {A} d (q : eprog fsev StoreError A) t P Q :
  is_temp t = true -> ok_from d q P ->
  (forall d' a, good d' -> P d' (Ok a) -> Q d' (Ok a)) ->
  (forall d' e m, good d' -> P d' (Err e) -> (forall name, is_temp name = false -> m !! name = d_entries d' !! name) ->
     Q (put d' m) (Err e)) ->
  (forall d' e, good d' -> P d' (Err e) -> Q d' (Err e)) ->
  ok_from d (removing_on_error q p t) Q.
Proof.
  intros Ht Hq Hok Hput Herr. eapply ok_prog_bind; [exact Hq|]. intros d' [a|e] Hd HP.
  - apply ok_ret; [done|by apply Hok].
  - apply ok_here; [done..|]. intros [[]|r] _; simpl.
    + apply ok_ret; [apply good_put, version_ok_temp_delete; [done..|by apply good_entries]|].
      apply Hput; [done..|]. intros name Hn. apply lookup_delete_ne. intros ->. by rewrite Hn in Ht.
    + apply ok_ret; [done|by apply Herr].
Qed.


Lemma ok_checked {A B} d (q : eprog fsev StoreError A) (k : A -> eprog fsev StoreError B) Q :
  good d -> reads_only q -> (forall e, Q d (Err e)) -> (forall a, ok_from d (k a) Q) ->
  ok_from d (ebind q k) Q.
Proof.
  intros Hd Hq Herr Hk. eapply ok_ebind; [by apply ok_reads_only|by intros d' a _ ->|by intros d' e _ ->].
Qed.

Lemma good_temp_put d t e :
  is_temp t = true -> is_dir (Some e) = None -> good d -> good (put d (<[t := e]> (d_entries d))).
Proof. intros Ht He Hd. apply good_put; [done|]. by apply version_ok_temp_insert, good_entries. Qed.

Lemma ok_switch d :
  good d ->
  ok_from d (switch_release_link (h_euid h) p "active" candidate)
    (fun d' r => r = Ok tt -> d_entries d' !! "active" = link_entry (Some candidate)).
Proof.
  intros Hd. apply ok_lift; [done|done|intros _ _].
  do 3 (apply ok_checked; [done|apply reads_only_check_private|done|intros _]).
  apply ok_read; [done..|]. intros u _. simpl.
  set (t := temp_name u). pose proof (temp_name_is_temp u : is_temp t = true) as Ht.
  apply (ok_removing _ _ _ (fun d' r => r = Ok tt -> d_entries d' !! "active" = link_entry (Some candidate)));
    [exact Ht| |by intros d' []|done|done].
  apply ok_io; [done..|]. intros [] _. simpl.
  set (d1 := put d _). assert (good d1) as Hd1 by by apply good_temp_put.
  apply ok_io; [done..|]. intros [] _. simpl. rewrite lookup_insert_eq.
  eapply ok_mono; [apply ok_sync|].
  - apply good_put; [done|]. apply version_ok_activate, version_ok_temp_delete; [done|]. exact (good_entries _ Hd1).
  - intros d' r _ -> _. simpl. by rewrite lookup_insert_eq.
Qed.

Definition links_done (d : dir) : Prop :=
  d_entries d !! "active" = link_entry (Some candidate) /\ d_entries d !! "pending" = None.

Lemma pending_gone d :
  good d -> d_entries d !! "active" = link_entry (Some candidate) ->
  d_entries d !! "pending" <> link_entry (Some candidate) -> links_done d.
Proof. intros Hd Ha Hp. split; [done|]. by destruct (good_entries _ Hd) as ([? ?|? ?|? ?|? ? ?] & _). Qed.

Lemma link_entry_inj u v : link_entry u = link_entry v -> u = v.
Proof.
  destruct u as [u|], v as [v|]; try done. unfold link_entry, release_target. simpl. intros [= H].
  pose proof (uuid_parse_to_string u) as Hu. rewrite H, uuid_parse_to_string in Hu. by simplify_eq.
Qed.

Lemma ok_remove_pending d :
  good d -> d_entries d !! "active" = link_entry (Some candidate) ->
  ok_from d (remove_release_link p "pending")
    (fun d' r => d_entries d' !! "active" = link_entry (Some candidate)
                 /\ (r = Ok tt -> d_entries d' !! "pending" = None)).
Proof.
  intros Hd Ha. apply ok_lift; [done|done|intros _ _]. apply ok_here; [done..|]. intros [[]|r] Hx; simpl.
  - eapply ok_mono; [apply ok_sync, good_put, version_ok_unpend, good_entries; done|].
    intros d' r _ ->. simpl. by rewrite lookup_delete_ne, lookup_delete_eq.
  - destruct r; try by apply ok_ret. apply ok_ret; [done|]. split; [done|]. intros _.
    destruct Hx as [Hx|[Hx|[]]]; [|done]. simpl in Hx. rewrite world_name in Hx by done.
    by destruct (d_entries d !! "pending") as [[]|].
Qed.

Lemma ok_remove_pending_if d :
  good d -> d_entries d !! "active" = link_entry (Some candidate) ->
  ok_from d (remove_release_link_if app_id "pending" candidate)
    (fun d' r => d_entries d' !! "active" = link_entry (Some candidate) /\ (r = Ok tt -> links_done d')).
Proof.
  intros Hd Ha. eapply ok_ebind; [by apply ok_read_link| |by intros d' e _ [-> _]].
  intros d' v _ [-> Hv]. specialize (Hv v eq_refl). case_bool_decide as Hc.
  - eapply ok_prog_bind; [by apply ok_remove_pending|]. intros d1 [[]|e] Hd1 [Ha1 Hp1].
    + apply ok_ret; [done|]. split; [done|]. intros _. split; [done|by apply Hp1].
    + eapply ok_ebind; [by apply ok_read_link| |by intros d' e' _ [-> _]].
      intros d' v' _ [-> Hv']. specialize (Hv' v' eq_refl). case_bool_decide as Hc'; [by apply ok_ret|].
      eapply ok_mono; [by apply ok_sync|]. intros d' r Hd' He. rewrite He. split; [done|]. intros _.
      apply pending_gone; [done|by rewrite He|]. rewrite He, Hv'. intros ->%link_entry_inj. done.
  - apply ok_ret; [done|]. split; [done|]. intros _. apply pending_gone; [done..|].
    rewrite Hv. intros ->%link_entry_inj. done.
Qed.

(** The link is switched, or found switched after an error. *)
Lemma ok_activate d :
  good d ->
  ok_from d (on_error (switch_release_link (h_euid h) p "active" candidate) (fun error =>
      active <- read_release_link app_id "active" ;;
      if active ≠? Some candidate then fail error else sync_directory p))
    (fun d' r => r = Ok tt -> d_entries d' !! "active" = link_entry (Some candidate)).
Proof.
  intros Hd. eapply ok_prog_bind; [by apply ok_switch|]. intros d1 [[]|e] Hd1 Ha1; [by apply ok_ret|].
  eapply ok_ebind; [by apply ok_read_link| |done]. intros d' v' _ [-> Hv'].
  case_bool_decide as Hc; simpl; [|by apply ok_ret]. subst v'.
  eapply ok_mono; [by apply ok_sync|]. intros d' r _ -> _. exact (Hv' _ eq_refl).
Qed.

Lemma ok_commit d :
  good d ->
  ok_from d (commit_active (h_euid h) self app_id expected candidate) (fun d' r => r = Ok tt -> links_done d').
Proof.
  intros Hd. eapply ok_ebind; [by apply ok_read_link| |done]. intros d' v _ [-> _].
  eapply (ok_ebind _ _ _ (fun d' _ => d' = d)); [|intros d' [] _ ->|done].
  { case_bool_decide; simpl; [|by apply ok_ret].
    eapply ok_ebind; [by apply ok_read_link| |by intros d' e _ [-> _]]. intros d' v' _ [-> _].
    case_bool_decide; by apply ok_ret. }
  apply ok_checked; [done|apply reads_only_load|done|]. intros release.
  eapply ok_ebind; [by apply ok_activate|intros d1 [] Hd1 Ha1|done].
  specialize (Ha1 eq_refl). eapply ok_prog_bind; [by apply ok_remove_pending_if|].
  intros d2 [[]|e] Hd2 [Ha2 Hl2]; [by apply ok_ret|].
  eapply ok_ebind; [by apply ok_read_link| |done]. intros d' v' _ [-> Hv'].
  case_bool_decide as Hc; [by apply ok_ret|]. eapply ok_mono; [by apply ok_sync|].
  intros d' r Hd' He _. apply pending_gone; [done|by rewrite He|]. rewrite He, (Hv' v' eq_refl).
  intros ->%link_entry_inj. done.
Qed.


(** The metadata a phase holds is [md0] up to what is published. *)
Lemma phase_metadata m : phase m -> exists md, metadata_entry md (m !! "app.toml")
  /\ forall now, published md now = published md0 now.
Proof. by intros [? ? H|? ? H|? ? H|now ? ? H]; eexists; (split; [exact H|]). Qed.

Lemma metadata_entry_inj md md' o : metadata_entry md o -> metadata_entry md' o -> md = md'.
Proof.
  intros (mo & -> & _) (mo' & H & _). assert (metadata_to_toml md = metadata_to_toml md') as He by congruence.
  pose proof (metadata_round_trip md) as Hm. rewrite He, metadata_round_trip in Hm. by simplify_eq.
Qed.

Lemma ok_read_metadata d :
  good d ->
  ok_from d (read_metadata (h_euid h) app_id)
    (fun d' r => d' = d /\ forall md, r = Ok md -> metadata_entry md (d_entries d !! "app.toml")).
Proof.
  intros Hd. do 2 (apply ok_checked; [done|apply reads_only_check_private|done|intros _]).
  destruct (phase_metadata _ (proj1 (good_entries _ Hd))) as (md & Hmd & _).
  apply ok_read; [done..|]. intros [c|e] Hx; simpl; [|by apply ok_ret].
  assert (c = metadata_to_toml md) as ->.
  { destruct Hmd as (mo & Hmd & _). destruct Hx as [Hx|[Hx|(j & d' & u & m & b & Hd' & Hx)]]; [|done|].
    - simpl in Hx. rewrite world_name, Hmd in Hx by done. by simplify_eq.
    - rewrite world_dir in Hd' by done. by simplify_eq. }
  apply ok_lift; [done..|]. rewrite metadata_round_trip. intros ? [= <-].
  apply ok_lift; [done..|]. intros _ _. apply ok_ret; [done|]. split; [done|]. by intros ? [= <-].
Qed.

(** A temporary file next to links that are in place. *)
Definition temp_file (d : dir) (t : string) (c : option string) (b : bool) : Prop :=
  good d /\ links_done d /\ d_entries d !! t = Some (EFile (h_euid h) 384 c b).

Lemma temp_created d t :
  is_temp t = true -> good d -> links_done d ->
  temp_file (change h d (FsCreateNew p t 384)) t (Some EmptyString) false.
Proof.
  intros Ht Hd Hl. destruct (is_temp_ne _ Ht) as (N1 & N2 & N3). split; [by apply good_temp_put|].
  unfold links_done. simpl. by rewrite lookup_insert_eq, !lookup_insert_ne.
Qed.

Lemma temp_written d t c b c' b' :
  is_temp t = true -> temp_file d t c b -> temp_file (put_file d t (EFile (h_euid h) 384 c' b')) t c' b'.
Proof.
  intros Ht (Hd & Hl & Hf). destruct (is_temp_ne _ Ht) as (N1 & N2 & N3). split; [by apply good_put_file|].
  unfold links_done. simpl. by rewrite lookup_insert_eq, !lookup_insert_ne.
Qed.

Definition metadata_written (now : Time) (d : dir) (r : result StoreError unit) : Prop :=
  links_done d /\ (r = Ok tt -> metadata_entry (published md0 now) (d_entries d !! "app.toml")).

(** The last step: the complete file takes the name of the metadata. *)
Lemma ok_rename_metadata d t now :
  is_temp t = true -> temp_file d t (Some (metadata_to_toml (published md0 now))) true ->
  ok_from d (io (FsRename p t "app.toml") ;;; sync_directory p) (metadata_written now).
Proof.
  intros Ht (Hd & Hl & Hf). destruct (is_temp_ne _ Ht) as (N1 & N2 & N3). apply ok_io; [done..|].
  intros [] _. simpl. rewrite Hf. eapply ok_mono; [apply ok_sync, good_put; [done|]|].
  - apply version_ok_publish; rewrite ?lookup_delete_ne by done; try apply Hl; [done|].
    by apply version_ok_temp_delete, good_entries.
  - intros d' r _ He. unfold metadata_written, links_done. rewrite He. simpl.
    rewrite lookup_insert_eq, !lookup_insert_ne, !lookup_delete_ne by done. split; [done|]. intros _. by exists 384%Z.
Qed.

(** Whatever happens, writing the metadata leaves the links in place. *)
Lemma ok_write_metadata d now :
  good d -> links_done d -> ok_from d (write_metadata p (published md0 now)) (metadata_written now).
Proof.
  intros Hd Hl. apply ok_read; [done..|]. intros u _. simpl.
  set (t := temp_name u). pose proof (temp_name_is_temp u : is_temp t = true) as Ht.
  apply (ok_removing _ _ _ (metadata_written now)); [exact Ht| |done| |by intros d' e _ [Hl' _]].
  - apply ok_io; [done..|]. intros [] _. pose proof (temp_created _ _ Ht Hd Hl) as H1. revert H1.
    generalize (change h d (FsCreateNew p t 384)). intros d1 H1. pose proof H1 as (Hd1 & _ & L1).
    apply ok_io; [done..| | |]; simpl; rewrite ?L1.
    + by eapply temp_written.
    + intros r. split; [|done]. by eapply temp_written.
    + intros [] _. apply (temp_written _ _ _ _ (Some (metadata_to_toml (published md0 now))) false Ht) in H1.
      revert H1. generalize (put_file d1 t (EFile (h_euid h) 384 (Some (metadata_to_toml (published md0 now))) false)).
      intros d2 H2. pose proof H2 as (Hd2 & Hl2 & L2). apply ok_io; [done..|]. intros [] _. simpl. rewrite L2.
      apply ok_rename_metadata; [done|]. by eapply temp_written.
  - intros d' e m _ [Hl' _] Hm. split; [|done]. unfold links_done. simpl. by rewrite !Hm.
Qed.

Lemma ok_set_desired_state d now :
  good d -> links_done d ->
  ok_from d (set_desired_state (h_euid h) app_id desired operation_id now)
    (fun d' r => links_done d' /\ forall md, r = Ok md -> metadata_entry md (d_entries d' !! "app.toml")
                   /\ am_desired_state md = desired /\ am_last_operation_id md = operation_id).
Proof.
  intros Hd Hl. eapply ok_ebind; [by apply ok_read_metadata| |by intros d' e _ [-> _]].
  intros d' md _ [-> Hmd]. specialize (Hmd md eq_refl).
  destruct (phase_metadata _ (proj1 (good_entries _ Hd))) as (md' & Hmd' & Heq).
  rewrite (metadata_entry_inj _ _ _ Hmd Hmd'). change (_ <| am_updated_at := now |>) with (published md' now).
  rewrite Heq. eapply ok_ebind; [by apply ok_write_metadata| |].
  - intros d' [] Hd' [Hl' He']. apply ok_ret; [done|]. split; [done|]. intros ? [= <-]. by specialize (He' eq_refl).
  - intros d' e _ [Hl' _]. done.
Qed.

Lemma ok_repair d :
  good d ->
  ok_from d (repair_app_durability (h_euid h) app_id)
    (fun d' r => d_entries d' = d_entries d /\ (r = Ok tt -> d_older d' = [])).
Proof.
  intros Hd. apply ok_checked; [done|apply reads_only_check_private|done|intros _].
  eapply (ok_ebind _ _ _ (fun d' _ => d_entries d' = d_entries d)); [| |done].
  - apply ok_read; [done..|]. intros [st|[]] _; try by apply ok_ret.
    apply ok_checked; [done|apply reads_only_check_private|done|intros _]. by apply ok_sync.
  - intros d1 [] Hd1 He1. eapply ok_ebind; [by apply ok_sync_here| |].
    + intros d2 [] Hd2 [He2 Ho2]. eapply ok_mono; [by apply ok_sync_older; auto|].
      intros d3 r _ [He3 Ho3]. by rewrite He3, He2.
    + intros d2 e _ [He2 _]. by rewrite He2.
Qed.

Lemma ok_place_links d v :
  good d -> d_entries d !! "active" = link_entry v ->
  ok_from d (if v =? Some candidate
             then load_v2_release (h_euid h) self app_id candidate ;;;
                  remove_release_link_if app_id "pending" candidate ;;;
                  repair_app_durability (h_euid h) app_id
             else if v =? expected then commit_active (h_euid h) self app_id expected candidate
             else fail SeRevisionStale)
    (fun d' r => r = Ok tt -> links_done d').
Proof.
  intros Hd Hv. case_bool_decide as Hc; [subst v|case_bool_decide; [by apply ok_commit|by apply ok_ret]].
  apply ok_checked; [done|apply reads_only_load|done|]. intros release.
  eapply ok_ebind; [by apply ok_remove_pending_if| |done]. intros d1 [] Hd1 [_ Hl1].
  eapply ok_mono; [by apply ok_repair|]. intros d2 r _ [He _] _. unfold links_done. rewrite He. by apply Hl1.
Qed.

Lemma complete_intro d md :
  links_done d -> metadata_entry md (d_entries d !! "app.toml") ->
  am_desired_state md = desired -> am_last_operation_id md = operation_id -> complete (d_entries d).
Proof. intros [H1 H2] H3 H4 H5. split; [done|]. split; [done|]. by exists md. Qed.

Lemma ok_publish_metadata d md now :
  good d -> links_done d -> metadata_entry md (d_entries d !! "app.toml") ->
  ok_from d (if (am_desired_state md ≠? desired) || (am_last_operation_id md ≠? operation_id)
             then on_error (set_desired_state (h_euid h) app_id desired operation_id now) (fun error =>
                    visible <- read_metadata (h_euid h) app_id ;;
                    if (am_desired_state visible ≠? desired) || (am_last_operation_id visible ≠? operation_id)
                    then fail error else eret tt)
             else eret tt)
    (fun d' r => r = Ok tt -> complete (d_entries d')).
Proof.
  intros Hd Hl Hmd. destruct (_ || _) eqn:Hb; [clear Hb|].
  - eapply ok_prog_bind; [by apply ok_set_desired_state|]. intros d2 [md2|e] Hd2 [Hl2 Hmd2].
    + destruct (Hmd2 md2 eq_refl) as (He & H1 & H2). apply ok_ret; [done|]. intros _. by eapply complete_intro.
    + eapply ok_ebind; [by apply ok_read_metadata| |done]. intros d' md3 _ [-> Hmd3].
      destruct (_ || _) eqn:Hb; apply ok_ret; try done. bools. intros _. eapply complete_intro; eauto.
  - apply ok_ret; [done|]. bools. intros _. by eapply complete_intro.
Qed.

Lemma ok_finalize d now :
  good d ->
  ok_from d (finalize_active (h_euid h) self app_id expected candidate desired operation_id now)
    (fun d' r => r = Ok tt -> complete (d_entries d') /\ d_older d' = []).
Proof.
  intros Hd. eapply ok_ebind; [by apply ok_read_link| |done]. intros d' v _ [-> Hv].
  eapply ok_ebind; [apply ok_place_links; auto|intros d1 [] Hd1 Hl1|done]. specialize (Hl1 eq_refl).
  eapply ok_ebind; [by apply ok_read_metadata| |done]. intros d' md _ [-> Hmd].
  eapply ok_ebind; [apply ok_publish_metadata; auto|intros d2 [] Hd2 Hc2|done].
  eapply ok_mono; [by apply ok_repair|]. intros d3 r _ [He Ho] Hr. rewrite He. auto.
Qed.

(** Every point of a trace is a good directory. *)
Lemma ok_from_trace {A} d (q : prog fsev A) Q tr o :
  ok_from d q Q -> trace q tr o -> relied (step h) (possible h) (world d) tr ->
  exists d', foldl (step h) (world d) tr = world d' /\ good d' /\ forall a, o = Some a -> Q d' a.
Proof.
  intros Hq Ht Hr.
  assert (forall w a, (exists d', w = world d' /\ good d' /\ Q d' a) -> exists d', w = world d' /\ good d') as Hweak
    by (intros w a (d' & -> & Hd & _); eauto).
  destruct (safe_everywhere _ _ _ _ (fun w => exists d', w = world d' /\ good d') q (world d) _ tr o
    (fun X w e Hw => Hw) Hweak (fun H => H) Hq Ht Hr) as [(d' & Hw & Hd) HQ].
  destruct o as [a|]; [|by exists d']. destruct (HQ a eq_refl) as (d2 & Hw2 & Hd2 & HQ2).
  exists d2. split; [done|]. split; [done|]. by intros ? [= <-].
Qed.

Lemma world_self d : world d !! i = Some d.
Proof. apply lookup_insert_eq. Qed.

Lemma world_other d j : j <> i -> world d !! j = w0 !! j.
Proof. intros Hj. by apply lookup_insert_ne. Qed.

(** ** Histories of attempts

    Attempts that stop anywhere, whatever failed in them, and crashes. *)

Abbreviation attempt := (finalize_active (h_euid h) self app_id expected candidate desired operation_id).

Inductive history : fs -> Prop :=
| HistoryStart : history w0
| HistoryAttempt w now tr o : history w -> trace (attempt now) tr o ->
    relied (step h) (possible h) w tr -> history (foldl (step h) w tr)
| HistoryCrash w w' : history w -> crash w w' -> history w'.

Lemma crash_good d w' : good d -> crash (world d) w' -> exists d', w' = world d' /\ good d'.
Proof.
  intros Hd Hc. pose proof (Hc i) as Hi. rewrite world_self in Hi.
  destruct (w' !! i) as [d'|] eqn:Hw; [|done]. exists d'. split.
  - apply map_eq. intros j. destruct (decide (j = i)) as [->|Hj]; [by rewrite world_self|].
    rewrite world_other by done. specialize (Hc j). rewrite world_other in Hc by done.
    destruct (w0 !! j) as [a|] eqn:Ha, (w' !! j) as [b|]; try done.
    destruct Hc as (Hu & Hm & Ho & m & Hin & He). destruct (in_quiet I j a Hj Ha) as [Hold Ht].
    unfold versions in Hin. rewrite Hold in Hin. apply list_elem_of_singleton in Hin as ->. rewrite Ht in He.
    destruct a, b; simpl in *; by subst.
  - destruct Hi as (Hu & Hm & Ho & m & Hin & He). destruct Hd as (Hu0 & Hm0 & Hv).
    rewrite Forall_forall in Hv. split; [by rewrite Hu|]. split; [by rewrite Hm|].
    unfold versions. rewrite Ho, He. constructor; [|constructor]. apply version_ok_torn; [exact (in_clean I)|by apply Hv, list_elem_of_In].
Qed.

Lemma history_good w : history w -> exists d, w = world d /\ good d.
Proof.
  induction 1 as [|w now tr o _ (d & -> & Hd) Ht Hr|w w' _ (d & -> & Hd) Hc].
  - exists d0. split; [|apply I]. symmetry. apply insert_id, I.
  - destruct (ok_from_trace _ _ _ _ _ (ok_finalize d now Hd) Ht Hr) as (d' & -> & Hd' & _). eauto.
  - by eapply crash_good.
Qed.

(** ** Attempts in which nothing fails *)

Abbreviation serve := (serve h).

Definition succeeds {A} (d : dir) (q : eprog fsev StoreError A) : Prop :=
  exists a w, run serve q (world d) = (Some (Ok a), w).

Lemma run_ok_from {A} d (q : prog fsev A) Q a w :
  ok_from d q Q -> run serve q (world d) = (Some a, w) -> exists d', w = world d' /\ good d' /\ Q d' a.
Proof.
  unfold ok_from. generalize (world d). induction q as [a'|X e k IH|]; intros g; simpl; [|intros [_ Hk]|done].
  - by intros HQ [= -> <-].
  - intros Hr. eapply IH; [|exact Hr]. apply Hk. by left.
Qed.

Lemma succeeds_ebind {A B} d (q : eprog fsev StoreError A) (f : A -> eprog fsev StoreError B) P :
  ok_from d q P -> succeeds d q -> (forall d' a, good d' -> P d' (Ok a) -> succeeds d' (f a)) ->
  succeeds d (ebind q f).
Proof.
  intros Hq (a & w & Hr) Hf. destruct (run_ok_from _ _ _ _ _ Hq Hr) as (d' & -> & Hd & HP).
  destruct (Hf d' a Hd HP) as (b & w & Hb). exists b, w. unfold ebind. by rewrite run_bind, Hr.
Qed.

(** A read-only part succeeds without moving. *)
Lemma succeeds_reads {A B} d (q : eprog fsev StoreError A) (f : A -> eprog fsev StoreError B) :
  good d -> reads_only q -> succeeds d q -> (forall a, succeeds d (f a)) -> succeeds d (ebind q f).
Proof.
  intros Hd Hq Hs Hf. eapply succeeds_ebind; [by apply ok_reads_only|done|]. by intros d' a _ ->.
Qed.

Lemma succeeds_here {X B} d (e : fsev (result IoKind X)) (k : X -> eprog fsev StoreError B) x :
  good d -> target_of e = Some p -> answer h e (world d) = Ok x -> succeeded e (Ok x) = true ->
  succeeds (change h d e) (k x) -> succeeds d (ebind (io e) k).
Proof.
  intros Hd He Ha Hs (b & w & Hr). exists b, w. unfold ebind. rewrite run_bind.
  change (run serve (io e) (world d)) with
    (run serve (Ret (map_err SeIo (answer h e (world d)))) (step h (world d) (Obs e (answer h e (world d))))).
  rewrite step_here, Ha, Hs by done. exact Hr.
Qed.

Lemma succeeds_try {F X} d (e : fsev (result F X)) (f : F -> StoreError) x :
  answer h e (world d) = Ok x -> succeeds d (try_call e f).
Proof. intros Ha. unfold succeeds, try_call. simpl. rewrite Ha. simpl. eauto. Qed.

Lemma succeeds_lift {A} d (r : result StoreError A) a : r = Ok a -> succeeds d (lift r).
Proof. intros ->. by do 2 eexists. Qed.

Lemma succeeds_ret {A} d (a : A) : succeeds d (eret a).
Proof. by do 2 eexists. Qed.

Lemma succeeds_guard d (b : bool) e : b = false -> succeeds d (lift (refuse_if b e)).
Proof. intros ->. by do 2 eexists. Qed.

Lemma succeeds_removing {A} d (q : eprog fsev StoreError A) t :
  succeeds d q -> succeeds d (removing_on_error q p t).
Proof. intros (a & w & Hr). exists a, w. unfold removing_on_error. by rewrite run_bind, Hr. Qed.

Lemma succeeds_on_error {A} d (q : eprog fsev StoreError A) f : succeeds d q -> succeeds d (on_error q f).
Proof. intros (a & w & Hr). exists tt, w. unfold on_error. by rewrite run_bind, Hr. Qed.

Lemma succeeds_read_link d name v :
  good d -> d_entries d !! name = link_entry v -> succeeds d (read_release_link app_id name).
Proof.
  intros Hd Hv. unfold succeeds, read_release_link, read_release_link_at. simpl. rewrite world_name, Hv by done.
  destruct v as [u|]; simpl; [|by do 2 eexists]. exists (Some u). eexists. do 2 f_equal.
  unfold parse_link, release_target. rewrite strip_prefix_append, uuid_parse_to_string.
  by rewrite bool_decide_eq_true_2.
Qed.

Lemma phase_links m : phase m ->
  exists a b, m !! "active" = link_entry a /\ m !! "pending" = link_entry b
    /\ (a = Some candidate \/ a = expected /\ b = Some candidate).
Proof.
  intros [H1 H2 _|H1 H2 _|H1 H2 _|now H1 H2 _].
  - exists expected, (Some candidate). auto.
  - exists (Some candidate), (Some candidate). auto.
  - exists (Some candidate), None. auto.
  - exists (Some candidate), None. auto.
Qed.


(** ** Completion

    What an attempt needs to go through: private directories, the candidate's
    intact release, valid metadata of a configured application, and names for
    temporary files that are free. *)

Definition private_dir (d : dir) : Prop := d_uid d = h_euid h /\ Z.land (d_mode d) 63 = 0%Z.

Definition private_file (d : dir) (name c : string) : Prop :=
  exists mode b, d_entries d !! name = Some (EFile (h_euid h) mode (Some c) b) /\ Z.land mode 63 = 0%Z.

Definition subdir (d : dir) (name : string) (j : N) (d' : dir) : Prop :=
  d_entries d !! name = Some (EDir j) /\ j <> i /\ w0 !! j = Some d' /\ private_dir d'.

(** Directories form a tree. *)
Definition tree (rank : N -> nat) : Prop :=
  forall j d name k, w0 !! j = Some d -> d_entries d !! name = Some (EDir k) -> rank k < rank j.

Record available : Prop := {
  av_private : private_dir d0;
  av_tree : exists rank, tree rank;
  av_release : exists jr dr jc dc, subdir d0 "releases" jr dr /\ subdir dr (uuid_to_string candidate) jc dc;
  av_loads : exists release w, run serve (load_release (h_euid h) self md0 app_id candidate p) w0 = (Some (Ok release), w);
  av_revisions : d_entries d0 !! "config-revisions" = None
    \/ exists j d, subdir d0 "config-revisions" j d;
  av_metadata : metadata_valid md0 = true /\ is_some (am_draft_revision md0) = true;
  av_fresh : forall d, good d -> d_entries d !! temp_name (h_new_v4 h (world d)) = None;
}.

Section completion.
Context (A : available).

Lemma succeeds_check_private d q (b : bool) mode :
  walk (world d) (EDir (h_root h)) q ≫= stat h (world d)
    = Some (MkStat (if b then KindDirectory else KindFile) (h_euid h) mode) ->
  Z.land mode 63 = 0%Z -> succeeds d (check_private (h_euid h) q b).
Proof.
  intros Hq Hm. unfold succeeds, check_private, perm, try_call. simpl. rewrite Hq. simpl. unfold refuse_if. simpl.
  rewrite (bool_decide_eq_true_2 (Z.land mode 63 = 0%Z)) by done.
  rewrite (bool_decide_eq_true_2 (h_euid h = h_euid h)) by done. destruct b; simpl; eauto.
Qed.

Lemma walk_here d q : good d -> walk (world d) (EDir (h_root h)) (p ++ q) = walk (world d) (EDir i) q.
Proof.
  intros Hd. pose proof (world_dir d Hd) as Hw. unfold dir_at, resolve in Hw. rewrite walk_app.
  destruct (walk (world d) (EDir (h_root h)) p) as [[| |j]|]; try done. simpl in Hw.
  destruct (world d !! j); by simplify_eq/=.
Qed.

Lemma good_outside d name : good d -> managed name = false -> d_entries d !! name = d_entries d0 !! name.
Proof. intros Hd. apply (good_entries d Hd). Qed.

Lemma succeeds_check_app d : good d -> succeeds d (check_private (h_euid h) p true).
Proof.
  intros Hd. destruct (av_private A) as [Hu Hm]. apply (succeeds_check_private _ _ true (d_mode d0)); [|done].
  rewrite <- (app_nil_r p), walk_here by done. simpl. rewrite world_self. simpl.
  destruct Hd as (-> & -> & _). by rewrite Hu.
Qed.

(** A private directory below the application's. *)
Lemma succeeds_check_sub d name j d' :
  good d -> managed name = false -> subdir d0 name j d' ->
  succeeds d (check_private (h_euid h) (p ++ [name]) true).
Proof.
  intros Hd Hn (He & Hj & Hw & Hu & Hm). apply (succeeds_check_private _ _ true (d_mode d')); [|done].
  rewrite walk_here by done. simpl. rewrite world_self. simpl. rewrite good_outside, He by done. simpl.
  rewrite world_other, Hw by done. simpl. by rewrite Hu.
Qed.

Lemma succeeds_sync_here d : good d -> succeeds d (sync_directory p).
Proof. intros Hd. eapply succeeds_try. simpl. by rewrite world_dir. Qed.

Lemma succeeds_sync_sub d name j d' :
  good d -> managed name = false -> subdir d0 name j d' -> succeeds d (sync_directory (p ++ [name])).
Proof.
  intros Hd Hn (He & Hj & Hw & _). eapply succeeds_try. simpl. unfold dir_at, resolve.
  change (uuid_to_string app_id :: [name]) with (p ++ [name]). rewrite walk_here by done.
  simpl. rewrite world_self. simpl. rewrite good_outside, He by done. simpl. by rewrite world_other, Hw.
Qed.

Lemma succeeds_sync_root d : succeeds d (sync_directory []).
Proof.
  eapply succeeds_try. simpl. unfold dir_at. simpl.
  destruct (world d !! h_root h) as [r|] eqn:Hr; [done|]. exfalso.
  destruct (decide (h_root h = i)) as [Heq|Hne]; [by rewrite Heq, world_self in Hr|].
  rewrite world_other in Hr by done. pose proof (in_path I) as Hp. unfold resolve in Hp. simpl in Hp.
  by rewrite Hr in Hp.
Qed.


Lemma succeeds_repair d : good d -> succeeds d (repair_app_durability (h_euid h) app_id).
Proof.
  intros Hd. apply succeeds_reads; [done|apply reads_only_check_private|by apply succeeds_check_app|intros _].
  eapply (succeeds_ebind _ _ _ (fun _ _ => True)).
  - apply ok_read; [done..|]. intros [st|[]] _; try by apply ok_ret.
    apply ok_checked; [done|apply reads_only_check_private|done|intros _].
    eapply ok_mono; [by apply ok_sync|done].
  - destruct (av_revisions A) as [Hn|(j & d' & Hs)].
    + assert (answer h (FsSymlinkMetadata (p ++ ["config-revisions"])) (world d) = Err NotFound) as Ha.
      { unfold answer. rewrite walk_here by done. simpl. rewrite world_self. simpl. by rewrite good_outside, Hn. }
      unfold succeeds. cbn [run]. unfold serve. rewrite Ha, step_none by done. apply succeeds_ret.
    + pose proof Hs as (He & Hj & Hw & Hu & Hm). pose proof (succeeds_check_sub _ "config-revisions" _ _ Hd eq_refl Hs) as Hc.
      pose proof (succeeds_sync_sub _ "config-revisions" _ _ Hd eq_refl Hs) as Hy.
      assert (answer h (FsSymlinkMetadata (p ++ ["config-revisions"])) (world d)
              = Ok (MkStat KindDirectory (d_uid d') (d_mode d'))) as Ha.
      { unfold answer. rewrite walk_here by done. simpl. rewrite world_self. simpl.
        rewrite good_outside, He by done. simpl. by rewrite world_other, Hw. }
      unfold succeeds. cbn [run]. unfold serve. rewrite Ha, step_none by done.
      by apply succeeds_reads; [|apply reads_only_check_private| |].
  - intros d1 [] Hd1 _. eapply succeeds_ebind; [by apply ok_sync_here|by apply succeeds_sync_here|].
    intros d2 [] Hd2 _. apply succeeds_sync_root.
Qed.

Lemma metadata_valid_published md now :
  metadata_valid md = true -> is_some (am_draft_revision md) = true -> metadata_valid (published md now) = true.
Proof.
  unfold metadata_valid. rewrite !andb_true_iff. intros [[[H1 H2] H3] _] Hs. repeat split; [done..|].
  unfold is_none. simpl. by rewrite Hs.
Qed.

Lemma phase_visible m : phase m -> exists md, metadata_entry md (m !! "app.toml")
  /\ metadata_valid md = true /\ (md = md0 \/ exists now, md = published md0 now).
Proof.
  destruct (av_metadata A) as [Hv Hs]. intros [? ? H|? ? H|? ? H|now ? ? H]; eexists; (split; [exact H|]); eauto.
  split; [by apply metadata_valid_published|eauto].
Qed.

(** Calls and pure results that succeed with a known value. *)
Lemma succeeds_call {F X B} d (e : fsev (result F X)) (f : F -> StoreError) (k : X -> eprog fsev StoreError B) x :
  reads e = true -> answer h e (world d) = Ok x -> succeeds d (k x) -> succeeds d (ebind (try_call e f) k).
Proof.
  intros He Ha Hk. unfold succeeds, ebind, try_call. cbn [prog_bind run]. unfold serve.
  rewrite Ha, step_none by done. exact Hk.
Qed.

Lemma succeeds_pure {X B} d (r : result StoreError X) (k : X -> eprog fsev StoreError B) x :
  r = Ok x -> succeeds d (k x) -> succeeds d (ebind (lift r) k).
Proof. by intros ->. Qed.

Lemma succeeds_unless {B} d (b : bool) e (k : unit -> eprog fsev StoreError B) :
  b = false -> succeeds d (k tt) -> succeeds d (ebind (lift (refuse_if b e)) k).
Proof. by intros ->. Qed.

Lemma succeeds_fresh {B} d (k : Uuid -> eprog fsev StoreError B) :
  succeeds d (k (h_new_v4 h (world d))) -> succeeds d (ebind (ask FsNewV4) k).
Proof. done. Qed.

Lemma succeeds_read_metadata d : good d -> succeeds d (read_metadata (h_euid h) app_id).
Proof.
  intros Hd. destruct (phase_visible _ (proj1 (good_entries _ Hd))) as (md & (mode & He & Hm) & Hv & _).
  apply succeeds_reads; [done|apply reads_only_check_private|by apply succeeds_check_app|intros _].
  apply succeeds_reads; [done|apply reads_only_check_private| |intros _].
  { apply (succeeds_check_private _ _ false mode); [|done]. rewrite walk_here by done. simpl.
    rewrite world_self. simpl. by rewrite He. }
  eapply succeeds_call; [done|simpl; by rewrite world_name, He|].
  eapply succeeds_pure; [by rewrite metadata_round_trip|].
  apply succeeds_unless; [by rewrite Hv|apply succeeds_ret].
Qed.

(** ** Reads that do not look at what a publication changes *)

Definition under (q : path) : Prop := exists c rest, q = p ++ c :: rest /\ managed c = false.

Definition outside {X} (e : fsev X) : Prop :=
  match e with
  | FsSymlinkMetadata q => q = p \/ under q
  | FsReadToString q _ => under q
  | FsBindHost => True
  | _ => False
  end.

Fixpoint stays_outside {X} (q : prog fsev X) : Prop :=
  match q with
  | Ret _ => True
  | Vis e k => outside e /\ forall x, stays_outside (k x)
  | OutOfFuel => False
  end.

Lemma outside_ebind {X Y} (q : eprog fsev StoreError X) (f : X -> eprog fsev StoreError Y) :
  stays_outside q -> (forall a, stays_outside (f a)) -> stays_outside (ebind q f).
Proof.
  intros Hq Hf. unfold ebind. induction q as [[a|e]|Z e k IH|]; simpl in *; [apply Hf|done| |done].
  destruct Hq as [He Hk]. split; [done|]. intros x. by apply IH.
Qed.

Lemma walk_below rank d j q :
  tree rank -> rank j < rank i -> walk (world d) (EDir j) q = walk w0 (EDir j) q
  /\ forall k, walk w0 (EDir j) q = Some (EDir k) -> rank k < rank i.
Proof.
  intros Ht. revert j. induction q as [|c q IH]; intros j Hj; simpl.
  - split; [done|]. by intros k [= ->].
  - assert (j <> i) as Hne by (intros ->; lia). rewrite world_other by done.
    destruct (w0 !! j) as [dj|] eqn:Hw; simpl; [|done]. destruct (d_entries dj !! c) as [[| |k]|] eqn:He; simpl;
      [by destruct q|by destruct q| |done]. apply IH. pose proof (Ht j dj c k Hw He). lia.
Qed.

Lemma walk_outside rank d q :
  tree rank -> good d -> under q ->
  walk (world d) (EDir (h_root h)) q = walk w0 (EDir (h_root h)) q
  /\ forall k, walk w0 (EDir (h_root h)) q = Some (EDir k) -> rank k < rank i.
Proof.
  intros Ht Hd (c & rest & -> & Hc). rewrite walk_here by done.
  pose proof (walk_here d0 (c :: rest) (in_good I)) as H0. unfold world in H0 at 1 2. rewrite insert_id in H0 by apply I.
  rewrite H0. cbn [walk]. rewrite world_self, (in_dir I). cbn [mbind option_bind].
  rewrite good_outside by done. destruct (d_entries d0 !! c) as [[| |k]|] eqn:He; simpl;
    [by destruct rest|by destruct rest| |done].
  apply walk_below; [done|]. by eapply Ht; [apply I|].
Qed.

Lemma answer_outside d X (e : fsev X) : good d -> outside e -> answer h e (world d) = answer h e w0.
Proof.
  intros Hd He. destruct (av_tree A) as [rank Ht].
  destruct e as [q| |q name| | | | | | | | | | | | | | | | | |]; try done; simpl in *.
  - f_equal. destruct He as [->|Hu].
    + rewrite <- (app_nil_r p), !walk_here by done. pose proof (walk_here d0 [] (in_good I)) as H0.
      unfold world in H0 at 1 2. rewrite insert_id in H0 by apply I. rewrite H0. simpl.
      rewrite world_self, (in_dir I). simpl. by destruct Hd as (-> & -> & _).
    + destruct (walk_outside rank d q Ht Hd Hu) as [-> Hk]. destruct (walk w0 _ q) as [[| |k]|]; try done. simpl.
      specialize (Hk k eq_refl). assert (k <> i) as Hne by (intros ->; lia). by rewrite world_other.
  - destruct (walk_outside rank d q Ht Hd He) as [Hw Hk]. unfold on_name, dir_at, resolve. rewrite Hw.
    destruct (walk w0 _ q) as [[| |k]|]; try done. simpl. specialize (Hk k eq_refl).
    assert (k <> i) as Hne by (intros ->; lia). by rewrite world_other.
Qed.

Lemma run_outside {X} d (q : prog fsev X) :
  good d -> stays_outside q -> run serve q (world d) = ((run serve q w0).1, world d).
Proof.
  intros Hd. induction q as [a|Z e k IH|]; [done| |done]. intros [He Hk].
  assert (forall w, run serve (Vis e k) w = run serve (k (answer h e w)) w) as Hr.
  { intros w. cbn [run]. unfold serve at 1. by rewrite step_none by by destruct e. }
  rewrite !Hr, (answer_outside d _ _ Hd He). by apply IH.
Qed.

Lemma outside_check_private q b : q = p \/ under q -> stays_outside (check_private (h_euid h) q b).
Proof.
  intros Hq. apply outside_ebind; [split; [done|]; by intros [x|e]|]. intros st.
  repeat (apply outside_ebind; [by destruct (refuse_if _ _)|intros _]). by destruct (refuse_if _ _).
Qed.

Lemma under_snoc q c : under q -> under (q ++ [c]).
Proof. intros (a & rest & -> & Ha). exists a, (rest ++ [c]). by rewrite <- app_assoc. Qed.

Lemma under_app q r : under q -> under (q ++ r).
Proof. intros (a & rest & -> & Ha). exists a, (rest ++ r). by rewrite <- app_assoc. Qed.

Lemma outside_check_components q rel b : under q -> stays_outside (check_components (h_euid h) q rel b).
Proof.
  revert q. induction rel as [|c rel IH]; intros q Hq; [done|].
  apply outside_ebind; [apply outside_check_private; right; by apply under_snoc|].
  intros _. by apply IH, under_snoc.
Qed.

Lemma outside_check_private_tree c rel b :
  managed c = false -> stays_outside (check_private_tree (h_euid h) p (c :: rel) b).
Proof.
  intros Hc. assert (under (p ++ [c])) as Hu by by exists c, [].
  apply outside_ebind; [apply outside_check_private; by left|intros _].
  apply outside_ebind; [apply outside_check_private; by right|intros _]. by apply outside_check_components.
Qed.

Lemma outside_try {F X} (e : fsev (result F X)) (f : F -> StoreError) : outside e -> stays_outside (try_call e f).
Proof. intros He. split; [done|]. by intros [x|r]. Qed.

Lemma outside_read_environment c rel name keys :
  managed c = false -> stays_outside (read_environment (h_euid h) p (c :: rel) name keys).
Proof.
  intros Hc. apply outside_ebind; [by apply outside_check_private_tree|intros _].
  apply outside_ebind; [apply outside_try; by exists c, rel|done].
Qed.

Lemma outside_load_files c rel files acc :
  managed c = false -> stays_outside (load_files (h_euid h) p (c :: rel) files acc).
Proof.
  intros Hc. revert acc. induction files as [|item files IH]; intros acc; [done|]. cbn [load_files app].
  apply outside_ebind; [|intros _; apply outside_ebind; [apply outside_try; by eexists _, _|intros v; apply IH]].
  apply outside_ebind; [by apply outside_check_private_tree|intros _].
  apply outside_ebind; [apply outside_try; right; by eexists _, _|done].
Qed.

Lemma outside_load_verified revision hmac_key : stays_outside (load_verified (h_euid h) p revision hmac_key).
Proof.
  apply outside_ebind; [|intros loaded; by apply outside_ebind].
  do 2 (apply outside_ebind; [by apply outside_check_private_tree|intros _]).
  apply outside_ebind; [apply outside_try; by eexists _, _|intros config].
  do 2 (apply outside_ebind; [done|intros ?]). cbv zeta.
  do 2 (apply outside_ebind; [by apply outside_read_environment|intros ?]).
  apply outside_ebind; [by apply outside_load_files|done].
Qed.

Lemma outside_load_release app : stays_outside (load_release (h_euid h) self app app_id candidate p).
Proof.
  unfold load_release. cbv zeta.
  do 2 (apply outside_ebind; [by apply outside_check_private_tree|intros _]).
  apply outside_ebind; [apply outside_try; by eexists _, _|intros header].
  do 4 (apply outside_ebind; [done|intros ?]).
  apply outside_ebind; [apply outside_try; by eexists _, _|intros compose].
  apply outside_ebind; [apply outside_load_verified|intros loaded].
  by repeat (apply outside_ebind; [done|intros ?]).
Qed.

(** Publishing the metadata does not touch what a release is checked against. *)
Lemma load_release_published now :
  load_release (h_euid h) self (published md0 now) app_id candidate p
  = load_release (h_euid h) self md0 app_id candidate p.
Proof. reflexivity. Qed.

Lemma succeeds_load d : good d -> succeeds d (load_v2_release (h_euid h) self app_id candidate).
Proof.
  intros Hd. eapply succeeds_ebind; [by apply ok_read_metadata|by apply succeeds_read_metadata|].
  intros d' md _ [-> Hmd]. specialize (Hmd md eq_refl).
  destruct (phase_visible _ (proj1 (good_entries _ Hd))) as (md' & Hmd' & _ & Hor).
  rewrite (metadata_entry_inj _ _ _ Hmd' Hmd) in Hor. destruct (av_loads A) as (release & w & Hr).
  assert (load_release (h_euid h) self md app_id candidate p = load_release (h_euid h) self md0 app_id candidate p) as ->.
  { destruct Hor as [->|[now ->]]; [done|apply load_release_published]. }
  exists release, (world d). by rewrite run_outside, Hr by (done || apply outside_load_release).
Qed.

Lemma succeeds_switch d : good d -> succeeds d (switch_release_link (h_euid h) p "active" candidate).
Proof.
  intros Hd. apply succeeds_unless; [done|].
  destruct (av_release A) as (jr & dr & jc & dc & Hr & Hc).
  pose proof Hr as (Her & Hjr & Hwr & _). pose proof Hc as (He & Hj & Hw & Hu & Hm).
  apply succeeds_reads; [done|apply reads_only_check_private|by apply succeeds_check_app|intros _].
  apply succeeds_reads; [done|apply reads_only_check_private|by eapply succeeds_check_sub|intros _].
  apply succeeds_reads; [done|apply reads_only_check_private| |intros _].
  { apply (succeeds_check_private _ _ true (d_mode dc)); [|done]. rewrite walk_here by done. simpl.
    rewrite world_self. simpl. rewrite good_outside, Her by done. simpl. rewrite world_other, Hwr by done.
    simpl. rewrite He. simpl. rewrite world_other, Hw by done. simpl. by rewrite Hu. }
  apply succeeds_fresh.
  set (t := temp_name (h_new_v4 h (world d))). pose proof (av_fresh A d Hd : d_entries d !! t = None) as Hf.
  pose proof (temp_name_is_temp (h_new_v4 h (world d)) : is_temp t = true) as Ht.
  destruct (is_temp_ne _ Ht) as (N1 & N2 & N3).
  apply succeeds_removing. eapply succeeds_here; [done..|simpl; by rewrite world_name, Hf|done|]. simpl.
  set (d1 := put d _). assert (good d1) as Hd1 by by apply good_temp_put.
  eapply succeeds_here; [done..| |done|].
  { simpl. rewrite !world_name by done. simpl. rewrite lookup_insert_eq, lookup_insert_ne by done.
    pose proof (version_ok_no_dir _ "active" (good_entries _ Hd) eq_refl). by destruct (d_entries d !! "active") as [[]|]. }
  simpl. rewrite lookup_insert_eq. apply succeeds_sync_here. apply good_put; [done|].
  apply version_ok_activate, version_ok_temp_delete; [done|]. exact (good_entries _ Hd1).
Qed.

Lemma succeeds_remove_pending_if d :
  good d -> d_entries d !! "active" = link_entry (Some candidate) ->
  succeeds d (remove_release_link_if app_id "pending" candidate).
Proof.
  intros Hd Ha. destruct (phase_links _ (proj1 (good_entries _ Hd))) as (a & b & _ & Hb & _).
  eapply succeeds_ebind; [by apply ok_read_link|by eapply succeeds_read_link|].
  intros d' v _ [-> Hv]. specialize (Hv v eq_refl). case_bool_decide; [subst v|apply succeeds_ret].
  apply succeeds_on_error. apply succeeds_unless; [done|]. unfold succeeds. cbn [run]. unfold serve.
  assert (answer h (FsRemoveFile p "pending") (world d) = Ok tt) as -> by (simpl; by rewrite world_name, Hv).
  rewrite step_here by done. apply succeeds_sync_here, good_put, version_ok_unpend, good_entries; done.
Qed.

Lemma succeeds_write_metadata d now :
  good d -> links_done d -> succeeds d (write_metadata p (published md0 now)).
Proof.
  intros Hd Hl. apply succeeds_fresh.
  set (t := temp_name (h_new_v4 h (world d))). pose proof (av_fresh A d Hd : d_entries d !! t = None) as Hf.
  pose proof (temp_name_is_temp (h_new_v4 h (world d)) : is_temp t = true) as Ht.
  apply succeeds_removing. eapply succeeds_here; [done..|simpl; by rewrite world_name, Hf|done|].
  pose proof (temp_created _ _ Ht Hd Hl) as H1. revert H1.
  generalize (change h d (FsCreateNew p t 384)). intros d1 H1. pose proof H1 as (Hd1 & _ & L1).
  eapply succeeds_here; [done..|simpl; by rewrite world_name, L1|done|]. cbn [change]. rewrite L1.
  apply (temp_written _ _ _ _ (Some (metadata_to_toml (published md0 now))) false Ht) in H1. revert H1.
  generalize (put_file d1 t (EFile (h_euid h) 384 (Some (metadata_to_toml (published md0 now))) false)).
  intros d2 H2. pose proof H2 as (Hd2 & _ & L2).
  eapply succeeds_here; [done..|simpl; by rewrite world_name, L2|done|]. cbn [change]. rewrite L2.
  apply (temp_written _ _ _ _ (Some (metadata_to_toml (published md0 now))) true Ht) in H2. revert H2.
  generalize (put_file d2 t (EFile (h_euid h) 384 (Some (metadata_to_toml (published md0 now))) true)).
  intros d3 H3. pose proof H3 as (Hd3 & Hl3 & L3). destruct (is_temp_ne _ Ht) as (N1 & N2 & N3).
  destruct (phase_visible _ (proj1 (good_entries _ Hd3))) as (md & (mode & He & _) & _).
  eapply succeeds_here; [done..|simpl; by rewrite world_name, L3, world_name, He|done|]. cbn [change]. rewrite L3.
  apply succeeds_sync_here, good_put; [done|]. apply version_ok_publish; rewrite ?lookup_delete_ne by done;
    try apply Hl3; [done|]. by apply version_ok_temp_delete, good_entries.
Qed.

Lemma succeeds_set_desired_state d now :
  good d -> links_done d -> succeeds d (set_desired_state (h_euid h) app_id desired operation_id now).
Proof.
  intros Hd Hl. eapply succeeds_ebind; [by apply ok_read_metadata|by apply succeeds_read_metadata|].
  intros d' md _ [-> Hmd]. specialize (Hmd md eq_refl).
  destruct (phase_metadata _ (proj1 (good_entries _ Hd))) as (md' & Hmd' & Heq).
  rewrite (metadata_entry_inj _ _ _ Hmd Hmd'). change (_ <| am_updated_at := now |>) with (published md' now).
  rewrite Heq. eapply succeeds_ebind; [by apply ok_write_metadata|by apply succeeds_write_metadata|].
  intros. apply succeeds_ret.
Qed.

Lemma succeeds_commit d a :
  good d -> d_entries d !! "active" = link_entry expected ->
  d_entries d !! "pending" = link_entry (Some candidate) -> a = expected ->
  succeeds d (commit_active (h_euid h) self app_id a candidate).
Proof.
  intros Hd Ha Hp ->.
  eapply succeeds_ebind; [by apply ok_read_link|by eapply succeeds_read_link|]. intros d' v _ [-> Hv].
  specialize (Hv v eq_refl). rewrite Ha in Hv. apply link_entry_inj in Hv as <-.
  rewrite bool_decide_eq_true_2 by done. cbn [negb].
  apply succeeds_reads; [done| | |intros _].
  { apply reads_only_ebind; [split; [done|]; by intros [t|[]]|]. intros v. by destruct (_ ≠? _). }
  { eapply succeeds_ebind; [by apply ok_read_link|by eapply succeeds_read_link|]. intros d' v' _ [-> Hv'].
    specialize (Hv' v' eq_refl). rewrite Hp in Hv'. apply link_entry_inj in Hv' as <-.
    rewrite bool_decide_eq_true_2 by done. apply succeeds_ret. }
  apply succeeds_reads; [done|apply reads_only_load|by apply succeeds_load|intros release].
  eapply succeeds_ebind; [by apply ok_activate| |].
  - by apply succeeds_on_error, succeeds_switch.
  - intros d1 [] Hd1 Ha1. by apply succeeds_on_error, succeeds_remove_pending_if; [|apply Ha1].
Qed.


Lemma succeeds_finalize d now :
  good d -> succeeds d (finalize_active (h_euid h) self app_id expected candidate desired operation_id now).
Proof.
  intros Hd. destruct (phase_links _ (proj1 (good_entries _ Hd))) as (a & b & Ha & Hb & Hor).
  eapply succeeds_ebind; [by apply ok_read_link|by eapply succeeds_read_link|]. intros d' v _ [-> Hv].
  specialize (Hv v eq_refl). rewrite Ha in Hv. apply link_entry_inj in Hv as <-.
  eapply (succeeds_ebind _ _ _ (fun d' r => r = Ok tt -> links_done d')).
  - by apply ok_place_links.
  - case_bool_decide as Hc.
    + subst a. apply succeeds_reads; [done|apply reads_only_load|by apply succeeds_load|intros release].
      eapply succeeds_ebind; [by apply ok_remove_pending_if|by apply succeeds_remove_pending_if|].
      intros d1 [] Hd1 _. by apply succeeds_repair.
    + destruct Hor as [|[-> ->]]; [done|]. rewrite bool_decide_eq_true_2 by done. by apply succeeds_commit.
  - intros d1 [] Hd1 Hl1. specialize (Hl1 eq_refl).
    eapply succeeds_ebind; [by apply ok_read_metadata|by apply succeeds_read_metadata|]. intros d' md _ [-> Hmd].
    specialize (Hmd md eq_refl). eapply succeeds_ebind; [by apply ok_publish_metadata| |].
    + destruct (_ || _); [by apply succeeds_on_error, succeeds_set_desired_state|apply succeeds_ret].
    + intros d2 [] Hd2 _. by apply succeeds_repair.
Qed.
End completion.
End attempt.
End publication.
