(* ===== verification/StoreTheorems.v ===== *)
(** * StoreTheorems: what the release store guarantees

    The theorems about [finalize_active] and [load_v2_release], and a concrete
    store on which they are evaluated. *)

From S2P Require Import Prelude Text Reference Models Effects Codec Names Drafts DraftTheorems Compose ComposeTheorems FileSystem StoreBase ConfigRevision ReleaseStore StoreSafety.

Section theorems.
Context {UT : UuidText} {ST : StoreText} {CR : Crypto} {CT : ComposeText}.

(** C15: Publication of a release survives failures and crashes: after any history
    of attempts that stopped anywhere with any failures, and of crashes, every
    version of the application directory that a restart may find is in one of
    the four phases of the publication (in particular the active link names the
    previous release or the candidate, the pending link is only gone once the
    candidate is active, and the metadata is a complete document); and once an
    attempt has returned success, whatever failed before, a crash leaves the
    candidate active, nothing pending and the requested state recorded. *)
Theorem publication_crash_safe (h : Host) (self : AppStore) (app_id candidate operation_id : Uuid)
    (expected : option Uuid) (desired : DesiredState) (w0 : fs) (i : N) (d0 : dir) (md0 : AppMetadata) (w : fs) :
  initial h app_id candidate operation_id expected desired w0 i d0 md0 ->
  history h self app_id candidate operation_id expected desired w0 w ->
  (exists d, w = world w0 i d
     /\ Forall (phase h candidate operation_id expected desired md0) (versions d))
  /\ forall now tr w',
       trace (finalize_active (h_euid h) self app_id expected candidate desired operation_id now) tr (Some (Ok tt)) ->
       relied (step h) (possible h) w tr -> crash (foldl (step h) w tr) w' ->
       exists d', w' !! i = Some d' /\ complete h candidate operation_id desired (d_entries d').
Proof.
  intros I Hw. destruct (history_good _ self _ _ _ _ _ _ _ _ _ I _ Hw) as (d & -> & Hd). split.
  - exists d. split; [done|]. eapply list.Forall_impl; [apply Hd|]. by intros m [Hm _].
  - intros now tr w' Ht Hr Hc.
    destruct (ok_from_trace _ self _ _ _ _ _ _ _ _ _ I _ _ _ _ _ (ok_finalize _ _ _ _ _ _ _ _ _ _ _ I d now Hd) Ht Hr)
      as (d1 & Hd1 & _ & HQ). destruct (HQ _ eq_refl eq_refl) as [Hcomp Hold].
    rewrite Hd1 in Hc. specialize (Hc i). unfold world in Hc. rewrite lookup_insert_eq in Hc.
    destruct (w' !! i) as [d'|]; [|done]. exists d'. split; [done|].
    destruct Hc as (_ & _ & _ & m & Hin & He). unfold versions in Hin. rewrite Hold in Hin.
    apply list_elem_of_singleton in Hin as ->. rewrite He.
    destruct Hcomp as (Ha & Hp & md & (mode & Hm & Hmode) & Hde & Hop). split; [by rewrite lookup_fmap, Ha|].
    split; [by rewrite lookup_fmap, Hp|]. exists md. split; [|done]. exists mode. by rewrite lookup_fmap, Hm.
Qed.

(** C16: Publication converges: after any such history, one attempt in which no
    call fails returns success and leaves the candidate active, nothing pending
    and the requested state recorded, all of it on disk. *)
Theorem publication_converges (h : Host) (self : AppStore) (app_id candidate operation_id : Uuid)
    (expected : option Uuid) (desired : DesiredState) (w0 : fs) (i : N) (d0 : dir) (md0 : AppMetadata) (w : fs)
    (now : Time) :
  initial h app_id candidate operation_id expected desired w0 i d0 md0 ->
  available h self app_id candidate operation_id expected desired w0 i d0 md0 ->
  history h self app_id candidate operation_id expected desired w0 w ->
  exists d', run (serve h) (finalize_active (h_euid h) self app_id expected candidate desired operation_id now) w
             = (Some (Ok tt), world w0 i d')
    /\ complete h candidate operation_id desired (d_entries d') /\ d_older d' = [].
Proof.
  intros I A Hw. destruct (history_good _ self _ _ _ _ _ _ _ _ _ I _ Hw) as (d & -> & Hd).
  destruct (succeeds_finalize _ _ _ _ _ _ _ _ _ _ _ I A d now Hd) as ([] & w & Hr).
  destruct (run_ok_from _ self _ _ _ _ _ _ _ _ _ I _ _ _ _ _ (ok_finalize _ _ _ _ _ _ _ _ _ _ _ I d now Hd) Hr)
    as (d' & -> & _ & HQ). exists d'. split; [exact Hr|]. by apply HQ.
Qed.

(** ** What a loaded release vouches for *)

Definition release_directory (app_id release_id : Uuid) : list string :=
  app_directory app_id ++ ["releases"; uuid_to_string release_id].

(** The program returned [a] somewhere in the trace. *)
Definition returned {A} (q : eprog fsev StoreError A) (tr : list (obs fsev)) (a : A) : Prop :=
  exists tr', tr' `sublist_of` tr /\ trace q tr' (Some (Ok a)).

(** The header names this release, is signed and pins its image; what the
    signature of an old schema does not cover has its legacy value. *)
Record authentic_header (key : string) (app_id release_id : Uuid) (release : ReleaseV2) : Prop := {
  ah_id : rl_id release = release_id;
  ah_app_id : rl_app_id release = app_id;
  ah_signed : sign release key = rl_integrity_hmac release;
  ah_schema : release_schema_supported (rl_schema_version release) (rl_compose_schema_version release) = true;
  ah_pinned : validate_runnable_image (rl_runnable_image_ref release) = true;
  ah_legacy_grace : rl_schema_version release = 3%Z ->
    rl_stop_grace_period_seconds release = default_stop_grace_period_seconds;
  ah_legacy_discovery : rl_schema_version release = 3%Z \/ rl_schema_version release = 4%Z ->
    rl_service_discovery_enabled release = false;
}.

(** The configuration revision it names was read, is intact and normalises to
    [draft], and agrees with the header. *)
Record authentic_revision (key : string) (app : AppMetadata) (release : ReleaseV2) (loaded : LoadedRevision)
    (binds : BindHost * list string) (draft : NormalizedDraft) : Prop := {
  ar_intact : verify_config_integrity canonical_json (lv_metadata loaded) (lv_public_environment loaded)
    (lv_public_files loaded) (lv_secrets loaded) key = Ok tt;
  ar_hash : cm_config_sha256 (lv_metadata loaded) = rl_config_sha256 release;
  ar_draft : normalize_verified canonical_json binds.1 loaded (am_display_name app) (rl_source_image_ref release)
    (rl_credential_ref release) (am_auto_deploy_enabled app) (am_poll_interval_seconds app) key binds.2 = Ok draft;
  ar_grace : rl_stop_grace_period_seconds release = cm_stop_grace_period_seconds (lv_metadata loaded);
  ar_discovery : rl_service_discovery_enabled release = cm_service_discovery_enabled (lv_metadata loaded);
}.

Lemma schema_defaults_legacy r :
  let release := apply_schema_defaults r in
  (rl_schema_version release = 3%Z -> rl_stop_grace_period_seconds release = default_stop_grace_period_seconds)
  /\ (rl_schema_version release = 3%Z \/ rl_schema_version release = 4%Z ->
      rl_service_discovery_enabled release = false).
Proof.
  unfold apply_schema_defaults. destruct (rl_schema_version r =? 3%Z) eqn:H3; simpl; rewrite H3; simpl; [done|].
  bools. destruct (rl_schema_version r =? 4%Z) eqn:H4; simpl; bools; (split; [done|]); [done|by intros [|]].
Qed.

Lemma load_verified_intact directory revision key tr loaded euid :
  trace (load_verified euid directory revision key) tr (Some (Ok loaded)) ->
  verify_config_integrity canonical_json (lv_metadata loaded) (lv_public_environment loaded)
    (lv_public_files loaded) (lv_secrets loaded) key = Ok tt.
Proof.
  intros (? & ? & l & -> & _ & Ht)%trace_ebind_inv.
  apply trace_lift_inv in Ht as ([] & Hv%map_err_ok_inv & [_ [= ->]]%trace_ret_inv). done.
Qed.

(** A release is only loaded when it is authentic: whatever the file system
    answers, [load_v2_release] returns a release only if its header names that
    release and application, carries the store's signature over all signed
    fields and one of the supported schema pairs, and pins its image by digest
    (fields an old schema's signature did not cover have their legacy value,
    whatever the header says); the configuration revision it names was read and
    passes the integrity check under the same key, hashes to what the header
    says and normalises to a draft; and the Compose file that was read has the
    signed hash and is the one that draft generates. *)
Theorem loaded_release_authentic (euid : Z) (self : AppStore) (app_id release_id : Uuid) (tr : list (obs fsev))
    (release : ReleaseV2) :
  trace (load_v2_release euid self app_id release_id) tr (Some (Ok release)) ->
  exists key app loaded binds draft compose,
    as_integrity_key self = Some key
    /\ authentic_header key app_id release_id release
    /\ returned (read_metadata euid app_id) tr app
    /\ returned (load_verified euid (app_directory app_id) (rl_config_revision release) key) tr loaded
    /\ Obs FsBindHost binds ∈ tr
    /\ authentic_revision key app release loaded binds draft
    /\ Obs (FsReadToString (release_directory app_id release_id) "compose.yaml") (Ok compose) ∈ tr
    /\ hex (sha256 compose) = rl_compose_sha256 release
    /\ canonical_compose (release_compose_input self app app_id release_id release draft)
         (rl_compose_schema_version release) compose.
Proof.
  intros (t1 & t2 & app & -> & Happ & Ht)%trace_ebind_inv. unfold load_release in Ht.
  apply trace_ebind_inv in Ht as (t3 & t4 & _ & -> & _ & Ht).
  apply trace_ebind_inv in Ht as (t5 & t6 & _ & -> & _ & Ht).
  apply trace_try_inv in Ht as (header & t7 & -> & Ht).
  apply trace_lift_inv in Ht as (parsed & Hparsed & Ht).
  apply trace_lift_inv in Ht as (key & Hkey & Ht).
  apply trace_lift_inv in Ht as (_ & Hguard%refuse_if_ok & Ht).
  apply trace_lift_inv in Ht as (_ & Himage%refuse_if_ok & Ht).
  apply trace_try_inv in Ht as (compose & t8 & -> & Ht).
  apply trace_ebind_inv in Ht as (t9 & t10 & loaded & -> & Hloaded & Ht).
  apply trace_lift_inv in Ht as (_ & Hsha%refuse_if_ok & Ht).
  apply trace_vis_inv in Ht as (binds & t11 & -> & Ht).
  apply trace_lift_inv in Ht as (draft & Hdraft%map_err_ok_inv & Ht).
  apply trace_lift_inv in Ht as (_ & Hgrace%refuse_if_ok & Ht).
  apply trace_lift_inv in Ht as (_ & Hdiscovery%refuse_if_ok & Ht).
  apply trace_lift_inv in Ht as (canonical & Hcanonical & Ht).
  apply trace_lift_inv in Ht as (_ & Hok%refuse_if_ok & Ht).
  apply trace_ret_inv in Ht as [-> [= Hr]]. rewrite Hr in *.
  exists key, app, loaded, binds, draft, compose. bools.
  split; [by destruct (as_integrity_key self); simplify_eq/=|].
  split; [split; [done..| |]; rewrite <- Hr; apply schema_defaults_legacy|].
  split; [exists t1; split; [by apply sublist_inserts_r|done]|].
  split; [exists t9; split; [|done]; do 3 apply sublist_inserts_l; do 2 apply sublist_cons; by apply sublist_inserts_r|].
  split; [set_solver|]. split; [split; try done; by eapply load_verified_intact|]. split; [set_solver|].
  destruct (matches_canonical _ _ _ _ _) as [[c|e]|] eqn:Hm; simplify_eq.
  by apply matches_canonical_inv in Hm.
Qed.
End theorems.

(** ** A concrete store

    Documents are encoded injectively in place of TOML; one release header is
    known to the parser. *)

Definition metadata_codes (m : AppMetadata) : list positive :=
  [encode (am_schema_version m); encode (am_id m); encode (am_slug m); encode (am_display_name m);
   encode (am_resource_name_schema_version m); encode (am_discovery_image_ref m);
   encode (am_credential_ref m); encode (am_draft_revision m); encode (am_draft_config_sha256 m);
   encode (bool_decide (am_desired_state m = DesiredRunning)); encode (am_auto_deploy_enabled m);
   encode (am_poll_interval_seconds m); encode (am_last_operation_id m); encode (am_created_at m);
   encode (am_updated_at m)].

Definition codes_metadata (l : list positive) : option AppMetadata :=
  match l with
  | [a; b; c; d; e; f; g; h; i; j; k; l; m; n; o] =>
      a ← decode a; b ← decode b; c ← decode c; d ← decode d; e ← decode e; f ← decode f; g ← decode g;
      h ← decode h; i ← decode i; j ← decode j; k ← decode k; l ← decode l; m ← decode m; n ← decode n;
      o ← decode o;
      Some (MkAppMetadata a b c d e f g h i (if j : bool then DesiredRunning else Stopped) k l m n o)
  | _ => None
  end.

Lemma codes_metadata_codes m : codes_metadata (metadata_codes m) = Some m.
Proof.
  unfold codes_metadata, metadata_codes. rewrite !decode_encode. cbn [mbind option_bind].
  by destruct m as [? ? ? ? ? ? ? ? ? [] ? ? ? ? ?].
Qed.

Definition store_digest : string := "aaaaaaaaaaaaaaaaaaaaaaaaaaaaaaaa" +:+ "aaaaaaaaaaaaaaaaaaaaaaaaaaaaaaaa".
Definition store_compose : string := "services: {}".

#[local] Existing Instance binary_uuid_text.
#[local] Existing Instance demo_crypto.

(** The header of the sample draft's release. *)
Definition store_header (hmac : string) : ReleaseV2 :=
  MkReleaseV2 6 5 20%N 7%N 2%N (cm_config_sha256 (nd_metadata sample_normal)) 30 false "ghcr.io/acme/blog:stable"
    "ghcr.io" "acme/blog" "stable" ("sha256:" +:+ store_digest) None ("sha256:" +:+ store_digest)
    ("ghcr.io/acme/blog@sha256:" +:+ store_digest) "linux" "amd64" None ("sha256:" +:+ store_digest)
    (hex (sha256 store_compose)) None RtManual None 0 hmac.

Definition release_text (r : ReleaseV2) : string :=
  rl_runnable_image_ref r +:+ rl_config_sha256 r +:+ rl_integrity_hmac r.

Definition store_signature : string := hex (hmac_sha256 "key" (sign_domain +:+ release_text (store_header ""))).

Definition store_text : StoreText.
Proof.
  refine {|
    uuid_simple := uuid_to_string;
    metadata_to_toml m := positive_digits (positives_flatten (metadata_codes m));
    metadata_of_toml s := (digits_positive s ≫= positives_unflatten) ≫= codes_metadata;
    release_to_toml := release_text;
    legacy_to_toml r := lr_runnable_image_ref r;
    release_of_toml s := if s =? release_text (store_header store_signature) then Some (store_header store_signature) else None;
    config_to_toml _ := "config";
    config_of_toml s := if s =? "config" then Some (nd_metadata sample_normal) else None;
    canonical_json := sample_json;
  |}.
  intros m. rewrite digits_positive_digits. cbn [mbind option_bind]. rewrite positives_unflatten_flatten.
  apply codes_metadata_codes.
Defined.

Definition store_compose_text : ComposeText :=
  {| yaml_to_string _ := Some store_compose; yaml_value := string; yaml_from_slice := Some |}.

#[local] Existing Instance store_text.
#[local] Existing Instance store_compose_text.

Definition store_metadata : AppMetadata :=
  MkAppMetadata 3 7%N "blog" "Blog" 2 (Some "ghcr.io/acme/blog:stable") None (Some 2%N)
    (Some (cm_config_sha256 (nd_metadata sample_normal))) Stopped true 300 5%N 0 0.

(** Identifiers whose temporary name is taken in the application's directory. *)
Definition taken (w : fs) : list N :=
  match w !! 1%N with
  | Some d => omap (fun name => strip_prefix TEMP_PREFIX name ≫= uuid_parse) (map_to_list (d_entries d)).*1
  | None => []
  end.

Definition store_host : Host := {|
  h_euid := 1000;
  h_root := 0%N;
  h_new_v4 w := fresh (taken w);
  h_now _ := 0%Z;
  h_binds := (sample_host, ["/srv/solodock"]);
|}.

Definition store_self : AppStore := MkAppStore "/data/apps" (Some "key").

(** The application before its configuration revision is published. *)
Definition store_new_app : dir := MkDir 1000 448
  {[ "pending" := ELink (release_target 20%N);
     "app.toml" := EFile 1000 384 (Some (metadata_to_toml store_metadata)) true;
     "releases" := EDir 2 ]} [].
Definition store_releases : dir := MkDir 1000 448 {[ uuid_to_string 20%N := EDir 3 ]} [].
Definition store_release : dir := MkDir 1000 448
  {[ "release.toml" := EFile 1000 384 (Some (release_text (store_header store_signature))) true;
     "compose.yaml" := EFile 1000 384 (Some store_compose) true ]} [].
Definition store_root : dir := MkDir 1000 448 {[ uuid_to_string 7%N := EDir 1 ]} [].

(** The sample draft is published as the revision the release names. *)
Definition store_publish : option (result StoreError unit) * fs :=
  run (serve store_host) (publish 1000 (app_directory 7%N) 2%N sample_normal)
    {[ 0%N := store_root; 1%N := store_new_app; 2%N := store_releases; 3%N := store_release ]}.
Definition store_fs : fs := Eval vm_compute in store_publish.2.
Definition store_app : dir := Eval vm_compute in default store_new_app (store_fs !! 1%N).

Example store_published : store_publish = (Some (Ok tt), store_fs).
Proof. by vm_compute. Qed.

Example store_loads :
  (run (serve store_host) (load_v2_release 1000 store_self 7%N 20%N) store_fs).1
  = Some (Ok (store_header store_signature)).
Proof. by vm_compute. Qed.

Lemma torn_clean (m : entries) : bool_decide (map_Forall (fun _ e => torn e = e) m) = true -> torn <$> m = m.
Proof.
  intros H%bool_decide_eq_true. apply map_eq. intros k. rewrite lookup_fmap.
  destruct (m !! k) as [e|] eqn:He; [|done]. simpl. f_equal. by apply (H k).
Qed.

(** Every directory but the application's is on disk. *)
Lemma store_quiet :
  map_Forall (fun j d => j <> 1%N -> d_older d = [] /\ torn <$> d_entries d = d_entries d) store_fs.
Proof.
  assert (bool_decide (map_Forall (fun j d => j = 1%N \/ d_older d = [] /\
    bool_decide (map_Forall (fun _ e => torn e = e) (d_entries d)) = true) store_fs) = true) as H by (by vm_compute).
  intros j d Hd Hj. apply bool_decide_eq_true in H. destruct (H j d Hd) as [|[Ho Ht]]; [done|].
  split; [done|]. by apply torn_clean.
Qed.

Lemma store_subdirs :
  map_Forall (fun name e => is_dir (Some e) <> None -> name = "releases" \/ name = "config-revisions") (d_entries store_app).
Proof. apply (bool_decide_eq_true _). by vm_compute. Qed.

Lemma store_initial :
  initial store_host 7%N 20%N 30%N None DesiredRunning store_fs 1%N store_app store_metadata.
Proof.
  split; [by vm_compute|by vm_compute|..].
  - split; [done|]. split; [done|]. constructor; [|constructor]. split; [|split; [done|]].
    + apply Before; [done..|]. by exists 384%Z.
    + intros name Ht. destruct (_ !! name) as [e|] eqn:He; [|done]. pose proof (store_subdirs _ _ He) as Hs.
      destruct e as [| |j]; [done..|]. exfalso. destruct Hs as [->| ->]; done.
  - intros j d Hj Hd. by apply (store_quiet j d).
  - intros name e He _. revert name e He. change (map_Forall (fun _ e => torn e = e) (d_entries store_app)).
    apply (bool_decide_eq_true _). by vm_compute.
Qed.

Lemma fresh_not_taken w d u :
  w !! 1%N = Some d -> u = fresh (taken w) -> d_entries d !! temp_name u = None.
Proof.
  intros Hw ->. destruct (d_entries d !! temp_name (fresh (taken w))) as [e|] eqn:He; [|done]. exfalso.
  apply (infinite_is_fresh (taken w)). unfold taken at 2. rewrite Hw. apply list_elem_of_omap.
  exists (temp_name (fresh (taken w))). split.
  - apply list_elem_of_fmap. exists (temp_name (fresh (taken w)), e). split; [done|]. by apply elem_of_map_to_list.
  - unfold temp_name. rewrite strip_prefix_append. cbn [mbind option_bind]. apply uuid_parse_to_string.
Qed.

(** Directories only refer to directories made later. *)
Definition store_rank (j : N) : nat := 100 - N.to_nat j.

Lemma store_tree : tree store_fs store_rank.
Proof.
  assert (bool_decide (map_Forall (fun j d =>
    map_Forall (fun _ e => match e with EDir k => Nat.ltb (store_rank k) (store_rank j) | _ => true end = true)
      (d_entries d)) store_fs) = true) as H by (by vm_compute).
  intros j d name k Hj Hk. apply bool_decide_eq_true in H. apply Nat.ltb_lt. exact (H j d Hj name _ Hk).
Qed.

Lemma store_available :
  available store_host store_self 7%N 20%N 30%N None DesiredRunning store_fs 1%N store_app store_metadata.
Proof.
  split.
  - done.
  - exists store_rank. exact store_tree.
  - exists 2%N, store_releases, 3%N, store_release. split; by vm_compute.
  - do 2 eexists. by vm_compute.
  - right. do 2 eexists. split; [by vm_compute|]. split; [done|]. split; [by vm_compute|]. by vm_compute.
  - by vm_compute.
  - intros d Hd. eapply fresh_not_taken; [|done]. apply lookup_insert_eq.
Qed.

(** The first attempt is stopped after [n] calls. *)
Definition store_attempt := finalize_active 1000 store_self 7%N None 20%N DesiredRunning 30%N 100.
Definition stopped_after (n : nat) : fs :=
  foldl (step store_host) store_fs (take n (run_log (serve store_host) store_attempt store_fs)).

Lemma trace_prefix {E A} (q : prog E A) tr1 tr2 o : trace q (tr1 ++ tr2) o -> trace q tr1 None.
Proof.
  revert q. induction tr1 as [|c tr1 IH]; intros q Ht; [constructor|]. simpl in Ht.
  remember (c :: tr1 ++ tr2) as l eqn:Hl. destruct Ht as [| |X e k x tr o Ht]; [done..|]. simplify_eq.
  constructor. by eapply IH.
Qed.

Lemma served_relied {A} (q : prog fsev A) n w :
  relied (step store_host) (possible store_host) w (take n (run_log (serve store_host) q w)).
Proof.
  revert n w. induction q as [a|X e k IH|]; intros [|n] w; simpl; try done. split; [by left|apply IH].
Qed.

Lemma stopped_history n :
  history store_host store_self 7%N 20%N 30%N None DesiredRunning store_fs (stopped_after n).
Proof.
  apply (HistoryAttempt _ _ _ _ _ _ _ _ _ 100 _ None); [apply HistoryStart| |apply served_relied].
  eapply trace_prefix with (tr2 := drop n _). rewrite take_drop. apply run_trace.
Qed.

(** An attempt stopped between the switch of the active link and the removal of
    the pending one. *)
Lemma publication_crash_safe_witness :
  exists d, stopped_after 27 = world store_fs 1%N d
    /\ Forall (phase store_host 20%N 30%N None DesiredRunning store_metadata) (versions d).
Proof.
  exact (proj1 (publication_crash_safe store_host store_self 7%N 20%N 30%N None DesiredRunning store_fs 1%N store_app
    store_metadata (stopped_after 27) store_initial (stopped_history 27))).
Defined.

Lemma publication_converges_witness :
  exists d', run (serve store_host) (finalize_active 1000 store_self 7%N None 20%N DesiredRunning 30%N 200) (stopped_after 27)
             = (Some (Ok tt), world store_fs 1%N d')
    /\ complete store_host 20%N 30%N DesiredRunning (d_entries d') /\ d_older d' = [].
Proof.
  exact (publication_converges store_host store_self 7%N 20%N 30%N None DesiredRunning store_fs 1%N store_app
    store_metadata (stopped_after 27) 200 store_initial store_available (stopped_history 27)).
Defined.

Lemma loaded_release_authentic_witness :
  exists key, as_integrity_key store_self = Some key
    /\ authentic_header key 7%N 20%N (store_header store_signature).
Proof.
  destruct (loaded_release_authentic 1000 store_self 7%N 20%N
    (run_log (serve store_host) (load_v2_release 1000 store_self 7%N 20%N) store_fs) (store_header store_signature))
    as (key & ? & ? & ? & ? & ? & Hk & Hh & _); [|by exists key].
  rewrite <- store_loads. apply run_trace.
Defined.
