(* ===== verification/StoreDemo.v ===== *)
(** * StoreDemo: the store from the creation of an application to its deletion

    The operations of the store evaluated one after the other on the concrete
    store of [StoreTheorems], and what a failed synchronisation of a draft
    update can lead to. *)

From S2P Require Import Prelude Text Reference Models Effects Codec Names Drafts DraftTheorems Compose FileSystem StoreBase ConfigRevision ReleaseStore RevisionFormat AppDirectories StoreSafety StoreTheorems DraftStored AtomicTree RevisionSafety RevisionLoad RevisionTheorems.
From Stdlib Require Import Ascii.

#[local] Existing Instance binary_uuid_text.
#[local] Existing Instance demo_crypto.
#[local] Existing Instance store_text.
#[local] Existing Instance store_compose_text.

(** ** Faults

    All calls are answered correctly but the [k]-th, which fails. *)

Definition fault {X} (e : fsev X) (w : fs) : X :=
  match e in fsev X return X with
  | FsSymlinkMetadata _ => Err OtherIo
  | FsReadLink _ _ | FsReadToString _ _ => Err OtherIo
  | FsCreateNew _ _ _ | FsWriteAll _ _ _ | FsSetPermissions _ _ _ | FsSyncAll _ _ | FsRename _ _ _
  | FsRenameNoReplace _ _ _ _ | FsSymlink _ _ _ | FsRemoveFile _ _ | FsCreateDir _ _ _ | FsSyncDirectory _ =>
      Err OtherIo
  | FsReadDir _ => Err OtherIo
  | e => answer store_host e w
  end.

Definition faulty (k : nat) (X : Type) (e : fsev X) (s : fs * nat) : X * (fs * nat) :=
  let x := if bool_decide (s.2 = k) then fault e s.1 else answer store_host e s.1 in
  (x, (step store_host s.1 (Obs e x), S s.2)).

Lemma fault_possible X (e : fsev X) w : possible store_host X w e (fault e w).
Proof. destruct e; simpl; (by left) || (by right; left). Qed.

Lemma faulty_possible k X (e : fsev X) s : possible store_host X s.1 e (faulty k X e s).1.
Proof. unfold faulty. simpl. case_bool_decide; [apply fault_possible|by left]. Qed.

Lemma faulty_relied {A} k (q : prog fsev A) s :
  relied (step store_host) (possible store_host) s.1 (run_log (faulty k) q s)
  /\ foldl (step store_host) s.1 (run_log (faulty k) q s) = (run (faulty k) q s).2.1.
Proof.
  revert s. induction q as [a|X e c IH|]; intros s; [done| |done]. cbn [run_log run].
  pose proof (faulty_possible k X e s) as Hp. destruct (faulty k X e s) as [x s'] eqn:Hf.
  assert (s'.1 = step store_host s.1 (Obs e x)) as Hs by (unfold faulty in Hf; by simplify_eq).
  cbn [relied foldl]. rewrite <- Hs. destruct (IH x s') as [Hr Hw]. by repeat split.
Qed.

Lemma faulty_attempt {A} k (q : prog fsev A) w r w' n :
  run (faulty k) q (w, 0) = (r, (w', n)) ->
  exists tr, trace q tr r /\ relied (step store_host) (possible store_host) w tr /\ foldl (step store_host) w tr = w'.
Proof.
  intros Hr. exists (run_log (faulty k) q (w, 0)). destruct (faulty_relied k q (w, 0)) as [H1 H2].
  pose proof (run_trace (faulty k) q (w, 0)) as Ht. rewrite Hr in Ht, H2. done.
Qed.

(** A crash that returns directory [i] to [m] and every other directory to its
    last version. *)
Definition settled (d : dir) : dir := MkDir (d_uid d) (d_mode d) (torn <$> d_entries d) [].
Definition reverted (w : fs) (i : N) (m : entries) : fs :=
  alter (fun d => MkDir (d_uid d) (d_mode d) (torn <$> m) []) i (settled <$> w).

Lemma crash_reverted w i d m : w !! i = Some d -> m ∈ versions d -> crash w (reverted w i m).
Proof.
  intros Hi Hm j. unfold reverted. destruct (decide (j = i)) as [->|Hj].
  - rewrite lookup_alter_eq, lookup_fmap, Hi. simpl. split; [done|]. split; [done|]. split; [done|]. by exists m.
  - rewrite lookup_alter_ne, lookup_fmap by done. destruct (w !! j) as [d'|]; [|done]. simpl.
    split; [done|]. split; [done|]. split; [done|]. exists (d_entries d'). split; [apply list_elem_of_In; by left|done].
Qed.

(** ** A draft update whose synchronisation failed *)

Definition unconfigured : AppMetadata :=
  MkAppMetadata 3 7%N "blog" "blog" 2 None None None None Stopped false 300 5%N 0 0.

Definition update_fs : fs :=
  {[ 0%N := store_root;
     1%N := MkDir 1000 448 {[ "app.toml" := EFile 1000 384 (Some (metadata_to_toml unconfigured)) true;
                              "config-revisions" := EDir 2; "releases" := EDir 3 ]} [];
     2%N := MkDir 1000 448 ∅ []; 3%N := MkDir 1000 448 ∅ [] ]}.

(** The sample draft as revision 9 of the application, by operation 9. *)
Definition update_sample : eprog fsev StoreError AppMetadata :=
  update_draft 1000 store_self 7%N None 9%N 9%N sample_normal 100.


(** The synchronisation of [config-revisions] is the call that fails. *)
Definition update_failed : fs := Eval vm_compute in (run (faulty 38) update_sample (update_fs, 0)).2.1.
Definition update_retried : fs := Eval vm_compute in (run (serve store_host) update_sample update_failed).2.
Definition updated : AppMetadata := with_draft unconfigured 9%N 9%N sample_normal 100.

Lemma update_attempts :
  run (faulty 38) update_sample (update_fs, 0) = (Some (Err (SeIo OtherIo)), (update_failed, 40))
  /\ run (faulty 999) update_sample (update_failed, 0) = (Some (Ok updated), (update_retried, 79)).
Proof. split; by vm_compute. Qed.

(** A draft update that is retried after a failed synchronisation can lose
    its revision: the first attempt publishes the revision, fails to
    synchronise [config-revisions] and reports an I/O error; the retry finds the
    revision, adopts it without synchronising the directory, publishes the
    metadata and succeeds; after a crash the metadata names a revision that
    does not exist. *)
Theorem retried_update_can_lose_revision :
  exists tr1 tr2 metadata w,
    trace update_sample tr1 (Some (Err (SeIo OtherIo))) /\ relied (step store_host) (possible store_host) update_fs tr1
    /\ let w1 := foldl (step store_host) update_fs tr1 in
       trace update_sample tr2 (Some (Ok metadata)) /\ relied (step store_host) (possible store_host) w1 tr2
    /\ crash (foldl (step store_host) w1 tr2) w
    /\ (run (serve store_host) (read_metadata 1000 7%N) w).1 = Some (Ok metadata)
    /\ am_draft_revision metadata = Some 9%N
    /\ resolve store_host w (app_directory 7%N ++ ["config-revisions"; uuid_to_string 9%N]) = None.
Proof.
  destruct update_attempts as [H1 H2].
  apply faulty_attempt in H1 as (tr1 & T1 & R1 & W1), H2 as (tr2 & T2 & R2 & W2).
  exists tr1, tr2, updated, (reverted update_retried 2%N ∅). rewrite W1. cbv zeta. rewrite W2.
  do 4 (split; [done|]). split; [|by vm_compute].
  by apply crash_reverted with (default (MkDir 0 0 ∅ []) (update_retried !! 2%N));
    [by vm_compute|apply (bool_decide_eq_true _); vm_compute].
Qed.

(** ** Publication after a failure and a crash *)

Lemma closed_checked (w : fs) :
  bool_decide (map_Forall (fun _ d => Forall (fun m => map_Forall (fun _ e =>
    match e with EDir k => bool_decide (is_Some (w !! k)) | _ => true end = true) m) (versions d)) w) = true -> closed w.
Proof.
  intros H%bool_decide_eq_true j d k Hj (m & name & Hm & Hk). specialize (H j d Hj). rewrite Forall_forall in H.
  apply list_elem_of_In in Hm. specialize (H m Hm name _ Hk). by apply bool_decide_eq_true in H.
Qed.

Lemma update_ready : ready store_host (uuid_to_string 7%N) 1%N 2%N 9%N update_fs.
Proof.
  split; [done|done| |by apply closed_checked; vm_compute|].
  - split; [|split; [|done]]; (eexists; split; [by vm_compute|]); by intros m ->%list_elem_of_singleton; vm_compute.
  - eexists. split; [by vm_compute|]. by intros m ->%list_elem_of_singleton.
Qed.

Definition publish_sample : eprog fsev StoreError unit := publish 1000 [uuid_to_string 7%N] 9%N sample_normal.

(** The first attempt fails half way and the machine stops; the second one
    succeeds, and the machine stops again. *)
Definition publish_failed : fs := Eval vm_compute in (run (faulty 12) publish_sample (update_fs, 0)).2.1.
Definition publish_crashed : fs := Eval vm_compute in reverted publish_failed 2%N ∅.
Definition publish_done : fs := Eval vm_compute in (run (faulty 999) publish_sample (publish_crashed, 0)).2.1.
Definition publish_restarted : fs := Eval vm_compute in reverted publish_done 1%N
  (d_entries (default (MkDir 0 0 ∅ []) (publish_done !! 1%N))).


Lemma publish_runs :
  run (faulty 12) publish_sample (update_fs, 0) = (Some (Err (SeIo OtherIo)), (publish_failed, 14))
  /\ run (faulty 999) publish_sample (publish_crashed, 0) = (Some (Ok tt), (publish_done, 36)).
Proof. split; by vm_compute. Qed.

Lemma publish_history : attempts store_host (uuid_to_string 7%N) 9%N sample_normal update_fs publish_crashed.
Proof.
  destruct publish_runs as [H1 _]. apply faulty_attempt in H1 as (tr & T & R & W). eapply AttemptsCrash.
  - eapply AttemptsPublish; [apply AttemptsStart|exact T|exact R].
  - rewrite W. change publish_crashed with (reverted publish_failed 2%N ∅).
    by eapply crash_reverted; [by vm_compute|apply (bool_decide_eq_true _); vm_compute].
Qed.

Lemma publish_restart : crash publish_done publish_restarted.
Proof.
  change publish_restarted with (reverted publish_done 1%N (d_entries (default (MkDir 0 0 ∅ []) (publish_done !! 1%N)))).
  by eapply crash_reverted; [by vm_compute|apply (bool_decide_eq_true _); vm_compute].
Qed.

Lemma revision_publication_atomic_witness :
  exists dr j, publish_restarted !! 2%N = Some dr /\ d_entries dr !! uuid_to_string 9%N = Some (EDir j)
    /\ revision_at store_host sample_normal publish_restarted j.
Proof.
  destruct publish_runs as [_ H]. apply faulty_attempt in H as (tr & T & R & W).
  refine (proj2 (revision_publication_atomic _ _ _ _ _ _ _ _ update_ready publish_history) tr _ T R _).
  rewrite W. exact publish_restart.
Defined.

Lemma sample_accepted_here :
  normalize_draft_with_options canonical_json sample_host sample_input sample_existing "key" ["/srv/solodock"] true
  = Ok sample_normal.
Proof. exact sample_accepted. Qed.

Lemma sample_existing_one_line : one_line (es_environment sample_existing).
Proof.
  intros k v Hk. simpl in Hk. repeat (apply lookup_insert_Some in Hk as [[<- <-]|[_ Hk]]; [done|]).
  by apply lookup_singleton_Some in Hk as [<- <-].
Qed.

Lemma sample_codec : config_of_toml (config_to_toml (nd_metadata sample_normal)) = Some (nd_metadata sample_normal).
Proof. done. Qed.

Lemma update_private k : k = 1%N \/ k = 2%N -> private_dir_at store_host update_fs k.
Proof. intros [->| ->]; (eexists; split; [by vm_compute|done]). Qed.

Lemma published_draft_read_back_witness :
  (run (serve store_host) (load_verified 1000 [uuid_to_string 7%N] 9%N "key") publish_restarted).1
  = Some (Ok (stored sample_normal)).
Proof.
  destruct publish_runs as [_ H]. apply faulty_attempt in H as (tr & T & R & W).
  destruct (published_draft_read_back store_host _ 1%N 2%N 9%N _ _ _ _ _ _ _ update_fs publish_crashed tr publish_restarted
    sample_accepted_here sample_existing_one_line sample_codec update_ready
    (update_private 1%N (or_introl eq_refl)) (update_private 2%N (or_intror eq_refl)) publish_history T R) as [Hl _].
  - rewrite W. exact publish_restart.
  - exact (f_equal fst Hl).
Defined.

(** ** The life of an application *)

Lemma digits_no_quote u : contains_char "'" (uuid_to_string u) = false.
Proof. destruct u as [|p]; [done|]. change (contains_char "'" (positive_digits p) = false). unfold contains_char. by induction p. Qed.

Section marker.
Context {UT : UuidText} (Hquote : forall u, contains_char "'" (uuid_to_string u) = false).

Definition parse_marker (s : string) : option DeletionMarker :=
  rest ← strip_prefix ("schema_version=1" +:+ line_feed +:+ "app_id='") s;
  '(a, rest) ← split_once "'" rest;
  rest ← strip_prefix (line_feed +:+ "operation_id='") rest;
  '(o, _) ← split_once "'" rest;
  app_id ← uuid_parse a;
  operation_id ← uuid_parse o;
  Some (MkDeletionMarker 1 app_id operation_id).

Definition quoted_tombstone_text : TombstoneText.
Proof using Hquote.
  refine {| marker_of_toml := parse_marker |}. intros a o. unfold parse_marker, deletion_marker.
  replace ("schema_version=1" +:+ line_feed +:+ "app_id='" +:+ uuid_to_string a +:+ "'" +:+ line_feed
    +:+ "operation_id='" +:+ uuid_to_string o +:+ "'" +:+ line_feed)
    with (("schema_version=1" +:+ line_feed +:+ "app_id='") +:+ uuid_to_string a
      +:+ String "'"%char ((line_feed +:+ "operation_id='") +:+ uuid_to_string o +:+ String "'"%char line_feed)) by done.
  rewrite strip_prefix_append. cbn [mbind option_bind]. rewrite split_once_append by apply Hquote.
  cbn [mbind option_bind]. rewrite strip_prefix_append. cbn [mbind option_bind].
  rewrite split_once_append by apply Hquote. cbn [mbind option_bind]. by rewrite !uuid_parse_to_string.
Defined.
End marker.

Definition demo_tombstone_text : TombstoneText := quoted_tombstone_text digits_no_quote.
#[local] Existing Instance demo_tombstone_text.

Definition demo_image : ResolvedImage :=
  MkResolvedImage "ghcr.io/acme/blog:stable" "ghcr.io" "acme/blog" "stable" ("sha256:" +:+ store_digest) None
    ("sha256:" +:+ store_digest) ("ghcr.io/acme/blog@sha256:" +:+ store_digest) (MkPlatform "linux" "amd64" None)
    ("sha256:" +:+ store_digest).

Definition empty_store : fs := {[ 0%N := MkDir 1000 448 ∅ [] ]}.

(** Create, release, activate, delete; nothing is left but the empty trash. *)
Definition lifecycle : eprog fsev StoreError (ReleaseV2 * AppMetadata) :=
  (metadata <- create_app 1000 7%N "blog" 5%N (Some (2%N, sample_normal)) 0 ;;
   release <- publish_v2_release 1000 store_self metadata 20%N demo_image RtManual None ;;
   set_pending 1000 store_self 7%N 20%N ;;;
   finalize_active 1000 store_self 7%N None 20%N DesiredRunning 30%N 100 ;;;
   metadata <- read_metadata 1000 7%N ;;
   tombstone 1000 7%N 40%N ;;;
   finalize_tombstone 1000 7%N 40%N ;;;
   eret (release, metadata))%solodock.

Definition listing (w : fs) (p : list string) : option (list string) :=
  '(_, d) ← dir_at store_host w p; Some (map_to_list (d_entries d)).*1.

Example lifecycle_completes :
  match run (serve store_host) lifecycle empty_store with
  | (Some (Ok (release, metadata)), w) =>
      release = store_header store_signature /\ am_desired_state metadata = DesiredRunning
      /\ listing w [] = Some [TRASH] /\ listing w [TRASH] = Some []
  | _ => False
  end.
Proof. by vm_compute. Qed.
