(* ===== verification/CatalogDemo.v ===== *)
(** * CatalogDemo: scans and webhooks of concrete stores

    The documents of webhooks and cleanup markers encoded injectively, as
    [StoreTheorems] does for applications; the scan of a store with one running
    application, the scan after the loss of a revision, and the configuration of
    a webhook whose synchronisation failed. *)

From S2P Require Import Prelude Text WebhookProtocol Ingress Reference Models Effects Codec Names Drafts DraftTheorems DraftStored Compose FileSystem StoreBase ConfigRevision ReleaseStore RevisionFormat AppDirectories WebhookStore Recovery CleanupStore Catalog Inspection CatalogTheorems ScanTermination StoreSafety StoreTheorems StoreDemo.
From Stdlib Require Import Sorted.

#[local] Existing Instance binary_uuid_text.
#[local] Existing Instance demo_crypto.
#[local] Existing Instance store_text.
#[local] Existing Instance store_compose_text.
#[local] Existing Instance demo_tombstone_text.

(** ** Documents *)

Definition document (codes : list positive) : string := positive_digits (positives_flatten codes).
Definition document_codes (s : string) : option (list positive) := digits_positive s ≫= positives_unflatten.

Lemma document_round_trip codes : document_codes (document codes) = Some codes.
Proof. unfold document_codes, document. rewrite digits_positive_digits. apply positives_unflatten_flatten. Qed.

Definition webhook_codes (m : WebhookMetadata) : list positive :=
  [encode (wm_schema_version m); encode (wm_app_id m); encode (wm_enabled m); encode (wm_metadata_revision m);
   encode (wm_secret_revision m); encode (wm_last_operation_id m); encode (wm_created_at m); encode (wm_updated_at m);
   encode (wm_rotated_at m); encode (wm_integrity_hmac m)].

Definition codes_webhook (l : list positive) : option WebhookMetadata :=
  match l with
  | [a; b; c; d; e; f; g; h; i; j] =>
      a ← decode a; b ← decode b; c ← decode c; d ← decode d; e ← decode e; f ← decode f; g ← decode g;
      h ← decode h; i ← decode i; j ← decode j; Some (MkWebhookMetadata a b c d e f g h i j)
  | _ => None
  end.

Definition secret_codes (r : SecretRevision) : list positive :=
  [encode (sr_schema_version r); encode (sr_app_id r); encode (sr_secret_revision r); encode (sr_operation_id r);
   encode (sr_created_at r); encode (sr_secret_hmac r); encode (sr_integrity_hmac r)].

Definition codes_secret (l : list positive) : option SecretRevision :=
  match l with
  | [a; b; c; d; e; f; g] =>
      a ← decode a; b ← decode b; c ← decode c; d ← decode d; e ← decode e; f ← decode f; g ← decode g;
      Some (MkSecretRevision a b c d e f g)
  | _ => None
  end.

Definition demo_webhook_text : WebhookText.
Proof.
  refine {| webhook_to_toml m := document (webhook_codes m); webhook_of_toml s := document_codes s ≫= codes_webhook;
            secret_to_toml r := document (secret_codes r); secret_of_toml s := document_codes s ≫= codes_secret |}.
  - intros m. rewrite document_round_trip. cbn [mbind option_bind]. unfold codes_webhook, webhook_codes.
    rewrite !decode_encode. by destruct m.
  - intros r. rewrite document_round_trip. cbn [mbind option_bind]. unfold codes_secret, secret_codes.
    rewrite !decode_encode. by destruct r.
Defined.
#[local] Existing Instance demo_webhook_text.

Definition demo_recovery_text : RecoveryText.
Proof.
  refine {| app_schema_of_toml s := am_schema_version <$> metadata_of_toml s;
            release_header_of_toml s := header_of <$> release_of_toml s |}.
  - intros s version m H E. rewrite E in H. by injection H as <-.
  - intros s header r H E. rewrite E in H. by injection H as <-.
Defined.
#[local] Existing Instance demo_recovery_text.

Definition location_code (l : CleanupTempLocation) : N := location_rank l.
Definition code_location (n : N) : CleanupTempLocation :=
  match n with 0 => AppsRoot | 1 => AppRoot | 2 => Releases | _ => ConfigRevisions end%N.

Definition artifact_codes (a : CleanupArtifact) : positive :=
  encode match a with
         | CaRelease a r c => inl (a, r, c)
         | CaConfigRevision a r => inr (inl (a, r))
         | CaTemporary a l name => inr (inr (a, location_code l, name))
         end.

Definition codes_artifact (p : positive) : option CleanupArtifact :=
  c ← decode (A := (Uuid * Uuid * Uuid) + ((Uuid * Uuid) + (option Uuid * N * string))) p;
  Some match c with
       | inl (a, r, c) => CaRelease a r c
       | inr (inl (a, r)) => CaConfigRevision a r
       | inr (inr (a, l, name)) => CaTemporary a (code_location l) name
       end.

Lemma codes_artifact_codes a : codes_artifact (artifact_codes a) = Some a.
Proof. unfold codes_artifact, artifact_codes. rewrite decode_encode. by destruct a as [| |? []]. Qed.

Definition marker_codes (m : CleanupMarker) : list positive :=
  encode (mk_schema_version m) :: encode (mk_operation_id m) :: encode (mk_plan_hash m) :: encode (mk_integrity_hmac m)
  :: map artifact_codes (mk_items m).

Definition codes_marker (l : list positive) : option CleanupMarker :=
  match l with
  | a :: b :: c :: d :: items =>
      a ← decode a; b ← decode b; c ← decode c; d ← decode d; items ← mapM codes_artifact items;
      Some (MkCleanupMarker a b c items d)
  | _ => None
  end.

Definition demo_cleanup_text : CleanupText.
Proof.
  refine {| cleanup_marker_to_toml m := document (marker_codes m);
            cleanup_marker_of_toml s := document_codes s ≫= codes_marker;
            signed_marker_toml version operation_id plan_hash items :=
              document (marker_codes (MkCleanupMarker version operation_id plan_hash items "")) |}.
  intros m. rewrite document_round_trip. cbn [mbind option_bind]. unfold codes_marker, marker_codes.
  rewrite !decode_encode. cbn [mbind option_bind].
  assert (mapM codes_artifact (map artifact_codes (mk_items m)) = Some (mk_items m)) as ->; [|by destruct m].
  induction (mk_items m) as [|a l IH]; [done|]. simpl. rewrite codes_artifact_codes. cbn [mbind option_bind]. by rewrite IH.
Defined.
#[local] Existing Instance demo_cleanup_text.

(** ** The scan of a store with one running application *)

Definition running : eprog fsev StoreError unit :=
  (metadata <- create_app 1000 7%N "blog" 5%N (Some (2%N, sample_normal)) 0 ;;
   publish_v2_release 1000 store_self metadata 20%N demo_image RtManual None ;;;
   set_pending 1000 store_self 7%N 20%N ;;;
   finalize_active 1000 store_self 7%N None 20%N DesiredRunning 30%N 100)%solodock.

Definition running_fs : fs := Eval vm_compute in (run (serve store_host) running empty_store).2.

Definition scan_demo : eprog fsev StoreError RecoveryReport := scan_store 1000 store_self 40.

Definition demo_report : RecoveryReport := Eval vm_compute in
  match (run (serve store_host) scan_demo running_fs).1 with Some (Ok r) => r | _ => MkRecoveryReport [] [] end.

Lemma scan_demo_runs : (run (faulty 999) scan_demo (running_fs, 0)).1 = Some (Ok demo_report).
Proof. by vm_compute. Qed.

Lemma scan_sound_witness :
  rr_issues demo_report = [] /\ map ra_app_id (rr_valid_apps demo_report) = [7%N]
  /\ map ra_active_release_id (rr_valid_apps demo_report) = [Some 20%N]
  /\ Forall (app_sound store_host running_fs store_self "key") (rr_valid_apps demo_report).
Proof.
  do 3 (split; [done|]). destruct (run (faulty 999) scan_demo (running_fs, 0)) as [r [w n]] eqn:E.
  pose proof scan_demo_runs as Hr. rewrite E in Hr. simpl in Hr. subst r.
  apply faulty_attempt in E as (tr & T & R & _).
  exact (proj1 (proj2 (scan_sound store_host running_fs store_self 40 "key" eq_refl tr demo_report T R))).
Defined.

Lemma scan_returns_witness : exists n, forall fuel, n <= fuel ->
  exists outcome, (run (serve store_host) (scan_store 1000 store_self fuel) running_fs).1 = Some outcome.
Proof.
  destruct (scan_returns store_host running_fs store_self) as [n Hn].
  - apply (ordered_acyclic 1000). vm_compute. reflexivity.
  - exists n. intros fuel Hf. exact (proj2 (Hn fuel Hf)).
Defined.

(** ** The loss of a revision stops the scan *)

(** The store of [retried_update_can_lose_revision], after the crash. *)
Definition lost_fs : fs := Eval vm_compute in reverted update_retried 2%N ∅.

Lemma missing_revision_stops_scan_witness :
  permission_error (A := result string unit) (Err (SePermission (PeIo NotFound)))
  /\ (run (serve store_host) scan_demo lost_fs).1 = Some (Err (SePermission (PeIo NotFound))).
Proof.
  split; [|by vm_compute].
  assert (run (faulty 999) (expect_revision 1000 store_self [uuid_to_string 7%N] 9%N "" "CONFIG_REVISION_INVALID"
    (Some "CONFIG_REVISION_MISSING") (fun _ => cret tt)) (lost_fs, 0)
    = (Some (Err (SePermission (PeIo NotFound))), (lost_fs, 3))) as E by (by vm_compute).
  apply faulty_attempt in E as (tr & T & R & _).
  eapply (missing_revision_stops_scan store_host lost_fs store_self [uuid_to_string 7%N] 9%N "" "CONFIG_REVISION_INVALID"
    (Some "CONFIG_REVISION_MISSING") (fun _ => cret tt)); [by vm_compute|]. by exists tr.
Defined.

(** ** A webhook whose synchronisation failed *)

(** The webhook of the running application, configured by operation 60. *)
Definition configure_demo : eprog fsev StoreError WebhookMetadata := configure 1000 "key" 7%N None 60%N demo_secret.

(** The synchronisation of [webhook-secret-revisions] is the call that fails. *)
Definition configure_failed : fs := Eval vm_compute in (run (faulty 22) configure_demo (running_fs, 0)).2.1.
Definition configure_retried : fs := Eval vm_compute in (run (faulty 999) configure_demo (configure_failed, 0)).2.1.
Definition configured_webhook : WebhookMetadata := Eval vm_compute in
  match (run (serve store_host) configure_demo running_fs).1 with
  | Some (Ok m) => m
  | _ => MkWebhookMetadata 0 0 false 0 None 0 0 0 None ""
  end.

Lemma configure_attempts :
  run (faulty 22) configure_demo (running_fs, 0) = (Some (Err (SeIo OtherIo)), (configure_failed, 23))
  /\ run (faulty 999) configure_demo (configure_failed, 0) = (Some (Ok configured_webhook), (configure_retried, 46)).
Proof. split; by vm_compute. Qed.

(** The configuration of a webhook that is retried after a failed
    synchronisation can lose its secret: the first attempt publishes the secret,
    fails to synchronise the directory of secrets and reports an I/O error; the
    retry adopts the secret without synchronising the directory, publishes
    [webhook.toml] and succeeds; after a crash the metadata names a secret that
    does not exist, the webhook is degraded and no request can be verified. *)
Theorem retried_configure_can_lose_secret :
  exists tr1 tr2 metadata w,
    trace configure_demo tr1 (Some (Err (SeIo OtherIo))) /\ relied (step store_host) (possible store_host) running_fs tr1
    /\ let w1 := foldl (step store_host) running_fs tr1 in
       trace configure_demo tr2 (Some (Ok metadata)) /\ relied (step store_host) (possible store_host) w1 tr2
    /\ crash (foldl (step store_host) w1 tr2) w
    /\ (run (serve store_host) (load_metadata 1000 "key" 7%N) w).1 = Some (Ok metadata)
    /\ wm_secret_revision metadata = Some 60%N
    /\ resolve store_host w (webhook_revisions 7%N ++ [uuid_to_string 60%N]) = None
    /\ (ws_degraded <$> (run (serve store_host) (status 1000 "key" 7%N) w).1 ≫= result_ok) = Some true
    /\ (run (serve store_host) (load_current_webhook 1000 "key" 7%N) w).1 = Some (Err (SePermission (PeIo NotFound))).
Proof.
  destruct configure_attempts as [H1 H2].
  apply faulty_attempt in H1 as (tr1 & T1 & R1 & W1), H2 as (tr2 & T2 & R2 & W2).
  exists tr1, tr2, configured_webhook, (reverted configure_retried 11%N ∅). rewrite W1. cbv zeta. rewrite W2.
  do 4 (split; [done|]). split; [|by vm_compute].
  by apply crash_reverted with (default (MkDir 0 0 ∅ []) (configure_retried !! 11%N));
    [by vm_compute|apply (bool_decide_eq_true _); vm_compute].
Qed.

(** *** A webhook that was configured without a failure *)

Definition configured_fs : fs := Eval vm_compute in (run (serve store_host) configure_demo running_fs).2.

Lemma current_webhook_sound_witness :
  exists revision, wm_secret_revision configured_webhook = Some revision
    /\ secret_sound store_host configured_fs "key" 7%N revision demo_secret.
Proof.
  assert ((run (faulty 999) (load_current_webhook 1000 "key" 7%N) (configured_fs, 0)).1
    = Some (Ok (MkLoadedWebhook configured_webhook demo_secret))) as Hr by (by vm_compute).
  destruct (run (faulty 999) _ _) as [r [w n]] eqn:E in Hr. simpl in Hr. subst r.
  apply faulty_attempt in E as (tr & T & R & _).
  exact (proj2 (proj2 (current_webhook_sound store_host configured_fs "key" 7%N
    (MkLoadedWebhook configured_webhook demo_secret) (ex_intro _ tr (conj T R))))).
Defined.
