(* ===== verification/RunTheorems.v ===== *)
(** * RunTheorems: what a cleanup operation may take

    Programs over files and tables with the state of both as the journal: every
    call is acceptable in the state it is made in. *)

From S2P Require Import Prelude Text WebhookProtocol Ingress Reference Models Effects Codec Names Drafts Compose Database Ledger PollStates Idempotency FileSystem StoreBase ConfigRevision ReleaseStore AppDirectories WebhookStore Recovery CleanupStore Maintenance Lifecycle Catalog Inspection CleanupPlanner CleanupRun MixedInspection CatalogTheorems PlanTheorems.

(** ** Calls that stay in the trash *)

Definition trashed (p : path) : Prop := head p = Some CLEANUP_TRASH_DIRECTORY.

(** A call that reads, synchronises or changes nothing but the trash. *)
Definition tidy {X} (e : fsev X) : Prop :=
  match e with
  | FsCreateNew p _ _ | FsWriteAll p _ _ | FsSetPermissions p _ _ | FsSyncAll p _ | FsRename p _ _ | FsSymlink _ p _
  | FsRemoveFile p _ | FsRemoveDirAll p _ | FsRemoveDir p _ => trashed p
  | FsCreateDir p name _ => trashed (p ++ [name])
  | FsRenameNoReplace p _ q _ => trashed p /\ trashed q
  | _ => True
  end.

Lemma reads_tidy {X} (e : fsev X) : reads e = true -> tidy e.
Proof. by destruct e. Qed.

Section tidy_programs.
Context {UT : UuidText} {ST : StoreText} {CR : Crypto} {CT : CleanupText}.
Context (euid : Z) (self : AppStore) (fuel : nat).

Abbreviation tidies := (calls_only (@tidy)).

Lemma inspects_tidies {A} (q : prog fsev A) : inspects q -> tidies q.
Proof.
  induction q as [a|X e k IH|]; simpl; [done| |done]. intros [He Hk]. split; [by apply reads_tidy|]. intros x. by apply IH.
Qed.

Lemma tidies_ebind {A B} (q : eprog fsev StoreError A) (f : A -> eprog fsev StoreError B) :
  tidies q -> (forall a, tidies (f a)) -> tidies (ebind q f).
Proof. intros Hq Hf. apply calls_only_bind; [done|]. by intros [a|e]. Qed.

Lemma tidies_try {F X} (e : fsev (result F X)) (f : F -> StoreError) : tidy e -> tidies (try_call e f).
Proof. intros He. split; [done|]. by intros [x|r]. Qed.

Lemma tidies_sync p : tidies (sync_directory p).
Proof. by apply tidies_try. Qed.
End tidy_programs.

Create HintDb tidies.
#[export] Hint Resolve tidies_sync : tidies.
#[export] Hint Resolve inspects_check_private inspects_check_private_tree inspects_cleanup_source inspects_cleanup_marker
  inspects_exists inspects_logical_bytes : tidies.

Ltac tidy1 :=
  match goal with
  | |- forall _, _ => intros ?
  | |- calls_only _ (Ret _) => exact I
  | |- calls_only _ OutOfFuel => exact I
  | |- calls_only _ (eret _) => exact I
  | |- calls_only _ (fail _) => exact I
  | |- calls_only _ (lift _) => exact I
  | |- _ /\ _ => split; [done|]
  | |- calls_only _ (Vis _ _) => split; [done|]
  | |- calls_only _ (ebind _ _) => apply tidies_ebind
  | |- calls_only _ (prog_bind _ _) => apply calls_only_bind
  | |- calls_only _ (io _) => apply tidies_try; done
  | |- calls_only _ (try_call _ _) => apply tidies_try; done
  | |- calls_only _ _ => solve [eauto 2 with tidies nocore]
  | |- calls_only _ (match ?x with _ => _ end) => destruct x
  | |- calls_only _ _ => apply inspects_tidies; solve [inspect; eauto 2 with tidies nocore]
  end.
Ltac tidy := repeat (cbv zeta; tidy1).

Section tidy_store.
Context {UT : UuidText} {ST : StoreText} {CR : Crypto} {CT : CleanupText}.
Context (euid : Z) (self : AppStore) (fuel : nat).

Abbreviation tidies := (calls_only (@tidy)).

Lemma tidies_remove_preparation name : tidies (remove_incomplete_preparation euid fuel name).
Proof. unfold remove_incomplete_preparation, remove_dir_all. tidy. Qed.

Lemma tidies_write_temp p name contents mode : trashed p -> tidies (atomic_write p name contents mode).
Proof. intros Hp. unfold atomic_write, removing_on_error. tidy. Qed.

Lemma tidies_build op hash items name : tidies (build_tombstone self op hash items name).
Proof. unfold build_tombstone, create_dir, rename_no_replace, integrity_key. tidy. by apply tidies_write_temp. Qed.

Lemma tidies_prepare op hash items : tidies (prepare_cleanup_tombstone euid self fuel op hash items).
Proof.
  unfold prepare_cleanup_tombstone, ensure_trash_root, create_dir, undoing_preparation.
  pose proof tidies_remove_preparation. pose proof tidies_build. tidy; auto.
Qed.

Lemma tidies_retire op : tidies (retire_marker op).
Proof. unfold retire_marker, unless_missing, rename_no_replace. tidy. Qed.

Lemma tidies_finalize op : tidies (finalize_cleanup_tombstone euid self fuel op).
Proof. unfold finalize_cleanup_tombstone, unless_missing. pose proof tidies_retire. tidy; auto. Qed.

Lemma tidies_sync_retirement op : tidies (sync_cleanup_retirement euid op).
Proof. unfold sync_cleanup_retirement, require_missing. tidy. Qed.
End tidy_store.

(** ** States along a run *)

Section taking.
Context {UT : UuidText} {ST : StoreText} {CR : Crypto} {CT : ComposeText} {WT : WebhookText} {RT : RecoveryText}
  {KT : CleanupText} {TT : TombstoneText} {TM : SqlTime} {MJ : MaintenanceJson}.
Context (h : Host) (self : AppStore) (fuel : nat).
Context (operation_id : Uuid) (candidates : list CleanupCandidate) (eligible : option (list CleanupArtifact)).

Abbreviation euid := (h_euid h).
Abbreviation payload := (payload_path operation_id).

Definition found (w : fs) (p : path) : option entry := walk w (EDir (h_root h)) p.

(** No crash can undo a change of the directory. *)
Definition settled (w : fs) (p : path) : Prop := exists i d, dir_at h w p = Some (i, d) /\ d_older d = [].

(** The artifact is in the payload, no longer where it was, and both are durable. *)
Definition set_aside (w : fs) (ordinal : nat) (a : CleanupArtifact) : Prop :=
  exists source, artifact_location a = Ok source /\ found w (source.1 ++ [source.2]) = None
    /\ is_Some (found w (payload ++ [pretty (Z.of_nat ordinal)])) /\ settled w source.1 /\ settled w payload.

(** The item is recorded as detached. *)
Definition gone (t : Tables) (ordinal : nat) : Prop :=
  exists row, row ∈ tb_items t !!! operation_id /\ si_ordinal row = Z.of_nat ordinal /\ si_status row = ItDetached.

(** No release of the plan that comes earlier and uses the revision stays. *)
Definition unused (t : Tables) (ordinal : nat) (a : CleanupArtifact) : Prop :=
  forall app_id revision_id, a = CaConfigRevision app_id revision_id ->
  forall j c release_id, j < ordinal -> candidates !! j = Some c -> cc_artifact c = CaRelease app_id release_id revision_id ->
  gone t j.

(** The rename of an item into the payload. *)
Definition takes (s : fs * Tables) {X} (e : fsev X) : Prop :=
  exists ordinal c source, candidates !! ordinal = Some c /\ artifact_location (cc_artifact c) = Ok source
    /\ (forall l, eligible = Some l -> cc_artifact c ∈ l) /\ unused s.2 ordinal (cc_artifact c)
    /\ match e with
       | FsRenameNoReplace p name q target =>
           p = source.1 /\ name = source.2 /\ q = payload /\ target = pretty (Z.of_nat ordinal)
       | _ => False
       end.

Definition acceptable (X : Type) (s : fs * Tables) (e : mev X) : Prop :=
  match e with
  | OnFiles e => tidy e \/ takes s e
  | OnDb (DbRecordDetached operation ordinal c _) =>
      operation = operation_id /\ candidates !! ordinal = Some c /\ set_aside s.1 ordinal (cc_artifact c)
  | OnDb _ => True
  end.

Abbreviation safe := (safe (mstep h) acceptable (mpossible h) True).

#[local] Instance acceptable_lenient : Lenient acceptable.
Proof. intros X s e He. destruct e as [X e|X e]; simpl in He; [left; by apply reads_tidy|by destruct e]. Qed.

Abbreviation safe_reads := (MixedInspection.safe_reads h acceptable).
Abbreviation safe_read_then := (MixedInspection.safe_read_then h acceptable).

Lemma safe_tidies {A} (q : prog fsev A) s (Q : fs * Tables -> A -> Prop) :
  calls_only (@tidy) q -> (forall w a, Q (w, s.2) a) -> safe (embed q) s Q.
Proof.
  revert s. induction q as [a|X e k IH|]; intros [w t]; cbn [embed Effects.safe calls_only]; [by intros _ HQ| |done].
  intros [He Hk] HQ. split; [by left|]. intros x _. by apply IH.
Qed.

(** *** Synchronising *)

Lemma walk_same w i d d' k p : w !! i = Some d -> d_entries d' = d_entries d ->
  walk (<[i := d']> w) (EDir k) p = walk w (EDir k) p.
Proof.
  intros Hi He. revert k. induction p as [|c p IH]; intros k; [done|]. simpl. destruct (decide (k = i)) as [->|Hk].
  - rewrite lookup_insert_eq, Hi. simpl. rewrite He. destruct (d_entries d !! c) as [[| |j]|]; simpl; try done; by destruct p.
  - rewrite lookup_insert_ne by done. destruct (w !! k) as [dk|]; simpl; [|done].
    destruct (d_entries dk !! c) as [[| |j]|]; simpl; try done; by destruct p.
Qed.

(** Nothing moves, and what was durable stays so. *)
Definition steady (w w' : fs) : Prop := (forall p, found w' p = found w p) /\ (forall p, settled w p -> settled w' p).

Lemma steady_refl w : steady w w.
Proof. done. Qed.

Lemma steady_trans w1 w2 w3 : steady w1 w2 -> steady w2 w3 -> steady w1 w3.
Proof. intros [H1 H2] [H3 H4]. split; [intros p; by rewrite H3, H1|auto]. Qed.

Lemma steady_sync w i d : w !! i = Some d -> steady w (<[i := synced d]> w).
Proof.
  intros Hi. split; [intros p; by apply walk_same with d|]. intros p (j & dj & Hd & Ho). apply dir_at_lookup in Hd as [Hr Hj].
  exists j, (if decide (j = i) then synced d else dj). unfold dir_at, resolve. rewrite (walk_same w i d) by done.
  fold (resolve h w p). rewrite Hr. simpl. case_decide as E; [subst|]; [by rewrite lookup_insert_eq|by rewrite lookup_insert_ne, Hj].
Qed.

Lemma safe_sync p s (Q : fs * Tables -> result StoreError unit -> Prop) :
  (forall w r, steady s.1 w -> (r = Ok tt -> settled w p) -> Q (w, s.2) r) -> safe (embed (sync_directory p)) s Q.
Proof.
  intros HQ. split; [by left|]. intros r Hr. destruct s as [w t]. cbn [mstep fst snd step target_of succeeded change clobber].
  unfold update_at. destruct (dir_at h w p) as [[i d]|] eqn:Hd.
  - apply dir_at_lookup in Hd as Hd'. destruct Hd' as [Hres Hi]. destruct r as [[]|kind]; cbn.
    + apply (HQ _ (Ok tt)); [by apply steady_sync|]. intros _. exists i, (synced d). split; [|done].
      apply dir_at_insert with d; [done|by intros name|done].
    + rewrite insert_id by done. by apply (HQ w (Err (SeIo kind))).
  - destruct r as [[]|kind]; cbn; [|by apply (HQ w (Err (SeIo kind)))].
    destruct Hr as [Hr|[Hr|[]]]; [|done]. cbn [answer fst] in Hr. by rewrite Hd in Hr.
Qed.

Lemma safe_sync_then {B} p (f : unit -> eprog fsev StoreError B) s Q :
  (forall w e, steady s.1 w -> Q (w, s.2) (Err e)) ->
  (forall w, steady s.1 w -> settled w p -> safe (embed (f tt)) (w, s.2) Q) ->
  safe (embed (ebind (sync_directory p) f)) s Q.
Proof. intros He HQ. apply safe_embed_ebind, safe_sync. intros w [[]|e] Hs Hp; [by apply HQ; auto|by apply He]. Qed.

(** *** Detaching *)

Lemma identity_missing w p : may_return h w (file_identity_if_exists p) (Ok None) -> found w p = None.
Proof.
  intros ([id|[]] & Hx & Hr%may_ret)%may_vis; try done. unfold found. destruct Hx as [Hx|[Hx|Hx]]; [|done|].
  - cbn [answer] in Hx. by destruct (walk _ _ _).
  - simpl in Hx. by destruct (walk _ _ _) as [[]|]; [destruct Hx..|].
Qed.

Lemma identity_present w p id : may_return h w (file_identity_if_exists p) (Ok (Some id)) -> is_Some (found w p).
Proof.
  intros ([id'|[]] & Hx & Hr%may_ret)%may_vis; try done. unfold found. destruct Hx as [Hx|[Hx|Hx]]; [| done |].
  - cbn [answer] in Hx. by destruct (walk _ _ _).
  - simpl in Hx. by destruct (walk _ _ _).
Qed.
Lemma inspects_identity p : inspects (file_identity_if_exists p).
Proof. unfold file_identity_if_exists. inspect. Qed.
Hint Resolve inspects_identity : inspects.

(** What the item may be taken for: it is eligible or no longer there. *)
Definition takeable (s : fs * Tables) (ordinal : nat) (c : CleanupCandidate) : Prop :=
  candidates !! ordinal = Some c /\ unused s.2 ordinal (cc_artifact c)
  /\ forall l source, eligible = Some l -> artifact_location (cc_artifact c) = Ok source ->
       is_Some (found s.1 (source.1 ++ [source.2])) -> cc_artifact c ∈ l.

Lemma source_location a source w : may_return h w (cleanup_source_path euid a) (Ok source) -> artifact_location a = Ok source.
Proof.
  unfold cleanup_source_path. intros (x & Hx & H)%may_lift. apply may_ebind in H as (_ & _ & E%may_ret); [|apply inspects_check_private_tree].
  by injection E as ->.
Qed.

Definition detached_post (t : Tables) (ordinal : nat) (a : CleanupArtifact) (s : fs * Tables) (r : result StoreError DetachResult) : Prop :=
  s.2 = t /\ (r = Ok Detached \/ r = Ok AlreadyDetached -> set_aside s.1 ordinal a).

(** The artifact is found in the payload only: it is durable there after both
    synchronisations. *)
Lemma safe_settle s t ordinal a source (x : DetachResult) :
  s.2 = t -> artifact_location a = Ok source -> found s.1 (source.1 ++ [source.2]) = None ->
  is_Some (found s.1 (payload ++ [pretty (Z.of_nat ordinal)])) ->
  safe (embed (ebind (sync_cleanup_rename source.1 payload) (fun _ => eret x))) s (detached_post t ordinal a).
Proof.
  intros <- Hl Hs Hp. unfold sync_cleanup_rename. apply safe_embed_ebind, safe_sync_then.
  { intros w e _. split; [done|]. by intros []. }
  intros w1 [S1 S2] H1. apply safe_sync. intros w2 [[]|e] [S3 S4] H2; [|by split; [|intros []]]. split; [done|]. intros _.
  exists source. cbn [fst]. split; [done|]. split; [by rewrite S3, S1|]. split; [by rewrite S3, S1|]. auto.
Qed.
Lemma safe_detach s ordinal c : takeable s ordinal c ->
  safe (embed (detach_cleanup_artifact euid self fuel operation_id ordinal (cc_artifact c))) s
    (detached_post s.2 ordinal (cc_artifact c)).
Proof.
  intros (Hc & Hu & He). assert (forall s' e, s'.2 = s.2 -> detached_post s.2 ordinal (cc_artifact c) s' (Err e)) as Herr
    by (intros s' e E; split; [done|by intros []]).
  unfold detach_cleanup_artifact. apply safe_read_then; [apply inspects_cleanup_marker|auto|]. intros marker _.
  apply safe_read_then; [done|auto|]. intros [] _.
  apply safe_read_then; [unfold cleanup_source_path; inspect; apply inspects_check_private_tree|auto|].
  intros source Hl%source_location. cbv zeta.
  apply safe_read_then; [apply inspects_identity|auto|]. intros before Hb.
  apply safe_read_then; [apply inspects_identity|auto|]. intros there Ht.
  destruct before as [id|], there as [id'|]; [by apply Herr| | |by split; [|intros []]].
  - apply identity_present in Hb. apply safe_read_then; [apply inspects_logical_bytes|auto|]. intros bytes _.
    apply safe_read_then; [by apply inspects_try|auto|]. intros identity _. apply safe_read_then; [done|auto|]. intros [] _.
    apply safe_embed_bind. split.
    { right. exists ordinal, c, source. repeat split; try done. intros l El. by apply He with source. }
    intros r _. destruct s as [w t]. cbn [mstep fst snd]. generalize (step h w (Obs (FsRenameNoReplace source.1 source.2 payload
      (pretty (Z.of_nat ordinal))) r)) as w1. intros w1. destruct r as [[]|kind]; cbn [embed Effects.safe].
    + apply safe_read_then; [apply inspects_identity|auto|]. intros after Ha. apply safe_read_then; [done|auto|].
      intros [] Hr%may_ret. apply safe_read_then; [apply inspects_identity|auto|]. intros after' Ha'. apply safe_read_then; [done|auto|].
      intros [] Hr'%may_ret. apply refuse_if_ok in Hr, Hr'. destruct after; [done|]. apply identity_missing in Ha.
      destruct after'; [|done]. apply identity_present in Ha'. by apply safe_settle.
    + apply safe_read_then; [apply inspects_identity|auto|]. intros after Ha.
      apply safe_read_then; [apply inspects_identity|auto|]. intros after' Ha'.
      destruct (_ && _); [by split; [|intros []]|]. destruct after; [by apply Herr|]. simpl (is_none None && _).
      destruct after'; [|by apply Herr]. apply identity_missing in Ha. apply identity_present in Ha'.
      destruct (_ =? _); [|by apply Herr]. by apply safe_settle.
  - apply safe_read_then; [apply inspects_logical_bytes|auto|]. intros bytes _. apply identity_missing in Hb.
    apply identity_present in Ht. by apply safe_settle.
Qed.

(** *** Progress in the tables *)

Lemma or_invalid_safe {E A} (q : eprog mev E A) s Q :
  safe q s (fun s' r => Q s' (map_err (fun _ => CeRecordInvalid) r)) -> safe (or_invalid q) s Q.
Proof. intros H. unfold or_invalid. apply safe_bind. exact H. Qed.

Lemma gone_items t t' j : (forall row, row ∈ tb_items t !!! operation_id -> si_status row = ItDetached ->
    row ∈ tb_items t' !!! operation_id) -> gone t j -> gone t' j.
Proof. intros H (row & Hr & Ho & Hs). exists row. auto. Qed.

Lemma set_item_detached ordinal status code t j : gone t j -> gone (set_item operation_id ordinal status code t).2 j.
Proof.
  apply gone_items. intros row Hr Hs. cbn. rewrite lookup_total_insert_eq. apply list_elem_of_fmap. exists row.
  split; [|done]. unfold is_planned_item. by rewrite Hs, andb_false_r.
Qed.

Lemma set_item_gone ordinal t : (set_item operation_id ordinal ItDetached None t).1 = 1 ->
  gone (set_item operation_id ordinal ItDetached None t).2 ordinal.
Proof.
  cbn. intros H. destruct (filter _ _) as [|row l] eqn:E; [done|].
  assert (row ∈ row :: l) as Hin by (by left). rewrite <- E in Hin. apply list_elem_of_filter in Hin as [Hp Hin].
  exists (row <| si_status := ItDetached |> <| si_error_code := None |>). split; [|split; [|done]].
  - cbn. rewrite lookup_total_insert_eq. apply list_elem_of_fmap. exists row. by rewrite Hp.
  - cbn. unfold is_planned_item in Hp. apply andb_true_iff in Hp as [Hp _]. by apply Z.eqb_eq in Hp.
Qed.

Lemma record_detached_gone ordinal c at_ t t' : record_detached_tx operation_id ordinal c at_ t = Some t' ->
  gone t' ordinal /\ forall j, gone t j -> gone t' j.
Proof.
  unfold record_detached_tx. destruct (set_item operation_id ordinal ItDetached None t) as [n t1] eqn:E.
  destruct (n =? 1)%nat eqn:En; [|done]. apply Nat.eqb_eq in En. intros H. assert (tb_items t' = tb_items t1) as Ei.
  { simpl in H. repeat case_match; by simplify_eq. }
  assert (forall j, gone t1 j -> gone t' j) as Hk. { intros j. apply gone_items. intros row Hr _. by rewrite Ei. }
  pose proof (set_item_gone ordinal t) as H1. rewrite E in H1. split; [apply Hk, H1, En|]. intros j Hj. apply Hk.
  pose proof (set_item_detached ordinal ItDetached None t j Hj) as H2. by rewrite E in H2.
Qed.

Lemma item_status_gone ordinal t : (db_exec (DbItemStatus operation_id ordinal) t).1 = Some ItDetached -> gone t ordinal.
Proof.
  cbn. intros H. destruct (filter _ _) as [|row l] eqn:E; [done|].
  assert (row ∈ row :: l) as Hin by (by left). rewrite <- E in Hin. apply list_elem_of_filter in Hin as [Hp Hin].
  injection H as Hs. by exists row.
Qed.

(** Before item [n]: the revision of a release that was not detached stays. *)
Definition kept_before (t : Tables) (n : nat) (failed : gset (Uuid * Uuid)) : Prop :=
  forall j c app_id release_id revision_id, j < n -> candidates !! j = Some c ->
    cc_artifact c = CaRelease app_id release_id revision_id -> gone t j \/ (app_id, revision_id) ∈ failed.

Lemma kept_mono t t' n failed : (forall j, gone t j -> gone t' j) -> kept_before t n failed -> kept_before t' n failed.
Proof. intros H Hk j c a r v Hj Hc Ha. destruct (Hk j c a r v Hj Hc Ha); auto. Qed.

Lemma kept_gone t n failed : gone t n -> kept_before t n failed -> kept_before t (S n) failed.
Proof.
  intros H Hk j c a r v Hj Hc Ha. destruct (decide (j = n)) as [->|]; [by left|]. by eapply Hk; [lia|..].
Qed.

Lemma kept_retained t n failed c : candidates !! n = Some c -> kept_before t n failed ->
  kept_before t (S n) (keep_revision (cc_artifact c) failed).
Proof.
  intros Hn Hk j c' a r v Hj Hc Ha. destruct (decide (j = n)) as [->|].
  - right. replace c' with c in * by congruence. rewrite Ha. simpl. set_solver.
  - destruct (Hk j c' a r v ltac:(lia) Hc Ha) as [|Hf]; [by left|right]. destruct (cc_artifact c); simpl; set_solver.
Qed.

Lemma kept_other t n failed c : candidates !! n = Some c -> (forall a r v, cc_artifact c <> CaRelease a r v) ->
  kept_before t n failed -> kept_before t (S n) failed.
Proof.
  intros Hn Hr Hk j c' a r v Hj Hc Ha. destruct (decide (j = n)) as [->|]; [|by eapply Hk; [lia|..]].
  exfalso. apply (Hr a r v). congruence.
Qed.

Lemma kept_unused t n failed a : kept_before t n failed -> revision_kept a failed = false -> unused t n a.
Proof.
  intros Hk Hr app_id revision_id -> j c r Hj Hc Ha. simpl in Hr. apply bool_decide_eq_false in Hr.
  by destruct (Hk j c app_id r revision_id Hj Hc Ha).
Qed.

(** *** Items *)

Definition item_post (n : nat) (s : fs * Tables) (r : result CleanupError (gset (Uuid * Uuid))) : Prop :=
  forall failed, r = Ok failed -> kept_before s.2 n failed.

(** A failure is recorded and the item stays. *)
Lemma safe_failure (n : nat) (s : fs * Tables) (code : string) (x : gset (Uuid * Uuid)) :
  (forall t, (forall j, gone s.2 j -> gone t j) -> kept_before t (S n) x) ->
  safe (ebind (or_invalid (record_item_failure operation_id n code)) (fun _ => eret x)) s (item_post (S n)).
Proof.
  intros H. apply safe_ebind, or_invalid_safe. unfold record_item_failure. apply safe_ebind, safe_query; [done|done|].
  intros changed _. cbn [db_exec]. destruct (refuse_if _ _) as [[]|e]; [|done]. intros failed [= <-]. apply H.
  intros j. apply (set_item_detached n ItFailed (Some code)).
Qed.

Lemma safe_retain n s c code failed : candidates !! n = Some c -> kept_before s.2 n failed ->
  safe (ebind (or_invalid (record_item_failure operation_id n code)) (fun _ => eret (keep_revision (cc_artifact c) failed)))
    s (item_post (S n)).
Proof. intros Hc Hk. apply safe_failure. intros t Ht. apply kept_retained; [done|]. by eapply kept_mono. Qed.

Lemma safe_record n s c failed : candidates !! n = Some c -> set_aside s.1 n (cc_artifact c) -> kept_before s.2 n failed ->
  safe (ebind (or_invalid (record_detached operation_id n c)) (fun _ => eret failed)) s (item_post (S n)).
Proof.
  intros Hc Ha Hk. apply safe_ebind, or_invalid_safe. unfold record_detached. apply safe_ebind, safe_reads.
  { unfold now. minspect. }
  intros [at_|e] _; [|done]. apply safe_query; [done|done|]. intros [] Hx. simpl. intros x [= <-].
  simpl in Hx. destruct (record_detached_tx operation_id n c at_ s.2) as [t'|] eqn:E; [|done].
  cbn [fst snd]. apply record_detached_gone in E as [H1 H2]. apply kept_gone; [done|]. by eapply kept_mono.
Qed.

Lemma inspects_is_detached n a : inspects (cleanup_artifact_is_detached euid self fuel operation_id n a).
Proof.
  unfold cleanup_artifact_is_detached, cleanup_source_path. pose proof (inspects_cleanup_marker euid self fuel).
  pose proof (inspects_check_private_tree euid). pose proof inspects_identity. pose proof (inspects_logical_bytes euid fuel).
  inspect; auto.
Qed.

Lemma minspects_newly n a : minspects (newly_protected euid self fuel operation_id n a eligible).
Proof.
  unfold newly_protected, or_invalid, stored. destruct eligible; [|done]. case_bool_decide; [done|].
  apply minspects_ebind; [|done]. apply minspects_bind; [|done]. apply minspects_files, inspects_is_detached.
Qed.

Lemma is_detached_missing w n a source : may_return h w (cleanup_artifact_is_detached euid self fuel operation_id n a) (Ok true) ->
  artifact_location a = Ok source -> found w (source.1 ++ [source.2]) = None.
Proof.
  intros H Hl. unfold cleanup_artifact_is_detached in H. apply may_ebind in H as (marker & _ & H); [|apply inspects_cleanup_marker].
  apply may_lift in H as ([] & _ & H). apply may_ebind in H as (source' & Hs%source_location & H);
    [|unfold cleanup_source_path; inspect; apply inspects_check_private_tree].
  replace source' with source in * by congruence. apply may_ebind in H as ([id|] & Hi & H); [|  |apply inspects_identity].
  - apply may_ebind in H as ([id'|] & _ & H%may_ret); [done|done|apply inspects_identity].
  - by apply identity_missing.
Qed.

Lemma not_protected s n c failed : candidates !! n = Some c -> kept_before s.2 n failed ->
  revision_kept (cc_artifact c) failed = false ->
  returns h s.1 s.2 (newly_protected euid self fuel operation_id n (cc_artifact c) eligible) (Ok false) ->
  takeable s n c.
Proof.
  intros Hc Hk Hr Hn. split; [done|]. split; [by eapply kept_unused|]. intros l source El Hl [e He].
  unfold newly_protected, or_invalid, stored in Hn. rewrite El in Hn. case_bool_decide as Hin; [done|]. exfalso.
  assert (minspects (files CeStore (cleanup_artifact_is_detached euid self fuel operation_id n (cc_artifact c)))) as Hi
    by apply minspects_files, inspects_is_detached.
  apply ebind_returns in Hn as (detached & Hd & E%ret_returns); [|by apply minspects_bind]. injection E as Ed.
  destruct detached; [|done]. apply bind_returns in Hd as ([b|] & Hb & E%ret_returns); [|done|done].
  injection E as ->. apply files_last in Hb; [|apply inspects_is_detached]. eapply is_detached_missing in Hb; [|exact Hl].
  congruence.
Qed.

Lemma safe_item n s c failed : candidates !! n = Some c -> kept_before s.2 n failed ->
  safe (execute_item euid self fuel operation_id eligible n c failed) s (item_post (S n)).
Proof.
  intros Hc Hk. unfold execute_item. cbv zeta. apply safe_ebind, or_invalid_safe, safe_query; [done|done|].
  intros status Hs. cbn [map_err]. replace (s.1, (db_exec (DbItemStatus operation_id n) s.2).2) with s by (by destruct s).
  destruct status; [|by intros ? [= <-]; apply kept_gone; [apply item_status_gone|]|by intros ? [= <-]; apply kept_retained].
  apply safe_ebind, safe_reads; [apply minspects_newly|]. intros [[]|e] Hn; [by apply safe_retain| |done].
  destruct (revision_kept (cc_artifact c) failed) eqn:Hr.
  { apply safe_failure. intros t Ht. apply kept_other with c; [done| |by eapply kept_mono]. intros a r v E. by rewrite E in Hr. }
  apply safe_ebind, safe_bind. eapply safe_mono; [apply safe_detach; by eapply not_protected|].
  intros s' r [Ht Ha]. cbn. rewrite <- Ht in Hk. destruct r as [[]|[]]; try done; try (by apply safe_retain); apply safe_record; auto.
Qed.

Lemma safe_items n l s failed : drop n candidates = l -> kept_before s.2 n failed ->
  safe (execute_items euid self fuel operation_id eligible n l failed) s (fun _ _ => True).
Proof.
  revert n s failed. induction l as [|c l IH]; intros n s failed Hl Hk; [done|]. cbn [execute_items].
  assert (candidates !! n = Some c) as Hc by (rewrite <- (Nat.add_0_r n), <- lookup_drop, Hl; done).
  apply safe_ebind. eapply safe_mono; [by apply safe_item|]. intros s' [failed'|e] Hp; [|done]. apply IH; [|by apply Hp].
  replace (S n) with (n + 1) by lia. by rewrite <- drop_drop, Hl.
Qed.

Lemma safe_execute plan hash s : candidates = cp_candidates plan ->
  safe (execute_artifacts euid self fuel operation_id plan hash eligible) s (fun _ _ => True).
Proof.
  intros Hc. unfold execute_artifacts, stored, files. apply safe_ebind, or_invalid_safe, safe_bind, safe_tidies;
    [apply tidies_prepare|]. intros w [[]|e]; [|done]. cbn [Effects.safe map_err]. apply safe_ebind, or_invalid_safe, safe_query; [done|done|].
  intros [] _. cbn [map_err]. apply safe_ebind. eapply safe_mono.
  { apply safe_items with (n := 0); [by rewrite drop_0|]. intros j c a r v Hj. lia. }
  intros s1 [[]|e] _; [|done]. apply safe_ebind, or_invalid_safe, safe_reads; [apply minspects_terminal_items|].
  intros [items|e] _; [|done]. cbn [map_err]. apply safe_ebind, safe_reads; [unfold now; minspect|]. intros [at_|e] _; [|done].
  by apply safe_ebind, or_invalid_safe, safe_query.
Qed.
End taking.

Section execution.
Context {UT : UuidText} {ST : StoreText} {CR : Crypto} {CT : ComposeText} {WT : WebhookText} {RT : RecoveryText}
  {KT : CleanupText} {TT : TombstoneText} {TM : SqlTime} {MJ : MaintenanceJson}.
Context (h : Host) (self : AppStore) (fuel : nat).

Abbreviation euid := (h_euid h).
Abbreviation after := (fun (w : fs) (t : Tables) (tr : list (obs mev)) => foldl (mstep h) (w, t) tr).

(** C19: an operation takes nothing but what its plan names. In every run of the
    execution of a plan, whichever calls fail and wherever it stops, a call on
    files reads, synchronises, stays below [.cleanup-trash], or is the rename of
    an item of the plan from the item's own path to the item's place in the
    payload, and then the item is still eligible when eligibility is asked for,
    and a revision is taken only after every earlier release of the plan that
    uses it is recorded as detached; and an item is recorded as detached only
    when it is in the payload, no longer at its path, and no crash can undo
    either. *)
Theorem execution_takes_planned operation_id plan hash eligible w t tr o :
  trace (execute_artifacts euid self fuel operation_id plan hash eligible) tr o ->
  relied (mstep h) (mpossible h) (w, t) tr ->
  forall tr1 X (e : mev X) x tr2, tr = tr1 ++ Obs e x :: tr2 ->
  acceptable h operation_id (cp_candidates plan) eligible X (after w t tr1) e.
Proof.
  intros Ht Hr tr1 X e x tr2 E.
  destruct (safe_sound _ _ _ _ _ _ _ _ _ (safe_execute h self fuel operation_id (cp_candidates plan) eligible plan hash (w, t) eq_refl)
    Ht Hr) as [H _]. exact (H tr1 _ tr2 E).
Qed.

(** ** Runs with their past

    The states a run has been in, the current one first. *)

Definition past : Type := (fs * Tables) * list (fs * Tables).
Definition remember (g : past) (o : obs mev) : past := (mstep h g.1 o, mstep h g.1 o :: g.2).
Definition now_possible X (g : past) (e : mev X) : X -> Prop := mpossible h X g.1 e.

Section with_past.
Context (allowed : forall X, past -> mev X -> Prop).

Abbreviation psafe := (safe remember allowed now_possible True).

(** What is acceptable in each state is allowed whenever the past has grown. *)
Lemma past_safe {A} (pre : forall X, fs * Tables -> mev X -> Prop) (q : prog mev A) (g : past) (Q : fs * Tables -> A -> Prop) :
  safe (mstep h) pre (mpossible h) True q g.1 Q ->
  (forall X s g' (e : mev X), pre X s e -> g.2 ⊆ g' -> s ∈ g' -> allowed X (s, g') e) -> g.1 ∈ g.2 ->
  psafe q g (fun g' a => Q g'.1 a /\ g.2 ⊆ g'.2 /\ g'.1 ∈ g'.2).
Proof.
  intros Hs Hp Hg. revert g Hs Hp Hg. induction q as [a|X e k IH|]; intros [s g]; cbn [Effects.safe fst snd]; [done| |done].
  intros [He Hk] Hp Hg. split; [by apply Hp|]. intros x Hx. eapply safe_mono.
  - apply IH; [by apply Hk| |by left]. intros Y s' g' e' He' Hg'. apply Hp; [done|]. intros y Hy. apply Hg'. by right.
  - intros g' a (HQ & Hsub & Hin). split; [done|]. split; [|done]. intros y Hy. apply Hsub. by right.
Qed.

(** *** Programs that touch only the trash and the tables *)

Definition plain X (e : mev X) : Prop :=
  match e with OnFiles e => tidy e | OnDb (DbRecordDetached _ _ _ _) => False | OnDb _ => True end.

Context (Hplain : forall X g (e : mev X), plain X e -> allowed X g e).

Lemma plain_safe {A} (q : prog mev A) (g : past) : calls_only plain q -> g.1 ∈ g.2 ->
  psafe q g (fun g' _ => g.2 ⊆ g'.2 /\ g'.1 ∈ g'.2).
Proof using Hplain.
  revert g. induction q as [a|X e k IH|]; intros g; cbn [Effects.safe calls_only]; [done| |done]. intros [He Hk] Hg.
  split; [by apply Hplain|]. intros x _. eapply safe_mono; [apply IH; [done|by left]|]. intros g' a [Hs Hin].
  split; [|done]. intros y Hy. apply Hs. by right.
Qed.

(** Reads change nothing. *)
Lemma reads_safe {A} (q : prog mev A) (g : past) (Q : past -> A -> Prop) : minspects q -> g.1 ∈ g.2 ->
  (forall a g', returns h g.1.1 g.1.2 q a -> g'.1 = g.1 -> g'.1 ∈ g'.2 -> Q g' a) -> psafe q g Q.
Proof using Hplain.
  revert g Q. induction q as [a|X e k IH|]; intros [[w t] g] Q; cbn [Effects.safe fst snd minspects].
  - intros _ Hg HQ. apply HQ; [|done|done]. exists []. split; [constructor|done].
  - intros [He Hk] Hg HQ. split.
    + apply Hplain. destruct e as [X e|X e]; simpl in *; [by apply reads_tidy|by destruct e].
    + intros x Hx. unfold remember. cbn [fst snd]. rewrite mstep_none by done. apply IH; [apply Hk|by left|].
      intros a g' (tr & Ht & Hr) Hg' Hin. apply HQ; [|done|done]. exists (Obs e x :: tr). split; [by constructor|].
      cbn [relied]. split; [done|]. by rewrite mstep_none.
  - done.
Qed.
End with_past.

Lemma plain_embed {A} (q : prog fsev A) : calls_only (@tidy) q -> calls_only plain (embed q).
Proof. induction q as [a|X e k IH|]; cbn; [done| |done]. intros [He Hk]. split; [done|]. intros x. by apply IH. Qed.

Lemma plain_ebind {E A B} (q : eprog mev E A) (f : A -> eprog mev E B) :
  calls_only plain q -> (forall a, calls_only plain (f a)) -> calls_only plain (ebind q f).
Proof. intros Hq Hf. apply calls_only_bind; [done|]. by intros [a|e]. Qed.

Lemma plain_reads {A} (q : prog mev A) : minspects q -> calls_only plain q.
Proof.
  induction q as [a|X e k IH|]; cbn; [done| |done]. intros [He Hk]. split; [|intros x; by apply IH].
  destruct e as [X e|X e]; simpl in *; [by apply reads_tidy|by destruct e].
Qed.

Lemma plain_stored {A} (q : eprog fsev StoreError A) : calls_only (@tidy) q -> calls_only plain (stored q).
Proof. intros H. apply calls_only_bind; [by apply plain_embed|done]. Qed.

Lemma plain_each {A} (f : A -> eprog mev CleanupError unit) l : (forall a, calls_only plain (f a)) -> calls_only plain (each f l).
Proof. intros H. induction l as [|a l IH]; [done|]. cbn [each]. by apply plain_ebind. Qed.

Hint Resolve plain_reads plain_stored inspects_tidies minspects_terminal_items minspects_recoverable minspects_terminal_proof
  inspects_cleanup_marker inspects_cleanup_tombstones tidies_finalize tidies_sync_retirement : tidies.

Lemma plain_finalize_operation tombstones op : calls_only plain (finalize_operation euid self fuel tombstones op).
Proof.
  unfold finalize_operation. repeat (cbv zeta; first [done | solve [eauto 4 with tidies nocore]
    | apply plain_ebind; [|intros ?] | case_match]).
Qed.

Lemma plain_finalize : calls_only plain (finalize_succeeded euid self fuel).
Proof.
  unfold finalize_succeeded. apply plain_ebind; [apply plain_stored, inspects_tidies, inspects_cleanup_tombstones|].
  intros tombstones. apply plain_ebind; [done|]. intros retiring. apply plain_each. intros op. apply plain_finalize_operation.
Qed.

(** ** A pass of automatic retention *)

Section retention.
Context (key : string) (Hkey : as_integrity_key self = Some key) (app_id : Uuid).

Definition spares (s : fs * Tables) : list CleanupArtifact -> Prop := fun chosen =>
  exists resuming, plan_safe h s.1 s.2 self resuming (Some app_id) chosen.

(** Taken by an operation whose items a safe plan of this pass still has. *)
Definition taken_from (g : list (fs * Tables)) (s : fs * Tables) {X} (e : fsev X) : Prop :=
  exists s0 chosen operation_id candidates, s0 ∈ g /\ spares s0 chosen /\ takes operation_id candidates (Some chosen) s e.

Definition retained (X : Type) (g : past) (e : mev X) : Prop :=
  match e with OnFiles e => tidy e \/ taken_from g.2 g.1 e | OnDb _ => True end.

Abbreviation psafe := (safe remember retained now_possible True).

Lemma plain_retained X g (e : mev X) : plain X e -> retained X g e.
Proof. destruct e; [by left|done]. Qed.

Lemma automatic_plan_safe s resuming plan :
  returns h s.1 s.2 (automatic_plan euid self fuel app_id resuming) (Ok plan) -> spares s (plan_artifacts plan).
Proof using Hkey.
  unfold automatic_plan. intros (policy & _ & H)%ebind_returns; [|apply minspects_load_policy].
  apply ebind_returns in H as (inventory & Hi & E%ret_returns); [|apply minspects_build_plan]. injection E as <-. exists resuming.
  destruct (rt_enabled policy).
  - apply (plan_established h s.1 s.2 self fuel key Hkey) in Hi as (apps & c & u & r & Hp). by eapply planned_safe.
  - split; try (intros; by apply not_elem_of_nil in H); simpl; [lia|..]; try (by intros ? ? ?%elem_of_nil);
      try (by intros ? ? ? ?%elem_of_nil).
    intros app record _. split; [by intros ? ? ?%elem_of_nil|apply not_elem_of_nil].
Qed.

Lemma safe_pass_execute operation_id plan hash chosen (g : past) s0 : s0 ∈ g.2 -> g.1 ∈ g.2 -> spares s0 chosen ->
  psafe (execute_artifacts euid self fuel operation_id plan hash (Some chosen)) g (fun g' _ => g'.1 ∈ g'.2).
Proof.
  intros H0 Hg Hp. eapply safe_mono; [apply (past_safe retained (acceptable h operation_id (cp_candidates plan) (Some chosen))); [by apply safe_execute| |done]|].
  - intros X s g' e He Hsub Hin. destruct e as [X e|X e]; [|done]. destruct He as [He|He]; [by left|right].
    exists s0, chosen, operation_id, (cp_candidates plan). split; [by apply Hsub|]. by split.
  - by intros g' a (_ & _ & Hin).
Qed.

Lemma safe_pass_finish operation_id plan (g : past) s0 chosen : s0 ∈ g.2 -> g.1 ∈ g.2 -> spares s0 chosen ->
  psafe (ebind (execute_artifacts euid self fuel operation_id plan (plan_hash (plan_to_json plan)) (Some chosen)) (fun body =>
    ebind (fetch (DbCompleteAuthorization operation_id (json_print (response_value body)))) (fun _ =>
    ebind (finalize_succeeded euid self fuel) (fun _ => eret (ar_status body =? CsCompletedWithFailures))))) g
    (fun _ _ => True).
Proof.
  intros H0 Hg Hp. apply safe_ebind. eapply safe_mono; [by apply safe_pass_execute with s0|]. intros g1 [body|e] Hg1; [|done].
  eapply safe_mono; [apply plain_safe; [apply plain_retained| |done]|done]. apply plain_ebind; [done|]. intros _. apply plain_ebind; [apply plain_finalize|done].
Qed.

Lemma safe_pass app_free (g : past) : g.1 ∈ g.2 -> psafe (artifacts euid self fuel app_free app_id) g (fun _ _ => True).
Proof using Hkey.
  intros Hg. unfold artifacts. apply safe_ebind. destruct app_free; [|done]. cbn [lift refuse_if negb Effects.safe].
  apply safe_ebind. eapply safe_mono; [apply plain_safe; [apply plain_retained|apply plain_finalize|done]|].
  intros g1 [[]|e] [_ Hg1]; [|done].
  apply safe_ebind, reads_safe; [apply plain_retained|apply minspects_load_policy|done|]. intros [policy|e] g2 _ _ Hg2; [|done].
  apply safe_ebind, reads_safe; [apply plain_retained|done|done|]. intros [resumed|e] g3 _ _ Hg3; [|done].
  apply safe_ebind, reads_safe; [apply plain_retained| |done|].
  { repeat case_match; try done. apply minspects_bind; [apply minspects_embed, inspects_read_metadata|done]. }
  intros [[]|e] g4 _ _ Hg4; [done| |done].
  apply safe_ebind, reads_safe; [apply plain_retained| |done|].
  { unfold automatic_plan. apply minspects_ebind; [apply minspects_load_policy|]. intros ?.
    apply minspects_ebind; [apply minspects_build_plan|done]. }
  intros [current|e] g5 Hc Hs Hg5; [|done]. apply automatic_plan_safe in Hc. rewrite <- Hs in Hc. cbv zeta. destruct resumed as [op|].
  - apply safe_ebind, reads_safe; [apply plain_retained| |done|].
    { unfold resumed_plan. apply minspects_ebind; [apply minspects_authorization|]. intros auth. by minspect. }
    intros [plan|e] g6 _ Hs' Hg6; [|done]. rewrite <- Hs' in Hc. by apply safe_pass_finish with g6.1.
  - case_match; [done|]. apply safe_ebind. eapply safe_mono.
    { apply plain_safe; [apply plain_retained| |done]. unfold publish_automatic, now. repeat (apply plain_ebind; [done|intros ?]). done. }
    intros g6 [op|e] [Hsub Hg6]; [|done]. apply safe_pass_finish with g5.1; [by apply Hsub|done|done].
Qed.

Lemma remembered tr g : (foldl remember g tr).1 = foldl (mstep h) g.1 tr
  /\ forall s, s ∈ (foldl remember g tr).2 -> s ∈ g.2 \/ exists tr0 tr1, tr = tr0 ++ tr1 /\ s = foldl (mstep h) g.1 tr0.
Proof.
  revert g. induction tr as [|o tr IH]; intros g; cbn [foldl]; [split; [done|by left]|].
  destruct (IH (remember g o)) as [H1 H2]. split; [done|]. intros s [Hs|(tr0 & tr1 & -> & ->)]%H2.
  - unfold remember in Hs. cbn [snd] in Hs. apply elem_of_cons in Hs as [->|Hs]; [right; by exists [o], tr|by left].
  - right. by exists (o :: tr0), tr1.
Qed.

Lemma relied_past tr g : relied (mstep h) (mpossible h) g.1 tr -> relied remember now_possible g tr.
Proof.
  revert g. induction tr as [|o tr IH]; intros g; cbn [relied]; [done|]. intros [Ho Hr]. split; [by destruct o|].
  by apply IH.
Qed.

(** C18: automatic retention takes nothing that is in use. In every pass over an
    application, whichever calls fail and wherever it stops, a call on files
    reads, synchronises, stays below [.cleanup-trash], or renames into an
    operation's payload an item which a plan made earlier in the same pass
    holds; that plan spares, in the state it was made in, everything the plans
    of [plan_safe] spare: the active and the pending release, the current draft,
    whatever an open deployment or another operation refers to, and every
    revision of a release that stays. Items of an operation that is resumed are
    checked against the new plan, not the old one. *)
Theorem retention_takes_unused app_free w t tr o :
  trace (artifacts euid self fuel app_free app_id) tr o -> relied (mstep h) (mpossible h) (w, t) tr ->
  forall tr1 X (e : fsev X) x tr2, tr = tr1 ++ Obs (OnFiles e) x :: tr2 ->
  tidy e \/ exists tr0 tr0' resuming chosen operation_id candidates, tr1 = tr0 ++ tr0'
    /\ plan_safe h (after w t tr0).1 (after w t tr0).2 self resuming (Some app_id) chosen
    /\ takes operation_id candidates (Some chosen) (after w t tr1) e.
Proof using Hkey.
  intros Ht Hr tr1 X e x tr2 E. pose proof (safe_pass app_free ((w, t), [(w, t)]) ltac:(by left)) as Hs.
  apply (relied_past _ ((w, t), [(w, t)])) in Hr. destruct (safe_sound _ _ _ _ _ _ _ _ _ Hs Ht Hr) as [H _].
  destruct (H tr1 _ tr2 E) as [He|(s0 & chosen & op & cands & H0 & (resuming & Hp) & Htk)]; [by left|right].
  destruct (remembered tr1 ((w, t), [(w, t)])) as [E1 E2]. cbn [fst snd] in *. rewrite E1 in Htk.
  destruct (E2 s0 H0) as [->%list_elem_of_singleton|(tr0 & tr0' & -> & ->)].
  - exists [], tr1, resuming, chosen, op, cands. done.
  - exists tr0, tr0', resuming, chosen, op, cands. done.
Qed.
End retention.
End execution.
