(* ===== verification/LifecycleTheorems.v ===== *)
(** * LifecycleTheorems: a deletion leaves its receipt first *)

From S2P Require Import Prelude Text WebhookProtocol Ingress Reference Models Effects Codec Names Drafts DraftSpec Compose Database Ledger PollStates Idempotency FileSystem StoreBase ConfigRevision ReleaseStore AppDirectories WebhookStore Recovery CleanupStore Maintenance Lifecycle Catalog Inspection CleanupPlanner MixedInspection CatalogTheorems PlanTheorems.

Section receipts.
Context {UT : UuidText} {ST : StoreText} {CR : Crypto} {TT : TombstoneText} {TM : SqlTime} {MJ : MaintenanceJson}.
Context (h : Host).

Abbreviation euid := (h_euid h).

(** The deletion answered its request and has its receipt. *)
Definition receipted (t : Tables) (app_id operation_id : Uuid) : Prop :=
  (exists row, tb_unregistrations t !! app_id = Some row /\ un_operation_id row = operation_id /\ un_source row = UsDeletion)
  /\ exists proof, admin_proof (app_route app_id) operation_id t = Some proof /\ exact_deletion app_id proof = true.

(** Neither a directory nor a tombstone of the application is left. *)
Definition removed (w : fs) (app_id : Uuid) : Prop :=
  dir_at h w [uuid_to_string app_id] = None
  /\ forall i d name e, dir_at h w [TRASH] = Some (i, d) -> d_entries d !! name = Some e ->
     exists other operation_id, parse_tombstone_name name = Ok (other, operation_id) /\ other <> app_id.

Definition lawful (X : Type) (s : fs * Tables) (e : mev X) : Prop :=
  match e with
  | OnFiles (FsRemoveDirAll p name) =>
      exists app_id operation_id, p = [TRASH] /\ name = tombstone_name app_id operation_id /\ receipted s.2 app_id operation_id
  | OnFiles (FsSyncDirectory _) => True
  | OnFiles e => reads e = true
  | OnDb (DbPreserve _ _) => True
  | OnDb (DbMarkFinalized app_id operation_id) => removed s.1 app_id
  | OnDb e => queries e = true
  end.

#[local] Instance lawful_lenient : Lenient lawful.
Proof. intros X s e He. destruct e as [X e|X e]; simpl in *; by destruct e. Qed.

Abbreviation safe := (safe (mstep h) lawful (mpossible h) True).
Abbreviation safe_reads := (MixedInspection.safe_reads h lawful).
Abbreviation safe_read_then := (MixedInspection.safe_read_then h lawful).

Lemma safe_store {A} (q : eprog fsev StoreError A) s Q :
  safe (embed q) s (fun s' r => Q s' (map_err (fun _ => IeStore) r)) -> safe (on_store q) s Q.
Proof. intros H. unfold on_store, files. apply safe_bind. exact H. Qed.

(** *** Synchronising *)

(** The directories and their entries stay. *)
Definition kept (w w' : fs) : Prop :=
  forall p, (dir_at h w p = None -> dir_at h w' p = None)
    /\ forall i d, dir_at h w' p = Some (i, d) -> exists d', dir_at h w p = Some (i, d') /\ d_entries d' = d_entries d.

Lemma kept_removed w w' app_id : kept w w' -> removed w app_id -> removed w' app_id.
Proof.
  intros Hk [H1 H2]. split; [by apply Hk|]. intros i d name e Hd He. apply Hk in Hd as (d' & Hd & E). rewrite <- E in He. eauto.
Qed.

Lemma kept_sync w p : kept w (update_at h w p synced).
Proof.
  intros q. unfold update_at. destruct (dir_at h w p) as [[i d]|] eqn:Hp; [|split; [done|by eauto]].
  apply dir_at_lookup in Hp as Hi. destruct Hi as [_ Hi].
  assert (forall r, resolve h (<[i := synced d]> w) r = resolve h w r) as Hr by (intros r; by apply resolve_insert with d).
  unfold dir_at. rewrite Hr. destruct (resolve h w q) as [j|]; [|split; [done|by intros]]. cbn [mbind option_bind].
  destruct (decide (j = i)) as [->|Hj].
  - rewrite lookup_insert_eq, Hi. split; [done|]. intros ? ? [= <- <-]. by exists d.
  - rewrite lookup_insert_ne by done. split; [done|by eauto].
Qed.

Lemma safe_sync_kept p s (Q : fs * Tables -> result StoreError unit -> Prop) :
  (forall w r, kept s.1 w -> Q (w, s.2) r) -> safe (embed (sync_directory p)) s Q.
Proof.
  intros HQ. split; [done|]. intros r _. destruct s as [w t]. destruct r as [[]|kind]; cbn.
  - apply (HQ _ (Ok tt)), kept_sync.
  - apply (HQ _ (Err (SeIo kind))). unfold update_at. destruct (dir_at h w p) as [[i d]|] eqn:Hp; [|by split; eauto].
    apply dir_at_lookup in Hp as [_ Hi]. rewrite insert_id by done. by split; eauto.
Qed.

Lemma kept_refl w : kept w w.
Proof. intros p. split; [done|by eauto]. Qed.

Lemma kept_trans w1 w2 w3 : kept w1 w2 -> kept w2 w3 -> kept w1 w3.
Proof.
  intros H1 H2 p. destruct (H1 p) as [A1 B1], (H2 p) as [A2 B2]. split; [auto|]. intros i d (d' & Hd & E)%B2.
  apply B1 in Hd as (d'' & Hd & E'). exists d''. split; [done|congruence].
Qed.

(** What is synchronised: the directory of the application is gone. *)
Lemma safe_unregistered app_id s (Q : fs * Tables -> result StoreError unit -> Prop) :
  (forall w e, Q (w, s.2) (Err e)) ->
  (forall w, dir_at h w [uuid_to_string app_id] = None -> Q (w, s.2) (Ok tt)) -> safe (embed (sync_unregistered_app euid app_id)) s Q.
Proof.
  intros He HQ. unfold sync_unregistered_app. apply safe_read_then; [inspect|by destruct s; apply He|].
  intros [] Hm. apply may_vis in Hm as ([st|[]] & Hm & E); try done; try (by apply may_ret in E).
  apply possible_missing in Hm. apply safe_embed_ebind. eapply safe_mono with (Q := fun s' (_ : result StoreError unit) => kept s.1 s'.1 /\ s'.2 = s.2).
  - split; [done|]. intros r _. destruct s as [w t]. destruct r as [st|[]]; try (split; [apply kept_refl|done]).
    apply safe_read_then; [apply inspects_check_private|by split; [apply kept_refl|]|]. intros _ _. apply safe_sync_kept. by intros w' r.
  - intros [w t] [[]|e] [Hk Et]; simpl in Hk, Et; subst t; [|by apply He].
    apply safe_read_then; [apply inspects_check_private|by apply He|]. intros _ _. apply safe_sync_kept. intros w' [[]|e] Hk'; [|by apply He].
    apply HQ. cbn [fst] in *. by apply Hk', Hk.
Qed.

Lemma inspects_tombstone_metadata app_id operation_id : inspects (read_tombstone_metadata euid app_id operation_id).
Proof.
  unfold read_tombstone_metadata, read_metadata_at. pose proof (inspects_check_private_tree euid). pose proof (inspects_check_private euid).
  inspect; auto.
Qed.

Lemma inspects_tombstone_entries names : inspects (tombstone_entries euid names).
Proof. induction names; cbn [tombstone_entries]; [done|]. pose proof inspects_tombstone_metadata. inspect; auto. Qed.

Lemma tombstone_entries_sound w names ids : may_return h w (tombstone_entries euid names) (Ok ids) ->
  forall name, name ∈ names -> exists id, parse_tombstone_name name = Ok id /\ id ∈ ids.
Proof.
  revert ids. induction names as [|name names IH]; intros ids H n Hn; [by apply elem_of_nil in Hn|]. cbn [tombstone_entries] in H.
  apply may_lift in H as (id & Hid & H). apply may_ebind in H as (_ & _ & H); [|apply inspects_tombstone_metadata].
  apply may_ebind in H as (rest & Hrest & E%may_ret); [|apply inspects_tombstone_entries]. injection E as <-.
  apply elem_of_cons in Hn as [->|Hn]; [exists id; split; [done|by left]|].
  destruct (IH _ Hrest n Hn) as (id' & H1 & H2). exists id'. split; [done|by right].
Qed.

Lemma no_tombstone w ids app_id : may_return h w (tombstones euid) (Ok ids) ->
  existsb (fun id => id.1 =? app_id) ids = false -> dir_at h w [uuid_to_string app_id] = None -> removed w app_id.
Proof.
  intros H He Hd. split; [done|]. intros i d name e Ht Hn. unfold tombstones in H.
  apply may_vis in H as ([names|kind] & Hx & H); [| |done].
  - apply may_ebind in H as (found & Hf & E%may_ret); [|apply inspects_tombstone_entries]. injection E as <-.
    apply possible_list in Hx as (i' & d' & Hd' & Hp). rewrite Ht in Hd'. injection Hd' as <- <-.
    destruct (tombstone_entries_sound w names found Hf name) as ([other op] & H1 & H2).
    { rewrite Hp. apply list_elem_of_fmap. exists (name, e). split; [done|]. by apply elem_of_map_to_list. }
    exists other, op. split; [done|]. intros ->. apply not_true_iff_false in He. apply He, existsb_exists. exists (app_id, op).
    split; [|apply bool_decide_eq_true; done]. apply list_elem_of_In. by rewrite sort_by_perm.
  - destruct kind; try (by apply may_ret in H). destruct Hx as [Hx|[Hx|Hx]]; [|done|].
    + cbn [answer] in Hx. by rewrite Ht in Hx.
    + by destruct Hx as (? & ? & ? & ? & ? & ?).
Qed.

(** *** Receipts *)

Lemma safe_preserve app_id operation_id s (Q : fs * Tables -> result IdempotencyError unit -> Prop) :
  (forall s' e, Q s' (Err e)) -> (forall s', receipted s'.2 app_id operation_id -> Q s' (Ok tt)) ->
  safe (preserve_proof euid app_id operation_id) s Q.
Proof.
  intros He HQ. unfold preserve_proof. apply safe_ebind, safe_store, safe_unregistered; [by intros w e; apply He|].
  intros w _. cbn [map_err]. apply safe_ebind, safe_query; [done|apply He|]. intros outcome Ho. cbn [fst snd db_exec] in *.
  destruct (preserve_tx app_id operation_id s.2) as [t'|e] eqn:E; injection Ho as <-; [|by apply He]. apply HQ. cbn [snd].
  unfold preserve_tx in E. apply bind_ok_iff in E as (proof & Hp & E). apply ok_or_ok_inv in Hp.
  apply bind_ok_iff in E as ([] & Hd%refuse_if_ok & E). apply negb_false_iff in Hd.
  destruct (tb_unregistrations s.2 !! app_id) as [row|] eqn:Hrow.
  - apply bind_ok_iff in E as ([] & Hs%refuse_if_ok & E). apply ok_inj in E. subst t'. split; [|by exists proof].
    exists row. bools. done.
  - apply bind_ok_iff in E as ([] & _ & E). apply ok_inj in E. subst t'. split; [|by exists proof].
    eexists. split; [apply lookup_insert_eq|done].
Qed.

Lemma safe_mark app_id operation_id s (Q : fs * Tables -> result IdempotencyError unit -> Prop) :
  (forall s' r, Q s' r) -> safe (mark_finalized euid app_id operation_id) s Q.
Proof.
  intros HQ. unfold mark_finalized. apply safe_ebind, safe_store, safe_unregistered; [intros ? ?; apply HQ|].
  intros w Hd. cbn [map_err]. unfold on_store, files. apply safe_ebind, safe_bind, safe_embed_reads; [apply lawful_lenient|apply inspects_tombstones|].
  intros [ids|e] Hi; [|apply HQ]. cbn [map_err Effects.safe]. apply safe_ebind. cbn [lift Effects.safe].
  destruct (refuse_if _ _) as [[]|e] eqn:Hr; [|apply HQ]. apply refuse_if_ok in Hr.
  apply safe_ebind, safe_query; [by apply no_tombstone with ids|apply HQ|]. intros changed _. apply HQ.
Qed.

Lemma minspects_succeeded : minspects (succeeded_app_tombstones euid).
Proof.
  unfold succeeded_app_tombstones. apply minspects_ebind; [apply minspects_app_tombstones|]. intros found.
  apply minspects_ebind; [|done]. unfold pending, select. minspect. induction a as [|row rows IH]; cbn [pending_rows]; unfold select; minspect; done.
Qed.

Lemma safe_finalize_app app_id operation_id s :
  safe (finalize_app_unregistration euid app_id operation_id) s (fun _ _ => True).
Proof.
  unfold finalize_app_unregistration. apply safe_ebind, safe_reads; [apply minspects_succeeded|]. intros [succeeded|e] _; [|done].
  apply safe_ebind. cbn [lift Effects.safe]. destruct (refuse_if _ _) as [[]|e]; [|done].
  unfold on_store at 1, files. apply safe_ebind, safe_bind, safe_embed_reads; [apply lawful_lenient|apply inspects_tombstones|].
  intros [ids|e] _; [|done]. cbn [map_err Effects.safe]. cbv zeta. generalize (bool_decide ((app_id, operation_id) ∈ ids)) as has. intros has.
  apply safe_ebind. apply safe_mono with (Q := fun (_ : fs * Tables) (_ : result IdempotencyError unit) => True).
  { destruct has; [|done]. apply safe_store. unfold sync_tombstone.
    apply safe_read_then; [apply inspects_tombstone_metadata|done|]. intros _ _. by apply safe_unregistered. }
  intros s1 [[]|e] _; [|done]. apply safe_ebind, safe_preserve; [done|]. intros s2 Hr.
  apply safe_ebind. apply safe_mono with (Q := fun (_ : fs * Tables) (_ : result IdempotencyError unit) => True).
  { destruct has; [|done]. apply safe_store. unfold finalize_tombstone.
    apply safe_read_then; [apply inspects_tombstone_metadata|done|]. intros _ _.
    apply safe_read_then; [apply inspects_check_private_tree|done|]. intros _ _. apply safe_embed_ebind.
    split; [by exists app_id, operation_id|]. intros [[[]|kind] w'] _; [by apply safe_sync_kept|done]. }
  intros s3 [[]|e] _; [|done]. by apply safe_mark.
Qed.

Lemma safe_each {A} (f : A -> eprog mev IdempotencyError unit) l s :
  (forall a s, safe (f a) s (fun _ _ => True)) -> safe (each f l) s (fun _ _ => True).
Proof.
  intros Hf. revert s. induction l as [|a l IH]; intros s; [done|]. cbn [each]. apply safe_ebind.
  eapply safe_mono; [apply Hf|]. intros s' [[]|e] _; [apply IH|done].
Qed.

Lemma safe_finalize_all s : safe (finalize_succeeded_tombstones euid) s (fun _ _ => True).
Proof.
  unfold finalize_succeeded_tombstones. apply safe_ebind, safe_reads; [apply minspects_succeeded|].
  intros [succeeded|e] _; [|done]. apply safe_each. intros ids s'. apply safe_finalize_app.
Qed.

Lemma safe_backfill_rows tombstoned rows s : safe (backfill_rows euid tombstoned rows) s (fun _ _ => True).
Proof.
  revert s. induction rows as [|[[route op] body] rows IH]; intros s; [done|]. cbn [backfill_rows].
  destruct (canonical_route_app route) as [app_id|], body as [body|]; try apply IH. case_match; [apply IH|].
  apply safe_ebind, safe_preserve; [done|]. intros s1 _. apply safe_ebind, safe_mark. intros s2 [[]|e]; [apply IH|done].
Qed.

Lemma safe_backfill s : safe (backfill euid) s (fun _ _ => True).
Proof.
  unfold backfill, on_store, files. apply safe_ebind, safe_bind, safe_embed_reads; [apply lawful_lenient|apply inspects_tombstones|].
  intros [ids|e] _; [|done]. cbn [map_err Effects.safe]. apply safe_ebind, safe_query; [done|done|]. intros rows _. apply safe_backfill_rows.
Qed.

(** C22: a completed deletion leaves its receipt before its last file is removed.
    In every run of the finalizers of deletions, whichever calls fail and
    wherever it stops, the only changes of files are removals of tombstones;
    when a tombstone is removed, the deletion's request is recorded as
    succeeded with the answer that names the application, and its row is in
    [app_unregistrations]; and that row is marked as finalized only when neither
    the directory nor any tombstone of the application is left. *)
Theorem receipt_before_removal q w t tr o :
  q = finalize_succeeded_tombstones euid \/ q = backfill euid ->
  trace q tr o -> relied (mstep h) (mpossible h) (w, t) tr ->
  forall tr1 X (e : mev X) x tr2, tr = tr1 ++ Obs e x :: tr2 -> lawful X (foldl (mstep h) (w, t) tr1) e.
Proof.
  intros Hq Ht Hr tr1 X e x tr2 E. assert (safe q (w, t) (fun _ _ => True)) as Hs
    by (destruct Hq as [->| ->]; [apply safe_finalize_all|apply safe_backfill]).
  destruct (safe_sound _ _ _ _ _ _ _ _ _ Hs Ht Hr) as [H _]. exact (H tr1 _ tr2 E).
Qed.
End receipts.
