(* ===== verification/CleanupDemo.v ===== *)
(** * CleanupDemo: plans of concrete stores

    Documents of maintenance encoded injectively, and the plan of a store whose
    running application has a revision nothing refers to. *)

From S2P Require Import Prelude Text WebhookProtocol Ingress Reference Models Effects Codec Names Drafts DraftTheorems DraftStored Compose Database Ledger PollStates Idempotency FileSystem StoreBase ConfigRevision ReleaseStore RevisionFormat AppDirectories WebhookStore Recovery CleanupStore Maintenance Lifecycle Catalog CleanupPlanner CleanupRun Inspection MixedInspection CatalogTheorems PlanTheorems RunTheorems StoreSafety StoreTheorems StoreDemo CatalogDemo.

#[local] Existing Instance binary_uuid_text.
#[local] Existing Instance demo_crypto.
#[local] Existing Instance store_text.
#[local] Existing Instance store_compose_text.
#[local] Existing Instance demo_tombstone_text.
#[local] Existing Instance demo_webhook_text.
#[local] Existing Instance demo_recovery_text.
#[local] Existing Instance demo_cleanup_text.
#[local] Existing Instance clock_sql_time.

(** ** Documents *)

Definition record_code (r : CleanedReleaseRecord) : positive :=
  encode (cl_manifest_digest r, cl_local_image_id r, cl_platform_os r, cl_platform_architecture r, cl_platform_variant r).
Definition code_record (p : positive) : option CleanedReleaseRecord :=
  '(a, b, c, d, e) ← decode (A := string * string * string * string * option string) p;
  Some (MkCleanedReleaseRecord a b c d e).

Definition reason_code (r : ProtectionReason) : N := reason_rank r.
Definition code_reason (n : N) : ProtectionReason :=
  match n with 0 => PrActive | 1 => PrPending | 2 => PrCurrentDraft | 3 => PrRecentRollback | 4 => PrDeploymentRecovery
  | _ => PrCleanupInProgress end%N.

Definition candidate_code (c : CleanupCandidate) : positive :=
  encode (artifact_codes (cc_artifact c), cc_estimated_logical_bytes c, cc_release_created_at c, record_code <$> cc_release_record c).
Definition code_candidate (p : positive) : option CleanupCandidate :=
  '(a, b, c, d) ← decode (A := positive * Z * option Z * option positive) p;
  a ← codes_artifact a;
  match d with
  | None => Some (MkCleanupCandidate a b c None)
  | Some d => d ← code_record d; Some (MkCleanupCandidate a b c (Some d))
  end.

Lemma code_candidate_code c : code_candidate (candidate_code c) = Some c.
Proof.
  unfold code_candidate, candidate_code. rewrite decode_encode. cbn [mbind option_bind]. rewrite codes_artifact_codes.
  destruct c as [a b c [r|]]; cbn -[decode encode]; [|done]. unfold code_record, record_code. rewrite decode_encode. by destruct r.
Qed.

Definition protected_code (p : ProtectedArtifact) : positive :=
  encode (pa_app_id p, pa_artifact_kind p, pa_artifact_id p, reason_code (pa_reason p)).
Definition code_protected (p : positive) : option ProtectedArtifact :=
  '(a, b, c, d) ← decode (A := option Uuid * string * string * N) p;
  Some (MkProtectedArtifact a b c (code_reason d)).

Lemma code_protected_code p : code_protected (protected_code p) = Some p.
Proof. unfold code_protected, protected_code. rewrite decode_encode. by destruct p as [? ? ? []]. Qed.

Lemma mapM_codes {A} (f : A -> positive) (g : positive -> option A) : (forall a, g (f a) = Some a) ->
  forall l, mapM g (map f l) = Some l.
Proof. intros H l. induction l as [|a l IH]; [done|]. cbn. rewrite H. cbn. by rewrite IH. Qed.

Definition plan_code (p : CleanupPlan) : list positive :=
  [encode (map candidate_code (cp_candidates p)); encode (map protected_code (cp_protected p));
   encode (cp_estimated_logical_bytes p)].
Definition code_plan (l : list positive) : option CleanupPlan :=
  match l with
  | [a; b; c] =>
      a ← decode (A := list positive) a; b ← decode (A := list positive) b; c ← decode c;
      a ← mapM code_candidate a; b ← mapM code_protected b; Some (MkCleanupPlan a b c)
  | _ => None
  end.

Lemma code_plan_code p : code_plan (plan_code p) = Some p.
Proof.
  unfold code_plan, plan_code. rewrite !decode_encode. cbn [mbind option_bind].
  rewrite (mapM_codes _ _ code_candidate_code), (mapM_codes _ _ code_protected_code). by destruct p.
Qed.

Definition policy_code (p : RetentionPolicy) : list positive :=
  [encode (rt_enabled p); encode (rt_keep_versions p); encode (rt_revision p); encode (rt_last_checked_at p);
   encode (rt_last_status p); encode (rt_last_error_code p)].
Definition code_policy (l : list positive) : option RetentionPolicy :=
  match l with
  | [a; b; c; d; e; f] =>
      a ← decode a; b ← decode b; c ← decode c; d ← decode d; e ← decode e; f ← decode f;
      Some (MkRetentionPolicy a b c d e f)
  | _ => None
  end.

Definition status_text (s : CleanupStatus) : string :=
  match s with CsPlanned => "planned" | CsRunning => "running" | CsCompletedWithFailures => "completed_with_failures"
  | CsCompleted => "completed" end.

(** Flat objects; a field per item of an answer. *)
Definition demo_json : MaintenanceJson.
Proof.
  refine {| json := list (string * (bool + string));
            json_print j := document [encode j];
            json_parse s := c ← document_codes s; match c with [j] => decode j | _ => None end;
            json_bool name j := (snd <$> head (filter (fun f => f.1 = name) j)) ≫= fun v => match v with inl b => Some b | inr _ => None end;
            json_text name j := (snd <$> head (filter (fun f => f.1 = name) j)) ≫= fun v => match v with inr s => Some s | inl _ => None end;
            response_value r := [("operation_id", inr (uuid_to_string (ar_operation_id r))); ("plan_hash", inr (ar_plan_hash r));
                                 ("status", inr (status_text (ar_status r)))]
                                ++ map (fun i => (ai_artifact_id i, inl (ai_retained i))) (ar_items r);
            plan_to_json p := document (plan_code p); plan_of_json s := document_codes s ≫= code_plan;
            policy_to_json p := document (policy_code p); policy_of_json s := document_codes s ≫= code_policy |}.
  - intros j. rewrite document_round_trip. cbn [mbind option_bind]. apply decode_encode.
  - intros p. rewrite document_round_trip. cbn [mbind option_bind]. apply code_plan_code.
  - intros p. rewrite document_round_trip. cbn [mbind option_bind]. unfold code_policy, policy_code. rewrite !decode_encode. by destruct p.
Defined.
#[local] Existing Instance demo_json.

(** ** The plan of a store with an unused revision *)

Definition unused : eprog fsev StoreError unit := publish 1000 [uuid_to_string 7%N] 9%N sample_normal.
Definition unused_fs : fs := Eval vm_compute in (run (serve store_host) unused running_fs).2.

Definition plan_demo := build_plan_inner 1000 store_self 40 None None.

Definition demo_inventory : ArtifactInventory := Eval vm_compute in
  match (run (mserve store_host) plan_demo (unused_fs, empty_tables)).1 with
  | Some (Ok r) => r
  | _ => MkArtifactInventory (MkCleanupPlan [] [] 0) [] []
  end.

Lemma plan_spares_references_witness :
  plan_artifacts (iv_plan demo_inventory) = [CaConfigRevision 7%N 9%N]
  /\ plan_safe store_host unused_fs empty_tables store_self None None (plan_artifacts (iv_plan demo_inventory)).
Proof.
  split; [done|]. apply (plan_spares_references store_host unused_fs empty_tables store_self 40 "key" eq_refl None None demo_inventory).
  apply mserve_returns. by vm_compute.
Defined.

(** ** A pass of automatic retention *)

Definition retention_tables : Tables :=
  empty_tables <| tb_retention := {[ 7%N := MkRetentionPolicy true 2 9%N None None None ]} |>.

Definition retention_pass : eprog mev CleanupError bool := artifacts 1000 store_self 40 true 7%N.
Definition retention_log : list (obs mev) := run_log (mserve store_host) retention_pass (unused_fs, retention_tables).

Lemma call_at (log : list (obs mev)) k o : log !! k = Some o -> log = take k log ++ o :: drop (S k) log.
Proof. intros H. symmetry. by apply take_drop_middle. Qed.

(** The revision is in the trash when it is gone from the application, and
    nothing is left at the end. *)
Example retention_completes :
  match run (mserve store_host) retention_pass (unused_fs, retention_tables) with
  | (Some (Ok failures), (w, t)) =>
      failures = false /\ listing w [CLEANUP_TRASH_DIRECTORY] = Some []
      /\ listing w (app_directory 7%N ++ ["config-revisions"]) = Some [uuid_to_string 2%N]
      /\ (so_status <$> tb_operations t !! 0%N) = Some CsCompleted
  | _ => False
  end.
Proof. by vm_compute. Qed.

Abbreviation taking_revision payload :=
  (FsRenameNoReplace (app_directory 7%N ++ ["config-revisions"]) (uuid_to_string 9%N) payload "0").

Lemma retention_takes_unused_witness :
  exists tr1 x tr2, retention_log = tr1 ++ Obs (OnFiles (taking_revision (payload_path 0%N))) x :: tr2
    /\ exists tr0 tr0' resuming chosen operation_id candidates, tr1 = tr0 ++ tr0'
      /\ let after := foldl (mstep store_host) (unused_fs, retention_tables) in
         plan_safe store_host (after tr0).1 (after tr0).2 store_self resuming (Some 7%N) chosen
         /\ takes operation_id candidates (Some chosen) (after tr1) (taking_revision (payload_path 0%N)).
Proof.
  assert (exists x, retention_log !! 607 = Some (Obs (OnFiles (taking_revision (payload_path 0%N))) x)) as [x Hx]
    by (eexists; by vm_compute).
  apply call_at in Hx. exists (take 607 retention_log), x, (drop 608 retention_log). split; [exact Hx|].
  destruct (retention_takes_unused store_host store_self 40 "key" eq_refl 7%N true unused_fs retention_tables retention_log _
    (run_trace _ _ _) (proj1 (mserve_relied store_host _ _)) _ _ _ _ _ Hx) as [[Ht _]|H]; [|exact H].
  exfalso. revert Ht. by vm_compute.
Defined.

(** ** The execution of a plan *)

Definition published_tables : Tables :=
  publish_tx 50%N 7%N (MkRetentionPolicy true 2 9%N None None None) (iv_plan demo_inventory)
    (plan_to_json (iv_plan demo_inventory)) "hash" 0 retention_tables.

Definition execution : eprog mev CleanupError ApplyResponse :=
  execute_artifacts 1000 store_self 40 50%N (iv_plan demo_inventory) "hash" (Some [CaConfigRevision 7%N 9%N]).
Definition execution_log : list (obs mev) := run_log (mserve store_host) execution (unused_fs, published_tables).

Lemma execution_takes_planned_witness :
  exists tr1 x tr2, execution_log = tr1 ++ Obs (OnFiles (taking_revision (payload_path 50%N))) x :: tr2
    /\ acceptable store_host 50%N (cp_candidates (iv_plan demo_inventory)) (Some [CaConfigRevision 7%N 9%N]) _
         (foldl (mstep store_host) (unused_fs, published_tables) tr1) (OnFiles (taking_revision (payload_path 50%N))).
Proof.
  assert (exists x, execution_log !! 67 = Some (Obs (OnFiles (taking_revision (payload_path 50%N))) x)) as [x Hx]
    by (eexists; by vm_compute).
  apply call_at in Hx. exists (take 67 execution_log), x, (drop 68 execution_log). split; [exact Hx|].
  exact (execution_takes_planned store_host store_self 40 50%N (iv_plan demo_inventory) "hash" (Some [CaConfigRevision 7%N 9%N])
    unused_fs published_tables execution_log _ (run_trace _ _ _) (proj1 (mserve_relied store_host _ _)) _ _ _ _ _ Hx).
Defined.
