(* ===== verification/LifecycleDemo.v ===== *)
(** * LifecycleDemo: a deletion finalized on a concrete store

    Identifiers of at least 36 characters, so that names of tombstones parse. *)

From S2P Require Import Prelude Text WebhookProtocol Ingress Reference Models Effects Codec Names Drafts DraftTheorems DraftStored Compose Database Ledger PollStates Idempotency FileSystem StoreBase ConfigRevision ReleaseStore RevisionFormat AppDirectories WebhookStore Recovery CleanupStore Maintenance Lifecycle Catalog CleanupPlanner Inspection MixedInspection LifecycleTheorems StoreSafety StoreTheorems StoreDemo CatalogDemo CleanupDemo.
From Stdlib Require Import Ascii.

(** ** Identifiers *)

Fixpoint padded (n : nat) (s : string) : string :=
  match n with 0 => s | S n => String "0" (padded n s) end.

Fixpoint unpadded (s : string) : string :=
  match s with String "0" s => unpadded s | s => s end.

(** The digits of a positive number start with a letter. *)
Definition wide (p : positive) : string :=
  let s := "x" +:+ positive_digits p in padded (36 - String.length s) s.

Lemma unpadded_padded n s : unpadded (padded n (String "x" s)) = String "x" s.
Proof. by induction n. Qed.

Definition wide_uuid_text : UuidText.
Proof.
  refine {| uuid_to_string u := wide (N.succ_pos u);
            uuid_parse s := match unpadded s with
                            | String "x" s => Pos.pred_N <$> digits_positive s
                            | _ => None
                            end |}.
  intros u. unfold wide. change ("x" +:+ positive_digits (N.succ_pos u)) with (String "x" (positive_digits (N.succ_pos u))).
  rewrite unpadded_padded, digits_positive_digits. cbn. f_equal. rewrite N.pos_pred_spec, N.succ_pos_spec. apply N.pred_succ.
Defined.
#[local] Existing Instance wide_uuid_text.
#[local] Existing Instance demo_crypto.
#[local] Existing Instance store_text.
#[local] Existing Instance demo_json.
#[local] Existing Instance clock_sql_time.

Lemma wide_no_quote u : contains_char "'" (uuid_to_string u) = false.
Proof.
  cbn. unfold wide. assert (forall n s, contains_char "'" s = false -> contains_char "'" (padded n s) = false) as Hp
    by (intros n s H; induction n; done).
  apply Hp. generalize (N.succ_pos u) as p. intros p. change (contains_char "'" (positive_digits p) = false). by induction p.
Qed.

#[local] Instance wide_tombstone_text : TombstoneText := quoted_tombstone_text wide_no_quote.

(** ** A deletion *)

(** Application 7 is deleted by operation 40, whose request succeeded. *)
Definition deleted_fs : fs := Eval vm_compute in
  (run (serve store_host) (create_app 1000 7%N "blog" 5%N None 0 ;;; tombstone 1000 7%N 40%N)%solodock empty_store).2.

Definition deletion_record : IdemRow :=
  MkIdemRow 1 "h" 40%N IsSucceeded (Some 200%Z)
    (Some (json_print [("unregistered", inl true); ("app_id", inr (uuid_to_string 7%N))])) None None None None None 0 10.

Definition deleted_tables : Tables :=
  empty_tables <| tb_records := {[ ("admin", app_route 7%N, "k") := deletion_record ]} |>.

Definition finalization : eprog mev IdempotencyError unit := finalize_succeeded_tombstones 1000.
Definition finalized := run (mserve store_host) finalization (deleted_fs, deleted_tables).
Definition finalized_log := run_log (mserve store_host) finalization (deleted_fs, deleted_tables).

(** The receipt is there and the tombstone is not. *)
Example deletion_finalized :
  finalized.1 = Some (Ok tt) /\ listing finalized.2.1 [TRASH] = Some []
  /\ tb_unregistrations finalized.2.2 !! 7%N = Some (MkUnregistrationRow 7%N 40%N UsDeletion 10 true).
Proof. split; [|split]; by vm_compute. Qed.

Lemma receipt_before_removal_witness :
  exists tr1 x tr2, finalized_log = tr1 ++ Obs (OnFiles (FsRemoveDirAll [TRASH] (tombstone_name 7%N 40%N))) x :: tr2
    /\ lawful store_host _ (foldl (mstep store_host) (deleted_fs, deleted_tables) tr1)
         (OnFiles (FsRemoveDirAll [TRASH] (tombstone_name 7%N 40%N))).
Proof.
  assert (exists x, finalized_log !! 63 = Some (Obs (OnFiles (FsRemoveDirAll [TRASH] (tombstone_name 7%N 40%N))) x))
    as [x Hx] by (eexists; by vm_compute).
  apply call_at in Hx. exists (take 63 finalized_log), x, (drop 64 finalized_log). split; [exact Hx|].
  exact (receipt_before_removal store_host finalization deleted_fs deleted_tables finalized_log _ (or_introl eq_refl)
    (run_trace _ _ _) (proj1 (mserve_relied store_host _ _)) _ _ _ _ _ Hx).
Defined.
