(* ===== verification/Auth.v ===== *)
(** * Auth: the administrator, sessions and the throttle

    [src/auth/]: bootstrap, login,
    password change, sessions and their expiry, as functions of the three
    tables and the bootstrap file. Each statement or transaction may be refused,
    or take effect and still report an error; the credential guard makes
    [login] and [change_password] exclude each other, so that each is one
    function. *)

From S2P Require Import Prelude Text Reference Models Codec Names Drafts Database Ledger PollStates.

(** ** Data *)

Inductive PasswordError := PwPolicy | PwHash | PwWorker | PwRandom.

Inductive AuthError :=
| AeSetupRequired
| AeAlreadyBootstrapped
| AeBootstrapTokenInvalid
| AeInvalidCredentials
| AeCurrentPasswordInvalid
| AeCooldown (seconds : Z)
| AeSessionRequired
| AeSessionExpired
| AePassword (error : PasswordError)
| AeDatabase
| AeStore
| AeIo
| AePermission
| AeSecret.

#[export] Instance PasswordError_eq_dec : EqDecision PasswordError.
Proof. solve_decision. Defined.
#[export] Instance AuthError_eq_dec : EqDecision AuthError.
Proof. solve_decision. Defined.

Record AdminRow := MkAdminRow { ad_password_hash : string; ad_created_at : Time; ad_updated_at : Time }.

Record SessionRow := MkSessionRow {
  se_id : Uuid;
  se_token_hash : string;
  se_created_at : Time;
  se_last_seen_at : Time;
  se_idle_expires_at : Time;
  se_absolute_expires_at : Time;
}.

Record ThrottleRow := MkThrottleRow {
  th_window_started_at : option Time;
  th_failure_count : Z;
  th_blocked_until : option Time;
}.

(** The tables, and the content of the bootstrap file. *)
Record AuthState := MkAuthState {
  at_admin : option AdminRow;
  at_sessions : list SessionRow;
  at_throttle : ThrottleRow;
  at_audit : list AuditEvent;
  at_bootstrap : option string;
}.

#[export] Instance eta_AuthState : Eta AuthState := fun r =>
  MkAuthState (at_admin r) (at_sessions r) (at_throttle r) (at_audit r) (at_bootstrap r).

Definition open_throttle : ThrottleRow := MkThrottleRow None 0 None.
Definition initial_auth : AuthState := MkAuthState None [] open_throttle [] None.

Record LoginSession := MkLoginSession {
  ls_session_token : string; ls_csrf_token : string; ls_created_at : Time; ls_expires_at : Time }.

Record AuthenticatedSession := MkAuthenticatedSession {
  ss_id : Uuid; ss_created_at : Time; ss_expires_at : Time }.

Inductive CredentialAttempt := AttemptLogin | AttemptPasswordChange.

Definition attempt_actor (a : CredentialAttempt) : string :=
  match a with AttemptLogin => "anonymous" | AttemptPasswordChange => "admin" end.
Definition attempt_action (a : CredentialAttempt) : string :=
  match a with AttemptLogin => "auth.login" | AttemptPasswordChange => "auth.password_change" end.
Definition invalid_reason (a : CredentialAttempt) : string :=
  match a with AttemptLogin => "AUTH_INVALID" | AttemptPasswordChange => "CURRENT_PASSWORD_INVALID" end.

(** ** Durations *)

Definition ABSOLUTE_TTL : Z := seconds (12 * 3600).
Definition IDLE_TTL : Z := seconds 3600.
Definition REFRESH_INTERVAL : Z := seconds 300.
Definition THROTTLE_WINDOW : Z := seconds 900.
Definition THROTTLE_LIMIT : Z := 5.
Definition THROTTLE_COOLDOWN : Z := seconds 900.

Definition idle_expiry (now absolute_expiry : Time) : Time := Z.min (now + IDLE_TTL) absolute_expiry.

(** ** Passwords *)

(** Argon2 over the trimmed password: a hash, and its verification, which fails
    on text that is no hash. *)
Class PasswordHashing := {
  argon2_hash : string -> string -> string;
  argon2_verify : string -> string -> option bool;
  argon2_verify_hash salt p : argon2_verify p (argon2_hash salt p) = Some true;
}.

Definition validate_password (password : string) : result PasswordError string :=
  let trimmed := trim password in
  refuse_if (negb ((14 <=? char_count trimmed)%nat && (char_count trimmed <=? 128)%nat) || (512 <? String.length trimmed)%nat)
    PwPolicy ;;
  Ok trimmed.

(** ** Statements *)

(** How a call goes: it is done, it fails, or it is done and reported as failed. *)
Inductive Outcome := Done | Refused | Unreported.

Definition auth (A : Type) : Type := AuthState * list Outcome -> result AuthError A * (AuthState * list Outcome).

#[export] Instance auth_ret : MRet auth := fun A a w => (Ok a, w).
#[export] Instance auth_bind : MBind auth := fun A B f m w =>
  match m w with (Ok a, w') => f a w' | (Err e, w') => (Err e, w') end.

Definition throw {A} (e : AuthError) : auth A := fun w => (Err e, w).
Definition check {A} (r : result AuthError A) : auth A := fun w => (r, w).

(** A call of a kind whose failure is [failed]. *)
Definition call {A} (failed : AuthError) (f : AuthState -> result AuthError (A * AuthState)) : auth A := fun w =>
  let '(s, outcomes) := w in
  let outcomes' := tail outcomes in
  match default Done (head outcomes), f s with
  | Done, Ok (a, s') => (Ok a, (s', outcomes'))
  | Done, Err e => (Err e, (s, outcomes'))
  | Unreported, Ok (_, s') => (Err failed, (s', outcomes'))
  | _, _ => (Err failed, (s, outcomes'))
  end.

Definition select {A} (f : AuthState -> A) : auth A := call AeDatabase (fun s => Ok (f s, s)).
Definition execute (f : AuthState -> AuthState) : auth unit := call AeDatabase (fun s => Ok (tt, f s)).

Definition has_admin : auth bool := select (fun s => is_some (at_admin s)).

Definition audit (actor : string) (request_id : Uuid) (action result : string) (reason : option string) (now : Time)
    (s : AuthState) : AuthState :=
  s <| at_audit := at_audit s ++ [MkAuditEvent actor request_id action None None result
                                    (match reason with Some r => [("reason_code", Some r)] | None => [] end) now] |>.

(** ** The service *)

Section service.
Context {CR : Crypto} {PH : PasswordHashing}.

(** [PasswordService::hash] and [verify]: the worker may fail, the random
    source gives the salt. *)
Definition worker : auth unit := call (AePassword PwWorker) (fun s => Ok (tt, s)).

Definition hash_password (salt : option string) (password : string) : auth string :=
  trimmed ← check (map_err AePassword (validate_password password));
  _ ← worker;
  salt ← check (ok_or salt (AePassword PwRandom));
  mret (argon2_hash salt trimmed).

Definition verify_password (password encoded_hash : string) : auth bool :=
  _ ← worker;
  check (ok_or (argon2_verify (trim password) encoded_hash) (AePassword PwHash)).

(** *** Bootstrap *)

(** A file that is not there is no error; the directory is synced after a removal. *)
Definition remove_bootstrap_file : auth unit :=
  removed ← call AeIo (fun s => Ok (is_some (at_bootstrap s), s <| at_bootstrap := None |>));
  if removed : bool then call AeStore (fun s => Ok (tt, s)) else mret tt.

Definition prepare_bootstrap (token : option string) : auth bool :=
  initialized ← has_admin;
  if initialized : bool then _ ← remove_bootstrap_file; mret false
  else
    token ← check (ok_or token AeSecret);
    _ ← call AeStore (fun s => Ok (tt, s <| at_bootstrap := Some token |>));
    mret true.

(** Comparison of digests, as [constant_time_eq]. *)
Definition secret_eq (a b : string) : bool := sha256 a =? sha256 b.

Definition bootstrap (now : Time) (salt : option string) (supplied_token password : string) (request_id : Uuid) : auth unit :=
  initialized ← has_admin;
  if initialized : bool then _ ← remove_bootstrap_file; throw AeAlreadyBootstrapped
  else
    _ ← call AePermission (fun s => if is_some (at_bootstrap s) then Ok (tt, s) else Err AePermission);
    expected ← call AeIo (fun s => match at_bootstrap s with Some text => Ok (text, s) | None => Err AeIo end);
    if negb (secret_eq expected supplied_token) then throw AeBootstrapTokenInvalid
    else
      hash ← hash_password salt password;
      _ ← call AeDatabase (fun s =>
        if is_some (at_admin s) then Err AeAlreadyBootstrapped
        else Ok (tt, audit "system" request_id "auth.bootstrap" "success" None now
                       (s <| at_admin := Some (MkAdminRow hash now now) |>)));
      remove_bootstrap_file.

(** *** The throttle *)

Definition ensure_not_throttled (now : Time) (request_id : Uuid) (attempt : CredentialAttempt) : auth unit :=
  blocked_until ← select (fun s => th_blocked_until (at_throttle s));
  match blocked_until with
  | Some blocked_until =>
      if (now <? blocked_until)%Z
      then _ ← execute (audit (attempt_actor attempt) request_id (attempt_action attempt) "failure" (Some "AUTH_COOLDOWN") now);
           throw (AeCooldown (Z.max ((blocked_until - now) `quot` seconds 1) 1))
      else mret tt
  | None => mret tt
  end.

Definition within_window (now : Time) (t : ThrottleRow) : bool :=
  is_some_and (th_window_started_at t) (fun started => (now - started <? THROTTLE_WINDOW)%Z).

(** The row after one more failure. *)
Definition failed_throttle (now : Time) (t : ThrottleRow) : ThrottleRow :=
  let failure_count := if within_window now t then (th_failure_count t + 1)%Z else 1%Z in
  MkThrottleRow (if within_window now t then th_window_started_at t else Some now) failure_count
    (if (THROTTLE_LIMIT <=? failure_count)%Z then Some (now + THROTTLE_COOLDOWN)%Z else None).

Definition record_credential_failure (request_id : Uuid) (now : Time) (attempt : CredentialAttempt) : auth unit :=
  execute (fun s => audit (attempt_actor attempt) request_id (attempt_action attempt) "failure" (Some (invalid_reason attempt)) now
                      (s <| at_throttle := failed_throttle now (at_throttle s) |>)).

(** *** Credentials *)

Definition stored_hash : auth string :=
  row ← select at_admin;
  check (ok_or (ad_password_hash <$> row) AeSetupRequired).

(** [id] and [token_hash] are unique. *)
Definition insert_session (row : SessionRow) (s : AuthState) : result AuthError AuthState :=
  refuse_if (existsb (fun other => (se_id other =? se_id row) || (se_token_hash other =? se_token_hash row)) (at_sessions s))
    AeDatabase ;;
  Ok (s <| at_sessions := at_sessions s ++ [row] |>).

Definition new_session (now : Time) (id : Uuid) (token : string) : SessionRow :=
  MkSessionRow id (sha256 token) now now (idle_expiry now (now + ABSOLUTE_TTL)) (now + ABSOLUTE_TTL).

(** What the environment gives to a login. *)
Record LoginInputs := MkLoginInputs {
  li_now : Time; li_session_token : option string; li_csrf_token : option string; li_id : Uuid }.

Definition login (inputs : LoginInputs) (username password : string) (request_id : Uuid) : auth LoginSession :=
  let now := li_now inputs in
  _ ← ensure_not_throttled now request_id AttemptLogin;
  password_hash ← stored_hash;
  valid ← (if username =? "admin" then verify_password password password_hash else mret false);
  if negb valid
  then _ ← record_credential_failure request_id now AttemptLogin; throw AeInvalidCredentials
  else
    session_token ← check (ok_or (li_session_token inputs) AeSecret);
    csrf_token ← check (ok_or (li_csrf_token inputs) AeSecret);
    _ ← call AeDatabase (fun s =>
      s ← insert_session (new_session now (li_id inputs) session_token) s;
      Ok (tt, audit "admin" request_id "auth.login" "success" None now (s <| at_throttle := open_throttle |>)));
    mret (MkLoginSession session_token csrf_token now (now + ABSOLUTE_TTL)).

Definition change_password (now : Time) (salt : option string) (current_password new_password : string) (request_id : Uuid)
    : auth unit :=
  _ ← ensure_not_throttled now request_id AttemptPasswordChange;
  password_hash ← stored_hash;
  valid ← verify_password current_password password_hash;
  if negb valid
  then _ ← record_credential_failure request_id now AttemptPasswordChange; throw AeCurrentPasswordInvalid
  else
    hash ← hash_password salt new_password;
    execute (fun s => audit "admin" request_id "auth.password_change" "success" None now
      (s <| at_admin := (fun row => MkAdminRow hash (ad_created_at row) now) <$> at_admin s |>
         <| at_sessions := [] |> <| at_throttle := open_throttle |>)).

(** *** Sessions *)

Definition find_session (token : string) (s : AuthState) : option SessionRow :=
  head (filter (fun row => se_token_hash row = sha256 token) (at_sessions s)).

Definition delete_session (id : Uuid) (s : AuthState) : AuthState :=
  s <| at_sessions := filter (fun row => se_id row <> id) (at_sessions s) |>.

Definition refresh_session (now : Time) (row : SessionRow) (s : AuthState) : AuthState :=
  s <| at_sessions := map (fun other => if se_id other =? se_id row
         then MkSessionRow (se_id other) (se_token_hash other) (se_created_at other) now
                (idle_expiry now (se_absolute_expires_at row)) (se_absolute_expires_at other)
         else other) (at_sessions s) |>.

Definition authenticate (now : Time) (token : string) : auth AuthenticatedSession :=
  initialized ← has_admin;
  if negb initialized then throw AeSetupRequired
  else
    row ← select (find_session token);
    row ← check (ok_or row AeSessionRequired);
    if (se_idle_expires_at row <=? now)%Z || (se_absolute_expires_at row <=? now)%Z
    then _ ← execute (delete_session (se_id row)); throw AeSessionExpired
    else
      _ ← (if (REFRESH_INTERVAL <=? now - se_last_seen_at row)%Z then execute (refresh_session now row) else mret tt);
      mret (MkAuthenticatedSession (se_id row) (se_created_at row) (se_absolute_expires_at row)).

Definition logout (now : Time) (token : string) (request_id : Uuid) : auth unit :=
  execute (fun s => audit "admin" request_id "auth.logout" "success" None now
    (s <| at_sessions := filter (fun row => se_token_hash row <> sha256 token) (at_sessions s) |>)).

Definition revoke_all (now : Time) (request_id : Uuid) : auth unit :=
  execute (fun s => audit "admin" request_id "auth.revoke_all" "success" None now (s <| at_sessions := [] |>)).
End service.
