(* ===== verification/AuthTheorems.v ===== *)
(** * AuthTheorems: who is let in *)

From Stdlib Require Import Ascii.
From S2P Require Import Prelude Text Reference Models Codec Names Drafts Database Ledger PollStates Auth.

(** ** Histories *)

Section histories.
Context {CR : Crypto} {PH : PasswordHashing}.

(** A request, with what the environment gives to it. *)
Inductive AuthOp :=
| OpPrepare (token : option string)
| OpBootstrap (now : Time) (salt : option string) (token password : string) (request_id : Uuid)
| OpLogin (inputs : LoginInputs) (username password : string) (request_id : Uuid)
| OpChange (now : Time) (salt : option string) (current_password new_password : string) (request_id : Uuid)
| OpAuthenticate (now : Time) (token : string)
| OpLogout (now : Time) (token : string) (request_id : Uuid)
| OpRevokeAll (now : Time) (request_id : Uuid).

(** What was answered. *)
Inductive Answer :=
| AnswerUnit (r : result AuthError unit)
| AnswerBool (r : result AuthError bool)
| AnswerLogin (r : result AuthError LoginSession)
| AnswerSession (r : result AuthError AuthenticatedSession).

Definition answering {A} (wrap : result AuthError A -> Answer) (m : auth A) (outcomes : list Outcome) (s : AuthState) : Answer * AuthState :=
  let '(r, (s', _)) := m (s, outcomes) in (wrap r, s').

Definition serve_auth (request : AuthOp * list Outcome) (s : AuthState) : Answer * AuthState :=
  let '(op, outcomes) := request in
  match op with
  | OpPrepare token => answering AnswerBool (prepare_bootstrap token) outcomes s
  | OpBootstrap now salt token password id => answering AnswerUnit (bootstrap now salt token password id) outcomes s
  | OpLogin inputs username password id => answering AnswerLogin (login inputs username password id) outcomes s
  | OpChange now salt current new id => answering AnswerUnit (change_password now salt current new id) outcomes s
  | OpAuthenticate now token => answering AnswerSession (authenticate now token) outcomes s
  | OpLogout now token id => answering AnswerUnit (logout now token id) outcomes s
  | OpRevokeAll now id => answering AnswerUnit (revoke_all now id) outcomes s
  end.

Definition after (h : list (AuthOp * list Outcome)) (s : AuthState) : AuthState :=
  foldl (fun s request => (serve_auth request s).2) s h.

(** What was answered to each request of a history. *)
Fixpoint answers (h : list (AuthOp * list Outcome)) (s : AuthState) : list (AuthOp * Answer) :=
  match h with
  | [] => []
  | request :: h => let '(answer, s') := serve_auth request s in (request.1, answer) :: answers h s'
  end.

Lemma after_app h1 h2 s : after (h1 ++ h2) s = after h2 (after h1 s).
Proof. apply foldl_app. Qed.

Lemma answers_app h1 h2 s : answers (h1 ++ h2) s = answers h1 s ++ answers h2 (after h1 s).
Proof.
  revert s. induction h1 as [|request h1 IH]; intros s; [done|]. simpl.
  destruct (serve_auth request s) as [answer s'] eqn:E. by rewrite IH.
Qed.

(** The password of the attempt is the administrator's. *)
Definition valid_attempt (op : AuthOp) (s : AuthState) : Prop :=
  exists row, at_admin s = Some row /\
  match op with
  | OpLogin _ username password _ => username = "admin" /\ argon2_verify (trim password) (ad_password_hash row) = Some true
  | OpChange _ _ current _ _ => argon2_verify (trim current) (ad_password_hash row) = Some true
  | _ => False
  end.

Definition attempt_time (op : AuthOp) : option Time :=
  match op with OpLogin inputs _ _ _ => Some (li_now inputs) | OpChange now _ _ _ _ => Some now | _ => None end.

(** ** Reasoning about the calls *)

Definition holds {A} (m : auth A) (s : AuthState) (Q : result AuthError A -> AuthState -> Prop) : Prop :=
  forall outcomes, Q (m (s, outcomes)).1 (m (s, outcomes)).2.1.

Lemma holds_ret {A} (a : A) s (Q : _ -> _ -> Prop) : Q (Ok a) s -> holds (mret a) s Q.
Proof. intros H outcomes. exact H. Qed.

Lemma holds_throw {A} (e : AuthError) s (Q : result AuthError A -> _ -> Prop) : Q (Err e) s -> holds (throw e) s Q.
Proof. intros H outcomes. exact H. Qed.

Lemma holds_check {A} (r : result AuthError A) s (Q : _ -> _ -> Prop) : Q r s -> holds (check r) s Q.
Proof. intros H outcomes. exact H. Qed.

Lemma holds_bind {A B} (m : auth A) (f : A -> auth B) s Q :
  holds m s (fun r s' => match r with Ok a => holds (f a) s' Q | Err e => Q (Err e) s' end) -> holds (m ≫= f) s Q.
Proof.
  intros H outcomes. specialize (H outcomes). unfold mbind, auth_bind. destruct (m (s, outcomes)) as [[a|e] [s' o']]; [apply H|exact H].
Qed.

Lemma holds_call {A} failed (f : AuthState -> result AuthError (A * AuthState)) s (Q : _ -> _ -> Prop) :
  Q (Err failed) s ->
  match f s with Ok (a, s') => Q (Ok a) s' /\ Q (Err failed) s' | Err e => Q (Err e) s end -> holds (call failed f) s Q.
Proof.
  intros Hf H outcomes. unfold call. destruct (default Done (head outcomes)), (f s) as [[a s']|e]; try done; tauto.
Qed.

Lemma holds_select {A} (f : AuthState -> A) s (Q : _ -> _ -> Prop) :
  Q (Err AeDatabase) s -> Q (Ok (f s)) s -> holds (select f) s Q.
Proof. intros H1 H2. by apply holds_call. Qed.

Lemma holds_execute (f : AuthState -> AuthState) s (Q : _ -> _ -> Prop) :
  Q (Err AeDatabase) s -> Q (Err AeDatabase) (f s) -> Q (Ok tt) (f s) -> holds (execute f) s Q.
Proof. intros H1 H2 H3. by apply holds_call. Qed.

Lemma holds_mono {A} (m : auth A) s (P Q : result AuthError A -> AuthState -> Prop) :
  holds m s P -> (forall r s', P r s' -> Q r s') -> holds m s Q.
Proof. intros H HQ outcomes. apply HQ, H. Qed.

Lemma holds_answer {A} wrap (m : auth A) outcomes s (Q : Answer * AuthState -> Prop) :
  holds m s (fun r s' => Q (wrap r, s')) -> Q (answering wrap m outcomes s).
Proof. intros H. specialize (H outcomes). unfold answering. by destruct (m (s, outcomes)) as [r [s' o']]. Qed.

(** What the operations read and check leaves the state alone. *)
Lemma holds_admin s (Q : result AuthError bool -> AuthState -> Prop) :
  Q (Err AeDatabase) s -> Q (Ok (is_some (at_admin s))) s -> holds has_admin s Q.
Proof. intros H1 H2. unfold has_admin. by apply (holds_select (fun s => is_some (at_admin s))). Qed.

(** The errors that tell nothing of a password or a session. *)
Definition quiet (e : AuthError) : bool :=
  match e with AeInvalidCredentials | AeCurrentPasswordInvalid | AeSessionExpired => false | _ => true end.

Lemma holds_hash salt password s (Q : result AuthError string -> AuthState -> Prop) :
  (forall e, quiet e = true -> Q (Err e) s) -> (forall hash, Q (Ok hash) s) -> holds (hash_password salt password) s Q.
Proof.
  intros He HQ. unfold hash_password. apply holds_bind, holds_check.
  destruct (validate_password password) as [p|e]; simpl; [|by apply He].
  apply holds_bind, holds_call; [by apply He|]. split; [|by apply He]. apply holds_bind, holds_check.
  destruct salt; simpl; [by apply holds_ret|by apply He].
Qed.

Lemma holds_verify password hash s (Q : result AuthError bool -> AuthState -> Prop) :
  (forall e, quiet e = true -> Q (Err e) s) -> (forall b, argon2_verify (trim password) hash = Some b -> Q (Ok b) s) ->
  holds (verify_password password hash) s Q.
Proof.
  intros He HQ. unfold verify_password. apply holds_bind, holds_call; [by apply He|]. split; [|by apply He]. apply holds_check.
  destruct (argon2_verify _ _) as [b|] eqn:E; [by apply HQ|by apply He].
Qed.

Lemma holds_stored s (Q : result AuthError string -> AuthState -> Prop) :
  (forall e, quiet e = true -> Q (Err e) s) -> (forall row, at_admin s = Some row -> Q (Ok (ad_password_hash row)) s) ->
  holds stored_hash s Q.
Proof.
  intros He HQ. unfold stored_hash. apply holds_bind, holds_select; [by apply He|]. apply holds_check.
  destruct (at_admin s) as [row|]; [by apply HQ|by apply He].
Qed.

(** The cooldown changes nothing but the audit log. *)
Definition same_but_audit (s s' : AuthState) : Prop :=
  at_admin s' = at_admin s /\ at_sessions s' = at_sessions s /\ at_throttle s' = at_throttle s /\ at_bootstrap s' = at_bootstrap s.

Lemma holds_throttled now id attempt s (Q : result AuthError unit -> AuthState -> Prop) :
  (forall e s', quiet e = true -> same_but_audit s s' -> Q (Err e) s') ->
  ((forall u, th_blocked_until (at_throttle s) = Some u -> (u <= now)%Z) -> Q (Ok tt) s) ->
  holds (ensure_not_throttled now id attempt) s Q.
Proof.
  intros He HQ. unfold ensure_not_throttled. apply holds_bind, holds_select; [by apply He|].
  destruct (th_blocked_until (at_throttle s)) as [u|] eqn:Hu; [|apply holds_ret, HQ; by intros ?].
  destruct (now <? u)%Z eqn:Hn; [|apply holds_ret, HQ; intros ? [= <-]; apply Z.ltb_ge in Hn; lia].
  apply holds_bind, holds_execute; try (by apply He). by apply holds_throw, He.
Qed.

(** What a login ends in: nothing done, a failure recorded, or a session. *)
Definition unblocked (now : Time) (s : AuthState) : Prop :=
  forall u, th_blocked_until (at_throttle s) = Some u -> (u <= now)%Z.

Definition fresh_session (row : SessionRow) (s : AuthState) : Prop :=
  forall other, other ∈ at_sessions s -> se_id other <> se_id row /\ se_token_hash other <> se_token_hash row.

Lemma insert_session_inv row s s' :
  insert_session row s = Ok s' -> fresh_session row s /\ s' = s <| at_sessions := at_sessions s ++ [row] |>.
Proof.
  unfold insert_session. intros H. ok_inv. split; [|done]. intros other Ho.
  assert ((se_id other =? se_id row) || (se_token_hash other =? se_token_hash row) = false) as Hn.
  { apply not_true_is_false. intros Ht. rewrite <- not_true_iff_false in E. apply E, existsb_exists.
    exists other. by rewrite <- list_elem_of_In. }
  by bools.
Qed.

Lemma holds_login inputs username password id s (Q : result AuthError LoginSession -> AuthState -> Prop) :
  (forall e s', quiet e = true -> same_but_audit s s' -> Q (Err e) s') ->
  (unblocked (li_now inputs) s -> forall e s', at_sessions s' = at_sessions s ->
     at_throttle s' = failed_throttle (li_now inputs) (at_throttle s) -> Q (Err e) s') ->
  (valid_attempt (OpLogin inputs username password id) s -> forall token s',
     li_session_token inputs = Some token -> fresh_session (new_session (li_now inputs) (li_id inputs) token) s ->
     at_sessions s' = at_sessions s ++ [new_session (li_now inputs) (li_id inputs) token] -> at_throttle s' = open_throttle ->
     (forall session, Q (Ok session) s') /\ Q (Err AeDatabase) s') ->
  holds (login inputs username password id) s Q.
Proof.
  intros Hquiet Hfail Hgood. unfold login. apply holds_bind, holds_throttled; [apply Hquiet|]. intros Hu.
  assert (forall e, quiet e = true -> Q (Err e) s) as He by (by intros; apply Hquiet).
  apply holds_bind, holds_stored; [apply He|]. intros row Hrow.
  assert (holds (_ ← record_credential_failure id (li_now inputs) AttemptLogin; throw AeInvalidCredentials) s Q) as Hbad.
  { apply holds_bind, holds_execute; [by apply He|by apply Hfail..|by apply holds_throw, Hfail]. }
  apply holds_bind. destruct (username =? "admin") eqn:Hname; [|by apply holds_ret].
  apply holds_verify; [apply He|]. intros [] Hv; [|done]. simpl.
  apply holds_bind, holds_check. destruct (li_session_token inputs) as [token|]; [|by apply He]. simpl.
  apply holds_bind, holds_check. destruct (li_csrf_token inputs) as [csrf|]; [|by apply He]. simpl.
  apply holds_bind, holds_call; [by apply He|].
  destruct (insert_session _ s) as [s1|e] eqn:Hi; simpl.
  - apply insert_session_inv in Hi as [Hfresh ->]. apply bool_decide_eq_true in Hname.
    assert (valid_attempt (OpLogin inputs username password id) s) as Hvalid by (by exists row).
    split; [apply holds_ret|]; by apply (Hgood Hvalid token).
  - apply He. unfold insert_session in Hi. destruct (existsb _ _); simpl in Hi; by simplify_eq.
Qed.

Lemma holds_change now salt current new id s (Q : result AuthError unit -> AuthState -> Prop) :
  (forall e s', quiet e = true -> same_but_audit s s' -> Q (Err e) s') ->
  (unblocked now s -> forall e s', at_sessions s' = at_sessions s ->
     at_throttle s' = failed_throttle now (at_throttle s) -> Q (Err e) s') ->
  (valid_attempt (OpChange now salt current new id) s -> forall s', at_sessions s' = [] -> at_throttle s' = open_throttle ->
     Q (Ok tt) s' /\ Q (Err AeDatabase) s') ->
  holds (change_password now salt current new id) s Q.
Proof.
  intros Hquiet Hfail Hgood. unfold change_password. apply holds_bind, holds_throttled; [apply Hquiet|]. intros Hu.
  assert (forall e, quiet e = true -> Q (Err e) s) as He by (by intros; apply Hquiet).
  apply holds_bind, holds_stored; [apply He|]. intros row Hrow.
  apply holds_bind, holds_verify; [apply He|]. intros [] Hv; simpl.
  - apply holds_bind, holds_hash; [apply He|]. intros hash. apply holds_execute; [by apply He|..];
      by apply (Hgood ltac:(by exists row)).
  - apply holds_bind, holds_execute; [by apply He|by apply Hfail..|by apply holds_throw, Hfail].
Qed.

Ltac calls :=
  repeat first [apply holds_ret|apply holds_throw|apply holds_hash; intros|apply holds_bind|apply holds_admin|apply holds_check
               |apply holds_select|apply holds_execute|apply holds_call|progress simplify_eq|case_match|split].

(** Neither preparing nor completing the bootstrap touches a session or the throttle. *)
Definition quiet_result {A} (r : result AuthError A) : bool := match r with Ok _ => true | Err e => quiet e end.

Lemma holds_prepare token s (Q : result AuthError bool -> AuthState -> Prop) :
  (forall r s', quiet_result r = true -> at_sessions s' = at_sessions s /\ at_throttle s' = at_throttle s -> Q r s') ->
  holds (prepare_bootstrap token) s Q.
Proof. intros HQ. unfold prepare_bootstrap, remove_bootstrap_file. destruct token; calls; by apply HQ. Qed.

Lemma holds_bootstrap now salt token password id s (Q : result AuthError unit -> AuthState -> Prop) :
  (forall r s', quiet_result r = true -> at_sessions s' = at_sessions s /\ at_throttle s' = at_throttle s -> Q r s') ->
  holds (bootstrap now salt token password id) s Q.
Proof. intros HQ. unfold bootstrap, remove_bootstrap_file. calls; by apply HQ. Qed.

(** ** The throttle *)

(** The attempt is made from [a] on and before the end of the window. *)
Definition attempted_within (a : Time) (request : AuthOp * list Outcome) : Prop :=
  match attempt_time request.1 with Some t => (a <= t < a + THROTTLE_WINDOW)%Z | None => True end.

(** The attempt is made with the password the administrator has. *)
Definition right_password (op : AuthOp) (s : AuthState) : bool :=
  match at_admin s, op with
  | Some row, OpLogin _ username password _ =>
      (username =? "admin") && bool_decide (argon2_verify (trim password) (ad_password_hash row) = Some true)
  | Some row, OpChange _ _ current _ _ => bool_decide (argon2_verify (trim current) (ad_password_hash row) = Some true)
  | _, _ => false
  end.

Lemma right_password_spec op s : right_password op s = true <-> valid_attempt op s.
Proof.
  unfold right_password, valid_attempt. destruct (at_admin s) as [row|]; [|by split; [|intros (? & ? & _)]].
  destruct op; try (by split; [|intros (? & [= <-] & ?)]).
  - rewrite andb_true_iff, !bool_decide_eq_true. split; [by exists row|by intros (? & [= <-] & ?)].
  - rewrite bool_decide_eq_true. split; [by exists row|by intros (? & [= <-] & ?)].
Qed.

(** How many attempts of a history are. *)
Fixpoint right_passwords (h : list (AuthOp * list Outcome)) (s : AuthState) : nat :=
  match h with
  | [] => 0
  | request :: h => (if right_password request.1 s then 1 else 0) + right_passwords h (serve_auth request s).2
  end.

(** The answer tells that the password is wrong. *)
Definition denied (answered : AuthOp * Answer) : bool :=
  match answered.2 with
  | AnswerLogin (Err AeInvalidCredentials) | AnswerUnit (Err AeCurrentPasswordInvalid) => true
  | _ => false
  end.

Definition wf_throttle (t : ThrottleRow) : Prop := is_Some (th_window_started_at t) -> (1 <= th_failure_count t)%Z.

(** How many wrong passwords can still be tried in the window from [a]. *)
Definition remaining (a : Time) (t : ThrottleRow) : Z :=
  let c := th_failure_count t in
  if is_some_and (th_blocked_until t) (fun u => (a + THROTTLE_WINDOW <=? u)%Z) then 0
  else match th_window_started_at t with
       | None => 5
       | Some started =>
           if (a <=? started)%Z then (if (5 <=? c)%Z then 1 else 5 - c)
           else (if (5 <=? c)%Z then 5 else 9 - c)
       end.

Lemma remaining_bounds a t : wf_throttle t -> (0 <= remaining a t <= 8)%Z.
Proof.
  unfold wf_throttle, remaining. destruct t as [[started|] c [u|]]; simpl; intros H; try (specialize (H ltac:(by eexists)));
    repeat case_match; lia.
Qed.

(** A failure uses one of them up. *)
Lemma remaining_failed a now t :
  wf_throttle t -> (a <= now < a + THROTTLE_WINDOW)%Z -> (forall u, th_blocked_until t = Some u -> (u <= now)%Z) ->
  wf_throttle (failed_throttle now t) /\ (remaining a (failed_throttle now t) + 1 <= remaining a t)%Z.
Proof.
  unfold wf_throttle, remaining, failed_throttle, within_window, THROTTLE_LIMIT, THROTTLE_COOLDOWN.
  set (w := THROTTLE_WINDOW). assert (seconds 900 = w) as -> by done.
  destruct t as [[started|] c [u|]]; simpl; intros Hc Hnow Hu; try (specialize (Hc ltac:(by eexists)));
    try (specialize (Hu _ eq_refl)); repeat case_match; simpl in *; repeat case_match; simpl in *; lia.
Qed.

(** What a request does to the throttle. *)
Inductive throttled (op : AuthOp) (s : AuthState) : Answer * AuthState -> Prop :=
| throttle_kept answer s' :
    at_throttle s' = at_throttle s -> denied (op, answer) = false -> throttled op s (answer, s')
| throttle_failed answer s' now :
    attempt_time op = Some now -> unblocked now s ->
    at_throttle s' = failed_throttle now (at_throttle s) -> throttled op s (answer, s')
| throttle_opened answer s' :
    valid_attempt op s -> at_throttle s' = open_throttle -> denied (op, answer) = false -> throttled op s (answer, s').

Lemma serve_throttled request s : throttled request.1 s (serve_auth request s).
Proof.
  destruct request as [op outcomes]; destruct op; simpl; apply holds_answer.
  - apply holds_prepare. intros r s' Hr Hs. apply throttle_kept; [apply Hs|by destruct r as [|[]]].
  - apply holds_bootstrap. intros r s' Hr Hs. apply throttle_kept; [apply Hs|by destruct r as [|[]]].
  - apply holds_login; [intros [] s' He (_ & _ & Ht & _); by apply throttle_kept|by intros; eapply throttle_failed|].
    intros. split; intros; by apply throttle_opened.
  - apply holds_change; [intros [] s' He (_ & _ & Ht & _); by apply throttle_kept|by intros; eapply throttle_failed|].
    intros. split; intros; by apply throttle_opened.
  - unfold authenticate. calls; by apply throttle_kept.
  - unfold logout. calls; by apply throttle_kept.
  - unfold revoke_all. calls; by apply throttle_kept.
Qed.

Lemma throttle_wf_after h s : wf_throttle (at_throttle s) -> wf_throttle (at_throttle (after h s)).
Proof.
  revert s. induction h as [|request h IH]; intros s Hs; [done|]. apply (IH (serve_auth request s).2).
  destruct (serve_throttled request s) as [? s' Ht|? s' now _ _ Ht|? s' _ Ht]; simpl; rewrite Ht; [done| |by intros [? [=]]].
  unfold wf_throttle, failed_throttle, within_window in *. destruct (at_throttle s) as [[started|] c u]; simpl in *; [|done].
  specialize (Hs ltac:(by eexists)). intros _. case_match; lia.
Qed.

Lemma denials_bounded a h s :
  wf_throttle (at_throttle s) -> Forall (attempted_within a) h ->
  (Z.of_nat (length (filter (fun answered => denied answered = true) (answers h s)))
   <= remaining a (at_throttle s) + 5 * Z.of_nat (right_passwords h s))%Z.
Proof.
  intros Hwf Hh. revert s Hwf. induction Hh as [|request h Htime Hh IH]; intros s Hwf; cbn [answers right_passwords].
  { apply remaining_bounds with (a := a) in Hwf. simpl. lia. }
  pose proof (remaining_bounds a _ Hwf) as Hrem.
  pose proof (throttle_wf_after [request] s Hwf) as Hwf'. change (after [request] s) with (serve_auth request s).2 in Hwf'.
  destruct (serve_throttled request s) as [answer s' Hs' Hd|answer s' now Hnow Hu Hs'|answer s' Hv Hs' Hd];
    specialize (IH s' Hwf'); rewrite filter_cons; cbn [snd] in *; rewrite Hs' in IH.
  - rewrite Hd. simpl. lia.
  - unfold attempted_within in Htime. rewrite Hnow in Htime.
    destruct (remaining_failed a now (at_throttle s) Hwf Htime Hu) as [_ Hr]. case_decide; simpl; lia.
  - rewrite Hd. apply right_password_spec in Hv as ->. change (remaining a open_throttle) with 5%Z in IH. simpl. lia.
Qed.

(** C29: In any 15 minutes, whatever happened before, whatever calls fail and in
    whichever order the clock is read, the answers that a password is wrong, over
    all clients together, are at most eight, and five more for each attempt made
    in that time with the right password, which resets the one throttle there
    is: a client that does not know the password gets at most eight while the
    administrator does not log in or change the password. *)
Theorem guesses_bounded (a : Time) (before h : list (AuthOp * list Outcome)) :
  Forall (attempted_within a) h ->
  (length (filter (fun answered => denied answered = true) (answers h (after before initial_auth)))
   <= 8 + 5 * right_passwords h (after before initial_auth))%nat.
Proof.
  intros Hh. assert (wf_throttle (at_throttle (after before initial_auth))) as Hwf.
  { apply throttle_wf_after. by intros [? [=]]. }
  pose proof (denials_bounded a h _ Hwf Hh). pose proof (remaining_bounds a _ Hwf). lia.
Qed.

(** ** Sessions *)

Record wf_sessions (s : AuthState) : Prop := {
  session_ids : NoDup (se_id <$> at_sessions s);
  session_hashes : NoDup (se_token_hash <$> at_sessions s);
}.

(** The request uses the session of the token with this hash, at a time. *)
Definition uses (hash : string) (op : AuthOp) : option Time :=
  match op with
  | OpLogin inputs _ _ _ => if (sha256 <$> li_session_token inputs) =? Some hash then Some (li_now inputs) else None
  | OpAuthenticate now token => if sha256 token =? hash then Some now else None
  | _ => None
  end.

(** The request, as answered, ends that session. *)
Definition ends (hash : string) (answered : AuthOp * Answer) : bool :=
  match answered with
  | (OpChange _ _ _ _ _, AnswerUnit (Ok _)) | (OpRevokeAll _ _, AnswerUnit (Ok _)) => true
  | (OpLogout _ token _, AnswerUnit (Ok _)) => sha256 token =? hash
  | (OpAuthenticate _ token, AnswerSession (Err AeSessionExpired)) => sha256 token =? hash
  | _ => false
  end.

Definition refreshed (now : Time) (row : SessionRow) : SessionRow :=
  MkSessionRow (se_id row) (se_token_hash row) (se_created_at row) now (idle_expiry now (se_absolute_expires_at row))
    (se_absolute_expires_at row).

(** Where a session of the table comes from. *)
Inductive stems (op : AuthOp) (s : AuthState) (answer : Answer) : SessionRow -> Prop :=
| stems_kept row : row ∈ at_sessions s -> ends (se_token_hash row) (op, answer) = false -> stems op s answer row
| stems_used row now :
    row ∈ at_sessions s -> ends (se_token_hash row) (op, answer) = false -> uses (se_token_hash row) op = Some now ->
    stems op s answer (refreshed now row)
| stems_login inputs username password id token :
    op = OpLogin inputs username password id -> valid_attempt op s -> li_session_token inputs = Some token ->
    stems op s answer (new_session (li_now inputs) (li_id inputs) token).

Definition traced (op : AuthOp) (s : AuthState) (served : Answer * AuthState) : Prop :=
  wf_sessions served.2 /\ forall row, row ∈ at_sessions served.2 -> stems op s served.1 row.

Lemma traced_kept op s answer s' :
  wf_sessions s -> at_sessions s' = at_sessions s -> (forall row, row ∈ at_sessions s -> ends (se_token_hash row) (op, answer) = false) ->
  traced op s (answer, s').
Proof.
  intros [H1 H2] Hs Hends. split; simpl; [by split; rewrite Hs|]. rewrite Hs. intros row Hrow. by apply stems_kept; auto.
Qed.

Lemma traced_filtered (P : SessionRow -> Prop) `{!forall row, Decision (P row)} op s answer s' :
  wf_sessions s -> at_sessions s' = filter P (at_sessions s) ->
  (forall row, row ∈ at_sessions s -> P row -> ends (se_token_hash row) (op, answer) = false) -> traced op s (answer, s').
Proof.
  intros [H1 H2] Hs Hends. assert (at_sessions s' `sublist_of` at_sessions s) as Hsub by (rewrite Hs; apply sublist_filter).
  split; simpl.
  - split; [eapply sublist_NoDup; [apply H1|]|eapply sublist_NoDup; [apply H2|]]; by apply fmap_sublist.
  - intros row. rewrite Hs, list_elem_of_filter. intros [HP Hrow]. apply stems_kept; auto.
Qed.

Lemma fmap_NoDup_inj {A B} (f : A -> B) (l : list A) x y : NoDup (f <$> l) -> x ∈ l -> y ∈ l -> f x = f y -> x = y.
Proof.
  intros Hnd [i Hi]%list_elem_of_lookup [j Hj]%list_elem_of_lookup Hf.
  assert (i = j) as ->; [|by simplify_eq].
  eapply NoDup_lookup; [exact Hnd|by rewrite list_lookup_fmap, Hi|by rewrite list_lookup_fmap, Hj, Hf].
Qed.

Lemma find_session_inv token s row : find_session token s = Some row -> row ∈ at_sessions s /\ se_token_hash row = sha256 token.
Proof.
  unfold find_session. intros H. assert (row ∈ filter (fun row => se_token_hash row = sha256 token) (at_sessions s)) as Hin.
  { destruct (filter _ _); simpl in H; [done|]. simplify_eq. apply list_elem_of_here. }
  apply list_elem_of_filter in Hin. tauto.
Qed.

Lemma refresh_session_keys {A} (f : SessionRow -> A) now row s :
  (forall other, f other = f (MkSessionRow (se_id other) (se_token_hash other) (se_created_at other) now
                               (idle_expiry now (se_absolute_expires_at row)) (se_absolute_expires_at other))) ->
  f <$> at_sessions (refresh_session now row s) = f <$> at_sessions s.
Proof.
  intros Hf. unfold refresh_session. simpl. rewrite <- list_fmap_compose. apply list_fmap_ext. intros i other _. simpl.
  case_match; [by rewrite <- Hf|done].
Qed.

Lemma traced_refreshed now token row s answer :
  wf_sessions s -> find_session token s = Some row -> answer <> AnswerSession (Err AeSessionExpired) ->
  traced (OpAuthenticate now token) s (answer, refresh_session now row s).
Proof.
  intros Hwf [Hrow Hhash]%find_session_inv Hanswer.
  assert (forall hash, ends hash (OpAuthenticate now token, answer) = false) as Hends.
  { intros hash. simpl. destruct answer as [| | |[|[]]]; done. }
  split; simpl.
  - destruct Hwf as [H1 H2]. by split; rewrite refresh_session_keys.
  - intros row' Hrow'. unfold refresh_session in Hrow'. simpl in Hrow'.
    apply list_elem_of_fmap in Hrow' as (other & -> & Hother). destruct (se_id other =? se_id row) eqn:Hid; bools.
    + assert (other = row) as -> by (eapply fmap_NoDup_inj; [apply (session_ids s Hwf)|done..]).
      apply (stems_used _ _ _ row now); [done..|]. simpl. by rewrite bool_decide_true.
    + by apply stems_kept.
Qed.

Lemma authenticate_traced now token s :
  wf_sessions s -> holds (authenticate now token) s (fun r s' => traced (OpAuthenticate now token) s (AnswerSession r, s')).
Proof.
  intros Hwf. assert (forall e, quiet e = true -> traced (OpAuthenticate now token) s (AnswerSession (Err e), s)) as Hq.
  { intros e He. apply traced_kept; [done..|]. intros row _. by destruct e. }
  unfold authenticate. apply holds_bind, holds_admin; [by apply Hq|].
  destruct (is_some (at_admin s)); simpl; [|by apply holds_throw, Hq].
  apply holds_bind, holds_select; [by apply Hq|]. apply holds_bind, holds_check.
  destruct (find_session token s) as [row|] eqn:Hfind; simpl; [|by apply Hq].
  destruct (find_session_inv _ _ _ Hfind) as [Hrow Hhash].
  case_match.
  - assert (forall e, traced (OpAuthenticate now token) s (AnswerSession (Err e), delete_session (se_id row) s)) as Hdel.
    { intros e. eapply (traced_filtered (fun other => se_id other <> se_id row)); [done..|].
      intros other Ho Hid. simpl. assert (sha256 token <> se_token_hash other) as Hne.
      { intros Heq. apply Hid. f_equal. eapply fmap_NoDup_inj; [apply (session_hashes s Hwf)|done..|congruence]. }
      destruct e; try done. by apply bool_decide_eq_false. }
    apply holds_bind, holds_execute; [by apply Hq|apply Hdel|apply holds_throw, Hdel].
  - apply holds_bind. case_match.
    + apply holds_execute; [by apply Hq|by apply traced_refreshed|]. apply holds_ret. by apply traced_refreshed.
    + apply holds_ret, holds_ret. by apply traced_kept.
Qed.

Lemma NoDup_snoc_key {A B} (key : A -> B) (l : list A) x :
  NoDup (key <$> l) -> (forall y, y ∈ l -> key y <> key x) -> NoDup (key <$> l ++ [x]).
Proof.
  intros Hl Hx. rewrite fmap_app. apply list.NoDup_app. split_and!; [done| |apply list.NoDup_singleton].
  intros k (y & -> & Hy)%list_elem_of_fmap Hk%list_elem_of_singleton. by apply (Hx y).
Qed.

Lemma login_traced inputs username password id s :
  wf_sessions s ->
  holds (login inputs username password id) s (fun r s' => traced (OpLogin inputs username password id) s (AnswerLogin r, s')).
Proof.
  intros Hwf. apply holds_login; [intros e s' _ (_ & Hs & _); by apply traced_kept|by intros; apply traced_kept|].
  intros Hv token s' Ht Hfresh Hs _.
  assert (forall r, traced (OpLogin inputs username password id) s (AnswerLogin r, s')) as Hgood; [|split; intros; apply Hgood].
  intros r. destruct Hwf as [H1 H2]. split; [split|]; simpl; rewrite Hs.
  - by apply (NoDup_snoc_key se_id); [|intros other Ho; apply Hfresh].
  - by apply (NoDup_snoc_key se_token_hash); [|intros other Ho; apply Hfresh].
  - intros row [Hrow| ->%list_elem_of_singleton]%elem_of_app; [by apply stems_kept|by eapply stems_login].
Qed.

Lemma traced_emptied op s answer s' : at_sessions s' = [] -> traced op s (answer, s').
Proof. intros Hs. split; simpl; rewrite ?Hs; [split; rewrite Hs; apply NoDup_nil_2|by intros row ?%not_elem_of_nil]. Qed.

Lemma serve_traced request s : wf_sessions s -> traced request.1 s (serve_auth request s).
Proof.
  intros Hwf. destruct request as [op outcomes]; destruct op; simpl; apply holds_answer.
  - apply holds_prepare. intros r s' _ [Hs _]. by apply traced_kept.
  - apply holds_bootstrap. intros r s' _ [Hs _]. by apply traced_kept.
  - by apply login_traced.
  - apply holds_change.
    + intros e s' _ (_ & Hs & _). by apply traced_kept.
    + intros _ e s' Hs _. by apply traced_kept.
    + intros _ s' Hs _. split; by apply traced_emptied.
  - by apply authenticate_traced.
  - apply holds_execute; [by apply traced_kept|..]; eapply (traced_filtered (fun row => se_token_hash row <> sha256 token)); try done.
    intros row _ Hne. simpl. apply bool_decide_eq_false. congruence.
  - apply holds_execute; [by apply traced_kept|by apply traced_emptied..].
Qed.

(** A session opened in the history, at [created], with the token that has this
    hash, last used at [used] and not ended since: the login is one of the
    history's requests, with the password of the time. *)
Definition opened (h : list (AuthOp * list Outcome)) (hash : string) (created used : Time) : Prop :=
  exists h1 inputs username password id outcomes h2,
    let login := (OpLogin inputs username password id, outcomes) in
    h = h1 ++ login :: h2 /\
    valid_attempt login.1 (after h1 initial_auth) /\
    sha256 <$> li_session_token inputs = Some hash /\ li_now inputs = created /\
    (exists request, request ∈ login :: h2 /\ uses hash request.1 = Some used) /\
    Forall (fun answered => ends hash answered = false) (answers h2 (after (h1 ++ [login]) initial_auth)).

Definition session_ok (h : list (AuthOp * list Outcome)) (row : SessionRow) : Prop :=
  opened h (se_token_hash row) (se_created_at row) (se_last_seen_at row) /\
  se_absolute_expires_at row = (se_created_at row + ABSOLUTE_TTL)%Z /\
  se_idle_expires_at row = idle_expiry (se_last_seen_at row) (se_absolute_expires_at row).

(** One more request that does not end it, and may use it. *)
Lemma opened_later h request answer s' hash created used used' :
  serve_auth request (after h initial_auth) = (answer, s') -> ends hash (request.1, answer) = false ->
  (used' = used \/ uses hash request.1 = Some used') ->
  opened h hash created used -> opened (h ++ [request]) hash created used'.
Proof.
  intros Hs Hends Huse (h1 & inputs & username & password & id & o & h2 & -> & Hv & Ht & Hc & (r & Hr & Hu) & Hall).
  exists h1, inputs, username, password, id, o, (h2 ++ [request]). simpl. split_and!; try done.
  - by rewrite <- app_assoc.
  - destruct Huse as [->|Huse]; [exists r|exists request]; (split; [|done]); set_solver.
  - rewrite answers_app. apply Forall_app. split; [exact Hall|]. rewrite <- after_app, <- app_assoc. simpl.
    rewrite Hs. by repeat constructor.
Qed.

Lemma sessions_traced h :
  wf_sessions (after h initial_auth) /\ forall row, row ∈ at_sessions (after h initial_auth) -> session_ok h row.
Proof.
  induction h as [|request h [Hwf IH]] using rev_ind.
  { split; [split; apply NoDup_nil_2|by intros row ?%not_elem_of_nil]. }
  rewrite after_app. change (after [request] ?s) with (serve_auth request s).2.
  destruct (serve_traced request _ Hwf) as [Hwf' Hstems]. split; [exact Hwf'|]. intros row Hrow.
  destruct (serve_auth request (after h initial_auth)) as [answer s'] eqn:Hs.
  destruct (Hstems row Hrow) as [row Hold Hends|row now Hold Hends Huse|inputs username password id token Hop Hv Ht].
  - destruct (IH row Hold) as (Ho & Ha & Hi). split; [|done]. eapply opened_later; eauto.
  - destruct (IH row Hold) as (Ho & Ha & Hi). split; [|done]. eapply opened_later; eauto.
  - split; [|done]. exists h, inputs, username, password, id, request.2, []. simpl.
    assert ((OpLogin inputs username password id, request.2) = request) as Hreq by (destruct request; simpl in *; by subst).
    rewrite Hreq, <- Hop. split_and!; [done..|by rewrite Ht|done| |constructor].
    exists request. split; [set_solver|]. rewrite Hop. simpl. rewrite Ht. simpl. by rewrite bool_decide_true.
Qed.

Lemma authenticate_ok now token s :
  holds (authenticate now token) s (fun r _ => forall session, r = Ok session -> exists row,
    row ∈ at_sessions s /\ se_token_hash row = sha256 token /\ (now < se_idle_expires_at row)%Z /\
    session = MkAuthenticatedSession (se_id row) (se_created_at row) (se_absolute_expires_at row)).
Proof.
  unfold authenticate. apply holds_bind, holds_admin; [done|]. destruct (is_some (at_admin s)); [|by apply holds_throw].
  apply holds_bind, holds_select; [done|]. apply holds_bind, holds_check.
  destruct (find_session token s) as [row|] eqn:Hfind; [|done]. apply find_session_inv in Hfind as [Hrow Hhash]. simpl.
  case_match eqn:He; [calls; done|]. bools.
  calls; try done; intros session [= <-]; exists row; split_and!; try done; lia.
Qed.

(** C28: A token that [authenticate] accepts was given out, less than twelve
    hours before, by a login with the administrator's password of that time;
    the session was used less than an hour before, and no password change,
    no revocation, no logout and no expiry was reported since: in any history,
    whatever calls fail. *)
Theorem accepted_session_opened (h : list (AuthOp * list Outcome)) (now : Time) (token : string) (outcomes : list Outcome)
    (session : AuthenticatedSession) :
  (authenticate now token (after h initial_auth, outcomes)).1 = Ok session ->
  exists used, opened h (sha256 token) (ss_created_at session) used /\
    (now < ss_created_at session + ABSOLUTE_TTL)%Z /\ (now < used + IDLE_TTL)%Z /\
    ss_expires_at session = (ss_created_at session + ABSOLUTE_TTL)%Z.
Proof.
  intros H. destruct (authenticate_ok now token (after h initial_auth) outcomes session H) as (row & Hrow & <- & Hnow & ->).
  destruct (proj2 (sessions_traced h) row Hrow) as (Ho & Ha & Hi). exists (se_last_seen_at row). simpl.
  rewrite Hi in Hnow. unfold idle_expiry in Hnow. split_and!; [done|lia..|done].
Qed.
End histories.

(** ** Logins and guesses on concrete histories *)

#[local] Existing Instance demo_crypto.

(** A hash that keeps salt and password in clear, for examples. *)
#[local] Instance demo_hashing : PasswordHashing.
Proof.
  refine {|
    argon2_hash salt p := ("$" +:+ p);
    argon2_verify p hash := match hash with String "$"%char h => Some (bool_decide (p = h)) | _ => None end |}.
  intros salt p. simpl. by rewrite bool_decide_true.
Defined.

Definition demo_password : string := "correct horse battery".

(** Set up, with the password above, and one login at time 0. *)
Definition demo_setup : list (AuthOp * list Outcome) :=
  [(OpPrepare (Some "setup"), []);
   (OpBootstrap 0 (Some "salt") "setup" (demo_password +:+ " ") 1, [])].

Definition demo_login (now : Time) (token : string) (id : Uuid) : AuthOp * list Outcome :=
  (OpLogin (MkLoginInputs now (Some token) (Some "csrf") id) "admin" demo_password 2, []).

Definition demo_guess (now : Time) : AuthOp * list Outcome :=
  (OpLogin (MkLoginInputs now (Some "other") (Some "csrf") 9) "admin" "a guess" 3, []).

Definition demo_session : list (AuthOp * list Outcome) :=
  demo_setup ++ [demo_login 0 "token" 7; (OpAuthenticate (seconds 3000) "token", []); (OpLogout (seconds 3100) "another" 4, [])].

(** The session is good for an hour after its last use: 50 minutes after the
    login it is refreshed, and the logout of another token does nothing to it. *)
Lemma accepted_session_opened_witness :
  exists used, opened demo_session (sha256 "token") 0 used /\
    (seconds 6000 < 0 + ABSOLUTE_TTL)%Z /\ (seconds 6000 < used + IDLE_TTL)%Z /\ (0 + ABSOLUTE_TTL)%Z = (0 + ABSOLUTE_TTL)%Z.
Proof.
  apply (accepted_session_opened demo_session (seconds 6000) "token" [] (MkAuthenticatedSession 7 0 ABSOLUTE_TTL)).
  vm_compute. reflexivity.
Defined.

(** Four wrong passwords just before the 15 minutes, or rather one early and
    three within; the first window ends, and five more start the cooldown. *)
Definition demo_before : list (AuthOp * list Outcome) := demo_setup ++ [demo_guess (seconds 100)].
Definition demo_guesses : list (AuthOp * list Outcome) :=
  map demo_guess (seconds <$> [200; 300; 400; 1000; 1001; 1002; 1003; 1004; 1005; 1006]%Z).

Lemma guesses_bounded_witness :
  right_passwords demo_guesses (after demo_before initial_auth) = 0
  /\ (length (filter (fun answered => denied answered = true) (answers demo_guesses (after demo_before initial_auth)))
      <= 8 + 5 * right_passwords demo_guesses (after demo_before initial_auth))%nat.
Proof.
  split; [by vm_compute|]. apply (guesses_bounded (seconds 150) demo_before demo_guesses).
  repeat (constructor; [by vm_compute|]). constructor.
Defined.

Example eight_guesses :
  length (filter (fun answered => denied answered = true) (answers demo_guesses (after demo_before initial_auth))) = 8%nat.
Proof. by vm_compute. Qed.
