(* ===== verification/Requests.v ===== *)
(** * Requests: the calls of the handlers of mutations

    One constructor per call that [src/api/mutations.rs] makes into the store,
    the Docker daemon, the Compose runner, the idempotency records and the
    mutation coordinator. The store's calls are the programs of [Catalog],
    [ConfigRevision], [ReleaseStore] and [AppDirectories], those on records the
    functions of [Idempotency]; here their answers are the environment's, and
    the theorems that need more say so. A handler returns early by answering, so a step
    fails with a reply. *)

From S2P Require Import Prelude Text Reference Models Effects Codec Names Drafts Database Ledger PollStates Idempotency Scheduler Auth Compose FileSystem Recovery.

(** ** Answers to failed requests

    [src/error.rs]: the status, code and message of every error a handler can
    answer with, and the translation of the errors of the components. *)

Record ValidationIssue := MkValidationIssue { vi_path : string; vi_code : string; vi_message : string }.

Record ApiError := MkApiError {
  ae_status : Z;
  ae_code : string;
  ae_message : string;
  ae_request_id : Uuid;
  ae_retry_after : option Z;
  ae_issues : list ValidationIssue;
}.

#[export] Instance eta_ApiError : Eta ApiError := fun r =>
  MkApiError (ae_status r) (ae_code r) (ae_message r) (ae_request_id r) (ae_retry_after r) (ae_issues r).

(** The parts of an answer the clients see. *)
Record Response := MkResponse { rs_status : Z; rs_retry_after : option Z; rs_body : string }.

#[export] Instance Response_eq_dec : EqDecision Response.
Proof. solve_decision. Defined.

Definition new_error (status : Z) (code message : string) (request_id : Uuid) : ApiError :=
  MkApiError status code message request_id None [].

Definition validation (request_id : Uuid) : ApiError :=
  new_error 422 "VALIDATION_FAILED" "The request is invalid" request_id.
Definition origin (request_id : Uuid) : ApiError :=
  new_error 403 "ORIGIN_INVALID" "The request origin is invalid" request_id.
Definition csrf (request_id : Uuid) : ApiError :=
  new_error 403 "CSRF_INVALID" "The CSRF token is invalid" request_id.
Definition bootstrap_local_only (request_id : Uuid) : ApiError :=
  new_error 403 "BOOTSTRAP_LOCAL_ONLY" "Bootstrap is only available from a loopback peer" request_id.
Definition app_not_found (request_id : Uuid) : ApiError :=
  new_error 404 "APP_NOT_FOUND" "The application was not found" request_id.
Definition invalid_query (request_id : Uuid) : ApiError :=
  new_error 422 "INVALID_QUERY" "The query is invalid" request_id.
Definition stream_limit (request_id : Uuid) : ApiError :=
  new_error 429 "STREAM_LIMIT_REACHED" "The stream limit has been reached" request_id.
Definition internal_error (request_id : Uuid) : ApiError :=
  new_error 500 "INTERNAL_ERROR" "An internal error occurred" request_id.
Definition conflict (code : string) (request_id : Uuid) : ApiError :=
  new_error 409 code "The operation conflicts with current application state" request_id.
Definition compose_error (code : string) (request_id : Uuid) : ApiError :=
  new_error 503 code "Docker Compose is unavailable" request_id.

Definition docker_error (request_id : Uuid) (code : string) : ApiError :=
  let '(status, message) :=
    if code =? "APP_CONTAINER_NOT_FOUND" then (409%Z, "The application container is not available")
    else if code =? "APP_CONTAINER_AMBIGUOUS" then (409%Z, "The application has multiple containers")
    else if code =? "APP_CONTAINER_INVALID" then (409%Z, "The application container identity is invalid")
    else if code =? "DOCKER_PERMISSION_DENIED" then (503%Z, "Docker access is denied")
    else if code =? "DOCKER_API_INCOMPATIBLE" then (503%Z, "The Docker Engine is incompatible")
    else (503%Z, "Docker is unavailable") in
  let error := new_error status code message request_id in
  if status =? 503%Z then error <| ae_retry_after := Some 3%Z |> else error.

Definition domain_public_code (e : DomainError) : string :=
  match e with
  | ConfigQuotaExceeded => "CONFIG_QUOTA_EXCEEDED"
  | EnvDuplicate => "ENV_DUPLICATE"
  | SecretOperationRequired => "SECRET_OPERATION_REQUIRED"
  | FileTargetConflict => "FILE_TARGET_CONFLICT"
  | BindDisabled => "BIND_DISABLED"
  | BindOutsideAllowedRoot => "BIND_OUTSIDE_ALLOWED_ROOT"
  | BindSymlink => "BIND_SYMLINK"
  | BindChanged => "BIND_CHANGED"
  | BindSourceAncestorConflict => "BIND_SOURCE_ANCESTOR_CONFLICT"
  | BindRwAckRequired => "BIND_RW_ACK_REQUIRED"
  | PortConflict => "PORT_CONFLICT"
  | FeatureNotAvailable => "FEATURE_NOT_AVAILABLE"
  | ConfigInvalid => "CONFIG_INVALID"
  | DomainInternal => "INTERNAL_ERROR"
  end.

Definition domain_error (error : DomainError) (request_id : Uuid) : ApiError :=
  match error with
  | DomainInternal => internal_error request_id
  | error => new_error 422 (domain_public_code error) "The application configuration is invalid" request_id
  end.

Definition draft_validation (error : DraftValidationError) (request_id : Uuid) : ApiError :=
  (domain_error (dv_error error) request_id)
    <| ae_issues := [MkValidationIssue (dv_path error) (dv_code error) (dv_message error)] |>.

Definition idempotency_error (error : IdempotencyError) (request_id : Uuid) : ApiError :=
  match error with
  | IeKeyRequired => new_error 400 "IDEMPOTENCY_KEY_REQUIRED" "An idempotency key is required" request_id
  | IeKeyInvalid => new_error 400 "IDEMPOTENCY_KEY_INVALID" "The idempotency key is invalid" request_id
  | IeReused => new_error 409 "IDEMPOTENCY_KEY_REUSED" "The idempotency key was used for a different request" request_id
  | IeInProgress => new_error 409 "IDEMPOTENCY_IN_PROGRESS" "The operation is in progress" request_id
  | _ => internal_error request_id
  end.

Definition coordinator_error (error : CoordinatorError) (request_id : Uuid) : ApiError :=
  match error with
  | CeBusy => new_error 409 "APP_BUSY" "The application is busy" request_id
  | _ => internal_error request_id
  end.

Definition registry_error (code : string) (request_id : Uuid) : ApiError :=
  let status :=
    if code =? "REGISTRY_TAG_NOT_FOUND" then 404%Z
    else if bool_decide (code ∈ ["REGISTRY_RATE_LIMITED"; "REGISTRY_UNAVAILABLE"; "REGISTRY_TIMEOUT"; "REGISTRY_TLS_ERROR"])
    then 503%Z else 422%Z in
  new_error status code "The image registry request failed" request_id.

Definition from_auth (error : AuthError) (request_id : Uuid) : ApiError :=
  match error with
  | AeSetupRequired => new_error 503 "SETUP_REQUIRED" "Administrator setup is required" request_id
  | AeAlreadyBootstrapped => new_error 409 "ALREADY_BOOTSTRAPPED" "Administrator setup is already complete" request_id
  | AeBootstrapTokenInvalid => new_error 401 "BOOTSTRAP_TOKEN_INVALID" "The bootstrap token is invalid" request_id
  | AeInvalidCredentials => new_error 401 "AUTH_INVALID" "The username or password is invalid" request_id
  | AeCurrentPasswordInvalid => new_error 403 "CURRENT_PASSWORD_INVALID" "The current password is invalid" request_id
  | AeCooldown seconds =>
      (new_error 429 "AUTH_COOLDOWN" "Authentication is temporarily unavailable" request_id)
        <| ae_retry_after := Some seconds |>
  | AeSessionRequired => new_error 401 "SESSION_REQUIRED" "Authentication is required" request_id
  | AeSessionExpired => new_error 401 "SESSION_EXPIRED" "The session has expired" request_id
  | AePassword PwPolicy => validation request_id
  | _ => internal_error request_id
  end.

(** The JSON bodies of error answers. *)
Class ErrorJson := {
  error_envelope : string -> string -> Uuid -> list ValidationIssue -> string;
}.

Section answers.
Context {EJ : ErrorJson}.

Definition into_response (e : ApiError) : Response :=
  MkResponse (ae_status e) (ae_retry_after e) (error_envelope (ae_code e) (ae_message e) (ae_request_id e) (ae_issues e)).
End answers.

(** ** Data *)

Inductive ComposeStatus := CoStarting | CoReady | CoUnavailable | CoPermissionDenied | CoIncompatible.

Record DockerResource := MkDockerResource { vr_name : string; vr_labels : gmap string string }.

Record DockerNetworkResource := MkDockerNetworkResource {
  nr_name : string;
  nr_labels : gmap string string;
  nr_driver : option string;
  nr_internal : bool;
  nr_options : gmap string string;
}.

Record NetworkMember := MkNetworkMember { nm_container_id : string; nm_dns_names : list string }.

Record NetworkSnapshot := MkNetworkSnapshot {
  ns_name : string; ns_labels : gmap string string; ns_members : list NetworkMember }.

(** A row of [deletion_previews], as the deletion reads it. *)
Record PreviewRow := MkPreviewRow {
  pv_session_id : Uuid;
  pv_slug : string;
  pv_revision_id : string;
  pv_preview_hash : string;
  pv_preview_json : string;
  pv_remove_container : bool;
  pv_container_ids_json : string;
  pv_expires_at : Time;
  pv_consumed_at : option Time;
}.

(** ** Calls *)

Inductive hev : Type -> Type :=
(** the store *)
| ScanReadOnly : hev (result StoreError RecoveryReport)
| LoadConfig (app_id revision : Uuid) : hev (result StoreError LoadedRevision)
| LoadRelease (app_id release_id : Uuid) : hev (result StoreError ReleaseV2)
| ReadCompose (app_id release_id : Uuid) : hev (option string)
| ReadApp (app_id : Uuid) : hev (result StoreError AppMetadata)
| SetDesired (app_id : Uuid) (desired : DesiredState) (operation_id : Uuid) (now : Time) : hev (result StoreError AppMetadata)
| RepairDurability (app_id : Uuid) : hev (result StoreError unit)
| AppDirectoryExists (app_id : Uuid) : hev bool
| Tombstone (app_id operation_id : Uuid) : hev (result StoreError unit)
| ReadTombstone (app_id operation_id : Uuid) : hev (result StoreError AppMetadata)
| BindHosts : hev (BindHost * list string)
| WebhookNoted (app_id : Uuid) : hev (result StoreError bool)
| FinalizeUnregistration (app_id operation_id : Uuid) : hev (result IdempotencyError unit)
| SucceededTombstones : hev (result IdempotencyError (list (Uuid * Uuid)))
(** Docker and Compose *)
| ListContainers (project_name : string) : hev (result DockerErrorKind (list ContainerRecord))
| InspectVolume (name : string) : hev (result DockerErrorKind (option DockerResource))
| InspectNetwork (name : string) : hev (result DockerErrorKind (option DockerNetworkResource))
| InspectSnapshot (name : string) : hev (result DockerErrorKind (option NetworkSnapshot))
| CreatePlatformNetwork : hev (result DockerErrorKind unit)
| DockerRoot : hev (option string)
| CatalogEntry (app_id : Uuid) : hev (option AppCatalogEntry)
| ComposeReady : hev ComposeStatus
| RunCompose (action : ComposeAction) (context : RunContext) : hev (result ComposeError unit)
(** idempotency records *)
| ClaimKey (route raw_key request_hmac : string) (request_id : Uuid) : hev (result IdempotencyError ClaimResult)
| FinishKey (route raw_key : string) (status : Z) (body : string) (code : option string) (request_id : Uuid)
    : hev (result IdempotencyError unit)
| InterruptKey (route raw_key : string) (request_id : Uuid) : hev (result IdempotencyError unit)
| ReadMarker (route raw_key : string) : hev (result IdempotencyError (option EffectMarker))
| MarkStarted (route raw_key : string) (pre_container_id pre_started_at : option string) : hev (result IdempotencyError unit)
| MarkObserved (route raw_key container_id : string) : hev (result IdempotencyError unit)
| MarkCompleted (route raw_key : string) : hev (result IdempotencyError unit)
(** previews of deletions *)
| CleanupsInProgress (app_id : Uuid) : hev (result unit nat)
| ReadPreview (token_hash : string) (app_id : Uuid) : hev (result unit (option PreviewRow))
| WritePreview (token_hash : string) (app_id : Uuid) (row : PreviewRow) (created_at : Time) : hev (result unit unit)
| ConsumePreview (token_hash : string) (now : Time) : hev (result unit nat)
| RemoveOperational (app_id : Uuid) : hev (result unit unit)
(** guards, streams, clocks *)
| TryApp (app_id : Uuid) : hev bool
| TryCompose : hev bool
| CatalogLock : hev unit
| JoinStreams (app_id : Uuid) : hev bool
| CommitBarrier (app_id : Uuid) : hev unit
| PublishCatalog : hev (option string * bool)
| DegradeProjection : hev unit
| RandomToken : hev (option string)
| UtcNow : hev Time
| MonotonicNow : hev Time
| TimerElapsed : hev bool
(** drafts *)
| CreateApp (app_id : Uuid) (slug : string) (operation_id : Uuid) (now : Time) : hev (result StoreError AppMetadata)
| UpdateDraft (app_id : Uuid) (expected_revision : option Uuid) (revision_id operation_id : Uuid) (draft : NormalizedDraft) (now : Time)
    : hev (result StoreError AppMetadata)
| ReadLink (app_id : Uuid) (name : string) : hev (result StoreError (option Uuid))
| LoadCredential (id : Uuid) : hev (result StoreError string).

(** ** Early returns *)

Abbreviation reply := (result ApiError Response).
Abbreviation handler A := (eprog hev reply A).
Abbreviation coded A := (eprog hev string A).

(** [return p.await] in the middle of a handler. *)
Definition leave {A} (p : prog hev reply) : handler A := prog_bind p (fun r => Ret (Err r)).

(** The handler's answer, wherever it returned. *)
Definition handle (p : handler reply) : prog hev reply :=
  prog_bind p (fun r => Ret (match r with Ok r | Err r => r end)).

(** The result of a step, whatever it is. *)
Definition result_of {R A} (p : eprog hev R A) {R'} : eprog hev R' (result R A) := prog_bind p (fun r => Ret (Ok r)).

(** [tokio::time::timeout]: the timer may fire while a call is awaited, whose
    answer is then lost. *)
Fixpoint timed {A} (p : prog hev A) : prog hev (option A) :=
  match p with
  | Ret a => Ret (Some a)
  | OutOfFuel => OutOfFuel
  | Vis e k => Vis e (fun x => Vis TimerElapsed (fun late => if late : bool then Ret None else timed (k x)))
  end.
