(* ===== verification/Resources.v ===== *)
(** * Resources: what a handler checks before it acts

    The read-only part of [src/api/mutations.rs] and
    [src/docker/platform_network.rs]: the verified release of an application,
    its one container, its bind sources against the host and the other
    applications, and its volumes and networks. The guard that serialises the
    creation of the platform network is not modelled. *)

From S2P Require Import Prelude Text Reference Models Ownership Effects Codec Names Drafts Database Ledger PollStates Idempotency Scheduler Auth Compose FileSystem StoreBase Recovery Requests.

(** ** The platform network *)

Inductive PlatformNetworkError := PnUnavailable | PnIdentityConflict | PnAliasConflict.

Definition platform_public_code (e : PlatformNetworkError) : string :=
  match e with
  | PnUnavailable => "PLATFORM_NETWORK_UNAVAILABLE"
  | PnIdentityConflict => "PLATFORM_NETWORK_IDENTITY_CONFLICT"
  | PnAliasConflict => "NETWORK_ALIAS_CONFLICT"
  end.

Definition PLATFORM_BRIDGE_NAME : string := "sd-services".
Definition BRIDGE_OPTION : string := "com.docker.network.bridge.name".

Definition expected_labels : gmap string string :=
  collect [("io.solodock.managed", "true"); ("io.solodock.resource-scope", "platform"); ("io.solodock.network-schema", "1")].

(** Every expected label is there with its value. *)
Definition has_exact_ownership (actual expected : gmap string string) : bool :=
  forallb (fun e => actual !! e.1 =? Some e.2) (map_to_list expected).

Definition validate_existing (resource : DockerNetworkResource) : result PlatformNetworkError unit :=
  refuse_if ((nr_name resource ≠? PLATFORM_NETWORK_NAME) || (nr_driver resource ≠? Some "bridge")
             || negb (nr_internal resource) || (nr_options resource !! BRIDGE_OPTION ≠? Some PLATFORM_BRIDGE_NAME)
             || negb (has_exact_ownership (nr_labels resource) expected_labels)) PnIdentityConflict.

Abbreviation platform A := (eprog hev PlatformNetworkError A).

Definition inspect_platform : platform (option DockerNetworkResource) :=
  try_call (InspectNetwork PLATFORM_NETWORK_NAME) (fun _ => PnUnavailable).

Definition ensure : platform unit :=
  existing <- inspect_platform ;;
  match existing with
  | Some existing => lift (validate_existing existing)
  | None =>
      (** a concurrent creator makes this fail; what is there then decides *)
      _ <- ask CreatePlatformNetwork ;;
      existing <- inspect_platform ;;
      existing <- lift (ok_or existing PnUnavailable) ;;
      lift (validate_existing existing)
  end.

Definition takes_alias (alias : string) (allowed : list string) (member : NetworkMember) : bool :=
  negb (bool_decide (nm_container_id member ∈ allowed)) && existsb (fun name => name =? alias) (nm_dns_names member).

Definition validate_alias (alias : string) (allowed : list string) (allow_missing : bool) : platform unit :=
  resource <- inspect_platform ;;
  match resource with
  | None => if allow_missing then eret tt else fail PnUnavailable
  | Some resource =>
      lift (validate_existing resource) ;;;
      snapshot <- try_call (InspectSnapshot PLATFORM_NETWORK_NAME) (fun _ => PnUnavailable) ;;
      snapshot <- lift (ok_or snapshot PnUnavailable) ;;
      lift (refuse_if (ns_name snapshot ≠? PLATFORM_NETWORK_NAME) PnUnavailable) ;;;
      lift (refuse_if (existsb (takes_alias alias allowed) (ns_members snapshot)) PnAliasConflict)
  end.

Definition ensure_for_app (alias : string) (allowed : list string) : platform unit :=
  ensure ;;; validate_alias alias allowed false.

Definition validate_for_app_if_present (alias : string) (allowed : list string) : platform unit :=
  validate_alias alias allowed true.

Definition validate_if_present : platform unit :=
  resource <- inspect_platform ;;
  match resource with None => eret tt | Some resource => lift (validate_existing resource) end.

(** ** Containers *)

Definition catalog_entry (r : RecoveredApp) : AppCatalogEntry :=
  MkAppCatalogEntry (ra_app_id r) (ra_slug r) (ra_display_name r) (ra_resource_name_schema_version r) (ra_project_name r)
    (ra_active_release_id r) (ra_active_image_ref r) (ra_active_config_revision r) (ra_active_config_sha256 r)
    (ra_active_network_plan r) (ra_pending_release_id r) (ra_pending_image_ref r) (ra_pending_config_revision r)
    (ra_pending_network_plan r) (ra_discovery_image_ref r) (ra_draft_revision r) (ra_draft_config_sha256 r)
    (ra_desired_state r) (ra_auto_deploy_enabled r) (ra_poll_interval_seconds r) (ra_draft r).

Section checks.
Context {UT : UuidText} {ST : StoreText} {CR : Crypto} {CT : ComposeText}.
Context (apps_directory : string) (integrity_key : string).

Definition list_candidates (app : AppCatalogEntry) : coded (list ContainerRecord) :=
  try_call (ListContainers (ce_project_name app)) docker_public_code.

Definition classify_mutation_candidates (app : AppCatalogEntry) (candidates : list ContainerRecord)
    : result string (option ContainerRecord) :=
  refuse_if (1 <? length candidates)%nat "APP_CONTAINER_AMBIGUOUS" ;;
  match candidates with
  | [] => Ok None
  | container :: _ =>
      refuse_if (is_none (validate_identity (cr_labels container) app)) "APP_CONTAINER_INVALID" ;;
      Ok (Some container)
  end.

Definition mutation_container (app : AppCatalogEntry) : coded (option ContainerRecord) :=
  candidates <- list_candidates app ;;
  lift (classify_mutation_candidates app candidates).

(** The release of the container may be the active or the pending one. *)
Definition classify_with_pending (app : AppCatalogEntry) (candidates : list ContainerRecord)
    : result string (option ContainerRecord) :=
  refuse_if (1 <? length candidates)%nat "APP_CONTAINER_AMBIGUOUS" ;;
  match candidates with
  | [] => Ok None
  | container :: _ =>
      identity ← ok_or (validate_syntactic_identity (cr_labels container) app) "APP_CONTAINER_INVALID";
      refuse_if ((Some (oi_release_id identity) ≠? ce_active_release_id app)
                 && (Some (oi_release_id identity) ≠? ce_pending_release_id app)) "APP_CONTAINER_INVALID" ;;
      Ok (Some container)
  end.

Definition mutation_container_policy (app : AppCatalogEntry) (allow_pending : bool) : coded (option ContainerRecord) :=
  if negb allow_pending then mutation_container app
  else
    candidates <- list_candidates app ;;
    lift (classify_with_pending app candidates).

(** ** Releases *)

Record VerifiedActive := MkVerifiedActive {
  va_app : AppCatalogEntry;
  va_release_id : Uuid;
  va_loaded : LoadedRevision;
  va_compose_file : string;
  va_bind_identities : list BindIdentity;
}.

Definition app_path (app_id : Uuid) : string := apps_directory +:+ "/" +:+ uuid_to_string app_id.
Definition compose_path (app_id release_id : Uuid) : string :=
  app_path app_id +:+ "/releases/" +:+ uuid_to_string release_id +:+ "/compose.yaml".
Definition revision_path (app_id revision : Uuid) : string :=
  app_path app_id +:+ "/config-revisions/" +:+ uuid_to_string revision.

Definition validate_binds (host : BindHost) (binds : list BindMountInput) (allowed_roots : list string)
    : result DomainError (list BindIdentity) :=
  map_err dv_error (validate_binds_detailed_with_options host binds allowed_roots true).
Definition validate_existing_binds (host : BindHost) (binds : list BindMountInput) (allowed_roots : list string)
    : result DomainError (list BindIdentity) :=
  map_err dv_error (validate_binds_detailed_with_options host binds allowed_roots false).

Definition resource_identity (app : AppCatalogEntry) : AppResourceIdentity :=
  MkAppResourceIdentity (ce_id app) (ce_slug app) (ce_resource_name_schema_version app).

(** Every error is the same to the caller. *)
Definition verify_active_compose (app : AppCatalogEntry) (release_id : Uuid) (loaded : LoadedRevision) : eprog hev unit unit :=
  image <- lift (ok_or (ce_active_image_ref app) tt) ;;
  lift (refuse_if (negb (validate_runnable_image image)) tt) ;;;
  revision <- lift (ok_or (ce_active_config_revision app) tt) ;;
  lift (refuse_if (ce_active_config_sha256 app ≠? Some (cm_config_sha256 (lv_metadata loaded))) tt) ;;;
  release <- try_call (LoadRelease (ce_id app) release_id) (fun _ => tt) ;;
  binds <- ask BindHosts ;;
  draft <- lift (map_err (fun _ => tt) (normalize_verified canonical_json binds.1 loaded (ce_display_name app)
                   (rl_source_image_ref release) (rl_credential_ref release) (ce_auto_deploy_enabled app)
                   (ce_poll_interval_seconds app) integrity_key binds.2)) ;;
  actual <- ask (ReadCompose (ce_id app) release_id) ;;
  actual <- lift (ok_or actual tt) ;;
  lift (match matches_canonical (MkComposeInput (resource_identity app) release_id image (revision_path (ce_id app) revision)
                 draft (3 <=? rl_compose_schema_version release)%Z) true (rl_compose_schema_version release)
                 (rl_compose_sha256 release) actual with
        | Some (Ok true) => Ok tt
        | _ => Err tt
        end).

(** The application in a fresh scan, with a draft. *)
Definition configured_app (app_id : Uuid) : coded AppCatalogEntry :=
  report <- try_call ScanReadOnly (fun _ => "FILESYSTEM_RESCAN_FAILED") ;;
  recovered <- lift (ok_or (List.find (fun r => ra_app_id r =? app_id) (rr_valid_apps report)) "APP_NOT_FOUND") ;;
  let app := catalog_entry recovered in
  lift (refuse_if (is_none (ce_draft_revision app)) "APP_UNCONFIGURED") ;;;
  eret app.

Definition guarded_binds (enforce_bind_guard : bool) (loaded : LoadedRevision) : coded (list BindIdentity) :=
  if enforce_bind_guard
  then binds <- ask BindHosts ;;
       lift (map_err domain_public_code (validate_binds binds.1 (cm_binds (lv_metadata loaded)) binds.2))
  else eret [].

Definition load_verified_active_with_bind_guard (app_id : Uuid) (enforce_bind_guard : bool) : coded VerifiedActive :=
  app <- configured_app app_id ;;
  release_id <- lift (ok_or (ce_active_release_id app) "APP_DEPLOY_REQUIRED") ;;
  revision <- lift (ok_or (ce_active_config_revision app) "ACTIVE_RELEASE_CONFIG_UNKNOWN") ;;
  loaded <- try_call (LoadConfig app_id revision) (fun _ => "ACTIVE_RELEASE_CONFIG_UNKNOWN") ;;
  (if enforce_bind_guard
   then prog_bind (verify_active_compose app release_id loaded) (fun r => lift (map_err (fun _ => "ACTIVE_COMPOSE_INVALID") r))
   else eret tt) ;;;
  bind_identities <- guarded_binds enforce_bind_guard loaded ;;
  eret (MkVerifiedActive app release_id loaded (compose_path app_id release_id) bind_identities).

Definition load_verified_active (app_id : Uuid) : coded VerifiedActive := load_verified_active_with_bind_guard app_id true.
Definition load_verified_active_for_stop (app_id : Uuid) : coded VerifiedActive := load_verified_active_with_bind_guard app_id false.

Definition load_verified_pending_with_bind_guard (app_id : Uuid) (enforce_bind_guard : bool) : coded VerifiedActive :=
  app <- configured_app app_id ;;
  if is_some (ce_active_release_id app) then load_verified_active_with_bind_guard app_id enforce_bind_guard
  else
    release_id <- lift (ok_or (ce_pending_release_id app) "APP_DEPLOY_REQUIRED") ;;
    release <- try_call (LoadRelease app_id release_id) (fun _ => "PENDING_RELEASE_INVALID") ;;
    lift (refuse_if (ce_pending_config_revision app ≠? Some (rl_config_revision release)) "PENDING_RELEASE_INVALID") ;;;
    loaded <- try_call (LoadConfig app_id (rl_config_revision release)) (fun _ => "PENDING_RELEASE_CONFIG_UNKNOWN") ;;
    bind_identities <- guarded_binds enforce_bind_guard loaded ;;
    eret (MkVerifiedActive app release_id loaded (compose_path app_id release_id) bind_identities).

Definition load_verified_pending_for_stop (app_id : Uuid) : coded VerifiedActive :=
  load_verified_pending_with_bind_guard app_id false.
(** ** Bind sources *)

Definition paths_overlap (left right : string) : bool :=
  path_eqb left right || path_starts_with left right || path_starts_with right left.

Definition validate_runtime_paths_for_docker_root (metadata : ConfigMetadata) (docker_root : option string)
    : coded (list BindIdentity) :=
  binds <- ask BindHosts ;;
  identities <- lift (map_err domain_public_code (validate_binds binds.1 (cm_binds metadata) binds.2)) ;;
  lift (refuse_if (is_some_and docker_root (fun root =>
                     existsb (fun allowed => paths_overlap allowed root) binds.2
                     || existsb (fun identity => paths_overlap (bi_path identity) root) identities))
          "BIND_ROOT_SENSITIVE") ;;;
  eret identities.

Definition validate_runtime_paths (metadata : ConfigMetadata) : coded (list BindIdentity) :=
  docker_root <- ask DockerRoot ;;
  validate_runtime_paths_for_docker_root metadata docker_root.

Definition bind_safety_sources (host : BindHost) (metadata : ConfigMetadata) (allowed_roots : list string)
    (enforce_internal_plan : bool) : result DomainError (list BindSafetySource) :=
  identities ← (if enforce_internal_plan then validate_binds host (cm_binds metadata) allowed_roots
                else validate_existing_binds host (cm_binds metadata) allowed_roots);
  Ok (zip_with (fun identity bind => MkBindSafetySource identity (bm_readonly bind)) identities (cm_binds metadata)).

Definition INCOMPLETE : string := "BIND_INVENTORY_INCOMPLETE".
Definition incomplete {A} (p : coded A) : coded A := prog_bind p (fun r => lift (map_err (fun _ => INCOMPLETE) r)).

(** The sources another application may be writing to: none when it has no
    container or the container has exited. *)
Definition live_sources (allowed_roots : list string) (recovered : RecoveredApp) : coded (list BindSafetySource) :=
  let app := catalog_entry recovered in
  container <- incomplete (mutation_container_policy app true) ;;
  match container with
  | None => eret []
  | Some container =>
      if cr_status container =? CsExited then eret []
      else
        identity <- lift (ok_or (validate_syntactic_identity (cr_labels container) app) INCOMPLETE) ;;
        revision <- lift (ok_or
          (if ra_active_release_id recovered =? Some (oi_release_id identity) then ra_active_config_revision recovered
           else if ra_pending_release_id recovered =? Some (oi_release_id identity) then ra_pending_config_revision recovered
           else None) INCOMPLETE) ;;
        loaded <- try_call (LoadConfig (ra_app_id recovered) revision) (fun _ => INCOMPLETE) ;;
        binds <- ask BindHosts ;;
        lift (map_err (fun _ => INCOMPLETE) (bind_safety_sources binds.1 (lv_metadata loaded) allowed_roots false))
  end.

Fixpoint all_live_sources (allowed_roots : list string) (apps : list RecoveredApp) : coded (list BindSafetySource) :=
  match apps with
  | [] => eret []
  | recovered :: rest =>
      sources <- live_sources allowed_roots recovered ;;
      others <- all_live_sources allowed_roots rest ;;
      eret (sources ++ others)
  end.

Definition validate_bind_plan_against_live_apps (target_app_id : Uuid) (target : ConfigMetadata) : coded unit :=
  binds <- ask BindHosts ;;
  target_sources <- lift (map_err domain_public_code (bind_safety_sources binds.1 target binds.2 true)) ;;
  report <- try_call ScanReadOnly (fun _ => INCOMPLETE) ;;
  lift (refuse_if (negb (is_nil (rr_issues report))) INCOMPLETE) ;;;
  existing <- all_live_sources binds.2 (List.filter (fun r => ra_app_id r ≠? target_app_id) (rr_valid_apps report)) ;;
  lift (map_err domain_public_code (validate_bind_plan target_sources existing)).

(** [revalidate_bind_identity] of each, up to the first that changed. *)
Fixpoint revalidate_all (identities : list BindIdentity) : coded unit :=
  match identities with
  | [] => eret tt
  | identity :: rest =>
      binds <- ask BindHosts ;;
      lift (map_err domain_public_code (revalidate_bind_identity binds.1 identity binds.2)) ;;;
      revalidate_all rest
  end.

(** ** Volumes and networks *)

Abbreviation api A := (eprog hev ApiError A).

Definition owned_network_identity_conflict (resource : DockerNetworkResource) (expected_name expected_bridge_name : string)
    (expected : gmap string string) : option string :=
  if (nr_name resource ≠? expected_name) || negb (has_exact_ownership (nr_labels resource) expected)
  then Some "NETWORK_OWNERSHIP_CONFLICT"
  else if (nr_driver resource ≠? Some "bridge") || (nr_options resource !! BRIDGE_OPTION ≠? Some expected_bridge_name)
  then Some "NETWORK_BRIDGE_IDENTITY_CONFLICT"
  else None.

(** The application as published, its names and the labels of what it owns. An
    unknown naming schema does not pass the scan. *)
Definition owned_identity (request_id app_id : Uuid) : api (AppCatalogEntry * AppResourceNames * gmap string string) :=
  app <- ask (CatalogEntry app_id) ;;
  app <- lift (ok_or app (app_not_found request_id)) ;;
  names <- lift (ok_or (resource_names stable_resource_token (ce_id app) (ce_slug app) (ce_resource_name_schema_version app))
                   (internal_error request_id)) ;;
  eret (app, names, resource_labels app_id (rn_project_name names)).

Definition check_volume (request_id : Uuid) (owned : option (AppCatalogEntry * AppResourceNames * gmap string string))
    (volume : VolumeInput) : api unit :=
  let inspect name := try_call (InspectVolume name) (fun kind => docker_error request_id (docker_public_code kind)) in
  match volume with
  | OwnedVolume logical_name _ =>
      known <- lift (ok_or owned (internal_error request_id)) ;;
      let '(app, _, expected) := known in
      let name := owned_volume_name (ce_slug app) logical_name in
      resource <- inspect name ;;
      lift (refuse_if (is_some_and resource (fun r => (vr_name r ≠? name) || negb (has_exact_ownership (vr_labels r) expected)))
              (conflict "VOLUME_OWNERSHIP_CONFLICT" request_id))
  | ExternalVolume name _ =>
      resource <- inspect name ;;
      lift (refuse_if (is_none resource) (conflict "EXTERNAL_VOLUME_NOT_FOUND" request_id))
  end.

Definition check_owned_network (request_id : Uuid) (owned : option (AppCatalogEntry * AppResourceNames * gmap string string))
    : api unit :=
  known <- lift (ok_or owned (internal_error request_id)) ;;
  let '(_, names, expected) := known in
  resource <- try_call (InspectNetwork (rn_owned_default_network_name names))
                (fun kind => docker_error request_id (docker_public_code kind)) ;;
  match resource with
  | Some resource =>
      match owned_network_identity_conflict resource (rn_owned_default_network_name names) (rn_bridge_name names) expected with
      | Some code => fail (conflict code request_id)
      | None => eret tt
      end
  | None => eret tt
  end.

Definition check_platform (request_id app_id : Uuid) (allowed : option string) (check_alias_conflicts : bool) : api unit :=
  app <- ask (CatalogEntry app_id) ;;
  app <- lift (ok_or app (app_not_found request_id)) ;;
  prog_bind (if check_alias_conflicts then validate_for_app_if_present (ce_slug app) (option_list allowed) else validate_if_present)
    (fun r => lift (map_err (fun error => conflict (platform_public_code error) request_id) r)).

Definition check_external (request_id : Uuid) (allowed : option string) (check_alias_conflicts : bool)
    (network : ExternalNetworkAttachment) : api unit :=
  let failed kind := docker_error request_id (docker_public_code kind) in
  if negb check_alias_conflicts || is_nil (ea_aliases network)
  then
    resource <- try_call (InspectNetwork (ea_name network)) failed ;;
    resource <- lift (ok_or resource (conflict "EXTERNAL_NETWORK_NOT_FOUND" request_id)) ;;
    lift (refuse_if (nr_name resource ≠? ea_name network) (docker_error request_id "DOCKER_OBSERVATION_FAILED"))
  else
    snapshot <- try_call (InspectSnapshot (ea_name network)) failed ;;
    snapshot <- lift (ok_or snapshot (conflict "EXTERNAL_NETWORK_NOT_FOUND" request_id)) ;;
    lift (refuse_if (ns_name snapshot ≠? ea_name network) (docker_error request_id "DOCKER_OBSERVATION_FAILED")) ;;;
    lift (refuse_if (existsb (fun alias => existsb (fun member => (nm_container_id member ≠? default EmptyString allowed)
                       && existsb (fun name => name =? alias) (nm_dns_names member)) (ns_members snapshot)) (ea_aliases network))
            (conflict "NETWORK_ALIAS_CONFLICT" request_id)).

Definition validate_resources_inner (app_id : Uuid) (metadata : ConfigMetadata) (allowed : option string)
    (check_alias_conflicts : bool) (request_id : Uuid) : api unit :=
  plan <- lift (map_err (fun e => domain_error (dv_error e) request_id)
                  (network_plan (cm_owned_default_network metadata) (cm_service_discovery_enabled metadata) (cm_networks metadata))) ;;
  plan <- lift (ok_or plan (internal_error request_id)) ;;
  let has_owned_volume := existsb (fun v => match v with OwnedVolume _ _ => true | _ => false end) (cm_volumes metadata) in
  owned <- (if has_owned_volume || np_owned_default_network plan
            then identity <- owned_identity request_id app_id ;; eret (Some identity) else eret None) ;;
  each (check_volume request_id owned) (cm_volumes metadata) ;;;
  (if np_owned_default_network plan then check_owned_network request_id owned else eret tt) ;;;
  (if np_service_discovery_enabled plan then check_platform request_id app_id allowed check_alias_conflicts else eret tt) ;;;
  lift (refuse_if (is_some_and allowed (fun id => negb (valid_container_id id))) (conflict "CONTAINER_CHANGED" request_id)) ;;;
  each (check_external request_id allowed check_alias_conflicts) (np_external plan).

Definition validate_resources_with_options (app_id : Uuid) (metadata : ConfigMetadata) (allowed : option string)
    (check_alias_conflicts : bool) (request_id : Uuid) : api unit :=
  prog_bind (timed (validate_resources_inner app_id metadata allowed check_alias_conflicts request_id))
    (fun r => match r with Some r => lift r | None => fail (docker_error request_id "DOCKER_TIMEOUT") end).

Definition validate_resources (app_id : Uuid) (metadata : ConfigMetadata) (allowed : option string) (request_id : Uuid) : api unit :=
  validate_resources_with_options app_id metadata allowed true request_id.
Definition validate_resources_for_detach (app_id : Uuid) (metadata : ConfigMetadata) (allowed : option string) (request_id : Uuid)
    : api unit :=
  validate_resources_with_options app_id metadata allowed false request_id.
End checks.
