(* ===== verification/Actions.v ===== *)
(** * Actions: starting, stopping and restarting an application

    [lifecycle] of [src/api/mutations.rs] with [finish_error], [finish_json],
    [interrupt_internal] and the tests of an effect marker. The handler is one
    program; its guards live until it returns. A step that answers the request
    ends the program with that reply. *)

From S2P Require Import Prelude Text Reference Models Ownership Effects Codec Names Drafts Database Ledger PollStates Idempotency Scheduler Auth Compose FileSystem StoreBase Recovery Requests Resources.

(** ** Data *)

Inductive LifecycleAction := ActStart | ActStop | ActRestart.

#[export] Instance LifecycleAction_eq_dec : EqDecision LifecycleAction.
Proof. solve_decision. Defined.

Definition action_name (action : LifecycleAction) : string :=
  match action with ActStart => "start" | ActStop => "stop" | ActRestart => "restart" end.
Definition action_desired (action : LifecycleAction) : option DesiredState :=
  match action with ActStart => Some DesiredRunning | ActStop => Some Stopped | ActRestart => None end.
Definition is_stop (action : LifecycleAction) : bool := match action with ActStop => true | _ => false end.

Record LifecycleResponse := MkLifecycleResponse {
  lr_app_id : Uuid;
  lr_action : string;
  lr_desired_state : DesiredState;
  lr_observed_state : string;
  lr_idempotency_replayed : bool;
  lr_projection_warning : option string;
}.

(** The JSON of answers: a result, a failure, and a recorded answer marked as
    replayed. *)
Class ActionJson := {
  lifecycle_json : LifecycleResponse -> string;
  failure_json : string -> Uuid -> string;
  mark_replayed : string -> string;
}.

(** ** Effect markers *)

Definition observation_matches_marker (marker : EffectMarker) (observed : option ContainerRecord) : bool :=
  match em_pre_container_id marker, observed with
  | None, None => true
  | Some expected, Some container => (cr_id container =? expected) && (cr_started_at container =? em_pre_started_at marker)
  | _, _ => false
  end.

Definition final_status (action : LifecycleAction) : ContainerStatus :=
  match action with ActStart | ActRestart => CsRunning | ActStop => CsExited end.

Definition effect_completed (action : LifecycleAction) (marker : EffectMarker) (observed : option ContainerRecord) : bool :=
  match em_pre_container_id marker, observed with
  | None, Some container =>
      (action =? ActStart) && (cr_status container =? CsRunning)
      && match em_post_container_id marker with Some expected => expected =? cr_id container | None => true end
  | Some expected, Some container =>
      (cr_id container =? expected) && (cr_status container =? final_status action)
      && (negb (action =? ActRestart) || (cr_started_at container ≠? em_pre_started_at marker))
  | _, _ => false
  end.

Definition partial_recreate_can_continue (action : LifecycleAction) (marker : EffectMarker) (observed : option ContainerRecord) : bool :=
  (action =? ActStart) && (em_phase marker =? IeStarted) && is_none (em_pre_container_id marker)
  && is_some_and observed (fun container =>
       match em_post_container_id marker with Some expected => expected =? cr_id container | None => true end).

(** ** Codes *)

Definition mutation_status (code : string) : Z :=
  if code =? "APP_NOT_FOUND" then 404
  else if bool_decide (code ∈ ["BIND_INVALID"; "BIND_DISABLED"; "BIND_OUTSIDE_ALLOWED_ROOT"; "BIND_SYMLINK"; "BIND_CHANGED";
                               "BIND_ROOT_SENSITIVE"; "BIND_SOURCE_ANCESTOR_CONFLICT"]) then 422
  else if bool_decide (code ∈ ["DOCKER_UNAVAILABLE"; "DOCKER_PERMISSION_DENIED"; "DOCKER_API_INCOMPATIBLE";
                               "DOCKER_OBSERVATION_FAILED"; "DOCKER_TIMEOUT"; "COMPOSE_UNAVAILABLE"; "COMPOSE_PERMISSION_DENIED";
                               "COMPOSE_INCOMPATIBLE"; "COMPOSE_TIMEOUT"]) then 503
  else if code =? "FILESYSTEM_RESCAN_FAILED" then 500
  else 409.

Definition post_stop_bind_error (code : string) : option string :=
  if code =? "BIND_SOURCE_ANCESTOR_CONFLICT" then Some code
  else if bool_decide (code ∈ ["BIND_INVALID"; "BIND_DISABLED"; "BIND_OUTSIDE_ALLOWED_ROOT"; "BIND_SYMLINK"; "BIND_CHANGED"])
  then Some "BIND_CHANGED"
  else None.

Definition compose_unready_code (status : ComposeStatus) : option string :=
  match status with
  | CoReady => None
  | CoIncompatible => Some "COMPOSE_INCOMPATIBLE"
  | CoPermissionDenied => Some "COMPOSE_PERMISSION_DENIED"
  | CoStarting | CoUnavailable => Some "COMPOSE_UNAVAILABLE"
  end.

(** ** Answers *)

Section answers.
Context {AJ : ActionJson}.

Definition replay (status : Z) (body : string) : reply :=
  Ok (MkResponse (if (100 <=? status)%Z && (status <=? 999)%Z then status else 200) None body).

Definition replay_recorded (status : Z) (body : string) : reply := replay status (mark_replayed body).

(** One request: its route, its key and its identifier. *)
Record Request := MkRequest { rq_route : string; rq_key : string; rq_id : Uuid }.

Definition interrupt_internal (rq : Request) : prog hev reply :=
  Vis (InterruptKey (rq_route rq) (rq_key rq) (rq_id rq)) (fun _ => Ret (Err (internal_error (rq_id rq)))).

Definition finish (rq : Request) (status : Z) (body : string) (code : option string) : prog hev reply :=
  Vis (FinishKey (rq_route rq) (rq_key rq) status body code (rq_id rq)) (fun r =>
    if is_ok r then Ret (replay status body) else interrupt_internal rq).

Definition finish_json (rq : Request) (status : Z) (body : string) : prog hev reply := finish rq status body None.
Definition finish_error (rq : Request) (code : string) (status : Z) : prog hev reply :=
  finish rq status (failure_json code (rq_id rq)) (Some code).

Definition return_error {A} (rq : Request) (code : string) (status : Z) : handler A := leave (finish_error rq code status).
Definition return_interrupted {A} (rq : Request) : handler A := leave (interrupt_internal rq).

(** A failing check answers with its code; a failing step interrupts. *)
Definition or_code {A} (rq : Request) (p : coded A) : handler A :=
  prog_bind p (fun r => match r with Ok a => eret a | Err code => return_error rq code (mutation_status code) end).
Definition or_api {A} (rq : Request) (p : eprog hev ApiError A) : handler A :=
  prog_bind p (fun r => match r with Ok a => eret a | Err error => return_error rq (ae_code error) (ae_status error) end).
Definition or_interrupt {R A} (rq : Request) (p : eprog hev R A) : handler A :=
  prog_bind p (fun r => match r with Ok a => eret a | Err _ => return_interrupted rq end).
Definition guard (rq : Request) (e : hev bool) : handler unit :=
  free <- ask e ;; if free : bool then eret tt else return_error rq "APP_BUSY" 409.

Definition require_ready (rq : Request) : handler unit :=
  status <- ask ComposeReady ;;
  match compose_unready_code status with Some code => return_error rq code 503 | None => eret tt end.

(** The time left for a command. *)
Definition time_left (rq : Request) (deadline : Time) : handler Z :=
  now <- ask MonotonicNow ;;
  if (now <=? deadline)%Z then eret (deadline - now)%Z else return_error rq "COMPOSE_TIMEOUT" 503.

Definition operation_deadline (metadata : ConfigMetadata) : handler Time :=
  now <- ask MonotonicNow ;;
  eret (now + seconds (Z.max (cm_stop_grace_period_seconds metadata + 30) 60))%Z.

(** The header of the key: absent, not text, or text. *)
Definition idempotency_key (header : option (option string)) : result IdempotencyError string :=
  value ← ok_or header IeKeyRequired; ok_or value IeKeyInvalid.
End answers.

(** ** The handler *)

Section lifecycle.
Context {UT : UuidText} {ST : StoreText} {CR : Crypto} {CT : ComposeText} {AJ : ActionJson}.
Context (key_material apps_directory : string).

Definition fingerprint (canonical : string) : string := hmac_sha256 key_material canonical.
Definition integrity_key : string := fingerprint "config".

Abbreviation load_active := (load_verified_active apps_directory integrity_key).
Abbreviation load_for_stop := (load_verified_active_for_stop apps_directory integrity_key).
Abbreviation load_pending := (load_verified_pending_for_stop apps_directory integrity_key).

Definition validate_lifecycle_resources (app_id : Uuid) (metadata : ConfigMetadata) (allowed : option string)
    (action : LifecycleAction) (request_id : Uuid) : eprog hev ApiError unit :=
  validate_resources_with_options app_id metadata allowed (negb (is_stop action)) request_id.

(** What the handler has found out before it acts. *)
Record Situation := MkSituation {
  sn_app_id : Uuid;
  sn_action : LifecycleAction;
  sn_app : AppCatalogEntry;
  sn_release : Uuid;
  sn_metadata : ConfigMetadata;
  sn_deadline : Time;
  sn_expected_id : option string;
  sn_expected_started_at : option string;
}.

Definition verified_for (rq : Request) (app_id : Uuid) (action : LifecycleAction) : handler VerifiedActive :=
  if is_stop action
  then prog_bind (load_for_stop app_id) (fun r => match r with
    | Ok verified => eret verified
    | Err code => if code =? "APP_DEPLOY_REQUIRED" then or_code rq (load_pending app_id)
                  else return_error rq code (mutation_status code)
    end)
  else or_code rq (load_active app_id).

(** The command for the container found, and the state it leads to. *)
Definition choose (rq : Request) (action : LifecycleAction) (current : result string (option ContainerRecord))
    : handler (option ComposeAction * string) :=
  match action, current with
  | _, Err code => return_error rq code (mutation_status code)
  | ActStart, Ok (Some container) =>
      eret (if cr_status container =? CsRunning then None else Some CaStart, "running")
  | ActStart, Ok None => eret (Some CaRecreate, "running")
  | ActStop, Ok None => eret (None, "missing")
  | ActStop, Ok (Some container) => eret (if cr_status container =? CsExited then None else Some CaStop, "stopped")
  | ActRestart, Ok (Some _) => eret (Some CaStop, "running")
  | ActRestart, Ok None => return_error rq "APP_CONTAINER_NOT_FOUND" 409
  end.

(** A resumed request whose effect was announced: it is done, it was not begun,
    a container was created and has to be started, or it is not known. *)
Definition resume (rq : Request) (action : LifecycleAction) (app : AppCatalogEntry) (resumed : bool)
    (marker : option EffectMarker) (command : option ComposeAction) : handler (option ComposeAction) :=
  match resumed, marker with
  | true, Some marker =>
      observed <- result_of (mutation_container_policy app (is_stop action)) ;;
      let seen := match observed with Ok seen => seen | Err _ => None end in
      if effect_completed action marker seen then eret None
      else if (em_phase marker =? IeStarted) && observation_matches_marker marker seen then eret command
      else if partial_recreate_can_continue action marker seen then eret (Some CaStart)
      else return_error rq "CONTAINER_CHANGED" 409
  | _, _ => eret command
  end.

(** The desired state is stored, or found stored by this operation. *)
Definition store_desired (rq : Request) (app_id operation_id : Uuid) (desired : DesiredState) : handler AppMetadata :=
  now <- ask UtcNow ;;
  written <- ask (SetDesired app_id desired operation_id now) ;;
  match written with
  | Ok metadata => eret metadata
  | Err _ =>
      existing <- ask (ReadApp app_id) ;;
      match existing with
      | Ok existing =>
          if (am_last_operation_id existing =? operation_id) && (am_desired_state existing =? desired)
          then or_interrupt rq (try_call (RepairDurability app_id) id) ;;; eret existing
          else return_interrupted rq
      | Err _ => return_interrupted rq
      end
  end.

Definition survey (rq : Request) (app_id : Uuid) (action : LifecycleAction) : handler (Situation * (option ComposeAction * string)) :=
  verified <- verified_for rq app_id action ;;
  let app := va_app verified in
  let metadata := lv_metadata (va_loaded verified) in
  (if is_some (ce_pending_release_id app) && negb (is_stop action)
   then return_error rq "DEPLOYMENT_PENDING" 409 else eret tt) ;;;
  deadline <- operation_deadline metadata ;;
  (if is_stop action then eret tt else _ <- or_code rq (validate_runtime_paths metadata) ;; eret tt) ;;;
  (if is_stop action then eret tt else or_code rq (validate_bind_plan_against_live_apps app_id metadata)) ;;;
  current <- result_of (mutation_container_policy app (is_stop action)) ;;
  let seen := match current with Ok seen => seen | Err _ => None end in
  or_api rq (validate_lifecycle_resources app_id metadata (cr_id <$> seen) action (rq_id rq)) ;;;
  decided <- choose rq action current ;;
  eret (MkSituation app_id action app (va_release_id verified) metadata deadline (cr_id <$> seen) (seen ≫= cr_started_at), decided).

(** Everything is read again after the marker is durable. *)
Definition verify_again (rq : Request) (sn : Situation) : handler VerifiedActive :=
  let app_id := sn_app_id sn in
  let action := sn_action sn in
  active <- or_interrupt rq (if is_none (ce_active_release_id (sn_app sn)) && is_stop action then load_pending app_id
                             else if is_stop action then load_for_stop app_id else load_active app_id) ;;
  (if va_release_id active =? sn_release sn then eret tt else return_interrupted rq) ;;;
  container <- or_interrupt rq (mutation_container_policy (va_app active) (is_stop action)) ;;
  (if (cr_id <$> container) =? sn_expected_id sn then eret tt else return_interrupted rq) ;;;
  or_interrupt rq (validate_lifecycle_resources app_id (lv_metadata (va_loaded active)) (cr_id <$> container) action (rq_id rq)) ;;;
  (if is_stop action then eret tt
   else or_interrupt rq (validate_bind_plan_against_live_apps app_id (lv_metadata (va_loaded active)))) ;;;
  or_interrupt rq (revalidate_all (va_bind_identities active)) ;;;
  eret active.

Definition run_compose (action : ComposeAction) (context : RunContext) : eprog hev ComposeError unit := try_call (RunCompose action context) id.

(** Between the stop and the start of a restart: the same container has exited
    and the same sources are still there. *)
Definition between (rq : Request) (sn : Situation) (active : VerifiedActive) : handler unit :=
  stopped <- result_of (mutation_container_policy (va_app active) false) ;;
  (match stopped with
   | Ok (Some container) =>
       if (Some (cr_id container) =? sn_expected_id sn) && (cr_status container =? CsExited) then eret tt
       else return_interrupted rq
   | _ => return_interrupted rq
   end) ;;;
  prog_bind (revalidate_all (va_bind_identities active)) (fun r =>
    if is_ok r then eret tt else return_error rq "BIND_CHANGED" (mutation_status "BIND_CHANGED")) ;;;
  fresh <- prog_bind (load_active (sn_app_id sn)) (fun r => match r with
    | Ok fresh => if va_release_id fresh =? sn_release sn then eret fresh else return_interrupted rq
    | Err code => match post_stop_bind_error code with
                  | Some code => return_error rq code (mutation_status code)
                  | None => return_interrupted rq
                  end
    end) ;;
  (if bool_decide (va_bind_identities fresh = va_bind_identities active) then eret tt
   else return_error rq "BIND_CHANGED" (mutation_status "BIND_CHANGED")) ;;;
  prog_bind (revalidate_all (va_bind_identities fresh)) (fun r =>
    if is_ok r then eret tt else return_error rq "BIND_CHANGED" (mutation_status "BIND_CHANGED")) ;;;
  or_code rq (validate_bind_plan_against_live_apps (sn_app_id sn) (lv_metadata (va_loaded fresh))).

(** A container that an interrupted creation left is recorded if it can be. *)
Definition note_created (rq : Request) (sn : Situation) (observed : result string (option ContainerRecord)) : handler unit :=
  match sn_expected_id sn, observed with
  | None, Ok (Some container) => _ <- ask (MarkObserved (rq_route rq) (rq_key rq) (cr_id container)) ;; eret tt
  | _, _ => eret tt
  end.

Definition run_command (rq : Request) (sn : Situation) (active : VerifiedActive) (command : ComposeAction) (context : RunContext)
    : handler unit :=
  effect <- (if sn_action sn =? ActRestart
             then stopped <- result_of (run_compose CaStop context) ;;
                  match stopped with
                  | Ok _ => between rq sn active ;;; result_of (run_compose CaStart context)
                  | Err error => eret (Err error)
                  end
             else result_of (run_compose command context)) ;;
  match effect with
  | Ok _ => eret tt
  | Err _ =>
      (if is_none (sn_expected_id sn)
       then observed <- result_of (mutation_container_policy (va_app active) (is_stop (sn_action sn))) ;;
            note_created rq sn observed
       else eret tt) ;;;
      return_interrupted rq
  end.

(** What the command had to achieve. *)
Definition final_state_matches (sn : Situation) (command : ComposeAction) (observed : result string (option ContainerRecord)) : bool :=
  match sn_action sn, observed with
  | ActStart, Ok (Some container) =>
      (match command with
       | CaRecreate => is_none (sn_expected_id sn)
       | _ => sn_expected_id sn =? Some (cr_id container)
       end) && (cr_status container =? CsRunning)
  | ActRestart, Ok (Some container) =>
      (sn_expected_id sn =? Some (cr_id container)) && (cr_status container =? CsRunning)
      && (cr_started_at container ≠? sn_expected_started_at sn)
  | ActStop, Ok (Some container) => (sn_expected_id sn =? Some (cr_id container)) && (cr_status container =? CsExited)
  | _, _ => false
  end.

Definition confirm (rq : Request) (sn : Situation) (command : ComposeAction) : handler unit :=
  observed <- result_of (mutation_container_policy (sn_app sn) (is_stop (sn_action sn))) ;;
  (if final_state_matches sn command observed then eret tt
   else note_created rq sn observed ;;; return_interrupted rq) ;;;
  (match sn_expected_id sn, observed with
   | None, Ok (Some container) =>
       or_interrupt rq (try_call (MarkObserved (rq_route rq) (rq_key rq) (cr_id container)) id)
   | _, _ => eret tt
   end) ;;;
  or_interrupt rq (try_call (MarkCompleted (rq_route rq) (rq_key rq)) id).

Definition apply_command (rq : Request) (sn : Situation) (marker : option EffectMarker) (command : ComposeAction) : handler unit :=
  let app_id := sn_app_id sn in
  let action := sn_action sn in
  require_ready rq ;;;
  guard rq TryCompose ;;;
  or_api rq (validate_lifecycle_resources app_id (sn_metadata sn) (sn_expected_id sn) action (rq_id rq)) ;;;
  (if negb (is_stop action) && cm_service_discovery_enabled (sn_metadata sn)
   then prog_bind (ensure_for_app (ce_slug (sn_app sn)) (option_list (sn_expected_id sn))) (fun r => match r with
          | Ok _ => eret tt
          | Err error => return_error rq (platform_public_code error) 409
          end)
   else eret tt) ;;;
  current <- result_of (mutation_container_policy (sn_app sn) (is_stop action)) ;;
  (match current with
   | Ok container => if (cr_id <$> container) =? sn_expected_id sn then eret tt else return_error rq "CONTAINER_CHANGED" 409
   | Err _ => return_error rq "CONTAINER_CHANGED" 409
   end) ;;;
  (if is_none marker
   then or_interrupt rq (try_call (MarkStarted (rq_route rq) (rq_key rq) (sn_expected_id sn) (sn_expected_started_at sn)) id)
   else eret tt) ;;;
  active <- verify_again rq sn ;;
  timeout <- time_left rq (sn_deadline sn) ;;
  let context := MkRunContext (ce_project_name (va_app active)) (app_path apps_directory app_id) (va_compose_file active) timeout
                   (cm_stop_grace_period_seconds (lv_metadata (va_loaded active))) [] in
  run_command rq sn active command context ;;;
  confirm rq sn command.

Definition refresh : handler (option string) := outcome <- ask PublishCatalog ;; eret outcome.1.

Definition lifecycle_route (app_id : Uuid) (action : LifecycleAction) : string :=
  "/api/v1/apps/" +:+ uuid_to_string app_id +:+ "/actions/" +:+ action_name action.

Definition perform (rq : Request) (app_id : Uuid) (action : LifecycleAction) (operation_id : Uuid) (resumed : bool) : handler reply :=
  guard rq (TryApp app_id) ;;;
  surveyed <- survey rq app_id action ;;
  let '(sn, (command, observed)) := surveyed in
  previous <- ask (ReadApp app_id) ;;
  previous <- (match previous with Ok previous => eret previous | Err _ => return_error rq "INTERNAL_ERROR" 500 end) ;;
  marker <- or_interrupt rq (try_call (ReadMarker (rq_route rq) (rq_key rq)) id) ;;
  command <- resume rq action (sn_app sn) resumed marker command ;;
  metadata <- store_desired rq app_id operation_id (default (am_desired_state previous) (action_desired action)) ;;
  _ <- refresh ;;
  (match command with Some command => apply_command rq sn marker command | None => eret tt end) ;;;
  warning <- refresh ;;
  leave (finish_json rq 200 (lifecycle_json (MkLifecycleResponse app_id (action_name action) (am_desired_state metadata) observed false warning))).

Definition lifecycle (request_id app_id : Uuid) (header : option (option string)) (action : LifecycleAction) : prog hev reply :=
  let route := lifecycle_route app_id action in
  handle (
    raw_key <- lift (map_err (fun e => Err (idempotency_error e request_id)) (idempotency_key header)) ;;
    let hmac := fingerprint ("admin" +:+ String newline ("POST" +:+ String newline route)) in
    claim <- try_call (ClaimKey route raw_key hmac request_id) (fun e => Err (idempotency_error e request_id)) ;;
    let rq := MkRequest route raw_key request_id in
    match claim with
    | Replay _ status body => _ <- refresh ;; eret (replay_recorded status body)
    | New operation_id => perform rq app_id action operation_id false
    | Resume operation_id => perform rq app_id action operation_id true
    end).

(** [start], [stop] and [restart]: the body has to be empty. *)
Definition act (request_id app_id : Uuid) (header : option (option string)) (body : option string) (action : LifecycleAction)
    : prog hev reply :=
  if is_some_and body str_is_empty then lifecycle request_id app_id header action
  else Ret (Err (new_error 413 "REQUEST_BODY_TOO_LARGE" "The request body is too large" request_id)).
End lifecycle.
