(* ===== verification/ActionSafety.v ===== *)
(** * ActionSafety: what starting, stopping and restarting may do, and when

    A journal collects what the calls of one request have shown. [acceptable]
    says which commands may be run and which answers recorded then. *)

From S2P Require Import Prelude Text Reference Models Ownership Effects Codec Names Drafts Database Ledger PollStates Idempotency Scheduler Auth Compose FileSystem StoreBase Recovery Requests Resources Actions.

(** ** The journal *)

Record Seen := MkSeen {
  sj_new : bool;                                     (** the key was claimed as new *)
  sj_pending : bool;                                 (** it was claimed and not answered yet *)
  sj_app : bool;                                     (** the application's guard is held *)
  sj_compose : bool;                                 (** the guard of Compose is held *)
  sj_marker : option (option string);                (** the durable marker, and the container it names *)
  sj_desired : bool;                                 (** the desired state of this operation is stored *)
  sj_known : list string;                            (** containers ever listed *)
  sj_apps : list RecoveredApp;                       (** applications in any scan *)
  (** and since the last command: *)
  sj_reports : list RecoveryReport;
  sj_loaded : list (Uuid * Uuid * LoadedRevision);
  sj_hosts : list (BindHost * list string);
  sj_listings : list (string * list ContainerRecord);
  sj_commands : list (ComposeAction * bool);         (** commands run, with their success *)
  sj_stopped : list string;                          (** containers seen alone in the project right before the stop *)
}.

(** The containers listed alone in the project. *)
Definition alone_in (project : string) (listings : list (string * list ContainerRecord)) : list string :=
  flat_map (fun '(p, l) => match l with [c] => if p =? project then [cr_id c] else [] | _ => [] end) listings.

#[export] Instance eta_Seen : Eta Seen := fun g =>
  MkSeen (sj_new g) (sj_pending g) (sj_app g) (sj_compose g) (sj_marker g) (sj_desired g) (sj_known g) (sj_apps g) (sj_reports g)
    (sj_loaded g) (sj_hosts g) (sj_listings g) (sj_commands g) (sj_stopped g).

Definition nothing_seen : Seen := MkSeen false false false false None false [] [] [] [] [] [] [] [].

Definition note (g : Seen) (o : obs hev) : Seen :=
  match o with
  | Obs e x =>
      match e in hev X return X -> Seen with
      | ClaimKey _ _ _ _ => fun r => match r with
          | Ok (New _) => g <| sj_new := true |> <| sj_pending := true |>
          | Ok (Resume _) => g <| sj_pending := true |>
          | _ => g end
      | FinishKey _ _ _ _ _ _ => fun r => if is_ok r then g <| sj_pending := false |> else g
      | InterruptKey _ _ _ => fun _ => g <| sj_pending := false |>
      | TryApp _ => fun free => if free then g <| sj_app := true |> else g
      | TryCompose => fun free => if free then g <| sj_compose := true |> else g
      | ReadMarker _ _ => fun r => match r with
          | Ok (Some marker) => g <| sj_marker := Some (em_pre_container_id marker) |> | _ => g end
      | MarkStarted _ _ pre _ => fun r => if is_ok r then g <| sj_marker := Some pre |> else g
      | SetDesired _ _ _ _ => fun r => if is_ok r then g <| sj_desired := true |> else g
      | RepairDurability _ => fun r => if is_ok r then g <| sj_desired := true |> else g
      | ScanReadOnly => fun r => match r with
          | Ok report => g <| sj_reports := report :: sj_reports g |> <| sj_apps := rr_valid_apps report ++ sj_apps g |>
          | Err _ => g end
      | LoadConfig app revision => fun r => match r with
          | Ok loaded => g <| sj_loaded := (app, revision, loaded) :: sj_loaded g |> | Err _ => g end
      | BindHosts => fun hosts => g <| sj_hosts := hosts :: sj_hosts g |>
      | ListContainers project => fun r => match r with
          | Ok l => g <| sj_listings := (project, l) :: sj_listings g |> <| sj_known := (cr_id <$> l) ++ sj_known g |>
          | Err _ => g end
      | RunCompose action context => fun r =>
          g <| sj_stopped := if action =? CaStop then alone_in (rc_project_name context) (sj_listings g) else sj_stopped g |>
            <| sj_commands := (action, is_ok r) :: sj_commands g |> <| sj_reports := [] |> <| sj_loaded := [] |>
            <| sj_hosts := [] |> <| sj_listings := [] |>
      | _ => fun _ => g
      end x
  end.

Section safety.
Context {UT : UuidText} {ST : StoreText} {CR : Crypto} {CT : ComposeText} {AJ : ActionJson}.
Context (key_material apps_directory project : string) (app_id : Uuid) (action : LifecycleAction).

(** What is relied on: a record claimed as new has no marker, and the name of
    the application, and with it its project, does not change. *)
Definition promised (X : Type) (g : Seen) (e : hev X) : X -> Prop :=
  match e in hev X return X -> Prop with
  | ReadMarker _ _ => fun r => sj_new g = true -> forall marker, r <> Ok (Some marker)
  | ScanReadOnly => fun r => forall report, r = Ok report ->
      Forall (fun app => ra_app_id app = app_id -> ra_project_name app = project) (rr_valid_apps report)
  | _ => fun _ => True
  end.

(** ** The protocol *)

(** The one container of the application, or none. *)
Definition classified (app : AppCatalogEntry) (allow_pending : bool) (l : list ContainerRecord) : result string (option ContainerRecord) :=
  if allow_pending then classify_with_pending app l else classify_mutation_candidates app l.

(** The sources of another application that may be in use, as listed. *)
Definition accounted (g : Seen) (roots : list string) (r : RecoveredApp) (sources : list BindSafetySource) : Prop :=
  exists l o, (ra_project_name r, l) ∈ sj_listings g /\ classify_with_pending (catalog_entry r) l = Ok o /\
  ((forall c, o = Some c -> cr_status c = CsExited) \/
   exists c identity revision loaded hosts,
     o = Some c /\ validate_syntactic_identity (cr_labels c) (catalog_entry r) = Some identity /\
     ((ra_active_release_id r = Some (oi_release_id identity) /\ ra_active_config_revision r = Some revision)
      \/ (ra_pending_release_id r = Some (oi_release_id identity) /\ ra_pending_config_revision r = Some revision)) /\
     (ra_app_id r, revision, loaded) ∈ sj_loaded g /\ hosts ∈ sj_hosts g /\
     bind_safety_sources hosts.1 (lv_metadata loaded) roots false = Ok sources).

(** No application that may be running uses a source that conflicts with those
    of the configuration. *)
Definition plan_checked (g : Seen) (metadata : ConfigMetadata) : Prop :=
  exists hosts target report existing,
    hosts ∈ sj_hosts g /\ bind_safety_sources hosts.1 metadata hosts.2 true = Ok target /\
    report ∈ sj_reports g /\ rr_issues report = [] /\ validate_bind_plan target existing = Ok tt /\
    forall r, r ∈ rr_valid_apps report -> ra_app_id r <> app_id ->
      exists sources, accounted g hosts.2 r sources /\ sources ⊆ existing.

(** The sources are directories below an allowed root, and still the same ones. *)
Definition sources_checked (g : Seen) (metadata : ConfigMetadata) : Prop :=
  exists hosts identities, hosts ∈ sj_hosts g /\ validate_binds hosts.1 (cm_binds metadata) hosts.2 = Ok identities /\
    Forall (fun identity => exists later, later ∈ sj_hosts g /\ revalidate_bind_identity later.1 identity later.2 = Ok tt) identities.

(** The release is the one a fresh scan shows, and the command is for it. *)
Definition aims_at (g : Seen) (context : RunContext) (r : RecoveredApp) (release : Uuid) : Prop :=
  (exists report, report ∈ sj_reports g /\ r ∈ rr_valid_apps report) /\ ra_app_id r = app_id /\
  ra_project_name r = project /\ rc_project_name context = project /\ rc_project_directory context = app_path apps_directory app_id /\
  rc_compose_file context = compose_path apps_directory app_id release /\
  (ra_active_release_id r = Some release
   \/ (action = ActStop /\ ra_active_release_id r = None /\ ra_pending_release_id r = Some release)).

Definition announced (g : Seen) : Prop :=
  exists pre, sj_marker g = Some pre /\ forall id, pre = Some id -> id ∈ sj_known g.

Definition command_allowed (g : Seen) (command : ComposeAction) (l : list ContainerRecord) : Prop :=
  match command with
  | CaRecreate => action = ActStart /\ sj_commands g = [] /\ l = []
  | CaStart => (action = ActStart /\ sj_commands g = [])
      \/ (action = ActRestart /\ sj_commands g = [(CaStop, true)]
          /\ exists c, l = [c] /\ cr_status c = CsExited /\ cr_id c ∈ sj_stopped g)
  | CaStop => action <> ActStart /\ sj_commands g = [] /\ exists c, l = [c]
  | _ => False
  end.

Definition compose_acceptable (g : Seen) (command : ComposeAction) (context : RunContext) : Prop :=
  sj_app g = true /\ sj_compose g = true /\ sj_desired g = true /\ announced g /\
  exists r release l o, aims_at g context r release /\
    (project, l) ∈ sj_listings g /\ classified (catalog_entry r) (is_stop action) l = Ok o /\ command_allowed g command l /\
    (action <> ActStop -> exists revision loaded, ra_active_config_revision r = Some revision
       /\ (app_id, revision, loaded) ∈ sj_loaded g
       /\ sources_checked g (lv_metadata loaded) /\ plan_checked g (lv_metadata loaded)).

(** The application is in the state that was asked for. *)
Definition achieved (o : option ContainerRecord) : Prop :=
  match action with
  | ActStart | ActRestart => exists c, o = Some c /\ cr_status c = CsRunning
  | ActStop => forall c, o = Some c -> cr_status c = CsExited
  end.

Definition finish_acceptable (g : Seen) (status : Z) (code : option string) : Prop :=
  match code with
  | None => status = 200%Z /\ exists r l o, r ∈ sj_apps g /\ ra_app_id r = app_id /\
      (project, l) ∈ sj_listings g /\ classified (catalog_entry r) (is_stop action) l = Ok o /\ achieved o
  | Some _ => sj_commands g = [] \/ (action = ActRestart /\ sj_commands g = [(CaStop, true)])
  end.

Definition acceptable (X : Type) (g : Seen) (e : hev X) : Prop :=
  match e with
  | RunCompose command context => compose_acceptable g command context
  | FinishKey _ _ status _ code _ => finish_acceptable g status code
  | SetDesired app _ _ _ | RepairDurability app => app = app_id /\ sj_app g = true
  | Tombstone _ _ | FinalizeUnregistration _ _ | ConsumePreview _ _ => False
  | _ => True
  end.

Abbreviation safe := (safe note acceptable promised True).

(** ** Reading *)

(** The journal after calls that only read. *)
Record extends (g g' : Seen) : Prop := {
  ex_new : sj_new g' = sj_new g;
  ex_app : sj_app g' = sj_app g;
  ex_compose : sj_compose g' = sj_compose g;
  ex_marker : sj_marker g' = sj_marker g;
  ex_desired : sj_desired g' = sj_desired g;
  ex_commands : sj_commands g' = sj_commands g;
  ex_stopped : sj_stopped g' = sj_stopped g;
  ex_known : sj_known g ⊆ sj_known g';
  ex_apps : sj_apps g ⊆ sj_apps g';
  ex_reports : sj_reports g ⊆ sj_reports g';
  ex_loaded : sj_loaded g ⊆ sj_loaded g';
  ex_hosts : sj_hosts g ⊆ sj_hosts g';
  ex_listings : sj_listings g ⊆ sj_listings g';
}.

#[export] Instance extends_preorder : PreOrder extends.
Proof.
  split.
  - intros g. by split.
  - intros g1 g2 g3 [] []. split; try congruence; by etrans.
Qed.

Definition reads (X : Type) (e : hev X) : Prop :=
  match e with
  | ClaimKey _ _ _ _ | TryApp _ | TryCompose | ReadMarker _ _ | MarkStarted _ _ _ _ | SetDesired _ _ _ _ | RepairDurability _
  | RunCompose _ _ | FinishKey _ _ _ _ _ _ | Tombstone _ _ | FinalizeUnregistration _ _ | ConsumePreview _ _ => False
  | _ => True
  end.

Lemma note_reads X (e : hev X) x g : reads X e -> extends g (note g (Obs e x)).
Proof.
  destruct e; try done; intros _; cbn [note]; repeat case_match; split; simpl; try done; set_solver.
Qed.

Lemma safe_reading {A} (p : prog hev A) g (Q : Seen -> A -> Prop) :
  calls_only reads p -> (forall g' a, extends g g' -> Q g' a) -> safe p g Q.
Proof.
  intros Hp HQ. enough (forall g1, extends g g1 -> safe p g1 Q) as H by (by apply H).
  induction p as [a|X e k IH|]; intros g1 Hg; simpl in *; [by apply HQ| |done].
  destruct Hp as [He Hk]. split; [by destruct e|]. intros x _. apply IH; [apply Hk|]. etrans; [exact Hg|by apply note_reads].
Qed.

Lemma reads_ebind {R A B} (p : eprog hev R A) (f : A -> eprog hev R B) :
  calls_only reads p -> (forall a, calls_only reads (f a)) -> calls_only reads (ebind p f).
Proof. intros Hp Hf. apply calls_only_bind; [done|]. by intros [a|e]. Qed.

Lemma reads_each {R A} (f : A -> eprog hev R unit) l : (forall a, calls_only reads (f a)) -> calls_only reads (each f l).
Proof. intros Hf. induction l as [|a l IH]; [done|]. by apply reads_ebind. Qed.

Lemma reads_timed {A} (p : prog hev A) : calls_only reads p -> calls_only reads (timed p).
Proof.
  induction p as [a|X e k IH|]; simpl; [done| |done]. intros [He Hk]. split; [done|]. intros x. split; [done|].
  intros []; [done|]. by apply IH, Hk.
Qed.

Ltac reading :=
  repeat first
    [ exact I | apply reads_ebind; intros | apply calls_only_bind; intros | apply reads_each; intros
    | progress (unfold lift, eret, fail, result_of) | (split; [exact I|]; intros) | progress simpl | case_match ].

Lemma reads_policy app allow : calls_only reads (mutation_container_policy app allow).
Proof. unfold mutation_container_policy, mutation_container, list_candidates, try_call. reading. Qed.

Lemma reads_platform alias allowed missing : calls_only reads (validate_alias alias allowed missing).
Proof. unfold validate_alias, inspect_platform, try_call. reading. Qed.

Lemma reads_ensure alias allowed : calls_only reads (ensure_for_app alias allowed).
Proof.
  unfold ensure_for_app. apply reads_ebind; [|intros; apply reads_platform]. unfold ensure, inspect_platform, try_call, ask. reading.
Qed.

Lemma reads_resources id metadata allowed check request_id :
  calls_only reads (validate_resources_with_options id metadata allowed check request_id).
Proof.
  unfold validate_resources_with_options. apply calls_only_bind; [apply reads_timed|intros []; reading].
  unfold validate_resources_inner. reading; unfold owned_identity, check_volume, check_owned_network, check_platform, check_external, ask, try_call;
    reading; first [apply reads_platform|unfold validate_for_app_if_present, validate_if_present, inspect_platform, try_call; reading; apply reads_platform].
Qed.

(** ** What the checks establish *)

(** A fact that reading does not undo. *)
Class Stable (P : Seen -> Prop) : Prop := stable : forall g g', extends g g' -> P g -> P g'.

Definition scanned (rec : RecoveredApp) (g : Seen) : Prop :=
  (exists report, report ∈ sj_reports g /\ rec ∈ rr_valid_apps report) /\ rec ∈ sj_apps g
  /\ ra_app_id rec = app_id /\ ra_project_name rec = project.

(** A program that only reads, with what it establishes. *)
Definition finds {A} (p : prog hev A) (g : Seen) (F : A -> Seen -> Prop) : Prop :=
  safe p g (fun g' a => extends g g' /\ F a g').

Lemma finds_reads {A} (p : prog hev A) g : calls_only reads p -> finds p g (fun _ _ => True).
Proof. intros Hp. apply safe_reading; auto. Qed.

Lemma finds_bind {A B} (p : prog hev A) (f : A -> prog hev B) g F G :
  finds p g F -> (forall g' a, extends g g' -> F a g' -> finds (f a) g' G) -> finds (prog_bind p f) g G.
Proof.
  intros Hp Hf. apply safe_bind. eapply safe_mono; [exact Hp|]. intros g1 a [H1 Ha].
  eapply safe_mono; [by apply Hf|]. intros g2 b [H2 Hb]. split; [by etrans|done].
Qed.

Lemma finds_ebind {R A B} (p : eprog hev R A) (f : A -> eprog hev R B) g (F : A -> Seen -> Prop) (G : result R B -> Seen -> Prop) :
  finds p g (fun r g' => match r with Ok a => F a g' | Err e => G (Err e) g' end) ->
  (forall g' a, extends g g' -> F a g' -> finds (f a) g' G) -> finds (ebind p f) g G.
Proof. intros Hp Hf. eapply finds_bind; [exact Hp|]. intros g' [a|e] H1 Ha; [by apply Hf|by split]. Qed.

Lemma finds_call {X A} (e : hev X) (k : X -> prog hev A) g G :
  reads X e -> (forall x g', promised X g e x -> extends g g' -> g' = note g (Obs e x) -> finds (k x) g' G) -> finds (Vis e k) g G.
Proof.
  intros He Hk. split; [by destruct e|]. intros x Hx. pose proof (note_reads X e x g He) as Hn.
  eapply safe_mono; [by apply Hk|]. intros g' a [H Ha]. split; [by etrans|done].
Qed.

Lemma finds_ret {A} (a : A) g (G : A -> Seen -> Prop) : G a g -> finds (Ret a) g G.
Proof. by split. Qed.

Lemma finds_lift {R A B} (r : result R A) (f : A -> eprog hev R B) g (G : result R B -> Seen -> Prop) :
  (forall e, r = Err e -> G (Err e) g) -> (forall a, r = Ok a -> finds (f a) g G) -> finds (ebind (lift r) f) g G.
Proof. intros He Ha. destruct r; [by apply Ha|by split; [|apply He]]. Qed.

Lemma finds_mono {A} (p : prog hev A) g (F G : A -> Seen -> Prop) :
  finds p g F -> (forall a g', extends g g' -> F a g' -> G a g') -> finds p g G.
Proof. intros Hp H. eapply safe_mono; [exact Hp|]. intros g' a [H1 H2]. auto. Qed.

(** The answer that matters is the one without an error. *)
Definition on_ok {R A} (F : A -> Seen -> Prop) (r : result R A) (g : Seen) : Prop := match r with Ok a => F a g | Err _ => True end.

Lemma find_app rec (l : list RecoveredApp) :
  List.find (fun r => ra_app_id r =? app_id) l = Some rec -> rec ∈ l /\ ra_app_id rec = app_id.
Proof. intros [Hin Hid]%find_some. apply list_elem_of_In in Hin. by bools. Qed.

Lemma configured_finds g :
  finds (configured_app app_id) g (on_ok (fun app g' => exists rec, app = catalog_entry rec /\ scanned rec g')).
Proof.
  apply finds_call; [done|]. intros [report|e] g' Hp _ ->; [|by apply finds_ret]. simpl.
  apply finds_lift; [done|]. intros rec Hfind. apply ok_or_ok_inv in Hfind. apply find_app in Hfind as [Hin Hid].
  apply finds_lift; [done|]. intros _ _. apply finds_ret. exists rec. split; [done|].
  split_and!; [|set_solver|done|]; [exists report; set_solver|]. specialize (Hp report eq_refl).
  rewrite list.Forall_forall in Hp. by apply Hp.
Qed.

(** The verified release, from a scan and its stored configuration. *)
Definition verified (guarded : bool) (v : VerifiedActive) (g : Seen) : Prop :=
  exists rec, va_app v = catalog_entry rec /\ scanned rec g
    /\ va_compose_file v = compose_path apps_directory app_id (va_release_id v)
    /\ (ra_active_release_id rec = Some (va_release_id v)
        \/ (guarded = false /\ ra_active_release_id rec = None /\ ra_pending_release_id rec = Some (va_release_id v)))
    /\ (guarded = true -> exists revision hosts, ra_active_config_revision rec = Some revision
         /\ (app_id, revision, va_loaded v) ∈ sj_loaded g /\ hosts ∈ sj_hosts g
         /\ validate_binds hosts.1 (cm_binds (lv_metadata (va_loaded v))) hosts.2 = Ok (va_bind_identities v)).

Lemma scanned_stable rec : Stable (scanned rec).
Proof. intros g g' [] ((report & H1 & H2) & H3 & H4). split; [exists report; set_solver|]. set_solver. Qed.

Lemma verified_stable guarded v : Stable (verified guarded v).
Proof.
  intros g g' He (rec & Hv & Hs & Hc & Hr & Hb). exists rec. split_and!; try done; [by eapply scanned_stable|].
  intros Hg. destruct (Hb Hg) as (revision & hosts & H1 & H2 & H3 & H4). destruct He. exists revision, hosts. set_solver.
Qed.

Lemma reads_verify_compose key app release loaded : calls_only reads (verify_active_compose apps_directory key app release loaded).
Proof. unfold verify_active_compose, try_call, ask. reading. Qed.

Lemma active_finds key guarded g :
  finds (load_verified_active_with_bind_guard apps_directory key app_id guarded) g (on_ok (verified guarded)).
Proof.
  unfold load_verified_active_with_bind_guard. eapply finds_ebind.
  { eapply finds_mono; [apply configured_finds|]. by intros [a|e] g' _ H; [exact H|]. }
  intros g1 app He1 (rec & -> & Hrec). apply finds_lift; [done|]. intros release Hrel%ok_or_ok_inv.
  apply finds_lift; [done|]. intros revision Hrev%ok_or_ok_inv.
  apply finds_call; [done|]. intros [loaded|e] g2 _ He2 Hg2; simpl; [|by apply finds_ret].
  assert ((app_id, revision, loaded) ∈ sj_loaded g2) as Hl by (subst; set_solver).
  assert (scanned rec g2) as Hrec2 by (by eapply scanned_stable).
  eapply (finds_ebind _ _ _ (fun _ _ => True)).
  { destruct guarded; [|by apply finds_ret]. apply (finds_bind _ _ _ (fun _ _ => True));
      [apply finds_reads, reads_verify_compose|]. intros g' [u|e] _ _; by apply finds_ret. }
  intros g3 _ He3 _. eapply (finds_ebind _ _ _ (fun ids g' => guarded = true -> exists hosts, hosts ∈ sj_hosts g'
      /\ validate_binds hosts.1 (cm_binds (lv_metadata loaded)) hosts.2 = Ok ids)).
  - unfold guarded_binds. destruct guarded; [|by apply finds_ret]. apply finds_call; [done|]. intros hosts g' _ _ ->. simpl.
    apply finds_ret. destruct (validate_binds _ _ _) as [ids|e] eqn:Hb; simpl; [|done]. intros _. exists hosts. set_solver.
  - intros g4 ids He4 Hids. apply finds_ret. exists rec. split_and!; [done| |done|by left|].
    + eapply scanned_stable; [|exact Hrec2]. by etrans.
    + intros Hg. destruct (Hids Hg) as (hosts & H1 & H2). exists revision, hosts. split_and!; try done.
      destruct He3, He4. set_solver.
Qed.

Lemma pending_finds key g :
  finds (load_verified_pending_for_stop apps_directory key app_id) g (on_ok (verified false)).
Proof.
  unfold load_verified_pending_for_stop, load_verified_pending_with_bind_guard. eapply finds_ebind.
  { eapply finds_mono; [apply configured_finds|]. by intros [a|e] g' _ H; [exact H|]. }
  intros g1 app He1 (rec & -> & Hrec). destruct (is_some _) eqn:Hactive; [apply active_finds|].
  apply finds_lift; [done|]. intros release Hrel%ok_or_ok_inv.
  apply finds_call; [done|]. intros [rl|e] g2 _ He2 _; simpl; [|by apply finds_ret].
  apply finds_lift; [done|]. intros _ _. apply finds_call; [done|]. intros [loaded|e] g3 _ He3 _; simpl; [|by apply finds_ret].
  apply finds_ret. exists rec. split_and!; [done| |done| |done].
  - eapply scanned_stable; [|eapply scanned_stable; [|exact Hrec]]; done.
  - right. split_and!; [done| |done]. simpl in Hactive. by destruct (ra_active_release_id rec).
Qed.

(** The container a listing of the project shows. *)
Definition listed (app : AppCatalogEntry) (allow_pending : bool) (o : option ContainerRecord) (g : Seen) : Prop :=
  exists l, (ce_project_name app, l) ∈ sj_listings g /\ classified app allow_pending l = Ok o
    /\ forall c, o = Some c -> cr_id c ∈ sj_known g.

Lemma listed_stable app allow o : Stable (listed app allow o).
Proof. intros g g' [] (l & H1 & H2 & H3). exists l. set_solver. Qed.

Lemma classified_shape app allow l o : classified app allow l = Ok o -> match o with None => l = [] | Some c => l = [c] end.
Proof.
  unfold classified, classify_with_pending, classify_mutation_candidates. intros H.
  assert ((1 <? length l)%nat = false /\ (l = [] /\ o = None \/ exists c l', l = c :: l' /\ o = Some c)) as [Hlen Hcase].
  { destruct allow; ok_inv; (split; [done|]); destruct l as [|c l]; ok_inv; eauto. }
  apply Nat.ltb_ge in Hlen. destruct Hcase as [[-> ->]|(c & l' & -> & ->)]; [done|]. destruct l'; simpl in *; [done|lia].
Qed.

Lemma listed_alone app allow c g :
  listed app allow (Some c) g -> cr_id c ∈ alone_in (ce_project_name app) (sj_listings g).
Proof.
  intros (l & Hl & Hc & _). apply classified_shape in Hc as ->. unfold alone_in. rewrite list_elem_of_In, in_flat_map.
  exists (ce_project_name app, [c]). split; [by apply list_elem_of_In|]. cbn. rewrite bool_decide_eq_true_2 by done. by left.
Qed.

Lemma policy_finds app allow g : finds (mutation_container_policy app allow) g (on_ok (listed app allow)).
Proof.
  assert (forall l o, classified app allow l = Ok o -> forall c, o = Some c -> c ∈ l) as Hin.
  { intros l o H c ->. apply classified_shape in H as ->. set_solver. }
  unfold mutation_container_policy, mutation_container, list_candidates.
  destruct allow; simpl; (apply finds_call; [done|]); intros [l|e] g' _ _ ->; simpl; try (by apply finds_ret);
    apply finds_ret; [destruct (classify_with_pending app l) as [o|] eqn:Hc|destruct (classify_mutation_candidates app l) as [o|] eqn:Hc];
    simpl; try done; exists l; (split_and!; [set_solver|done|]); intros c Ho; specialize (Hin l o Hc c Ho); simpl; set_solver.
Qed.

(** What a live application uses. *)
Lemma live_finds roots rec g :
  finds (live_sources roots rec) g (on_ok (fun sources g' => accounted g' roots rec sources)).
Proof.
  unfold live_sources. eapply (finds_ebind _ _ _ (listed (catalog_entry rec) true)).
  { apply (finds_bind _ _ _ (on_ok (listed (catalog_entry rec) true))); [apply policy_finds|].
    by intros g' [o|e] _ H; apply finds_ret. }
  intros g1 o He1 (l & Hl & Hc & _). destruct o as [c|].
  2:{ apply finds_ret. exists l, None. split_and!; [done..|by left]. }
  case_bool_decide as Hx.
  { apply finds_ret. exists l, (Some c). split_and!; [done..|]. left. by intros ? [= <-]. }
  apply finds_lift; [done|]. intros identity Hid%ok_or_ok_inv. apply finds_lift; [done|]. intros revision Hrev%ok_or_ok_inv.
  apply finds_call; [done|]. intros [loaded|e] g2 _ He2 Hg2; simpl; [|by apply finds_ret].
  apply finds_call; [done|]. intros hosts g3 _ He3 Hg3. simpl. apply finds_ret.
  destruct (bind_safety_sources _ _ _ _) as [sources|e] eqn:Hs; simpl; [|done].
  exists l, (Some c). split_and!; [destruct He2, He3; set_solver|done|]. right. exists c, identity, revision, loaded, hosts.
  split_and!; try done; [|subst; set_solver..]. repeat case_bool_decide; by eauto.
Qed.

Lemma accounted_stable roots rec sources : Stable (fun g => accounted g roots rec sources).
Proof.
  intros g g' He (l & o & H1 & H2 & H3). exists l, o. destruct He. split_and!; [set_solver|done|].
  destruct H3 as [H3|(c & i & rev & loaded & hosts & H3)]; [by left|right]. exists c, i, rev, loaded, hosts. set_solver.
Qed.

Lemma all_live_finds roots apps g :
  finds (all_live_sources roots apps) g (on_ok (fun existing g' =>
    forall rec, rec ∈ apps -> exists sources, accounted g' roots rec sources /\ sources ⊆ existing)).
Proof.
  revert g. induction apps as [|rec apps IH]; intros g; simpl.
  { apply finds_ret. by intros rec ?%not_elem_of_nil. }
  eapply finds_ebind; [eapply finds_mono; [apply live_finds|by intros [a|e] g' _ H; [exact H|]]|]. intros g1 sources He1 Hs.
  eapply finds_ebind; [eapply finds_mono; [apply IH|by intros [a|e] g' _ H; [exact H|]]|]. intros g2 others He2 Ho.
  apply finds_ret. intros r [->|Hr]%elem_of_cons.
  - exists sources. split; [by eapply accounted_stable|set_solver].
  - destruct (Ho r Hr) as (s & H1 & H2). exists s. set_solver.
Qed.

Lemma plan_finds metadata g :
  finds (validate_bind_plan_against_live_apps app_id metadata) g (on_ok (fun _ g' => plan_checked g' metadata)).
Proof.
  unfold validate_bind_plan_against_live_apps. apply finds_call; [done|]. intros hosts g1 _ He1 Hg1. simpl.
  apply finds_lift; [done|]. intros target Ht. apply finds_call; [done|]. intros [report|e] g2 _ He2 Hg2; simpl; [|by apply finds_ret].
  apply finds_lift; [done|]. intros u Hissues.
  eapply finds_ebind; [eapply finds_mono; [apply all_live_finds|by intros [a|e] g' _ H; [exact H|]]|]. intros g3 existing He3 Hlive.
  apply finds_ret. destruct (validate_bind_plan target existing) as [[]|e] eqn:Hp; simpl; [|done].
  assert (hosts ∈ sj_hosts g2 /\ report ∈ sj_reports g2) as [H1 H2] by (split; [destruct He2|]; subst; set_solver).
  exists hosts, target, report, existing. split_and!; [destruct He3; set_solver| |destruct He3; set_solver| |done|].
  - by apply map_err_ok_inv in Ht.
  - apply refuse_if_ok in Hissues. by destruct (rr_issues report).
  - intros rec Hrec Hne. apply Hlive. rewrite list_elem_of_In in *. apply filter_In. split; [done|].
    apply negb_true_iff. by apply bool_decide_eq_false.
Qed.

Definition revalidated (identities : list BindIdentity) (g : Seen) : Prop :=
  Forall (fun identity => exists later, later ∈ sj_hosts g /\ revalidate_bind_identity later.1 identity later.2 = Ok tt) identities.

Lemma revalidated_stable identities : Stable (revalidated identities).
Proof. intros g g' [] H. eapply list.Forall_impl; [exact H|]. intros i (later & H1 & H2). exists later. set_solver. Qed.

Lemma revalidate_finds identities g : finds (revalidate_all identities) g (on_ok (fun _ => revalidated identities)).
Proof.
  revert g. induction identities as [|identity rest IH]; intros g; simpl; [apply finds_ret; constructor|].
  apply finds_call; [done|]. intros hosts g1 _ He1 Hg1. simpl. apply finds_lift; [done|]. intros [] Hok.
  eapply finds_mono; [apply IH|]. intros [[]|e] g2 He2 H; simpl; [|done]. constructor; [|done].
  exists hosts. split; [destruct He2; subst; set_solver|by apply map_err_ok_inv in Hok].
Qed.

Lemma plan_checked_stable metadata : Stable (fun g => plan_checked g metadata).
Proof.
  intros g g' He (hosts & target & report & existing & H1 & H2 & H3 & H4 & H5 & H6).
  exists hosts, target, report, existing. split_and!; try done; [destruct He; set_solver..|].
  intros rec Hr Hne. destruct (H6 rec Hr Hne) as (s & Ha & Hs). exists s. split; [by eapply accounted_stable|done].
Qed.

(** ** Steps of the handler *)

(** A failure may be recorded: nothing was run, or only the stop of a restart. *)
Definition may_fail (g : Seen) : Prop :=
  sj_commands g = [] \/ (action = ActRestart /\ sj_commands g = [(CaStop, true)]).

Lemma may_fail_stable : Stable may_fail.
Proof. intros g g' [] H. unfold may_fail. by rewrite ex_commands0. Qed.

(** The step goes on with [P], or the handler has answered: the record is
    finished or marked as interrupted. *)
Definition steps {A} (p : handler A) (g : Seen) (P : A -> Seen -> Prop) : Prop :=
  safe p g (fun g' r => match r with Ok a => P a g' | Err _ => sj_pending g' = false end).

Lemma steps_bind {A B} (p : handler A) (f : A -> handler B) g P Q :
  steps p g P -> (forall g' a, P a g' -> steps (f a) g' Q) -> steps (ebind p f) g Q.
Proof. intros Hp Hf. eapply safe_ebind_use; [exact Hp|exact Hf|done]. Qed.

Lemma steps_ret {A} (a : A) g (P : A -> Seen -> Prop) : P a g -> steps (eret a) g P.
Proof. done. Qed.

Lemma steps_mono {A} (p : handler A) g (P Q : A -> Seen -> Prop) :
  steps p g P -> (forall a g', P a g' -> Q a g') -> steps p g Q.
Proof. intros Hp H. eapply safe_mono; [exact Hp|]. intros g' [a|e]; auto. Qed.

Lemma steps_interrupted {A} rq g (P : A -> Seen -> Prop) : steps (return_interrupted rq) g P.
Proof. split; [done|]. by intros x _. Qed.

Lemma steps_error {A} rq code status g (P : A -> Seen -> Prop) : may_fail g -> steps (return_error rq code status) g P.
Proof. intros Hg. split; [done|]. intros r _. simpl. case_match; [done|]. split; [done|]. by intros x _. Qed.

Lemma steps_found {R A B} (p : eprog hev R A) (f : result R A -> handler B) g F Q :
  finds p g F -> (forall g' r, extends g g' -> F r g' -> steps (f r) g' Q) -> steps (prog_bind p f) g Q.
Proof. intros Hp Hf. apply safe_bind. eapply safe_mono; [exact Hp|]. intros g' r [H1 H2]. by apply Hf. Qed.

Lemma steps_code {A} rq (p : coded A) g F :
  finds p g (on_ok F) -> may_fail g -> steps (or_code rq p) g (fun a g' => extends g g' /\ F a g').
Proof.
  intros Hp Hg. eapply steps_found; [exact Hp|]. intros g' [a|e] He HF; [by split|]. by eapply steps_error, may_fail_stable.
Qed.

Lemma steps_api {A} rq (p : eprog hev ApiError A) g F :
  finds p g (on_ok F) -> may_fail g -> steps (or_api rq p) g (fun a g' => extends g g' /\ F a g').
Proof.
  intros Hp Hg. eapply steps_found; [exact Hp|]. intros g' [a|e] He HF; [by split|]. by eapply steps_error, may_fail_stable.
Qed.

Lemma steps_interrupt {R A} rq (p : eprog hev R A) g F :
  finds p g (on_ok F) -> steps (or_interrupt rq p) g (fun a g' => extends g g' /\ F a g').
Proof. intros Hp. eapply steps_found; [exact Hp|]. intros g' [a|e] He HF; [by split|apply steps_interrupted]. Qed.

Lemma steps_result {R A} (p : eprog hev R A) g F :
  finds p g F -> steps (result_of p) g (fun r g' => extends g g' /\ F r g').
Proof. intros Hp. by eapply steps_found; [exact Hp|]. Qed.

Lemma steps_ask {X B} (e : hev X) (f : X -> handler B) g Q :
  reads X e -> (forall x g', extends g g' -> steps (f x) g' Q) -> steps (ebind (ask e) f) g Q.
Proof. intros He Hf. split; [by destruct e|]. intros x _. simpl. by apply Hf, note_reads. Qed.

(** A check that answers with a fixed error. *)
Lemma steps_check rq (b : bool) code status g :
  may_fail g -> steps (if b then eret tt else return_error rq code status) g (fun _ g' => g' = g /\ b = true).
Proof. intros Hg. destruct b; [done|by apply steps_error]. Qed.

Lemma reads_resources_found id metadata allowed check request_id g :
  finds (validate_resources_with_options id metadata allowed check request_id) g (on_ok (fun _ _ => True)).
Proof. eapply finds_mono; [apply finds_reads, reads_resources|]. by intros [a|e]. Qed.

(** ** The survey *)

Lemma verified_for_steps rq g :
  may_fail g -> steps (verified_for key_material apps_directory rq app_id action) g
    (fun v g' => extends g g' /\ verified (negb (is_stop action)) v g').
Proof.
  intros Hg. unfold verified_for. destruct (is_stop action) eqn:Hs; cbn [negb].
  - eapply steps_found; [apply active_finds|]. intros g' [v|code] He HF; [by split|].
    assert (may_fail g') as Hg' by (by eapply may_fail_stable). case_match; [|by apply steps_error].
    eapply steps_mono; [apply steps_code; [apply pending_finds|done]|]. intros v g2 [H1 H2]. split; [by etrans|done].
  - apply steps_code; [apply active_finds|done].
Qed.

(** The application as some scan of this request showed it. *)
Definition met (rec : RecoveredApp) (g : Seen) : Prop :=
  rec ∈ sj_apps g /\ ra_app_id rec = app_id /\ ra_project_name rec = project.

Lemma met_stable rec : Stable (met rec).
Proof. intros g g' [] (H1 & H2 & H3). split_and!; [set_solver|done..]. Qed.

Lemma scanned_met rec g : scanned rec g -> met rec g.
Proof. by intros (_ & ?). Qed.

(** What the survey has found: the command fits the container. *)
Definition surveyed (sn : Situation) (g : Seen) : Prop :=
  sn_app_id sn = app_id /\ sn_action sn = action /\
  (exists rec, sn_app sn = catalog_entry rec /\ met rec g) /\
  (forall id, sn_expected_id sn = Some id -> id ∈ sj_known g).

Definition reached (g : Seen) : Prop :=
  exists rec l o, rec ∈ sj_apps g /\ ra_app_id rec = app_id /\ (project, l) ∈ sj_listings g /\
    classified (catalog_entry rec) (is_stop action) l = Ok o /\ achieved o.

Definition fits (sn : Situation) (command : option ComposeAction) (g : Seen) : Prop :=
  match command with
  | None => reached g
  | Some CaRecreate => action = ActStart /\ sn_expected_id sn = None
  | Some CaStart => action = ActStart
  | Some CaStop => action <> ActStart /\ is_Some (sn_expected_id sn)
  | Some _ => False
  end.

Lemma reached_stable : Stable reached.
Proof. intros g g' [] (rec & l & o & H). exists rec, l, o. set_solver. Qed.

Lemma surveyed_stable sn : Stable (surveyed sn).
Proof.
  intros g g' He (H1 & H2 & (rec & H3 & H4) & H5). split_and!; try done.
  - exists rec. split; [done|by eapply met_stable].
  - destruct He. set_solver.
Qed.

Lemma fits_stable sn command : Stable (fits sn command).
Proof. intros g g' He H. destruct command as [[]|]; try done. by eapply reached_stable. Qed.

Lemma listed_reached rec o g :
  met rec g -> listed (catalog_entry rec) (is_stop action) o g -> achieved o -> reached g.
Proof. intros (Hin & Hid & Hp) (l & Hl & Hc & _) Ho. exists rec, l, o. simpl in Hl. rewrite Hp in Hl. done. Qed.

Lemma choose_steps rq current sn g :
  may_fail g ->
  (forall o, current = Ok o -> sn_expected_id sn = cr_id <$> o) ->
  (forall o, current = Ok o -> achieved o -> reached g) ->
  steps (choose rq action current) g (fun out g' => g' = g /\ fits sn out.1 g').
Proof.
  intros Hg Hid Hreach. unfold choose. destruct current as [[c|]|code], action eqn:Ha; try (by apply steps_error); apply steps_ret; (split; [done|]);
    cbn [fst]; unfold fits; specialize (Hid _ eq_refl); simpl in Hid; try (rewrite Hid); try done.
  - case_bool_decide; [|done]. apply (Hreach _ eq_refl). unfold achieved. rewrite Ha. eauto.
  - case_bool_decide; [|by split; [rewrite Ha|]]. apply (Hreach _ eq_refl). unfold achieved. rewrite Ha. by intros ? [= <-].
  - by split; [rewrite Ha|].
  - apply (Hreach _ eq_refl). unfold achieved. by rewrite Ha.
Qed.

Lemma steps_or_skip (b : bool) {A} (p : handler A) g (F : Seen -> Prop) :
  (b = false -> steps p g (fun _ g' => extends g g' /\ F g')) ->
  steps (if b then eret tt else _ <- p ;; eret tt) g (fun _ g' => extends g g' /\ (b = false -> F g')).
Proof.
  intros Hp. destruct b; [by split|]. eapply steps_bind; [by apply Hp|]. intros g' a [H1 H2]. by split.
Qed.

Lemma survey_steps rq g :
  sj_commands g = [] -> steps (survey key_material apps_directory rq app_id action) g
    (fun out g' => extends g g' /\ surveyed out.1 g' /\ fits out.1 out.2.1 g').
Proof.
  intros Hg. unfold survey. eapply steps_bind; [apply verified_for_steps; by left|]. intros g1 v [E1 Hv]. cbn zeta.
  assert (forall g', extends g1 g' -> may_fail g') as Hf by (intros g' He; left; destruct E1, He; congruence).
  eapply (steps_bind _ _ _ (fun _ g' => g' = g1)).
  { case_match; [by apply steps_error, Hf|done]. }
  intros ? [] ->. eapply (steps_bind _ _ _ (fun _ g' => extends g1 g')).
  { by apply steps_ask. }
  intros g2 deadline E2. eapply (steps_bind _ _ _ (fun _ g' => extends g1 g')).
  { eapply steps_mono; [apply (steps_or_skip _ _ _ (fun _ => True))|intros ? g' [H _]; by etrans].
    intros _. eapply steps_mono; [apply steps_code with (F := fun _ _ => True)|by intros ? ? [? _]]; [|by apply Hf].
    eapply finds_mono; [apply finds_reads; unfold validate_runtime_paths, validate_runtime_paths_for_docker_root, ask; reading|].
    by intros [a|e]. }
  intros g3 [] E3. eapply (steps_bind _ _ _ (fun _ g' => extends g1 g')).
  { destruct (is_stop action); [by apply steps_ret|]. eapply steps_mono; [apply steps_code; [apply plan_finds|by apply Hf]|].
    intros ? ? [? _]. by etrans. }
  intros g4 [] E4. eapply steps_bind; [apply steps_result, policy_finds|]. intros g5 current [E5 Hcur]. cbn zeta.
  eapply steps_bind; [apply steps_api; [apply reads_resources_found|apply Hf; by etrans]|]. intros g6 [] [E6 _].
  set (seen := match current with Ok seen => seen | Err _ => None end).
  set (sn := MkSituation app_id action (va_app v) (va_release_id v) (lv_metadata (va_loaded v)) deadline (cr_id <$> seen) (seen ≫= cr_started_at)).
  assert (E16 : extends g1 g6) by (etrans; [exact E4|]; by etrans).
  destruct Hv as (rec & Hv & Hrec & _). assert (scanned rec g6) as Hrec6 by (by eapply scanned_stable).
  eapply (steps_bind _ _ _ (fun out g' => g' = g6 /\ fits sn out.1 g')).
  { apply choose_steps; [by apply Hf|by intros o ->|]. intros o -> Ho. eapply listed_reached; [by apply scanned_met| |exact Ho].
    rewrite <- Hv. exact (listed_stable _ _ _ g5 g6 E6 Hcur). }
  intros g7 [command text] [-> Hfits]. apply steps_ret. split; [by etrans|]. split; [|exact Hfits].
  split_and!; [done|done|exists rec; split; [done|by apply scanned_met]|]. cbn. intros id Hid.
  subst seen. destruct current as [[c|]|]; simplify_eq/=. destruct Hcur as (l & _ & _ & Hk). destruct E6. set_solver.
Qed.

(** ** Resuming *)

Definition marked (marker : option EffectMarker) (g : Seen) : Prop := is_Some marker -> announced g.

Lemma announced_stable : Stable announced.
Proof. intros g g' [] (pre & H1 & H2). exists pre. rewrite ex_marker0. set_solver. Qed.

Lemma completed_achieved marker seen : effect_completed action marker seen = true -> exists c, seen = Some c /\ achieved seen.
Proof.
  unfold effect_completed, achieved, final_status. intros H.
  destruct (em_pre_container_id marker), seen as [c|]; try done; exists c; (split; [done|]); bools.
  - destruct action; [by eauto|by intros ? [= <-]|by eauto].
  - destruct action; try done. by eauto.
Qed.

Lemma resume_steps rq sn resumed marker command g :
  sj_commands g = [] -> surveyed sn g -> fits sn command g ->
  (forall m, marker = Some m -> resumed = true /\ sj_marker g = Some (em_pre_container_id m)) ->
  steps (resume rq action (sn_app sn) resumed marker command) g
    (fun command' g' => extends g g' /\ fits sn command' g' /\ (is_Some command' -> marked marker g')).
Proof.
  intros Hg Hsn Hfits Hm. unfold resume. destruct marker as [m|].
  2:{ destruct resumed; apply steps_ret; (split_and!; [done..|]); by intros _ [? [=]]. }
  destruct (Hm m eq_refl) as [-> Hmark]. eapply steps_bind; [apply steps_result, policy_finds|].
  intros g1 observed [E1 Hobs]. cbn zeta. set (seen := match observed with Ok seen => seen | Err _ => None end).
  assert (forall c, seen = Some c -> listed (sn_app sn) (is_stop action) (Some c) g1) as Hseen.
  { intros c Hc. subst seen. destruct observed as [o|]; [|done]. by subst o. }
  assert (sj_marker g1 = Some (em_pre_container_id m)) as Hmark1 by (destruct E1; congruence).
  destruct (effect_completed action m seen) eqn:Hdone.
  { apply steps_ret. split_and!; [done| |by intros [? [=]]]. apply completed_achieved in Hdone as (c & Hc & Ha).
    destruct Hsn as (_ & _ & (rec & Hrec & Hmet) & _). eapply (listed_reached rec seen); [by eapply met_stable| |done].
    rewrite <- Hrec, Hc. by apply Hseen. }
  destruct ((em_phase m =? IeStarted) && observation_matches_marker m seen) eqn:Hmatch.
  { apply steps_ret. split_and!; [done|by eapply fits_stable|]. intros _ _. exists (em_pre_container_id m). split; [done|].
    intros id Hid. bools. unfold observation_matches_marker in *. rewrite Hid in *. destruct seen as [c|]; [|done]. bools.
    destruct (Hseen c eq_refl) as (l & _ & _ & Hk). subst id. by apply Hk. }
  destruct (partial_recreate_can_continue action m seen) eqn:Hpart.
  - apply steps_ret. unfold partial_recreate_can_continue in Hpart. bools. split_and!; [done|done|]. intros _ _.
    exists (em_pre_container_id m). split; [done|]. by destruct (em_pre_container_id m).
  - apply steps_error. left. destruct E1. congruence.
Qed.

Lemma store_desired_steps rq operation_id desired g :
  sj_app g = true -> steps (store_desired rq app_id operation_id desired) g
    (fun _ g' => exists g1, extends g g1 /\ g' = g1 <| sj_desired := true |>).
Proof.
  intros Happ. unfold store_desired. apply steps_ask; [done|]. intros now g1 E1.
  assert (sj_app g1 = true) as Happ1 by (destruct E1; congruence).
  split; [done|]. intros [metadata|e] _; cbn [note is_ok].
  { exists g1. done. }
  apply steps_ask; [done|]. intros [existing|e'] g2 E2; [|apply steps_interrupted]. case_match; [|apply steps_interrupted].
  assert (sj_app g2 = true) as Happ2 by (destruct E2; congruence).
  split; [done|]. intros [[]|e'] _; cbn [note is_ok]; [|apply steps_interrupted].
  exists g2. split; [by etrans|done].
Qed.

(** ** The command *)

(** What is known right before a command. *)
Definition prepared (sn : Situation) (active : VerifiedActive) (g : Seen) : Prop :=
  exists rec o, va_app active = catalog_entry rec /\ scanned rec g /\ va_release_id active = sn_release sn
    /\ va_compose_file active = compose_path apps_directory app_id (sn_release sn)
    /\ (ra_active_release_id rec = Some (sn_release sn)
        \/ (action = ActStop /\ ra_active_release_id rec = None /\ ra_pending_release_id rec = Some (sn_release sn)))
    /\ listed (catalog_entry rec) (is_stop action) o g /\ cr_id <$> o = sn_expected_id sn
    /\ (action <> ActStop -> exists revision, ra_active_config_revision rec = Some revision
         /\ (app_id, revision, va_loaded active) ∈ sj_loaded g
         /\ sources_checked g (lv_metadata (va_loaded active)) /\ plan_checked g (lv_metadata (va_loaded active))).

Lemma is_stop_iff : is_stop action = true <-> action = ActStop.
Proof. by destruct action. Qed.

Lemma verify_again_steps rq sn g :
  sn_app_id sn = app_id -> sn_action sn = action ->
  steps (verify_again key_material apps_directory rq sn) g (fun active g' => extends g g' /\ prepared sn active g').
Proof.
  intros Hid Hact. unfold verify_again. cbn zeta. rewrite Hid, Hact.
  eapply (steps_bind _ _ _ (fun v g' => extends g g' /\ verified (negb (is_stop action)) v g')).
  { destruct (is_stop action); [rewrite andb_true_r; case_match|rewrite andb_false_r];
      apply steps_interrupt; [apply pending_finds|apply active_finds..]. }
  intros g1 active [E1 Hv]. eapply (steps_bind _ _ _ (fun _ g' => g' = g1 /\ va_release_id active = sn_release sn)).
  { case_bool_decide; [done|apply steps_interrupted]. }
  intros ? [] [-> Hrel]. eapply steps_bind; [apply steps_interrupt, policy_finds|]. intros g2 o [E2 Ho].
  eapply (steps_bind _ _ _ (fun _ g' => g' = g2 /\ cr_id <$> o = sn_expected_id sn)).
  { case_bool_decide; [done|apply steps_interrupted]. }
  intros ? [] [-> Hexp]. eapply steps_bind; [apply steps_interrupt, reads_resources_found|]. intros g3 [] [E3 _].
  eapply (steps_bind _ _ _ (fun _ g' => extends g3 g' /\ (is_stop action = false -> plan_checked g' (lv_metadata (va_loaded active))))).
  { destruct (is_stop action); [by apply steps_ret|]. eapply steps_mono; [apply steps_interrupt, plan_finds|]. by intros ? ? []. }
  intros g4 [] [E4 Hplan]. eapply steps_bind; [apply steps_interrupt, revalidate_finds|]. intros g5 [] [E5 Hre].
  apply steps_ret. assert (E25 : extends g2 g5) by (etrans; [exact E3|]; by etrans).
  assert (E15 : extends g1 g5) by (by etrans). split; [by etrans|].
  destruct (verified_stable _ _ _ _ E15 Hv) as (rec & Ha & Hs & Hc & Hr & Hb). exists rec, o.
  split_and!; try done; [congruence| | |].
  - rewrite <- Hrel. destruct Hr as [Hr|(Hg & Hr)]; [by left|right]. apply negb_false_iff, is_stop_iff in Hg. done.
  - rewrite <- Ha. exact (listed_stable _ _ _ g2 g5 E25 Ho).
  - intros Hns. assert (is_stop action = false) as Hst by (apply not_true_iff_false; by rewrite is_stop_iff).
    rewrite Hst in Hb. destruct (Hb eq_refl) as (revision & hosts & H1 & H2 & H3 & H4). exists revision. split_and!; [done..| |].
    + exists hosts, (va_bind_identities active). done.
    + by eapply plan_checked_stable; [|apply Hplan].
Qed.

Lemma prepared_acceptable sn active command g timeout grace patterns :
  sj_app g = true -> sj_compose g = true -> sj_desired g = true -> announced g -> prepared sn active g ->
  (forall l o, classified (va_app active) (is_stop action) l = Ok o -> cr_id <$> o = sn_expected_id sn -> command_allowed g command l) ->
  compose_acceptable g command (MkRunContext (ce_project_name (va_app active)) (app_path apps_directory app_id) (va_compose_file active)
    timeout grace patterns).
Proof.
  intros H1 H2 H3 H4 (rec & o & Ha & Hs & Hrel & Hfile & Hr & (l & Hl & Hc & Hk) & Hexp & Hb) Hcmd.
  split_and!; [done..|]. destruct Hs as (Hrep & Hin & Hid & Hp). simpl in Hl. rewrite Hp in Hl.
  exists rec, (sn_release sn), l, o. split_and!; try done.
  - unfold aims_at. rewrite Ha. simpl. split_and!; done.
  - apply (Hcmd l o); [by rewrite Ha|done].
  - intros Hns. destruct (Hb Hns) as (revision & ?). by exists revision, (va_loaded active).
Qed.

(** The test of a container depends on the identity and the active release. *)
Lemma classified_same rec rec' l :
  ra_app_id rec = ra_app_id rec' -> ra_project_name rec = ra_project_name rec' ->
  ra_active_release_id rec = ra_active_release_id rec' ->
  classified (catalog_entry rec) false l = classified (catalog_entry rec') false l.
Proof.
  intros H1 H2 H3. unfold classified, classify_mutation_candidates, validate_identity, validate_syntactic_identity. simpl.
  by rewrite H1, H2, H3.
Qed.

(** Before the start of a restart. *)
Definition restartable (sn : Situation) (g : Seen) : Prop :=
  exists rec c, scanned rec g /\ ra_active_release_id rec = Some (sn_release sn) /\ (project, [c]) ∈ sj_listings g
    /\ classified (catalog_entry rec) false [c] = Ok (Some c) /\ cr_status c = CsExited /\ sn_expected_id sn = Some (cr_id c)
    /\ exists revision loaded, ra_active_config_revision rec = Some revision /\ (app_id, revision, loaded) ∈ sj_loaded g
       /\ sources_checked g (lv_metadata loaded) /\ plan_checked g (lv_metadata loaded).

Lemma steps_revalidate rq identities code status g :
  may_fail g -> steps (prog_bind (revalidate_all identities) (fun r => if is_ok r then eret tt else return_error rq code status)) g
    (fun _ g' => extends g g' /\ revalidated identities g').
Proof.
  intros Hg. eapply steps_found; [apply revalidate_finds|]. intros g' [u|e] He HF; [by split|]. by eapply steps_error, may_fail_stable.
Qed.

Lemma between_steps rq sn active rec g :
  action = ActRestart -> sj_commands g = [(CaStop, true)] -> sn_app_id sn = app_id -> va_app active = catalog_entry rec ->
  met rec g -> ra_active_release_id rec = Some (sn_release sn) ->
  steps (between key_material apps_directory rq sn active) g (fun _ g' => extends g g' /\ restartable sn g').
Proof.
  intros Hact Hcmd Hid Hrec Hmet Hrel. unfold between. rewrite Hid.
  assert (forall g', extends g g' -> may_fail g') as Hf by (intros g' []; right; by split; [|congruence]).
  eapply steps_bind; [apply steps_result, policy_finds|]. intros g1 stopped [E1 Hs].
  eapply (steps_bind _ _ _ (fun _ g' => g' = g1 /\ exists c, stopped = Ok (Some c) /\ cr_status c = CsExited /\ sn_expected_id sn = Some (cr_id c))).
  { destruct stopped as [[c|]|]; try apply steps_interrupted. case_match eqn:Hb; [|apply steps_interrupted].
    bools. split; [done|]. by exists c. }
  intros ? [] (-> & c & -> & Hx & Hsame). eapply steps_bind; [by apply steps_revalidate, Hf|]. intros g2 [] [E2 _].
  assert (E02 : extends g g2) by (by etrans).
  eapply (steps_bind _ _ _ (fun v g' => extends g2 g' /\ verified true v g' /\ va_release_id v = sn_release sn)).
  { eapply steps_found; [apply active_finds|]. intros g' [v|code] He Hv.
    - case_bool_decide; [done|apply steps_interrupted].
    - case_match; [apply steps_error, Hf; by etrans|apply steps_interrupted]. }
  intros g3 fresh (E3 & Hv & Hfr). assert (E03 : extends g g3) by (by etrans).
  eapply (steps_bind _ _ _ (fun _ g' => g' = g3)); [case_bool_decide; [done|by apply steps_error, Hf]|]. intros ? [] ->.
  eapply steps_bind; [by apply steps_revalidate, Hf|]. intros g4 [] [E4 Hre]. assert (E04 : extends g g4) by (by etrans).
  eapply steps_mono; [apply steps_code; [apply plan_finds|by apply Hf]|]. intros [] g5 [E5 Hplan]. split; [by etrans|].
  assert (E15 : extends g1 g5) by (etrans; [exact E2|]; etrans; [exact E3|]; by etrans).
  assert (E35 : extends g3 g5) by (by etrans).
  destruct (verified_stable _ _ _ _ E35 Hv) as (rec' & Ha & Hs' & _ & Hr & Hb).
  destruct (Hb eq_refl) as (revision & hosts & H1 & H2 & H3 & H4).
  destruct Hr as [Hr|[? _]]; [|done]. rewrite Hfr in Hr.
  destruct Hs as (l & Hl & Hc & Hk). assert (l = [c]) as -> by (by apply classified_shape in Hc).
  destruct Hmet as (_ & Hmid & Hmp). destruct Hs' as (Hs1 & Hs2 & Hs3 & Hs4). rewrite Hrec in Hl, Hc. simpl in Hl. rewrite Hmp in Hl.
  exists rec', c. split_and!; try done; [destruct E15; set_solver| |].
  - rewrite (classified_same rec' rec); [done|congruence..].
  - exists revision, (va_loaded fresh). split_and!; try done. exists hosts, (va_bind_identities fresh). split_and!; try done.
    exact (revalidated_stable _ _ _ E5 Hre).
Qed.

(** After a command nothing but what was met before is still known. *)
Lemma met_command rec g X (e : hev X) x : met rec g -> met rec (note g (Obs e x)).
Proof.
  destruct e; try done; cbn [note]; repeat case_match; try done. intros (H1 & H2 & H3). split_and!; [simpl; set_solver|done..].
Qed.

Lemma surveyed_command sn g X (e : hev X) x : surveyed sn g -> surveyed sn (note g (Obs e x)).
Proof.
  intros (H1 & H2 & (rec & H3 & H4) & H5). split_and!; [done|done|exists rec; split; [done|by apply met_command]|].
  intros id Hid. specialize (H5 id Hid). destruct e; try done; cbn [note]; repeat case_match; try done. simpl. set_solver.
Qed.

(** The flags that are set once and for all. *)
Definition armed (g : Seen) : Prop := sj_app g = true /\ sj_compose g = true /\ sj_desired g = true /\ announced g.

Lemma armed_stable : Stable armed.
Proof. intros g g' He (H1 & H2 & H3 & H4). pose proof (announced_stable _ _ He H4). destruct He. split_and!; congruence || done. Qed.

Definition context_of (sn : Situation) (active : VerifiedActive) (timeout : Z) : RunContext :=
  MkRunContext (ce_project_name (va_app active)) (app_path apps_directory app_id) (va_compose_file active) timeout
    (cm_stop_grace_period_seconds (lv_metadata (va_loaded active))) [].

Lemma note_created_steps rq sn observed g : steps (note_created rq sn observed) g (fun _ g' => extends g g').
Proof. unfold note_created. repeat case_match; try (by apply steps_ret). by apply steps_ask. Qed.

Lemma fits_allowed sn command g app allow l o :
  fits sn (Some command) g -> sj_commands g = [] -> classified app allow l = Ok o -> cr_id <$> o = sn_expected_id sn ->
  command_allowed g command l.
Proof.
  intros Hf Hg Hc Hexp. apply classified_shape in Hc. destruct command; simpl in *; try done.
  - by left.
  - destruct Hf as [-> He]. rewrite He in Hexp. destruct o; simplify_eq. by subst.
  - destruct Hf as [Hne [id He]]. rewrite He in Hexp. destruct o as [c|]; simplify_eq/=. split_and!; [done..|]. by exists c.
Qed.

Lemma restart_command command sn g : action = ActRestart -> fits sn (Some command) g -> command = CaStop.
Proof. intros Ha. destruct command; simpl; rewrite ?Ha; naive_solver. Qed.

Lemma armed_command g command context r : armed g -> armed (note g (Obs (RunCompose command context) r)).
Proof. intros (H1 & H2 & H3 & (pre & H4)). split_and!; [done..|]. by exists pre. Qed.

Lemma run_command_steps rq sn active command timeout g :
  armed g -> sj_commands g = [] -> surveyed sn g -> fits sn (Some command) g -> prepared sn active g ->
  steps (run_command key_material apps_directory rq sn active command (context_of sn active timeout)) g (fun _ g' => surveyed sn g').
Proof.
  intros Harm Hg Hsn Hfits Hprep. assert (sn_action sn = action /\ sn_app_id sn = app_id) as [Hact Hid] by (by destruct Hsn as (? & ? & _)).
  assert (compose_acceptable g command (context_of sn active timeout)) as Hacc.
  { destruct Harm as (H1 & H2 & H3 & H4). apply (prepared_acceptable sn); try done. intros l o Hc Hexp. by eapply fits_allowed. }
  unfold run_command. rewrite Hact. eapply (steps_bind _ _ _ (fun _ g' => surveyed sn g')).
  - case_bool_decide as Hre.
    + assert (command = CaStop) as -> by (by eapply restart_command). split; [exact Hacc|]. intros [[]|e] _.
      2:{ by apply surveyed_command. }
      set (g1 := note g _). assert (surveyed sn g1) as Hsn1 by (by apply surveyed_command).
      assert (armed g1) as Harm1 by (by apply armed_command).
      destruct Hprep as (rec & o & Ha & Hs & Hrel & Hfile & Hr & Hlist & Hexp & _). eapply steps_bind.
      { apply (between_steps rq sn active rec g1); try done; [by unfold g1; simpl; rewrite Hg|by apply met_command, scanned_met|].
        destruct Hr as [Hr|[Hr _]]; [done|]. by rewrite Hre in Hr. }
      intros g2 [] [E2 (rec2 & c & Hs2 & Hr2 & Hl2 & Hc2 & Hx & Hsame & revision & loaded & Hb)].
      assert (armed g2) as (A1 & A2 & A3 & A4) by (exact (armed_stable _ _ E2 Harm1)).
      assert (sj_commands g2 = [(CaStop, true)]) as Hcmds by (destruct E2; rewrite ex_commands0; unfold g1; simpl; by rewrite Hg).
      assert (cr_id c ∈ sj_stopped g2) as Hstop.
      { destruct E2. rewrite ex_stopped0. unfold g1. simpl. rewrite Hsame in Hexp. destruct o as [c0|]; [|done].
        injection Hexp as <-. rewrite Ha. by eapply listed_alone. }
      split; [|by intros [[]|e] _; apply surveyed_command, (surveyed_stable _ _ _ E2)].
      split_and!; [done..|]. exists rec2, (sn_release sn), [c], (Some c). destruct Hs2 as (Hs2 & Hin2 & Hid2 & Hp2).
      split_and!; [|done|by rewrite Hre|right; split_and!; [done..|by exists c]|by intros _; exists revision, loaded].
      unfold aims_at. destruct Hs as (_ & _ & _ & Hp). simpl. rewrite Ha. simpl. split_and!; try done. by left.
    + split; [exact Hacc|]. intros [[]|e] _; by apply surveyed_command.
  - intros g' [[]|e] Hsn'; [done|]. eapply (steps_bind _ _ _ (fun _ _ => True)); [|intros; apply steps_interrupted].
    case_match; [|done]. eapply steps_bind; [apply steps_result, policy_finds|]. intros g'' observed _.
    eapply steps_mono; [apply note_created_steps|done].
Qed.

Lemma final_achieved sn command observed :
  sn_action sn = action -> final_state_matches sn command observed = true -> exists c, observed = Ok (Some c) /\ achieved (Some c).
Proof.
  intros Hact. unfold final_state_matches, achieved. rewrite Hact. destruct action, observed as [[c|]|]; try done; intros H; bools;
    exists c; (split; [done|]); [by eauto|by intros ? [= <-]|by eauto].
Qed.

Lemma confirm_steps rq sn command g :
  surveyed sn g -> steps (confirm rq sn command) g (fun _ g' => reached g').
Proof.
  intros Hsn. assert (sn_action sn = action) as Hact by apply Hsn. unfold confirm. rewrite Hact.
  eapply steps_bind; [apply steps_result, policy_finds|]. intros g1 observed [E1 Hobs].
  eapply (steps_bind _ _ _ (fun _ g' => g' = g1 /\ reached g1)).
  { case_match eqn:Hfin.
    - apply steps_ret. split; [done|]. apply final_achieved in Hfin as (c & -> & Hc); [|done].
      destruct Hsn as (_ & _ & (rec & Hrec & Hmet) & _). eapply (listed_reached rec); [by eapply met_stable| |exact Hc].
      by rewrite <- Hrec.
    - eapply steps_bind; [apply note_created_steps|]. intros. apply steps_interrupted. }
  intros ? [] [-> Hreach]. eapply (steps_bind _ _ _ (fun _ g' => reached g')).
  { repeat case_match; try done; split; [done|]; intros [[]|e] _; try done; apply steps_interrupted. }
  intros g2 [] H2. split; [done|]. intros [[]|e] _; [done|apply steps_interrupted].
Qed.

(** What holds from the survey on, before any command. *)
Record surveying (sn : Situation) (command : option ComposeAction) (marker : option EffectMarker) (g : Seen) : Prop := {
  sy_app : sj_app g = true;
  sy_desired : sj_desired g = true;
  sy_commands : sj_commands g = [];
  sy_surveyed : surveyed sn g;
  sy_fits : fits sn command g;
  sy_marked : is_Some command -> marked marker g;
}.

Lemma surveying_stable sn command marker : Stable (surveying sn command marker).
Proof.
  intros g g' He []. split; try (by destruct He; congruence).
  - exact (surveyed_stable _ _ _ He sy_surveyed0).
  - exact (fits_stable _ _ _ _ He sy_fits0).
  - intros Hc Hm. exact (announced_stable _ _ He (sy_marked0 Hc Hm)).
Qed.

Lemma guard_steps rq (e : hev bool) g (P : unit -> Seen -> Prop) :
  (e = TryCompose \/ exists id, e = TryApp id) -> may_fail g -> P tt (note g (Obs e true)) -> steps (guard rq e) g P.
Proof.
  intros He Hg HP. split; [by destruct He as [->|[id ->]]|]. intros [] _; [done|]. apply steps_error.
  by destruct He as [->|[id ->]].
Qed.

Lemma apply_command_steps rq sn marker command g :
  surveying sn (Some command) marker g ->
  steps (apply_command key_material apps_directory rq sn marker command) g (fun _ g' => reached g').
Proof.
  intros Hg. assert (sn_action sn = action /\ sn_app_id sn = app_id) as [Hact Hid] by (by destruct Hg as [_ _ _ (? & ? & _) _ _]).
  unfold apply_command. cbn zeta. rewrite Hact, Hid.
  assert (forall g', surveying sn (Some command) marker g' -> may_fail g') as Hf by (intros g' []; by left).
  eapply (steps_bind _ _ _ (fun _ g' => surveying sn (Some command) marker g')).
  { apply steps_ask; [done|]. intros status g' He. assert (H' := surveying_stable _ _ _ _ _ He Hg).
    case_match; [by apply steps_error, Hf|done]. }
  intros g1 [] H1. eapply (steps_bind _ _ _ (fun _ g' => surveying sn (Some command) marker g' /\ sj_compose g' = true)).
  { apply guard_steps; [by left|by apply Hf|]. split; [|done]. by destruct H1. }
  assert (forall g' g'', extends g' g'' -> surveying sn (Some command) marker g' /\ sj_compose g' = true ->
    surveying sn (Some command) marker g'' /\ sj_compose g'' = true) as Hst.
  { intros g' g'' He [Ha Hb]. split; [exact (surveying_stable _ _ _ _ _ He Ha)|destruct He; congruence]. }
  intros g2 [] H2. eapply steps_bind; [apply steps_api; [apply reads_resources_found|by apply Hf, H2]|]. intros g3 [] [E3 _].
  assert (H3 := Hst _ _ E3 H2). eapply (steps_bind _ _ _ (fun _ g' => extends g3 g')).
  { case_match; [|by apply steps_ret]. eapply steps_found; [apply finds_reads, reads_ensure|]. intros g' [u|e] He _; [done|].
    apply steps_error, Hf. by apply (Hst _ _ He). }
  intros g4 [] E4. assert (H4 := Hst _ _ E4 H3). eapply steps_bind; [apply steps_result, policy_finds|]. intros g5 current [E5 _].
  assert (H5 := Hst _ _ E5 H4). eapply (steps_bind _ _ _ (fun _ g' => g' = g5)).
  { destruct current as [o|]; [case_bool_decide; [done|]|]; by apply steps_error, Hf, H5. }
  intros ? [] ->. eapply (steps_bind _ _ _ (fun _ g' => armed g' /\ sj_commands g' = [] /\ surveyed sn g' /\ fits sn (Some command) g')).
  { destruct H5 as [[] Hc]. unfold armed. destruct marker as [m|].
    { assert (announced g5) by (apply sy_marked0; by eexists). apply steps_ret. by split_and!. }
    split; [done|]. intros [[]|e] _; [|apply steps_interrupted]. split_and!; try done.
    exists (sn_expected_id sn). split; [done|]. by destruct sy_surveyed0 as (_ & _ & _ & Hk). }
  intros g6 [] (A6 & C6 & S6 & F6). eapply steps_bind; [by apply verify_again_steps|]. intros g7 active [E7 Hprep].
  assert (armed g7 /\ sj_commands g7 = [] /\ surveyed sn g7 /\ fits sn (Some command) g7) as (A7 & C7 & S7 & F7).
  { split_and!; [exact (armed_stable _ _ E7 A6)|destruct E7; congruence|exact (surveyed_stable _ _ _ E7 S6)|exact (fits_stable _ _ _ _ E7 F6)]. }
  eapply (steps_bind _ _ _ (fun _ g' => g' = g7)).
  { split; [done|]. intros now _. cbn [prog_bind]. destruct (now <=? sn_deadline sn)%Z; [done|]. apply steps_error. by left. }
  intros ? timeout ->. eapply steps_bind; [by apply (run_command_steps rq sn active command timeout g7)|].
  intros g8 [] S8. by apply confirm_steps.
Qed.

Lemma perform_steps rq operation_id resumed g :
  sj_commands g = [] -> (resumed = false -> sj_new g = true) ->
  steps (perform key_material apps_directory rq app_id action operation_id resumed) g (fun _ _ => False).
Proof.
  intros Hg Hnew. unfold perform. eapply (steps_bind _ _ _ (fun _ g' => g' = g <| sj_app := true |>)).
  { apply guard_steps; [right; by eexists|by left|done]. }
  intros ? [] ->. eapply steps_bind; [by apply survey_steps|]. intros g1 [sn [command observed]] (E1 & Hsn & Hfits). cbn [fst snd] in *.
  assert (sj_app g1 = true /\ sj_new g1 = sj_new g /\ sj_commands g1 = []) as (A1 & N1 & C1) by (destruct E1; simpl in *; split_and!; congruence).
  apply steps_ask; [done|]. intros previous g2 E2. eapply (steps_bind _ _ _ (fun _ g' => g' = g2)).
  { destruct previous; [done|]. apply steps_error. left. destruct E2. congruence. }
  intros ? prev ->. eapply (steps_bind _ _ _ (fun marker g' => exists mk, g' = g2 <| sj_marker := mk |> /\
      (forall m, marker = Some m -> resumed = true /\ mk = Some (em_pre_container_id m)))).
  { split; [done|]. intros [[m|]|e] Hpromise; [| |apply steps_interrupted].
    - exists (Some (em_pre_container_id m)). split; [done|]. intros ? [= <-]. split; [|done]. destruct resumed; [done|].
      exfalso. apply (Hpromise ltac:(destruct E2; rewrite ex_new0, N1; auto) m). done.
    - exists (sj_marker g2). split; [by destruct g2|done]. }
  intros g3 marker (mk & -> & Hm). set (g3 := g2 <| sj_marker := mk |>).
  assert (surveyed sn g3) as S3 by exact (surveyed_stable _ _ _ E2 Hsn).
  assert (fits sn command g3) as F3 by exact (fits_stable _ _ _ _ E2 Hfits).
  assert (sj_commands g3 = [] /\ sj_app g3 = true) as [C3 A3] by (destruct E2; unfold g3; simpl; split; congruence).
  eapply steps_bind.
  { apply (resume_steps rq sn resumed marker command g3); try done. }
  intros g4 command' (E4 & F4 & M4). eapply steps_bind; [apply store_desired_steps; destruct E4; congruence|].
  intros ? metadata (g5 & E5 & ->). assert (E35 : extends g3 g5) by (by etrans).
  assert (surveying sn command' marker (g5 <| sj_desired := true |>)) as Hs.
  { split; simpl; try (by destruct E35; congruence); [exact (surveyed_stable _ _ _ E35 S3)|exact (fits_stable _ _ _ _ E5 F4)|].
    intros Hc Hmk. exact (announced_stable _ _ E5 (M4 Hc Hmk)). }
  eapply (steps_bind _ _ _ (fun _ g' => surveying sn command' marker g')).
  { apply steps_ask; [done|]. intros out g' He. exact (surveying_stable _ _ _ _ _ He Hs). }
  intros g6 _ H6. eapply (steps_bind _ _ _ (fun _ g' => reached g')).
  { destruct command' as [command'|]; [by eapply apply_command_steps|]. apply steps_ret. by destruct H6. }
  intros g7 [] H7. eapply (steps_bind _ _ _ (fun _ g' => reached g')).
  { apply steps_ask; [done|]. intros out g' He. exact (reached_stable _ _ He H7). }
  intros g8 warning H8. split; [by split|]. intros r _. cbn. case_match; [done|]. by split.
Qed.

Lemma lifecycle_safe request_id header :
  safe (lifecycle key_material apps_directory request_id app_id header action) nothing_seen (fun g _ => sj_pending g = false).
Proof.
  unfold lifecycle. apply safe_bind. apply (safe_mono _ _ _ _ _ _ (fun g _ => sj_pending g = false)); [|done].
  destruct (idempotency_key header) as [raw_key|e]; [|done]. split; [done|]. intros [[operation_id|operation_id|operation_id status body]|e] _.
  - eapply safe_mono; [by apply (perform_steps (MkRequest _ _ _) operation_id false)|by intros g' [|]].
  - eapply safe_mono; [by apply (perform_steps (MkRequest _ _ _) operation_id true)|by intros g' [|]].
  - by split.
  - done.
Qed.
End safety.
