(* ===== verification/ActionTheorems.v ===== *)
(** * ActionTheorems: guarantees of starting, stopping and restarting

    Over every trace of a request: every answer of Docker, Compose, the store
    and the other requests that interleave, and every point at which the
    process may stop. *)

From S2P Require Import Prelude Text Reference Models Ownership Effects Codec Names Drafts Database Ledger PollStates Idempotency Scheduler Auth Compose FileSystem StoreBase Recovery Requests Resources Actions ActionSafety.

(** ** Programs that need no fuel *)

Fixpoint total {A} (p : prog hev A) : Prop :=
  match p with Ret _ => True | Vis e k => forall x, total (k x) | OutOfFuel => False end.

Lemma total_run {A W} (serve : forall X, hev X -> W -> X * W) (p : prog hev A) w :
  total p -> exists a, (run serve p w).1 = Some a.
Proof.
  revert w. induction p as [a|X e k IH|]; intros w Hp; [by exists a| |done].
  cbn [run]. destruct (serve X e w) as [x w']. apply IH, Hp.
Qed.

Lemma total_bind {A B} (p : prog hev A) (f : A -> prog hev B) :
  total p -> (forall a, total (f a)) -> total (prog_bind p f).
Proof. induction p as [a|X e k IH|]; simpl; [auto| |done]. intros Hp Hf x. by apply IH. Qed.

Lemma total_ebind {R A B} (p : eprog hev R A) (f : A -> eprog hev R B) :
  total p -> (forall a, total (f a)) -> total (ebind p f).
Proof. intros Hp Hf. apply total_bind; [done|]. by intros [a|r]; [apply Hf|]. Qed.

Lemma total_timed {A} (p : prog hev A) : total p -> total (timed p).
Proof. induction p as [a|X e k IH|]; simpl; [done| |done]. intros Hp x []; [done|]. by apply IH. Qed.

Lemma total_each {R A} (f : A -> eprog hev R unit) l : (forall a, total (f a)) -> total (each f l).
Proof. intros Hf. induction l as [|a l IH]; [done|]. apply total_ebind; [apply Hf|]. done. Qed.

Create HintDb total.

(** Down the structure of a program; a hint for each definition on the way. *)
Ltac total_step :=
  match goal with
  | |- forall _, _ => intros ?
  | |- total (ebind _ _) => apply total_ebind
  | |- total (prog_bind _ _) => apply total_bind
  | |- total (timed _) => apply total_timed
  | |- total (each _ _) => apply total_each
  | |- total (if ?x then _ else _) => destruct x
  | |- total (let '(_, _) := ?x in _) => destruct x
  | |- total (match ?x with _ => _ end) => destruct x
  | |- total (Ret _) => exact I
  | |- total (Vis _ _) => cbn [total]
  | |- total _ => progress unfold lift, ask, try_call, fail, eret, result_of, leave
  | |- True => exact I
  end.
Ltac total_solve := repeat (solve [auto 1 with total nocore] || total_step).

Section total.
Context {UT : UuidText} {ST : StoreText} {CR : Crypto} {CT : ComposeText} {AJ : ActionJson}.
Context (key_material apps_directory key : string).

Lemma total_policy app allow : total (mutation_container_policy app allow).
Proof. unfold mutation_container_policy, mutation_container, list_candidates. total_solve. Qed.
#[local] Hint Resolve total_policy : total.

Lemma total_alias alias allowed missing : total (validate_alias alias allowed missing).
Proof. unfold validate_alias, inspect_platform. total_solve. Qed.
#[local] Hint Resolve total_alias : total.

Lemma total_ensure alias allowed : total (ensure_for_app alias allowed).
Proof. unfold ensure_for_app, ensure, inspect_platform. total_solve. Qed.
#[local] Hint Resolve total_ensure : total.

Lemma total_resources id metadata allowed check request_id :
  total (validate_resources_with_options id metadata allowed check request_id).
Proof.
  unfold validate_resources_with_options, validate_resources_inner, owned_identity, check_owned_network, check_platform,
    validate_for_app_if_present, validate_if_present, inspect_platform.
  total_solve; [unfold check_volume|unfold check_external]; total_solve.
Qed.
#[local] Hint Resolve total_resources : total.

Lemma total_binds guarded loaded : total (guarded_binds guarded loaded).
Proof. unfold guarded_binds. total_solve. Qed.
#[local] Hint Resolve total_binds : total.

Lemma total_load app_id guarded : total (load_verified_active_with_bind_guard apps_directory key app_id guarded).
Proof. unfold load_verified_active_with_bind_guard, configured_app, verify_active_compose. total_solve. Qed.
#[local] Hint Resolve total_load : total.

Lemma total_load_active app_id : total (load_verified_active apps_directory key app_id).
Proof. apply total_load. Qed.
Lemma total_load_stop app_id : total (load_verified_active_for_stop apps_directory key app_id).
Proof. apply total_load. Qed.
Lemma total_load_pending app_id : total (load_verified_pending_for_stop apps_directory key app_id).
Proof. unfold load_verified_pending_for_stop, load_verified_pending_with_bind_guard, configured_app. total_solve. Qed.

Lemma total_sources roots apps : total (all_live_sources roots apps).
Proof. induction apps as [|app apps IH]; [done|]. cbn [all_live_sources]. unfold live_sources, incomplete. total_solve. Qed.
#[local] Hint Resolve total_sources : total.

Lemma total_plan id metadata : total (validate_bind_plan_against_live_apps id metadata).
Proof. unfold validate_bind_plan_against_live_apps. total_solve. Qed.

Lemma total_revalidate identities : total (revalidate_all identities).
Proof. induction identities as [|i l IH]; [done|]. cbn [revalidate_all]. total_solve. Qed.

Lemma total_paths metadata : total (validate_runtime_paths metadata).
Proof. unfold validate_runtime_paths, validate_runtime_paths_for_docker_root. total_solve. Qed.

Lemma total_finish rq status body code : total (finish rq status body code).
Proof. unfold finish, interrupt_internal. total_solve. Qed.
#[local] Hint Resolve total_finish : total.

Lemma total_error {A} rq code status : total (return_error (A := A) rq code status).
Proof. unfold return_error, finish_error. total_solve. Qed.
Lemma total_interrupted {A} rq : total (return_interrupted (A := A) rq).
Proof. unfold return_interrupted, interrupt_internal. total_solve. Qed.
End total.

#[export] Hint Resolve total_policy total_alias total_ensure total_resources total_load_active total_load_stop total_load_pending
  total_plan total_revalidate total_paths total_finish total_error total_interrupted : total.

Section total_steps.
Context {UT : UuidText} {ST : StoreText} {CR : Crypto} {CT : ComposeText} {AJ : ActionJson}.
Context (key_material apps_directory : string).

Lemma total_or_code {A} rq (p : coded A) : total p -> total (or_code rq p).
Proof. intros Hp. unfold or_code. total_solve. Qed.
Lemma total_or_api {A} rq (p : eprog hev ApiError A) : total p -> total (or_api rq p).
Proof. intros Hp. unfold or_api. total_solve. Qed.
Lemma total_or_interrupt {R A} rq (p : eprog hev R A) : total p -> total (or_interrupt rq p).
Proof. intros Hp. unfold or_interrupt. total_solve. Qed.

Ltac total_steps :=
  repeat (solve [auto 1 with total nocore] || apply total_or_code || apply total_or_api || apply total_or_interrupt || total_step).

Lemma total_survey rq app_id action : total (survey key_material apps_directory rq app_id action).
Proof. unfold survey, verified_for, operation_deadline, validate_lifecycle_resources, choose. total_steps. Qed.

Lemma total_run_command rq sn active command context : total (run_command key_material apps_directory rq sn active command context).
Proof. unfold run_command, between, run_compose, note_created. total_steps. Qed.

Lemma total_apply rq sn marker command : total (apply_command key_material apps_directory rq sn marker command).
Proof.
  pose proof total_run_command. unfold apply_command, require_ready, guard, verify_again, validate_lifecycle_resources, time_left, confirm,
    note_created. total_steps.
Qed.

Lemma total_lifecycle request_id app_id header action : total (lifecycle key_material apps_directory request_id app_id header action).
Proof.
  pose proof total_survey. pose proof total_apply.
  unfold lifecycle, handle, perform, guard, resume, store_desired, refresh, finish_json. total_steps.
Qed.
End total_steps.

(** ** The journal of a request *)

Definition shown (tr : list (obs hev)) : Seen := foldl note nothing_seen tr.

(** The key is recorded as answered, or as interrupted. *)
Definition settles (o : obs hev) : bool :=
  match o with
  | Obs (FinishKey _ _ _ _ _ _) x => is_ok x
  | Obs (InterruptKey _ _ _) x => is_ok x
  | _ => false
  end.
(** The mark as interrupted could not be stored. *)
Definition gives_up (o : obs hev) : bool :=
  match o with Obs (InterruptKey _ _ _) x => negb (is_ok x) | _ => false end.
Definition claims (o : obs hev) : bool :=
  match o with
  | Obs (ClaimKey _ _ _ _) (Ok (New _ | Resume _)) => true
  | _ => false
  end.

Lemma note_pending g o : sj_pending (note g o) = claims o || (sj_pending g && negb (settles o || gives_up o)).
Proof. destruct o as [X e x]. destruct e; simpl; repeat case_match; simpl; by rewrite ?orb_negb_r, ?andb_true_r, ?andb_false_r. Qed.

Lemma existsb_or {A} (f f' : A -> bool) l :
  existsb (fun a => f a || f' a) l = true -> existsb f l = true \/ existsb f' l = true.
Proof. induction l as [|a l IH]; simpl; [by left|]. destruct (f a), (f' a); simpl; auto. Qed.

Lemma pending_settled tr1 c tr2 :
  claims c = true -> sj_pending (shown (tr1 ++ c :: tr2)) = false ->
  existsb (fun o => settles o || gives_up o) tr2 = true.
Proof.
  intros Hc. unfold shown. rewrite foldl_app. cbn [foldl].
  assert (sj_pending (note (foldl note nothing_seen tr1) c) = true) as Hp by (by rewrite note_pending, Hc).
  revert Hp. generalize (note (foldl note nothing_seen tr1) c) as g. induction tr2 as [|o tr2 IH]; intros g Hg Hn; simpl in *; [congruence|].
  destruct (settles o || gives_up o) eqn:Ho; [done|]. eapply IH; [|exact Hn]. rewrite note_pending, Hg, Ho. by destruct (claims o).
Qed.

Section theorems.
Context {UT : UuidText} {ST : StoreText} {CR : Crypto} {CT : ComposeText} {AJ : ActionJson}.
Context (key_material apps_directory : string).

Abbreviation handler_of := (lifecycle key_material apps_directory).

(** A record claimed as new has no marker and the application keeps its project. *)
Definition fair (project : string) (app_id : Uuid) (tr : list (obs hev)) : Prop := relied note (promised project app_id) nothing_seen tr.

Lemma lifecycle_call project request_id app_id header action tr1 X (e : hev X) x tr2 o :
  trace (handler_of request_id app_id header action) (tr1 ++ Obs e x :: tr2) o ->
  fair project app_id (tr1 ++ Obs e x :: tr2) ->
  acceptable apps_directory project app_id action X (shown tr1) e.
Proof.
  intros Ht Hr. destruct (safe_sound _ _ _ _ _ _ _ _ _ (lifecycle_safe key_material apps_directory project app_id action request_id header) Ht Hr)
    as [Hc _]. by apply (Hc tr1 (Obs e x) tr2).
Qed.


(** C9: an action is recorded as successful only if a listing since the last
    command shows its goal: the one container of the application running after
    a start or restart, exited or absent after a stop; and it is recorded as
    failed, which no retry will repair, only if no command was run, or only the
    stop of a restart, which succeeded. *)
Theorem lifecycle_answers_observed project request_id app_id header action tr1 route key status body code id x tr2 o :
  trace (handler_of request_id app_id header action) (tr1 ++ Obs (FinishKey route key status body code id) x :: tr2) o ->
  fair project app_id (tr1 ++ Obs (FinishKey route key status body code id) x :: tr2) ->
  match code with
  | None => status = 200%Z /\ exists r l o, r ∈ sj_apps (shown tr1) /\ ra_app_id r = app_id /\ (project, l) ∈ sj_listings (shown tr1)
      /\ classified (catalog_entry r) (is_stop action) l = Ok o
      /\ match action, o with
         | ActStop, None => True
         | ActStop, Some c => cr_status c = CsExited
         | _, Some c => cr_status c = CsRunning
         | _, None => False
         end
  | Some _ => sj_commands (shown tr1) = [] \/ (action = ActRestart /\ sj_commands (shown tr1) = [(CaStop, true)])
  end.
Proof.
  intros Ht Hr. pose proof (lifecycle_call _ _ _ _ _ _ _ _ _ _ _ Ht Hr) as Hf. cbn in Hf. unfold finish_acceptable in Hf.
  destruct code; [done|]. destruct Hf as (-> & r & l & c & Hr' & Happ & Hl & Hc & Ha). split; [done|]. exists r, l, c.
  split_and!; [done..|]. destruct action; simpl in Ha; [by destruct Ha as (? & -> & ?)| |by destruct Ha as (? & -> & ?)].
  destruct c; [by apply Ha|done].
Qed.

(** C10: the handler of an action always answers, whatever the calls it makes
    find, and after it has claimed or resumed an operation the outcome is
    recorded, or the operation is marked as interrupted, or storing that mark was
    attempted and refused by the database, which alone leaves the operation in
    progress. *)
Theorem lifecycle_settles project request_id app_id header action {W} (serve : forall X, hev X -> W -> X * W) w :
  let log := run_log serve (handler_of request_id app_id header action) w in
  fair project app_id log ->
  (exists reply, (run serve (handler_of request_id app_id header action) w).1 = Some reply)
  /\ forall tr1 c tr2, log = tr1 ++ c :: tr2 -> claims c = true ->
       existsb settles tr2 = true \/ existsb gives_up tr2 = true.
Proof.
  intros log Hr. destruct (total_run serve _ w (total_lifecycle key_material apps_directory request_id app_id header action)) as [reply Hrun].
  split; [by exists reply|]. intros tr1 c tr2 Hlog Hc. apply existsb_or, (pending_settled tr1 c); [done|]. rewrite <- Hlog.
  pose proof (run_trace serve (handler_of request_id app_id header action) w) as Ht. rewrite Hrun in Ht.
  exact (proj2 (safe_sound _ _ _ _ _ _ _ _ _ (lifecycle_safe key_material apps_directory project app_id action request_id header) Ht Hr) _ eq_refl).
Qed.
End theorems.
