(* ===== verification/ActionDemo.v ===== *)
(** * ActionDemo: an application restarted and stopped on a concrete host

    One application with a bind source, a volume and two external networks.
    Docker carries out the commands. *)

From S2P Require Import Prelude Text Reference Models Ownership Effects Codec Names Drafts DraftCanonical DraftTheorems DraftStored Compose Database Ledger PollStates Idempotency Scheduler Auth FileSystem StoreBase StoreTheorems Recovery Verifier Requests Resources Actions ActionSafety ActionTheorems.

#[local] Existing Instance binary_uuid_text.
#[local] Existing Instance demo_crypto.
#[local] Existing Instance store_text.
#[local] Existing Instance store_compose_text.

#[local] Instance plain_action_json : ActionJson := {|
  lifecycle_json r := lr_action r +:+ ":" +:+ lr_observed_state r;
  failure_json code _ := code;
  mark_replayed body := "replayed:" +:+ body;
|}.

(** ** The host *)

Definition host_draft : NormalizedDraft := normalized sample_json sample_input sample_existing (integrity_key "secret").
Definition host_image : string := "ghcr.io/acme/blog@" +:+ demo_digest.

Definition host_app : RecoveredApp :=
  MkRecoveredApp 7%N "blog" "Blog" 2 "solodock-blog" (Some 10%N) (Some host_image) (Some 2%N)
    (Some (cm_config_sha256 (nd_metadata host_draft))) None None None None None (Some "ghcr.io/acme/blog:stable") (Some 2%N)
    (Some (cm_config_sha256 (nd_metadata host_draft))) DesiredRunning true 300 (Some 5%N) None 0.

Definition host_release : ReleaseV2 :=
  MkReleaseV2 5 CURRENT_COMPOSE_SCHEMA_VERSION 10%N 7%N 2%N (cm_config_sha256 (nd_metadata host_draft)) 30 false "ghcr.io/acme/blog:stable" "ghcr.io"
    "acme/blog" "stable" demo_digest None demo_digest host_image "linux" "amd64" None demo_digest (hex (sha256 store_compose))
    None RtManual None 0 "hmac".

Definition host_metadata : AppMetadata :=
  MkAppMetadata 3 7%N "blog" "Blog" 2 (Some "ghcr.io/acme/blog:stable") None (Some 2%N)
    (Some (cm_config_sha256 (nd_metadata host_draft))) DesiredRunning true 300 5%N 0 0.

Definition host_container_id : string := str_drop 7 demo_digest.

(** The state of the container and how often it was started. *)
Definition Host : Type := ContainerStatus * nat.

Definition host_container (w : Host) : ContainerRecord :=
  let labels : gmap string string :=
    {[ MANAGED_LABEL := "true"; SCHEMA_LABEL := "1"; APP_ID_LABEL := uuid_to_string 7%N;
       RELEASE_ID_LABEL := uuid_to_string 10%N; PROJECT_LABEL := "solodock-blog";
       SERVICE_LABEL := "app"; ONEOFF_LABEL := "False" ]} in
  MkContainerRecord host_container_id "app" labels w.1 HsHealthy None (Some 0%Z) (Some (if Nat.eqb w.2 1 then "t1" else "t2")) None (Some host_image)
    (Some demo_digest) None [] [] [].

Definition host_serve (X : Type) (e : hev X) (w : Host) : X * Host :=
  match e in hev X return X * Host with
  | ScanReadOnly => (Ok (MkRecoveryReport [host_app] []), w)
  | LoadConfig _ _ => (Ok (stored host_draft), w)
  | LoadRelease _ _ => (Ok host_release, w)
  | ReadCompose _ _ => (Some store_compose, w)
  | ReadApp _ | SetDesired _ _ _ _ => (Ok host_metadata, w)
  | RepairDurability _ => (Ok tt, w)
  | AppDirectoryExists _ => (true, w)
  | Tombstone _ _ => (Ok tt, w)
  | ReadTombstone _ _ => (Ok host_metadata, w)
  | BindHosts => ((sample_host, ["/srv/solodock"]), w)
  | WebhookNoted _ => (Ok false, w)
  | FinalizeUnregistration _ _ => (Ok tt, w)
  | SucceededTombstones => (Ok [], w)
  | ListContainers _ => (Ok [host_container w], w)
  | InspectVolume _ => (Ok None, w)
  | InspectNetwork name => (Ok (if bool_decide (name ∈ ["metrics"; "shared"]) then Some (MkDockerNetworkResource name ∅ (Some "bridge") false ∅) else None), w)
  | InspectSnapshot name => (Ok (Some (MkNetworkSnapshot name ∅ [])), w)
  | CreatePlatformNetwork => (Ok tt, w)
  | DockerRoot => (Some "/var/lib/docker", w)
  | CatalogEntry _ => (Some (catalog_entry host_app), w)
  | ComposeReady => (CoReady, w)
  | RunCompose CaStop _ => (Ok tt, (CsExited, w.2))
  | RunCompose _ _ => (Ok tt, (CsRunning, S w.2))
  | ClaimKey _ _ _ _ => (Ok (New 40%N), w)
  | FinishKey _ _ _ _ _ _ | InterruptKey _ _ _ => (Ok tt, w)
  | ReadMarker _ _ => (Ok None, w)
  | MarkStarted _ _ _ _ | MarkObserved _ _ _ | MarkCompleted _ _ => (Ok tt, w)
  | CleanupsInProgress _ => (Ok 0%nat, w)
  | ReadPreview _ _ => (Ok None, w)
  | WritePreview _ _ _ _ | RemoveOperational _ => (Ok tt, w)
  | ConsumePreview _ _ => (Ok 1%nat, w)
  | TryApp _ | TryCompose | JoinStreams _ => (true, w)
  | CatalogLock | CommitBarrier _ | DegradeProjection => (tt, w)
  | PublishCatalog => ((None, true), w)
  | RandomToken => (Some "token", w)
  | UtcNow | MonotonicNow => (0%Z, w)
  | TimerElapsed => (false, w)
  | CreateApp _ _ _ _ | UpdateDraft _ _ _ _ _ _ => (Ok host_metadata, w)
  | ReadLink _ _ => (Ok None, w)
  | LoadCredential _ => (Ok ("ghcr.io"), w)
  end.

Lemma host_fair {A} (p : prog hev A) w g : relied note (promised "solodock-blog" 7%N) g (run_log host_serve p w).
Proof.
  revert w g. induction p as [a|X e k IH|]; intros w g; [done| |done]. cbn [run_log].
  destruct (host_serve X e w) as [x w'] eqn:He. split; [|apply IH]. destruct e; simpl in *; simplify_eq; try done.
  intros report [= <-]. by repeat constructor.
Qed.

Definition host_action (action : LifecycleAction) : prog hev reply :=
  lifecycle "secret" "/apps" 99%N 7%N (Some (Some "key")) action.
Definition host_log (action : LifecycleAction) : list (obs hev) := run_log host_serve (host_action action) (CsRunning, 1%nat).

Definition commands_of (log : list (obs hev)) : list ComposeAction :=
  omap (fun o => match o with Obs (RunCompose command _) _ => Some command | _ => None end) log.

Example restarted :
  run host_serve (host_action ActRestart) (CsRunning, 1) = (Some (Ok (MkResponse 200 None "restart:running")), (CsRunning, 2))
  /\ commands_of (host_log ActRestart) = [CaStop; CaStart].
Proof. split; by vm_compute. Qed.

Example stopped :
  run host_serve (host_action ActStop) (CsRunning, 1) = (Some (Ok (MkResponse 200 None "stop:stopped")), (CsExited, 1))
  /\ commands_of (host_log ActStop) = [CaStop].
Proof. split; by vm_compute. Qed.

(** ** Witnesses *)

(** The first call of the log that [P] finds, with what comes before it. *)
Fixpoint first_at (P : obs hev -> bool) (log : list (obs hev)) : option (list (obs hev) * obs hev * list (obs hev)) :=
  match log with
  | [] => None
  | o :: log => if P o then Some ([], o, log) else (fun '(l, c, r) => (o :: l, c, r)) <$> first_at P log
  end.

Lemma first_call P log : is_some (first_at P log) = true -> exists l c r, log = l ++ c :: r /\ P c = true.
Proof.
  induction log as [|o log IH]; simpl; [done|]. destruct (P o) eqn:Ho; [by exists [], o, log|].
  destruct (first_at P log) as [[[l' c'] r']|]; [|done]. intros _. destruct IH as (l & c & r & -> & Hc); [done|]. by exists (o :: l), c, r.
Qed.

Definition is_finish (o : obs hev) : bool :=
  match o with Obs (FinishKey _ _ status _ code _) _ => (status =? 200%Z) && is_none code | _ => false end.


Lemma restart_finishes : exists l route key body id x r, host_log ActRestart = l ++ Obs (FinishKey route key 200 body None id) x :: r.
Proof.
  destruct (first_call is_finish (host_log ActRestart)) as (l & [X e x] & r & -> & Hc); [by vm_compute|].
  destruct e; try done. simpl in Hc. apply andb_prop in Hc as [->%bool_decide_eq_true Hc]. destruct code; [done|]. by do 7 eexists.
Qed.


Lemma lifecycle_answers_observed_witness :
  exists l, exists r listing o, r ∈ sj_apps (shown l) /\ ra_app_id r = 7%N /\ ("solodock-blog", listing) ∈ sj_listings (shown l)
    /\ classified (catalog_entry r) false listing = Ok o /\ match o with Some c => cr_status c = CsRunning | None => False end.
Proof.
  destruct restart_finishes as (l & route & key & body & id & x & r & Hlog). exists l.
  pose proof (run_trace host_serve (host_action ActRestart) (CsRunning, 1)) as Ht.
  pose proof (host_fair (host_action ActRestart) (CsRunning, 1) nothing_seen) as Hf.
  change (run_log host_serve (host_action ActRestart) (CsRunning, 1)) with (host_log ActRestart) in Ht, Hf. rewrite Hlog in Ht, Hf.
  exact (proj2 (lifecycle_answers_observed "secret" "/apps" _ _ _ _ _ _ _ _ _ _ _ _ _ _ _ Ht Hf)).
Defined.

Lemma lifecycle_settles_witness :
  (exists reply, (run host_serve (host_action ActStop) (CsRunning, 1)).1 = Some reply)
  /\ forall tr1 c tr2, host_log ActStop = tr1 ++ c :: tr2 -> claims c = true ->
       existsb settles tr2 = true \/ existsb gives_up tr2 = true.
Proof.
  exact (lifecycle_settles "secret" "/apps" "solodock-blog" 99%N 7%N (Some (Some "key")) ActStop host_serve (CsRunning, 1) (host_fair _ _ _)).
Defined.
