(* ===== verification/Deletion.v ===== *)
(** * Deletion: previewing and deleting an application

    [deletion_preview] and [delete_app] of [src/api/mutations.rs]. The preview
    records what a deletion keeps and removes under the hash of a token; the
    deletion compares the facts with it, removes the container if asked to,
    moves the directory into the trash and publishes the catalog. *)

From S2P Require Import Prelude Text Reference Models Ownership Effects Codec Names Drafts Database Ledger PollStates Idempotency Scheduler Auth Compose FileSystem StoreBase Recovery Requests Resources Actions.

(** ** Data *)

Record DeletionPreviewRequest := MkDeletionPreviewRequest { dpr_remove_container : bool }.

Inductive RetainedNetworkKind := RnOwnedDefault | RnPlatform | RnExternal.

#[export] Instance RetainedNetworkKind_eq_dec : EqDecision RetainedNetworkKind.
Proof. solve_decision. Defined.

Record RetainedNamedResource := MkRetainedNamedResource { rd_name : string; rd_configured_in : string; rd_exists : bool }.

Record RetainedNetwork := MkRetainedNetwork {
  rw_name : string;
  rw_bridge_name : option string;
  rw_kind : RetainedNetworkKind;
  rw_aliases : list string;
  rw_configured_in : string;
  rw_exists : bool;
}.

Record RetainedBind := MkRetainedBind { rb_source : string; rb_readonly : bool; rb_configured_in : string; rb_exists : bool }.

Record RetainedManagedFile := MkRetainedManagedFile { rf_logical_name : string; rf_configured_in : string }.

Record RetainedResources := MkRetainedResources {
  rr_containers : list string;
  rr_owned_volumes : list RetainedNamedResource;
  rr_external_volumes : list RetainedNamedResource;
  rr_binds : list RetainedBind;
  rr_networks : list RetainedNetwork;
}.

Record DeletionFacts := MkDeletionFacts {
  df_app_id : Uuid;
  df_slug : string;
  df_expected_revision : option Uuid;
  df_project_name : string;
  df_active_release_id : option Uuid;
  df_active_config_revision : option Uuid;
  df_pending_release_id : option Uuid;
  df_pending_config_revision : option Uuid;
  df_remove_container : bool;
  df_container_ids : list string;
  df_managed_files : list RetainedManagedFile;
  df_retained : RetainedResources;
  df_orphan_warning : bool;
  df_webhook_configured : bool;
}.

#[export] Instance eta_DeletionFacts : Eta DeletionFacts := fun f =>
  MkDeletionFacts (df_app_id f) (df_slug f) (df_expected_revision f) (df_project_name f) (df_active_release_id f)
    (df_active_config_revision f) (df_pending_release_id f) (df_pending_config_revision f) (df_remove_container f)
    (df_container_ids f) (df_managed_files f) (df_retained f) (df_orphan_warning f) (df_webhook_configured f).

Record DeletionSnapshot := MkDeletionSnapshot {
  ds_app : AppCatalogEntry; ds_facts : DeletionFacts; ds_container : option ContainerRecord }.

Record DeleteRequest := MkDeleteRequest {
  dq_confirmation_token : string;
  dq_slug : string;
  dq_expected_revision : option Uuid;
  dq_remove_container : bool;
}.

Record DeleteResponse := MkDeleteResponse {
  dl_app_id : Uuid;
  dl_unregistered : bool;
  dl_container_removed : bool;
  dl_retained : RetainedResources;
  dl_orphan_warning : bool;
  dl_projection_warning : option string;
  dl_idempotency_replayed : bool;
}.

Record DeletionPublication := MkDeletionPublication { du_warning : option string; du_can_finalize : bool }.

(** The JSON of facts, lists of identifiers, answers and the canonical request. *)
Class DeletionJson := {
  facts_json : DeletionFacts -> string;
  facts_of_json : string -> option DeletionFacts;
  ids_json : list string -> string;
  ids_of_json : string -> option (list string);
  delete_json : DeleteResponse -> string;
  preview_response_json : DeletionFacts -> string -> Time -> string;
  delete_canonical : string -> string -> option Uuid -> bool -> string -> string;
}.

(** ** Inventories *)

(** A [BTreeMap] as its entries in order: [entry(k).or_insert(default)], changed. *)
Fixpoint entry {K V} `{!EqDecision K} (leb : K -> K -> bool) (k : K) (default : V) (f : V -> V) (m : list (K * V)) : list (K * V) :=
  match m with
  | [] => [(k, f default)]
  | (k', v) :: rest =>
      if k =? k' then (k', f v) :: rest
      else if leb k k' then (k, f default) :: m
      else (k', v) :: entry leb k default f rest
  end.

(** Which of the three configurations an entry comes from. *)
Inductive Scope := InActive | InPending | InDraft.
Definition Presence : Type := bool * bool * bool.
Definition absent : Presence := (false, false, false).

Definition present (scope : Scope) (p : Presence) : Presence :=
  let '(active, pending, draft) := p in
  match scope with
  | InActive => (true, pending, draft)
  | InPending => (active, true, draft)
  | InDraft => (active, pending, true)
  end.

(** The last case is never reached: every entry has a source. *)
Definition configured_scope (p : Presence) : string :=
  match p with
  | (true, true, true) => "active_pending_and_draft"
  | (true, true, false) => "active_and_pending"
  | (true, false, true) => "active_and_draft"
  | (false, true, true) => "pending_and_draft"
  | (true, false, false) => "active"
  | (false, true, false) => "pending"
  | (false, false, true) => "draft"
  | (false, false, false) => ""
  end.

(** The configurations there are, with their scope. *)
Definition scoped (active pending draft : option ConfigMetadata) : list (Scope * ConfigMetadata) :=
  option_list ((fun m => (InActive, m)) <$> active) ++ option_list ((fun m => (InPending, m)) <$> pending)
  ++ option_list ((fun m => (InDraft, m)) <$> draft).

Definition add_file (scope : Scope) (files : list (string * Presence)) (file : ManagedFileMetadata) : list (string * Presence) :=
  entry text_leb (mf_logical_name file) absent (present scope) files.

Definition managed_file_inventory (active pending draft : option ConfigMetadata) : list RetainedManagedFile :=
  let files := fold_left (fun files '(scope, metadata) => fold_left (add_file scope) (cm_files metadata) files)
                 (scoped active pending draft) [] in
  map (fun '(logical_name, presence) => MkRetainedManagedFile logical_name (configured_scope presence)) files.

Definition kind_rank (kind : RetainedNetworkKind) : nat :=
  match kind with RnOwnedDefault => 0 | RnPlatform => 1 | RnExternal => 2 end.

Fixpoint texts_leb (a b : list string) : bool :=
  match a, b with
  | [], _ => true
  | _, [] => false
  | x :: a, y :: b => if x =? y then texts_leb a b else text_leb x y
  end.

Definition NetworkKey : Type := string * RetainedNetworkKind * list string.

Definition network_key_leb (a b : NetworkKey) : bool :=
  let '(na, ka, la) := a in
  let '(nb, kb, lb) := b in
  if na ≠? nb then text_leb na nb
  else if ka ≠? kb then (kind_rank ka <=? kind_rank kb)%nat
  else texts_leb la lb.

Record Inventory := MkInventory {
  iv_owned : list (string * Presence);
  iv_external : list (string * Presence);
  iv_networks : list (NetworkKey * Presence);
  iv_binds : list (string * (Presence * bool));
}.

#[export] Instance eta_Inventory : Eta Inventory := fun i => MkInventory (iv_owned i) (iv_external i) (iv_networks i) (iv_binds i).

Definition add_volume (slug : string) (scope : Scope) (i : Inventory) (volume : VolumeInput) : Inventory :=
  match volume with
  | OwnedVolume logical_name _ =>
      i <| iv_owned := entry text_leb (owned_volume_name slug logical_name) absent (present scope) (iv_owned i) |>
  | ExternalVolume name _ => i <| iv_external := entry text_leb name absent (present scope) (iv_external i) |>
  end.

Definition add_network_key (scope : Scope) (key : NetworkKey) (i : Inventory) : Inventory :=
  i <| iv_networks := entry network_key_leb key absent (present scope) (iv_networks i) |>.

Definition add_network (scope : Scope) (i : Inventory) (network : NetworkInput) : Inventory :=
  match network with
  | External name aliases => add_network_key scope (name, RnExternal, aliases) i
  | _ => i
  end.

Definition add_bind (scope : Scope) (i : Inventory) (bind : BindMountInput) : Inventory :=
  i <| iv_binds := entry text_leb (bm_source bind) (absent, true)
                     (fun '(presence, readonly) => (present scope presence, readonly && bm_readonly bind)) (iv_binds i) |>.

Definition add_configuration (slug : string) (names : AppResourceNames) (i : Inventory) (c : Scope * ConfigMetadata) : Inventory :=
  let '(scope, metadata) := c in
  let i := fold_left (add_volume slug scope) (cm_volumes metadata) i in
  let i := if cm_owned_default_network metadata
           then add_network_key scope (rn_owned_default_network_name names, RnOwnedDefault, []) i else i in
  let i := if cm_service_discovery_enabled metadata
           then add_network_key scope (PLATFORM_NETWORK_NAME, RnPlatform, [slug]) i else i in
  let i := fold_left (add_network scope) (cm_networks metadata) i in
  fold_left (add_bind scope) (cm_binds metadata) i.

(** ** What Docker and the host have of it *)

Fixpoint retained_volumes (volumes : list (string * Presence)) : coded (list RetainedNamedResource) :=
  match volumes with
  | [] => eret []
  | (name, presence) :: rest =>
      resource <- try_call (InspectVolume name) docker_public_code ;;
      others <- retained_volumes rest ;;
      eret (MkRetainedNamedResource name (configured_scope presence) (is_some resource) :: others)
  end.

Fixpoint retained_networks (bridge_name : string) (networks : list (NetworkKey * Presence)) : coded (list RetainedNetwork) :=
  match networks with
  | [] => eret []
  | (name, kind, aliases, presence) :: rest =>
      resource <- try_call (InspectNetwork name) docker_public_code ;;
      others <- retained_networks bridge_name rest ;;
      eret (MkRetainedNetwork name (if kind =? RnOwnedDefault then Some bridge_name else None) kind aliases
              (configured_scope presence) (is_some resource) :: others)
  end.

(** A directory that is not a symbolic link. *)
Definition bind_exists (host : BindHost) (source : string) : bool :=
  (bh_is_symlink host source =? Some false) && is_some_and (bh_metadata host source) (fun '(is_dir, _, _) => is_dir).

Fixpoint retained_binds (binds : list (string * (Presence * bool))) : coded (list RetainedBind) :=
  match binds with
  | [] => eret []
  | (source, (presence, readonly)) :: rest =>
      host <- ask BindHosts ;;
      others <- retained_binds rest ;;
      eret (MkRetainedBind source readonly (configured_scope presence) (bind_exists host.1 source) :: others)
  end.

Section deletion.
Context {UT : UuidText} {ST : StoreText} {CR : Crypto} {CT : ComposeText} {AJ : ActionJson} {DJ : DeletionJson}.
Context (key_material apps_directory : string).

Abbreviation load_active := (load_verified_active apps_directory (integrity_key key_material)).

(** The scan admits only the two naming schemas; any other would panic. *)
Definition identity_names (app : AppCatalogEntry) : result string AppResourceNames :=
  ok_or (resource_names stable_resource_token (ce_id app) (ce_slug app) (ce_resource_name_schema_version app)) "INTERNAL_ERROR".

Definition retained_resources_inner (app : AppCatalogEntry) (active pending draft : option ConfigMetadata)
    (containers : list string) : coded RetainedResources :=
  names <- lift (identity_names app) ;;
  let inventory := fold_left (add_configuration (ce_slug app) names) (scoped active pending draft) (MkInventory [] [] [] []) in
  owned_volumes <- retained_volumes (iv_owned inventory) ;;
  external_volumes <- retained_volumes (iv_external inventory) ;;
  networks <- retained_networks (rn_bridge_name names) (iv_networks inventory) ;;
  binds <- retained_binds (iv_binds inventory) ;;
  eret (MkRetainedResources containers owned_volumes external_volumes binds networks).

Definition retained_resources (app : AppCatalogEntry) (active pending draft : option ConfigMetadata)
    (containers : list string) : coded RetainedResources :=
  prog_bind (timed (retained_resources_inner app active pending draft containers))
    (fun r => match r with Some r => lift r | None => fail "DOCKER_TIMEOUT" end).

(** ** The facts of a deletion *)

Definition draft_configuration (app : AppCatalogEntry) : coded (option ConfigMetadata) :=
  match ce_draft_revision app with
  | Some revision =>
      loaded <- try_call (LoadConfig (ce_id app) revision) (fun _ => "CONFIG_REVISION_INVALID") ;;
      _ <- validate_runtime_paths (lv_metadata loaded) ;;
      eret (Some (lv_metadata loaded))
  | None => eret None
  end.

Definition active_configuration (app : AppCatalogEntry) : coded (option ConfigMetadata) :=
  match ce_active_release_id app, ce_active_config_revision app with
  | Some release_id, Some revision =>
      loaded <- try_call (LoadConfig (ce_id app) revision) (fun _ => "ACTIVE_RELEASE_CONFIG_UNKNOWN") ;;
      prog_bind (verify_active_compose apps_directory (integrity_key key_material) app release_id loaded)
        (fun r => lift (map_err (fun _ => "ACTIVE_COMPOSE_INVALID") r)) ;;;
      _ <- validate_runtime_paths (lv_metadata loaded) ;;
      eret (Some (lv_metadata loaded))
  | None, None => eret None
  | _, _ => fail "ACTIVE_RELEASE_CONFIG_UNKNOWN"
  end.

Definition pending_configuration (app : AppCatalogEntry) : coded (option ConfigMetadata) :=
  match ce_pending_release_id app, ce_pending_config_revision app with
  | Some release_id, Some revision =>
      release <- try_call (LoadRelease (ce_id app) release_id) (fun _ => "PENDING_RELEASE_INVALID") ;;
      lift (refuse_if (rl_config_revision release ≠? revision) "PENDING_RELEASE_INVALID") ;;;
      loaded <- try_call (LoadConfig (ce_id app) revision) (fun _ => "PENDING_RELEASE_CONFIG_UNKNOWN") ;;
      _ <- validate_runtime_paths (lv_metadata loaded) ;;
      eret (Some (lv_metadata loaded))
  | None, None => eret None
  | _, _ => fail "PENDING_RELEASE_INVALID"
  end.

Definition deletion_facts (app : AppCatalogEntry) (remove_container : bool) (container_ids : list string)
    (managed_files : list RetainedManagedFile) (retained : RetainedResources) (webhook_configured : bool) : DeletionFacts :=
  MkDeletionFacts (ce_id app) (ce_slug app) (ce_draft_revision app) (ce_project_name app) (ce_active_release_id app)
    (ce_active_config_revision app) (ce_pending_release_id app) (ce_pending_config_revision app) remove_container container_ids
    managed_files retained (negb remove_container) webhook_configured.

Definition canonical_deletion_snapshot (app_id : Uuid) (remove_container : bool) : coded DeletionSnapshot :=
  report <- try_call ScanReadOnly (fun _ => "FILESYSTEM_RESCAN_FAILED") ;;
  recovered <- lift (ok_or (List.find (fun r => ra_app_id r =? app_id) (rr_valid_apps report)) "APP_NOT_FOUND") ;;
  let app := catalog_entry recovered in
  draft <- draft_configuration app ;;
  active <- active_configuration app ;;
  pending <- pending_configuration app ;;
  container <- mutation_container_policy app true ;;
  let container_ids := option_list (cr_id <$> container) in
  retained <- retained_resources app active pending draft (if remove_container then [] else container_ids) ;;
  webhook_configured <- try_call (WebhookNoted app_id) (fun _ => "WEBHOOK_STORE_DEGRADED") ;;
  eret (MkDeletionSnapshot app
          (deletion_facts app remove_container container_ids (managed_file_inventory active pending draft) retained webhook_configured)
          container).

Definition deletion_error (code : string) (request_id : Uuid) : ApiError :=
  if code =? "APP_NOT_FOUND" then app_not_found request_id
  else if bool_decide (code ∈ ["DOCKER_UNAVAILABLE"; "DOCKER_PERMISSION_DENIED"; "DOCKER_API_INCOMPATIBLE";
                               "DOCKER_OBSERVATION_FAILED"; "DOCKER_TIMEOUT"]) then docker_error request_id code
  else conflict code request_id.

(** The facts hash to [expected_hash], with the containers the deletion itself
    removed counted as there. *)
Definition deletion_facts_match (current : DeletionFacts) (expected_hash : string) (own_removed_container_ids : option (list string)) : bool :=
  let comparable := match own_removed_container_ids with
                    | Some expected => current <| df_container_ids := expected |>
                    | None => current
                    end in
  sha256 (facts_json comparable) =? expected_hash.

(** ** The preview *)

(** [json_error]: the body was too large, or not the request. *)
Definition json_error (too_large : bool) (request_id : Uuid) : ApiError :=
  if too_large then new_error 413 "REQUEST_BODY_TOO_LARGE" "The request body is too large" request_id else validation request_id.

Definition revision_text (revision : option Uuid) : string :=
  match revision with Some revision => uuid_to_string revision | None => "unconfigured" end.

Definition PREVIEW_LIFETIME : Z := seconds (5 * 60).

Definition deletion_preview (request_id app_id session_id : Uuid) (payload : result bool DeletionPreviewRequest) : prog hev reply :=
  payload <- lift (map_err (fun too_large => json_error too_large request_id) payload) ;;
  _ <- ask CatalogLock ;;
  free <- ask (TryApp app_id) ;;
  lift (refuse_if (negb free) (conflict "APP_BUSY" request_id)) ;;;
  snapshot <- prog_bind (canonical_deletion_snapshot app_id (dpr_remove_container payload))
                (fun r => lift (map_err (fun code => deletion_error code request_id) r)) ;;
  let facts := ds_facts snapshot in
  token <- ask RandomToken ;;
  token <- lift (ok_or token (internal_error request_id)) ;;
  now <- ask UtcNow ;;
  let expires := (now + PREVIEW_LIFETIME)%Z in
  try_call (WritePreview (sha256 token) app_id
    (MkPreviewRow session_id (df_slug facts) (revision_text (df_expected_revision facts)) (sha256 (facts_json facts)) (facts_json facts)
       (dpr_remove_container payload) (ids_json (df_container_ids facts)) expires None) now) (fun _ => internal_error request_id) ;;;
  eret (MkResponse 200 None (preview_response_json facts token expires)).

(** ** Publication *)

(** Without webhooks there is nothing to remove, and the call succeeds. *)
Definition publish_deletion (app_id : Uuid) : handler DeletionPublication :=
  outcome <- ask PublishCatalog ;;
  if outcome.2 : bool
  then
    app <- ask (CatalogEntry app_id) ;;
    match app with
    | Some _ => eret (MkDeletionPublication outcome.1 false)
    | None =>
        removed <- ask (RemoveOperational app_id) ;;
        if is_ok removed then eret (MkDeletionPublication outcome.1 true)
        else ask DegradeProjection ;;; eret (MkDeletionPublication (Some "WEBHOOK_OPERATIONAL_CLEANUP_FAILED") false)
    end
  else eret (MkDeletionPublication outcome.1 false).

Definition finalize_deletion_or_reconcile (app_id operation_id : Uuid) (publication : DeletionPublication) : handler unit :=
  finalized <- (if du_can_finalize publication
                then r <- ask (FinalizeUnregistration app_id operation_id) ;; eret (is_ok r) else eret false) ;;
  if finalized : bool then eret tt else ask DegradeProjection.

(** ** The deletion *)

Record Preview := MkPreview { pw_row : PreviewRow; pw_facts : DeletionFacts; pw_ids : list string }.

Definition preview_valid (session_id app_id : Uuid) (payload : DeleteRequest) (p : Preview) : bool :=
  let row := pw_row p in
  let facts := pw_facts p in
  (pv_session_id row =? session_id) && (pv_slug row =? dq_slug payload)
  && (pv_revision_id row =? revision_text (dq_expected_revision payload))
  && Bool.eqb (pv_remove_container row) (dq_remove_container payload)
  && (df_app_id facts =? app_id) && (df_slug facts =? pv_slug row)
  && (df_expected_revision facts =? dq_expected_revision payload)
  && Bool.eqb (df_remove_container facts) (pv_remove_container row)
  && (df_container_ids facts =? pw_ids p).

Definition read_preview (rq : Request) (app_id session_id : Uuid) (payload : DeleteRequest) : handler Preview :=
  row <- or_interrupt rq (try_call (ReadPreview (sha256 (dq_confirmation_token payload)) app_id) id) ;;
  row <- (match row with Some row => eret row | None => return_error rq "DELETION_PREVIEW_INVALID" 409 end) ;;
  facts <- or_interrupt rq (lift (ok_or (facts_of_json (pv_preview_json row)) tt)) ;;
  (if sha256 (pv_preview_json row) =? pv_preview_hash row then eret tt else return_interrupted rq) ;;;
  ids <- or_interrupt rq (lift (ok_or (ids_of_json (pv_container_ids_json row)) tt)) ;;
  let preview := MkPreview row facts ids in
  (if preview_valid session_id app_id payload preview then eret tt else return_error rq "DELETION_PREVIEW_INVALID" 409) ;;;
  eret preview.

(** From the sealed streams to the answer: the directory is in the trash. *)
Definition unregistered (rq : Request) (app_id operation_id : Uuid) (payload : DeleteRequest) (p : Preview) : handler reply :=
  _ <- ask (CommitBarrier app_id) ;;
  publication <- publish_deletion app_id ;;
  let response := MkDeleteResponse app_id true (dq_remove_container payload && negb (is_nil (pw_ids p))) (df_retained (pw_facts p))
                    (negb (dq_remove_container payload)) (du_warning publication) false in
  prog_bind (finish_json rq 200 (delete_json response)) (fun r =>
    match r with
    | Ok response => finalize_deletion_or_reconcile app_id operation_id publication ;;; eret (Ok response)
    | Err error => fail (Err error)
    end).

(** A resumed deletion whose directory is gone. *)
Definition resume_unregistered (rq : Request) (app_id operation_id : Uuid) (payload : DeleteRequest) (p : Preview) : handler reply :=
  (if is_none (pv_consumed_at (pw_row p)) then return_error rq "DELETION_PREVIEW_INVALID" 409 else eret tt) ;;;
  metadata <- or_interrupt rq (try_call (ReadTombstone app_id operation_id) id) ;;
  (if (am_slug metadata =? dq_slug payload) && (am_draft_revision metadata =? dq_expected_revision payload)
   then eret tt else return_interrupted rq) ;;;
  joined <- ask (JoinStreams app_id) ;;
  (if joined : bool then eret tt else return_interrupted rq) ;;;
  unregistered rq app_id operation_id payload p.

Definition consume (rq : Request) (payload : DeleteRequest) (p : Preview) : handler unit :=
  if is_none (pv_consumed_at (pw_row p))
  then
    now <- ask UtcNow ;;
    updated <- or_interrupt rq (try_call (ConsumePreview (sha256 (dq_confirmation_token payload)) now) id) ;;
    if (updated =? 1)%nat then eret tt else return_error rq "DELETION_PREVIEW_INVALID" 409
  else eret tt.

Definition not_expired (rq : Request) (row : PreviewRow) : handler unit :=
  if is_none (pv_consumed_at row)
  then now <- ask UtcNow ;; if (pv_expires_at row <=? now)%Z then return_error rq "DELETION_PREVIEW_EXPIRED" 409 else eret tt
  else eret tt.

(** The container is the previewed one. *)
Definition is_current (ids : list string) (container : option ContainerRecord) : bool :=
  is_some_and container (fun container => ids =? [cr_id container]).

(** The last checks, the two commands and the check of their effect. *)
Definition removal (rq : Request) (app_id : Uuid) (current : option ContainerRecord) (current_ids : list string) (active : VerifiedActive)
    (deadline : Time) : handler unit :=
  final_active <- or_interrupt rq (load_active app_id) ;;
  (if va_release_id final_active =? va_release_id active then eret tt else return_interrupted rq) ;;;
  _ <- or_interrupt rq (validate_runtime_paths (lv_metadata (va_loaded final_active))) ;;
  final_container <- or_interrupt rq (mutation_container (va_app final_active)) ;;
  (if is_current current_ids final_container then eret tt else return_interrupted rq) ;;;
  (if (cr_id <$> current) =? (cr_id <$> final_container) then eret tt else return_interrupted rq) ;;;
  prog_bind (revalidate_all (va_bind_identities final_active)) (fun r =>
    if is_ok r then eret tt else return_error rq "BIND_CHANGED" 409) ;;;
  timeout <- time_left rq deadline ;;
  let context := MkRunContext (ce_project_name (va_app final_active)) (app_path apps_directory app_id) (va_compose_file final_active) timeout
                   (cm_stop_grace_period_seconds (lv_metadata (va_loaded final_active))) [] in
  or_interrupt rq (run_compose CaStop context) ;;;
  or_interrupt rq (run_compose CaRemove context) ;;;
  left <- or_interrupt rq (mutation_container (va_app active)) ;;
  (if is_none left then eret tt else return_interrupted rq) ;;;
  or_interrupt rq (try_call (MarkCompleted (rq_route rq) (rq_key rq)) id).

Definition load_delete_effect_marker (rq : Request) : handler (option EffectMarker) :=
  or_interrupt rq (try_call (ReadMarker (rq_route rq) (rq_key rq)) id).

Definition remove_container (rq : Request) (app_id : Uuid) (current : option ContainerRecord) (current_ids : list string) : handler unit :=
  active <- or_code rq (load_active app_id) ;;
  deadline <- operation_deadline (lv_metadata (va_loaded active)) ;;
  guard rq TryCompose ;;;
  require_ready rq ;;;
  observed <- result_of (mutation_container (va_app active)) ;;
  (if match observed with Ok container => is_current current_ids container | Err _ => false end
   then eret tt else return_error rq "DELETION_PREVIEW_STALE" 409) ;;;
  marker <- load_delete_effect_marker rq ;;
  (if is_none marker
   then or_interrupt rq (try_call (MarkStarted (rq_route rq) (rq_key rq) (cr_id <$> current) (current ≫= cr_started_at)) id)
   else eret tt) ;;;
  removal rq app_id current current_ids active deadline.

(** The facts once more, the containers once more, and the rename. *)
Definition unregister (rq : Request) (app_id operation_id : Uuid) (payload : DeleteRequest) (p : Preview) : handler unit :=
  joined <- ask (JoinStreams app_id) ;;
  (if joined : bool then eret tt else return_interrupted rq) ;;;
  final <- or_interrupt rq (canonical_deletion_snapshot app_id (dq_remove_container payload)) ;;
  let expected := if dq_remove_container payload then [] else pw_ids p in
  (if (df_container_ids (ds_facts final) =? expected)
      && deletion_facts_match (ds_facts final) (pv_preview_hash (pw_row p))
           (if dq_remove_container payload && negb (is_nil (pw_ids p)) then Some (pw_ids p) else None)
   then eret tt else return_interrupted rq) ;;;
  observed <- or_interrupt rq (mutation_container (ds_app final)) ;;
  (if option_list (cr_id <$> observed) =? expected then eret tt else return_interrupted rq) ;;;
  renamed <- ask (Tombstone app_id operation_id) ;;
  match renamed with
  | Ok _ => eret tt
  | Err _ =>
      visible <- ask (ReadTombstone app_id operation_id) ;;
      (if is_ok visible then ask (CommitBarrier app_id) else eret tt) ;;;
      return_interrupted rq
  end.

(** The directory is there: the facts, the preview, the container, the rename
    and the answer. *)
Definition proceed (rq : Request) (app_id : Uuid) (payload : DeleteRequest) (operation_id : Uuid) (resumed : bool) (p : Preview)
    : handler reply :=
  let row := pw_row p in
  not_expired rq row ;;;
  snapshot <- prog_bind (canonical_deletion_snapshot app_id (dq_remove_container payload)) (fun r => match r with
    | Ok snapshot => eret snapshot
    | Err _ => return_error rq "DELETION_PREVIEW_STALE" 409
    end) ;;
  let current_ids := df_container_ids (ds_facts snapshot) in
  let removal_already_applied := resumed && is_some (pv_consumed_at row) && dq_remove_container payload && is_nil current_ids
                                 && negb (is_nil (pw_ids p)) in
  (if deletion_facts_match (ds_facts snapshot) (pv_preview_hash row) (if removal_already_applied then Some (pw_ids p) else None)
   then eret tt else return_error rq "DELETION_PREVIEW_STALE" 409) ;;;
  consume rq payload p ;;;
  (if dq_remove_container payload && negb (is_nil current_ids) && negb removal_already_applied
   then remove_container rq app_id (ds_container snapshot) current_ids else eret tt) ;;;
  unregister rq app_id operation_id payload p ;;;
  unregistered rq app_id operation_id payload p.

Definition perform_deletion (rq : Request) (app_id session_id : Uuid) (payload : DeleteRequest) (operation_id : Uuid) (resumed : bool)
    : handler reply :=
  _ <- ask CatalogLock ;;
  guard rq (TryApp app_id) ;;;
  cleanups <- or_interrupt rq (try_call (CleanupsInProgress app_id) id) ;;
  (if (cleanups =? 0)%nat then eret tt else return_error rq "APP_BUSY" 409) ;;;
  p <- read_preview rq app_id session_id payload ;;
  let row := pw_row p in
  exists_ <- ask (AppDirectoryExists app_id) ;;
  if resumed && negb exists_ then resume_unregistered rq app_id operation_id payload p
  else
    (if exists_ : bool then eret tt else return_error rq "APP_NOT_FOUND" 404) ;;;
    (if is_some (pv_consumed_at row) && negb resumed then return_error rq "DELETION_PREVIEW_INVALID" 409 else eret tt) ;;;
    proceed rq app_id payload operation_id resumed p.

Definition delete_route (app_id : Uuid) : string := "/api/v1/apps/" +:+ uuid_to_string app_id.

(** A recorded deletion is finished if its tombstone is still there. *)
Definition replay_deletion (app_id operation_id : Uuid) (status : Z) (body : string) : handler reply :=
  _ <- ask CatalogLock ;;
  tombstones <- ask SucceededTombstones ;;
  (match tombstones with
   | Ok tombstones =>
       if bool_decide ((app_id, operation_id) ∈ tombstones)
       then publication <- publish_deletion app_id ;;
            finalize_deletion_or_reconcile app_id operation_id publication
       else _ <- refresh ;; eret tt
   | Err _ => _ <- refresh ;; ask DegradeProjection
   end) ;;;
  eret (replay_recorded status body).

Definition delete_app (request_id app_id session_id : Uuid) (header : option (option string)) (payload : result bool DeleteRequest)
    : prog hev reply :=
  handle (
    payload <- lift (map_err (fun too_large => Err (json_error too_large request_id)) payload) ;;
    let route := delete_route app_id in
    raw_key <- lift (map_err (fun e => Err (idempotency_error e request_id)) (idempotency_key header)) ;;
    let hmac := fingerprint key_material (delete_canonical route (dq_slug payload) (dq_expected_revision payload)
                  (dq_remove_container payload) (fingerprint key_material (dq_confirmation_token payload))) in
    claim <- try_call (ClaimKey route raw_key hmac request_id) (fun e => Err (idempotency_error e request_id)) ;;
    let rq := MkRequest route raw_key request_id in
    match claim with
    | Replay operation_id status body => replay_deletion app_id operation_id status body
    | New operation_id => perform_deletion rq app_id session_id payload operation_id false
    | Resume operation_id => perform_deletion rq app_id session_id payload operation_id true
    end).
End deletion.
