(* ===== verification/DeletionSafety.v ===== *)
(** * DeletionSafety: what the deletion of an application may do, and when

    The journal is that of [ActionSafety] together with what only deletions do.
    Checks that only look at the store and at Docker keep what they show in the
    one and change nothing in the other ([looks_kept]). *)

From S2P Require Import Prelude Text Reference Models Ownership Effects Codec Names Drafts Database Ledger PollStates Idempotency Scheduler Auth Compose FileSystem StoreBase Recovery Requests Resources Actions ActionSafety Deletion.

(** ** The journal *)

Record Noted := MkNoted {
  nt_operation : option (Uuid * bool);                        (** the operation, and whether it is resumed *)
  nt_catalog : bool;                                          (** the catalog lock is held *)
  nt_row : option (string * PreviewRow);                      (** the preview read, with the hash of its token *)
  nt_clock : list Time;                                       (** times seen *)
  nt_consumed : bool;                                         (** the preview was consumed by this attempt *)
  nt_context : option RunContext;                             (** of the last command *)
  nt_latest : option (string * list ContainerRecord);         (** a listing, if it was the last call *)
  nt_gone : bool;                                             (** the directory was found missing *)
  nt_trashed : bool;                                          (** the tombstone of the operation is there *)
  nt_succeeded : bool;                                        (** the success of the operation is recorded *)
  nt_cleared : bool;                                          (** the operational records were removed *)
  nt_proved : list (Uuid * Uuid);                             (** deletions recorded as successful *)
}.

#[export] Instance eta_Noted : Eta Noted := fun h =>
  MkNoted (nt_operation h) (nt_catalog h) (nt_row h) (nt_clock h) (nt_consumed h) (nt_context h) (nt_latest h) (nt_gone h)
    (nt_trashed h) (nt_succeeded h) (nt_cleared h) (nt_proved h).

Definition nothing_noted : Noted := MkNoted None false None [] false None None false false false false [].

Definition marks (h : Noted) (o : obs hev) : Noted :=
  match o with
  | Obs e x =>
      match e in hev X return X -> Noted with
      | ClaimKey _ _ _ _ => fun r => match r with
          | Ok (New id) => h <| nt_operation := Some (id, false) |>
          | Ok (Resume id) => h <| nt_operation := Some (id, true) |>
          | _ => h end
      | CatalogLock => fun _ => h <| nt_catalog := true |>
      | ReadPreview hash _ => fun r => match r with Ok (Some row) => h <| nt_row := Some (hash, row) |> | _ => h end
      | UtcNow => fun now => h <| nt_clock := now :: nt_clock h |>
      | ConsumePreview _ _ => fun r => if bool_decide (r = Ok 1) then h <| nt_consumed := true |> else h
      | RunCompose _ context => fun _ => h <| nt_context := Some context |>
      | AppDirectoryExists _ => fun there => if there then h else h <| nt_gone := true |>
      | Tombstone _ _ => fun r => if is_ok r then h <| nt_trashed := true |> else h
      | ReadTombstone _ _ => fun r => if is_ok r && nt_gone h then h <| nt_trashed := true |> else h
      | FinishKey _ _ _ _ code _ => fun r => if is_ok r && is_none code then h <| nt_succeeded := true |> else h
      | RemoveOperational _ => fun r => if is_ok r then h <| nt_cleared := true |> else h
      | SucceededTombstones => fun r => match r with Ok l => h <| nt_proved := l |> | Err _ => h end
      | _ => fun _ => h
      end x
  end.

(** The last call is remembered only if it is a listing. *)
Definition latest (o : obs hev) : option (string * list ContainerRecord) :=
  match o with
  | Obs e x => match e in hev X return X -> option (string * list ContainerRecord) with
      | ListContainers p => fun r => match r with Ok l => Some (p, l) | Err _ => None end
      | _ => fun _ => None
      end x
  end.

Definition Kept : Type := Seen * Noted.
Definition keep (k : Kept) (o : obs hev) : Kept := (note k.1 o, (marks k.2 o) <| nt_latest := latest o |>).
Definition nothing_kept : Kept := (nothing_seen, nothing_noted).

(** ** The protocol *)

Section safety.
Context {UT : UuidText} {ST : StoreText} {CR : Crypto} {CT : ComposeText} {AJ : ActionJson} {DJ : DeletionJson}.
Context (key_material apps_directory project : string) (app_id session_id : Uuid) (payload : DeleteRequest).

(** The facts that name the application, its releases and its draft are those of the scan. *)
Definition facts_of (r : RecoveredApp) (f : DeletionFacts) : Prop :=
  df_app_id f = ra_app_id r /\ df_slug f = ra_slug r /\ df_expected_revision f = ra_draft_revision r
  /\ df_project_name f = ra_project_name r /\ df_active_release_id f = ra_active_release_id r
  /\ df_active_config_revision f = ra_active_config_revision r /\ df_pending_release_id f = ra_pending_release_id r
  /\ df_pending_config_revision f = ra_pending_config_revision r /\ df_remove_container f = dq_remove_container payload.

(** The facts found since the last command are those of the preview, but for
    the containers [removed] of which the deletion has taken itself. *)
Definition facts_found (g : Seen) (row : PreviewRow) (r : RecoveredApp) (f : DeletionFacts) (removed : option (list string)) : Prop :=
  scanned project app_id r g /\ facts_of r f
  /\ (exists o, listed (catalog_entry r) true o g /\ df_container_ids f = option_list (cr_id <$> o))
  /\ deletion_facts_match f (pv_preview_hash row) removed = true.

(** The preview was made in the session for this very request. *)
Definition confirmed (h : Noted) (p : Preview) : Prop :=
  nt_row h = Some (sha256 (dq_confirmation_token payload), pw_row p)
  /\ preview_valid session_id app_id payload p = true
  /\ facts_of_json (pv_preview_json (pw_row p)) = Some (pw_facts p) /\ ids_of_json (pv_container_ids_json (pw_row p)) = Some (pw_ids p)
  /\ sha256 (pv_preview_json (pw_row p)) = pv_preview_hash (pw_row p).

(** The preview is spent: this attempt consumed it before it expired; or the
    operation is resumed and the preview was found consumed already, by whom is
    not recorded. *)
Definition preview_spent (h : Noted) (row : PreviewRow) : Prop :=
  (nt_consumed h = true /\ pv_consumed_at row = None /\ exists now, now ∈ nt_clock h /\ (now < pv_expires_at row)%Z)
  \/ (exists id, nt_operation h = Some (id, true) /\ pv_consumed_at row <> None).

Definition held (k : Kept) : Prop := sj_app k.1 = true /\ nt_catalog k.2 = true.

Definition expected_ids (p : Preview) : list string := if dq_remove_container payload then [] else pw_ids p.

Definition tombstone_acceptable (k : Kept) (operation : Uuid) : Prop :=
  held k /\ (exists resumed, nt_operation k.2 = Some (operation, resumed)) /\
  exists p r f l o, confirmed k.2 p /\ preview_spent k.2 (pw_row p)
    /\ facts_found k.1 (pw_row p) r f (if dq_remove_container payload && negb (is_nil (pw_ids p)) then Some (pw_ids p) else None)
    /\ df_container_ids f = expected_ids p
    /\ nt_latest k.2 = Some (project, l) /\ classify_mutation_candidates (catalog_entry r) l = Ok o
    /\ option_list (cr_id <$> o) = expected_ids p.

Definition stop_acceptable (k : Kept) (context : RunContext) : Prop :=
  sj_compose k.1 = true /\ is_some (sj_marker k.1) = true /\ sj_commands k.1 = [] /\
  exists p r f c release, confirmed k.2 p /\ preview_spent k.2 (pw_row p) /\ facts_found k.1 (pw_row p) r f None
    /\ df_container_ids f = [cr_id c]
    /\ exists r', scanned project app_id r' k.1 /\ listed (catalog_entry r') false (Some c) k.1
    /\ ra_active_release_id r' = Some release
    /\ rc_project_name context = project /\ rc_project_directory context = app_path apps_directory app_id
    /\ rc_compose_file context = compose_path apps_directory app_id release
    /\ exists revision loaded, ra_active_config_revision r' = Some revision /\ (app_id, revision, loaded) ∈ sj_loaded k.1
    /\ sources_checked k.1 (lv_metadata loaded).

Definition deletion_command_acceptable (k : Kept) (command : ComposeAction) (context : RunContext) : Prop :=
  held k /\ dq_remove_container payload = true /\
  match command with
  | CaStop => stop_acceptable k context
  | CaRemove => sj_commands k.1 = [(CaStop, true)] /\ nt_context k.2 = Some context
  | _ => False
  end.

Definition finalize_acceptable (k : Kept) (operation : Uuid) : Prop :=
  nt_catalog k.2 = true /\ nt_cleared k.2 = true
  /\ ((exists resumed, nt_operation k.2 = Some (operation, resumed)) /\ nt_trashed k.2 = true /\ nt_succeeded k.2 = true
      \/ (app_id, operation) ∈ nt_proved k.2).

Definition deletion_acceptable (X : Type) (k : Kept) (e : hev X) : Prop :=
  match e with
  | RunCompose command context => deletion_command_acceptable k command context
  | Tombstone app operation => app = app_id /\ tombstone_acceptable k operation
  | FinishKey _ _ status _ code _ =>
      match code with None => status = 200%Z /\ nt_trashed k.2 = true | Some _ => sj_commands k.1 = [] end
  | ConsumePreview hash _ => exists row, nt_row k.2 = Some (hash, row) /\ pv_consumed_at row = None /\ held k
  | FinalizeUnregistration app operation => app = app_id /\ finalize_acceptable k operation
  | SetDesired _ _ _ _ | RepairDurability _ => False
  | _ => True
  end.

Definition deletion_promised (X : Type) (k : Kept) (e : hev X) : X -> Prop := promised project app_id X k.1 e.

Abbreviation dsafe := (Effects.safe keep deletion_acceptable deletion_promised True).
Abbreviation found := (finds apps_directory project app_id ActStart).

(** ** Looking *)

Definition looks (X : Type) (e : hev X) : Prop :=
  match e with
  | ScanReadOnly | LoadConfig _ _ | LoadRelease _ _ | ReadCompose _ _ | BindHosts | WebhookNoted _ | ListContainers _
  | InspectVolume _ | InspectNetwork _ | InspectSnapshot _ | CreatePlatformNetwork | DockerRoot | CatalogEntry _ | ComposeReady
  | TimerElapsed | MonotonicNow => True
  | _ => False
  end.

(** The same but for the last call. *)
Definition same (h h' : Noted) : Prop := h' <| nt_latest := None |> = h <| nt_latest := None |>.

#[local] Instance same_preorder : PreOrder same.
Proof. split; unfold same; [done|]. intros ???; congruence. Qed.

Lemma marks_looks X (e : hev X) x h : looks X e -> same h ((marks h (Obs e x)) <| nt_latest := latest (Obs e x) |>).
Proof. by destruct e. Qed.

Lemma looks_safe {A} (p : prog hev A) g h Q :
  calls_only looks p -> Effects.safe note (acceptable apps_directory project app_id ActStart) (promised project app_id) True p g Q ->
  dsafe p (g, h) (fun k a => Q k.1 a /\ same h k.2).
Proof.
  intros Hp Hs. enough (forall h', same h h' -> dsafe p (g, h') (fun k a => Q k.1 a /\ same h k.2)) as H by (by apply H).
  revert g Hs. induction p as [a|X e k IH|]; intros g Hs h' Hh; simpl in *; [by split| |done].
  destruct Hp as [He Hk], Hs as [_ Hs]. split; [by destruct e|]. intros x Hx. apply IH; [done|by apply Hs|].
  etrans; [exact Hh|]. by apply marks_looks.
Qed.

Lemma looks_kept {A} (p : prog hev A) g h F :
  calls_only looks p -> found p g F -> dsafe p (g, h) (fun k a => extends g k.1 /\ F a k.1 /\ same h k.2).
Proof. intros Hp Hf. eapply safe_mono; [by apply looks_safe|]. simpl. naive_solver. Qed.

Lemma looks_ebind {R A B} (p : eprog hev R A) (f : A -> eprog hev R B) :
  calls_only looks p -> (forall a, calls_only looks (f a)) -> calls_only looks (ebind p f).
Proof. intros Hp Hf. apply calls_only_bind; [done|]. by intros [a|e]. Qed.

Lemma looks_timed {A} (p : prog hev A) : calls_only looks p -> calls_only looks (timed p).
Proof.
  induction p as [a|X e k IH|]; simpl; [done| |done]. intros [He Hk]. split; [done|]. intros x. split; [done|].
  intros []; [done|]. by apply IH, Hk.
Qed.

Lemma looks_reads {A} (p : prog hev A) : calls_only looks p -> calls_only reads p.
Proof. induction p as [a|X e k IH|]; simpl; [done| |done]. intros [He Hk]. split; [by destruct e|]. auto. Qed.

Ltac looking :=
  repeat first
    [ exact I | apply looks_ebind; intros | apply calls_only_bind; intros | apply looks_timed
    | progress (unfold lift, eret, fail, result_of, ask, try_call) | (split; [exact I|]; intros) | progress simpl | case_match ].

Lemma looks_policy app allow : calls_only looks (mutation_container_policy app allow).
Proof. unfold mutation_container_policy, mutation_container, list_candidates. looking. Qed.

Lemma looks_verify key app release loaded : calls_only looks (verify_active_compose apps_directory key app release loaded).
Proof. unfold verify_active_compose. looking. Qed.

Lemma looks_load key id : calls_only looks (load_verified_active apps_directory key id).
Proof.
  unfold load_verified_active, load_verified_active_with_bind_guard, configured_app, guarded_binds. looking.
Qed.

Lemma looks_paths metadata : calls_only looks (validate_runtime_paths metadata).
Proof. unfold validate_runtime_paths, validate_runtime_paths_for_docker_root. looking. Qed.

Lemma looks_revalidate identities : calls_only looks (revalidate_all identities).
Proof. induction identities as [|i l IH]; [done|]. cbn [revalidate_all]. looking. apply IH. Qed.

Lemma looks_retained app active pending draft ids : calls_only looks (retained_resources app active pending draft ids).
Proof.
  assert (forall l, calls_only looks (retained_volumes l)) as Hv.
  { induction l as [|[name p] l IH]; [done|]. cbn [retained_volumes]. looking. apply IH. }
  assert (forall b l, calls_only looks (retained_networks b l)) as Hn.
  { intros b. induction l as [|[[[name kind] aliases] p] l IH]; [done|]. cbn [retained_networks]. looking; apply IH. }
  assert (forall l, calls_only looks (retained_binds l)) as Hb.
  { induction l as [|[source [p ro]] l IH]; [done|]. cbn [retained_binds]. looking. apply IH. }
  unfold retained_resources. apply calls_only_bind; [apply looks_timed|intros []; looking]. unfold retained_resources_inner.
  apply looks_ebind; [done|]. intros names. repeat (apply looks_ebind; [done|intros]). done.
Qed.

Lemma looks_snapshot id remove : calls_only looks (canonical_deletion_snapshot key_material apps_directory id remove).
Proof.
  unfold canonical_deletion_snapshot. split; [done|]. intros r. apply calls_only_bind; [by destruct r|]. intros [report|e]; [|done].
  apply looks_ebind; [done|]. intros rec. apply looks_ebind; [|intros draft; apply looks_ebind; [|intros active; apply looks_ebind;
    [|intros pending; apply looks_ebind; [apply looks_policy|intros c; apply looks_ebind; [apply looks_retained|intros]]]]].
  - unfold draft_configuration. looking.
  - unfold active_configuration. looking.
  - unfold pending_configuration. looking.
  - looking.
Qed.

(** ** What looking keeps *)

(** Nothing was done between the two. *)
Definition later (k k' : Kept) : Prop := extends k.1 k'.1 /\ same k.2 k'.2.

#[local] Instance later_preorder : PreOrder later.
Proof. split; [done|]. intros k1 k2 k3 [] []. split; by etrans. Qed.

Class Lasting (P : Kept -> Prop) : Prop := lasting : forall k k', later k k' -> P k -> P k'.

#[local] Instance lasting_seen P : Stable P -> Lasting (fun k => P k.1).
Proof. intros HP k k' [He _]. by apply HP. Qed.

#[local] Instance lasting_and P Q : Lasting P -> Lasting Q -> Lasting (fun k => P k /\ Q k).
Proof. intros HP HQ k k' Hl [H1 H2]. split; [by eapply HP|by eapply HQ]. Qed.

#[local] Instance lasting_row row : Lasting (fun k => nt_row k.2 = row).
Proof. intros k k' [_ Hs] <-. by injection Hs. Qed.
#[local] Instance lasting_operation operation : Lasting (fun k => nt_operation k.2 = operation).
Proof. intros k k' [_ Hs] <-. by injection Hs. Qed.
#[local] Instance lasting_commands l : Lasting (fun k => sj_commands k.1 = l).
Proof. intros k k' [[] _]. congruence. Qed.
#[local] Instance lasting_compose b : Lasting (fun k => sj_compose k.1 = b).
Proof. intros k k' [[] _]. congruence. Qed.
#[local] Instance lasting_marked : Lasting (fun k => is_some (sj_marker k.1) = true).
Proof. intros k k' [[] _]. congruence. Qed.
#[local] Instance lasting_held : Lasting held.
Proof. intros k k' [[] Hs] [H1 H2]. split; [congruence|]. rewrite <- H2. by injection Hs. Qed.

#[local] Instance lasting_confirmed p : Lasting (fun k => confirmed k.2 p).
Proof. intros k k' [_ Hs] (H1 & H). split; [|done]. rewrite <- H1. by injection Hs. Qed.

#[local] Instance lasting_spent row : Lasting (fun k => preview_spent k.2 row).
Proof.
  intros k k' [_ Hs] H. unfold preview_spent in *.
  assert (nt_consumed k'.2 = nt_consumed k.2 /\ nt_clock k'.2 = nt_clock k.2 /\ nt_operation k'.2 = nt_operation k.2) as (-> & -> & ->)
    by (by injection Hs). done.
Qed.

#[local] Instance lasting_found row r f removed : Lasting (fun k => facts_found k.1 row r f removed).
Proof.
  intros k k' [He _] (H1 & H2 & (o & H3 & H4) & H5). split_and!; [by eapply scanned_stable|done| |done].
  exists o. split; [by eapply listed_stable|done].
Qed.

(** ** Steps of the handler *)

Definition dsteps {A} (p : handler A) (k : Kept) (P : A -> Kept -> Prop) : Prop :=
  dsafe p k (fun k' r => match r with Ok a => P a k' | Err _ => sj_pending k'.1 = false end).

Lemma dsteps_bind {A B} (p : handler A) (f : A -> handler B) k P Q :
  dsteps p k P -> (forall k' a, P a k' -> dsteps (f a) k' Q) -> dsteps (ebind p f) k Q.
Proof. intros Hp Hf. eapply safe_ebind_use; [exact Hp|exact Hf|done]. Qed.

Lemma dsteps_mono {A} (p : handler A) k (P Q : A -> Kept -> Prop) :
  dsteps p k P -> (forall a k', P a k' -> Q a k') -> dsteps p k Q.
Proof. intros Hp H. eapply safe_mono; [exact Hp|]. intros k' [a|e]; auto. Qed.

Lemma dsteps_interrupted {A} rq k (P : A -> Kept -> Prop) : dsteps (return_interrupted rq) k P.
Proof. split; [done|]. by intros x _. Qed.

Lemma dsteps_error {A} rq code status k (P : A -> Kept -> Prop) : sj_commands k.1 = [] -> dsteps (return_error rq code status) k P.
Proof. intros Hk. split; [done|]. intros [r|e] _; [done|]. split; [done|]. by intros x _. Qed.

(** A test whose failure ends the request. *)
Lemma dsteps_test {B} (b : bool) (p : handler unit) (f : unit -> handler B) k Q :
  (forall P, dsteps p k P) -> (b = true -> dsteps (f tt) k Q) -> dsteps (ebind (if b then eret tt else p) f) k Q.
Proof.
  intros Hp Hf. eapply (dsteps_bind _ _ _ (fun _ k' => k' = k /\ b = true)); [|by intros ? [] [-> Hb]; apply Hf].
  destruct b; [by split|apply Hp].
Qed.

Lemma dsteps_looked {R A B} (p : eprog hev R A) (f : result R A -> handler B) k F Q :
  calls_only looks p -> found p k.1 F -> (forall k' r, later k k' -> F r k'.1 -> dsteps (f r) k' Q) -> dsteps (prog_bind p f) k Q.
Proof.
  intros Hp Hf Hk. destruct k as [g h]. apply safe_bind. eapply safe_mono; [by apply looks_kept|].
  intros k' r (He & HF & Hs). by apply Hk; [split|].
Qed.

Lemma dsteps_interrupt {R A B} rq (p : eprog hev R A) (f : A -> handler B) k F Q :
  calls_only looks p -> found p k.1 (on_ok F) -> (forall k' a, later k k' -> F a k'.1 -> dsteps (f a) k' Q) ->
  dsteps (ebind (or_interrupt rq p) f) k Q.
Proof.
  intros Hp Hf Hk. eapply (dsteps_bind _ _ _ (fun a k' => later k k' /\ F a k'.1)); [|by intros k' a [Hl HF]; apply Hk].
  eapply dsteps_looked; [done|exact Hf|]. intros k' [a|e] Hl HF; [by split|apply dsteps_interrupted].
Qed.

Lemma dsteps_code {A B} rq (p : coded A) (f : A -> handler B) k F Q :
  calls_only looks p -> found p k.1 (on_ok F) -> sj_commands k.1 = [] ->
  (forall k' a, later k k' -> F a k'.1 -> dsteps (f a) k' Q) -> dsteps (ebind (or_code rq p) f) k Q.
Proof.
  intros Hp Hf Hc Hk. eapply (dsteps_bind _ _ _ (fun a k' => later k k' /\ F a k'.1)); [|by intros k' a [Hl HF]; apply Hk].
  eapply dsteps_looked; [done|exact Hf|]. intros k' [a|e] Hl HF; [by split|]. by eapply dsteps_error, lasting_commands.
Qed.

Lemma found_any {R A} (p : eprog hev R A) g : calls_only looks p -> found p g (on_ok (fun _ _ => True)).
Proof. intros Hp. eapply finds_mono; [by apply finds_reads, looks_reads|]. by intros [a|e]. Qed.

Lemma snapshot_found g :
  found (canonical_deletion_snapshot key_material apps_directory app_id (dq_remove_container payload)) g
    (on_ok (fun s g' => exists r, ds_app s = catalog_entry r /\ scanned project app_id r g' /\ facts_of r (ds_facts s)
       /\ listed (catalog_entry r) true (ds_container s) g' /\ df_container_ids (ds_facts s) = option_list (cr_id <$> ds_container s))).
Proof.
  unfold canonical_deletion_snapshot. apply finds_call; [done|]. intros [report|e] g1 Hp _ ->; [|by apply finds_ret]. simpl.
  set (g1 := note g (Obs ScanReadOnly (Ok report))).
  apply finds_lift; [done|]. intros r Hfind. apply ok_or_ok_inv in Hfind. apply find_app in Hfind as [Hin Hid].
  assert (scanned project app_id r g1) as Hs.
  { split_and!; [|set_solver|done|]; [exists report; set_solver|]. specialize (Hp report eq_refl). rewrite list.Forall_forall in Hp. by apply Hp. }
  eapply (finds_ebind _ _ _ _ _ _ _ (fun _ _ => True)).
  { eapply finds_mono; [apply finds_reads, looks_reads; unfold draft_configuration; looking|]. by intros [a|e]. }
  intros g2 draft E2 _. eapply (finds_ebind _ _ _ _ _ _ _ (fun _ _ => True)).
  { eapply finds_mono; [apply finds_reads, looks_reads; unfold active_configuration; looking|]. by intros [a|e]. }
  intros g3 active E3 _. eapply (finds_ebind _ _ _ _ _ _ _ (fun _ _ => True)).
  { eapply finds_mono; [apply finds_reads, looks_reads; unfold pending_configuration; looking|]. by intros [a|e]. }
  intros g4 pending E4 _. eapply finds_ebind.
  { eapply finds_mono; [apply policy_finds|]. by intros [a|e] g' _ H; [exact H|]. }
  intros g5 c E5 Hc. eapply (finds_ebind _ _ _ _ _ _ _ (fun _ _ => True)).
  { eapply finds_mono; [apply finds_reads, looks_reads, looks_retained|]. by intros [a|e]. }
  intros g6 retained E6 _. apply finds_call; [done|]. intros [noted|e] g7 _ E7 _; [|by apply finds_ret]. simpl. apply finds_ret.
  exists r. split_and!; [done| | | |done].
  - eapply scanned_stable; [|exact Hs]. do 5 (etrans; [eassumption|]). done.
  - by split_and!.
  - eapply listed_stable; [|exact Hc]. by etrans.
Qed.

Lemma later_call X (e : hev X) x k : looks X e -> later k (keep k (Obs e x)).
Proof. intros He. split; [apply note_reads; by destruct e|by apply marks_looks]. Qed.

Lemma dsteps_result {R A B} (p : eprog hev R A) (f : result R A -> handler B) k F Q :
  calls_only looks p -> found p k.1 F -> (forall k' r, later k k' -> F r k'.1 -> dsteps (f r) k' Q) ->
  dsteps (ebind (result_of p) f) k Q.
Proof.
  intros Hp Hf Hk. eapply (dsteps_bind _ _ _ (fun r k' => later k k' /\ F r k'.1)); [|by intros k' a [Hl HF]; apply Hk].
  by eapply dsteps_looked; [done|exact Hf|].
Qed.

Lemma dsteps_look {X B} (e : hev X) (f : X -> handler B) k Q :
  looks X e -> (forall k' x, later k k' -> dsteps (f x) k' Q) -> dsteps (ebind (ask e) f) k Q.
Proof. intros He Hf. split; [by destruct e|]. intros x _. apply Hf. by apply later_call. Qed.

(** ** Removing the container *)

(** The request holds what it needs, its preview is read and spent. *)
Definition spending (p : Preview) (operation : Uuid) (resumed : bool) (k : Kept) : Prop :=
  held k /\ nt_operation k.2 = Some (operation, resumed) /\ confirmed k.2 p /\ preview_spent k.2 (pw_row p).

#[local] Instance lasting_spending p operation resumed : Lasting (spending p operation resumed).
Proof.
  intros k k' Hl (H1 & H2 & H3 & H4). split_and!;
    [exact (lasting_held _ _ Hl H1)|exact (lasting_operation _ _ _ Hl H2)|exact (lasting_confirmed _ _ _ Hl H3)|exact (lasting_spent _ _ _ Hl H4)].
Qed.

(** What it relies on depends on the lock of the application and on nothing
    else of the calls to Docker. *)
Lemma spending_seen p operation resumed g g' h h' :
  sj_app g' = sj_app g -> nt_catalog h' = nt_catalog h -> nt_operation h' = nt_operation h -> nt_row h' = nt_row h ->
  nt_consumed h' = nt_consumed h -> nt_clock h' = nt_clock h ->
  spending p operation resumed (g, h) -> spending p operation resumed (g', h').
Proof.
  unfold spending, held, confirmed, preview_spent. simpl. by intros -> -> -> -> -> ->.
Qed.

Definition primed (p : Preview) (operation : Uuid) (resumed : bool) (r : RecoveredApp) (f : DeletionFacts) (k : Kept) : Prop :=
  spending p operation resumed k /\ sj_commands k.1 = [] /\ facts_found k.1 (pw_row p) r f None.

#[local] Instance lasting_primed p operation resumed r f : Lasting (primed p operation resumed r f).
Proof.
  intros k k' Hl (H1 & H2 & H3). split_and!;
    [exact (lasting_spending _ _ _ _ _ Hl H1)|exact (lasting_commands _ _ _ Hl H2)|exact (lasting_found _ _ _ _ _ _ Hl H3)].
Qed.

(** Taking the guard of Compose or writing the marker changes none of it. *)
Lemma primed_seen p operation resumed r f g h b m h' :
  same h h' -> primed p operation resumed r f (g, h) -> primed p operation resumed r f (g <| sj_compose := b |> <| sj_marker := m |>, h').
Proof.
  intros Hs Hp. assert (later (g, h) (g, h')) as Hl by done. apply (lasting_primed _ _ _ _ _ _ _ Hl) in Hp as (H1 & H2 & H3).
  split_and!; [|exact H2|exact H3]. by apply (spending_seen _ _ _ g _ h').
Qed.

Lemma guard_kept rq k :
  sj_commands k.1 = [] -> dsteps (guard rq TryCompose) k (fun _ k' => k'.1 = k.1 <| sj_compose := true |> /\ same k.2 k'.2).
Proof. intros Hc. split; [done|]. intros [] _; [done|]. by apply dsteps_error. Qed.

Lemma ready_kept {B} rq (f : unit -> handler B) k Q :
  sj_commands k.1 = [] -> (forall k', later k k' -> dsteps (f tt) k' Q) -> dsteps (ebind (require_ready rq) f) k Q.
Proof.
  intros Hc Hf. eapply (dsteps_bind _ _ _ (fun _ k' => later k k')); [|by intros k' [] Hl; apply Hf].
  eapply dsteps_look; [done|]. intros k' status Hl. destruct (compose_unready_code status); [|done].
  by eapply dsteps_error, lasting_commands.
Qed.

(** The marker is read, and written if there was none. *)
Lemma marker_kept {B} rq pre started (q : handler B) k Q :
  (forall m h', same k.2 h' -> is_some m = true -> dsteps q (k.1 <| sj_marker := m |>, h') Q) ->
  dsteps (marker <- or_interrupt rq (try_call (ReadMarker (rq_route rq) (rq_key rq)) id) ;;
          (if is_none marker then or_interrupt rq (try_call (MarkStarted (rq_route rq) (rq_key rq) pre started) id) else eret tt) ;;; q) k Q.
Proof.
  intros Hf. destruct k as [g h]. split; [done|]. intros [[m|]|e] _; [| |by apply dsteps_interrupted].
  - by apply Hf.
  - split; [done|]. intros [[]|e] _; [|by apply dsteps_interrupted]. by apply Hf.
Qed.

Lemma container_found app g : found (mutation_container app) g (on_ok (listed app false)).
Proof. exact (policy_finds apps_directory project app_id ActStart app false g). Qed.
Lemma looks_container app : calls_only looks (mutation_container app).
Proof. exact (looks_policy app false). Qed.

(** The two commands and the check of their effect. *)
Lemma commands_steps rq p operation resumed active context k :
  dq_remove_container payload = true -> spending p operation resumed k -> stop_acceptable k context ->
  dsteps (or_interrupt rq (run_compose CaStop context) ;;; or_interrupt rq (run_compose CaRemove context) ;;;
          left <- or_interrupt rq (mutation_container (va_app active)) ;;
          (if is_none left then eret tt else return_interrupted rq) ;;;
          or_interrupt rq (try_call (MarkCompleted (rq_route rq) (rq_key rq)) id)) k (fun _ => spending p operation resumed).
Proof.
  intros Hrm Hs Hstop. destruct k as [g h]. destruct Hstop as (Hc & Hm & Hcmd & Hstop). cbn [fst] in Hcmd.
  split; [split; [apply Hs|done]|]. intros [[]|e] _; [|apply dsteps_interrupted]. set (k1 := keep (g, h) _).
  assert (spending p operation resumed k1) as Hs1 by (by apply (spending_seen _ _ _ g _ h)).
  assert (sj_commands k1.1 = [(CaStop, true)]) as Hc1 by (unfold k1; simpl; by rewrite Hcmd).
  assert (nt_context k1.2 = Some context) as Hx1 by done. clearbody k1. destruct k1 as [g1 h1].
  split; [split; [apply Hs1|done]|]. intros [[]|e] _; [|apply dsteps_interrupted]. set (k2 := keep (g1, h1) _).
  assert (spending p operation resumed k2) as Hs2 by (by apply (spending_seen _ _ _ g1 _ h1)). clearbody k2. clear Hs Hs1.
  eapply dsteps_interrupt; [apply looks_container|apply container_found|]. intros k3 left L3 _.
  apply (lasting_spending _ _ _ _ _ L3) in Hs2. apply dsteps_test; [intros P; apply dsteps_interrupted|]. intros _. destruct k3 as [g3 h3].
  split; [done|]. intros [[]|e] _; [|apply dsteps_interrupted]. by apply (spending_seen _ _ _ g3 _ h3).
Qed.

Lemma removal_steps rq p operation resumed r f current active deadline k :
  dq_remove_container payload = true -> primed p operation resumed r f k -> sj_compose k.1 = true -> is_some (sj_marker k.1) = true ->
  dsteps (removal key_material apps_directory rq app_id current (df_container_ids f) active deadline) k (fun _ => spending p operation resumed).
Proof.
  intros Hrm Hp Hc Hm. unfold removal.
  eapply dsteps_interrupt; [apply looks_load|apply active_finds|]. intros k1 v L1 Hv.
  apply dsteps_test; [intros P; apply dsteps_interrupted|]. intros _.
  eapply dsteps_interrupt; [apply looks_paths|apply found_any, looks_paths|]. intros k2 ids L2 _.
  eapply dsteps_interrupt; [apply looks_container|apply container_found|]. intros k3 o L3 Ho.
  apply dsteps_test; [intros P; apply dsteps_interrupted|]. intros Hcur.
  apply dsteps_test; [intros P; apply dsteps_interrupted|]. intros _.
  assert (L13 : later k1 k3) by (by etrans). assert (L : later k k3) by (by etrans).
  apply (lasting_primed _ _ _ _ _ _ _ L) in Hp. apply (lasting_compose _ _ _ L) in Hc. apply (lasting_marked _ _ L) in Hm.
  apply (verified_stable _ _ _ _ _ _ _ (proj1 L13)) in Hv. clear L1 L2 L3 L L13 k k1 k2.
  eapply (dsteps_bind _ _ _ (fun _ k' => later k3 k' /\ revalidated (va_bind_identities v) k'.1)).
  { eapply dsteps_looked; [apply looks_revalidate|apply revalidate_finds|]. intros k' [[]|e] L H; [by split|].
    eapply dsteps_error, (lasting_commands _ _ _ L), Hp. }
  intros k4 [] [L4 Hre]. eapply (dsteps_bind _ _ _ (fun _ k' => later k4 k')).
  { eapply dsteps_look; [done|]. intros k' now L. destruct (_ <=? _)%Z; [done|].
    eapply dsteps_error, (lasting_commands _ _ _ L), (lasting_commands _ _ _ L4), Hp. }
  intros k5 timeout L5. assert (L35 : later k3 k5) by (by etrans).
  apply (lasting_primed _ _ _ _ _ _ _ L35) in Hp. apply (lasting_compose _ _ _ L35) in Hc. apply (lasting_marked _ _ L35) in Hm.
  apply (verified_stable _ _ _ _ _ _ _ (proj1 L35)) in Hv. apply (listed_stable _ _ _ _ _ (proj1 L35)) in Ho.
  apply (revalidated_stable _ _ _ (proj1 L5)) in Hre. destruct Hp as (Hs & Hcmd & Hf).
  apply commands_steps; [done..|]. split_and!; try done. destruct Hv as (r' & Happ & Hr' & Hfile & Hrel & Hb).
  destruct (Hb eq_refl) as (revision & hosts & Hrev & Hload & Hhosts & Hbinds). destruct Hrel as [Hrel|[? _]]; [|done].
  destruct o as [c|]; [|done]. unfold is_current in Hcur. cbn in Hcur. apply bool_decide_eq_true in Hcur.
  destruct Hs as (_ & _ & Hconf & Hspent). rewrite Happ in *.
  exists p, r, f, c, (va_release_id v). split_and!; try done. exists r'. split_and!; try done; [by destruct Hr' as (_ & _ & _ & ?)|].
  exists revision, (va_loaded v). split_and!; try done. by exists hosts, (va_bind_identities v).
Qed.

Lemma remove_container_steps rq p operation resumed r f current k :
  dq_remove_container payload = true -> primed p operation resumed r f k ->
  dsteps (remove_container key_material apps_directory rq app_id current (df_container_ids f)) k (fun _ => spending p operation resumed).
Proof.
  intros Hrm Hp. unfold remove_container.
  eapply dsteps_code; [apply looks_load|apply active_finds|apply Hp|]. intros k1 active L1 _. apply (lasting_primed _ _ _ _ _ _ _ L1) in Hp.
  eapply (dsteps_bind _ _ _ (fun _ k' => later k1 k')).
  { split; [done|]. intros now _. by apply (later_call _ MonotonicNow). }
  intros k2 deadline L2. apply (lasting_primed _ _ _ _ _ _ _ L2) in Hp.
  eapply dsteps_bind; [apply guard_kept, Hp|]. intros [g3 h3] [] [Hg3 Hh3]. simpl in Hg3, Hh3.
  assert (primed p operation resumed r f (g3, h3) /\ sj_compose g3 = true) as [Hp3 Hc3].
  { destruct k2 as [g2 h2]. simpl in *. subst g3. split; [|done]. exact (primed_seen _ _ _ _ _ g2 h2 true (sj_marker g2) h3 Hh3 Hp). }
  clear Hp Hg3 Hh3 L1 L2 k k1 k2. apply ready_kept; [apply Hp3|]. intros k4 L4.
  apply (lasting_primed _ _ _ _ _ _ _ L4) in Hp3. apply (lasting_compose _ _ _ L4) in Hc3.
  eapply dsteps_result; [apply looks_container|apply container_found|]. intros k5 observed L5 _.
  apply (lasting_primed _ _ _ _ _ _ _ L5) in Hp3. apply (lasting_compose _ _ _ L5) in Hc3.
  eapply dsteps_test; [intros P; apply dsteps_error, Hp3|]. intros _.
  apply marker_kept. intros m h6 Hs6 Hm. destruct k5 as [g5 h5]. cbn [fst snd] in *.
  set (g6 := g5 <| sj_marker := m |>).
  assert (primed p operation resumed r f (g6, h6)) as Hp6 by exact (primed_seen _ _ _ _ _ g5 h5 (sj_compose g5) m h6 Hs6 Hp3).
  assert (sj_compose g6 = true /\ is_some (sj_marker g6) = true) as [Hc6 Hm6] by done.
  exact (removal_steps rq p operation resumed r f current active deadline (g6, h6) Hrm Hp6 Hc6 Hm6).
Qed.

(** ** The rename *)

(** A listing that is the last call. *)
Lemma container_latest {B} rq app (f : option ContainerRecord -> handler B) k Q :
  (forall k' o l, later k k' -> nt_latest k'.2 = Some (ce_project_name app, l) -> classify_mutation_candidates app l = Ok o -> dsteps (f o) k' Q) ->
  dsteps (ebind (or_interrupt rq (mutation_container app)) f) k Q.
Proof.
  intros Hf. split; [done|]. intros [l|e] _; [|by apply dsteps_interrupted]. simpl.
  destruct (classify_mutation_candidates app l) as [o|] eqn:Ho; [|by apply dsteps_interrupted].
  by apply (Hf _ o l); [apply (later_call _ (ListContainers _))|..].
Qed.

(** The operation holds the catalog lock and its tombstone is there. *)
Definition renamed (operation : Uuid) (k : Kept) : Prop :=
  nt_catalog k.2 = true /\ (exists resumed, nt_operation k.2 = Some (operation, resumed)) /\ nt_trashed k.2 = true.

Lemma unregister_steps rq p operation resumed k :
  spending p operation resumed k ->
  dsteps (unregister key_material apps_directory rq app_id operation payload p) k (fun _ => renamed operation).
Proof.
  intros Hs. destruct k as [g h]. split; [done|]. intros joined _. set (k1 := keep (g, h) _).
  assert (spending p operation resumed k1) as Hs1 by (by apply (spending_seen _ _ _ g _ h)). clearbody k1. clear Hs g h.
  apply dsteps_test; [intros P; apply dsteps_interrupted|]. intros _.
  eapply dsteps_interrupt; [apply looks_snapshot|apply snapshot_found|]. intros k2 s L2 (r & Happ & Hr & Hf & Hl & Hids).
  apply (lasting_spending _ _ _ _ _ L2) in Hs1.
  apply dsteps_test; [intros P; apply dsteps_interrupted|]. intros [Hexp%bool_decide_eq_true Hmatch]%andb_prop.
  apply container_latest. intros k3 o l L3 Hlast Ho. apply (lasting_spending _ _ _ _ _ L3) in Hs1.
  apply dsteps_test; [intros P; apply dsteps_interrupted|]. intros Hobs%bool_decide_eq_true.
  destruct Hs1 as (Hheld & Hop & Hconf & Hspent). split.
  { split; [done|]. split_and!; [apply Hheld..|by exists resumed|]. exists p, r, (ds_facts s), l, o. rewrite Happ in *.
    split_and!; try done.
    - split_and!; [by apply (scanned_stable _ _ _ _ _ (proj1 L3))|done| |done].
      exists (ds_container s). by split; [apply (listed_stable _ _ _ _ _ (proj1 L3))|].
    - destruct Hr as (_ & _ & _ & Hproj). by rewrite <- Hproj. }
  intros [[]|e] _.
  - split_and!; [apply Hheld|by exists resumed|done].
  - split; [done|]. intros [visible|e'] _; [split; [done|]; intros [] _|]; (split; [done|]; by intros x _).
Qed.

(** ** The answer *)

(** Publication leaves the operation as it is. *)
Definition published (k k' : Kept) : Prop :=
  nt_catalog k'.2 = nt_catalog k.2 /\ nt_operation k'.2 = nt_operation k.2 /\ nt_trashed k'.2 = nt_trashed k.2
  /\ nt_proved k'.2 = nt_proved k.2 /\ sj_pending k'.1 = sj_pending k.1.

Lemma publish_steps k :
  dsteps (publish_deletion app_id) k (fun out k' => published k k' /\ (du_can_finalize out = true -> nt_cleared k'.2 = true)).
Proof.
  split; [done|]. intros [warning []] _; [|done]. split; [done|]. intros [app|] _; [done|]. split; [done|].
  intros [[]|e] _; [done|]. split; [done|]. by intros [] _.
Qed.

Lemma finalize_steps operation publication k :
  nt_catalog k.2 = true -> (du_can_finalize publication = true -> nt_cleared k.2 = true) -> sj_pending k.1 = false ->
  (renamed operation k /\ nt_succeeded k.2 = true \/ (app_id, operation) ∈ nt_proved k.2) ->
  dsteps (finalize_deletion_or_reconcile app_id operation publication) k (fun _ k' => sj_pending k'.1 = false).
Proof.
  intros Hcat Hcl Hpend Hk. unfold finalize_deletion_or_reconcile. destruct (du_can_finalize publication) eqn:Hfin.
  - split. { split; [done|]. split_and!; [done|by apply Hcl|]. destruct Hk as [[(_ & Hop & Ht) Hok]|Hk]; [left|by right]. done. }
    intros [[]|e] _; [done|]. split; [done|]. by intros [] _.
  - split; [done|]. by intros [] _.
Qed.

Lemma unregistered_steps rq p operation k :
  renamed operation k -> dsteps (unregistered rq app_id operation payload p) k (fun _ k' => sj_pending k'.1 = false).
Proof.
  intros Hk. split; [done|]. intros [] _. set (k1 := keep k _). assert (renamed operation k1) as Hk1 by done. clearbody k1. clear Hk k.
  eapply dsteps_bind; [apply publish_steps|]. intros k2 publication ((Hcat & Hop & Ht & _) & Hcl).
  assert (renamed operation k2) as Hk2 by (unfold renamed; by rewrite Hcat, Hop, Ht). clear Hk1 Hcat Hop Ht k1.
  split; [by split; [|apply Hk2]|]. intros [[]|e] _; [|by split; [done|]; intros x _].
  eapply dsteps_bind; [apply (finalize_steps operation)|done]; [apply Hk2|done|done|by left].
Qed.

(** ** The whole request *)

Lemma read_preview_steps rq k :
  sj_commands k.1 = [] -> held k ->
  dsteps (read_preview rq app_id session_id payload) k (fun p k' =>
    confirmed k'.2 p /\ held k' /\ k'.1 = k.1 /\ nt_operation k'.2 = nt_operation k.2 /\ nt_consumed k'.2 = nt_consumed k.2
    /\ nt_gone k'.2 = nt_gone k.2).
Proof.
  intros Hc Hk. unfold read_preview.
  eapply (dsteps_bind _ _ _ (fun out k1 => (held k1 /\ k1.1 = k.1 /\ nt_operation k1.2 = nt_operation k.2
    /\ nt_consumed k1.2 = nt_consumed k.2 /\ nt_gone k1.2 = nt_gone k.2)
    /\ forall row, out = Some row -> nt_row k1.2 = Some (sha256 (dq_confirmation_token payload), row))).
  { destruct k as [g h]. split; [done|]. intros [[row|]|e] _; [by split; [|intros ? [= <-]]|done|by apply dsteps_interrupted]. }
  intros k1 out [Hk1 Hrow].
  eapply (dsteps_bind _ _ _ (fun row k' => nt_row k1.2 = Some (sha256 (dq_confirmation_token payload), row) /\ k' = k1)).
  { destruct out as [row|]; [by split; [apply Hrow|]|]. apply dsteps_error. by destruct Hk1 as (_ & -> & _). }
  clear Hrow. intros ? row [Hrow ->].
  eapply (dsteps_bind _ _ _ (fun facts k' => facts_of_json (pv_preview_json row) = Some facts /\ k' = k1)).
  { destruct (facts_of_json (pv_preview_json row)); [done|apply dsteps_interrupted]. }
  intros ? facts [Hf ->]. apply dsteps_test; [intros P; apply dsteps_interrupted|]. intros Hhash%bool_decide_eq_true.
  eapply (dsteps_bind _ _ _ (fun ids k' => ids_of_json (pv_container_ids_json row) = Some ids /\ k' = k1)).
  { destruct (ids_of_json (pv_container_ids_json row)); [done|apply dsteps_interrupted]. }
  intros ? ids [Hids ->]. apply dsteps_test; [intros P; apply dsteps_error; by destruct Hk1 as (_ & -> & _)|]. intros Hvalid. done.
Qed.

(** From the preview to the decision which of the two ways the deletion goes. *)
Lemma spend_steps rq p operation resumed k :
  sj_commands k.1 = [] -> held k -> nt_operation k.2 = Some (operation, resumed) -> confirmed k.2 p ->
  (pv_consumed_at (pw_row p) <> None -> resumed = true) ->
  (pv_consumed_at (pw_row p) = None -> exists now, now ∈ nt_clock k.2 /\ (now < pv_expires_at (pw_row p))%Z) ->
  dsteps (consume rq payload p) k (fun _ k' => spending p operation resumed k' /\ k'.1 = k.1).
Proof.
  intros Hc Hk Hop Hconf Hres Htime. unfold consume. destruct (pv_consumed_at (pw_row p)) as [t|] eqn:Ht; simpl.
  { split; [|done]. split_and!; [apply Hk..|done|done|]. right. rewrite Hres in Hop by done. exists operation. by rewrite Ht. }
  destruct k as [g h]. split; [done|]. intros now _. split.
  { exists (pw_row p). split_and!; [apply Hconf|done|apply Hk..]. }
  intros [[|[|n]]|e] _; [by apply dsteps_error| |by apply dsteps_error|by apply dsteps_interrupted].
  split; [|done]. split_and!; [apply Hk..|done|exact Hconf|]. left. split_and!; [done|done|]. destruct (Htime eq_refl) as (t & H1 & H2).
  exists t. split; [|done]. simpl. set_solver.
Qed.

Lemma resume_unregistered_steps rq p operation k :
  sj_commands k.1 = [] -> held k -> nt_operation k.2 = Some (operation, true) -> nt_gone k.2 = true ->
  dsteps (resume_unregistered rq app_id operation payload p) k (fun _ k' => sj_pending k'.1 = false).
Proof.
  intros Hc Hk Hop Hgone. unfold resume_unregistered. destruct (pv_consumed_at (pw_row p)); cbn [is_none].
  2:{ eapply (dsteps_bind _ _ _ (fun _ _ => False)); [by apply dsteps_error|done]. }
  eapply (dsteps_bind _ _ _ (fun _ k' => k' = k)); [done|]. intros ? [] ->.
  eapply (dsteps_bind _ _ _ (fun _ k' => renamed operation k')).
  { destruct k as [g h]. split; [done|]. intros [metadata|e] _; [|by apply dsteps_interrupted].
    unfold renamed. simpl in *. rewrite Hgone. split_and!; [apply Hk|by exists true|done]. }
  intros k1 metadata Hk1. apply dsteps_test; [intros P; apply dsteps_interrupted|]. intros _.
  split; [done|]. intros joined _. set (k2 := keep k1 _). assert (renamed operation k2) as Hk2 by done. clearbody k2.
  apply (dsteps_test joined (return_interrupted rq)); [intros P; apply dsteps_interrupted|]. intros _. by apply unregistered_steps.
Qed.

(** The directory is there: facts, preview, container, rename, answer. *)
Lemma present_steps rq p operation resumed k :
  sj_commands k.1 = [] -> held k -> nt_operation k.2 = Some (operation, resumed) -> confirmed k.2 p ->
  (pv_consumed_at (pw_row p) <> None -> resumed = true) ->
  dsteps (proceed key_material apps_directory rq app_id payload operation resumed p) k (fun _ k' => sj_pending k'.1 = false).
Proof.
  intros Hc Hk Hop Hconf Hres. unfold proceed.
  eapply (dsteps_bind _ _ _ (fun _ k' => (sj_commands k'.1 = [] /\ held k' /\ nt_operation k'.2 = Some (operation, resumed) /\ confirmed k'.2 p)
    /\ (pv_consumed_at (pw_row p) = None -> exists now, now ∈ nt_clock k'.2 /\ (now < pv_expires_at (pw_row p))%Z))).
  { unfold not_expired. destruct (pv_consumed_at (pw_row p)); [done|]. destruct k as [g h]. split; [done|]. intros now _. simpl.
    destruct (Z.leb_spec (pv_expires_at (pw_row p)) now); [by apply dsteps_error|]. split; [done|]. intros _. exists now. simpl. set_solver. }
  clear Hc Hk Hop Hconf k. intros k [] [(Hc & Hk & Hop & Hconf) Htime].
  eapply (dsteps_bind _ _ _ (fun s k' => later k k' /\ exists r, ds_app s = catalog_entry r /\ scanned project app_id r k'.1 /\ facts_of r (ds_facts s)
       /\ listed (catalog_entry r) true (ds_container s) k'.1 /\ df_container_ids (ds_facts s) = option_list (cr_id <$> ds_container s))).
  { eapply dsteps_looked; [apply looks_snapshot|apply snapshot_found|]. intros k' [s|e] L Hs; [by split|].
    by eapply dsteps_error, lasting_commands. }
  intros k1 s (L1 & r & Happ & Hr & Hf & Hl & Hids). apply (lasting_commands _ _ _ L1) in Hc. apply (lasting_held _ _ L1) in Hk.
  apply (lasting_operation _ _ _ L1) in Hop. apply (lasting_confirmed _ _ _ L1) in Hconf.
  assert (pv_consumed_at (pw_row p) = None -> exists now, now ∈ nt_clock k1.2 /\ (now < pv_expires_at (pw_row p))%Z) as Htime1.
  { intros Hn. destruct L1 as [_ Hs]. injection Hs. intros. destruct (Htime Hn) as (t & Ht). exists t. congruence. }
  apply dsteps_test; [intros P; by apply dsteps_error|]. intros Hmatch.
  eapply dsteps_bind; [by apply (spend_steps rq p operation resumed)|]. intros k2 [] [Hs Hk2].
  eapply (dsteps_bind _ _ _ (fun _ => spending p operation resumed)).
  { destruct (_ && negb _ && negb _) eqn:Hrm; [|done]. apply andb_prop in Hrm as [[Hrm _]%andb_prop Happlied%negb_true_iff].
    rewrite Happlied in Hmatch. apply (remove_container_steps rq p operation resumed r); [done|]. split_and!; [done|by rewrite Hk2|].
    split_and!; [by rewrite Hk2|done|exists (ds_container s); split; [by rewrite Hk2|done]|done]. }
  intros k3 [] Hs3. eapply dsteps_bind; [by apply (unregister_steps _ _ _ resumed)|]. intros k4 [] Hk4. by apply unregistered_steps.
Qed.

Lemma perform_deletion_steps rq operation resumed k :
  sj_commands k.1 = [] -> nt_operation k.2 = Some (operation, resumed) ->
  dsteps (perform_deletion key_material apps_directory rq app_id session_id payload operation resumed) k (fun _ k' => sj_pending k'.1 = false).
Proof.
  intros Hc Hop. destruct k as [g h]. split; [done|]. intros [] _.
  eapply (dsteps_bind _ _ _ (fun _ k' => sj_commands k'.1 = [] /\ held k' /\ nt_operation k'.2 = Some (operation, resumed))).
  { split; [done|]. intros [] _; [done|]. by apply dsteps_error. }
  clear Hc Hop. intros [g1 h1] [] (Hc & Hk & Hop).
  eapply (dsteps_bind _ _ _ (fun _ k' => sj_commands k'.1 = [] /\ held k' /\ nt_operation k'.2 = Some (operation, resumed))).
  { split; [done|]. intros [n|e] _; [done|by apply dsteps_interrupted]. }
  clear Hc Hk Hop g1 h1. intros k1 n (Hc & Hk & Hop). apply dsteps_test; [intros P; by apply dsteps_error|]. intros _.
  eapply dsteps_bind; [by apply read_preview_steps|]. intros k2 p (Hconf & Hk2 & Hg2 & Hop2 & _).
  rewrite <- Hg2 in Hc. rewrite <- Hop2 in Hop. clear Hk Hg2 Hop2 k1. destruct k2 as [g2 h2].
  eapply (dsteps_bind _ _ _ (fun there k3 => sj_commands k3.1 = [] /\ held k3 /\ nt_operation k3.2 = Some (operation, resumed)
    /\ confirmed k3.2 p /\ (there = false -> nt_gone k3.2 = true))).
  { split; [done|]. by intros [] _. }
  clear Hc Hk2 Hop Hconf. intros k3 there (Hc3 & Hk3 & Hop3 & Hconf3 & Hgone). destruct (resumed && negb there) eqn:Hresume.
  { apply andb_prop in Hresume as [-> Hth%negb_true_iff]. apply resume_unregistered_steps; auto. }
  apply (dsteps_test there (return_error rq "APP_NOT_FOUND" 404)); [intros P; by apply dsteps_error|]. intros _.
  eapply (dsteps_bind _ _ _ (fun _ k' => k' = k3 /\ (pv_consumed_at (pw_row p) <> None -> resumed = true))).
  { destruct (pv_consumed_at (pw_row p)), resumed; try done. by apply dsteps_error. }
  intros ? [] [-> Hres]. by apply present_steps.
Qed.

Lemma delete_app_safe request_id header :
  dsafe (delete_app key_material apps_directory request_id app_id session_id header (Ok payload)) nothing_kept (fun k _ => sj_pending k.1 = false).
Proof.
  unfold delete_app. apply safe_bind. apply (safe_mono _ _ _ _ _ _ (fun k r => sj_pending k.1 = false)); [|done]. simpl.
  destruct (idempotency_key header) as [raw_key|e]; [|done]. split; [done|]. intros [[operation|operation|operation status body]|e] _.
  - eapply safe_mono; [by apply (perform_deletion_steps (MkRequest _ _ _) operation false)|by intros k' [|]].
  - eapply safe_mono; [by apply (perform_deletion_steps (MkRequest _ _ _) operation true)|by intros k' [|]].
  - simpl. split; [done|]. intros [] _. split; [done|]. intros [proved|e] _; simpl.
    + case_bool_decide as Hin; [|by split; [done|]; intros x _].
      eapply (safe_mono _ _ _ _ _ _ (fun k r => match r with Ok _ => sj_pending k.1 = false | Err _ => sj_pending k.1 = false end));
        [|by intros k' [|]].
      eapply (dsteps_bind _ _ _ (fun _ k' => sj_pending k'.1 = false)); [|by intros k' [] Hk]. eapply dsteps_bind; [apply publish_steps|].
      intros k publication ((Hcat & _ & _ & Hproved & Hpend) & Hcl). 
      eapply dsteps_mono; [apply (finalize_steps operation)|done]; [by rewrite Hcat|done|by rewrite Hpend|right; by rewrite Hproved].
    + split; [done|]. intros x _. split; [done|]. by intros [] _.
  - done.
Qed.
End safety.
