(* ===== verification/DeletionTheorems.v ===== *)
(** * DeletionTheorems: guarantees of the deletion of an application

    Over every trace of a request, and one thing deletions cannot do. *)

From S2P Require Import Prelude Text Reference Models Ownership Effects Codec Names Drafts DraftCanonical DraftTheorems DraftStored Compose Database Ledger PollStates Idempotency Scheduler Auth FileSystem StoreBase StoreTheorems Recovery Verifier Requests Resources Actions ActionSafety ActionTheorems ActionDemo Deletion DeletionSafety.

Definition kept (tr : list (obs hev)) : Kept := foldl keep nothing_kept tr.

(** ** Where the journal has its entries from *)

Lemma kept_seen tr : (kept tr).1 = shown tr.
Proof.
  unfold kept, shown. change nothing_seen with (nothing_kept.1). generalize nothing_kept as k.
  induction tr as [|o tr IH]; intros k; [done|]. simpl. apply IH.
Qed.

Lemma report_source tr report : report ∈ sj_reports (shown tr) -> Obs ScanReadOnly (Ok report) ∈ tr.
Proof.
  unfold shown. induction tr as [|[X e x] tr IH] using rev_ind; [by intros ?%not_elem_of_nil|]. rewrite foldl_app. cbn [foldl].
  intros H. apply elem_of_app. destruct e; simpl in H; repeat case_match; try (left; by apply IH);
    simpl in H; try (by apply not_elem_of_nil in H). apply elem_of_cons in H as [<-|H]; [right; set_solver|left; by apply IH].
Qed.

Lemma latest_source tr project l : nt_latest (kept tr).2 = Some (project, l) -> Obs (ListContainers project) (Ok l) ∈ tr.
Proof.
  unfold kept. destruct tr as [|[X e x] tr _] using rev_ind; [done|]. rewrite foldl_app. cbn. intros H. apply elem_of_app. right.
  destruct e; try done. cbn in H. destruct x; [|done]. simplify_eq. by left.
Qed.

Lemma gone_step h o : nt_gone (marks h o) = true -> nt_gone h = true \/ exists app, o = Obs (AppDirectoryExists app) false.
Proof. destruct o as [X e x]. destruct e; simpl; repeat case_match; simpl; eauto. Qed.

Lemma trashed_step h o :
  nt_trashed (marks h o) = true ->
  nt_trashed h = true \/ nt_gone h = true \/ exists app operation, o = Obs (Tombstone app operation) (Ok tt).
Proof.
  destruct o as [X e x]. destruct e; simpl; repeat case_match; simpl; eauto; intros _.
  - destruct x as [[]|]; [|done]. eauto.
  - bools. eauto.
Qed.

Lemma gone_source tr : nt_gone (kept tr).2 = true -> exists app, Obs (AppDirectoryExists app) false ∈ tr.
Proof.
  unfold kept. induction tr as [|o tr IH] using rev_ind; [done|]. rewrite foldl_app. cbn. intros [H|[app ->]]%gone_step.
  - destruct (IH H) as [app Hin]. exists app. set_solver.
  - exists app. set_solver.
Qed.

Lemma trashed_source tr : nt_trashed (kept tr).2 = true ->
  (exists app operation, Obs (Tombstone app operation) (Ok tt) ∈ tr) \/ (exists app, Obs (AppDirectoryExists app) false ∈ tr).
Proof.
  induction tr as [|o tr IH] using rev_ind; [done|]. intros H. unfold kept in H. rewrite foldl_app in H. cbn in H.
  apply trashed_step in H as [H|[H|(app & operation & ->)]].
  - destruct (IH H) as [(app & op & Hin)|(app & Hin)]; [left; exists app, op|right; exists app]; set_solver.
  - right. apply gone_source in H as [app Hin]. exists app. set_solver.
  - left. exists app, operation. set_solver.
Qed.

Section theorems.
Context {UT : UuidText} {ST : StoreText} {CR : Crypto} {CT : ComposeText} {AJ : ActionJson} {DJ : DeletionJson}.
Context (key_material apps_directory : string).

Abbreviation deletion_of := (delete_app key_material apps_directory).

(** The application keeps its project while the request runs. *)
Definition fairly_kept (project : string) (app_id : Uuid) (tr : list (obs hev)) : Prop :=
  relied keep (deletion_promised project app_id) nothing_kept tr.

Lemma deletion_call project request_id app_id session_id header payload tr1 X (e : hev X) x tr2 o :
  trace (deletion_of request_id app_id session_id header (Ok payload)) (tr1 ++ Obs e x :: tr2) o ->
  fairly_kept project app_id (tr1 ++ Obs e x :: tr2) ->
  deletion_acceptable apps_directory project app_id session_id payload X (kept tr1) e.
Proof.
  intros Ht Hr. destruct (safe_sound _ _ _ _ _ _ _ _ _
    (delete_app_safe key_material apps_directory project app_id session_id payload request_id header) Ht Hr) as [Hc _].
  by apply (Hc tr1 (Obs e x) tr2).
Qed.


(** C12: a deletion runs a command of Docker Compose only if the removal of the
    container was asked for: first one stop, under both guards and a durable
    marker, for the one container of the active release which a listing shows
    and which the confirmed facts name, with its bind sources checked; then,
    after that stop succeeded, one removal with the same context. *)
Theorem removal_guarded project request_id app_id session_id header payload tr1 command context x tr2 o :
  trace (deletion_of request_id app_id session_id header (Ok payload)) (tr1 ++ Obs (RunCompose command context) x :: tr2) o ->
  fairly_kept project app_id (tr1 ++ Obs (RunCompose command context) x :: tr2) ->
  deletion_command_acceptable apps_directory project app_id session_id payload (kept tr1) command context.
Proof. intros Ht Hr. exact (deletion_call _ _ _ _ _ _ _ _ _ _ _ _ Ht Hr). Qed.

(** A success is recorded only once the tombstone is there, a failure only if
    no command was run; and a tombstone is finalized only after the success is
    recorded and the operational records are removed. *)
Theorem deletion_answers project request_id app_id session_id header payload tr o :
  trace (deletion_of request_id app_id session_id header (Ok payload)) tr o -> fairly_kept project app_id tr ->
  (forall tr1 route key status body code id x tr2, tr = tr1 ++ Obs (FinishKey route key status body code id) x :: tr2 ->
     match code with
     | None => status = 200%Z /\ nt_trashed (kept tr1).2 = true
     | Some _ => sj_commands (kept tr1).1 = []
     end)
  /\ (forall tr1 app operation x tr2, tr = tr1 ++ Obs (FinalizeUnregistration app operation) x :: tr2 ->
     app = app_id /\ finalize_acceptable app_id (kept tr1) operation).
Proof.
  intros Ht Hr. split; intros; subst tr; exact (deletion_call _ _ _ _ _ _ _ _ _ _ _ _ Ht Hr).
Qed.

(** Every scan shows the application with another active release than that of
    its only container. *)
Definition container_of_no_active_release (app_id : Uuid) (c : ContainerRecord) (tr : list (obs hev)) : Prop :=
  (forall project l, Obs (ListContainers project) (Ok l) ∈ tr -> l = [c])
  /\ forall report r, Obs ScanReadOnly (Ok report) ∈ tr -> r ∈ rr_valid_apps report -> ra_app_id r = app_id ->
       validate_identity (cr_labels c) (catalog_entry r) = None.

(** An application whose only container is of a pending release cannot be
    deleted: no request moves its directory into the trash, and none records
    success but one that found the directory already gone; yet the preview
    accepts such a container and hands out a token for the deletion. *)
Theorem pending_container_blocks_deletion project request_id app_id session_id header payload c tr o :
  trace (deletion_of request_id app_id session_id header (Ok payload)) tr o -> fairly_kept project app_id tr ->
  container_of_no_active_release app_id c tr ->
  (forall app operation x, Obs (Tombstone app operation) x ∉ tr)
  /\ (forall route key status body id x, Obs (FinishKey route key status body None id) x ∈ tr ->
       exists app, Obs (AppDirectoryExists app) false ∈ tr).
Proof.
  intros Ht Hr [Hlist Hscan]. assert (forall app operation x, Obs (Tombstone app operation) x ∉ tr) as Hno.
  { intros app operation x Hin. apply list_elem_of_split in Hin as (tr1 & tr2 & ->).
    destruct (deletion_call _ _ _ _ _ _ _ _ _ _ _ _ Ht Hr) as (_ & _ & _ & p & r & f & l & oc & _ & _ & Hf & _ & Hlast & Hclass & _).
    apply latest_source in Hlast. assert (l = [c]) as -> by (apply (Hlist project); set_solver).
    destruct Hf as (((report & Hrep & Hr') & _ & Hid & _) & _). rewrite kept_seen in Hrep. apply report_source in Hrep.
    assert (validate_identity (cr_labels c) (catalog_entry r) = None) as Hv by (apply (Hscan report); set_solver).
    unfold classify_mutation_candidates in Hclass. simpl in Hclass. rewrite Hv in Hclass. done. }
  split; [exact Hno|]. intros route key status body id x Hin. apply list_elem_of_split in Hin as (tr1 & tr2 & ->).
  destruct (deletion_call _ _ _ _ _ _ _ _ _ _ _ _ Ht Hr) as [_ Htr]. apply trashed_source in Htr as [(app & op & Hin)|(app & Hin)].
  - exfalso. apply (Hno app op (Ok tt)). set_solver.
  - exists app. set_solver.
Qed.
End theorems.

(** ** An application deleted with its container on a concrete host

    The host of [ActionDemo], with the table of previews and a trash. The same
    application with its container belonging to a pending release can be
    previewed and not deleted. *)

#[local] Existing Instance binary_uuid_text.
#[local] Existing Instance demo_crypto.
#[local] Existing Instance store_text.
#[local] Existing Instance store_compose_text.
#[local] Existing Instance plain_action_json.

(** ** The host *)

Record Trash := MkTrash {
  th_container : option Host;
  th_row : option (string * PreviewRow);
  th_trashed : bool;
}.

#[local] Instance eta_Trash : Eta Trash := fun w => MkTrash (th_container w) (th_row w) (th_trashed w).

(** The release of the container is pending, and there is no active one. *)
Definition pending_app : RecoveredApp :=
  MkRecoveredApp 7%N "blog" "Blog" 2 "solodock-blog" None None None None None (Some 10%N) (Some host_image) (Some 2%N) None
    (Some "ghcr.io/acme/blog:stable") (Some 2%N) (Some (cm_config_sha256 (nd_metadata host_draft))) DesiredRunning true 300 (Some 5%N) None 0.

Definition trash_serve (app : RecoveredApp) (X : Type) (e : hev X) (w : Trash) : X * Trash :=
  match e in hev X return X * Trash with
  | ScanReadOnly => (Ok (MkRecoveryReport (if th_trashed w then [] else [app]) []), w)
  | ListContainers _ => (Ok (option_list (host_container <$> th_container w)), w)
  | RunCompose CaRemove _ => (Ok tt, w <| th_container := None |>)
  | RunCompose _ _ => (Ok tt, w <| th_container := (fun c => (CsExited, c.2)) <$> th_container w |>)
  | AppDirectoryExists _ => (negb (th_trashed w), w)
  | Tombstone _ _ => (Ok tt, w <| th_trashed := true |>)
  | CatalogEntry _ => (if th_trashed w then None else Some (catalog_entry app), w)
  | WritePreview hash _ row _ => (Ok tt, w <| th_row := Some (hash, row) |>)
  | ReadPreview hash _ => (Ok (match th_row w with Some (hash', row) => if hash =? hash' then Some row else None | None => None end), w)
  | e => ((host_serve _ e (CsRunning, 1)).1, w)
  end.

Definition trash_world : Trash := MkTrash (Some (CsRunning, 1)) None false.

(** ** The JSON of the facts that occur *)

Definition facts_seen (app : RecoveredApp) (remove : bool) : option DeletionFacts :=
  match (run (trash_serve app) (canonical_deletion_snapshot "secret" "/apps" 7%N remove) trash_world).1 with
  | Some (Ok snapshot) => Some (ds_facts snapshot)
  | _ => None
  end.

#[local] Instance RetainedNamedResource_eq_dec : EqDecision RetainedNamedResource.
Proof. solve_decision. Defined.
#[local] Instance RetainedNetwork_eq_dec : EqDecision RetainedNetwork.
Proof. solve_decision. Defined.
#[local] Instance RetainedBind_eq_dec : EqDecision RetainedBind.
Proof. solve_decision. Defined.
#[local] Instance RetainedManagedFile_eq_dec : EqDecision RetainedManagedFile.
Proof. solve_decision. Defined.
#[local] Instance RetainedResources_eq_dec : EqDecision RetainedResources.
Proof. solve_decision. Defined.
#[local] Instance DeletionFacts_eq_dec : EqDecision DeletionFacts.
Proof. solve_decision. Defined.

Definition facts_table : list (DeletionFacts * string) := Eval vm_compute in
  omap (fun '(f, s) => (fun f => (f, s)) <$> f)
    [(facts_seen host_app true, "a+"); (facts_seen host_app false, "a-"); (facts_seen pending_app true, "p+"); (facts_seen pending_app false, "p-")].

#[local] Instance table_deletion_json : DeletionJson := {|
  facts_json f := default "?" (snd <$> List.find (fun e => bool_decide (e.1 = f)) facts_table);
  facts_of_json s := fst <$> List.find (fun e => e.2 =? s) facts_table;
  ids_json ids := String.concat "," ids;
  ids_of_json s := Some (if str_is_empty s then [] else [s]);
  delete_json r := if dl_container_removed r then "removed" else "unregistered";
  preview_response_json f token _ := token;
  delete_canonical route slug revision remove token := route +:+ slug;
|}.

(** ** Runs *)

Definition preview_request (app : RecoveredApp) (remove : bool) := run (trash_serve app)
  (deletion_preview "secret" "/apps" 98%N 7%N 3%N (Ok (MkDeletionPreviewRequest remove))) trash_world.
Definition previewed (app : RecoveredApp) (remove : bool) : Trash := (preview_request app remove).2.
Definition delete_payload (remove : bool) : DeleteRequest := MkDeleteRequest "token" "blog" (Some 2%N) remove.
Definition deletion (remove : bool) : prog hev reply :=
  delete_app "secret" "/apps" 99%N 7%N 3%N (Some (Some "key")) (Ok (delete_payload remove)).
Definition deletion_log (app : RecoveredApp) (remove : bool) : list (obs hev) :=
  run_log (trash_serve app) (deletion remove) (previewed app remove).

Example deleted_with_container :
  (preview_request host_app true).1 = Some (Ok (MkResponse 200 None "token"))
  /\ run (trash_serve host_app) (deletion true) (previewed host_app true)
     = (Some (Ok (MkResponse 200 None "removed")), (previewed host_app true) <| th_container := None |> <| th_trashed := true |>)
  /\ commands_of (deletion_log host_app true) = [CaStop; CaRemove].
Proof. split; [|split]; by vm_compute. Qed.

Example deleted_beside_container :
  run (trash_serve host_app) (deletion false) (previewed host_app false)
  = (Some (Ok (MkResponse 200 None "unregistered")), (previewed host_app false) <| th_trashed := true |>).
Proof. by vm_compute. Qed.

(** The preview of the application with a pending release is answered, its
    deletion is not. *)
Example pending_previewed :
  (preview_request pending_app false).1 = Some (Ok (MkResponse 200 None "token"))
  /\ (preview_request pending_app true).1 = Some (Ok (MkResponse 200 None "token"))
  /\ run (trash_serve pending_app) (deletion false) (previewed pending_app false)
     = (Some (Err (internal_error 99%N)), previewed pending_app false)
  /\ run (trash_serve pending_app) (deletion true) (previewed pending_app true)
     = (Some (Ok (MkResponse 409 None "APP_DEPLOY_REQUIRED")), previewed pending_app true).
Proof. split_and!; by vm_compute. Qed.

(** ** Witnesses *)

Lemma trash_fair {A} app (p : prog hev A) w k :
  ra_project_name app = "solodock-blog" -> relied keep (deletion_promised "solodock-blog" 7%N) k (run_log (trash_serve app) p w).
Proof.
  intros Happ. revert w k. induction p as [a|X e c IH|]; intros w k; [done| |done]. cbn [run_log].
  destruct (trash_serve app X e w) as [x w'] eqn:He. split; [|apply IH]. destruct e; simpl in *; simplify_eq; try done.
  intros report [= <-]. destruct (th_trashed w'); by repeat constructor.
Qed.

Definition is_removal (o : obs hev) : bool := match o with Obs (RunCompose CaRemove _) _ => true | _ => false end.


Lemma deletion_removes : exists l context x r, deletion_log host_app true = l ++ Obs (RunCompose CaRemove context) x :: r.
Proof.
  destruct (first_call is_removal (deletion_log host_app true)) as (l & [X e x] & r & -> & Hc); [by vm_compute|].
  destruct e; try done.
  by destruct action; try done; eexists _, _, _, _.
Qed.


Lemma removal_guarded_witness :
  exists l context, deletion_command_acceptable "/apps" "solodock-blog" 7%N 3%N (delete_payload true) (kept l) CaRemove context.
Proof.
  destruct deletion_removes as (l & context & x & r & Hlog). exists l, context.
  pose proof (run_trace (trash_serve host_app) (deletion true) (previewed host_app true)) as Ht.
  pose proof (trash_fair host_app (deletion true) (previewed host_app true) nothing_kept eq_refl) as Hf.
  change (run_log (trash_serve host_app) (deletion true) (previewed host_app true)) with (deletion_log host_app true) in Ht, Hf.
  rewrite Hlog in Ht, Hf. exact (removal_guarded "secret" "/apps" _ _ _ _ _ _ _ _ _ _ _ _ Ht Hf).
Defined.

(** The host of the pending application, whose container nothing removes. *)
Definition pending_serve (X : Type) (e : hev X) (w : Trash) : X * Trash :=
  match e in hev X return X * Trash with
  | RunCompose _ _ => (Ok tt, w)
  | Tombstone _ _ => (Ok tt, w)
  | e => trash_serve pending_app _ e w
  end.

Definition shows_pending (o : obs hev) : Prop :=
  match o with
  | Obs e x => match e in hev X return X -> Prop with
      | ListContainers _ => fun x => x = Ok [host_container (CsRunning, 1)]
      | ScanReadOnly => fun x => x = Ok (MkRecoveryReport [pending_app] [])
      | _ => fun _ => True
      end x
  end.

Lemma pending_shown {A} (p : prog hev A) w :
  th_container w = Some (CsRunning, 1) -> th_trashed w = false -> Forall shows_pending (run_log pending_serve p w).
Proof.
  revert w. induction p as [a|X e c IH|]; intros w Hc Ht; [constructor| |constructor]. cbn [run_log].
  destruct (pending_serve X e w) as [x w'] eqn:Hx. constructor; [|apply IH].
  all: destruct e; simpl in Hx; simplify_eq; simpl; try done; by rewrite ?Hc, ?Ht.
Qed.

Lemma pending_fair {A} (p : prog hev A) w k : relied keep (deletion_promised "solodock-blog" 7%N) k (run_log pending_serve p w).
Proof.
  revert w k. induction p as [a|X e c IH|]; intros w k; [done| |done]. cbn [run_log].
  destruct (pending_serve X e w) as [x w'] eqn:He. split; [|apply IH]. destruct e; simpl in *; simplify_eq; try done.
  intros report [= <-]. destruct (th_trashed w'); by repeat constructor.
Qed.

Definition pending_log : list (obs hev) := run_log pending_serve (deletion false) (previewed pending_app false).

Lemma pending_container_blocks_deletion_witness :
  (preview_request pending_app false).1 = Some (Ok (MkResponse 200 None "token"))
  /\ forall app operation x, Obs (Tombstone app operation) x ∉ pending_log.
Proof.
  split; [by vm_compute|].
  apply (pending_container_blocks_deletion "secret" "/apps" "solodock-blog" 99%N 7%N 3%N (Some (Some "key")) (delete_payload false)
    (host_container (CsRunning, 1)) pending_log _ (run_trace _ _ _) (pending_fair _ _ _)).
  pose proof (pending_shown (deletion false) (previewed pending_app false) ltac:(by vm_compute) ltac:(by vm_compute)) as Hs.
  change (run_log _ _ _) with pending_log in Hs. rewrite list.Forall_forall in Hs. split.
  - intros project l Hin. apply Hs in Hin. simpl in Hin. congruence.
  - intros report r Hin Hr Hid. apply Hs in Hin. simpl in Hin. simplify_eq. apply list_elem_of_singleton in Hr as ->. by vm_compute.
Defined.
