(* ===== verification/DraftHandlers.v ===== *)
(** * DraftHandlers: creating an application and changing its draft

    [create] and [update_draft] of [src/api/mutations.rs], with the checks of
    the draft against the registry credential and against the bind sources of
    the other applications. A handler that leaves by [?] after it has claimed
    its key answers without recording anything. *)

From S2P Require Import Prelude Text Reference Models Ownership Effects Codec Names Drafts Database Ledger PollStates Idempotency Scheduler Auth Compose FileSystem StoreBase Recovery Requests Resources Actions Deletion.

(** ** Data *)

Record UpdateDraftRequest := MkUpdateDraftRequest { ud_expected_revision : option Uuid; ud_draft : DraftInput }.

Record AppMutationDetail := MkAppMutationDetail {
  md_id : Uuid;
  md_slug : string;
  md_display_name : string;
  md_project_name : string;
  md_config_revision : option Uuid;
  md_config_sha256 : option string;
  md_desired_state : DesiredState;
  md_stop_grace_period_seconds : option Z;
  md_deployment_status : string;
  md_warnings : list string;
}.

Record MutationResponse := MkMutationResponse {
  mr_app : AppMutationDetail; mr_idempotency_replayed : bool; mr_projection_warning : option string }.

(** The JSON of the fingerprinted requests and of the answers. *)
Class DraftJson := {
  create_canonical : string -> string -> string;
  update_canonical : string -> option Uuid -> DraftInput -> string;
  mutation_json : MutationResponse -> string;
  invalid_json : string -> Uuid -> list ValidationIssue -> string;
}.

(** ** Answers *)

Definition domain_message (e : DomainError) : string :=
  match e with
  | ConfigInvalid => "configuration is invalid"
  | ConfigQuotaExceeded => "configuration quota exceeded"
  | EnvDuplicate => "environment key is duplicated"
  | SecretOperationRequired => "secret operation is required"
  | FileTargetConflict => "managed file target conflicts with another mount"
  | BindDisabled => "bind mounts are disabled"
  | BindOutsideAllowedRoot => "bind source is outside an allowed root"
  | BindSymlink => "bind source contains a symlink"
  | BindChanged => "bind source changed"
  | BindSourceAncestorConflict => "read-write bind source is an ancestor of another bind source"
  | BindRwAckRequired => "read-write bind requires acknowledgement"
  | PortConflict => "published port conflicts with another port"
  | FeatureNotAvailable => "feature is not available"
  | DomainInternal => "internal validation error"
  end.

Definition bind_inventory_draft_error : DraftValidationError :=
  At ConfigInvalid "binds" INCOMPLETE "Existing application bind inventory could not be verified".

Definition bind_draft_error (error : DomainError) : DraftValidationError :=
  At error "binds" (domain_public_code error) (domain_message error).

Definition detail (metadata : AppMetadata) (draft : option NormalizedDraft) : AppMutationDetail :=
  MkAppMutationDetail (am_id metadata) (am_slug metadata) (am_display_name metadata) (project_name_of metadata)
    (am_draft_revision metadata) (am_draft_config_sha256 metadata) (am_desired_state metadata)
    (nd_stop_grace_period_seconds <$> draft)
    (if is_some draft then "DEPLOY_REQUIRED" else "UNCONFIGURED")
    (if is_some_and draft (fun draft => existsb (fun bind => negb (bm_readonly bind)) (nd_binds draft) || negb (is_nil (nd_volumes draft)))
     then ["DATA_NOT_ROLLED_BACK"] else []).

(** [sort_unstable] and [dedup] *)
Fixpoint dedup (l : list Uuid) : list Uuid :=
  match l with
  | a :: ((b :: _) as rest) => if a =? b then dedup rest else a :: dedup rest
  | _ => l
  end.
Definition revisions_in_use (recovered : RecoveredApp) : list Uuid :=
  dedup (sort_by N.leb (option_list (ra_active_config_revision recovered) ++ option_list (ra_pending_config_revision recovered))).

Section handlers.
Context {UT : UuidText} {ST : StoreText} {CR : Crypto} {AJ : ActionJson} {DJ : DraftJson}.
(** The registry services are configured. *)
Context (key_material : string) (registry_configured : bool).

Definition finish_draft_validation_error (rq : Request) (error : DraftValidationError) : prog hev reply :=
  let code := domain_public_code (dv_error error) in
  finish rq 422 (invalid_json code (rq_id rq) [MkValidationIssue (dv_path error) (dv_code error) (dv_message error)]) (Some code).

(** [p?]: nothing is recorded. *)
Definition unrecorded {A} (p : eprog hev ApiError A) : handler A :=
  prog_bind p (fun r => match r with Ok a => eret a | Err error => Ret (Err (Err error)) end).

Definition or_invalid {A} (rq : Request) (p : eprog hev DraftValidationError A) : handler A :=
  prog_bind p (fun r => match r with Ok a => eret a | Err error => leave (finish_draft_validation_error rq error) end).

Definition respond (rq : Request) (status : Z) (metadata : AppMetadata) (draft : option NormalizedDraft) : handler reply :=
  warning <- refresh ;;
  leave (finish_json rq status (mutation_json (MkMutationResponse (detail metadata draft) false warning))).

(** ** Checks of a draft *)

Definition validate_registry_credential (draft : NormalizedDraft) (request_id : Uuid) : eprog hev ApiError unit :=
  match nd_credential_ref draft with
  | None => eret tt
  | Some id =>
      image <- lift (map_err (fun _ => validation request_id) (parse (nd_discovery_image_ref draft))) ;;
      lift (refuse_if (negb registry_configured) (compose_error "FEATURE_NOT_AVAILABLE" request_id)) ;;;
      registry <- try_call (LoadCredential id)
                    (fun _ => new_error 422 "CREDENTIAL_NOT_FOUND" "The registry credential was not found" request_id) ;;
      lift (refuse_if (registry ≠? logical_registry image)
              (new_error 422 "REGISTRY_CREDENTIAL_MISMATCH" "The registry credential does not match the image registry" request_id))
  end.

Fixpoint revision_sources (allowed_roots : list string) (app_id : Uuid) (revisions : list Uuid)
    : eprog hev DraftValidationError (list BindSafetySource) :=
  match revisions with
  | [] => eret []
  | revision :: rest =>
      loaded <- try_call (LoadConfig app_id revision) (fun _ => bind_inventory_draft_error) ;;
      binds <- ask BindHosts ;;
      sources <- lift (map_err (fun _ => bind_inventory_draft_error) (bind_safety_sources binds.1 (lv_metadata loaded) allowed_roots false)) ;;
      others <- revision_sources allowed_roots app_id rest ;;
      eret (sources ++ others)
  end.

Fixpoint stored_sources (allowed_roots : list string) (apps : list RecoveredApp) : eprog hev DraftValidationError (list BindSafetySource) :=
  match apps with
  | [] => eret []
  | recovered :: rest =>
      sources <- revision_sources allowed_roots (ra_app_id recovered) (revisions_in_use recovered) ;;
      others <- stored_sources allowed_roots rest ;;
      eret (sources ++ others)
  end.

Definition validate_bind_plan_against_stored_apps (target_app_id : Uuid) (target : ConfigMetadata) : eprog hev DraftValidationError unit :=
  binds <- ask BindHosts ;;
  target_sources <- lift (map_err bind_draft_error (bind_safety_sources binds.1 target binds.2 true)) ;;
  report <- try_call ScanReadOnly (fun _ => bind_inventory_draft_error) ;;
  lift (refuse_if (negb (is_nil (rr_issues report))) bind_inventory_draft_error) ;;;
  existing <- stored_sources binds.2 (List.filter (fun r => ra_app_id r ≠? target_app_id) (rr_valid_apps report)) ;;
  lift (map_err bind_draft_error (validate_bind_plan target_sources existing)).

(** ** Creation *)

Definition create_route : string := "/api/v1/apps".

(** The application of this operation, without a draft. *)
Definition created_by (operation_id : Uuid) (existing : AppMetadata) : bool :=
  (am_last_operation_id existing =? operation_id) && is_none (am_draft_revision existing).

Definition accept_app (rq : Request) (operation_id : Uuid) : handler AppMetadata :=
  existing <- or_interrupt rq (try_call (ReadApp operation_id) id) ;;
  if am_last_operation_id existing ≠? operation_id then return_error rq "APP_SLUG_CONFLICT" 409 else eret existing.

(** The store failed, perhaps after the application was stored. *)
Definition accept_created (rq : Request) (operation_id : Uuid) : handler AppMetadata :=
  existing <- or_interrupt rq (try_call (ReadApp operation_id) id) ;;
  if created_by operation_id existing
  then or_interrupt rq (try_call (RepairDurability operation_id) id) ;;; eret existing
  else return_interrupted rq.

Definition store_app (rq : Request) (slug : string) (operation_id : Uuid) : handler AppMetadata :=
  now <- ask UtcNow ;;
  created <- ask (CreateApp operation_id slug operation_id now) ;;
  match created with
  | Ok metadata => eret metadata
  | Err SeAppConflict => accept_app rq operation_id
  | Err _ => accept_created rq operation_id
  end.

Definition perform_create (rq : Request) (slug : string) (operation_id : Uuid) : handler reply :=
  _ <- ask CatalogLock ;;
  existing <- ask (ReadApp operation_id) ;;
  (match existing with
   | Ok existing => if created_by operation_id existing then _ <- respond rq 201 existing None ;; eret tt else eret tt
   | Err _ => eret tt
   end) ;;;
  report <- or_interrupt rq (try_call ScanReadOnly id) ;;
  (if existsb (fun app => ra_slug app =? slug) (rr_valid_apps report) then return_error rq "APP_SLUG_CONFLICT" 409 else eret tt) ;;;
  guard rq (TryApp operation_id) ;;;
  metadata <- store_app rq slug operation_id ;;
  respond rq 201 metadata None.

Definition create (request_id : Uuid) (header : option (option string)) (payload : result bool string) : prog hev reply :=
  handle (
    slug <- lift (map_err (fun too_large => Err (json_error too_large request_id)) payload) ;;
    lift (refuse_if (negb (validate_slug_for_resource_schema slug RESOURCE_NAME_SCHEMA_CURRENT)) (Err (domain_error ConfigInvalid request_id))) ;;;
    raw_key <- lift (map_err (fun e => Err (idempotency_error e request_id)) (idempotency_key header)) ;;
    claim <- try_call (ClaimKey create_route raw_key (fingerprint key_material (create_canonical create_route slug)) request_id)
               (fun e => Err (idempotency_error e request_id)) ;;
    let rq := MkRequest create_route raw_key request_id in
    match claim with
    | Replay _ status body => _ <- refresh ;; eret (replay_recorded status body)
    | New operation_id | Resume operation_id => perform_create rq slug operation_id
    end).

(** ** The draft *)

Definition draft_route (app_id : Uuid) : string := "/api/v1/apps/" +:+ uuid_to_string app_id +:+ "/draft".

(** This operation has already stored its draft. *)
Definition stored_by (operation_id : Uuid) (existing : AppMetadata) : bool :=
  (am_last_operation_id existing =? operation_id) && (am_draft_revision existing =? Some operation_id).

Definition answer_stored (rq : Request) (app_id operation_id : Uuid) (current : AppMetadata) : handler reply :=
  loaded <- or_interrupt rq (try_call (LoadConfig app_id operation_id) id) ;;
  image <- unrecorded (lift (ok_or (am_discovery_image_ref current) (conflict "APP_UNCONFIGURED" (rq_id rq)))) ;;
  binds <- ask BindHosts ;;
  draft <- or_interrupt rq (lift (normalize_verified canonical_json binds.1 loaded (am_display_name current) image (am_credential_ref current)
                                    (am_auto_deploy_enabled current) (am_poll_interval_seconds current) (integrity_key key_material) binds.2)) ;;
  respond rq 200 current (Some draft).

Definition existing_secrets (rq : Request) (app_id : Uuid) (expected : option Uuid) : handler ExistingSecrets :=
  match expected with
  | Some revision => loaded <- or_interrupt rq (try_call (LoadConfig app_id revision) id) ;; eret (lv_secrets loaded)
  | None => eret (MkExistingSecrets ∅ ∅ ∅)
  end.

(** A revision of this name is there: it counts if this operation has stored it. *)
Definition accept_conflicting (rq : Request) (app_id operation_id : Uuid) : handler AppMetadata :=
  existing <- or_interrupt rq (try_call (ReadApp app_id) id) ;;
  if am_last_operation_id existing ≠? operation_id then return_error rq "APP_REVISION_STALE" 409 else eret existing.

(** The store failed, perhaps after the draft was stored. *)
Definition accept_stored (rq : Request) (app_id operation_id : Uuid) : handler AppMetadata :=
  existing <- or_interrupt rq (try_call (ReadApp app_id) id) ;;
  if stored_by operation_id existing
  then or_interrupt rq (try_call (RepairDurability app_id) id) ;;; eret existing
  else return_interrupted rq.

Definition store_draft (rq : Request) (app_id operation_id : Uuid) (expected : option Uuid) (draft : NormalizedDraft) : handler AppMetadata :=
  now <- ask UtcNow ;;
  updated <- ask (UpdateDraft app_id expected operation_id operation_id draft now) ;;
  match updated with
  | Ok metadata => eret metadata
  | Err SeRevisionStale => return_error rq "APP_REVISION_STALE" 409
  | Err SeConfigRevisionConflict => accept_conflicting rq app_id operation_id
  | Err _ => accept_stored rq app_id operation_id
  end.

Definition check_draft (rq : Request) (app_id : Uuid) (payload : UpdateDraftRequest) : handler NormalizedDraft :=
  existing <- existing_secrets rq app_id (ud_expected_revision payload) ;;
  binds <- ask BindHosts ;;
  draft <- or_invalid rq (lift (normalize_draft_with_options canonical_json binds.1 (ud_draft payload) existing (integrity_key key_material) binds.2 true)) ;;
  unrecorded (validate_registry_credential draft (rq_id rq)) ;;;
  or_invalid rq (validate_bind_plan_against_stored_apps app_id (nd_metadata draft)) ;;;
  eret draft.

Definition perform_update (rq : Request) (app_id : Uuid) (payload : UpdateDraftRequest) (operation_id : Uuid) : handler reply :=
  _ <- ask CatalogLock ;;
  guard rq (TryApp app_id) ;;;
  current <- ask (ReadApp app_id) ;;
  current <- (match current with
              | Ok current => eret current
              | Err (SeIo NotFound) => return_error rq "APP_NOT_FOUND" 404
              | Err _ => return_interrupted rq
              end) ;;
  (if negb (am_auto_deploy_enabled current) && di_auto_deploy_enabled (ud_draft payload) && negb (di_auto_deploy_acknowledged (ud_draft payload))
   then return_error rq "AUTO_DEPLOY_ACK_REQUIRED" 422 else eret tt) ;;;
  (if stored_by operation_id current then _ <- answer_stored rq app_id operation_id current ;; eret tt else eret tt) ;;;
  pending <- ask (ReadLink app_id "pending") ;;
  (match pending with
   | Ok (Some _) => return_error rq "DEPLOYMENT_PENDING" 409
   | Ok None => eret tt
   | Err _ => return_interrupted rq
   end) ;;;
  (if am_draft_revision current ≠? ud_expected_revision payload then return_error rq "APP_REVISION_STALE" 409 else eret tt) ;;;
  draft <- check_draft rq app_id payload ;;
  metadata <- store_draft rq app_id operation_id (ud_expected_revision payload) draft ;;
  respond rq 200 metadata (Some draft).

Definition update_draft (request_id app_id : Uuid) (header : option (option string)) (payload : result bool UpdateDraftRequest) : prog hev reply :=
  handle (
    payload <- lift (map_err (fun too_large => Err (json_error too_large request_id)) payload) ;;
    let route := draft_route app_id in
    raw_key <- lift (map_err (fun e => Err (idempotency_error e request_id)) (idempotency_key header)) ;;
    let hmac := fingerprint key_material (update_canonical route (ud_expected_revision payload) (ud_draft payload)) in
    claim <- try_call (ClaimKey route raw_key hmac request_id) (fun e => Err (idempotency_error e request_id)) ;;
    let rq := MkRequest route raw_key request_id in
    match claim with
    | Replay _ status body => _ <- refresh ;; eret (replay_recorded status body)
    | New operation_id | Resume operation_id => perform_update rq app_id payload operation_id
    end).
End handlers.
