(* ===== verification/DraftHandlerTheorems.v ===== *)
(** * DraftHandlerTheorems: guarantees of creating and configuring applications

    The journal of a request is the list of its calls with their answers, latest
    first. *)

From S2P Require Import Prelude Text Reference Models Ownership Effects Codec Names Drafts DraftSpec DraftCanonical DraftTheorems DraftStored Database Ledger PollStates Idempotency Scheduler Auth Compose FileSystem StoreBase StoreTheorems Recovery Requests Resources Actions ActionSafety ActionTheorems ActionDemo Deletion DraftHandlers.

Abbreviation calls := (list (obs hev)).

Definition record (g : calls) (o : obs hev) : calls := o :: g.

(** The calls that change the store or the record of the key. *)
Definition writes {X} (e : hev X) : bool :=
  match e with
  | CreateApp _ _ _ _ | UpdateDraft _ _ _ _ _ _ | RepairDurability _ | SetDesired _ _ _ _ | Tombstone _ _ | FinalizeUnregistration _ _
  | RunCompose _ _ | FinishKey _ _ _ _ _ _ | InterruptKey _ _ _ | MarkStarted _ _ _ _ | MarkObserved _ _ _ | MarkCompleted _ _
  | WritePreview _ _ _ _ | ConsumePreview _ _ | RemoveOperational _ | CreatePlatformNetwork => true
  | _ => false
  end.

Definition stores (o : obs hev) : bool :=
  match o with Obs (CreateApp _ _ _ _) _ | Obs (UpdateDraft _ _ _ _ _ _) _ => true | _ => false end.

Definition untouched (g : calls) : Prop := existsb stores g = false.
(** The attempts to store the outcome of the request. *)
Definition attempts (o : obs hev) : bool :=
  match o with Obs (FinishKey _ _ _ _ _ _) _ | Obs (InterruptKey _ _ _) _ => true | _ => false end.

Definition settled (g : calls) : Prop := existsb settles g = true.
(** The last call was the attempt to mark the key as interrupted, and failed. *)
Definition given_up (g : calls) : Prop := exists o g', g = o :: g' /\ gives_up o = true.
(** Nothing was attempted: the key is left as it was claimed. *)
Definition open (g : calls) : Prop := existsb attempts g = false.

Definition claimed (g : calls) (operation_id : Uuid) : Prop :=
  exists route key hmac id claim, Obs (ClaimKey route key hmac id) (Ok claim) ∈ g /\ (claim = New operation_id \/ claim = Resume operation_id).

(** ** Steps *)

(** Nothing is written. *)
Definition reading (g g' : calls) : Prop := g ⊆ g' /\ (untouched g -> untouched g') /\ (open g -> open g').

#[export] Instance reading_preorder : PreOrder reading.
Proof. split; [by intros g; split_and!|]. intros g1 g2 g3 (H1 & H2 & H3) (H4 & H5 & H6). split_and!; [by etrans|auto..]. Qed.

Lemma reading_call g X (e : hev X) x : writes e = false -> reading g (Obs e x :: g).
Proof.
  intros He. split_and!; [set_solver| |]; unfold untouched, open; simpl; intros ->; destruct e; try done.
Qed.

Section steps.
Context (allowed : forall X, calls -> hev X -> Prop).

Class Quiet : Prop := permits_quiet : forall X g (e : hev X), writes e = false -> allowed X g e.

Context {QU : Quiet} (ended : reply -> calls -> Prop).

Class Permits : Prop := {
  permits_interrupt : forall g route key id, allowed _ g (InterruptKey route key id);
  ended_settled : forall g r, settled g -> (forall e, r = Err e -> exists id, e = internal_error id) -> ended r g;
  ended_given_up : forall g id, given_up g -> ended (Err (internal_error id)) g;
}.
Context {PM : Permits}.

Abbreviation safe := (Effects.safe record allowed (fun _ _ _ _ => True) True).

(** A step: what holds if it goes on, and that it ends properly if it does not. *)
Definition goes {A} (p : handler A) (g : calls) (P : A -> calls -> Prop) : Prop :=
  safe p g (fun g' r => match r with Ok a => reading g g' /\ P a g' | Err reply => ended reply g' end).

(** A check with an error of its own. *)
Definition learns {R A} (p : eprog hev R A) (g : calls) (P : A -> calls -> Prop) : Prop :=
  safe p g (fun g' r => reading g g' /\ match r with Ok a => P a g' | Err _ => True end).

Lemma goes_bind {A B} (p : handler A) (f : A -> handler B) g P Q :
  goes p g P -> (forall a g', reading g g' -> P a g' -> goes (f a) g' Q) -> goes (ebind p f) g Q.
Proof.
  intros Hp Hf. apply safe_bind. eapply safe_mono; [exact Hp|]. intros g' [a|reply]; [|done]. intros [Hs HP].
  eapply safe_mono; [by apply Hf|]. intros g'' [b|r]; [|done]. intros [Hs' HQ]. split; [by etrans|done].
Qed.

Lemma goes_ret {A} (a : A) g (P : A -> calls -> Prop) : P a g -> goes (eret a) g P.
Proof. intros H. by split. Qed.

Lemma goes_ask {X A} (e : hev X) (f : X -> handler A) g Q :
  writes e = false -> (forall x, reading g (Obs e x :: g) -> goes (f x) (Obs e x :: g) Q) -> goes (ebind (ask e) f) g Q.
Proof.
  intros He Hf. split; [by apply permits_quiet|]. intros x _. pose proof (reading_call g X e x He) as Hr.
  eapply safe_mono; [by apply Hf|]. intros g' [a|r]; [|done]. intros [Hs HP]. split; [by etrans|done].
Qed.

Lemma goes_lift {A B} (r : result reply A) (f : A -> handler B) g Q :
  (forall e, r = Err e -> ended e g) -> (forall a, r = Ok a -> goes (f a) g Q) -> goes (ebind (lift r) f) g Q.
Proof. intros He Hf. destruct r as [a|e]; [by apply Hf|by apply He]. Qed.

Lemma learns_bind {R A B} (p : eprog hev R A) (f : A -> eprog hev R B) g P Q :
  learns p g P -> (forall a g', reading g g' -> P a g' -> learns (f a) g' Q) -> learns (ebind p f) g Q.
Proof.
  intros Hp Hf. apply safe_bind. eapply safe_mono; [exact Hp|]. intros g' [a|e] [Hs HP]; [|by split].
  eapply safe_mono; [by apply Hf|]. intros g'' r [Hs' HQ]. split; [by etrans|done].
Qed.

Lemma learns_ret {R A} (a : A) g (P : A -> calls -> Prop) : P a g -> learns (R := R) (eret a) g P.
Proof. intros H. by split. Qed.

Lemma learns_lift {R A} (r : result R A) g (P : A -> calls -> Prop) : (forall a, r = Ok a -> P a g) -> learns (lift r) g P.
Proof. intros H. split; [done|]. destruct r; [by apply H|done]. Qed.

Lemma learns_ask {R X} (e : hev X) g : writes e = false -> learns (R := R) (ask e) g (fun x g' => Obs e x ∈ g').
Proof.
  intros He. split; [by apply permits_quiet|]. intros x _. split; [by apply reading_call|]. left.
Qed.

Lemma learns_try {R F X} (e : hev (result F X)) (f : F -> R) g : writes e = false -> learns (try_call e f) g (fun x g' => Obs e (Ok x) ∈ g').
Proof.
  intros He. split; [by apply permits_quiet|]. intros x _. split; [by apply reading_call|]. destruct x; simpl; [left|done].
Qed.

(** ** Ways to end *)

Lemma interrupted rq g : safe (interrupt_internal rq) g (fun g' r => ended r g').
Proof.
  split; [apply permits_interrupt|]. intros [x|e] _.
  - apply ended_settled; [done|]. intros e [= <-]. by eexists.
  - apply ended_given_up. by do 2 eexists.
Qed.

Lemma finished rq status body code g :
  allowed _ g (FinishKey (rq_route rq) (rq_key rq) status body code (rq_id rq)) -> safe (finish rq status body code) g (fun g' r => ended r g').
Proof.
  intros Ha. split; [done|]. intros [|] _; cbn [is_ok]; [|apply interrupted]. apply ended_settled; [done|]. by intros e [=].
Qed.

Lemma leave_ends {A} (p : prog hev reply) g (Q : calls -> result reply A -> Prop) :
  safe p g (fun g' r => ended r g') -> (forall g' r, ended r g' -> Q g' (Err r)) -> safe (leave p) g Q.
Proof. intros Hp HQ. apply safe_bind. eapply safe_mono; [exact Hp|]. intros g' r Hr. by apply HQ. Qed.

Lemma goes_leave {A} (p : prog hev reply) g P : safe p g (fun g' r => ended r g') -> goes (A := A) (leave p) g P.
Proof. intros Hp. by apply leave_ends. Qed.

Lemma goes_interrupted {A} rq g P : goes (A := A) (return_interrupted rq) g P.
Proof. apply goes_leave, interrupted. Qed.

Lemma goes_or_interrupt {R A} rq (p : eprog hev R A) g P : learns p g P -> goes (or_interrupt rq p) g P.
Proof.
  intros Hp. apply safe_bind. eapply safe_mono; [exact Hp|]. intros g' [a|e] [Hs HP]; [by split|].
  by apply leave_ends; [apply interrupted|].
Qed.

(** One call, whose failure interrupts; also where something was written before. *)
Lemma ends_or_interrupt {F X A} rq (e : hev (result F X)) (f : X -> handler A) g (Q : calls -> result reply A -> Prop) :
  allowed _ g e -> (forall g' r, ended r g' -> Q g' (Err r)) -> (forall x, safe (f x) (Obs e (Ok x) :: g) Q) ->
  safe (ebind (or_interrupt rq (try_call e id)) f) g Q.
Proof.
  intros He HQ Hf. apply safe_bind, safe_bind. split; [done|]. intros [x|r] _; [by apply Hf|].
  apply leave_ends; [apply interrupted|]. intros g' reply Hr. by apply HQ.
Qed.
End steps.

(** ** Updating a draft *)

Section update.
Context {UT : UuidText} {ST : StoreText} {CR : Crypto} {AJ : ActionJson} {DJ : DraftJson}.
Context (key_material : string) (registry_configured : bool) (app_id : Uuid) (payload : UpdateDraftRequest).

(** The application as it was read: at the revision the request expects, and not
    switched to automatic deployment without acknowledgement. *)
Definition read_current (g : calls) : Prop :=
  exists m, Obs (ReadApp app_id) (Ok m) ∈ g /\ am_draft_revision m = ud_expected_revision payload
    /\ (am_auto_deploy_enabled m = true \/ di_auto_deploy_enabled (ud_draft payload) = false \/ di_auto_deploy_acknowledged (ud_draft payload) = true).

(** The secrets that [keep] refers to are those of the expected revision. *)
Definition secrets_read (g : calls) (existing : ExistingSecrets) : Prop :=
  match ud_expected_revision payload with
  | Some revision => exists loaded, Obs (LoadConfig app_id revision) (Ok loaded) ∈ g /\ existing = lv_secrets loaded
  | None => existing = MkExistingSecrets ∅ ∅ ∅
  end.

Definition normalised (g : calls) (draft : NormalizedDraft) : Prop :=
  exists existing hosts, secrets_read g existing /\ Obs BindHosts hosts ∈ g
    /\ normalize_draft_with_options canonical_json hosts.1 (ud_draft payload) existing (integrity_key key_material) hosts.2 true = Ok draft.

(** A credential is for the registry of the image. *)
Definition credential_fits (g : calls) (draft : NormalizedDraft) : Prop :=
  forall id, nd_credential_ref draft = Some id ->
    exists image, parse (nd_discovery_image_ref draft) = Ok image /\ Obs (LoadCredential id) (Ok (logical_registry image)) ∈ g.

(** No active or pending configuration of another application uses a source that
    conflicts with those of the draft. *)
Definition revision_accounted (g : calls) (roots : list string) (existing : list BindSafetySource) (app revision : Uuid) : Prop :=
  exists loaded hosts sources, Obs (LoadConfig app revision) (Ok loaded) ∈ g /\ Obs BindHosts hosts ∈ g
    /\ bind_safety_sources hosts.1 (lv_metadata loaded) roots false = Ok sources /\ sources ⊆ existing.

Definition sources_accounted (g : calls) (roots : list string) (existing : list BindSafetySource) (r : RecoveredApp) : Prop :=
  forall revision, ra_active_config_revision r = Some revision \/ ra_pending_config_revision r = Some revision ->
    revision_accounted g roots existing (ra_app_id r) revision.

Definition plan_fits (g : calls) (draft : NormalizedDraft) : Prop :=
  exists hosts target report existing, Obs BindHosts hosts ∈ g /\ bind_safety_sources hosts.1 (nd_metadata draft) hosts.2 true = Ok target
    /\ Obs ScanReadOnly (Ok report) ∈ g /\ rr_issues report = [] /\ validate_bind_plan target existing = Ok tt
    /\ forall r, r ∈ rr_valid_apps report -> ra_app_id r <> app_id -> sources_accounted g hosts.2 existing r.

Definition draft_checked (g : calls) (draft : NormalizedDraft) : Prop :=
  normalised g draft /\ credential_fits g draft /\ plan_fits g draft.

Definition update_acceptable (g : calls) (app : Uuid) (expected : option Uuid) (revision operation : Uuid) (draft : NormalizedDraft) : Prop :=
  app = app_id /\ expected = ud_expected_revision payload /\ revision = operation /\ claimed g operation
  /\ Obs CatalogLock tt ∈ g /\ Obs (TryApp app_id) true ∈ g /\ read_current g /\ Obs (ReadLink app_id "pending") (Ok None) ∈ g
  /\ draft_checked g draft.

(** The draft of this operation is stored. *)
Definition draft_stored (g : calls) : Prop :=
  exists operation metadata, claimed g operation
    /\ ((exists draft now, Obs (UpdateDraft app_id (ud_expected_revision payload) operation operation draft now) (Ok metadata) ∈ g)
        \/ (Obs (ReadApp app_id) (Ok metadata) ∈ g /\ am_last_operation_id metadata = operation)).

(** Nothing was stored. *)
Definition not_stored (o : obs hev) : Prop :=
  match o with
  | Obs (UpdateDraft _ _ _ _ _ _) x => x = Err SeRevisionStale \/ x = Err SeConfigRevisionConflict
  | _ => True
  end.
Definition store_refused (g : calls) : Prop := Forall not_stored g.

Definition update_allowed (X : Type) (g : calls) (e : hev X) : Prop :=
  match e with
  | UpdateDraft app expected revision operation draft _ => update_acceptable g app expected revision operation draft
  | FinishKey _ _ status _ code _ => match code with None => status = 200%Z /\ draft_stored g | Some _ => store_refused g end
  | RepairDurability app => app = app_id
  | InterruptKey _ _ _ => True
  | e => writes e = false
  end.

(** The answers after which the key is left as it was claimed. *)
Definition unrecorded_codes : list string :=
  ["APP_UNCONFIGURED"; "VALIDATION_FAILED"; "FEATURE_NOT_AVAILABLE"; "CREDENTIAL_NOT_FOUND"; "REGISTRY_CREDENTIAL_MISMATCH"].

Definition update_ended (r : reply) (g : calls) : Prop :=
  (settled g /\ forall e, r = Err e -> exists id, e = internal_error id)
  \/ (given_up g /\ exists id, r = Err (internal_error id))
  \/ (open g /\ exists e, r = Err e /\ ae_code e ∈ unrecorded_codes).

#[local] Instance update_quiet : Quiet update_allowed.
Proof. intros X g e He. destruct e; try done; by simpl. Qed.
#[local] Instance update_permits : Permits update_allowed update_ended.
Proof. split; [done|intros g r Hs Hr; by left|]. intros g id Hg. right. left. by split; [|eexists]. Qed.

Abbreviation goes := (goes update_allowed update_ended).
Abbreviation learns := (learns update_allowed).

Lemma untouched_refused g : untouched g -> store_refused g.
Proof.
  unfold untouched. induction g as [|[X e x] g IH]; simpl; intros Hu; constructor; apply orb_false_iff in Hu as [Ho Hu]; [|by apply IH].
  by destruct e.
Qed.

(** A refusal that is recorded: nothing was stored. *)
Lemma goes_error {A} rq code status g P : store_refused g -> goes (return_error (A := A) rq code status) g P.
Proof. intros Hr. apply goes_leave, finished; [apply _|done]. Qed.

Lemma goes_invalid {A} rq (p : eprog hev DraftValidationError A) g P : untouched g -> learns p g P -> goes (or_invalid rq p) g P.
Proof.
  intros Hu Hp. apply safe_bind. eapply safe_mono; [exact Hp|]. intros g' [a|e] [Hs HP]; [by split|].
  apply (leave_ends _ update_ended); [|done]. apply finished; [apply _|]. apply untouched_refused, Hs, Hu.
Qed.

(** A refusal that is not recorded. *)
Lemma goes_unrecorded {A} (p : eprog hev ApiError A) g P :
  open g -> Effects.safe record update_allowed (fun _ _ _ _ => True) True p g
    (fun g' r => reading g g' /\ match r with Ok a => P a g' | Err e => ae_code e ∈ unrecorded_codes end) ->
  goes (unrecorded p) g P.
Proof.
  intros Ho Hp. apply safe_bind. eapply safe_mono; [exact Hp|]. intros g' [a|e] [Hs HP]; [by split|].
  right. right. split; [by apply Hs|by exists e].
Qed.

Lemma guard_goes rq (e : hev bool) g : writes e = false -> untouched g -> goes (guard rq e) g (fun _ g' => Obs e true ∈ g').
Proof.
  intros He Hu. apply goes_ask; [apply _|done|]. intros [] Hr; [by apply goes_ret; left|]. apply goes_error, untouched_refused, Hr, Hu.
Qed.

(** *** The checks *)

Lemma credential_goes draft id g : open g ->
  goes (unrecorded (validate_registry_credential registry_configured draft id)) g (fun _ g' => credential_fits g' draft).
Proof.
  intros Ho. apply goes_unrecorded; [done|]. unfold validate_registry_credential, credential_fits.
  destruct (nd_credential_ref draft) as [c|]; [|by split].
  destruct (parse (nd_discovery_image_ref draft)) as [image|e]; [|split; [done|set_solver]].
  destruct registry_configured; [|split; [done|set_solver]]. split; [done|]. intros [registry|e] _; (split; [by apply reading_call|]).
  - simpl. destruct (bool_decide (registry = logical_registry image)) eqn:Hb; simpl; [|set_solver]. bools. subst.
    intros id' [= <-]. exists image. split; [done|]. left.
  - simpl. set_solver.
Qed.

Lemma revision_accounted_mono g g' roots existing existing' app revision :
  g ⊆ g' -> existing ⊆ existing' -> revision_accounted g roots existing app revision -> revision_accounted g' roots existing' app revision.
Proof. intros Hg He (loaded & hosts & sources & H1 & H2 & H3 & H4). exists loaded, hosts, sources. split_and!; [set_solver..|done|by etrans]. Qed.

Lemma elem_of_dedup a l : a ∈ dedup l <-> a ∈ l.
Proof.
  induction l as [|b [|c l] IH]; [done..|]. cbn [dedup] in *. destruct (bool_decide (b = c)) eqn:Hb; [bools; subst|]; set_solver.
Qed.

Lemma elem_of_revisions r revision :
  revision ∈ revisions_in_use r <-> ra_active_config_revision r = Some revision \/ ra_pending_config_revision r = Some revision.
Proof.
  unfold revisions_in_use. rewrite elem_of_dedup. rewrite (sort_by_perm N.leb _).
  destruct (ra_active_config_revision r), (ra_pending_config_revision r); set_solver.
Qed.

Lemma revision_sources_learns roots app revisions g :
  learns (revision_sources roots app revisions) g (fun existing g' => Forall (revision_accounted g' roots existing app) revisions).
Proof.
  revert g. induction revisions as [|revision rest IH]; intros g; cbn [revision_sources]; [by apply learns_ret|].
  eapply learns_bind; [by apply learns_try; [apply _|]|]. intros loaded g1 H1 Hl. eapply learns_bind; [by apply learns_ask; [apply _|]|].
  intros hosts g2 H2 Hh. eapply learns_bind; [by apply (learns_lift _ _ _ (fun sources _ =>
    map_err (fun _ => bind_inventory_draft_error) (bind_safety_sources hosts.1 (lv_metadata loaded) roots false) = Ok sources))|].
  intros sources g3 H3 Hs%map_err_ok_inv. eapply learns_bind; [apply IH|]. intros others g4 H4 Ho. apply learns_ret.
  destruct H2 as [H2 _], H3 as [H3 _], H4 as [H4 _]. cbv beta in *. constructor.
  - exists loaded, hosts, sources. split_and!; [set_solver..|done|set_solver].
  - eapply Forall_impl; [|exact Ho]. intros r Hr. eapply revision_accounted_mono; [reflexivity| |exact Hr]. set_solver.
Qed.

Lemma stored_sources_learns roots apps g :
  learns (stored_sources roots apps) g (fun existing g' => Forall (sources_accounted g' roots existing) apps).
Proof.
  revert g. induction apps as [|r rest IH]; intros g; cbn [stored_sources]; [by apply learns_ret|].
  eapply learns_bind; [apply revision_sources_learns|]. intros sources g1 H1 Hs. eapply learns_bind; [apply IH|]. intros others g2 H2 Ho.
  apply learns_ret. destruct H2 as [H2 _]. constructor.
  - intros revision Hin%elem_of_revisions. rewrite list.Forall_forall in Hs. eapply revision_accounted_mono; [exact H2| |by apply Hs]. set_solver.
  - eapply Forall_impl; [|exact Ho]. intros r' Hr revision Hin. eapply revision_accounted_mono; [reflexivity| |by apply Hr]. set_solver.
Qed.

Lemma plan_learns draft g : learns (validate_bind_plan_against_stored_apps app_id (nd_metadata draft)) g (fun _ g' => plan_fits g' draft).
Proof.
  unfold validate_bind_plan_against_stored_apps. eapply learns_bind; [by apply learns_ask; [apply _|]|]. intros hosts g1 H1 Hh.
  eapply learns_bind; [by apply (learns_lift _ _ _ (fun target _ => map_err bind_draft_error
    (bind_safety_sources hosts.1 (nd_metadata draft) hosts.2 true) = Ok target))|]. intros target g2 H2 Ht%map_err_ok_inv.
  eapply learns_bind; [by apply learns_try; [apply _|]|]. intros report g3 H3 Hr.
  eapply learns_bind; [by apply (learns_lift _ _ _ (fun _ _ => refuse_if (negb (is_nil (rr_issues report))) bind_inventory_draft_error = Ok tt));
    intros []|]. intros _ g4 H4 Hi%refuse_if_ok.
  eapply learns_bind; [apply stored_sources_learns|]. intros existing g5 H5 He. apply learns_lift. intros [] Hp%map_err_ok_inv.
  destruct H2 as [H2 _], H3 as [H3 _], H4 as [H4 _], H5 as [H5 _]. cbv beta in *. exists hosts, target, report, existing.
  split_and!; [set_solver|done|set_solver| |done|].
  - bools. by destruct (rr_issues report).
  - intros r Hin Hne. rewrite list.Forall_forall in He. apply He. apply list_elem_of_In, filter_In. split; [by apply list_elem_of_In|].
    by apply negb_true_iff, bool_decide_eq_false.
Qed.

Lemma normalised_mono g g' draft : g ⊆ g' -> normalised g draft -> normalised g' draft.
Proof.
  intros Hg (existing & hosts & Hs & Hh & Hn). exists existing, hosts. split_and!; [|set_solver|done]. unfold secrets_read in *.
  destruct (ud_expected_revision payload); [|done]. destruct Hs as (loaded & Hl & ->). exists loaded. set_solver.
Qed.

Lemma credential_fits_mono g g' draft : g ⊆ g' -> credential_fits g draft -> credential_fits g' draft.
Proof. intros Hg H id Hid. destruct (H id Hid) as (image & Hi & Hl). exists image. set_solver. Qed.

Lemma claimed_mono g g' operation : g ⊆ g' -> claimed g operation -> claimed g' operation.
Proof. intros Hg (route & key & hmac & id & claim & H & Hc). exists route, key, hmac, id, claim. set_solver. Qed.

Lemma existing_goes rq g : goes (existing_secrets rq app_id (ud_expected_revision payload)) g (fun existing g' => secrets_read g' existing).
Proof.
  unfold existing_secrets, secrets_read. destruct (ud_expected_revision payload) as [revision|]; [|by apply goes_ret].
  eapply goes_bind; [apply goes_or_interrupt; [apply _..|]; by apply learns_try; [apply _|]|]. intros loaded g' Hg Hl. apply goes_ret. by exists loaded.
Qed.

Lemma check_draft_goes rq g : untouched g -> open g ->
  goes (check_draft key_material registry_configured rq app_id payload) g (fun draft g' => draft_checked g' draft).
Proof.
  intros Hu Ho. unfold check_draft. eapply goes_bind; [apply existing_goes|]. intros existing g1 (H1 & U1 & O1) Hs. cbv beta in Hs.
  eapply goes_ask; [apply _|done|]. intros hosts (H2 & U2 & O2).
  eapply goes_bind; [apply goes_invalid; [auto|]; by apply (learns_lift _ _ _ (fun draft _ => normalize_draft_with_options canonical_json
    hosts.1 (ud_draft payload) existing (integrity_key key_material) hosts.2 true = Ok draft))|].
  intros draft g3 (H3 & U3 & O3) Hn. cbv beta in Hn. eapply goes_bind; [apply credential_goes; auto|]. intros _ g4 (H4 & U4 & O4) Hc.
  eapply goes_bind; [apply goes_invalid; [auto|apply plan_learns]|]. intros _ g5 (H5 & U5 & O5) Hp. apply goes_ret. split_and!; [| |done].
  - apply (normalised_mono g3); [by etrans|]. exists existing, hosts. split_and!; [|apply H3; left|done]. unfold secrets_read in *.
    destruct (ud_expected_revision payload); [|done]. destruct Hs as (loaded & Hl & ->). exists loaded. split; [|done]. apply H3, H2, Hl.
  - by eapply credential_fits_mono.
Qed.

(** *** Storing and answering *)

Abbreviation safe := (Effects.safe record update_allowed (fun _ _ _ _ => True) True).

(** The request has ended here. *)
Definition ended_early {A} (g : calls) (r : result reply A) : Prop := match r with Ok _ => False | Err r => update_ended r g end.

Lemma respond_ends rq metadata draft g : draft_stored g ->
  safe (respond rq 200 metadata draft) g ended_early.
Proof.
  intros (op & m & Hc & Hs). split; [done|]. intros outcome _. apply (leave_ends _ update_ended); [|done]. apply finished; [apply _|].
  split; [done|]. exists op, m. split; [by eapply claimed_mono; [|exact Hc]; set_solver|]. destruct Hs as [(d & now & Hs)|[Hs Hm]]; [left|right].
  - exists d, now. right. exact Hs.
  - split; [right; exact Hs|done].
Qed.

Lemma plan_fits_mono g g' draft : g ⊆ g' -> plan_fits g draft -> plan_fits g' draft.
Proof.
  intros Hg (hosts & target & report & existing & H1 & H2 & H3 & H4 & H5 & H6). exists hosts, target, report, existing.
  split_and!; [set_solver|done|set_solver|done..|]. intros r Hr Hne revision Hrev.
  eapply revision_accounted_mono; [exact Hg|reflexivity|]. by apply (H6 r).
Qed.

Lemma update_acceptable_mono g g' app expected revision operation draft : g ⊆ g' ->
  update_acceptable g app expected revision operation draft -> update_acceptable g' app expected revision operation draft.
Proof.
  intros Hg (-> & -> & -> & Hc & Hlock & Htry & (m & Hm & Hm') & Hlink & Hn & Hcr & Hp). split_and!; try done; try set_solver.
  - by eapply claimed_mono.
  - exists m. set_solver.
  - split_and!; [by eapply normalised_mono|by eapply credential_fits_mono|by eapply plan_fits_mono].
Qed.

(** The draft is stored, or the request ended. *)
Definition stored_or_ended (g : calls) (r : result reply AppMetadata) : Prop :=
  match r with Ok _ => draft_stored g | Err r => update_ended r g end.

Lemma read_stored g operation m : claimed g operation -> am_last_operation_id m = operation ->
  draft_stored (Obs (ReadApp app_id) (Ok m) :: g).
Proof.
  intros Hc Hm. exists operation, m. split; [by eapply claimed_mono; [|exact Hc]; set_solver|]. right. split; [left|done].
Qed.

Lemma accept_stored_ends rq operation g : claimed g operation -> safe (accept_stored rq app_id operation) g stored_or_ended.
Proof.
  intros Hc. apply (ends_or_interrupt _ update_ended); [done|done|]. intros m. unfold stored_by.
  destruct (bool_decide (am_last_operation_id m = operation)) eqn:Hm; cbn [andb]; [|by apply (leave_ends _ update_ended); [apply interrupted; apply _|]].
  destruct (bool_decide (am_draft_revision m = Some operation)); [|by apply (leave_ends _ update_ended); [apply interrupted; apply _|]].
  bools. apply (ends_or_interrupt _ update_ended); [done|done|]. intros [].
  destruct (read_stored g operation m Hc Hm) as (op & m' & Hc' & Hs). exists op, m'. split; [by eapply claimed_mono; [|exact Hc']; set_solver|].
  destruct Hs as [(d & now & Hs)|[Hs Hop]]; [left; exists d, now; right; exact Hs|right; split; [right; exact Hs|done]].
Qed.

Lemma accept_conflicting_ends rq operation g : claimed g operation -> store_refused g -> safe (accept_conflicting rq app_id operation) g stored_or_ended.
Proof.
  intros Hc Hr. apply (ends_or_interrupt _ update_ended); [done|done|]. intros m.
  destruct (bool_decide (am_last_operation_id m = operation)) eqn:Hm; bools; [by eapply read_stored|].
  apply (leave_ends _ update_ended); [|done]. apply finished; [apply _|]. by constructor.
Qed.

Lemma store_draft_ends rq operation draft g :
  untouched g -> update_acceptable g app_id (ud_expected_revision payload) operation operation draft ->
  safe (store_draft rq app_id operation (ud_expected_revision payload) draft) g stored_or_ended.
Proof.
  intros Hu Ha. pose proof Ha as (_ & _ & _ & Hc & _). split; [done|]. intros now _. cbn [prog_bind].
  split; [by eapply update_acceptable_mono; [|exact Ha]; set_solver|]. intros x _. set (g1 := record _ (Obs (UpdateDraft _ _ _ _ _ _) x)).
  assert (claimed g1 operation) as Hc1 by (by eapply claimed_mono; [|exact Hc]; set_solver).
  assert (not_stored (Obs (UpdateDraft app_id (ud_expected_revision payload) operation operation draft now) x) -> store_refused g1) as Href.
  { intros Hx. constructor; [exact Hx|]. constructor; [done|by apply untouched_refused]. }
  destruct x as [m|[]]; try by apply accept_stored_ends.
  - exists operation, m. split; [done|]. left. exists draft, now. left.
  - apply accept_conflicting_ends; [done|]. apply Href. by right.
  - apply (leave_ends _ update_ended); [|done]. apply finished; [apply _|]. apply Href. by left.
Qed.

(** *** The handler *)

Definition any_ended (g : calls) (r : result reply reply) : Prop := match r with Ok r | Err r => update_ended r g end.

(** A step that goes on, and then the rest. *)
Lemma goes_then {A B} (p : handler A) (f : A -> handler B) g P (Q : calls -> result reply B -> Prop) :
  (forall g' r, update_ended r g' -> Q g' (Err r)) -> goes p g P -> (forall a g', reading g g' -> P a g' -> safe (f a) g' Q) -> safe (ebind p f) g Q.
Proof.
  intros HQ Hp Hf. apply safe_bind. eapply safe_mono; [exact Hp|]. intros g' [a|r]; [|by apply HQ]. intros [Hr HP]. by apply Hf.
Qed.

Lemma ask_then {X B} (e : hev X) (f : X -> handler B) g (Q : calls -> result reply B -> Prop) :
  writes e = false -> (forall x, reading g (Obs e x :: g) -> safe (f x) (Obs e x :: g) Q) -> safe (ebind (ask e) f) g Q.
Proof. intros He Hf. split; [by apply update_quiet|]. intros x _. apply Hf. by apply reading_call. Qed.

Lemma answer_stored_ends rq operation current g : open g -> claimed g operation -> Obs (ReadApp app_id) (Ok current) ∈ g ->
  stored_by operation current = true -> safe (answer_stored key_material rq app_id operation current) g ended_early.
Proof.
  intros Ho Hc Hin Hst. unfold stored_by in Hst. bools. eapply goes_then; [done|apply goes_or_interrupt; [apply _..|]; by apply learns_try; [apply _|]|].
  intros loaded g1 (H1 & _ & O1) _. eapply (goes_then _ _ _ (fun _ _ => True)); [done| |].
  { apply goes_unrecorded; [auto|]. destruct (am_discovery_image_ref current); [done|]. split; [done|]. set_solver. }
  intros image g2 (H2 & _ & O2) _. apply ask_then; [done|]. intros binds (H3 & _ & O3).
  eapply (goes_then _ _ _ (fun _ _ => True)); [done|apply goes_or_interrupt; [apply _..|]; by apply learns_lift|]. intros draft g4 (H4 & _ & O4) _.
  apply respond_ends. exists operation, current. split; [eapply claimed_mono; [|exact Hc]; do 3 (etrans; [eassumption|]); done|]. right.
  split; [by apply H4, H3, H2, H1|done].
Qed.

Lemma perform_update_ends rq operation g : untouched g -> open g -> claimed g operation ->
  safe (perform_update key_material registry_configured rq app_id payload operation) g any_ended.
Proof.
  intros Hu Ho Hc. apply ask_then; [done|]. intros [] (H1 & U1 & O1).
  eapply goes_then; [done|apply guard_goes; auto|]. intros _ g2 (H2 & U2 & O2) Htry. cbv beta in Htry.
  apply ask_then; [done|]. intros current (H3 & U3 & O3).
  eapply (goes_then _ _ _ (fun m _ => current = Ok m)); [done| |].
  { destruct current as [m|[]]; try apply goes_interrupted; try apply _; [by apply goes_ret|]. destruct kind; try (apply goes_interrupted; apply _).
    apply goes_error, untouched_refused. auto. }
  intros m g4 (H4 & U4 & O4) ->.
  eapply (goes_then _ _ _ (fun _ _ => am_auto_deploy_enabled m = true \/ di_auto_deploy_enabled (ud_draft payload) = false
    \/ di_auto_deploy_acknowledged (ud_draft payload) = true)); [done| |].
  { destruct (am_auto_deploy_enabled m); [by apply goes_ret; left|]. destruct (di_auto_deploy_enabled (ud_draft payload)); [|by apply goes_ret; right; left].
    destruct (di_auto_deploy_acknowledged (ud_draft payload)); [by apply goes_ret; right; right|]. apply goes_error, untouched_refused. auto. }
  intros _ g5 (H5 & U5 & O5) Hack.
  assert (Obs (ReadApp app_id) (Ok m) ∈ g5) as Hread by (apply H5, H4; left).
  assert (untouched g5) as Hu5 by auto 10. assert (open g5) as Ho5 by auto 10.
  assert (claimed g5 operation) as Hc5 by (eapply claimed_mono; [|exact Hc]; do 4 (etrans; [eassumption|]); done).
  eapply (goes_then _ _ _ (fun _ _ => True)); [done| |].
  { destruct (stored_by operation m) eqn:Hst; [|by apply goes_ret]. apply safe_bind.
    eapply safe_mono; [apply answer_stored_ends; auto|]. by intros g' [r|r]. }
  intros _ g6 (H6 & U6 & O6) _. apply ask_then; [done|]. intros pending (H7 & U7 & O7).
  eapply (goes_then _ _ _ (fun _ _ => pending = Ok None)); [done| |].
  { destruct pending as [[r|]|e]; [apply goes_error, untouched_refused; auto|by apply goes_ret|apply goes_interrupted; apply _]. }
  intros _ g8 (H8 & U8 & O8) ->.
  eapply (goes_then _ _ _ (fun _ _ => am_draft_revision m = ud_expected_revision payload)); [done| |].
  { destruct (bool_decide (am_draft_revision m = ud_expected_revision payload)) eqn:He; bools; [by apply goes_ret|].
    apply goes_error, untouched_refused. auto. }
  intros _ g9 (H9 & U9 & O9) Hrev. eapply goes_then; [done|apply check_draft_goes; auto 10|]. intros draft g10 (H10 & U10 & O10) Hd.
  assert (g5 ⊆ g10) as Hall by (etrans; [exact H6|]; do 3 (etrans; [eassumption|]); done).
  apply safe_bind. eapply safe_mono; [apply store_draft_ends; [by auto 10|]|].
  - split_and!; try done.
    + by eapply claimed_mono.
    + apply Hall, H5, H4, H3, H2. left.
    + apply Hall, H5, H4, H3, Htry.
    + exists m. split; [by apply Hall|done].
    + apply H10, H9, H8. left.
  - intros g11 [metadata|r] Hs; [|done]. eapply safe_mono; [by apply respond_ends|]. by intros g' [r|r].
Qed.

Lemma update_draft_ends request_id header :
  safe (update_draft key_material registry_configured request_id app_id header (Ok payload)) []
    (fun g r => existsb claims g = true -> update_ended r g).
Proof.
  apply safe_bind. cbn [map_err lift ebind prog_bind]. destruct (idempotency_key header) as [key|e]; [|done]. cbn [map_err prog_bind].
  split; [done|]. intros [[op|op|op status body]|e] _; try done.
  1,2: eapply safe_mono; [apply (perform_update_ends _ op); [done|done|]|by intros g' [r|r] H _].
  1,2: do 5 eexists; split; [left|auto].
Qed.
End update.

(** ** Over every trace *)

Section update_theorems.
Context {UT : UuidText} {ST : StoreText} {CR : Crypto} {AJ : ActionJson} {DJ : DraftJson}.
Context (key_material : string) (registry_configured : bool) (request_id app_id : Uuid) (header : option (option string)).

Abbreviation update_of payload := (update_draft key_material registry_configured request_id app_id header (Ok payload)).

Lemma recorded tr g : foldl record g tr = reverse tr ++ g.
Proof. revert g. induction tr as [|o tr IH]; intros g; [done|]. cbn [foldl]. rewrite IH, reverse_cons, <- app_assoc. done. Qed.

Lemma relied_always (tr g : calls) : relied record (fun _ _ _ _ => True) g tr.
Proof. revert g. induction tr as [|[X e x] tr IH]; intros g; [done|]. by split. Qed.

Lemma reverse_same (tr : calls) : reverse tr ++ [] ⊆ tr.
Proof. rewrite app_nil_r. intros o. by rewrite elem_of_reverse. Qed.

Lemma existsb_reverse {A} (f : A -> bool) l : existsb f (reverse l ++ []) = existsb f l.
Proof.
  rewrite app_nil_r. apply eq_true_iff_eq. rewrite !existsb_exists. by setoid_rewrite <- list_elem_of_In; setoid_rewrite elem_of_reverse.
Qed.

Lemma given_up_last tr : given_up (reverse tr ++ []) -> exists l o, tr = l ++ [o] /\ gives_up o = true.
Proof.
  rewrite app_nil_r. intros (o & g & Hr & Ho). exists (reverse g), o. split; [|done].
  apply (f_equal reverse) in Hr. by rewrite reverse_involutive, reverse_cons in Hr.
Qed.

Lemma update_call payload tr1 X (e : hev X) x tr2 o :
  trace (update_of payload) (tr1 ++ Obs e x :: tr2) o -> update_allowed key_material app_id payload X (reverse tr1 ++ []) e.
Proof.
  intros Ht. destruct (safe_sound _ _ _ _ _ _ _ _ _ (update_draft_ends key_material registry_configured app_id payload request_id header) Ht
    (relied_always _ _)) as [Hc _]. specialize (Hc tr1 (Obs e x) tr2 eq_refl). by rewrite recorded in Hc.
Qed.

(** C13: a draft is stored only for the application and the revision the request
    names, as the revision of its own operation, with the catalog lock and the
    application's guard held, no deployment pending and the application read at
    that revision; the draft is the normalisation of the request over the secrets
    of the revision it replaces, its registry credential is one for the registry
    of its image, its bind sources conflict with no active or pending
    configuration of another application in a complete scan, and automatic
    deployment is not switched on without acknowledgement. *)
Theorem draft_update_guarded payload tr1 app expected revision operation draft now x tr2 o :
  trace (update_of payload) (tr1 ++ Obs (UpdateDraft app expected revision operation draft now) x :: tr2) o ->
  update_acceptable key_material app_id payload tr1 app expected revision operation draft.
Proof. intros Ht. eapply update_acceptable_mono; [apply reverse_same|]. exact (update_call _ _ _ _ _ _ _ Ht). Qed.

(** An update is recorded as successful only if the store accepted the draft or
    showed it stored by this operation, and as failed only if nothing was stored. *)
Theorem draft_update_recorded payload tr1 route key status body code id x tr2 o :
  trace (update_of payload) (tr1 ++ Obs (FinishKey route key status body code id) x :: tr2) o ->
  match code with None => status = 200%Z /\ draft_stored app_id payload tr1 | Some _ => store_refused tr1 end.
Proof.
  intros Ht. pose proof (update_call _ _ _ _ _ _ _ Ht) as Hf. cbn in Hf. destruct code; cycle 1.
  - destruct Hf as [-> (op & m & Hc & Hs)]. split; [done|]. exists op, m. split; [eapply claimed_mono; [apply reverse_same|done]|].
    destruct Hs as [(d & n & Hs)|[Hs Hm]]; [left; exists d, n; by apply reverse_same|right; split; [by apply reverse_same|done]].
  - unfold store_refused in *. rewrite app_nil_r in Hf. by apply Forall_reverse.
Qed.

Lemma total_or_invalid {A} rq (p : eprog hev DraftValidationError A) : total p -> total (or_invalid rq p).
Proof. intros Hp. unfold or_invalid, finish_draft_validation_error, finish, interrupt_internal. total_solve. Qed.
Lemma total_unrecorded {A} (p : eprog hev ApiError A) : total p -> total (unrecorded p).
Proof. intros Hp. unfold unrecorded. total_solve. Qed.
Lemma total_revision_sources roots app l : total (revision_sources roots app l).
Proof. induction l; cbn [revision_sources]; total_solve. Qed.
#[local] Hint Resolve total_revision_sources : total.
Lemma total_stored_sources roots l : total (stored_sources roots l).
Proof. induction l; cbn [stored_sources]; total_solve. Qed.
#[local] Hint Resolve total_stored_sources : total.

Lemma total_update payload : total (update_of payload).
Proof.
  unfold update_draft, handle, perform_update, guard, check_draft, store_draft, accept_stored, accept_conflicting, existing_secrets, answer_stored,
    validate_registry_credential, validate_bind_plan_against_stored_apps, respond, refresh, return_error, return_interrupted, finish_error, finish_json,
    finish, interrupt_internal.
  repeat (apply total_or_invalid || apply total_unrecorded || apply total_or_interrupt || solve [auto 1 with total nocore] || total_step).
Qed.

(** C14: the handler of a draft always answers. Of an operation it claimed,
    either the outcome or an interruption is stored, and the answer is the one
    recorded or the internal error; or the last call was the attempt to store the
    interruption, which the database refused, and the answer is the internal
    error; or the answer is one of the five errors of a refused registry
    credential and of a stored draft without an image (APP_UNCONFIGURED,
    VALIDATION_FAILED, FEATURE_NOT_AVAILABLE, CREDENTIAL_NOT_FOUND,
    REGISTRY_CREDENTIAL_MISMATCH), and then neither was attempted: no call
    settles the key, which is left in progress. *)
Theorem draft_update_settles payload {W} (serve : forall X, hev X -> W -> X * W) w :
  let log := run_log serve (update_of payload) w in
  exists reply, (run serve (update_of payload) w).1 = Some reply
    /\ (existsb claims log = true ->
        (existsb settles log = true /\ forall error, reply = Err error -> exists id, error = internal_error id)
        \/ ((exists l o, log = l ++ [o] /\ gives_up o = true) /\ exists id, reply = Err (internal_error id))
        \/ (existsb attempts log = false /\ exists error, reply = Err error /\ ae_code error ∈ unrecorded_codes)).
Proof.
  intros log. destruct (total_run serve _ w (total_update payload)) as [reply Hrun]. exists reply. split; [done|]. intros Hc.
  pose proof (run_trace serve (update_of payload) w) as Ht. rewrite Hrun in Ht.
  destruct (safe_sound _ _ _ _ _ _ _ _ _ (update_draft_ends key_material registry_configured app_id payload request_id header) Ht
    (relied_always _ _)) as [_ Ho]. specialize (Ho reply eq_refl). rewrite recorded, existsb_reverse in Ho. specialize (Ho Hc).
  unfold update_ended, settled, open in Ho. rewrite !existsb_reverse in Ho.
  destruct Ho as [Ho|[[Hg Ho]|Ho]]; [by left|right; left|by right; right]. split; [by apply given_up_last|done].
Qed.
End update_theorems.

(** ** Creating an application *)

Section creation.
Context {UT : UuidText} {ST : StoreText} {CR : Crypto} {AJ : ActionJson} {DJ : DraftJson}.
Context (key_material slug : string).

(** The slug is well formed and no application of a scan has it. *)
Definition creation_acceptable (g : calls) (app operation : Uuid) (name : string) : Prop :=
  app = operation /\ name = slug /\ validate_slug_for_resource_schema slug RESOURCE_NAME_SCHEMA_CURRENT = true /\ claimed g operation
  /\ Obs CatalogLock tt ∈ g /\ Obs (TryApp operation) true ∈ g
  /\ exists report, Obs ScanReadOnly (Ok report) ∈ g /\ forall r, r ∈ rr_valid_apps report -> ra_slug r <> slug.

(** The application of this operation is stored. *)
Definition app_stored (g : calls) : Prop :=
  exists operation metadata, claimed g operation
    /\ ((exists now, Obs (CreateApp operation slug operation now) (Ok metadata) ∈ g)
        \/ (Obs (ReadApp operation) (Ok metadata) ∈ g /\ am_last_operation_id metadata = operation)).

Definition not_created (o : obs hev) : Prop := match o with Obs (CreateApp _ _ _ _) x => x = Err SeAppConflict | _ => True end.

Definition create_allowed (X : Type) (g : calls) (e : hev X) : Prop :=
  match e with
  | CreateApp app name operation _ => creation_acceptable g app operation name
  | FinishKey _ _ status _ code _ => match code with None => status = 201%Z /\ app_stored g | Some _ => Forall not_created g end
  | RepairDurability app => claimed g app
  | InterruptKey _ _ _ => True
  | e => writes e = false
  end.

Definition over (g : calls) : Prop := settled g \/ given_up g.
Definition create_ended (r : reply) (g : calls) : Prop := over g.

#[local] Instance create_quiet : Quiet create_allowed.
Proof. intros X g e He. destruct e; try done; by simpl. Qed.
#[local] Instance create_permits : Permits create_allowed create_ended.
Proof. split; [done|by left|by right]. Qed.

Abbreviation goes := (goes create_allowed create_ended).
Abbreviation safe := (Effects.safe record create_allowed (fun _ _ _ _ => True) True).

Lemma untouched_created g : untouched g -> Forall not_created g.
Proof.
  unfold untouched. induction g as [|[X e x] g IH]; simpl; intros Hu; constructor; apply orb_false_iff in Hu as [Ho Hu]; [|by apply IH].
  by destruct e.
Qed.

Lemma error_ends {A} rq code status g (Q : calls -> result reply A -> Prop) :
  Forall not_created g -> (forall g' r, over g' -> Q g' (Err r)) -> safe (return_error rq code status) g Q.
Proof. intros Hg HQ. apply (leave_ends _ create_ended); [|exact HQ]. apply finished; [apply _|done]. Qed.

Lemma interrupt_ends {A} rq g (Q : calls -> result reply A -> Prop) : (forall g' r, over g' -> Q g' (Err r)) -> safe (return_interrupted rq) g Q.
Proof. intros HQ. apply (leave_ends _ create_ended); [|exact HQ]. apply interrupted; apply _. Qed.

Lemma respond_created_ends rq metadata g : app_stored g ->
  safe (respond rq 201 metadata None) g (fun g' r => match r with Ok _ => False | Err _ => over g' end).
Proof.
  intros (op & m & Hc & Hs). split; [done|]. intros outcome _. apply (leave_ends _ create_ended); [|done]. apply finished; [apply _|].
  split; [done|]. exists op, m. split; [by eapply claimed_mono; [|exact Hc]; set_solver|]. destruct Hs as [(now & Hs)|[Hs Hm]]; [left|right].
  - exists now. right. exact Hs.
  - split; [right; exact Hs|done].
Qed.

Lemma read_created g operation m : claimed g operation -> am_last_operation_id m = operation -> app_stored (Obs (ReadApp operation) (Ok m) :: g).
Proof. intros Hc Hm. exists operation, m. split; [by eapply claimed_mono; [|exact Hc]; set_solver|]. right. split; [left|done]. Qed.

Lemma app_stored_mono g g' : g ⊆ g' -> app_stored g -> app_stored g'.
Proof.
  intros Hg (op & m & Hc & Hs). exists op, m. split; [by eapply claimed_mono|]. destruct Hs as [(now & Hs)|[Hs Hm]]; [left; exists now; set_solver|].
  right. set_solver.
Qed.

Definition created_or_ended (g : calls) (r : result reply AppMetadata) : Prop := match r with Ok _ => app_stored g | Err _ => over g end.

Lemma accept_created_ends rq operation g : claimed g operation -> safe (accept_created rq operation) g created_or_ended.
Proof.
  intros Hc. apply (ends_or_interrupt _ create_ended); [done|done|]. intros m. unfold created_by.
  destruct (bool_decide (am_last_operation_id m = operation)) eqn:Hm; cbn [andb]; [|by apply interrupt_ends].
  destruct (is_none (am_draft_revision m)); [|by apply interrupt_ends]. bools.
  apply (ends_or_interrupt _ create_ended); [|done|].
  - by eapply claimed_mono; [|exact Hc]; set_solver.
  - intros []. eapply (app_stored_mono (Obs (ReadApp operation) (Ok m) :: g)); [set_solver|by apply read_created].
Qed.

Lemma store_app_ends rq operation g : untouched g -> creation_acceptable g operation operation slug ->
  safe (store_app rq slug operation) g created_or_ended.
Proof.
  intros Hu (_ & _ & Hv & Hc & Hl & Ht & report & Hr & Hs). split; [done|]. intros now _. cbn [prog_bind]. split.
  { split_and!; try done; [by eapply claimed_mono; [|exact Hc]; set_solver|set_solver..|]. exists report. set_solver. }
  intros x _. set (g1 := record _ (Obs (CreateApp _ _ _ _) x)).
  assert (claimed g1 operation) as Hc1 by (by eapply claimed_mono; [|exact Hc]; set_solver).
  destruct x as [m|[]]; try by apply accept_created_ends.
  - exists operation, m. split; [done|]. left. exists now. left.
  - apply (ends_or_interrupt _ create_ended); [done|done|]. intros m.
    destruct (bool_decide (am_last_operation_id m = operation)) eqn:Hm; bools; [by apply read_created|].
    apply error_ends; [|done]. repeat (constructor; [done|]). by apply untouched_created.
Qed.

Lemma perform_create_ends rq operation g : validate_slug_for_resource_schema slug RESOURCE_NAME_SCHEMA_CURRENT = true ->
  untouched g -> claimed g operation -> safe (perform_create rq slug operation) g (fun g' _ => over g').
Proof.
  intros Hv Hu Hc. split; [done|]. intros [] _. cbn [prog_bind]. split; [done|]. intros existing _. cbn [prog_bind].
  set (g1 := record (record g _) _). assert (untouched g1) as Hu1 by done.
  assert (claimed g1 operation) as Hc1 by (by eapply claimed_mono; [|exact Hc]; set_solver).
  apply safe_bind. apply safe_mono with (Q := fun g' (r : result reply unit) => match r with Ok _ => g' = g1 | Err _ => over g' end).
  { destruct existing as [m|e]; [|done]. destruct (created_by operation m) eqn:Hb; [|done]. apply safe_bind.
    eapply safe_mono; [apply respond_created_ends|by intros g' [r|r]]. unfold created_by in Hb. bools.
    apply read_created; [|done]. by eapply claimed_mono; [|exact Hc]; set_solver. }
  intros g' [_|r]; [intros ->|done]. apply (ends_or_interrupt _ create_ended); [done|done|]. intros report.
  apply safe_bind. apply safe_mono with (Q := fun g' (r : result reply unit) => match r with
    | Ok _ => g' = Obs ScanReadOnly (Ok report) :: g1 /\ existsb (fun app => ra_slug app =? slug) (rr_valid_apps report) = false
    | Err _ => over g' end).
  { destruct (existsb _ _) eqn:He; [|done]. apply error_ends; [|done]. constructor; [done|by apply untouched_created]. }
  intros g' [_|r]; [intros [-> Hs]|done]. apply safe_bind. split; [done|]. intros [] _; cbn [prog_bind]; cycle 1.
  { apply error_ends; [|done]. repeat (constructor; [done|]). by apply untouched_created. }
  apply safe_bind. eapply safe_mono; [apply store_app_ends; [done|]|].
  - split_and!; try done; [by eapply claimed_mono; [|exact Hc1]; set_solver|right; right; right; left|left|]. exists report. split; [right; left|].
    intros r Hr Heq. apply list_elem_of_In in Hr. assert (existsb (fun app => ra_slug app =? slug) (rr_valid_apps report) = true); [|congruence].
    apply existsb_exists. exists r. split; [done|by apply bool_decide_eq_true].
  - intros g' [m|r] Hm; [|done]. eapply safe_mono; [by apply respond_created_ends|]. by intros g'' [r|r].
Qed.

Lemma create_ends request_id header :
  safe (create key_material request_id header (Ok slug)) [] (fun g _ => existsb claims g = true -> over g).
Proof.
  apply safe_bind. cbn [map_err lift ebind prog_bind]. destruct (validate_slug_for_resource_schema _ _) eqn:Hv; [|done]. cbn [negb refuse_if prog_bind lift].
  destruct (idempotency_key header) as [key|e]; [|done]. cbn [map_err prog_bind]. split; [done|]. intros [[op|op|op status body]|e] _; try done.
  1,2: eapply safe_mono; [apply (perform_create_ends _ op); [done|done|]|by intros g' [r|r] H _].
  1,2: do 5 eexists; split; [left|auto].
Qed.

(** An application is stored only under the identifier of the operation, with
    the catalog lock and the guard of that identifier held, and with a well-formed
    slug that no application of a scan made before has; the creation is recorded
    as successful only if the application was stored, as failed only if it was
    not, and a claimed operation is settled, or the last call was the attempt to
    mark it as interrupted, which the database refused. *)
Theorem creation_guarded request_id header tr o :
  trace (create key_material request_id header (Ok slug)) tr o ->
  (forall tr1 app name operation now x tr2, tr = tr1 ++ Obs (CreateApp app name operation now) x :: tr2 ->
     creation_acceptable tr1 app operation name)
  /\ (forall tr1 route key status body code id x tr2, tr = tr1 ++ Obs (FinishKey route key status body code id) x :: tr2 ->
     match code with None => status = 201%Z /\ app_stored tr1 | Some _ => Forall not_created tr1 end)
  /\ (forall r, o = Some r -> existsb claims tr = true ->
       existsb settles tr = true \/ exists l o, tr = l ++ [o] /\ gives_up o = true).
Proof.
  intros Ht. destruct (safe_sound _ _ _ _ _ _ _ _ _ (create_ends request_id header) Ht (relied_always _ _)) as [Hc Ho]. split_and!.
  - intros tr1 app name operation now x tr2 Heq. specialize (Hc tr1 _ tr2 Heq). rewrite recorded in Hc. cbn in Hc.
    destruct Hc as (-> & -> & Hv & Hcl & Hl & Ht' & report & Hr & Hs). split_and!; try done; [by eapply claimed_mono; [apply reverse_same|]|by apply reverse_same..|].
    exists report. split; [by apply reverse_same|done].
  - intros tr1 route key status body code id x tr2 Heq. specialize (Hc tr1 _ tr2 Heq). rewrite recorded in Hc. cbn in Hc. destruct code; cycle 1.
    + destruct Hc as [-> Hs]. split; [done|]. by eapply app_stored_mono; [apply reverse_same|].
    + rewrite app_nil_r in Hc. by apply Forall_reverse.
  - intros r -> Hcl. specialize (Ho r eq_refl). rewrite recorded in Ho. unfold create_ended, settled in Ho.
    rewrite !existsb_reverse in Ho. destruct (Ho Hcl) as [Hs|Hg]; unfold settled in *; [rewrite existsb_reverse in Hs; by left|right; by apply given_up_last].
Qed.
End creation.

(** ** A draft changed on a concrete host *)

#[local] Existing Instance binary_uuid_text.
#[local] Existing Instance demo_crypto.
#[local] Existing Instance store_text.
#[local] Existing Instance store_compose_text.
#[local] Existing Instance plain_action_json.

#[local] Instance plain_draft_json : DraftJson := {|
  create_canonical route slug := route +:+ slug;
  update_canonical route _ _ := route;
  mutation_json r := md_slug (mr_app r) +:+ ":" +:+ md_deployment_status (mr_app r);
  invalid_json code _ _ := code;
|}.

(** The host of [ActionDemo]; a credential is for the registry given. *)
Definition draft_serve (registry : string) (X : Type) (e : hev X) (w : Host) : X * Host :=
  match e in hev X return X * Host with
  | LoadCredential _ => (Ok registry, w)
  | e => host_serve _ e w
  end.

(** The stored draft again, with every secret kept and with a credential. *)
Definition demo_payload : UpdateDraftRequest :=
  MkUpdateDraftRequest (Some 2%N) (revision_input (stored host_draft) "Blog" "ghcr.io/acme/blog:stable" (Some 9%N) true 300).
Definition demo_request : prog hev reply := update_draft "secret" true 99%N 7%N (Some (Some "key")) (Ok demo_payload).
Definition demo_log (registry : string) : list (obs hev) := run_log (draft_serve registry) demo_request (CsRunning, 1).

Example draft_updated : (run (draft_serve "ghcr.io") demo_request (CsRunning, 1)).1 = Some (Ok (MkResponse 200 None "blog:DEPLOY_REQUIRED")).
Proof. vm_compute. reflexivity. Qed.

Definition is_update (o : obs hev) : bool := match o with Obs (UpdateDraft _ _ _ _ _ _) _ => true | _ => false end.

Lemma draft_update_guarded_witness :
  exists l app expected revision operation draft, update_acceptable "secret" 7%N demo_payload l app expected revision operation draft.
Proof.
  destruct (first_call is_update (demo_log "ghcr.io")) as (l & [X e x] & r & Hlog & Hc); [by vm_compute|].
  destruct e as [| | | | | | | | | | | | | | | | | | | | | | | | | | | | | | | | | | | | | | | | | | | | | | |app expected revision operation draft now| |]; try done.
  exists l, app, expected, revision, operation, draft.
  pose proof (run_trace (draft_serve "ghcr.io") demo_request (CsRunning, 1)) as Ht.
  change (run_log (draft_serve "ghcr.io") demo_request (CsRunning, 1)) with (demo_log "ghcr.io") in Ht. rewrite Hlog in Ht.
  exact (draft_update_guarded "secret" true _ _ _ _ _ _ _ _ _ _ _ _ _ _ Ht).
Defined.

(** A credential for another registry: the error is answered, and the key stays
    in progress. *)
Example credential_refused :
  option_map (fun r => match r with Ok _ => None | Err error => Some (ae_code error) end) (run (draft_serve "docker.io") demo_request (CsRunning, 1)).1
    = Some (Some "REGISTRY_CREDENTIAL_MISMATCH")
  /\ existsb claims (demo_log "docker.io") = true /\ existsb settles (demo_log "docker.io") = false.
Proof. split_and!; by vm_compute. Qed.

Lemma draft_update_settles_witness :
  existsb attempts (demo_log "docker.io") = false
  /\ exists error, (run (draft_serve "docker.io") demo_request (CsRunning, 1)).1 = Some (Err error) /\ ae_code error ∈ unrecorded_codes.
Proof.
  destruct (draft_update_settles "secret" true 99%N 7%N (Some (Some "key")) demo_payload (draft_serve "docker.io") (CsRunning, 1))
    as (r & Hrun & H).
  destruct credential_refused as (Hcode & Hc & Hs). destruct (H Hc) as [[Hs' _]|[[_ (id & ->)]|[Hs' (error & -> & He)]]].
  - unfold demo_log in Hs. unfold demo_request in Hs. rewrite Hs in Hs'. discriminate.
  - unfold demo_request in Hcode. rewrite Hrun in Hcode. discriminate Hcode.
  - split; [exact Hs'|]. exists error. split; [exact Hrun|exact He].
Defined.
