(* ===== verification/RegistryClient.v ===== *)
(** * RegistryClient: resolving references against a registry

    [src/registry/client.rs] and [src/registry/auth.rs]: the requests for a
    manifest, a token and a configuration, the redirects followed for a blob,
    and what is accepted of the answers. Every HTTP answer is the
    environment's; JSON readers and the [url] crate are parameters. *)

From Stdlib Require Import Ascii.
From S2P Require Import Prelude Text Reference Models Effects Codec Names Drafts Database Ledger PollStates Poller.

(** ** URLs and HTTP *)

(** The [url] crate: parsing, joining, appending query pairs, and the parts.
    Printing a URL and parsing it again gives it back, the scheme of a parsed URL
    is the one it was written with, and query pairs change neither the scheme
    nor the host nor the port. *)
Class UrlText := {
  Url : Type;
  url_parse : string -> option Url;
  url_join : Url -> string -> option Url;
  url_append_pairs : Url -> list (string * string) -> Url;
  url_text : Url -> string;
  url_scheme : Url -> string;
  url_host : Url -> option string;
  url_port : Url -> option Z;
  url_username : Url -> string;
  url_password : Url -> option string;
  url_query : Url -> option string;
  url_fragment : Url -> option string;
  url_parse_text : forall u, url_parse (url_text u) = Some u;
  url_parse_https : forall s u, url_parse ("https://" +:+ s) = Some u -> url_scheme u = "https";
  url_pairs_origin : forall u pairs, url_scheme (url_append_pairs u pairs) = url_scheme u
    /\ url_host (url_append_pairs u pairs) = url_host u /\ url_port (url_append_pairs u pairs) = url_port u;
}.

(** What [classify_transport] asks of an error. *)
Record TransportError := MkTransportError { te_timeout : bool; te_message : string; te_connect : bool }.

Record HttpRequest := MkHttpRequest {
  hq_url : string;
  hq_basic : option (string * string);
  hq_bearer : option string;
  hq_if_none_match : option string;
}.

(** A header is absent, not text, or text; the body comes in chunks. *)
Record HttpResponse {UL : UrlText} := MkHttpResponse {
  hs_status : Z;
  hs_url : Url;
  hs_www_authenticate : option (option string);
  hs_location : option (option string);
  hs_etag : option (option string);
  hs_content_type : option (option string);
  hs_docker_content_digest : option (option string);
  hs_content_length : option Z;
  hs_chunks : list (result TransportError string);
}.

Inductive rev {UL : UrlText} : Type -> Type :=
| Send (request : HttpRequest) : rev (result TransportError HttpResponse)
| DeadlineElapsed : rev bool.

Arguments MkHttpResponse {UL}.
Arguments rev UL : clear implicits.
Arguments rev {UL} _.

(** [header.and_then(|value| value.to_str().ok())] *)
Definition header_text (header : option (option string)) : option string := header ≫= id.

(** ** Data *)

Record BearerChallenge {UL : UrlText} := MkBearerChallenge { bc_realm : Url; bc_service : option string }.
Arguments MkBearerChallenge {UL}.

Record ExposedPort := MkExposedPort { xp_container_port : Z; xp_protocol : string }.

Record ImageConfigSuggestion := MkImageConfigSuggestion {
  ic_resolved_digest : string;
  ic_exposed_ports : list ExposedPort;
  ic_volume_targets : list string;
  ic_has_healthcheck : bool;
  ic_user : option string;
  ic_stop_signal : option string;
  ic_warnings : list string;
}.

(** What is read of an image configuration: the keys of two maps, in order. *)
Record ImageConfigJson := MkImageConfigJson {
  cj_exposed_ports : list string;
  cj_volumes : list string;
  cj_has_healthcheck : bool;
  cj_user : option string;
  cj_stop_signal : option string;
}.

(** Readers of JSON bodies; a token body has two optional tokens. *)
Class RegistryJson := {
  manifest_of_json : string -> option Manifest;
  index_of_json : string -> option Index;
  token_of_json : string -> option (option string * option string);
  image_config_of_json : string -> option ImageConfigJson;
}.

Definition MANIFEST_LIMIT : Z := 8 * 1024 * 1024.
Definition CONFIG_LIMIT : Z := 2 * 1024 * 1024.
Definition TOKEN_LIMIT : Z := 64 * 1024.
Definition BLOB_REDIRECT_LIMIT : nat := 3.
Definition DOCKER_HUB_TOKEN_ENDPOINT : string := "https://auth.docker.io/token".

(** ** Answers *)

Definition byte_len (s : string) : Z := Z.of_nat (String.length s).

Definition classify_status (status : Z) (authenticated : bool) : result RegistryError unit :=
  if (200 <=? status)%Z && (status <=? 299)%Z then Ok tt
  else if status =? 401%Z then Err (if authenticated then CredentialInvalid else CredentialRequired)
  else if status =? 403%Z then Err Forbidden
  else if status =? 404%Z then Err TagNotFound
  else if status =? 429%Z then Err RateLimited
  else if (500 <=? status)%Z && (status <=? 599)%Z then Err RegUnavailable
  else Err Protocol.

Definition classify_transport (error : TransportError) : RegistryError :=
  let message := to_ascii_lowercase (te_message error) in
  if te_timeout error then RegTimeout
  else if contains_str "certificate" message || contains_str "tls" message then Tls
  else if te_connect error then RegUnavailable
  else Protocol.

Fixpoint read_chunks (limit : Z) (body : string) (chunks : list (result TransportError string)) : result RegistryError string :=
  match chunks with
  | [] => Ok body
  | chunk :: rest =>
      chunk ← map_err classify_transport chunk;
      refuse_if (limit <? byte_len body + byte_len chunk)%Z Protocol ;;
      read_chunks limit (body +:+ chunk) rest
  end.

Section client.
Context {UL : UrlText} {CR : Crypto} {RJ : RegistryJson}.
Context (allow_http_loopback : bool).

Definition read_limited (response : HttpResponse) (limit : Z) : result RegistryError string :=
  refuse_if (is_some_and (hs_content_length response) (fun length => (limit <? length)%Z)) Protocol ;;
  read_chunks limit "" (hs_chunks response).

Definition digest (body : string) : string := "sha256:" +:+ hex (sha256 body).

Definition safe_etag (value : option string) : option string :=
  value ← value;
  if str_is_empty value || (256 <? String.length value)%nat || str_any is_ascii_control value then None else Some value.

(** ** Challenges *)

Definition double_quote : ascii := ascii_of_nat 34.

Definition quoted (raw : string) : option string :=
  inner ← strip_prefix (String double_quote EmptyString) raw;
  if ends_with_char double_quote inner then Some (str_take (String.length inner - 1) inner) else None.

Fixpoint challenge_items (items : list string) (realm service : option string) : result RegistryError (option string * option string) :=
  match items with
  | [] => Ok (realm, service)
  | item :: rest =>
      pair ← ok_or (split_once "=" (trim item)) Protocol;
      raw ← ok_or (quoted pair.2) Protocol;
      refuse_if (str_any is_ascii_control raw) Protocol ;;
      if (pair.1 =? "realm") && is_none realm then challenge_items rest (Some raw) service
      else if (pair.1 =? "service") && is_none service && (String.length raw <=? 255)%nat then challenge_items rest realm (Some raw)
      else if pair.1 =? "scope" then challenge_items rest realm service
      else Err Protocol
  end.

Definition is_loopback_http (url : Url) : bool :=
  allow_http_loopback && (url_scheme url =? "http") && bool_decide (url_host url ∈ [Some "127.0.0.1"; Some "localhost"]).

Definition parse_bearer (value : option string) : result RegistryError BearerChallenge :=
  value ← ok_or value Protocol;
  parameters ← ok_or (strip_prefix "Bearer " value) AuthUnsupported;
  refuse_if (2048 <? byte_len parameters)%Z Protocol ;;
  found ← challenge_items (split "," parameters) None None;
  realm ← ok_or found.1 Protocol;
  realm ← ok_or (url_parse realm) Protocol;
  refuse_if (((url_scheme realm ≠? "https") && negb (is_loopback_http realm)) || negb (str_is_empty (url_username realm))
             || is_some (url_password realm) || is_some (url_query realm) || is_some (url_fragment realm)) Protocol ;;
  Ok (MkBearerChallenge realm found.2).

Definition transport_scheme (image : ImageReference) : string :=
  if allow_http_loopback && (starts_with "127.0.0.1:" (transport_registry image) || starts_with "localhost:" (transport_registry image))
  then "http" else "https".

Definition same_origin (left right : Url) : bool :=
  (url_scheme left =? url_scheme right) && (url_host left =? url_host right) && (url_port left =? url_port right).

Definition validate_bearer_realm (image : ImageReference) (realm : Url) : result RegistryError unit :=
  registry_origin ← ok_or (url_parse (transport_scheme image +:+ "://" +:+ transport_registry image +:+ "/")) Protocol;
  refuse_if (negb (same_origin realm registry_origin
                   || ((logical_registry image =? "docker.io") && (url_text realm =? DOCKER_HUB_TOKEN_ENDPOINT)))) AuthRealmUntrusted.

(** ** Requests *)

Abbreviation reg A := (eprog rev RegistryError A).

Definition send (request : HttpRequest) : reg HttpResponse := try_call (Send request) classify_transport.

Definition manifest_url (image : ImageReference) (selector : string) : string :=
  transport_scheme image +:+ "://" +:+ transport_registry image +:+ "/v2/" +:+ repository image +:+ "/manifests/" +:+ selector.

Definition fetch (image : ImageReference) (selector : string) (bearer etag : option string) : reg HttpResponse :=
  send (MkHttpRequest (manifest_url image selector) None bearer etag).

Definition usable_token (token : string) : bool := negb (str_is_empty token) && (byte_len token <=? 16 * 1024)%Z.

(** [token.or(access_token).filter(..)] *)
Definition chosen_token (tokens : option string * option string) : option string :=
  token ← (match tokens.1 with Some token => Some token | None => tokens.2 end);
  if usable_token token then Some token else None.

(** The challenge answered at its realm, with the credential if there is one. *)
Definition request_token (image : ImageReference) (challenge : option string) (credential : option (string * string)) : reg string :=
  challenge <- lift (parse_bearer challenge) ;;
  lift (validate_bearer_realm image (bc_realm challenge)) ;;;
  let service := match bc_service challenge with Some service => [("service", service)] | None => [] end in
  let url := url_append_pairs (bc_realm challenge) (service ++ [("scope", "repository:" +:+ repository image +:+ ":pull")]) in
  response <- send (MkHttpRequest (url_text url) credential None None) ;;
  lift (classify_status (hs_status response) (is_some credential)) ;;;
  body <- lift (read_limited response TOKEN_LIMIT) ;;
  tokens <- lift (ok_or (token_of_json body) Protocol) ;;
  lift (ok_or (chosen_token tokens) CredentialInvalid).

(** ** Manifests *)

Definition media_type_of (response : HttpResponse) : result RegistryError string :=
  value ← ok_or (header_text (hs_content_type response)) Protocol;
  ok_or (head (split ";" value)) Protocol.

Definition declared_mismatch (response : HttpResponse) (actual : string) : bool :=
  is_some_and (header_text (hs_docker_content_digest response)) (fun value => value ≠? actual).

Definition descriptor_platform (value : DescriptorPlatform) : result RegistryError Platform :=
  canonical (dp_os value) (dp_architecture value) (dp_variant value).

Definition runs_on (platform : Platform) (item : Descriptor) : bool :=
  is_some_and (d_platform item) (fun value => match descriptor_platform value with Ok value => value =? platform | Err _ => false end)
  && ((d_media_type item =? OCI_MANIFEST) || (d_media_type item =? DOCKER_MANIFEST)).

(** The manifest of an index for the platform, fetched by its digest. *)
Definition fetch_child (image : ImageReference) (platform : Platform) (authenticated : bool) (bearer : option string)
    (body media_type : string) : reg (string * string * Platform) :=
  index <- lift (parse_index index_of_json body media_type) ;;
  match List.filter (runs_on platform) (i_manifests index) with
  | [child] =>
      response <- fetch image (d_digest child) bearer None ;;
      lift (classify_status (hs_status response) authenticated) ;;;
      media <- lift (media_type_of response) ;;
      child_body <- lift (read_limited response MANIFEST_LIMIT) ;;
      lift (refuse_if ((digest child_body ≠? d_digest child) || declared_mismatch response (digest child_body)) DigestMismatch) ;;;
      manifest <- lift (parse_manifest manifest_of_json child_body media) ;;
      selected <- lift (value ← ok_or (d_platform child) PlatformNotFound; descriptor_platform value) ;;
      eret (d_digest child, d_digest (m_config manifest), selected)
  | _ => fail PlatformNotFound
  end.

Definition challenged (image : ImageReference) (credential : option (string * string)) (etag : option string) (first : HttpResponse)
    : reg (HttpResponse * option string) :=
  if hs_status first =? 401%Z
  then
    challenge <- lift (ok_or (hs_www_authenticate first) CredentialRequired) ;;
    if is_some_and challenge (starts_with "Basic ") then fail AuthUnsupported
    else
      token <- request_token image challenge credential ;;
      response <- fetch image (tag image) (Some token) etag ;;
      eret (response, Some token)
  else eret (first, None).

Definition resolve_inner (image : ImageReference) (platform : Platform) (credential : option (string * string)) (etag : option string)
    : reg PollResolve :=
  platform <- lift (canonical (os platform) (architecture platform) (variant platform)) ;;
  first <- fetch image (tag image) None etag ;;
  answered <- challenged image credential etag first ;;
  let '(response, bearer) := answered in
  if hs_status response =? 304%Z then eret NotModified
  else
    lift (classify_status (hs_status response) (is_some credential)) ;;;
    let etag := safe_etag (header_text (hs_etag response)) in
    media_type <- lift (media_type_of response) ;;
    body <- lift (read_limited response MANIFEST_LIMIT) ;;
    let source_digest := digest body in
    lift (refuse_if (declared_mismatch response source_digest) DigestMismatch) ;;;
    selected <- (if (media_type =? OCI_MANIFEST) || (media_type =? DOCKER_MANIFEST)
                 then manifest <- lift (parse_manifest manifest_of_json body media_type) ;;
                      eret (None, (source_digest, d_digest (m_config manifest), platform))
                 else if (media_type =? OCI_INDEX) || (media_type =? DOCKER_LIST)
                 then child <- fetch_child image platform (is_some credential) bearer body media_type ;;
                      eret (Some source_digest, child)
                 else fail ManifestUnsupported) ;;
    let '(index_digest, (manifest_digest, local_image_id, selected_platform)) := selected in
    runnable_image_ref <- lift (runnable image manifest_digest) ;;
    eret (Modified (MkResolvedImage (canonical_tagged_ref image) (logical_registry image) (repository image) (tag image) source_digest
                      index_digest manifest_digest runnable_image_ref selected_platform local_image_id) etag).

(** [tokio::time::timeout] of thirty seconds: the answer to a call may be lost. *)
Fixpoint within {A} (p : prog rev A) : prog rev (option A) :=
  match p with
  | Ret a => Ret (Some a)
  | OutOfFuel => OutOfFuel
  | Vis e k => Vis e (fun x => Vis DeadlineElapsed (fun late => if late : bool then Ret None else within (k x)))
  end.

Definition resolve_poll (image : ImageReference) (platform : Platform) (credential : option (string * string)) (etag : option string)
    : reg PollResolve :=
  prog_bind (within (resolve_inner image platform credential etag)) (fun r =>
    match r with Some r => lift r | None => fail RegTimeout end).

Definition resolve (image : ImageReference) (platform : Platform) (credential : option (string * string)) : reg ResolvedImage :=
  resolved <- resolve_poll image platform credential None ;;
  match resolved with Modified image _ => eret image | NotModified => fail Protocol end.

(** ** Blobs *)

Definition is_followable_redirect (status : Z) : bool := (status =? 302%Z) || (status =? 307%Z).

Definition blob_redirect_target (response : HttpResponse) : result RegistryError Url :=
  location ← ok_or (header_text (hs_location response)) Protocol;
  refuse_if (str_is_empty location || (8 * 1024 <? byte_len location)%Z) Protocol ;;
  target ← ok_or (url_join (hs_url response) location) Protocol;
  refuse_if (((url_scheme target ≠? "https") && negb (is_loopback_http target)) || negb (str_is_empty (url_username target))
             || is_some (url_password target) || is_some (url_fragment target)) Protocol ;;
  Ok target.

(** The token goes only to the origin of the first request. [hops] redirects
    may still be followed. *)
Fixpoint follow_blob (initial : Url) (bearer : option string) (hops : nat) (url : Url) : reg HttpResponse :=
  response <- send (MkHttpRequest (url_text url) None (if same_origin url initial then bearer else None) None) ;;
  if negb (is_followable_redirect (hs_status response)) then eret response
  else match hops with
       | O => fail Protocol
       | S hops => target <- lift (blob_redirect_target response) ;; follow_blob initial bearer hops target
       end.

Definition blob_url (image : ImageReference) (digest : string) : string :=
  transport_scheme image +:+ "://" +:+ transport_registry image +:+ "/v2/" +:+ repository image +:+ "/blobs/" +:+ digest.

Definition fetch_blob (image : ImageReference) (digest : string) (bearer : option string) : reg HttpResponse :=
  initial <- lift (ok_or (url_parse (blob_url image digest)) Protocol) ;;
  follow_blob initial bearer BLOB_REDIRECT_LIMIT initial.

Definition fetch_blob_authenticated (image : ImageReference) (digest : string) (credential : option (string * string)) : reg HttpResponse :=
  first <- fetch_blob image digest None ;;
  if hs_status first ≠? 401%Z then eret first
  else
    challenge <- lift (ok_or (hs_www_authenticate first) CredentialRequired) ;;
    token <- request_token image challenge credential ;;
    fetch_blob image digest (Some token).

(** ** Configurations *)

Definition exposed_port (value : string) : result RegistryError ExposedPort :=
  parts ← ok_or (split_once "/" value) Protocol;
  container_port ← ok_or (parse_unsigned u16_max parts.1) Protocol;
  refuse_if ((container_port =? 0%Z) || negb ((parts.2 =? "tcp") || (parts.2 =? "udp"))) Protocol ;;
  Ok (MkExposedPort container_port parts.2).

Fixpoint exposed_ports (values : list string) : result RegistryError (list ExposedPort) :=
  match values with
  | [] => Ok []
  | value :: rest => port ← exposed_port value; ports ← exposed_ports rest; Ok (port :: ports)
  end.

Definition port_leb (a b : ExposedPort) : bool :=
  if xp_container_port a =? xp_container_port b then text_leb (xp_protocol a) (xp_protocol b)
  else (xp_container_port a <=? xp_container_port b)%Z.

Definition bounded (limit : nat) (value : option string) : option string :=
  value ← value;
  if str_is_empty value || (limit <? String.length value)%nat then None else Some value.

Definition parse_image_config (body resolved_digest : string) : result RegistryError ImageConfigSuggestion :=
  root ← ok_or (image_config_of_json body) Protocol;
  ports ← exposed_ports (cj_exposed_ports root);
  refuse_if ((64 <? length ports)%nat || (64 <? length (cj_volumes root))%nat) Protocol ;;
  refuse_if (existsb (fun target => negb (starts_with "/" target) || (4096 <? byte_len target)%Z) (cj_volumes root)) Protocol ;;
  Ok (MkImageConfigSuggestion resolved_digest (sort_by port_leb ports) (sort_by text_leb (cj_volumes root)) (cj_has_healthcheck root)
        (bounded 256 (cj_user root)) (bounded 64 (cj_stop_signal root)) []).

Definition inspect_config (image : ImageReference) (platform : Platform) (credential : option (string * string))
    : reg ImageConfigSuggestion :=
  resolved <- resolve image platform credential ;;
  response <- fetch_blob_authenticated image (ri_local_image_id resolved) credential ;;
  lift (classify_status (hs_status response) (is_some credential)) ;;;
  body <- lift (read_limited response CONFIG_LIMIT) ;;
  lift (refuse_if (digest body ≠? ri_local_image_id resolved) DigestMismatch) ;;;
  lift (parse_image_config body (ri_manifest_digest resolved)).
End client.
