(* ===== verification/RegistryTheorems.v ===== *)
(** * RegistryTheorems: what the registry client sends and what it believes

    Over every trace: whatever the registry, its token endpoint and the hosts it
    redirects to answer. *)

From Stdlib Require Import Ascii.
From S2P Require Import Prelude Text Reference Models Effects Codec Names Drafts Database Ledger PollStates Poller RegistryClient.

Section theorems.
Context {UL : UrlText} {CR : Crypto} {RJ : RegistryJson}.
Context (allow_http_loopback : bool) (image : ImageReference) (credential : option (string * string)).

(** ** The journal: requests with their answers *)

Definition Exchange : Type := HttpRequest * HttpResponse.

Definition exchanged (j : list Exchange) (o : obs rev) : list Exchange :=
  match o with
  | Obs e x => match e in rev X return X -> list Exchange with
      | Send r => fun x => match x with Ok response => (r, response) :: j | Err _ => j end
      | DeadlineElapsed => fun _ => j
      end x
  end.

Abbreviation scheme := (transport_scheme allow_http_loopback image).

(** The credential goes to the token endpoint of the registry itself, or of
    Docker Hub for its images. *)
Definition trusted_endpoint (url : string) : Prop :=
  exists realm pairs origin, url = url_text (url_append_pairs realm pairs)
    /\ url_parse (scheme +:+ "://" +:+ transport_registry image +:+ "/") = Some origin
    /\ ((url_scheme realm = url_scheme origin /\ url_host realm = url_host origin /\ url_port realm = url_port origin)
        \/ (logical_registry image = "docker.io" /\ url_text realm = DOCKER_HUB_TOKEN_ENDPOINT)).

(** A token goes to the registry it was issued for. *)
Definition registry_request (url : string) : Prop :=
  (exists selector, url = manifest_url allow_http_loopback image selector)
  \/ exists digest initial target, url_parse (blob_url allow_http_loopback image digest) = Some initial /\ url = url_text target
       /\ url_scheme target = url_scheme initial /\ url_host target = url_host initial /\ url_port target = url_port initial.

(** It was read from the answer of a trusted endpoint. *)
Definition issued (j : list Exchange) (token : string) : Prop :=
  exists request response body tokens, (request, response) ∈ j /\ trusted_endpoint (hq_url request)
    /\ read_limited response TOKEN_LIMIT = Ok body /\ token_of_json body = Some tokens /\ chosen_token tokens = Some token.

Definition encrypted (url : string) : Prop :=
  (exists rest, url = "https://" +:+ rest) \/ exists u, url_parse url = Some u /\ url_scheme u = "https".

Definition confined (X : Type) (j : list Exchange) (e : rev X) : Prop :=
  match e with
  | Send r =>
      (forall c, hq_basic r = Some c -> credential = Some c /\ trusted_endpoint (hq_url r))
      /\ (forall token, hq_bearer r = Some token -> issued j token /\ registry_request (hq_url r))
      /\ (allow_http_loopback = false -> encrypted (hq_url r))
  | DeadlineElapsed => True
  end.

Abbreviation safe := (Effects.safe exchanged confined (fun _ _ _ _ => True) True).

(** A step with what it establishes if it succeeds. *)
Definition gives {A} (p : eprog rev RegistryError A) (j : list Exchange) (P : A -> list Exchange -> Prop) : Prop :=
  safe p j (fun j' r => j ⊆ j' /\ match r with Ok a => P a j' | Err _ => True end).

Lemma gives_bind {A B} (p : eprog rev RegistryError A) (f : A -> eprog rev RegistryError B) j P Q :
  gives p j P -> (forall a j', j ⊆ j' -> P a j' -> gives (f a) j' Q) -> gives (ebind p f) j Q.
Proof.
  intros Hp Hf. apply safe_bind. eapply safe_mono; [exact Hp|]. intros j' [a|e] [Hs HP]; [|done].
  eapply safe_mono; [by apply Hf|]. intros j'' r [Hs' HQ]. split; [by etrans|done].
Qed.

Lemma gives_lift {A B} (r : result RegistryError A) (f : A -> eprog rev RegistryError B) j Q :
  (forall a, r = Ok a -> gives (f a) j Q) -> gives (ebind (lift r) f) j Q.
Proof. intros Hf. destruct r; [by apply Hf|done]. Qed.

Lemma gives_ret {A} (a : A) j (P : A -> list Exchange -> Prop) : P a j -> gives (eret a) j P.
Proof. by split. Qed.

Lemma gives_mono {A} (p : eprog rev RegistryError A) j (P Q : A -> list Exchange -> Prop) :
  gives p j P -> (forall a j', j ⊆ j' -> P a j' -> Q a j') -> gives p j Q.
Proof. intros Hp H. eapply safe_mono; [exact Hp|]. intros j' [a|e] []; auto. Qed.

Lemma send_gives r j : confined _ j (Send r) -> gives (send r) j (fun response j' => (r, response) ∈ j').
Proof. intros Hr. split; [exact Hr|]. intros [response|e] _; simpl; [|done]. split; set_solver. Qed.

Lemma within_safe {A} (p : prog rev A) j (Q : list Exchange -> A -> Prop) :
  safe p j Q -> safe (within p) j (fun j' o => match o with Some a => Q j' a | None => j ⊆ j' end).
Proof.
  intros Hp. enough (forall j0, j0 ⊆ j -> safe (within p) j (fun j' o => match o with Some a => Q j' a | None => j0 ⊆ j' end)) as H by (by apply H).
  revert j Hp. induction p as [a|X e k IH|]; intros j Hp j0 Hj; simpl in *; [done| |done].
  destruct Hp as [He Hk]. split; [done|]. intros x _. assert (j0 ⊆ exchanged j (Obs e x)) as Hj'.
  { destruct e; simpl; [|done]. destruct x; set_solver. }
  split; [done|]. intros [] _; [done|]. by apply IH; [apply Hk|].
Qed.

(** ** Requests *)

Lemma scheme_https : allow_http_loopback = false -> scheme = "https".
Proof. unfold transport_scheme. by intros ->. Qed.

Lemma fetch_gives selector bearer etag j :
  (forall token, bearer = Some token -> issued j token) ->
  gives (fetch allow_http_loopback image selector bearer etag) j
    (fun response j' => (MkHttpRequest (manifest_url allow_http_loopback image selector) None bearer etag, response) ∈ j').
Proof.
  intros Hb. apply send_gives. split; [done|]. split.
  - intros token Ht. split; [by apply Hb|left; by exists selector].
  - intros Hl. left. unfold manifest_url. rewrite scheme_https by done. by eexists.
Qed.

Lemma issued_mono j j' token : j ⊆ j' -> issued j token -> issued j' token.
Proof. intros Hj (r & s & body & tokens & H & H'). exists r, s, body, tokens. set_solver. Qed.

Lemma https_only (url : Url) : (url_scheme url ≠? "https") && true = false -> url_scheme url = "https".
Proof. rewrite andb_true_r. intros H. by bools. Qed.

Lemma bearer_scheme value c :
  allow_http_loopback = false -> parse_bearer allow_http_loopback value = Ok c -> url_scheme (bc_realm c) = "https".
Proof.
  intros Hl H. unfold parse_bearer, is_loopback_http in H. rewrite Hl in H. ok_inv. simpl in *. bools. by apply https_only.
Qed.

Lemma redirect_scheme response target :
  allow_http_loopback = false -> blob_redirect_target allow_http_loopback response = Ok target -> url_scheme target = "https".
Proof.
  intros Hl H. unfold blob_redirect_target, is_loopback_http in H. rewrite Hl in H. ok_inv. simpl in *. bools. by apply https_only.
Qed.

Lemma realm_trusted realm pairs :
  validate_bearer_realm allow_http_loopback image realm = Ok tt -> trusted_endpoint (url_text (url_append_pairs realm pairs)).
Proof.
  unfold validate_bearer_realm. intros H. ok_inv. exists realm, pairs, a. split_and!; [done|done|].
  apply negb_false_iff, orb_prop in H as [H|H]; unfold same_origin in *; bools; auto.
Qed.

Lemma request_token_gives challenge j :
  gives (request_token allow_http_loopback image challenge credential) j (fun token j' => issued j' token).
Proof.
  unfold request_token. apply gives_lift. intros c Hc. apply gives_lift. intros [] Hv. cbv zeta.
  set (pairs := _ ++ _). pose proof (realm_trusted _ pairs Hv) as Htrust.
  eapply gives_bind; [apply send_gives|].
  { split; [by intros basic Hbasic|]. split; [done|]. intros Hl. right. eexists. split; [apply url_parse_text|].
    destruct (url_pairs_origin (bc_realm c) pairs) as [-> _]. by eapply bearer_scheme. }
  intros response j' Hj Hin. apply gives_lift. intros [] _. apply gives_lift. intros body Hbody. apply gives_lift. intros tokens Htokens.
  unfold lift. destruct (chosen_token tokens) as [token|] eqn:Ht; [|done]. apply gives_ret.
  apply ok_or_ok_inv in Htokens. by exists (MkHttpRequest (url_text (url_append_pairs (bc_realm c) pairs)) credential None None), response, body, tokens.
Qed.

(** ** Blobs *)

Lemma blob_send_gives initial bearer url digest j :
  url_parse (blob_url allow_http_loopback image digest) = Some initial -> (forall token, bearer = Some token -> issued j token) ->
  (allow_http_loopback = false -> url_scheme url = "https") ->
  gives (send (MkHttpRequest (url_text url) None (if same_origin url initial then bearer else None) None)) j
    (fun response j' => exists request, (request, response) ∈ j').
Proof.
  intros Hinit Hb Hs. eapply gives_mono; [apply send_gives|intros a j' _ H; eexists; exact H]. split; [done|]. split.
  - cbn. destruct (same_origin url initial) eqn:Ho; [|discriminate]. intros token Ht. split; [by apply Hb|]. right. exists digest, initial, url.
    apply andb_true_iff in Ho as [[? ?]%andb_true_iff ?]. by bools.
  - intros Hl. right. exists url. split; [apply url_parse_text|by apply Hs].
Qed.

Lemma follow_blob_gives initial bearer hops url digest j :
  url_parse (blob_url allow_http_loopback image digest) = Some initial -> (forall token, bearer = Some token -> issued j token) ->
  (allow_http_loopback = false -> url_scheme url = "https") ->
  gives (follow_blob allow_http_loopback initial bearer hops url) j (fun response j' => exists request, (request, response) ∈ j').
Proof.
  intros Hinit. revert url j. induction hops as [|hops IH]; intros url j Hb Hs; cbn [follow_blob];
    (eapply gives_bind; [by eapply blob_send_gives|]); intros response j' Hj Hin; (destruct (is_followable_redirect _); [|by apply gives_ret]).
  - done.
  - apply gives_lift. intros target Ht. apply IH; [|by intros Hl; eapply redirect_scheme].
    intros token Htoken. by eapply issued_mono, Hb.
Qed.

Lemma fetch_blob_gives digest bearer j :
  (forall token, bearer = Some token -> issued j token) ->
  gives (fetch_blob allow_http_loopback image digest bearer) j (fun response j' => exists request, (request, response) ∈ j').
Proof.
  intros Hb. apply gives_lift. intros initial Hi%ok_or_ok_inv. apply (follow_blob_gives _ _ _ _ digest); [done|done|].
  intros Hl. unfold blob_url in Hi. rewrite scheme_https in Hi by done.
  apply (url_parse_https (transport_registry image +:+ "/v2/" +:+ repository image +:+ "/blobs/" +:+ digest)), Hi.
Qed.

Lemma fetch_blob_authenticated_gives digest j :
  gives (fetch_blob_authenticated allow_http_loopback image digest credential) j (fun response j' => exists request, (request, response) ∈ j').
Proof.
  unfold fetch_blob_authenticated. eapply gives_bind; [by apply fetch_blob_gives|]. intros first j1 H1 Hin.
  destruct (negb _); [by apply gives_ret|]. apply gives_lift. intros challenge _.
  eapply gives_bind; [apply request_token_gives|]. intros token j2 H2 Ht. apply fetch_blob_gives. by intros ? [= <-].
Qed.

(** ** Resolution *)

(** The body of an answer to a request for a manifest. *)
Definition received (j : list Exchange) (selector : string) (body media_type : string) : Prop :=
  exists request response, (request, response) ∈ j /\ hq_url request = manifest_url allow_http_loopback image selector
    /\ read_limited response MANIFEST_LIMIT = Ok body /\ media_type_of response = Ok media_type.

Lemma received_mono j j' selector body media : j ⊆ j' -> received j selector body media -> received j' selector body media.
Proof. intros Hj (r & s & H & H'). exists r, s. set_solver. Qed.

(** The only manifest of an index for the platform, received under the digest
    the index gives it, with the configuration it names. *)
Definition selected_child (j : list Exchange) (wanted : Platform) (body media_type : string) (out : string * string * Platform) : Prop :=
  exists index child child_body child_media manifest,
    parse_index index_of_json body media_type = Ok index /\ List.filter (runs_on wanted) (i_manifests index) = [child]
    /\ received j (d_digest child) child_body child_media /\ digest child_body = d_digest child
    /\ parse_manifest manifest_of_json child_body child_media = Ok manifest
    /\ out = (d_digest child, d_digest (m_config manifest), wanted).

(** Every digest of the result is that of bytes received for this image, or is
    named by such bytes. *)
Definition resolved_from (j : list Exchange) (platform : Platform) (resolved : ResolvedImage) : Prop :=
  exists body media_type wanted,
    canonical (os platform) (architecture platform) (variant platform) = Ok wanted
    /\ received j (tag image) body media_type /\ ri_source_descriptor_digest resolved = digest body
    /\ runnable image (ri_manifest_digest resolved) = Ok (ri_runnable_image_ref resolved)
    /\ ri_platform resolved = wanted
    /\ ((exists manifest, parse_manifest manifest_of_json body media_type = Ok manifest /\ ri_index_digest resolved = None
           /\ ri_manifest_digest resolved = digest body /\ ri_local_image_id resolved = d_digest (m_config manifest))
        \/ (ri_index_digest resolved = Some (digest body)
            /\ selected_child j wanted body media_type (ri_manifest_digest resolved, ri_local_image_id resolved, ri_platform resolved))).

Lemma selected_child_mono j j' wanted body media out :
  j ⊆ j' -> selected_child j wanted body media out -> selected_child j' wanted body media out.
Proof.
  intros Hj (index & child & cb & cm & m & Hi & Hf & Hr & H). exists index, child, cb, cm, m. split_and!; try apply H; try done.
  by eapply received_mono.
Qed.

Lemma challenged_gives etag first request j :
  (request, first) ∈ j -> hq_url request = manifest_url allow_http_loopback image (tag image) ->
  gives (challenged allow_http_loopback image credential etag first) j (fun out j' =>
    (exists request, (request, out.1) ∈ j' /\ hq_url request = manifest_url allow_http_loopback image (tag image))
    /\ forall token, out.2 = Some token -> issued j' token).
Proof.
  intros Hin Hurl. unfold challenged. destruct (bool_decide _); [|by apply gives_ret; split; [exists request|]].
  apply gives_lift. intros challenge _. destruct (is_some_and challenge _); [done|].
  eapply gives_bind; [apply request_token_gives|]. intros token j1 H1 Ht.
  eapply gives_bind; [apply fetch_gives; by intros ? [= <-]|]. intros response j2 H2 Hr. apply gives_ret. split; [eexists; split; [exact Hr|done]|].
  intros ? [= <-]. by eapply issued_mono.
Qed.

Lemma fetch_child_gives wanted authenticated bearer body media_type j :
  (forall token, bearer = Some token -> issued j token) ->
  gives (fetch_child allow_http_loopback image wanted authenticated bearer body media_type) j
    (fun out j' => selected_child j' wanted body media_type out).
Proof.
  intros Hb. unfold fetch_child. apply gives_lift. intros index Hindex.
  destruct (List.filter (runs_on wanted) (i_manifests index)) as [|child [|]] eqn:Hf; [done| |done].
  eapply gives_bind; [by apply fetch_gives|]. intros response j1 H1 Hin. apply gives_lift. intros [] _.
  apply gives_lift. intros media Hmedia. apply gives_lift. intros child_body Hbody. apply gives_lift. intros [] Hdigest%refuse_if_ok.
  apply gives_lift. intros manifest Hmanifest. apply gives_lift. intros selected Hselected. apply gives_ret.
  exists index, child, child_body, media, manifest. bools. split_and!; try done; [eexists _, _; split_and!; [exact Hin|done..]|].
  assert (runs_on wanted child = true) as Hruns by (by apply (proj2 (proj1 (filter_In (runs_on wanted) child (i_manifests index)) ltac:(rewrite Hf; by left)))).
  unfold runs_on in Hruns. bools. ok_inv. rewrite E in *. simpl in *. destruct (descriptor_platform a) as [q|]; [|done]. bools. by simplify_eq.
Qed.

Lemma resolve_inner_gives platform etag j :
  gives (resolve_inner allow_http_loopback image platform credential etag) j (fun out j' =>
    match out with Modified resolved _ => resolved_from j' platform resolved | NotModified => True end).
Proof.
  unfold resolve_inner. apply gives_lift. intros wanted Hwanted. eapply gives_bind; [by apply fetch_gives|]. intros first j1 H1 Hfirst.
  eapply gives_bind; [eapply challenged_gives; [exact Hfirst|done]|]. intros [response bearer] j2 H2 [(request & Hin & Hurl) Hb].
  simpl in Hin, Hb. destruct (bool_decide _); [by apply gives_ret|]. apply gives_lift. intros [] _. apply gives_lift. intros media Hmedia.
  apply gives_lift. intros body Hbody. apply gives_lift. intros [] _.
  assert (received j2 (tag image) body media) as Hrec by (by exists request, response).
  destruct ((media =? OCI_MANIFEST) || (media =? DOCKER_MANIFEST)); [|destruct ((media =? OCI_INDEX) || (media =? DOCKER_LIST)); [|by split]].
  - eapply (gives_bind _ _ _ (fun out j' => exists manifest, parse_manifest manifest_of_json body media = Ok manifest
      /\ out = (None, (digest body, d_digest (m_config manifest), wanted)))).
    { apply gives_lift. intros manifest Hm. apply gives_ret. by exists manifest. }
    intros ? j3 H3 (manifest & Hm & ->). apply gives_lift. intros ref Href. apply gives_ret.
    exists body, media, wanted. split_and!; try done; [by eapply received_mono|]. left. by exists manifest.
  - eapply (gives_bind _ _ _ (fun out j' => out.1 = Some (digest body) /\ selected_child j' wanted body media out.2)).
    { eapply gives_bind; [by apply fetch_child_gives|]. intros out j3 H3 Ho. by apply gives_ret. }
    intros [? [[manifest_digest id] selected]] j3 H3 [Hi Hc]. simpl in Hi, Hc. subst. apply gives_lift. intros ref Href. apply gives_ret.
    assert (selected = wanted) as -> by (by destruct Hc as (? & ? & ? & ? & ? & ? & ? & ? & ? & ? & [= _ _ ->])).
    exists body, media, wanted. split_and!; try done; [by eapply received_mono|]. by right.
Qed.

Lemma resolve_poll_gives platform etag j :
  gives (resolve_poll allow_http_loopback image platform credential etag) j (fun out j' =>
    match out with Modified resolved _ => resolved_from j' platform resolved | NotModified => True end).
Proof.
  apply safe_bind. eapply safe_mono; [apply within_safe, resolve_inner_gives|]. intros j' [[out|e]|] H; simpl; try done; by destruct H.
Qed.

(** The configuration was received and is the one the manifest names. *)
Definition suggested_from (j : list Exchange) (platform : Platform) (suggestion : ImageConfigSuggestion) : Prop :=
  exists resolved request response body, resolved_from j platform resolved /\ (request, response) ∈ j
    /\ read_limited response CONFIG_LIMIT = Ok body /\ digest body = ri_local_image_id resolved
    /\ parse_image_config body (ri_manifest_digest resolved) = Ok suggestion.

Lemma resolved_from_mono j j' platform resolved : j ⊆ j' -> resolved_from j platform resolved -> resolved_from j' platform resolved.
Proof.
  intros Hj (body & media & wanted & Hc & Hr & Hs & Hrun & Hp & H). exists body, media, wanted. split_and!; try done; [by eapply received_mono|].
  destruct H as [H|[Hi H]]; [by left|right]. split; [done|by eapply selected_child_mono].
Qed.

Lemma inspect_config_gives platform j :
  gives (inspect_config allow_http_loopback image platform credential) j (fun suggestion j' => suggested_from j' platform suggestion).
Proof.
  eapply (gives_bind _ _ _ (fun resolved j' => resolved_from j' platform resolved)).
  { eapply gives_bind; [apply resolve_poll_gives|]. intros [|resolved etag] j1 H1 Hr; [done|by apply gives_ret]. }
  intros resolved j1 H1 Hr. eapply gives_bind; [apply fetch_blob_authenticated_gives|]. intros response j2 H2 [request Hin].
  apply gives_lift. intros [] _. apply gives_lift. intros body Hbody. apply gives_lift. intros [] Hd%refuse_if_ok. bools.
  unfold lift. destruct (parse_image_config _ _) as [suggestion|] eqn:Hp; [|done]. apply gives_ret.
  exists resolved, request, response, body. split_and!; try done. by eapply resolved_from_mono.
Qed.

(** ** What the traces show *)

Definition journal (tr : list (obs rev)) : list Exchange := foldl exchanged [] tr.

Lemma relied_any j tr : relied exchanged (fun _ _ _ _ => True) j tr.
Proof. revert j. induction tr as [|[X e x] tr IH]; intros j; [done|]. by split. Qed.

Definition secrets_confined (tr : list (obs rev)) : Prop :=
  forall tr1 request x tr2, tr = tr1 ++ Obs (Send request) x :: tr2 -> confined _ (journal tr1) (Send request).

Lemma gives_trace {A} (p : eprog rev RegistryError A) P tr o :
  gives p [] P -> trace p tr o -> secrets_confined tr /\ forall a, o = Some (Ok a) -> P a (journal tr).
Proof.
  intros Hp Ht. destruct (safe_sound _ _ _ _ _ _ _ _ _ Hp Ht (relied_any _ _)) as [Hc Ho]. split.
  - intros tr1 request x tr2 Heq. apply (Hc tr1 (Obs (Send request) x) tr2 Heq).
  - intros a Ha. by apply (Ho _ Ha).
Qed.

(** C35: whatever the registry, its token endpoint and the hosts it redirects to
    answer, the credential is sent only to a token endpoint of the registry's own
    origin (or to Docker Hub's, for its images), a bearer token only to the origin
    of the registry it was issued for, by an answer of such an endpoint, and in
    production no request is sent in the clear. *)
Theorem registry_secrets_confined platform etag tr o o' :
  (trace (resolve_poll allow_http_loopback image platform credential etag) tr o -> secrets_confined tr)
  /\ (trace (inspect_config allow_http_loopback image platform credential) tr o' -> secrets_confined tr).
Proof.
  split; intros Ht; [exact (proj1 (gives_trace _ _ _ _ (resolve_poll_gives _ _ _) Ht))|].
  exact (proj1 (gives_trace _ _ _ _ (inspect_config_gives _ _) Ht)).
Qed.

(** C36: a resolved image is what the registry served, byte for byte: its source
    digest is that of the manifest or index received under the tag, its manifest
    digest that of a manifest received (under the digest the index gives the only
    entry for the platform asked for), its image id the configuration that
    manifest names, and its platform the one asked for; and a configuration is
    suggested only from bytes with that image id. *)
Theorem resolved_image_authentic platform etag tr :
  (forall resolved new_etag, trace (resolve_poll allow_http_loopback image platform credential etag) tr (Some (Ok (Modified resolved new_etag))) ->
     resolved_from (journal tr) platform resolved)
  /\ (forall suggestion, trace (inspect_config allow_http_loopback image platform credential) tr (Some (Ok suggestion)) ->
     suggested_from (journal tr) platform suggestion).
Proof.
  split.
  - intros resolved new_etag Ht. exact (proj2 (gives_trace _ _ _ _ (resolve_poll_gives _ _ _) Ht) _ eq_refl).
  - intros suggestion Ht. exact (proj2 (gives_trace _ _ _ _ (inspect_config_gives _ _) Ht) _ eq_refl).
Qed.
End theorems.

(** ** Bounds *)

Section bounds.
Context {UL : UrlText} {CR : Crypto} {RJ : RegistryJson}.
Context (allow_http_loopback : bool) (image : ImageReference) (credential : option (string * string)).

Definition sends {X} (e : rev X) : nat := match e with Send _ => 1 | DeadlineElapsed => 0 end.

Definition requests (tr : list (obs rev)) : nat := sum_list_with (fun '(Obs e _) => sends e) tr.

(** It returns after at most [n] requests. *)
Fixpoint at_most {A} (n : nat) (p : prog rev A) : Prop :=
  match p with
  | Ret _ => True
  | Vis e k => exists m, n = sends e + m /\ forall x, at_most m (k x)
  | OutOfFuel => False
  end.

Lemma at_most_more {A} n m (p : prog rev A) : at_most m p -> at_most (n + m) p.
Proof.
  revert m. induction p as [a|X e k IH|]; intros m; simpl; [done| |done]. intros (r & -> & Hk). exists (n + r). split; [lia|]. auto.
Qed.

Lemma at_most_bind {A B} n m (p : prog rev A) (f : A -> prog rev B) :
  at_most n p -> (forall a, at_most m (f a)) -> at_most (n + m) (prog_bind p f).
Proof.
  revert n. induction p as [a|X e k IH|]; intros n; simpl; [|intros (r & -> & Hk) Hf|done].
  - intros _ Hf. by apply at_most_more.
  - exists (r + m). split; [lia|]. eauto.
Qed.

Lemma at_most_ebind {A B} n m (p : eprog rev RegistryError A) (f : A -> eprog rev RegistryError B) :
  at_most n p -> (forall a, at_most m (f a)) -> at_most (n + m) (ebind p f).
Proof. intros Hp Hf. apply at_most_bind; [done|]. by intros [a|e]; [apply Hf|]. Qed.

Lemma at_most_lift {A B} n (r : result RegistryError A) (f : A -> eprog rev RegistryError B) :
  (forall a, at_most n (f a)) -> at_most n (ebind (lift r) f).
Proof. intros Hf. by destruct r; [apply Hf|]. Qed.

Lemma at_most_send r : at_most 1 (send r).
Proof. by exists 0. Qed.

Lemma at_most_within {A} n (p : prog rev A) : at_most n p -> at_most n (within p).
Proof.
  revert n. induction p as [a|X e k IH|]; intros n; simpl; [done| |done]. intros (m & -> & Hk). exists m. split; [done|].
  intros x. exists m. split; [done|]. intros []; [done|]. by apply IH.
Qed.

Lemma at_most_run {A W} (serve : forall X, rev X -> W -> X * W) n (p : prog rev A) w :
  at_most n p -> (exists a, (run serve p w).1 = Some a) /\ requests (run_log serve p w) <= n.
Proof.
  revert n w. induction p as [a|X e k IH|]; intros n w; simpl; [intros _; split; [by eexists|unfold requests; simpl; lia]| |done].
  intros (m & -> & Hk). destruct (serve X e w) as [x w']. destruct (IH x m w' (Hk x)) as [Ha Hn]. split; [done|].
  unfold requests in *. simpl. lia.
Qed.

Lemma at_most_token challenge : at_most 1 (request_token allow_http_loopback image challenge credential).
Proof.
  unfold request_token. do 2 (apply at_most_lift; intros). apply (at_most_ebind 1 0); [apply at_most_send|].
  intros response. do 3 (apply at_most_lift; intros). done.
Qed.

Lemma at_most_resolve platform etag : at_most 4 (resolve_poll allow_http_loopback image platform credential etag).
Proof.
  apply (at_most_bind 4 0); [|by intros [r|]]. apply at_most_within. apply at_most_lift. intros wanted.
  apply (at_most_ebind 1 3); [apply at_most_send|]. intros first. apply (at_most_ebind 2 1).
  { unfold challenged. destruct (bool_decide _); [|done]. apply at_most_lift. intros challenge. destruct (is_some_and _ _); [done|].
    apply (at_most_ebind 1 1); [apply at_most_token|]. intros token. by apply (at_most_ebind 1 0); [apply at_most_send|]. }
  intros [response bearer]. destruct (bool_decide _); [done|]. do 4 (apply at_most_lift; intros).
  apply (at_most_ebind 1 0).
  - destruct (_ || _ : bool); [by apply at_most_lift|]. destruct (_ || _ : bool); [|done]. apply (at_most_ebind 1 0); [|done].
    apply at_most_lift. intros index. destruct (List.filter _ _) as [|child [|]]; [done| |done].
    apply (at_most_ebind 1 0); [apply at_most_send|]. intros answer. by do 6 (apply at_most_lift; intros).
  - intros (i & [[d id] p]). by apply at_most_lift.
Qed.

Lemma at_most_blob digest bearer : at_most 4 (fetch_blob allow_http_loopback image digest bearer).
Proof.
  apply at_most_lift. intros initial. unfold BLOB_REDIRECT_LIMIT. generalize initial at 2. generalize 3. intros hops.
  induction hops as [|hops IH]; intros url; simpl follow_blob.
  - apply (at_most_ebind 1 0); [apply at_most_send|]. intros response. by destruct (negb _).
  - apply (at_most_ebind 1 (S hops)); [apply at_most_send|]. intros response. destruct (negb _); [done|]. by apply at_most_lift.
Qed.

Lemma at_most_inspect platform : at_most 13 (inspect_config allow_http_loopback image platform credential).
Proof.
  apply (at_most_ebind 4 9). { apply (at_most_ebind 4 0); [apply at_most_resolve|]. by intros []. }
  intros resolved. apply (at_most_ebind 9 0).
  - apply (at_most_ebind 4 5); [apply at_most_blob|]. intros first. destruct (negb _); [done|]. apply at_most_lift. intros challenge.
    apply (at_most_ebind 1 4); [apply at_most_token|]. intros token. apply at_most_blob.
  - intros response. do 3 (apply at_most_lift; intros). by destruct (parse_image_config _ _).
Qed.

Lemma read_chunks_bound limit chunks body out :
  read_chunks limit body chunks = Ok out -> (byte_len body <= limit)%Z -> (byte_len out <= limit)%Z.
Proof.
  revert body. induction chunks as [|chunk rest IH]; intros body H Hb; simpl in H; ok_inv; [done|].
  apply (IH (body +:+ a)); [done|]. unfold byte_len in *. rewrite length_append. lia.
Qed.

(** Whatever it is answered, looking up an image returns after at most four
    requests and inspecting its configuration after at most thirteen, however the
    hosts redirect, and no answer's body is kept beyond the limit it is read
    with, however it is cut into chunks and whatever length it declares. *)
Theorem registry_work_bounded W (serve : forall X, rev X -> W -> X * W) platform etag w :
  (exists r, (run serve (resolve_poll allow_http_loopback image platform credential etag) w).1 = Some r)
  /\ requests (run_log serve (resolve_poll allow_http_loopback image platform credential etag) w) <= 4
  /\ (exists r, (run serve (inspect_config allow_http_loopback image platform credential) w).1 = Some r)
  /\ requests (run_log serve (inspect_config allow_http_loopback image platform credential) w) <= 13
  /\ forall response limit body, read_limited response limit = Ok body -> limit ∈ [TOKEN_LIMIT; MANIFEST_LIMIT; CONFIG_LIMIT] ->
       (byte_len body <= limit)%Z.
Proof.
  destruct (at_most_run serve 4 _ w (at_most_resolve platform etag)) as [H1 H2].
  destruct (at_most_run serve 13 _ w (at_most_inspect platform)) as [H3 H4]. split_and!; try done.
  intros response limit body Hr Hl. unfold read_limited in Hr. ok_inv. eapply read_chunks_bound; [done|]. simpl. set_unfold.
  by destruct Hl as [->|[->|[->|[]]]].
Qed.
End bounds.

(** ** An image of Docker Hub, looked up and inspected

    A registry which asks for a token, serves an index, and redirects the
    configuration to another host. *)

#[local] Existing Instance demo_crypto.

(** ** URLs as their text *)

(** The text before the first occurrence of a character, and after it. *)
Fixpoint until (c : ascii) (s : string) : string * option string :=
  match s with
  | EmptyString => ("", None)
  | String d s => if bool_decide (c = d) then ("", Some s) else let '(a, b) := until c s in (String d a, b)
  end.

Lemma until_append c s a b t : until c s = (a, Some b) -> until c (s +:+ t) = (a, Some (b +:+ t)).
Proof.
  revert a. induction s as [|d s IH]; intros a H; simpl in *; [done|]. destruct (bool_decide _); [by simplify_eq|].
  destruct (until c s) as [a' b']. simplify_eq. by rewrite (IH a').
Qed.

Definition authority (s : string) : option string * option string :=
  match until ":" s with
  | (_, Some (String _ (String _ rest))) => let '(host, path) := until "/" rest in (Some host, path)
  | _ => (None, None)
  end.

Definition with_query (s : string) (pairs : list (string * string)) : string :=
  match authority s with
  | (_, Some _) => s +:+ "?" +:+ String.concat "&" ((fun '(k, v) => k +:+ "=" +:+ v) <$> pairs)
  | _ => s
  end.

Lemma with_query_origin s pairs : (until ":" (with_query s pairs)).1 = (until ":" s).1 /\ (authority (with_query s pairs)).1 = (authority s).1.
Proof.
  unfold with_query. generalize (String.append "?" (String.concat "&" ((fun '(k, v) => k +:+ "=" +:+ v) <$> pairs))). intros t.
  destruct (authority s) as [host [path|]] eqn:Ha; [|by rewrite Ha]. unfold authority in *.
  destruct (until ":" s) as [scheme [[|x [|y rest]]|]] eqn:Hs; try done. rewrite (until_append _ _ _ _ t Hs). simpl.
  destruct (until "/" rest) as [h p] eqn:Hr. simplify_eq. by rewrite (until_append _ _ _ _ t Hr).
Qed.

#[local, program] Instance text_url : UrlText := {|
  Url := string;
  url_parse s := Some s;
  url_join _ s := Some s;
  url_append_pairs := with_query;
  url_text s := s;
  url_scheme s := (until ":" s).1;
  url_host s := (authority s).1;
  url_port s := Some (if (until ":" s).1 =? "https" then 443%Z else 80%Z);
  url_username _ := "";
  url_password _ := None;
  url_query s := (until "?" s).2;
  url_fragment s := (until "#" s).2;
|}.
Next Obligation. done. Qed.
Next Obligation. intros s u [= <-]. done. Qed.
Next Obligation. intros u pairs. destruct (with_query_origin u pairs) as [H1 H2]. cbv beta. by rewrite H1. Qed.

(** ** A registry *)

Definition hub_image : ImageReference := default (MkImageReference "" "" "" "" "" "")
  (match parse "nginx:1.27" with Ok image => Some image | Err _ => None end).
Definition hub_platform : Platform := MkPlatform "linux" "amd64" None.
Definition hub_credential : string * string := ("alice", "correct horse").

#[local] Instance plain_registry_json : RegistryJson := {|
  manifest_of_json s := if s =? "manifest" then Some (MkManifest 2 None (MkDescriptor OCI_CONFIG (digest "config") None)) else None;
  index_of_json s := if s =? "index"
    then Some (MkIndex 2 None [MkDescriptor OCI_MANIFEST (digest "other") (Some (MkDescriptorPlatform "arm64" "linux" None));
                               MkDescriptor OCI_MANIFEST (digest "manifest") (Some (MkDescriptorPlatform "x86_64" "linux" None))])
    else None;
  token_of_json s := if s =? "token" then Some (Some "opaque", None) else None;
  image_config_of_json s := if s =? "config" then Some (MkImageConfigJson ["80/tcp"; "443/tcp"] ["/cache"] false (Some "nginx") None) else None;
|}.

Definition hub_challenge : string :=
  let quote := String double_quote EmptyString in
  "Bearer realm=" +:+ quote +:+ DOCKER_HUB_TOKEN_ENDPOINT +:+ quote +:+ ",service=" +:+ quote +:+ "registry.docker.io" +:+ quote.

Definition answer (status : Z) (challenge location kind : option string) (body : string) (request : HttpRequest) : HttpResponse :=
  MkHttpResponse status (hq_url request : Url) (Some <$> challenge) (Some <$> location) None (Some <$> kind) None None [Ok body].

Definition hub_answer (request : HttpRequest) : HttpResponse :=
  let url := hq_url request in
  if starts_with DOCKER_HUB_TOKEN_ENDPOINT url then answer 200 None None None "token" request
  else if url =? "https://cdn.example/config" then answer 200 None None None "config" request
  else if is_none (hq_bearer request) then answer 401 (Some hub_challenge) None None "" request
  else if url =? manifest_url false hub_image (tag hub_image) then answer 200 None None (Some OCI_INDEX) "index" request
  else if url =? manifest_url false hub_image (digest "manifest") then answer 200 None None (Some OCI_MANIFEST) "manifest" request
  else if url =? blob_url false hub_image (digest "config") then answer 307 None (Some "https://cdn.example/config") None "" request
  else answer 404 None None None "" request.

Definition hub_serve (X : Type) (e : rev X) (w : unit) : X * unit :=
  match e with Send request => (Ok (hub_answer request), w) | DeadlineElapsed => (false, w) end.

Definition hub_inspection : eprog rev RegistryError ImageConfigSuggestion := inspect_config false hub_image hub_platform (Some hub_credential).
Definition hub_poll : eprog rev RegistryError PollResolve := resolve_poll false hub_image hub_platform (Some hub_credential) None.

Example hub_inspected : (run hub_serve hub_inspection tt).1 =
  Some (Ok (MkImageConfigSuggestion (digest "manifest") [MkExposedPort 80 "tcp"; MkExposedPort 443 "tcp"] ["/cache"] false (Some "nginx") None [])).
Proof. vm_compute. reflexivity. Qed.

(** Eight requests: the credential goes to the token endpoint twice, the token to
    the registry three times and not to the host the configuration is served by. *)
Example hub_requests :
  omap (fun '(Obs e _) => match e with Send r => Some (hq_basic r, hq_bearer r) | DeadlineElapsed => None end) (run_log hub_serve hub_inspection tt)
  = [(None, None); (Some hub_credential, None); (None, Some "opaque"); (None, Some "opaque");
     (None, None); (Some hub_credential, None); (None, Some "opaque"); (None, None)].
Proof. vm_compute. reflexivity. Qed.

Lemma registry_secrets_confined_witness :
  secrets_confined false hub_image (Some hub_credential) (run_log hub_serve hub_poll tt)
  /\ secrets_confined false hub_image (Some hub_credential) (run_log hub_serve hub_inspection tt).
Proof.
  split.
  - exact (proj1 (registry_secrets_confined false hub_image (Some hub_credential) hub_platform None _ _ None) (run_trace hub_serve hub_poll tt)).
  - exact (proj2 (registry_secrets_confined false hub_image (Some hub_credential) hub_platform None _ None _) (run_trace hub_serve hub_inspection tt)).
Defined.

Lemma resolved_image_authentic_witness :
  exists suggestion, suggested_from false hub_image (journal (run_log hub_serve hub_inspection tt)) hub_platform suggestion.
Proof.
  eexists. apply (proj2 (resolved_image_authentic false hub_image (Some hub_credential) hub_platform None _)).
  pose proof (run_trace hub_serve hub_inspection tt) as Ht. rewrite hub_inspected in Ht. exact Ht.
Defined.

Lemma registry_work_bounded_witness : (byte_len "config" <= CONFIG_LIMIT)%Z.
Proof.
  apply (proj2 (proj2 (proj2 (proj2 (registry_work_bounded false hub_image None unit hub_serve hub_platform None tt))))
           (answer 200 None None None "config" (MkHttpRequest "" None None None)));
    [reflexivity|right; right; left].
Defined.
